(* ===== verification/_CoqProject ===== *)
-Q . S2P
Prelude.v
State.v
CString.v
CStringFacts.v
LibBase.v
LibBaseFacts.v
Types.v
TypesFacts.v
AdbIO.v
AdbIOFacts.v
Packets.v
PacketsFacts.v
Nonblocking.v
NonblockingFacts.v
Adapter.v
AdapterFacts.v
Transport.v
TransportFacts.v
HostService.v
HostServiceFacts.v
SocketSpec.v
SocketSpecFacts.v
Env.v
Sockets.v
SocketsWp.v
SocketsInv.v
SocketsIO.v
SocketsSafe.v
SocketsFrame.v
SocketsCorrect.v
TrackersFacts.v
Listeners.v
ServerInv.v
ListenersFacts.v
LifecycleFacts.v
HostRequest.v
HostRequestFacts.v
SmartSockets.v
SmartSocketsFacts.v
EventsFacts.v
HandlePacket.v
HandlePacketFacts.v
Server.v
ServerFacts.v
ServerProps.v
Client.v
ClientFacts.v
QueryFacts.v
Errno.v
Paths.v
Compression.v
CompressionFacts.v
SyncProtocol.v
SyncService.v
SyncClient.v
SyncSample.v
SyncFacts.v
SyncPush.v
SyncPull.v
SyncListing.v
SyncDirs.v
SyncDirsFacts.v
SyncDirsProps.v
Fdevent.v
FdeventFacts.v
Reconnect.v
ReconnectFacts.v
IncrementalUtils.v
IncrementalServer.v
IncrementalFacts.v
IncrementalInv.v
IncrementalLoop.v
IncrementalProps.v
IncrementalUtilsFacts.v
ShellService.v
ShellClient.v
ShellFacts.v
ShellSession.v
ShellProps.v
Sideload.v
