(* ===== verification/Prelude.v ===== *)
(** * Verification library of the adb host

    The program is the host side of adb: a server process between clients, which
    connect to a port and ask for services, and devices, which are connected by
    USB or TCP and speak a packet protocol.  This library models the server and
    the larger clients (the configuration [ADB_HOST] on Linux), with the services
    of the device they speak to, as Rocq functions
    translated from the sources under [src/adb] and [src/libbase], and proves what
    makes them correct.

    ** The parts and where they are modelled

    Strings and numbers ([src/libbase]: [strings.cpp], [strings.h],
    [parseint.h], [parsenetaddress.cpp]) are [LibBase], over the pieces of the C
    and C++ libraries in [CString].  [Types] has the buffers [Block] and
    [IOVector] of [types.h] and [types.cpp].  [AdbIO] has blocking descriptor I/O
    and the length-prefixed strings of [adb_io.cpp] and the shell protocol of
    [shell_service_protocol.cpp].

    Packets travel over connections: [Packets] has the packet header, checksum
    and [FdConnection] ([transport.cpp], [tls/tls_connection.cpp]),
    [Nonblocking] the class [NonblockingFdConnection] ([transport_fd.cpp]),
    [Adapter] the class [BlockingConnectionAdapter] ([transport.cpp]); the last
    two are step relations over the interleavings of their threads.

    The state of a device is an [atransport] ([Transport]: [transport.h],
    [transport.cpp], [adb.cpp], [client/auth.cpp]): connection state, features,
    banner, keys, reverse forwards, how one is selected and listed.
    [HostService] parses the requests of clients ([sockets.cpp],
    [adb_utils.h]), [SocketSpec] the addresses ([socket_spec.cpp]).

    Everything that changes shared state runs on the server's main thread, as
    functions in the state monad [Sockets.M] over one [Sockets.world]: the heap
    of [asocket]s, the two lists of local sockets, descriptors, transports and
    their lists, device trackers and listeners.  [Sockets] has the local and
    remote sockets and the device trackers ([sockets.cpp], [socket.h],
    [transport.cpp]); [Listeners] the listeners ([adb_listeners.cpp]) and the
    life of a transport ([transport.cpp], [adb.cpp]); [HostRequest] the requests
    to the server itself ([handle_host_request], [handle_forward_request],
    [host_service_to_socket]); [SmartSockets] the sockets that read a client's
    request, and reading from a client; [HandlePacket] the packets of a device
    ([handle_packet], [HandleRead], [HandleError]).  [Server] puts them together:
    a server is started by [server_boot] ([client/main.cpp]) and then takes the
    events of [server_step] in any order.  What it depends on from outside (the
    network, USB connections, RSA keys, environment variables, protobuf text) is
    the class [Env.Env], a parameter.

    Under the server lies the event loop: [Fdevent] has the descriptors, timeouts
    and the run queue of [fdevent/fdevent.cpp] and [fdevent_epoll.cpp], as steps
    of the looper and of the threads that hand functions to it.  [Reconnect] has
    the thread that connects again to devices whose connection broke (class
    [ReconnectHandler] of [transport.cpp]), with its condition variable.

    A client is the other end.  [Client] has what a command of adb does to reach
    the server ([client/adb_client.cpp]): connecting, switching to a device, the
    version check that may replace the server, commands and queries.  The most
    elaborate client copies files.  [SyncProtocol] has the messages
    ([file_sync_protocol.h]), [Errno] the numbers of errors in them
    ([sysdeps/errno.cpp]), [Compression] the encoders and decoders of file data
    ([compression_utils.h]), [Paths] names and quoting ([libbase/file.cpp],
    [adb_utils.cpp]); [SyncClient] has the requests of the client and the copying
    of one file, [SyncDirs] that of directories and the commands push, pull and
    sync ([client/file_sync_client.cpp]).  The service of the device that answers
    them is [SyncService] ([daemon/file_sync_service.cpp]).  Both run over an
    abstract file system, the class [SyncProtocol.Files]; brotli, LZ4 and zstd are
    the class [Compression.Codecs]; [SyncSample] has instances for the examples.

    Another client serves the blocks of files that a device installs while it
    receives them.  [IncrementalUtils] has the tree of hashes, signature files and the
    blocks to send first ([client/incremental_utils.cpp]), [IncrementalServer] the
    server ([client/incremental_server.cpp]); LZ4, the archive library and the file
    system are the classes [IS.LZ4], [IU.ZipArchive] and [IS.HostFiles].

    [adb shell] runs a command or a shell on the device.  [ShellService] has the service
    of the device ([daemon/shell_service.cpp], and [ShellService] of
    [daemon/services.cpp]): the thread that carries data between the client and a
    subprocess, as functions over [SVC.service], in which the results of [poll] and [wait] and the streams
    are scripts.  [ShellClient] has the client ([client/commandline.cpp],
    [commandline.h]): options, request, printing and typing.  [Sideload] has [adb sideload], which
    serves a package to a device in recovery.

    ** Conventions

    Bytes are [list Byte.byte].  Machine integers are [Z] with the wrap-around of
    the source written out ([u32], [s32], [u64]).  A computation is an
    [outcome]: [Ret], [Abort] for what ends the process on purpose ([CHECK],
    [LOG(FATAL)], [exit], a failed allocation), [UB] for undefined behaviour (a
    deleted object, an access out of bounds, signed overflow) and [OutOfFuel].
    Pointers are indices into the heaps, and a deleted object is an absent one,
    so use after free is visible.  Uninitialised memory is the parameter [junk].
    Function pointers of sockets are enumerations ([enqueue_ptr], [ready_ptr],
    [close_ptr]) that the calls dispatch on.

    Loops that are not structural have fuel: [CLOSE_FUEL] for the mutual calls of
    the [close] functions, [ENQUEUE_FUEL] for calls through [enqueue], the
    length of the scripts and queues for the loops on descriptors.  The theorems
    on these functions state that they return, so the fuel is enough.  The loops
    over what a compression library produces have no bound of their own: their
    fuel is the parameter [turns], and a theorem says that from some number of
    turns on the function returns what it states; the search in
    [IU.CentralDirOffset] has this parameter too, since it need not end.

    [State] has the state monad of the client and of the service of the device,
    with the logics [wp] (the computation returns, and the result satisfies the
    postcondition), [safe] (it may also end the process) and [partial] (the result
    satisfies the postcondition if there is one).

    ** What is proved

    [X] is accompanied by [XFacts], which holds its lemmas and theorems.

    - Buffers and parsing: the operations of [IOVector] act on its contents as
      the operations on byte strings ([TypesFacts]); the [libbase] functions
      invert printing and joining within their bounds ([LibBaseFacts]);
      [parse_host_service] divides every request soundly and the usual ones as
      intended ([HostServiceFacts]); serials denote what was connected
      ([SocketSpecFacts]).
    - I/O and connections: reading and writing do not depend on fragmentation,
      and strings, shell packets and packets round-trip ([AdbIOFacts],
      [PacketsFacts]); the connection classes lose, duplicate and reorder
      nothing in any interleaving, and shut down in order
      ([NonblockingFacts], [AdapterFacts]).
    - Transports: banners round-trip, a query selects the one transport that
      matches, a device connects back only where it was asked to
      ([TransportFacts]).
    - Sockets: closing terminates and leaves no dangling pointer, for one socket
      and for all of a transport ([SocketsInv], [SocketsCorrect]); what the
      socket code leaves alone ([SocketsFrame]).
    - The server: [ServerFacts.server_safe] and [server_sound], over every
      sequence of events.  The invariant is [ServerInv.server_inv]; that the
      handlers preserve it is proved in [ListenersFacts], [LifecycleFacts],
      [HostRequestFacts], [SmartSocketsFacts], [EventsFacts] and
      [HandlePacketFacts], against the interface [LocalEnqueue] of the calls
      through [enqueue], with the logics [wp] (total correctness, [SocketsWp])
      and [safe] (no undefined behaviour, termination, aborts allowed,
      [SocketsSafe]).
    - What clients and devices get ([ServerProps], [TrackersFacts]): data goes
      through unchanged in both directions, trackers are told of every change, a
      disconnect leaves nothing bound to the device, forwards can be removed.
    - The client: the version check ([ClientFacts]); a query goes through the
      client, the server and back and gives what a specification over the list of
      transports says ([QueryFacts]); error numbers ([Errno]) and quoting
      ([Paths]).
    - The event loop: a turn of it never fails by itself, uses no destroyed
      [fdevent] and delivers the first event; functions handed to it run once, in
      order, and their arrival ends the wait ([FdeventFacts]).
    - Reconnecting: no transport is lost or handled twice, the earliest attempt
      comes first, attempts are bounded ([ReconnectFacts]).
    - Copying files: a file pushed arrives unchanged ([SyncPush]), a file pulled
      likewise ([SyncPull]), and what the client learns of files and directories
      is what the device has ([SyncListing]); these compose the functions of both
      ends, for every way in which the data is cut into pieces, and with the
      compression libraries assumed to be lossless ([CompressionFacts], where
      the null encoder is proved to be).  Acknowledgements are given to the
      right files.  A device that sends anything at all cannot make a pull touch
      files outside of the local directory ([SyncDirsFacts]).  The list of
      files to push is complete, and what is sent to the shell of a device is
      quoted ([SyncDirsProps]).
    - Incremental installation: what the server writes decodes to a log of an
      abstract specification ([IncrementalInv.log]): blocks with the right contents,
      at most once, after their hashes, and the end only after everything; requests
      are found however the stream is cut, and those that are handled are
      answered ([IncrementalProps], by the invariants of [IncrementalInv] and
      [IncrementalLoop], over [IncrementalFacts]); files are opened well-formed, and the
      first blocks of an APK are the right ones ([IncrementalUtilsFacts]).
    - The shell: the service of the device is safe and ends whatever happens around it, if window sizes are terminated
      ([ShellFacts.SSafe]); what a subprocess prints is what the client prints, with its
      exit code, what is typed reaches the subprocess by the specification
      [ShellSession.TYP.said], and the command asked for is the one that runs
      ([ShellProps], over [ShellSession]).  Both kinds of theorem
      follow from one rule for the loops, [ShellFacts.LO.PassDataStreams_spec], which
      is proved against the interface [LO.Passing].  The fuel of the loops is computed from
      the scripts, each turn of which uses some of them up.
    - Sideloading: a device gets the blocks it asks for and nothing else ([Sideload.SLF]).
    - Where the code goes wrong, executions show it: [auth_offline_uaf],
      [killforward_smartsocket], [coalesce_rvalue_dangling],
      [nonblocking_stall], [nonblocking_write_race],
      [adapter_handshake_after_stop], [pull_not_created_desync],
      [parents_loop_correct], [errno_roundtrip], [timeout_starves],
      [reconnect_stop_hangs], [incremental_out_of_bounds],
      [apk_search_termination], [shell_faults] and others.  [server_safe] excludes the
      events that trigger the known faults, in [ServerFacts.event_ok]: AUTH
      packets other than tokens, NUL in a banner, an OPEN packet without
      terminator, reading from a descriptor the server has no interest in, and
      the requests that [SmartSocketsFacts.request_fine] rejects.

    ** What is not modelled

    The loop and the server are not put together: the theorems on the server hold
    for its events in any order, so for those in which the loop delivers them.
    The back end of the loop for systems without [epoll].  The threads that serve
    wait-for, connect and pair requests ([services.cpp]); what they do to the
    server is the events of registration and kicking, and what they write arrives
    on a descriptor.  TLS
    handshakes, RSA signatures and key files (cryptographic libraries), USB back
    ends, mDNS, protobuf, the command line apart from the shell and sideloading
    (terminal I/O around the protocol), the daemon apart from its file and
    shell services (not part of the host), and the third-party libraries
    under [src].  Of the shell service, forking, the terminal device, the environment
    of the child and commands that run inside the daemon; of the shell client, the
    modes of the terminal and signals.  Of the file client, the texts of progress
    and of transfer rates, which depend on the time, are left out. *)

From stdpp Require Export base tactics numbers list gmap strings.
From Stdlib Require Export ZArith Lia.
From Stdlib.Strings Require Byte.

#[global] Open Scope Z_scope.

(** ** Outcomes of C++ code

    [Ret a]: the code returns [a].  [Abort]: a [CHECK], [LOG(FATAL)] or an
    uncaught exception ends the process.  [UB]: the code performs an access the
    C++ memory model leaves undefined (a read past a buffer, a dangling
    pointer).  [OutOfFuel]: the bounded model of a loop ran out of iterations;
    theorems that speak of results always exclude it. *)
Inductive outcome (A : Type) : Type :=
  | Ret (a : A)
  | Abort
  | UB
  | OutOfFuel.
Arguments Ret {A} a.
Arguments Abort {A}.
Arguments UB {A}.
Arguments OutOfFuel {A}.

#[global] Instance outcome_eq_dec {A} `{EqDecision A} : EqDecision (outcome A).
Proof. solve_decision. Defined.

#[global] Instance outcome_ret : MRet outcome := @Ret.
#[global] Instance outcome_bind : MBind outcome := λ A B f m,
  match m with
  | Ret a => f a
  | Abort => Abort
  | UB => UB
  | OutOfFuel => OutOfFuel
  end.
#[global] Instance outcome_fmap : FMap outcome := λ A B f m,
  match m with
  | Ret a => Ret (f a)
  | Abort => Abort
  | UB => UB
  | OutOfFuel => OutOfFuel
  end.

(** [CHECK(b)]: aborts when the condition is false. *)
Definition check (b : bool) : outcome unit := if b then Ret tt else Abort.

(** Access to an element that the code assumes to exist. *)
Definition deref {A} (o : option A) : outcome A :=
  match o with Some a => Ret a | None => UB end.

Definition is_ret {A} (m : outcome A) : bool :=
  match m with Ret _ => true | _ => false end.

Lemma bind_ret_inv {A B} (m : outcome A) (f : A → outcome B) b :
  m ≫= f = Ret b → ∃ a, m = Ret a ∧ f a = Ret b.
Proof. destruct m; simpl; try discriminate. eauto. Qed.

Lemma check_ret b u : check b = Ret u → b = true.
Proof. by destruct b. Qed.

Lemma deref_ret {A} (o : option A) a : deref o = Ret a → o = Some a.
Proof. destruct o; simpl; congruence. Qed.

(** One step of the monad, without touching the functions it sequences. *)
Ltac mstep :=
  cbn [mbind mret fmap outcome_bind outcome_ret outcome_fmap check deref negb andb orb fst snd].

(** Closed decidable facts, by evaluation. *)
Ltac by_decide := apply (bool_decide_unpack _); vm_compute; exact I.

(** Breaks a hypothesis [m ≫= f = Ret _] (or a [check]/[deref]) into the
    results of its parts, as many times as it applies. *)
Ltac inv_ret :=
  repeat match goal with
  | H : Ret _ = Ret _ |- _ => injection H as H; try subst
  | H : mret _ = Ret _ |- _ => cbv [mret outcome_ret] in H
  | H : Abort = Ret _ |- _ => discriminate H
  | H : UB = Ret _ |- _ => discriminate H
  | H : OutOfFuel = Ret _ |- _ => discriminate H
  | H : check _ = Ret _ |- _ => apply check_ret in H
  | H : deref _ = Ret _ |- _ => apply deref_ret in H
  | H : mbind _ _ = Ret _ |- _ =>
      let a := fresh "r" in let H' := fresh "E" in
      apply bind_ret_inv in H as (a & H' & H); simpl in H
  end.

(** ** Bytes and byte strings

    A [char] buffer, a [std::string], a [std::string_view] and the payload of a
    packet are all lists of bytes. *)
Abbreviation byte := Byte.byte.
Abbreviation bytes := (list Byte.byte).

#[global] Instance byte_eq_dec : EqDecision byte := Byte.byte_eq_dec.

#[global] Program Instance byte_countable : Countable byte :=
  {| encode b := encode (Byte.to_N b);
     decode p := (decode p : option N) ≫= Byte.of_N |}.
Next Obligation.
  intros b. cbv beta. rewrite decode_encode. apply Byte.of_to_N.
Qed.

(** The bytes of a string literal. *)
Definition str (s : string) : bytes := String.list_byte_of_string s.

(** A [uint8_t] as an integer. *)
Definition byteZ (b : byte) : Z := Z.of_N (Byte.to_N b).

(** Truncation of an integer to [uint8_t]. *)
Definition Zbyte (z : Z) : byte :=
  default Byte.x00 (Byte.of_N (Z.to_N (z mod 256))).

Lemma byteZ_bound b : 0 ≤ byteZ b < 256.
Proof. unfold byteZ. pose proof (Byte.to_N_bounded b). lia. Qed.

Lemma byteZ_Zbyte z : byteZ (Zbyte z) = z mod 256.
Proof.
  unfold byteZ, Zbyte. pose proof (Z.mod_pos_bound z 256 ltac:(lia)).
  destruct (Byte.of_N _) as [b|] eqn:E; simpl.
  - apply Byte.to_of_N in E. rewrite E. lia.
  - apply Byte.of_N_None_iff in E. lia.
Qed.

Lemma Zbyte_byteZ b : Zbyte (byteZ b) = b.
Proof.
  unfold Zbyte. rewrite Z.mod_small by apply byteZ_bound.
  unfold byteZ. by rewrite N2Z.id, Byte.of_to_N.
Qed.

Lemma byteZ_inj b1 b2 : byteZ b1 = byteZ b2 → b1 = b2.
Proof. intros H. by rewrite <- (Zbyte_byteZ b1), H, Zbyte_byteZ. Qed.

(** Length of a buffer as an integer. *)
Abbreviation zlen l := (Z.of_nat (length l)).

(** ** Machine integers *)

Definition u32 (z : Z) : Z := z mod 2 ^ 32.
Definition u64 (z : Z) : Z := z mod 2 ^ 64.
#[global] Arguments u32 : simpl never.
#[global] Arguments u64 : simpl never.

(** Reinterpretation of a 32-bit pattern as [int32_t]. *)
Definition s32 (z : Z) : Z :=
  let w := u32 z in if w <? 2 ^ 31 then w else w - 2 ^ 32.

Lemma u32_bound z : 0 ≤ u32 z < 2 ^ 32.
Proof. apply Z.mod_pos_bound. lia. Qed.
Lemma u64_bound z : 0 ≤ u64 z < 2 ^ 64.
Proof. apply Z.mod_pos_bound. lia. Qed.
Lemma u32_small z : 0 ≤ z < 2 ^ 32 → u32 z = z.
Proof. apply Z.mod_small. Qed.
Lemma u64_small z : 0 ≤ z < 2 ^ 64 → u64 z = z.
Proof. apply Z.mod_small. Qed.

(** ** Little-endian words, as [memcpy] of a [uint32_t] lays them out on the
    supported targets *)

Definition le32 (z : Z) : bytes :=
  [Zbyte z; Zbyte (z / 2 ^ 8); Zbyte (z / 2 ^ 16); Zbyte (z / 2 ^ 24)].

Definition le64 (z : Z) : bytes := le32 z ++ le32 (z / 2 ^ 32).

Definition le32_val (b0 b1 b2 b3 : byte) : Z :=
  byteZ b0 + 2 ^ 8 * byteZ b1 + 2 ^ 16 * byteZ b2 + 2 ^ 24 * byteZ b3.

Definition le32_dec (bs : bytes) : option Z :=
  match bs with
  | [b0; b1; b2; b3] => Some (le32_val b0 b1 b2 b3)
  | _ => None
  end.

Lemma length_le32 z : length (le32 z) = 4%nat.
Proof. done. Qed.

Lemma le32_dec_le32 z : le32_dec (le32 z) = Some (u32 z).
Proof.
  unfold le32, le32_dec, le32_val, u32. rewrite !byteZ_Zbyte. f_equal.
  Z.div_mod_to_equations. lia.
Qed.

Lemma le32_val_bound b0 b1 b2 b3 : 0 ≤ le32_val b0 b1 b2 b3 < 2 ^ 32.
Proof.
  unfold le32_val. pose proof (byteZ_bound b0). pose proof (byteZ_bound b1).
  pose proof (byteZ_bound b2). pose proof (byteZ_bound b3). lia.
Qed.

Lemma le32_le32_val b0 b1 b2 b3 : le32 (le32_val b0 b1 b2 b3) = [b0; b1; b2; b3].
Proof.
  unfold le32, le32_val.
  pose proof (byteZ_bound b0). pose proof (byteZ_bound b1).
  pose proof (byteZ_bound b2). pose proof (byteZ_bound b3).
  repeat f_equal; apply byteZ_inj; rewrite byteZ_Zbyte;
    Z.div_mod_to_equations; lia.
Qed.

(** ** Buffers

    [ztake]/[zdrop] are [take]/[drop] with the [size_t] counts of the code. *)

Definition ztake {A} (n : Z) (l : list A) : list A := take (Z.to_nat n) l.
Definition zdrop {A} (n : Z) (l : list A) : list A := drop (Z.to_nat n) l.
#[global] Arguments ztake : simpl never.
#[global] Arguments zdrop : simpl never.

(** [memcpy(&dst[off], src, |src|)]: undefined unless the bytes fit. *)
Definition memcpy (dst : bytes) (off : Z) (src : bytes) : outcome bytes :=
  if (0 <=? off) && (off + zlen src <=? zlen dst) then
    Ret (ztake off dst ++ src ++ zdrop (off + zlen src) dst)
  else UB.

(** [memmove(d, d + from, n)] inside one buffer. *)
Definition memmove_down (d : bytes) (from n : Z) : outcome bytes :=
  if (0 <=? from) && (0 <=? n) && (from + n <=? zlen d) then
    Ret (ztake n (zdrop from d) ++ zdrop n d)
  else UB.

Lemma ztake_zdrop {A} n (l : list A) : ztake n l ++ zdrop n l = l.
Proof. apply take_drop. Qed.

Lemma zlen_ztake {A} n (l : list A) : 0 ≤ n ≤ zlen l → zlen (ztake n l) = n.
Proof. intros H. unfold ztake. rewrite length_take. lia. Qed.

Lemma zlen_zdrop {A} n (l : list A) : 0 ≤ n ≤ zlen l → zlen (zdrop n l) = zlen l - n.
Proof. intros H. unfold zdrop. rewrite length_drop. lia. Qed.

Lemma ztake_all {A} n (l : list A) : zlen l ≤ n → ztake n l = l.
Proof. intros H. apply take_ge. lia. Qed.

Lemma zdrop_all {A} n (l : list A) : zlen l ≤ n → zdrop n l = [].
Proof. intros H. apply drop_ge. lia. Qed.

Lemma ztake_0 {A} (l : list A) : ztake 0 l = [].
Proof. done. Qed.

Lemma zdrop_0 {A} (l : list A) : zdrop 0 l = l.
Proof. done. Qed.

Lemma ztake_app_le {A} n (l1 l2 : list A) : n ≤ zlen l1 → ztake n (l1 ++ l2) = ztake n l1.
Proof. intros H. apply take_app_le. lia. Qed.

Lemma zdrop_app_le {A} n (l1 l2 : list A) :
  n ≤ zlen l1 → zdrop n (l1 ++ l2) = zdrop n l1 ++ l2.
Proof. intros H. apply drop_app_le. lia. Qed.

Lemma ztake_app_ge {A} n (l1 l2 : list A) :
  zlen l1 ≤ n → ztake n (l1 ++ l2) = l1 ++ ztake (n - zlen l1) l2.
Proof.
  intros H. unfold ztake. rewrite take_app_ge by lia. do 2 f_equal. lia.
Qed.

Lemma zdrop_app_ge {A} n (l1 l2 : list A) :
  zlen l1 ≤ n → zdrop n (l1 ++ l2) = zdrop (n - zlen l1) l2.
Proof.
  intros H. unfold zdrop. rewrite drop_app_ge by lia. f_equal. lia.
Qed.

Lemma zdrop_zdrop {A} n m (l : list A) :
  0 ≤ n → 0 ≤ m → zdrop n (zdrop m l) = zdrop (m + n) l.
Proof. intros. unfold zdrop. rewrite drop_drop. f_equal. lia. Qed.

Lemma ztake_ztake {A} n m (l : list A) : n ≤ m → ztake n (ztake m l) = ztake n l.
Proof. intros. unfold ztake. rewrite take_take. f_equal. lia. Qed.

Lemma ztake_zdrop_swap {A} n m (l : list A) :
  0 ≤ n → 0 ≤ m → ztake n (zdrop m l) = zdrop m (ztake (m + n) l).
Proof. intros. unfold ztake, zdrop. rewrite take_drop_commute. do 2 f_equal. lia. Qed.

Lemma memcpy_fit dst off src :
  0 ≤ off → off + zlen src ≤ zlen dst →
  memcpy dst off src = Ret (ztake off dst ++ src ++ zdrop (off + zlen src) dst).
Proof.
  intros. unfold memcpy. by rewrite (proj2 (Z.leb_le _ _)), (proj2 (Z.leb_le _ _)) by lia.
Qed.

Lemma memcpy_app pre post src off :
  off = zlen pre → zlen src ≤ zlen post →
  memcpy (pre ++ post) off src = Ret (pre ++ src ++ zdrop (zlen src) post).
Proof.
  intros -> H. rewrite memcpy_fit by (rewrite ?length_app; lia).
  rewrite ztake_app_le, ztake_all, zdrop_app_ge by lia. do 4 f_equal. lia.
Qed.

Lemma memmove_down_fit d from n :
  0 ≤ from → 0 ≤ n → from + n ≤ zlen d →
  memmove_down d from n = Ret (ztake n (zdrop from d) ++ zdrop n d).
Proof.
  intros. unfold memmove_down. by rewrite !(proj2 (Z.leb_le _ _)) by lia.
Qed.

(** ** Updating one field of a record

    A record declares its eta expansion as an applicative term,
    [rd_pure mk <%> field1 <%> field2 ...]; [mk_update] derives the update of a
    field from it.  Then [r <| field := v |>] is [r] with that field changed. *)
Definition rd_pure {R A} (a : A) : R → A := λ _, a.
Definition rd_ap {R A B} (f : R → A → B) (x : R → A) : R → B := λ r, f r (x r).
Infix "<%>" := rd_ap (at level 50, left associativity).

Class Eta (R : Type) := eta : R → R.
Class Update {R A} (field : R → A) := update : (A → A) → R → R.
#[global] Arguments update {R A} field {_} _ _.

Ltac replace_field e field f :=
  lazymatch e with
  | rd_ap ?g field => constr:(rd_ap g (λ r, f (field r)))
  | rd_ap ?g ?x => let g' := replace_field g field f in constr:(rd_ap g' x)
  end.

Ltac mk_update :=
  lazymatch goal with
  | |- @Update ?R ?A ?field =>
      let f := fresh "f" in
      intros f;
      let e := eval cbv [eta] in (@eta R _) in
      let e := lazymatch e with ?i => eval unfold i in i end in
      let e := replace_field e field f in
      let e := eval cbv [rd_ap rd_pure] in e in
      exact e
  end.

Declare Scope record_scope.
Delimit Scope record_scope with rec.
Notation "r <| field := v |>" := (update field (λ _, v) r)
  (at level 1, left associativity, field at level 9, v at level 99,
   format "r <| field  :=  v |>") : record_scope.
Notation "r <| field ::= f |>" := (update field f r)
  (at level 1, left associativity, field at level 9, f at level 99,
   format "r <| field  ::=  f |>") : record_scope.

(** ** Automation

    [adb_len]: length equations, rewritten with side conditions by [lia]. *)
Create HintDb adb discriminated.
Create Rewrite HintDb adb_len.
#[export] Hint Rewrite @length_app @length_nil @length_cons @length_le32
  @length_replicate @length_map : adb_len.
#[export] Hint Rewrite @zlen_ztake @zlen_zdrop using lia : adb_len.
#[export] Hint Resolve byteZ_bound u32_bound u64_bound le32_val_bound : adb.

(** Decides a boolean test of the goal that [lia] settles. *)
Ltac zbool :=
  repeat match goal with
  | |- context [?a <=? ?b] =>
      first [ rewrite (proj2 (Z.leb_le a b)) by lia
            | rewrite (proj2 (Z.leb_gt a b)) by lia ]
  | |- context [?a <? ?b] =>
      first [ rewrite (proj2 (Z.ltb_lt a b)) by lia
            | rewrite (proj2 (Z.ltb_ge a b)) by lia ]
  | |- context [?a =? ?b] =>
      first [ rewrite (proj2 (Z.eqb_eq a b)) by lia
            | rewrite (proj2 (Z.eqb_neq a b)) by lia ]
  end.

(** Case analysis on the boolean tests of the goal or of a hypothesis, leaving
    arithmetic facts behind. *)
Ltac zcase :=
  match goal with
  | |- context [?a <=? ?b] => destruct (Z.leb_spec a b)
  | |- context [?a <? ?b] => destruct (Z.ltb_spec a b)
  | |- context [?a =? ?b] => destruct (Z.eqb_spec a b)
  | H : context [?a <=? ?b] |- _ => destruct (Z.leb_spec a b)
  | H : context [?a <? ?b] |- _ => destruct (Z.ltb_spec a b)
  | H : context [?a =? ?b] |- _ => destruct (Z.eqb_spec a b)
  end.
