(* ===== verification/State.v ===== *)
(** * State-passing code

    [ST S A]: a computation over a state [S] whose result is an [outcome]; the
    server's main thread, the clients and the file transfer are written in it.
    [wp m Q s] is total correctness: [m] returns, with a result and a state that
    satisfy [Q].  [safe m Q s] also allows that the process ends on purpose, and
    [partial m Q s] that anything goes wrong. *)

From S2P Require Import Prelude.

Definition ST (S A : Type) : Type := S → outcome (A * S).

#[global] Instance ST_ret S : MRet (ST S) := λ A a s, Ret (a, s).
#[global] Instance ST_bind S : MBind (ST S) := λ A B f m s,
  match m s with
  | Ret (a, s) => f a s
  | Abort => Abort
  | UB => UB
  | OutOfFuel => OutOfFuel
  end.

Definition lift {S A} (m : outcome A) : ST S A := λ s, a ← m; Ret (a, s).
Definition get {S A} (f : S → A) : ST S A := λ s, Ret (f s, s).
Definition modify {S} (f : S → S) : ST S unit := λ s, Ret (tt, f s).

Definition wp {S A} (m : ST S A) (Q : A → S → Prop) (s : S) : Prop :=
  match m s with Ret (a, s') => Q a s' | _ => False end.

Definition safe {S A} (m : ST S A) (Q : A → S → Prop) (s : S) : Prop :=
  match m s with
  | Ret (a, s') => Q a s'
  | Abort => True
  | UB | OutOfFuel => False
  end.

(** Partial correctness: what holds if [m] returns. *)
Definition partial {S A} (m : ST S A) (Q : A → S → Prop) (s : S) : Prop :=
  match m s with Ret (a, s') => Q a s' | _ => True end.

Section rules.
Context {S A B : Type}.
Implicit Types (m : ST S A) (s : S).

Lemma wp_run m Q s : wp m Q s ↔ ∃ a s', m s = Ret (a, s') ∧ Q a s'.
Proof.
  unfold wp. split.
  - destruct (m s) as [[a s']| | |]; [|done..]. eauto.
  - by intros (a & s' & -> & H).
Qed.

Lemma wp_ret (a : A) Q s : Q a s → wp (mret a) Q s.
Proof. done. Qed.

Lemma wp_bind m (f : A → ST S B) Q s : wp m (λ a, wp (f a) Q) s → wp (m ≫= f) Q s.
Proof. unfold wp, mbind, ST_bind. by destruct (m s) as [[a s']| | |]. Qed.

Lemma wp_mono m Q Q' s : wp m Q s → (∀ a s', Q a s' → Q' a s') → wp m Q' s.
Proof. unfold wp. destruct (m s) as [[a s']| | |]; auto. Qed.

Lemma wp_lift (o : outcome A) a Q s : o = Ret a → Q a s → wp (lift o) Q s.
Proof. by intros ->. Qed.

Lemma wp_get (f : S → A) Q s : Q (f s) s → wp (get f) Q s.
Proof. done. Qed.

Lemma wp_safe m Q s : wp m Q s → safe m Q s.
Proof. unfold wp, safe. by destruct (m s) as [[]| | |]. Qed.

Lemma safe_bind m (f : A → ST S B) Q s :
  safe m (λ a, safe (f a) Q) s → safe (m ≫= f) Q s.
Proof. unfold safe, mbind, ST_bind. by destruct (m s) as [[a s']| | |]. Qed.

Lemma safe_mono m Q Q' s :
  safe m Q s → (∀ a s', Q a s' → Q' a s') → safe m Q' s.
Proof. unfold safe. destruct (m s) as [[]| | |]; auto. Qed.

Lemma partial_bind m (f : A → ST S B) Q s :
  partial m (λ a, partial (f a) Q) s → partial (m ≫= f) Q s.
Proof. unfold partial, mbind, ST_bind. by destruct (m s) as [[a s']| | |]. Qed.

Lemma partial_mono m Q Q' s :
  partial m Q s → (∀ a s', Q a s' → Q' a s') → partial m Q' s.
Proof. unfold partial. destruct (m s) as [[]| | |]; auto. Qed.

Lemma partial_lift (o : outcome A) Q s : (∀ a, o = Ret a → Q a s) → partial (lift o) Q s.
Proof. unfold partial, lift. destruct o as [a| | |]; intros H; [by apply (H a)|done..]. Qed.

Lemma wp_partial m Q s : wp m Q s → partial m Q s.
Proof. unfold wp, partial. by destruct (m s) as [[]| | |]. Qed.

Lemma partial_run m Q s a s' : partial m Q s → m s = Ret (a, s') → Q a s'.
Proof. unfold partial. by intros H E; rewrite E in H. Qed.

(** One step with a total rule. *)
Lemma safe_wp_bind m (f : A → ST S B) Q s :
  wp m (λ a, safe (f a) Q) s → safe (m ≫= f) Q s.
Proof. intros H. by apply safe_bind, wp_safe. Qed.
End rules.

Lemma bind_abort {S A B} (m : ST S A) (f : A → ST S B) s : m s = Abort → (m ≫= f) s = Abort.
Proof. intros E. unfold mbind, ST_bind. by rewrite E. Qed.

Lemma bind_then {S A B} (m : ST S A) (f : A → ST S B) a s s' : m s = Ret (a, s') → (m ≫= f) s = f a s'.
Proof. intros E. unfold mbind, ST_bind. by rewrite E. Qed.

Lemma wp_modify {S} (f : S → S) Q s : Q tt (f s) → wp (modify f) Q s.
Proof. done. Qed.

Lemma safe_check {S} b Q (s : S) : (b = true → Q tt s) → safe (lift (check b)) Q s.
Proof. destruct b; [|done]. intros H. by apply H. Qed.

Lemma wp_safe_and {S A} (m : ST S A) (P Q : A → S → Prop) s :
  wp m P s → safe m Q s → wp m (λ a s', P a s' ∧ Q a s') s.
Proof. unfold wp, safe. destruct (m s) as [[a s']| | |]; [|done..]. done. Qed.

Ltac st_step :=
  lazymatch goal with
  | |- wp (mret _) _ _ => apply wp_ret
  | |- wp (mbind _ _) _ _ => apply wp_bind
  | |- wp (get _) _ _ => apply wp_get
  | |- wp (modify _) _ _ => apply wp_modify
  end; cbv beta.
Ltac st_go := repeat st_step.

Ltac pt_step :=
  lazymatch goal with
  | |- partial (mret _) _ _ => apply wp_partial, wp_ret
  | |- partial (mbind _ _) _ _ => apply partial_bind
  | |- partial (get _) _ _ => apply wp_partial, wp_get
  | |- partial (modify _) _ _ => apply wp_partial, wp_modify
  end; cbv beta.
Ltac pt_go := repeat pt_step.
