(* ===== verification/CString.v ===== *)
(** * The parts of the C and C++ standard libraries the code relies on

    Character classes in the "C" locale, the searches of [std::string], the
    [strtol] family, [sscanf("%d")], [std::from_chars] and the integer
    conversions of [printf].  Strings are byte lists without a terminator; a
    [const char*] argument is the bytes before the terminating NUL. *)

From S2P Require Import Prelude.
Local Open Scope Z_scope.

(** ** [<ctype.h>] *)

Definition in_range (lo hi : Z) (b : byte) : bool := (lo <=? byteZ b) && (byteZ b <=? hi).
Definition isdigit (b : byte) : bool := in_range 48 57 b.
Definition isupper (b : byte) : bool := in_range 65 90 b.
Definition islower (b : byte) : bool := in_range 97 122 b.
Definition isalpha (b : byte) : bool := isupper b || islower b.
Definition isalnum (b : byte) : bool := isalpha b || isdigit b.
Definition isspace (b : byte) : bool := (byteZ b =? 32) || in_range 9 13 b.
Definition isprint (b : byte) : bool := in_range 32 126 b.
Definition tolower (b : byte) : byte := if isupper b then Zbyte (byteZ b + 32) else b.

(** ** C strings *)

Definition NUL : byte := Byte.x00.

(** The bytes a [const char*] to this buffer denotes. *)
Fixpoint c_str (s : bytes) : bytes :=
  match s with
  | [] => []
  | b :: s => if bool_decide (b = NUL) then [] else b :: c_str s
  end.

(** [std::string(p)] for [p] pointing to a buffer that is only known to extend
    over [s]: reading past it is undefined. *)
Fixpoint c_str_of_buffer (s : bytes) : outcome bytes :=
  match s with
  | [] => UB
  | b :: s => if bool_decide (b = NUL) then Ret [] else cons b <$> c_str_of_buffer s
  end.

(** ** Searches of [std::string] and [std::string_view]; [None] is [npos] *)

Definition find_if (P : byte → bool) (s : bytes) (pos : nat) : option nat :=
  (λ r, (pos + fst r)%nat) <$> list_find (λ b, P b = true) (drop pos s).

Definition find_first_of (s ds : bytes) (pos : nat) : option nat :=
  find_if (λ b, bool_decide (b ∈ ds)) s pos.
Definition find_first_not_of (s ds : bytes) (pos : nat) : option nat :=
  find_if (λ b, negb (bool_decide (b ∈ ds))) s pos.
Definition find_char (s : bytes) (c : byte) (pos : nat) : option nat :=
  find_if (λ b, bool_decide (b = c)) s pos.

(** [s.starts_with(p)] *)
Definition starts_with (s p : bytes) : bool := bool_decide (take (length p) s = p).

(** [s.find(p)]: the first index at which [p] occurs. *)
Fixpoint find_sub_from (s p : bytes) (i : nat) : option nat :=
  if starts_with s p then Some i
  else match s with [] => None | _ :: s => find_sub_from s p (S i) end.
Definition find_sub (s p : bytes) (pos : nat) : option nat :=
  find_sub_from (drop pos s) p pos.

(** [s.rfind(p)]: the last one. *)
Fixpoint rfind_sub_from (s p : bytes) (i : nat) : option nat :=
  match match s with [] => None | _ :: s => rfind_sub_from s p (S i) end with
  | Some j => Some j
  | None => if starts_with s p then Some i else None
  end.
Definition rfind_sub (s p : bytes) : option nat := rfind_sub_from s p 0.

(** [s.substr(pos, n)] with [pos <= s.size()] *)
Definition substr (s : bytes) (pos n : nat) : bytes := take n (drop pos s).

(** [s.substr(base, found - base)] for a search result [found]. *)
Definition substr_upto (s : bytes) (base : nat) (found : option nat) : bytes :=
  match found with Some f => substr s base (f - base) | None => drop base s end.

Definition count_char (s : bytes) (c : byte) : Z := zlen (filter (λ b, b = c) s).

(** ** Digits *)

Definition digit_val (b : byte) : option Z :=
  if isdigit b then Some (byteZ b - 48)
  else if islower b then Some (byteZ b - 87)
  else if isupper b then Some (byteZ b - 55)
  else None.

(** The value of [b] as a digit in the given base. *)
Definition base_digit (base : Z) (b : byte) : option Z :=
  match digit_val b with
  | Some d => if d <? base then Some d else None
  | None => None
  end.

Definition is_base_digit (base : Z) (b : byte) : bool :=
  match base_digit base b with Some _ => true | None => false end.

(** Splits off the longest prefix that satisfies [P]. *)
Fixpoint span (P : byte → bool) (s : bytes) : bytes * bytes :=
  match s with
  | [] => ([], [])
  | b :: s' => if P b then let '(p, r) := span P s' in (b :: p, r) else ([], s)
  end.

Definition digits_val (base : Z) (ds : bytes) : Z :=
  fold_left (λ acc b, acc * base + default 0 (base_digit base b)) ds 0.

Definition skip_space (s : bytes) : bytes := snd (span isspace s).

(** The subject sequence of [strtoul] and friends: sign, digits, rest; [None]
    when there is no conversion. *)
Definition strto_scan (s : bytes) (base : Z) : option (bool * bytes * bytes) :=
  let s1 := skip_space s in
  let '(neg, s2) :=
    match s1 with
    | b :: r => if bool_decide (b = Zbyte 45) then (true, r)
                else if bool_decide (b = Zbyte 43) then (false, r) else (false, s1)
    | [] => (false, s1)
    end in
  let s3 :=
    match s2 with
    | z :: x :: d :: _ =>
        if (base =? 16) && bool_decide (z = Zbyte 48)
           && (bool_decide (x = Zbyte 120) || bool_decide (x = Zbyte 88))
           && is_base_digit 16 d
        then drop 2 s2 else s2
    | _ => s2
    end in
  let '(ds, rest) := span (is_base_digit base) s3 in
  if bool_decide (ds = []) then None else Some (neg, ds, rest).

(** [strtoull]: value, rest of the string ([*end]), and whether [errno] was set
    to [ERANGE].  Without a conversion the value is 0 and [end == s]. *)
Record strto_result := StrTo { st_val : Z; st_rest : bytes; st_range : bool; st_conv : bool }.

Definition strtoull (s : bytes) (base : Z) : strto_result :=
  match strto_scan s base with
  | None => StrTo 0 s false false
  | Some (neg, ds, rest) =>
      let v := digits_val base ds in
      if 2 ^ 64 <=? v then StrTo (2 ^ 64 - 1) rest true true
      else StrTo (if neg then u64 (- v) else v) rest false true
  end.

(** [strtoll] *)
Definition strtoll (s : bytes) (base : Z) : strto_result :=
  match strto_scan s base with
  | None => StrTo 0 s false false
  | Some (neg, ds, rest) =>
      let v := digits_val base ds in
      let w := if neg then - v else v in
      if w <? - 2 ^ 63 then StrTo (- 2 ^ 63) rest true true
      else if 2 ^ 63 - 1 <? w then StrTo (2 ^ 63 - 1) rest true true
      else StrTo w rest false true
  end.

(** [sscanf(s, "%d", &v) == 1] and the [int] it stores: the conversion of
    [strtol] truncated to 32 bits. *)
Definition sscanf_d (s : bytes) : option Z :=
  let r := strtoll s 10 in if st_conv r then Some (s32 (st_val r)) else None.

(** [std::from_chars] into an unsigned type with the given maximum. *)
Definition from_chars (max : Z) (s : bytes) : option (Z * bytes) :=
  let '(ds, rest) := span (is_base_digit 10) s in
  if bool_decide (ds = []) then None
  else let v := digits_val 10 ds in if max <? v then None else Some (v, rest).

(** ** [printf] conversions *)

Definition digit_char (d : Z) : byte := Zbyte (if d <? 10 then 48 + d else 87 + d).

(** Digits of [n], least significant first. *)
Fixpoint digits_rev (base : Z) (fuel : nat) (n : Z) : bytes :=
  match fuel with
  | O => []
  | S fuel =>
      digit_char (n mod base) ::
      (if n / base =? 0 then [] else digits_rev base fuel (n / base))
  end.

Definition print_base (base n : Z) : bytes :=
  reverse (digits_rev base (S (Z.to_nat (Z.log2 n))) n).

(** [%u]/[%x] of a non-negative integer and [%d] of any. *)
Definition print_u (n : Z) : bytes := print_base 10 n.
Definition print_x (n : Z) : bytes := print_base 16 n.
Definition print_d (n : Z) : bytes := if n <? 0 then str "-" ++ print_u (- n) else print_u n.

(** [%0<w>x] *)
Definition print_0x (w : nat) (n : Z) : bytes :=
  let ds := print_x n in replicate (w - length ds) (Zbyte 48) ++ ds.
