(* ===== verification/CStringFacts.v ===== *)
(** * Facts about the standard-library functions of [CString]

    Printing an integer and scanning it back, prefixes and searches. *)

From S2P Require Import Prelude CString.
Local Open Scope Z_scope.

Lemma byteZ_Zbyte_small z : 0 ≤ z < 256 → byteZ (Zbyte z) = z.
Proof. intros. rewrite byteZ_Zbyte. by apply Z.mod_small. Qed.

Lemma in_range_Zbyte lo hi z : 0 ≤ z < 256 → in_range lo hi (Zbyte z) = (lo <=? z) && (z <=? hi).
Proof. intros. unfold in_range. by rewrite byteZ_Zbyte_small. Qed.

Lemma base_digit_char base d :
  2 ≤ base ≤ 16 → 0 ≤ d < base → base_digit base (digit_char d) = Some d.
Proof.
  intros Hb Hd. unfold base_digit, digit_val, isdigit, islower, isupper, digit_char.
  destruct (Z.ltb_spec d 10).
  - rewrite !in_range_Zbyte, byteZ_Zbyte_small by lia. zbool. simpl. zbool. f_equal. lia.
  - rewrite !in_range_Zbyte, byteZ_Zbyte_small by lia. zbool. simpl. zbool. f_equal. lia.
Qed.

Lemma is_base_digit_char base d :
  2 ≤ base ≤ 16 → 0 ≤ d < base → is_base_digit base (digit_char d) = true.
Proof. intros. unfold is_base_digit. by rewrite base_digit_char. Qed.

Lemma digits_val_snoc base ds c :
  digits_val base (ds ++ [c]) = digits_val base ds * base + default 0 (base_digit base c).
Proof. unfold digits_val. by rewrite fold_left_app. Qed.

Lemma digits_rev_spec base fuel : ∀ n,
  2 ≤ base ≤ 16 → 0 ≤ n < 2 ^ Z.of_nat fuel →
  digits_val base (reverse (digits_rev base fuel n)) = n ∧
  Forall (λ b, is_base_digit base b = true) (digits_rev base fuel n).
Proof.
  induction fuel as [|fuel IH]; intros n Hb Hn.
  { simpl in Hn. assert (n = 0) as -> by lia. split; [done|constructor]. }
  rewrite Nat2Z.inj_succ, Z.pow_succ_r in Hn by lia.
  pose proof (Z.mod_pos_bound n base ltac:(lia)) as Hm.
  pose proof (Z.div_mod n base ltac:(lia)) as Hdm.
  simpl. rewrite reverse_cons, digits_val_snoc, base_digit_char by lia. simpl.
  destruct (Z.eqb_spec (n / base) 0) as [E|E].
  - split; [change (digits_val base (reverse [])) with 0; rewrite E in Hdm; lia|]. constructor; [|constructor].
    apply is_base_digit_char; lia.
  - assert (0 ≤ n / base < 2 ^ Z.of_nat fuel) as Hq.
    { split; [apply Z.div_pos; lia|]. apply Z.div_lt_upper_bound; nia. }
    destruct (IH (n / base) Hb Hq) as [Hv Hf]. rewrite Hv. split; [lia|].
    constructor; [apply is_base_digit_char; lia|done].
Qed.

Lemma print_base_spec base n :
  2 ≤ base ≤ 16 → 0 ≤ n →
  digits_val base (print_base base n) = n ∧
  Forall (λ b, is_base_digit base b = true) (print_base base n) ∧ print_base base n ≠ [].
Proof.
  intros Hb Hn. unfold print_base. destruct (digits_rev_spec base (S (Z.to_nat (Z.log2 n))) n) as [Hv Hf].
  - done.
  - rewrite Nat2Z.inj_succ, Z2Nat.id by apply Z.log2_nonneg. split; [done|].
    destruct (decide (n = 0)) as [->|]; [done|]. apply Z.log2_spec. lia.
  - split; [done|]. split; [by apply Forall_reverse|].
    simpl. rewrite reverse_cons. by intros [_ ?]%app_nil.
Qed.

(** Number of digits. *)
Lemma length_digits_rev base fuel : ∀ n k,
  2 ≤ base → 0 ≤ n < base ^ Z.of_nat k → (0 < k)%nat → (length (digits_rev base fuel n) ≤ k)%nat.
Proof.
  induction fuel as [|fuel IH]; intros n k Hb Hn Hk; simpl; [lia|].
  destruct (Z.eqb_spec (n / base) 0) as [E|E]; simpl; [lia|].
  destruct k as [|k]; [lia|]. rewrite Nat2Z.inj_succ, Z.pow_succ_r in Hn by lia.
  assert (0 ≤ n / base < base ^ Z.of_nat k) as Hq.
  { split; [apply Z.div_pos; lia|]. apply Z.div_lt_upper_bound; lia. }
  assert (0 < k)%nat.
  { destruct k; [|lia]. simpl in Hq. lia. }
  specialize (IH (n / base) k Hb Hq ltac:(lia)). lia.
Qed.

Lemma length_print_base_le base n k :
  2 ≤ base → 0 ≤ n < base ^ Z.of_nat k → (0 < k)%nat → (length (print_base base n) ≤ k)%nat.
Proof. intros. unfold print_base. rewrite length_reverse. by apply length_digits_rev. Qed.

Lemma digits_rev_long base fuel : ∀ n k,
  2 ≤ base → base ^ Z.of_nat k ≤ n < 2 ^ Z.of_nat fuel → (k < length (digits_rev base fuel n))%nat.
Proof.
  induction fuel as [|fuel IH]; intros n k Hb Hn.
  { simpl in Hn. assert (0 < base ^ Z.of_nat k) by (apply Z.pow_pos_nonneg; lia). lia. }
  simpl. destruct k as [|k]; [simpl; destruct (_ =? 0); simpl; lia|].
  rewrite (Nat2Z.inj_succ k), Z.pow_succ_r in Hn by lia.
  assert (0 < base ^ Z.of_nat k) by (apply Z.pow_pos_nonneg; lia).
  assert (base ^ Z.of_nat k ≤ n / base) as Hq by (apply Z.div_le_lower_bound; lia).
  zbool. simpl. rewrite Nat2Z.inj_succ, Z.pow_succ_r in Hn by lia.
  assert (n / base < 2 ^ Z.of_nat fuel) as Hu by (apply Z.div_lt_upper_bound; nia).
  specialize (IH (n / base) k Hb (conj Hq Hu)). lia.
Qed.

Lemma length_print_base_gt base n k :
  2 ≤ base → base ^ Z.of_nat k ≤ n → (k < length (print_base base n))%nat.
Proof.
  intros Hb Hn. unfold print_base. rewrite length_reverse. apply digits_rev_long; [done|].
  split; [done|]. rewrite Nat2Z.inj_succ, Z2Nat.id by apply Z.log2_nonneg.
  apply Z.log2_spec. assert (0 < base ^ Z.of_nat k) by (apply Z.pow_pos_nonneg; lia). lia.
Qed.

(** Leading zeros do not change the value. *)
Lemma digits_val_zeros base k ds :
  2 ≤ base ≤ 16 → digits_val base (replicate k (Zbyte 48) ++ ds) = digits_val base ds.
Proof.
  intros Hb. unfold digits_val. rewrite fold_left_app. f_equal.
  induction k as [|k IH]; [done|]. simpl.
  change (Zbyte 48) with (digit_char 0). rewrite base_digit_char by lia. simpl. exact IH.
Qed.

Lemma base_digit_bound base b : 0 < base → 0 ≤ default 0 (base_digit base b) < base.
Proof.
  intros. unfold base_digit, digit_val, isdigit, islower, isupper, in_range. pose proof (byteZ_bound b).
  repeat (zcase; simpl); lia.
Qed.

Lemma digits_val_bound base ds : 0 < base → 0 ≤ digits_val base ds < base ^ zlen ds.
Proof.
  intros Hb. induction ds as [|d ds IH] using rev_ind; [done|].
  rewrite digits_val_snoc, length_app, Nat2Z.inj_add, Z.pow_add_r by lia.
  change (zlen [d]) with 1. rewrite Z.pow_1_r. pose proof (base_digit_bound base d Hb). nia.
Qed.

Lemma span_app P ds rest :
  Forall (λ b, P b = true) ds → (∀ b r, rest = b :: r → P b = false) → span P (ds ++ rest) = (ds, rest).
Proof.
  intros Hd Hr. induction Hd as [|b ds Hb _ IH]; simpl.
  - destruct rest as [|b r]; [done|]. simpl. by rewrite (Hr b r).
  - by rewrite Hb, IH.
Qed.

Lemma span_eq P s : fst (span P s) ++ snd (span P s) = s.
Proof.
  induction s as [|b s IH]; [done|]. simpl. destruct (P b); [|done].
  destruct (span P s). simpl in *. by rewrite IH.
Qed.

(** Digits are neither blanks nor signs, so scanning starts at once. *)
Lemma base_digit_not_space base b : base ≤ 16 → is_base_digit base b = true →
  isspace b = false ∧ b ≠ Zbyte 45 ∧ b ≠ Zbyte 43.
Proof.
  intros Hbase H. unfold is_base_digit, base_digit, digit_val, isdigit, islower, isupper, isspace, in_range in *.
  pose proof (byteZ_bound b).
  assert (byteZ (Zbyte 45) = 45) by done. assert (byteZ (Zbyte 43) = 43) by done.
  repeat (zcase; simpl in *); try done; split_and!; try lia; intros ->; lia.
Qed.

Lemma strto_scan_digits base ds rest :
  base = 10 ∨ (base = 16 ∧ ∀ x r, ds = Zbyte 48 :: x :: r → is_base_digit 16 x = true) →
  ds ≠ [] → Forall (λ b, is_base_digit base b = true) ds →
  (∀ b r, rest = b :: r → is_base_digit base b = false) →
  (base = 16 → length ds = 1%nat → rest = []) →
  strto_scan (ds ++ rest) base = Some (false, ds, rest).
Proof.
  intros Hbase Hne Hds Hrest H1. assert (base ≤ 16) as Hle by (destruct Hbase as [|[]]; lia).
  unfold strto_scan, skip_space.
  destruct ds as [|d ds]; [done|]. pose proof Hds as [Hd _]%Forall_cons.
  destruct (base_digit_not_space base d Hle Hd) as (Hsp & Hm & Hp).
  simpl. rewrite Hsp. simpl. rewrite !bool_decide_false by done.
  change (d :: ds ++ rest) with ((d :: ds) ++ rest).
  match goal with |- context [span (is_base_digit base) ?t] => assert (t = (d :: ds) ++ rest) as -> end.
  { simpl. destruct ds as [|x ds]; simpl.
    - destruct rest as [|x [|y r]]; try done.
      destruct (Z.eqb_spec base 16) as [->|]; [|done]. by specialize (H1 eq_refl eq_refl).
    - destruct (ds ++ rest) as [|y r]; [done|].
      destruct (Z.eqb_spec base 16) as [->|]; simpl; [|done].
      case_bool_decide as Ez; simpl; [|done]. subst d.
      destruct Hbase as [|[_ Hx]]; [lia|]. specialize (Hx _ _ eq_refl).
      destruct (bool_decide (x = Zbyte 120)) eqn:E1; [apply bool_decide_eq_true in E1 as ->; done|].
      destruct (bool_decide (x = Zbyte 88)) eqn:E2; [apply bool_decide_eq_true in E2 as ->; done|].
      done. }
  rewrite span_app by done. by rewrite bool_decide_false.
Qed.

(** Decimal: what [%d] prints, [strtoll] reads back. *)
Lemma strtoll_print_u n rest :
  0 ≤ n < 2 ^ 63 → (∀ b r, rest = b :: r → is_base_digit 10 b = false) →
  strtoll (print_u n ++ rest) 10 = StrTo n rest false true.
Proof.
  intros Hn Hr. destruct (print_base_spec 10 n) as (Hv & Hf & Hne); [lia..|].
  unfold strtoll. rewrite strto_scan_digits by (auto; lia).
  unfold print_u. rewrite Hv. zbool. done.
Qed.

Lemma s32_small n : 0 ≤ n < 2 ^ 31 → s32 n = n.
Proof. intros. unfold s32. rewrite u32_small by lia. zbool. done. Qed.

Lemma sscanf_print_u n : 0 ≤ n < 2 ^ 31 → sscanf_d (print_u n) = Some n.
Proof.
  intros Hn. unfold sscanf_d. rewrite <- (app_nil_r (print_u n)).
  rewrite strtoll_print_u by (done || lia). simpl. by rewrite s32_small.
Qed.

Lemma c_str_id s : NUL ∉ s → c_str s = s.
Proof.
  induction s as [|b s IH]; [done|]. intros [? ?]%not_elem_of_cons. simpl.
  rewrite bool_decide_false by congruence. by rewrite IH.
Qed.

Lemma c_str_no_nul s : NUL ∉ c_str s.
Proof.
  induction s as [|b s IH]; simpl; [apply not_elem_of_nil|]. case_bool_decide; [apply not_elem_of_nil|].
  apply not_elem_of_cons. split; [congruence|done].
Qed.

Lemma starts_with_app p s : starts_with (p ++ s) p = true.
Proof. unfold starts_with. by rewrite take_app_length, bool_decide_true. Qed.

Lemma starts_with_inv s p : starts_with s p = true → s = p ++ drop (length p) s.
Proof.
  unfold starts_with. intros H%bool_decide_eq_true. rewrite <- H at 1. by rewrite take_drop.
Qed.

(** ** Searching *)

Lemma find_sub_from_Some s p : ∀ k i,
  find_sub_from s p k = Some i ↔
  (k ≤ i)%nat ∧ (i - k ≤ length s)%nat ∧ starts_with (drop (i - k) s) p = true ∧
  ∀ j, (j < i - k)%nat → starts_with (drop j s) p = false.
Proof.
  induction s as [|b s IH]; intros k i; simpl.
  - destruct (starts_with [] p) eqn:E; split.
    + intros [= ->]. rewrite Nat.sub_diag, drop_0. split_and!; auto; lia.
    + intros (? & ? & _). f_equal. lia.
    + done.
    + intros (_ & _ & H & _). rewrite drop_nil in H. congruence.
  - destruct (starts_with (b :: s) p) eqn:E; split.
    + intros [= ->]. rewrite Nat.sub_diag. split_and!; auto; simpl; lia.
    + intros (? & ? & ? & H). destruct (decide (i = k)) as [->|]; [done|].
      specialize (H 0%nat ltac:(lia)). rewrite drop_0 in H. congruence.
    + intros (? & ? & ? & H)%IH. replace (i - k)%nat with (S (i - S k)) by lia.
      split_and!; simpl; auto; [lia..|]. intros [|j] Hj; simpl; [done|]. apply H. lia.
    + intros (? & ? & Hs & H). destruct (decide (i = k)) as [->|].
      { rewrite Nat.sub_diag, drop_0 in Hs. congruence. }
      apply IH. replace (i - k)%nat with (S (i - S k)) in * by lia. simpl in *.
      split_and!; auto; [lia..|]. intros j Hj. apply (H (S j)). lia.
Qed.

Lemma find_sub_Some s p i :
  find_sub s p 0 = Some i ↔
  (i ≤ length s)%nat ∧ starts_with (drop i s) p = true ∧
  ∀ j, (j < i)%nat → starts_with (drop j s) p = false.
Proof.
  unfold find_sub. rewrite drop_0, find_sub_from_Some, Nat.sub_0_r. split; intros; split_and!; naive_solver lia.
Qed.

Lemma rfind_sub_from_None s p : ∀ k,
  (∀ j, (j ≤ length s)%nat → starts_with (drop j s) p = false) → rfind_sub_from s p k = None.
Proof.
  induction s as [|b s IH]; intros k H; simpl.
  - pose proof (H 0%nat ltac:(lia)) as E. rewrite drop_0 in E. by rewrite E.
  - rewrite IH; [|intros j Hj; apply (H (S j)); simpl; lia].
    pose proof (H 0%nat ltac:(lia)) as E. rewrite drop_0 in E. by rewrite E.
Qed.

Lemma rfind_sub_from_intro s p : ∀ k i,
  (i ≤ length s)%nat → starts_with (drop i s) p = true →
  (∀ j, (i < j ≤ length s)%nat → starts_with (drop j s) p = false) →
  rfind_sub_from s p k = Some (k + i)%nat.
Proof.
  induction s as [|b s IH]; intros k i Hi Hs H; simpl in *.
  - destruct i; [|lia]. rewrite drop_0 in Hs. rewrite Hs. f_equal. lia.
  - destruct i as [|i].
    + rewrite rfind_sub_from_None by (intros j Hj; apply (H (S j)); lia).
      rewrite drop_0 in Hs. rewrite Hs. f_equal. lia.
    + rewrite (IH (S k) i); [f_equal; lia|lia|done|].
      intros j Hj. apply (H (S j)). lia.
Qed.

Lemma rfind_sub_intro s p i :
  (i ≤ length s)%nat → starts_with (drop i s) p = true →
  (∀ j, (i < j ≤ length s)%nat → starts_with (drop j s) p = false) → rfind_sub s p = Some i.
Proof. apply rfind_sub_from_intro. Qed.

Lemma starts_with_two s c d :
  starts_with s [c; d] = true ↔ s !! 0%nat = Some c ∧ s !! 1%nat = Some d.
Proof.
  unfold starts_with. rewrite bool_decide_eq_true. destruct s as [|x [|y s]]; simpl; naive_solver.
Qed.

(** ** C strings in a buffer *)

Lemma c_str_of_buffer_ok s : NUL ∈ s → c_str_of_buffer s = Ret (c_str s).
Proof.
  induction s as [|b s IH]; [by intros ?%elem_of_nil|]. intros [<-|H]%elem_of_cons; [done|].
  simpl. case_bool_decide; [done|]. by rewrite IH.
Qed.

Lemma c_str_of_buffer_unterminated s : NUL ∉ s → c_str_of_buffer s = UB.
Proof.
  induction s as [|b s IH]; [done|]. intros [Hb Hs]%not_elem_of_cons. simpl.
  rewrite bool_decide_false by congruence. by rewrite IH.
Qed.

Lemma c_str_app_nul s r : c_str (s ++ NUL :: r) = c_str s.
Proof. induction s as [|b s IH]; [done|]. simpl. case_bool_decide; [done|]. by rewrite IH. Qed.

(** The terminator is behind a prefix without one. *)
Lemma nul_behind s p r :
  starts_with s p = true → NUL ∉ p → NUL ∈ s ++ r → NUL ∈ drop (length p) s ++ r.
Proof.
  intros Hs Hp. rewrite (starts_with_inv s p Hs) at 1. rewrite <- app_assoc, elem_of_app. by intros [|].
Qed.

(** ** What a number consists of *)

Lemma span_prefix P s : Forall (λ b, P b = true) (fst (span P s)).
Proof.
  induction s as [|b s IH]; [constructor|]. simpl. destruct (P b) eqn:E; [|constructor].
  destruct (span P s). by constructor.
Qed.

Lemma span_whole P s : snd (span P s) = [] → Forall (λ b, P b = true) s.
Proof.
  intros H. pose proof (span_eq P s) as E. rewrite H, app_nil_r in E. rewrite <- E. apply span_prefix.
Qed.

Lemma elem_of_skip_space b s : isspace b = false → b ∈ s → b ∈ skip_space s.
Proof.
  intros Hb H. rewrite <- (span_eq isspace s) in H. apply elem_of_app in H as [H|H]; [|done].
  pose proof (proj1 (Forall_forall _ _) (span_prefix isspace s) b H) as E. cbv beta in E. congruence.
Qed.

(** A character of no number stops the scan before the end. *)
Lemma strto_scan_rest s base b neg ds rest :
  strto_scan s base = Some (neg, ds, rest) → b ∈ s → isspace b = false → is_base_digit base b = false →
  b ∉ [Zbyte 45; Zbyte 43; Zbyte 48; Zbyte 120; Zbyte 88] → rest ≠ [].
Proof.
  intros Hsc Hin Hsp Hd Hx. unfold strto_scan in Hsc. apply (elem_of_skip_space b) in Hin; [|done].
  assert (∀ n (s3 : bytes), b ∈ s3 → (let '(ds, rest) := span (is_base_digit base) s3 in
    if bool_decide (ds = []) then None else Some (n, ds, rest)) = Some (neg, ds, rest) → rest ≠ []) as Hend.
  { intros n s3 H3 E Hr. destruct (span _ s3) as [d r] eqn:Es. case_bool_decide; [done|]. simplify_eq.
    pose proof (span_whole (is_base_digit base) s3) as Hw. rewrite Es in Hw. specialize (Hw eq_refl).
    pose proof (proj1 (Forall_forall _ _) Hw b H3) as Hb. cbv beta in Hb. congruence. }
  assert (∀ s2 : bytes, b ∈ s2 → b ∈ match s2 with
      | z :: x :: d :: _ =>
          if (base =? 16) && bool_decide (z = Zbyte 48)
             && (bool_decide (x = Zbyte 120) || bool_decide (x = Zbyte 88)) && is_base_digit 16 d
          then drop 2 s2 else s2
      | _ => s2
      end) as H3.
  { intros [|z [|x [|d s2]]] H2; try done.
    destruct (_ && _ && _ && _) eqn:Ec; [|done]. rewrite !andb_true_iff, orb_true_iff, !bool_decide_eq_true in Ec.
    destruct Ec as [[[_ ->] Ex] _]. cbn [drop]. apply elem_of_cons in H2 as [->|H2]; [exfalso; apply Hx; set_solver|].
    apply elem_of_cons in H2 as [->|H2]; [|done]. exfalso. apply Hx. destruct Ex as [->| ->]; set_solver. }
  destruct (skip_space s) as [|c r] eqn:Es; [by apply elem_of_nil in Hin|].
  assert (b ∈ c :: r → (c = Zbyte 45 ∨ c = Zbyte 43) → b ∈ r) as Hr.
  { intros [->|]%elem_of_cons [->| ->]; try done; exfalso; apply Hx; set_solver. }
  destruct (bool_decide (c = Zbyte 45)) eqn:E1; [|destruct (bool_decide (c = Zbyte 43)) eqn:E2].
  - apply bool_decide_eq_true in E1. eapply Hend, Hsc. by apply H3, Hr; auto.
  - apply bool_decide_eq_true in E2. eapply Hend, Hsc. by apply H3, Hr; auto.
  - eapply Hend, Hsc. by apply (H3 (c :: r)).
Qed.
