(* ===== verification/LibBase.v ===== *)
(** * String and number parsing: [libbase]

    [strings.cpp]/[strings.h], [parseint.h] and [parsenetaddress.cpp], with the
    index arithmetic of the source; the theorems relate them to structural
    definitions. *)

From S2P Require Import Prelude CString.
Local Open Scope Z_scope.

(** ** [strings.cpp] *)

Fixpoint split_loop (fuel : nat) (s ds : bytes) (base : nat) (result : list bytes)
  : outcome (list bytes) :=
  match fuel with
  | O => OutOfFuel
  | S fuel =>
      let found := find_first_of s ds base in
      let result' := result ++ [substr_upto s base found] in
      match found with
      | None => Ret result'
      | Some f => split_loop fuel s ds (S f) result'
      end
  end.

Definition Split (s delimiters : bytes) : outcome (list bytes) :=
  _ ← check (negb (bool_decide (delimiters = [])));
  split_loop (S (length s)) s delimiters 0 [].

Fixpoint tokenize_loop (fuel : nat) (s ds : bytes) (end_ : nat) (result : list bytes)
  : outcome (list bytes) :=
  match fuel with
  | O => OutOfFuel
  | S fuel =>
      match find_first_not_of s ds end_ with
      | None => Ret result
      | Some base =>
          let e := find_first_of s ds base in
          let result' := result ++ [substr_upto s base e] in
          match e with
          | None => Ret result'  (* the next search starts at npos and fails *)
          | Some e => tokenize_loop fuel s ds e result'
          end
      end
  end.

Definition Tokenize (s delimiters : bytes) : outcome (list bytes) :=
  _ ← check (negb (bool_decide (delimiters = [])));
  tokenize_loop (S (length s)) s delimiters 0 [].

(** [Trim]: the two loops over the view's ends. *)
Fixpoint trim_front_ws (sv : bytes) : bytes :=
  match sv with
  | b :: r => if isspace b then trim_front_ws r else sv
  | [] => []
  end.
Definition Trim (s : bytes) : bytes :=
  reverse (trim_front_ws (reverse (trim_front_ws s))).

(** [Join(things, separator)] for a one-character separator. *)
Definition Join (things : list bytes) (separator : byte) : bytes :=
  match things with
  | [] => []
  | t :: ts => fold_left (λ acc x, acc ++ [separator] ++ x) ts t
  end.

Definition StartsWith (s prefix : bytes) : bool :=
  bool_decide (substr s 0 (length prefix) = prefix).
Definition StartsWith_char (s : bytes) (prefix : byte) : bool :=
  match s with b :: _ => bool_decide (b = prefix) | [] => false end.
Definition EndsWith (s suffix : bytes) : bool :=
  (length suffix <=? length s)%nat &&
  bool_decide (substr s (length s - length suffix) (length suffix) = suffix).
Definition EndsWith_char (s : bytes) (suffix : byte) : bool :=
  match last s with Some b => bool_decide (b = suffix) | None => false end.

(** [strncasecmp(a, b, n) == 0] over at least [n] readable bytes: the comparison
    stops at a NUL common to both. *)
Fixpoint strncasecmp_eq (a b : bytes) (n : nat) : bool :=
  match n, a, b with
  | O, _, _ => true
  | S n, x :: a, y :: b =>
      bool_decide (tolower x = tolower y) &&
      (bool_decide (x = NUL) || strncasecmp_eq a b n)
  | S _, _, _ => false
  end.

Definition StartsWithIgnoreCase (s prefix : bytes) : bool :=
  (length prefix <=? length s)%nat && strncasecmp_eq s prefix (length prefix).
Definition EndsWithIgnoreCase (s suffix : bytes) : bool :=
  (length suffix <=? length s)%nat &&
  strncasecmp_eq (drop (length s - length suffix) s) suffix (length suffix).
Definition EqualsIgnoreCase (lhs rhs : bytes) : bool :=
  (length lhs =? length rhs)%nat && strncasecmp_eq lhs rhs (length lhs).

(** [ConsumePrefix(&s, prefix)]: the shortened view when it returns true. *)
Definition ConsumePrefix (s prefix : bytes) : option bytes :=
  if StartsWith s prefix then Some (drop (length prefix) s) else None.
Definition ConsumeSuffix (s suffix : bytes) : option bytes :=
  if EndsWith s suffix then Some (take (length s - length suffix) s) else None.

Fixpoint replace_loop (fuel : nat) (s from to : bytes) (all : bool) (start_pos : nat)
    (result : bytes) : outcome (bytes * nat) :=
  match fuel with
  | O => OutOfFuel
  | S fuel =>
      match find_sub s from start_pos with
      | None => Ret (result, start_pos)
      | Some pos =>
          let result' := result ++ substr s start_pos (pos - start_pos) ++ to in
          let start' := (pos + length from)%nat in
          if all then replace_loop fuel s from to all start' result'
          else Ret (result', start')
      end
  end.

Definition StringReplace (s from to : bytes) (all : bool) : outcome bytes :=
  if bool_decide (from = []) then Ret s
  else
    '(result, start_pos) ← replace_loop (S (length s)) s from to all 0 [];
    Ret (result ++ drop start_pos s).

(** ** [parseint.h] *)

(** The base chosen from the "0x" prefix. *)
Definition choose_base (s : bytes) : Z :=
  match s with
  | z :: x :: _ =>
      if bool_decide (z = Zbyte 48) && (bool_decide (x = Zbyte 120) || bool_decide (x = Zbyte 88))
      then 16 else 10
  | _ => 10
  end.

(** [strchr("bkmgtpe", c)] as the index of [c]. *)
Definition suffix_index (c : byte) : option nat := find_char (str "bkmgtpe") c 0.

(** [ParseUint<T>(s, &out, max, allow_suffixes)]: the stored value when it
    returns true.  [s] is a C string. *)
Definition ParseUint (s : bytes) (max : Z) (allow_suffixes : bool) : option Z :=
  let s := skip_space s in
  match s with
  | b :: _ => if bool_decide (b = Zbyte 45) then None else Some tt
  | [] => Some tt
  end ≫= λ _,
  let r := strtoull s (choose_base s) in
  if st_range r then None
  else if negb (st_conv r) then None
  else
    match st_rest r with
    | [] => Some (st_val r)
    | e :: _ =>
        if allow_suffixes then
          match suffix_index (tolower e) with
          | None => None
          | Some i =>
              let v := st_val r * 2 ^ (10 * Z.of_nat i) in
              if 2 ^ 64 <=? v then None else Some v
          end
        else None
    end ≫= λ result,
  if max <? result then None else Some result.

Definition ParseByteCount (s : bytes) (max : Z) : option Z := ParseUint s max true.

(** [ParseInt<T>(s, &out, min, max)] *)
Definition ParseInt (s : bytes) (min max : Z) : option Z :=
  let s := skip_space s in
  let r := strtoll s (choose_base s) in
  if st_range r then None
  else if negb (st_conv r) || negb (bool_decide (st_rest r = [])) then None
  else if (st_val r <? min) || (max <? st_val r) then None
  else Some (st_val r).

(** [ParseInt(s, &int_value)] *)
Definition INT_MIN : Z := - 2 ^ 31.
Definition INT_MAX : Z := 2 ^ 31 - 1.
Definition ParseInt_int (s : bytes) : option Z := ParseInt s INT_MIN INT_MAX.

(** ** [parsenetaddress.cpp] *)

Inductive net_result :=
  | NetOk (host : bytes) (port : Z) (canonical_address : bytes)
  | NetErr (error : bytes).

Definition colon : byte := Zbyte 58.
Definition dot : byte := Zbyte 46.
Definition bracket_open : byte := Zbyte 91.

(** How the address is cut up: is it IPv6, the host, and the port string if
    there is one; or the error. *)
Definition split_address (address : bytes) : outcome (bytes + (bool * bytes * option bytes)) :=
  let colons := count_char address colon in
  let dots := count_char address dot in
  if StartsWith_char address bracket_open then
    match rfind_sub address (str "]:"), find_sub address (str "]:") 0 with
    | Some r, Some f =>
        Ret (inr (true, substr address 1 (f - 1), Some (drop (r + 2) address)))
    | _, _ => Ret (inl (str "bad IPv6 address '" ++ c_str address ++ str "'"))
    end
  else if (dots =? 0) && (2 <=? colons) && (colons <=? 7) then
    Ret (inr (true, address, None))
  else if colons <=? 1 then
    pieces ← Split address (str ":");
    host ← deref (pieces !! 0%nat);
    Ret (inr (false, host, pieces !! 1%nat))
  else Ret (inr (true, [], None)).

(** [ParseNetAddress(address, &host, &port, &canonical_address, &error)]; [port]
    is the value the caller stored there before the call. *)
Definition ParseNetAddress (address : bytes) (port : Z) : outcome net_result :=
  parts ← split_address address;
  match parts with
  | inl e => Ret (NetErr e)
  | inr (ipv6, host, port_str) =>
      if bool_decide (host = []) then
        Ret (NetErr (str "no host in '" ++ c_str address ++ str "'"))
      else
        let bad p := NetErr (str "bad port number '" ++ c_str p ++ str "' in '"
                             ++ c_str address ++ str "'") in
        let ok p :=
          NetOk host p (if (ipv6 : bool) then str "[" ++ c_str host ++ str "]:" ++ print_d p
                        else c_str host ++ str ":" ++ print_d p) in
        match port_str with
        | None => Ret (ok port)
        | Some ps =>
            match sscanf_d (c_str ps) with
            | Some p => if (p <=? 0) || (65535 <? p) then Ret (bad ps) else Ret (ok p)
            | None => Ret (bad ps)
            end
        end
  end.
