(* ===== verification/LibBaseFacts.v ===== *)
(** * Correctness of the [libbase] parsers

    [Split]/[Join]/[Tokenize] against a structural definition and as inverses,
    decimal and hexadecimal printing against the [strtol] family, ranges of
    [ParseInt]/[ParseUint]/[ParseNetAddress]. *)

From S2P Require Import Prelude CString CStringFacts LibBase.
Local Open Scope Z_scope.

(** ** Splitting *)

(** The pieces between delimiter characters, by recursion on the string. *)
Fixpoint split_ref (ds s : bytes) : list bytes :=
  match s with
  | [] => [[]]
  | b :: s =>
      if bool_decide (b ∈ ds) then [] :: split_ref ds s
      else match split_ref ds s with
           | p :: ps => (b :: p) :: ps
           | [] => [[b]]
           end
  end.

Lemma split_ref_cons ds s : ∃ p ps, split_ref ds s = p :: ps.
Proof.
  induction s as [|b s IH]; simpl; [eauto|]. destruct IH as (p & ps & ->).
  case_bool_decide; eauto.
Qed.

Lemma split_ref_find ds l :
  split_ref ds l =
    match list_find (λ b, bool_decide (b ∈ ds) = true) l with
    | None => [l]
    | Some (i, _) => take i l :: split_ref ds (drop (S i) l)
    end.
Proof.
  induction l as [|b l IH]; [done|]. simpl. case_decide as E.
  - rewrite E. done.
  - apply not_true_is_false in E. rewrite E.
    rewrite IH. by destruct (list_find _ l) as [[i c]|].
Qed.

Lemma find_if_Some P s pos f :
  find_if P s pos = Some f → (pos ≤ f < length s)%nat.
Proof.
  unfold find_if. destruct (list_find _ _) as [[i c]|] eqn:E; simpl; [|done].
  intros [= <-]. apply list_find_Some in E as (E & _).
  rewrite lookup_drop in E. apply lookup_lt_Some in E. lia.
Qed.

Lemma split_loop_spec fuel : ∀ s ds base acc,
  (length s - base < fuel)%nat → (base ≤ length s)%nat →
  split_loop fuel s ds base acc = Ret (acc ++ split_ref ds (drop base s)).
Proof.
  induction fuel as [|fuel IH]; intros s ds base acc Hf Hb; [lia|].
  simpl. rewrite split_ref_find. unfold find_first_of, find_if.
  destruct (list_find _ (drop base s)) as [[i c]|] eqn:E; simpl; [|done].
  apply list_find_Some in E as (E & _). pose proof (lookup_lt_Some _ _ _ E) as Hlt.
  rewrite length_drop in Hlt. rewrite IH by lia.
  rewrite <- app_assoc. simpl. do 3 f_equal.
  - unfold substr. do 2 f_equal. lia.
  - rewrite drop_drop. do 2 f_equal. lia.
Qed.

Lemma Split_ref s ds : ds ≠ [] → Split s ds = Ret (split_ref ds s).
Proof.
  intros H. unfold Split. rewrite bool_decide_false by done. mstep.
  rewrite split_loop_spec by lia. by rewrite drop_0.
Qed.

(** Joining with [c], by recursion. *)
Fixpoint join_ref (c : byte) (ps : list bytes) : bytes :=
  match ps with
  | [] => []
  | [p] => p
  | p :: ps => p ++ c :: join_ref c ps
  end.

Lemma Join_ref ps c : Join ps c = join_ref c ps.
Proof.
  destruct ps as [|p ps]; [done|]. unfold Join. revert p.
  induction ps as [|q ps IH]; intros p; [done|]. cbn [fold_left]. rewrite IH.
  destruct ps; simpl; rewrite <- ?app_assoc; done.
Qed.

Lemma join_split_ref c s : join_ref c (split_ref [c] s) = s.
Proof.
  induction s as [|b s IH]; [done|]. simpl. case_bool_decide as E.
  - apply list_elem_of_singleton in E as ->. destruct (split_ref_cons [c] s) as (p & ps & Ep).
    rewrite Ep in *. simpl. f_equal. exact IH.
  - destruct (split_ref_cons [c] s) as (p & ps & Ep). rewrite Ep in *.
    destruct ps; simpl in *; congruence.
Qed.

Lemma split_ref_no_delim ds p : Forall (λ b, b ∉ ds) p → split_ref ds p = [p].
Proof.
  induction 1 as [|b p Hb _ IH]; [done|]. simpl. rewrite IH, bool_decide_false by done. done.
Qed.

Lemma split_ref_app ds p c s :
  Forall (λ b, b ∉ ds) p → c ∈ ds → split_ref ds (p ++ c :: s) = p :: split_ref ds s.
Proof.
  intros Hp Hc. induction Hp as [|b p Hb _ IH]; simpl.
  - by rewrite bool_decide_true.
  - rewrite bool_decide_false by done. by rewrite IH.
Qed.

Lemma split_join_ref c ps :
  ps ≠ [] → Forall (Forall (λ b, b ≠ c)) ps → split_ref [c] (join_ref c ps) = ps.
Proof.
  intros Hne Hps.
  assert (∀ p, Forall (λ b, b ≠ c) p → Forall (λ b, b ∉ [c]) p) as Hin.
  { intros p Hp. apply (Forall_impl _ _ _ Hp). intros b. by rewrite list_elem_of_singleton. }
  induction Hps as [|p ps Hp Hps IH]; [done|]. destruct ps as [|q ps].
  - apply split_ref_no_delim. auto.
  - change (join_ref c (p :: q :: ps)) with (p ++ c :: join_ref c (q :: ps)).
    rewrite split_ref_app by (auto; by apply list_elem_of_singleton). by rewrite IH.
Qed.

(** [Split] is total and terminates on every input with delimiters, cutting
    the string exactly at the delimiter characters; with a single delimiter it is
    a section of [Join], and inverts it on pieces free of the delimiter. *)
Theorem Split_correct s ds c ps :
  ds ≠ [] → ps ≠ [] → Forall (Forall (λ b, b ≠ c)) ps →
  Split s ds = Ret (split_ref ds s) ∧
  (r ← Split s [c]; Ret (Join r c)) = Ret s ∧
  Split (Join ps c) [c] = Ret ps.
Proof.
  intros Hd Hne Hps. rewrite !Split_ref by done. mstep. rewrite !Join_ref.
  by rewrite join_split_ref, split_join_ref.
Qed.

Lemma Split_correct_witness :
  Split (str "a:b;c") (str ":;") = Ret [str "a"; str "b"; str "c"] ∧
  (r ← Split (str "a:b;c") (str ","); Ret (Join r (Zbyte 44))) = Ret (str "a:b;c") ∧
  Split (Join [str "x"; str ""; str "yz"] (Zbyte 44)) (str ",") = Ret [str "x"; str ""; str "yz"].
Proof.
  apply (Split_correct (str "a:b;c") (str ":;") (Zbyte 44) [str "x"; str ""; str "yz"]).
  - discriminate.
  - discriminate.
  - vm_compute. repeat constructor; discriminate.
Defined.

(** ** Tokenizing *)

Lemma split_ref_skip ds l :
  match list_find (λ b, negb (bool_decide (b ∈ ds)) = true) l with
  | None => filter (λ p, p ≠ []) (split_ref ds l) = []
  | Some (i, _) => filter (λ p, p ≠ []) (split_ref ds l) =
                   filter (λ p, p ≠ []) (split_ref ds (drop i l))
  end.
Proof.
  induction l as [|b l IH]; [done|]. simpl.
  destruct (decide (negb (bool_decide (b ∈ ds)) = true)) as [E|E]; [done|].
  apply not_true_is_false, negb_false_iff in E. rewrite E.
  rewrite filter_cons_False by naive_solver.
  destruct (list_find _ l) as [[i c]|]; simpl; done.
Qed.

Lemma tokenize_loop_spec fuel : ∀ s ds e acc,
  (length s - e < fuel)%nat → (e ≤ length s)%nat →
  tokenize_loop fuel s ds e acc = Ret (acc ++ filter (λ p, p ≠ []) (split_ref ds (drop e s))).
Proof.
  induction fuel as [|fuel IH]; intros s ds e acc Hf He; [lia|].
  simpl. pose proof (split_ref_skip ds (drop e s)) as Hskip.
  unfold find_first_not_of, find_if at 1.
  destruct (list_find _ (drop e s)) as [[i b]|] eqn:E; simpl.
  2: { by rewrite Hskip, app_nil_r. }
  apply list_find_Some in E as (E & Hnb & _). pose proof (lookup_lt_Some _ _ _ E) as Hlt.
  rewrite length_drop in Hlt. rewrite Hskip, drop_drop. rewrite lookup_drop in E.
  rewrite split_ref_find. unfold find_first_of, find_if.
  pose proof (drop_S _ _ _ E) as Hds.
  destruct (list_find _ (drop (e + i) s)) as [[j c]|] eqn:E2; simpl.
  - apply list_find_Some in E2 as (E2 & Hc & _). pose proof (lookup_lt_Some _ _ _ E2) as Hlt2.
    rewrite length_drop in Hlt2.
    destruct j as [|j].
    { rewrite Hds in E2. injection E2 as <-. apply negb_true_iff in Hnb. congruence. }
    rewrite IH by lia. rewrite filter_cons_True by (rewrite Hds; done).
    rewrite <- app_assoc. simpl. do 3 f_equal.
    { unfold substr. f_equal. lia. }
    rewrite lookup_drop in E2. rewrite (drop_S _ _ _ E2). simpl. rewrite Hc.
    rewrite filter_cons_False by naive_solver. rewrite drop_drop. do 3 f_equal. lia.
  - rewrite filter_cons_True by (rewrite Hds; done). done.
Qed.

(** [Tokenize] terminates and returns the nonempty pieces that [Split]
    returns, in order: runs of delimiters and delimiters at the ends vanish. *)
Theorem Tokenize_correct s ds :
  ds ≠ [] → Tokenize s ds = (filter (λ p, p ≠ []) <$> Split s ds).
Proof.
  intros H. rewrite Split_ref by done. unfold Tokenize. rewrite bool_decide_false by done. mstep.
  rewrite tokenize_loop_spec by lia. by rewrite drop_0.
Qed.

Lemma Tokenize_correct_witness :
  Tokenize (str " foo  bar ") (str " ") =
  (filter (λ p, p ≠ []) <$> Split (str " foo  bar ") (str " ")).
Proof. apply (Tokenize_correct (str " foo  bar ") (str " ")). discriminate. Defined.

(** ** Numbers *)

Lemma skip_space_digits base ds : base ≤ 16 → ds ≠ [] →
  Forall (λ b, is_base_digit base b = true) ds → ∀ r, skip_space (ds ++ r) = ds ++ r.
Proof.
  intros Hb Hne Hf r. destruct Hf as [|d ds Hd _]; [done|].
  unfold skip_space. simpl. by rewrite (proj1 (base_digit_not_space base d Hb Hd)).
Qed.

(** Decimal digits never look like a hexadecimal prefix. *)
Lemma choose_base_digits ds r :
  Forall (λ b, is_base_digit 10 b = true) ds → (length ds = 1%nat → r ≠ [] →
    ∀ b r', r = b :: r' → b ≠ Zbyte 120 ∧ b ≠ Zbyte 88) → ds ≠ [] →
  choose_base (ds ++ r) = 10.
Proof.
  intros Hf Hr Hne. destruct Hf as [|d ds Hd Hf]; [done|]. simpl.
  assert (∀ b, is_base_digit 10 b = true → b ≠ Zbyte 120 ∧ b ≠ Zbyte 88) as Hx.
  { intros b Hb. split; intros ->; vm_compute in Hb; discriminate. }
  destruct Hf as [|x ds Hxd _]; simpl.
  - destruct r as [|b r]; [done|]. destruct (Hr eq_refl ltac:(done) b r eq_refl).
    rewrite !(bool_decide_false (b = _)) by done. by rewrite andb_false_r.
  - destruct (Hx x Hxd). rewrite !(bool_decide_false (x = _)) by done. by rewrite andb_false_r.
Qed.

Lemma strtoll_print_neg n : 0 < n ≤ 2 ^ 63 →
  strtoll (Zbyte 45 :: print_u n) 10 = StrTo (- n) [] false true.
Proof.
  intros Hn. destruct (print_base_spec 10 n) as (Hv & Hf & Hne); [lia..|].
  unfold strtoll. assert (strto_scan (Zbyte 45 :: print_u n) 10 = Some (true, print_u n, [])) as ->.
  { unfold strto_scan. change (skip_space (Zbyte 45 :: print_u n)) with (Zbyte 45 :: print_u n).
    cbv iota beta. rewrite bool_decide_true by done.
    match goal with |- context [span _ ?t] => assert (t = print_u n ++ []) as -> end.
    { rewrite app_nil_r. by destruct (print_u n) as [|? [|? [|? ?]]]. }
    rewrite span_app by done. by rewrite bool_decide_false. }
  unfold print_u. rewrite Hv. zbool. done.
Qed.

(** Printed numbers read back. *)
Lemma ParseUint_print n max :
  0 ≤ n < 2 ^ 64 → ParseUint (print_u n) max false = (if max <? n then None else Some n).
Proof.
  intros Hn. destruct (print_base_spec 10 n) as (Hv & Hf & Hne); [lia..|]. unfold ParseUint.
  assert (skip_space (print_u n) = print_u n) as ->.
  { rewrite <- (app_nil_r (print_u n)). by rewrite (skip_space_digits 10). }
  assert (choose_base (print_u n) = 10) as ->.
  { rewrite <- (app_nil_r (print_u n)). by apply choose_base_digits. }
  assert (strtoull (print_u n) 10 = StrTo n [] false true) as ->.
  { rewrite <- (app_nil_r (print_u n)). unfold strtoull. rewrite strto_scan_digits; try done; [|auto].
    unfold print_u. rewrite Hv. zbool. done. }
  unfold print_u in *. destruct Hf as [|b ds Hb _]; [done|]. simpl.
  rewrite bool_decide_false; [done|]. by apply (base_digit_not_space 10).
Qed.

Lemma ParseInt_print n min max :
  0 ≤ n < 2 ^ 63 → ParseInt (print_u n) min max = (if (n <? min) || (max <? n) then None else Some n).
Proof.
  intros Hn. destruct (print_base_spec 10 n) as (Hv & Hf & Hne); [lia..|]. unfold ParseInt.
  rewrite <- (app_nil_r (print_u n)). rewrite (skip_space_digits 10) by (done || lia).
  rewrite choose_base_digits by done. rewrite strtoll_print_u by (done || lia). done.
Qed.

(** A character of no number. *)
Lemma ParseInt_bad b s min max :
  b ∈ s → isspace b = false → is_base_digit 16 b = false → b ∉ [Zbyte 45; Zbyte 43; Zbyte 48; Zbyte 120; Zbyte 88] →
  ParseInt s min max = None.
Proof.
  intros Hin Hsp Hd Hx. unfold ParseInt. set (s' := skip_space s).
  assert (b ∈ s') as Hin' by (by apply elem_of_skip_space).
  assert (is_base_digit (choose_base s') b = false) as Hd'.
  { unfold choose_base. repeat case_match; try done; revert Hd; by destruct b. }
  unfold strtoll. destruct (strto_scan s' (choose_base s')) as [[[neg ds] rest]|] eqn:E; [|done].
  pose proof (strto_scan_rest _ _ b _ _ _ E Hin' Hsp Hd' Hx) as Hr.
  destruct (_ <? _); [done|]. destruct (_ <? _); [done|]. cbn. by rewrite bool_decide_false.
Qed.

(** [ParseInt] reads back every integer [%d] prints, exactly when it lies
    between [min] and [max], and never stores a value outside those bounds. *)
Theorem ParseInt_correct min max n s v :
  - 2 ^ 63 ≤ n < 2 ^ 63 →
  ParseInt (print_d n) min max = (if (n <? min) || (max <? n) then None else Some n) ∧
  (ParseInt s min max = Some v → min ≤ v ≤ max).
Proof.
  intros Hn. split.
  - unfold print_d. destruct (Z.ltb_spec n 0).
    + unfold ParseInt. change (str "-") with [Zbyte 45]. simpl app.
      change (skip_space (Zbyte 45 :: print_u (- n))) with (Zbyte 45 :: print_u (- n)).
      assert (choose_base (Zbyte 45 :: print_u (- n)) = 10) as ->.
      { by destruct (print_u (- n)). }
      rewrite strtoll_print_neg by lia. simpl. by rewrite Z.opp_involutive.
    + apply ParseInt_print. lia.
  - unfold ParseInt. destruct (st_range _); [done|]. destruct (_ || _); [done|].
    destruct (_ || _) eqn:E; [done|]. intros [= <-].
    apply orb_false_iff in E as [?%Z.ltb_ge ?%Z.ltb_ge]. lia.
Qed.

Lemma ParseInt_correct_witness :
  ParseInt (print_d (-5037)) INT_MIN INT_MAX = Some (-5037) ∧
  (ParseInt (str "0x7f") INT_MIN INT_MAX = Some 127 → INT_MIN ≤ 127 ≤ INT_MAX).
Proof. apply (ParseInt_correct INT_MIN INT_MAX (-5037) (str "0x7f") 127). lia. Defined.

(** [ParseUint] with suffixes: a byte count scales by 2^(10 i) for the i-th
    of "bkmgtpe" in either case, rejects products that overflow 64 bits or
    exceed [max], and ignores whatever follows the suffix character; without
    suffixes any trailing character is an error. *)
Theorem ParseUint_suffix n e i tail max :
  0 ≤ n < 2 ^ 63 → suffix_index (tolower e) = Some i → 0 ≤ max < 2 ^ 64 →
  let v := n * 2 ^ (10 * Z.of_nat i) in
  ParseByteCount (print_u n ++ e :: tail) max = (if max <? v then None else Some v) ∧
  ParseUint (print_u n ++ e :: tail) max false = None ∧
  ParseUint (print_u n) max false = (if max <? n then None else Some n).
Proof.
  intros Hn He Hmax v. destruct (print_base_spec 10 n) as (Hv & Hf & Hne); [lia..|].
  assert (is_base_digit 10 e = false ∧ e ≠ Zbyte 120 ∧ e ≠ Zbyte 88) as (Hd & Hx & HX).
  { split_and!.
    - destruct (is_base_digit 10 e) eqn:E; [|done]. exfalso.
      revert He E. destruct e; vm_compute; congruence.
    - intros ->. vm_compute in He. discriminate.
    - intros ->. vm_compute in He. discriminate. }
  assert (∀ r, (r = [] ∨ r = e :: tail) →
    strtoull (print_u n ++ r) 10 = StrTo n r false true ∧ choose_base (print_u n ++ r) = 10 ∧
    skip_space (print_u n ++ r) = print_u n ++ r ∧
    (match print_u n ++ r with b :: _ => if bool_decide (b = Zbyte 45) then None else Some tt
                             | [] => Some tt end) = Some tt) as Hr.
  { intros r Hr. split_and!.
    - unfold strtoull. rewrite strto_scan_digits; try done; [|auto|].
      + unfold print_u. rewrite Hv. zbool. done.
      + intros b r' ->. destruct Hr as [|[= -> ->]]; done.
    - apply choose_base_digits; auto. intros _ _ b r' ->. destruct Hr as [|[= -> ->]]; done.
    - by rewrite (skip_space_digits 10).
    - unfold print_u in *. destruct Hf as [|b ds Hb _]; [done|]. simpl.
      rewrite bool_decide_false; [done|]. by apply (base_digit_not_space 10). }
  assert (0 < 2 ^ (10 * Z.of_nat i)) by (apply Z.pow_pos_nonneg; lia).
  unfold ParseByteCount, ParseUint.
  destruct (Hr (e :: tail)) as (E1 & E2 & E3 & E4); [by right|]. rewrite E3, E4, E2, E1. simpl.
  rewrite He. fold v. split_and!; [|done|].
  - repeat zcase; simpl; try done; try (zbool; done); unfold v in *; lia.
  - destruct (Hr []) as (E1' & E2' & E3' & E4'); [by left|].
    rewrite app_nil_r in *. rewrite E3', E4', E2', E1'. done.
Qed.

Lemma ParseUint_suffix_witness :
  let v := 8 * 2 ^ (10 * Z.of_nat 1) in
  ParseByteCount (str "8kbogus") (2 ^ 64 - 1) = Some v ∧
  ParseUint (str "8kbogus") (2 ^ 64 - 1) false = None ∧
  ParseUint (str "8") (2 ^ 64 - 1) false = Some 8.
Proof.
  apply (ParseUint_suffix 8 (Zbyte 107) 1 (str "bogus") (2 ^ 64 - 1)).
  - lia.
  - reflexivity.
  - lia.
Defined.

(** ** Network addresses *)

Lemma split_address_total a : ∃ r, split_address a = Ret r.
Proof.
  unfold split_address. destruct (StartsWith_char _ _).
  { repeat case_match; eauto. }
  destruct (_ && _); [eauto|]. destruct (_ <=? 1); [|eauto].
  rewrite Split_ref by done. mstep. destruct (split_ref_cons (str ":") a) as (p & ps & ->). simpl. eauto.
Qed.

(** [ParseNetAddress] always returns; when it accepts, the host is not empty
    and the port is either one between 1 and 65535 read from the address or the
    caller's default. *)
Theorem ParseNetAddress_bounds address port :
  ∃ r, ParseNetAddress address port = Ret r ∧
       match r with
       | NetOk h p _ => h ≠ [] ∧ (p = port ∨ 1 ≤ p ≤ 65535)
       | NetErr _ => True
       end.
Proof.
  unfold ParseNetAddress. destruct (split_address_total address) as [parts ->]. mstep.
  destruct parts as [e|[[ipv6 host] ps]]; cbv beta iota zeta; [by eexists|].
  case_bool_decide; [by eexists|]. destruct ps as [ps|]; [|eexists; split; [done|simpl; auto]].
  destruct (sscanf_d _) as [p|]; [|by eexists].
  destruct (_ || _) eqn:E; [by eexists|]. apply orb_false_iff in E as [?%Z.leb_gt ?%Z.ltb_ge].
  eexists; split; [done|]. simpl. split; [done|]. lia.
Qed.

(** How an accepted address was cut up. *)
Lemma ParseNetAddress_ok a port h p c :
  ParseNetAddress a port = Ret (NetOk h p c) →
  ∃ ipv6 ps, split_address a = Ret (inr (ipv6, h, ps)) ∧ h ≠ [] ∧
    c = (if (ipv6 : bool) then str "[" ++ c_str h ++ str "]:" ++ print_d p
         else c_str h ++ str ":" ++ print_d p) ∧
    match ps with
    | None => p = port
    | Some q => sscanf_d (c_str q) = Some p ∧ 1 ≤ p ≤ 65535
    end.
Proof.
  unfold ParseNetAddress. destruct (split_address_total a) as [parts ->]. mstep.
  destruct parts as [e|[[ipv6 host] ps]]; cbv beta iota zeta; [done|].
  case_bool_decide; [done|]. destruct ps as [ps|]; [|intros [= <- <- <-]; eauto 10].
  destruct (sscanf_d (c_str ps)) as [q|] eqn:Eq; [|done].
  destruct (_ || _) eqn:E; [done|]. intros [= <- <- <-].
  apply orb_false_iff in E as [?%Z.leb_gt ?%Z.ltb_ge].
  exists ipv6, (Some ps). split_and!; auto; lia.
Qed.

Lemma ParseNetAddress_intro a port ipv6 h q p :
  split_address a = Ret (inr (ipv6, h, Some q)) → h ≠ [] →
  sscanf_d (c_str q) = Some p → 1 ≤ p ≤ 65535 →
  ParseNetAddress a port =
    Ret (NetOk h p (if (ipv6 : bool) then str "[" ++ c_str h ++ str "]:" ++ print_d p
                    else c_str h ++ str ":" ++ print_d p)).
Proof.
  intros Hs Hh Hq Hp. unfold ParseNetAddress. rewrite Hs. mstep.
  rewrite bool_decide_false, Hq by done. zbool. done.
Qed.

Lemma print_port_chars p : 1 ≤ p ≤ 65535 →
  print_d p = print_u p ∧ Forall (λ b, is_base_digit 10 b = true) (print_u p) ∧
  c_str (print_d p) = print_d p ∧ sscanf_d (c_str (print_d p)) = Some p.
Proof.
  intros Hp. destruct (print_base_spec 10 p) as (_ & Hf & _); [lia..|].
  unfold print_d. zbool. assert (c_str (print_u p) = print_u p) as E.
  { apply c_str_id. intros Hin. rewrite Forall_forall in Hf. by apply Hf in Hin. }
  rewrite E. split_and!; auto. apply sscanf_print_u. lia.
Qed.

Lemma digits_lack c p : is_base_digit 10 c = false → 1 ≤ p ≤ 65535 → Forall (λ b, b ≠ c) (print_u p).
Proof.
  intros Hc Hp. destruct (print_base_spec 10 p) as (_ & Hf & _); [lia..|].
  apply (Forall_impl _ _ _ Hf). intros b Hb ->. congruence.
Qed.

Lemma count_char_app s1 s2 c : count_char (s1 ++ s2) c = count_char s1 c + count_char s2 c.
Proof. unfold count_char. rewrite filter_app, length_app. lia. Qed.

Lemma count_char_none s c : Forall (λ b, b ≠ c) s → count_char s c = 0.
Proof.
  intros H. unfold count_char. induction H as [|b s Hb _ IH]; [done|].
  by rewrite filter_cons_False.
Qed.

Lemma Forall_not_elem (c : byte) s : c ∉ s ↔ Forall (λ b, b ≠ c) s.
Proof. rewrite Forall_forall. naive_solver. Qed.

(** The printed form "host:port" of a colon-free host is cut where it was joined. *)
Lemma split_address_plain h p :
  colon ∉ h → StartsWith_char h bracket_open = false → h ≠ [] → 1 ≤ p ≤ 65535 →
  split_address (h ++ str ":" ++ print_d p) = Ret (inr (false, h, Some (print_d p))).
Proof.
  intros Hc Hb Hne Hp. destruct (print_port_chars p Hp) as (Ed & _). rewrite Ed.
  pose proof (digits_lack colon p eq_refl Hp) as Hd. unfold split_address.
  assert (StartsWith_char (h ++ str ":" ++ print_u p) bracket_open = false) as ->.
  { by destruct h. }
  assert (count_char (h ++ str ":" ++ print_u p) colon = 1) as ->.
  { rewrite !count_char_app, (count_char_none h), (count_char_none (print_u p))
      by (done || by apply Forall_not_elem). done. }
  rewrite andb_false_r. simpl. rewrite Split_ref by done. mstep.
  change (str ":") with [colon]. simpl app.
  rewrite split_ref_app; [|by eapply Forall_impl; [by apply Forall_not_elem|];
                           intros b; rewrite list_elem_of_singleton|by apply list_elem_of_singleton].
  rewrite split_ref_no_delim; [done|].
  apply (Forall_impl _ _ _ Hd). intros b. by rewrite list_elem_of_singleton.
Qed.

(** The printed form "[host]:port" is cut at its first and last "]:", which is
    the one that was printed when the host contains none. *)
Lemma split_address_bracket h p :
  (∀ j, (j ≤ length h)%nat → starts_with (drop j (str "[" ++ h ++ str "]:")) (str "]:") = false) →
  1 ≤ p ≤ 65535 →
  split_address (str "[" ++ h ++ str "]:" ++ print_d p) = Ret (inr (true, h, Some (print_d p))).
Proof.
  intros Hj Hp. destruct (print_port_chars p Hp) as (Ed & _). rewrite Ed.
  pose proof (digits_lack (Zbyte 93) p eq_refl Hp) as Hd. unfold split_address.
  set (a := str "[" ++ h ++ str "]:" ++ print_u p).
  assert (a = (str "[" ++ h) ++ str "]:" ++ print_u p) as Ea by (unfold a; by rewrite <- app_assoc).
  change (str "]:") with [Zbyte 93; Zbyte 58] in *. change (str "[") with [Zbyte 91] in *.
  assert (starts_with (drop (S (length h)) a) [Zbyte 93; Zbyte 58] = true) as Hat.
  { rewrite Ea, drop_app_length' by done. apply starts_with_app. }
  assert (S (length h) ≤ length a)%nat as Hla by (rewrite Ea, length_app; simpl; lia).
  assert (find_sub a [Zbyte 93; Zbyte 58] 0 = Some (S (length h))) as Hfind.
  { apply find_sub_Some. split_and!; [done|done|]. intros j Hlt.
    specialize (Hj j ltac:(lia)). apply not_true_is_false. intros E%starts_with_two.
    apply not_true_iff_false in Hj. apply Hj, starts_with_two.
    unfold a in E. rewrite !lookup_drop in E |- *.
    rewrite !app_assoc in E.
    rewrite !(lookup_app_l (([Zbyte 91] ++ h) ++ [Zbyte 93; Zbyte 58])) in E
      by (rewrite !length_app; simpl; lia).
    by rewrite !app_assoc. }
  assert (rfind_sub a [Zbyte 93; Zbyte 58] = Some (S (length h))) as Hrfind.
  { apply rfind_sub_intro; [done|done|]. intros j [Hlt _]. apply not_true_is_false.
    intros [E _]%starts_with_two. rewrite lookup_drop, Nat.add_0_r, Ea, lookup_app_r in E
      by (simpl; lia).
    destruct (j - length ([Zbyte 91] ++ h))%nat as [|[|k]] eqn:Ek; simpl in Ek; [lia| |].
    - discriminate E.
    - simpl in E. rewrite Forall_lookup in Hd. by apply (Hd _ _ E). }
  change (StartsWith_char a bracket_open) with (bool_decide (Zbyte 91 = bracket_open)).
  rewrite bool_decide_true, Hrfind, Hfind by done. do 3 f_equal; [f_equal|].
  - unfold substr, a. simpl. rewrite Nat.sub_0_r, drop_0. by rewrite take_app_length.
  - unfold a. simpl. f_equal. replace (length h + 2)%nat with (length (h ++ [Zbyte 93; Zbyte 58]))
      by (rewrite length_app; simpl; lia).
    change (h ++ Zbyte 93 :: Zbyte 58 :: print_u p) with (h ++ [Zbyte 93; Zbyte 58] ++ print_u p).
    rewrite app_assoc. apply drop_app_length.
Qed.

Lemma split_ref_head ds s p ps :
  split_ref ds s = p :: ps → Forall (λ b, b ∉ ds) p ∧ ∃ r, s = p ++ r.
Proof.
  revert p ps. induction s as [|b s IH]; intros p ps; simpl.
  - intros [= <- <-]. split; [constructor|]. by exists [].
  - case_bool_decide as Hb; [intros [= <- <-]; split; [constructor|by exists (b :: s)]|].
    destruct (split_ref_cons ds s) as (q & qs & E). rewrite E. intros [= <- <-].
    destruct (IH _ _ E) as [Hq [r ->]]. split; [by constructor|]. by exists r.
Qed.

(** What the host of an address looks like, by the branch that found it. *)
Lemma split_address_host a ipv6 h ps :
  split_address a = Ret (inr (ipv6, h, ps)) → h ≠ [] →
  (StartsWith_char a bracket_open = true ∨ Zbyte 93 ∉ a) →
  (∀ b, b ∈ h → b ∈ a) ∧
  if (ipv6 : bool) then
    ∀ j, (j ≤ length h)%nat → starts_with (drop j (str "[" ++ h ++ str "]:")) (str "]:") = false
  else colon ∉ h ∧ StartsWith_char h bracket_open = false.
Proof.
  unfold split_address. intros Hs Hne Hor. destruct (StartsWith_char a bracket_open) eqn:Eb.
  - destruct (rfind_sub _ _) as [r|]; [|done]. destruct (find_sub a (str "]:") 0) as [f|] eqn:Ef; [|done].
    injection Hs as <- <- _. apply find_sub_Some in Ef as (Hl & Hat & Hbef).
    change (str "]:") with [Zbyte 93; Zbyte 58] in *. change (str "[") with [Zbyte 91].
    destruct a as [|x a]; [done|]. apply bool_decide_eq_true in Eb as ->.
    destruct f as [|f]; [discriminate Hat|]. unfold substr in *. simpl in Hl, Hat |- *.
    rewrite Nat.sub_0_r, drop_0 in *.
    split; [intros b Hb; apply elem_of_cons; right; by eapply elem_of_take in Hb as (? & ? & _); apply list_elem_of_lookup; eauto|].
    intros j Hj. rewrite length_take in Hj. apply not_true_is_false. intros E%starts_with_two.
    specialize (Hbef j ltac:(lia)). apply not_true_iff_false in Hbef. apply Hbef, starts_with_two.
    rewrite !lookup_drop in E |- *.
    pose proof (starts_with_inv _ _ Hat) as Hd. simpl in Hd.
    assert (bracket_open :: a = (Zbyte 91 :: take f a ++ [Zbyte 93; Zbyte 58]) ++ drop 2 (drop f a)) as ->.
    { change bracket_open with (Zbyte 91). simpl. f_equal. rewrite <- app_assoc. simpl.
      rewrite <- Hd. by rewrite take_drop. }
    rewrite !lookup_app_l by (simpl; rewrite length_app, length_take; simpl; lia). done.
  - destruct (_ && _).
    + injection Hs as <- <- _. split; [done|]. destruct Hor as [|Hn]; [done|]. intros j Hj.
      apply not_true_is_false. change (str "]:") with [Zbyte 93; Zbyte 58].
      change (str "[") with [Zbyte 91]. intros [E _]%starts_with_two.
      rewrite lookup_drop, Nat.add_0_r, app_assoc, lookup_app_l in E by (simpl; lia).
      apply list_elem_of_lookup_2 in E. apply elem_of_app in E as [E|E]; [|done].
      apply list_elem_of_singleton in E. discriminate E.
    + destruct (_ <=? 1); [|by injection Hs as <- <- <-].
      rewrite Split_ref in Hs by done. destruct (split_ref_cons (str ":") a) as (q & qs & E).
      rewrite E in Hs. simpl in Hs. injection Hs as <- <- _.
      destruct (split_ref_head _ _ _ _ E) as [Hq [r ->]]. split_and!.
      * intros b Hb. apply elem_of_app. auto.
      * intros Hin. rewrite Forall_forall in Hq. apply (Hq colon Hin). by apply list_elem_of_singleton.
      * by destruct q.
Qed.

Lemma ParseNetAddress_stable a port port' h p c :
  ParseNetAddress a port = Ret (NetOk h p c) → 1 ≤ port ≤ 65535 → NUL ∉ a →
  (StartsWith_char a bracket_open = true ∨ Zbyte 93 ∉ a) →
  ParseNetAddress c port' = Ret (NetOk h p c).
Proof.
  intros (ipv6 & ps & Hs & Hne & -> & Hps)%ParseNetAddress_ok Hport Hnul Hor.
  assert (1 ≤ p ≤ 65535) as Hp by (destruct ps as [q|]; [tauto|lia]).
  destruct (split_address_host _ _ _ _ Hs Hne Hor) as [Hin Hh].
  assert (c_str h = h) as Eh by (apply c_str_id; auto). rewrite Eh.
  destruct (print_port_chars p Hp) as (_ & _ & _ & Hscan).
  destruct ipv6.
  - pose proof (ParseNetAddress_intro _ port' _ _ _ p (split_address_bracket h p Hh Hp)) as E.
    rewrite Eh in E. by apply E.
  - destruct Hh as [Hc Hb].
    pose proof (ParseNetAddress_intro _ port' _ _ _ p (split_address_plain h p Hc Hb Hne Hp)) as E.
    rewrite Eh in E. by apply E.
Qed.

(** Canonical addresses are stable: the canonical form [ParseNetAddress]
    produces parses back to the same host, port and canonical form, whatever
    default port it is parsed with, for every accepted address without NULs or
    stray closing brackets. *)
Theorem ParseNetAddress_canonical a port port' h p c :
  ParseNetAddress a port = Ret (NetOk h p c) → 1 ≤ port ≤ 65535 → NUL ∉ a →
  (StartsWith_char a bracket_open = true ∨ Zbyte 93 ∉ a) →
  ParseNetAddress c port' = Ret (NetOk h p c).
Proof. apply ParseNetAddress_stable. Qed.

Lemma ParseNetAddress_canonical_witness :
  ParseNetAddress (str "[fe80::1]:5037") 1 =
    Ret (NetOk (str "fe80::1") 5037 (str "[fe80::1]:5037")).
Proof.
  apply (ParseNetAddress_canonical (str "[fe80::1]:5037") 5555).
  - reflexivity.
  - lia.
  - vm_compute. intros H. repeat (apply elem_of_cons in H as [H|H]; [discriminate|]). by apply not_elem_of_nil in H.
  - left. reflexivity.
Defined.
