(* ===== verification/Types.v ===== *)
(** * Buffers of packets: [adb/types.h], [adb/types.cpp]

    [Block] is the move-only byte buffer of a packet payload, [IOVector] the
    chain of blocks in which a socket queues the bytes it has still to write.
    The abstraction of a chain is the byte string [IOVector.contents]; the
    theorems say what every operation does to it. *)

From S2P Require Import Prelude.
Local Open Scope Z_scope.

(** ** [struct Block] *)
Module Block.

(** [data_] is the owned array, [capacity_] bytes long; the first [size_] of
    them are the contents. *)
Record t := mk { data_ : option bytes; capacity_ : Z; size_ : Z }.

(** [Block()], and what a block is after it was moved from. *)
Definition default : t := mk None 0 0.

Definition content (b : t) : bytes :=
  match data_ b with Some d => ztake (size_ b) d | None => [] end.

Section fresh_memory.
(** The bytes [new char[n]] happens to contain: the array is not initialised. *)
Context (junk : nat → byte).

Definition new_array (n : Z) : bytes := junk <$> seq 0 (Z.to_nat n).

Definition allocate (b : t) (size : Z) : outcome t :=
  _ ← check (bool_decide (data_ b = None));
  _ ← check (capacity_ b =? 0);
  _ ← check (size_ b =? 0);
  if negb (size =? 0) then Ret (mk (Some (new_array size)) size size) else Ret b.

(** [explicit Block(size_t size)] *)
Definition of_size (size : Z) : outcome t := allocate default size.

(** [std::copy(begin, end, data_.get())] *)
Definition copy_in (b : t) (src : bytes) : outcome t :=
  match data_ b with
  | Some d => d' ← memcpy d 0 src; Ret (mk (Some d') (capacity_ b) (size_ b))
  | None => if zlen src =? 0 then Ret b else UB
  end.

(** [Block(Iterator begin, Iterator end)] *)
Definition of_range (src : bytes) : outcome t :=
  b ← of_size (zlen src); copy_in b src.

Definition clear (b : t) : t := default.

Definition resize (b : t) (new_size : Z) : outcome t :=
  match data_ b with
  | None => allocate b new_size
  | Some d =>
      _ ← check (new_size <=? capacity_ b);
      Ret (mk (Some d) (capacity_ b) new_size)
  end.

Definition assign (b : t) (src : bytes) : outcome t :=
  b' ← allocate (clear b) (zlen src); copy_in b' src.

End fresh_memory.

(** [operator==]: [memcmp] over [size()] bytes. *)
Definition eqb (b1 b2 : t) : bool :=
  (size_ b1 =? size_ b2) && bool_decide (content b1 = content b2).

(** [memmove(data(), data() + from, n)] *)
Definition memmove_front (b : t) (from n : Z) : outcome t :=
  match data_ b with
  | Some d => d' ← memmove_down d from n; Ret (mk (Some d') (capacity_ b) (size_ b))
  | None => if n =? 0 then Ret b else UB
  end.

(** [memcpy(data() + off, src, |src|)] *)
Definition write_at (b : t) (off : Z) (src : bytes) : outcome t :=
  match data_ b with
  | Some d => d' ← memcpy d off src; Ret (mk (Some d') (capacity_ b) (size_ b))
  | None => if zlen src =? 0 then Ret b else UB
  end.

(** The class invariant. *)
Definition wf (b : t) : Prop :=
  match data_ b with
  | None => capacity_ b = 0 ∧ size_ b = 0
  | Some d => zlen d = capacity_ b ∧ 0 < capacity_ b ∧ 0 ≤ size_ b ≤ capacity_ b
  end.

End Block.

(** ** [struct IOVector] *)
Module IOVector.

Record t := mk {
  chain_length_ : Z;   (* total length of the blocks from [start_index_] on *)
  begin_offset_ : Z;   (* bytes of the front block already consumed *)
  start_index_ : nat;  (* first live block of the chain *)
  chain_ : list Block.t
}.

Definition empty_vec : t := mk 0 0 0 [].

Definition set_chain (v : t) (c : list Block.t) : t :=
  mk (chain_length_ v) (begin_offset_ v) (start_index_ v) c.

Definition size (v : t) : Z := u64 (chain_length_ v - begin_offset_ v).
Definition empty (v : t) : bool := size v =? 0.

(** [chain_[start_index_]], undefined past the end of the vector. *)
Definition front_block (v : t) : outcome Block.t := deref (chain_ v !! start_index_ v).

(** The bytes [front_data()] points to, up to the end of its block. *)
Definition front_data (v : t) : outcome (option bytes) :=
  if bool_decide (chain_ v = []) then Ret None
  else b ← front_block v; Ret (Some (zdrop (begin_offset_ v) (Block.content b))).

Definition front_size (v : t) : outcome Z :=
  if bool_decide (chain_ v = []) then Ret 0
  else b ← front_block v; Ret (u64 (Block.size_ b - begin_offset_ v)).

(** Returns the last block for reuse, and the emptied vector. *)
Definition clear (v : t) : Block.t * t :=
  (match last (chain_ v) with Some b => b | None => Block.default end, empty_vec).

(** [append(block_type&&)]: an empty block is ignored. *)
Definition append (v : t) (b : Block.t) : t :=
  if Block.size_ b =? 0 then v
  else mk (u64 (chain_length_ v + Block.size_ b)) (begin_offset_ v) (start_index_ v)
          (chain_ v ++ [b]).

(** [explicit IOVector(block_type&&)] *)
Definition of_block (b : Block.t) : t := append empty_vec b.

(** [operator=(IOVector&&)]: the new value, and what is left of the source. *)
Definition move (v : t) : t * t :=
  (mk (chain_length_ v) (begin_offset_ v) (start_index_ v) (chain_ v), snd (clear (set_chain v []))).

Definition trim_chain_front (v : t) : t :=
  if bool_decide (start_index_ v = 0%nat) then v
  else mk (chain_length_ v) (begin_offset_ v) 0 (drop (start_index_ v) (chain_ v)).

Definition pop_front_block (v : t) : outcome t :=
  b ← front_block v;
  let v' := mk (u64 (chain_length_ v - Block.size_ b)) 0 (S (start_index_ v))
               (<[start_index_ v := Block.clear b]> (chain_ v)) in
  Ret (if bool_decide (Nat.max 4 (length (chain_ v') / 2) < start_index_ v')%nat
       then trim_chain_front v' else v').

(** The loop of [drop_front]; [dropped] is an [unsigned int]. *)
Fixpoint drop_loop (fuel : nat) (v : t) (len dropped : Z) : outcome t :=
  if dropped <? len then
    match fuel with
    | O => OutOfFuel
    | S fuel =>
        b ← front_block v;
        let next := u64 (Block.size_ b - begin_offset_ v) in
        if u64 (dropped + next) <=? len then
          v' ← pop_front_block v;
          drop_loop fuel v' len (u32 (dropped + next))
        else
          let taken := u64 (len - dropped) in
          Ret (mk (chain_length_ v) (u64 (begin_offset_ v + taken)) (start_index_ v) (chain_ v))
    end
  else Ret v.

Definition drop_front (v : t) (len : Z) : outcome t :=
  if len =? 0 then Ret v
  else if len =? size v then Ret (snd (clear v))
  else
    _ ← check (len <? size v);
    drop_loop (S (length (chain_ v))) v len 0.

(** The loop of [take_front] over the blocks that go away as a whole. *)
Fixpoint take_loop (fuel : nat) (res v : t) (len : Z) : outcome (t * t * Z) :=
  match fuel with
  | O => OutOfFuel
  | S fuel =>
      b ← front_block v;
      if u64 (Block.size_ b - begin_offset_ v) <=? len then
        let cl := u64 (chain_length_ v - Block.size_ b) in
        let len' := u64 (len - u64 (Block.size_ b - begin_offset_ v)) in
        if begin_offset_ v <? Block.size_ b then
          let r := append res b in
          let res' := if negb (begin_offset_ v =? 0)
                      then mk (chain_length_ r) (begin_offset_ v) (start_index_ r) (chain_ r)
                      else r in
          take_loop fuel res'
            (mk cl 0 (S (start_index_ v)) (<[start_index_ v := Block.default]> (chain_ v))) len'
        else take_loop fuel res (mk cl 0 (S (start_index_ v)) (chain_ v)) len'
      else Ret (res, v, len)
  end.

Section fresh_memory.
Context (junk : nat → byte).

(** The split of the block that [take_front] has to divide. *)
Definition take_split (res v : t) (len : Z) : outcome (t * t) :=
  b ← front_block v;
  let i := start_index_ v in
  if negb (begin_offset_ v =? 0) || (len <? Block.size_ b / 2) then
    block ← Block.of_range junk (ztake len (zdrop (begin_offset_ v) (Block.content b)));
    Ret (append res block,
         mk (chain_length_ v) (u64 (begin_offset_ v + len)) i (chain_ v))
  else
    _ ← check (begin_offset_ v =? 0);
    block ← Block.of_range junk (zdrop len (Block.content b));
    b' ← Block.resize junk b len;
    Ret (append res b',
         mk (u64 (u64 (chain_length_ v - Block.size_ b) + Block.size_ block))
            (begin_offset_ v) i (<[i := block]> (chain_ v))).

(** [take_front]: the bytes taken, and what stays in [*this]. *)
Definition take_front (v : t) (len : Z) : outcome (t * t) :=
  if len =? 0 then Ret (empty_vec, v)
  else if len =? size v then Ret (move v)
  else
    _ ← check (len <=? size v);
    '(res, v', len') ← take_loop (S (length (chain_ v))) empty_vec v len;
    if 0 <? len' then take_split res v' len' else Ret (res, v').

Definition trim_front (v : t) : outcome t :=
  if ((begin_offset_ v =? 0) && bool_decide (start_index_ v = 0%nat))
     || bool_decide (chain_ v = []) then Ret v
  else
    first_block ← front_block v;
    if begin_offset_ v =? Block.size_ first_block then
      Ret (trim_chain_front
             (mk (u64 (chain_length_ v - begin_offset_ v)) 0 (S (start_index_ v)) (chain_ v)))
    else
      let n := u64 (Block.size_ first_block - begin_offset_ v) in
      b1 ← Block.memmove_front first_block (begin_offset_ v) n;
      b2 ← Block.resize junk b1 n;
      Ret (trim_chain_front
             (mk (u64 (chain_length_ v - begin_offset_ v)) 0 (start_index_ v)
                 (<[start_index_ v := b2]> (chain_ v)))).

(** [iterate_blocks]: the segments the callback is called with, in order. *)
Definition iterate_blocks (v : t) : outcome (list bytes) :=
  if size v =? 0 then Ret []
  else
    match drop (start_index_ v) (chain_ v) with
    | [] => Ret []
    | b :: rest =>
        _ ← check (begin_offset_ v <=? Block.size_ b);
        Ret (zdrop (begin_offset_ v) (Block.content b) :: (Block.content <$> rest))
    end.

(** [iovecs()]: the segments, as [writev] will see them. *)
Definition iovecs (v : t) : outcome (list bytes) := iterate_blocks v.

(** The copies of [coalesce() const&]. *)
Fixpoint copy_all (res : Block.t) (off : Z) (segs : list bytes) : outcome Block.t :=
  match segs with
  | [] => Ret res
  | s :: rest => r ← Block.write_at res off s; copy_all r (off + zlen s) rest
  end.

Definition coalesce (v : t) : outcome Block.t :=
  if size v =? 0 then Ret Block.default
  else
    r ← Block.resize junk Block.default (size v);
    segs ← iterate_blocks v;
    copy_all r 0 segs.

(** [coalesced(f)]: the bytes [f] is applied to. *)
Definition coalesced (v : t) : outcome bytes :=
  if bool_decide (length (chain_ v) = S (start_index_ v)) then
    b ← front_block v;
    Ret (ztake (size v) (zdrop (begin_offset_ v) (Block.content b)))
  else b ← coalesce v; Ret (Block.content b).

(** [coalesce() &&]: the block, and the state the vector is left in. *)
Definition coalesce_rvalue (v : t) : outcome (Block.t * t) :=
  if size v =? 0 then Ret (Block.default, v)
  else
    first ← front_block v;
    back ← deref (last (chain_ v));
    let n := length (chain_ v) in
    let popped := take (n - 1) (chain_ v) in
    let cl := u64 (chain_length_ v - Block.size_ back) in
    if (begin_offset_ v =? Block.size_ first) && bool_decide (n = S (S (start_index_ v))) then
      Ret (back, mk cl (begin_offset_ v) (start_index_ v) popped)
    else if bool_decide (n = S (start_index_ v)) then
      if negb (begin_offset_ v =? 0) then
        let m := u64 (Block.size_ back - begin_offset_ v) in
        r1 ← Block.memmove_front back (begin_offset_ v) m;
        r2 ← Block.resize junk r1 m;
        Ret (r2, mk cl 0 (start_index_ v) popped)
      else Ret (back, mk cl (begin_offset_ v) (start_index_ v) popped)
    else if size v <=? Block.capacity_ first then
      let sz := Block.size_ first in
      let cl := u64 (chain_length_ v - sz) in
      let m := u64 (sz - begin_offset_ v) in
      r1 ← (if negb (begin_offset_ v =? 0)
            then Block.memmove_front first (begin_offset_ v) m else Ret first);
      let segs := Block.content <$> drop (S (start_index_ v)) (chain_ v) in
      r2 ← copy_all r1 m segs;
      r3 ← Block.resize junk r2 (u64 (m + zlen (concat segs)));
      Ret (r3, mk cl 0 (S (start_index_ v))
                 (<[start_index_ v := Block.default]> (chain_ v)))
    else
      b ← coalesce v; Ret (b, v).

End fresh_memory.

(** The bytes held by the chain. *)
Definition contents (v : t) : bytes :=
  zdrop (begin_offset_ v) (concat (Block.content <$> drop (start_index_ v) (chain_ v))).

Definition total (bs : list Block.t) : Z := zlen (concat (Block.content <$> bs)).

(** The representation invariant: the live blocks are nonempty, the front
    offset lies inside the front block, and the cached length is the sum of the
    block sizes, which a [size_t] can hold. *)
Definition live_ok (off : Z) (live : list Block.t) : Prop :=
  match live with
  | [] => off = 0
  | b :: _ => 0 ≤ off < Block.size_ b
  end.

Record wf (v : t) : Prop := {
  wf_blocks : Forall (λ b, Block.wf b ∧ 0 < Block.size_ b) (drop (start_index_ v) (chain_ v));
  wf_front : live_ok (begin_offset_ v) (drop (start_index_ v) (chain_ v));
  wf_length : chain_length_ v = total (drop (start_index_ v) (chain_ v));
  wf_fits : chain_length_ v < 2 ^ 63;
  wf_index : chain_ v = [] ∨ (start_index_ v < length (chain_ v))%nat;
  wf_start : chain_ v = [] → start_index_ v = 0%nat
}.

End IOVector.
