(* ===== verification/TypesFacts.v ===== *)
(** * Correctness of [Block] and [IOVector]

    Representation lemmas first, then the functional theorems: each operation
    of [IOVector] acts on [IOVector.contents] as the obvious operation on byte
    strings, keeps [IOVector.wf], and neither aborts nor reads out of bounds. *)

From S2P Require Import Prelude Types.
Local Open Scope Z_scope.

Section blocks.
Context (junk : nat → byte).

Lemma zlen_new_array n : 0 ≤ n → zlen (Block.new_array junk n) = n.
Proof. intros. unfold Block.new_array. rewrite length_fmap, length_seq. lia. Qed.

Lemma block_content_len b : Block.wf b → zlen (Block.content b) = Block.size_ b.
Proof.
  unfold Block.wf, Block.content. destruct (Block.data_ b); simpl; [|lia].
  intros. rewrite zlen_ztake; lia.
Qed.

Lemma block_of_range src :
  ∃ b, Block.of_range junk src = Ret b ∧ Block.wf b ∧
       Block.content b = src ∧ Block.size_ b = zlen src.
Proof.
  unfold Block.of_range, Block.of_size, Block.allocate, Block.default, Block.copy_in. simpl.
  destruct (Z.eqb_spec (zlen src) 0) as [E|E]; simpl.
  - rewrite E. simpl. eexists; split; [done|]. unfold Block.wf, Block.content. simpl.
    destruct src; simpl in *; [done|lia].
  - rewrite memcpy_fit by (rewrite ?zlen_new_array; lia). simpl.
    rewrite zdrop_all, app_nil_r by (rewrite zlen_new_array; lia).
    eexists; split; [done|]. unfold Block.wf, Block.content. simpl.
    rewrite ztake_all by lia. repeat split; lia.
Qed.

Lemma block_shrink b n :
  Block.wf b → 0 < n ≤ Block.size_ b →
  ∃ b', Block.resize junk b n = Ret b' ∧ Block.wf b' ∧
        Block.content b' = ztake n (Block.content b) ∧ Block.size_ b' = n.
Proof.
  unfold Block.wf, Block.resize. destruct (Block.data_ b) as [d|] eqn:E; [|lia].
  intros (? & ? & ?) ?. zbool. simpl. eexists; split; [done|]. simpl.
  unfold Block.content. simpl. rewrite E, ztake_ztake by lia. repeat split; lia.
Qed.

(** [memmove] to the front followed by the matching [resize]. *)
Lemma block_move_down b from n :
  Block.wf b → 0 ≤ from → 0 < n → from + n = Block.size_ b →
  ∃ b1 b2, Block.memmove_front b from n = Ret b1 ∧ Block.resize junk b1 n = Ret b2 ∧
    Block.wf b1 ∧ Block.capacity_ b1 = Block.capacity_ b ∧ is_Some (Block.data_ b1) ∧
    ztake n (default [] (Block.data_ b1)) = zdrop from (Block.content b) ∧
    Block.wf b2 ∧ Block.content b2 = zdrop from (Block.content b) ∧ Block.size_ b2 = n.
Proof.
  unfold Block.wf, Block.memmove_front. destruct (Block.data_ b) as [d|] eqn:E; [|lia].
  intros (Hl & Hc & Hs) ???. rewrite memmove_down_fit by lia. simpl.
  unfold Block.resize.
  assert (zlen (ztake n (zdrop from d) ++ zdrop n d) = Block.capacity_ b) as Hl'.
  { rewrite length_app, Nat2Z.inj_add, zlen_ztake, zlen_zdrop by (rewrite ?zlen_zdrop; lia). lia. }
  assert (ztake n (ztake n (zdrop from d) ++ zdrop n d) = zdrop from (Block.content b)) as Hn.
  { rewrite ztake_app_le by (rewrite zlen_ztake; [lia|rewrite zlen_zdrop; lia]).
    rewrite ztake_all by (rewrite zlen_ztake; [lia|rewrite zlen_zdrop; lia]).
    unfold Block.content. rewrite E, ztake_zdrop_swap by lia. do 2 f_equal. lia. }
  do 2 eexists. split; [done|]. simpl. zbool. simpl. split; [done|]. simpl.
  unfold Block.content at 2. simpl. rewrite Hn. split_and!; eauto; lia.
Qed.

End blocks.

Module IOV.
Import IOVector.

Abbreviation live v := (drop (start_index_ v) (chain_ v)).

Lemma total_cons b bs :
  total (b :: bs) = zlen (Block.content b) + total bs.
Proof. unfold total. rewrite fmap_cons, concat_cons, length_app. lia. Qed.

Lemma total_app l1 l2 : total (l1 ++ l2) = total l1 + total l2.
Proof. unfold total. rewrite fmap_app, concat_app, length_app. lia. Qed.

Lemma total_nonneg bs : 0 ≤ total bs.
Proof. unfold total. lia. Qed.

(** The fields of a well-formed vector, in the shape the proofs use. *)
Lemma wf_bounds v :
  wf v → 0 ≤ begin_offset_ v ∧ begin_offset_ v ≤ chain_length_ v < 2 ^ 63.
Proof.
  intros [Hb Hf Hl Hm _ _]. split_and!; [..|done].
  - destruct (live v); simpl in Hf; lia.
  - rewrite Hl. destruct (live v) as [|b bs]; simpl in Hf.
    + pose proof (total_nonneg []). lia.
    + apply Forall_cons in Hb as [[Hw _] _]. rewrite total_cons, block_content_len by done.
      pose proof (total_nonneg bs). lia.
Qed.

Lemma zlen_contents v : wf v → zlen (contents v) = chain_length_ v - begin_offset_ v.
Proof.
  intros H. pose proof (wf_bounds v H). destruct H as [_ _ Hl _ _ _].
  unfold contents. rewrite zlen_zdrop; unfold total in *; lia.
Qed.

Lemma size_contents v : wf v → size v = zlen (contents v).
Proof.
  intros H. pose proof (wf_bounds v H). unfold size. rewrite zlen_contents, u64_small by (done || lia).
  done.
Qed.

Lemma front_of_live v b bs : live v = b :: bs → front_block v = Ret b ∧ live v = b :: drop (S (start_index_ v)) (chain_ v).
Proof.
  intros H. unfold front_block.
  destruct (chain_ v !! start_index_ v) as [b'|] eqn:E.
  - pose proof (drop_S _ _ _ E) as E'. rewrite E' in H. injection H as -> _. by rewrite E'.
  - apply lookup_ge_None in E. rewrite drop_ge in H by lia. done.
Qed.

Lemma contents_nil v : live v = [] → contents v = [].
Proof. intros E. unfold contents. rewrite E. simpl. apply drop_nil. Qed.

Lemma live_length v : (length (live v) = length (chain_ v) - start_index_ v)%nat.
Proof. by rewrite length_drop. Qed.

(** Consuming the front block: what is left is again a front-aligned vector. *)
Lemma contents_split v b bs :
  wf v → live v = b :: bs →
  contents v = zdrop (begin_offset_ v) (Block.content b) ++ concat (Block.content <$> bs) ∧
  zlen (zdrop (begin_offset_ v) (Block.content b)) = Block.size_ b - begin_offset_ v.
Proof.
  intros [Hb Hf _ _ _ _] E. unfold contents. rewrite E in *. simpl in *.
  apply Forall_cons in Hb as [[Hw _] _]. pose proof (block_content_len b Hw).
  rewrite zdrop_app_le, zlen_zdrop by lia. split; [done|lia].
Qed.

(** A vector whose live blocks are given by [bs], from the start of the first. *)
Lemma wf_aligned cl i c bs :
  drop i c = bs → bs ≠ [] → Forall (λ b, Block.wf b ∧ 0 < Block.size_ b) bs →
  cl = total bs → cl < 2 ^ 63 →
  wf (mk cl 0 i c) ∧ contents (mk cl 0 i c) = concat (Block.content <$> bs).
Proof.
  intros E Hne Hb Hl Hm.
  assert (i < length c)%nat.
  { destruct (decide (i < length c)%nat); [done|]. rewrite drop_ge in E by lia. by subst. }
  split; [split; simpl; rewrite ?E; auto|unfold contents; simpl; by rewrite E, zdrop_0].
  - destruct bs; [done|]. apply Forall_cons in Hb. simpl. lia.
  - intros ->. simpl in *. lia.
Qed.

Lemma contents_empty : wf empty_vec ∧ contents empty_vec = [].
Proof. split; [split; simpl; auto; done|done]. Qed.

Lemma append_spec v b :
  wf v → Block.wf b → chain_length_ v + Block.size_ b < 2 ^ 63 →
  wf (append v b) ∧ contents (append v b) = contents v ++ Block.content b ∧
  chain_length_ (append v b) = chain_length_ v + Block.size_ b.
Proof.
  intros H Hw Hm. pose proof (wf_bounds v H) as Hbd. unfold append.
  pose proof (block_content_len b Hw) as Hlen.
  assert (0 ≤ Block.size_ b) as Hnn by (rewrite <- Hlen; lia).
  destruct (Z.eqb_spec (Block.size_ b) 0) as [E|E].
  { split_and!; [done| |lia]. destruct (Block.content b); simpl in *; [by rewrite app_nil_r|lia]. }
  rewrite u64_small by lia.
  destruct H as [Hb Hf Hl _ Hi Hs].
  assert (drop (start_index_ v) (chain_ v ++ [b]) = live v ++ [b]) as Hd.
  { destruct Hi as [Hi|Hi]; [rewrite (Hs Hi), Hi; done|]. rewrite drop_app_le by lia. done. }
  split_and!; [| |done].
  - split; simpl; rewrite ?Hd, ?total_app, ?total_cons; auto.
    + apply Forall_app. split; [done|]. repeat constructor; auto; lia.
    + destruct (live v) eqn:EL; simpl in *; lia.
    + unfold total at 2. simpl. lia.
    + right. rewrite length_app. simpl. destruct Hi as [Hi|Hi]; [rewrite (Hs Hi)|]; lia.
    + intros [_ ?]%app_nil. done.
  - unfold contents. simpl. rewrite Hd, fmap_app, concat_app. simpl. rewrite app_nil_r.
    apply zdrop_app_le. fold (total (live v)). lia.
Qed.

Lemma pop_front_spec v b b2 bs :
  wf v → live v = b :: b2 :: bs →
  ∃ v', pop_front_block v = Ret v' ∧ wf v' ∧
        contents v' = concat (Block.content <$> (b2 :: bs)) ∧
        live v' = b2 :: bs ∧ begin_offset_ v' = 0 ∧ chain_length_ v' ≤ chain_length_ v.
Proof.
  intros H E. pose proof (front_of_live v _ _ E) as [Hf Hd].
  unfold pop_front_block. rewrite Hf. simpl.
  destruct H as [Hb _ Hl Hm _ _]. rewrite E in Hb, Hl, Hd. injection Hd as Hd.
  apply Forall_cons in Hb as [[Hw _] Hb]. rewrite total_cons, block_content_len in Hl by done.
  pose proof (total_nonneg (b2 :: bs)).
  assert (0 ≤ Block.size_ b) by (rewrite <- block_content_len by done; lia).
  rewrite u64_small by lia. replace (chain_length_ v - Block.size_ b) with (total (b2 :: bs)) by lia.
  set (c := <[_ := _]> _).
  assert (drop (S (start_index_ v)) c = b2 :: bs) as Hc.
  { unfold c. rewrite drop_insert_lt by lia. done. }
  case_bool_decide; unfold trim_chain_front; simpl.
  - destruct (wf_aligned (total (b2 :: bs)) 0 (b2 :: bs) (b2 :: bs)) as [W C]; auto; try done; [lia|].
    rewrite Hc. eexists; split; [done|]. split_and!; auto. simpl. lia.
  - destruct (wf_aligned (total (b2 :: bs)) (S (start_index_ v)) c (b2 :: bs)) as [W C]; auto; try done; [lia|].
    eexists; split; [done|]. split_and!; auto. simpl. lia.
Qed.

Lemma drop_loop_spec fuel : ∀ v len dropped,
  wf v → 0 ≤ dropped ≤ len → len - dropped < zlen (contents v) → len < 2 ^ 32 →
  (length (live v) < fuel)%nat →
  ∃ v', drop_loop fuel v len dropped = Ret v' ∧ wf v' ∧
        contents v' = zdrop (len - dropped) (contents v) ∧ chain_length_ v' ≤ chain_length_ v.
Proof.
  induction fuel as [|fuel IH]; intros v len dropped H Hd Hlt Hm Hfu; [lia|].
  simpl. destruct (Z.ltb_spec dropped len) as [Hl|Hl].
  2: { exists v. replace (len - dropped) with 0 by lia. rewrite zdrop_0. split_and!; try done; lia. }
  pose proof (wf_bounds v H) as Hbd.
  destruct (live v) as [|b bs] eqn:E.
  { rewrite contents_nil in Hlt by done. simpl in Hlt. lia. }
  destruct (front_of_live v _ _ E) as [Hf _]. rewrite Hf. simpl.
  destruct (contents_split v _ _ H E) as [Hc Hsz].
  assert (Block.size_ b ≤ chain_length_ v) as Hle.
  { destruct H as [Hb _ HL _ _ _]. rewrite E, total_cons in HL. rewrite E in Hb.
    apply Forall_cons in Hb as [[Hw _] _]. rewrite block_content_len in HL by done.
    pose proof (total_nonneg bs). lia. }
  rewrite (u64_small (Block.size_ b - _)), u64_small by lia.
  destruct (Z.leb_spec (dropped + (Block.size_ b - begin_offset_ v)) len) as [Hn|Hn].
  - destruct bs as [|b2 bs].
    { rewrite Hc in Hlt. simpl in Hlt. rewrite app_nil_r in Hlt. lia. }
    destruct (pop_front_spec v _ _ _ H E) as (v' & -> & Hw' & Hc' & HL' & _ & Hle'). simpl.
    rewrite u32_small by lia.
    destruct (IH v' len (dropped + (Block.size_ b - begin_offset_ v))) as (v'' & -> & ? & Hc'' & Hle'');
      rewrite ?HL'; simpl in *; auto; try lia.
    { rewrite Hc, length_app, Nat2Z.inj_add in Hlt. rewrite Hc'. simpl. lia. }
    eexists; split; [done|]. split; [done|]. split; [|lia].
    rewrite Hc'', Hc', Hc. rewrite (zdrop_app_ge (len - dropped)) by lia. f_equal. lia.
  - rewrite (u64_small (len - dropped)), u64_small by lia. eexists; split; [done|].
    destruct H as [Hb Hfr HL HM Hi Hs]. split; [split; simpl; auto|split; [|simpl; lia]].
    + rewrite E in Hfr |- *. simpl in *. lia.
    + unfold contents. simpl. rewrite zdrop_zdrop by lia. done.
Qed.

Lemma move_spec v : wf v → wf (fst (move v)) ∧ contents (fst (move v)) = contents v ∧
  snd (move v) = empty_vec.
Proof. by destruct v. Qed.

Lemma take_loop_spec fuel : ∀ res v len,
  wf res → wf v → (res = empty_vec ∨ begin_offset_ v = 0) →
  0 ≤ len < zlen (contents v) → chain_length_ res + chain_length_ v < 2 ^ 63 →
  (length (live v) < fuel)%nat →
  ∃ res' v' len' b bs, take_loop fuel res v len = Ret (res', v', len') ∧
    wf res' ∧ wf v' ∧ live v' = b :: bs ∧ 0 ≤ len' < Block.size_ b - begin_offset_ v' ∧
    chain_length_ res' + chain_length_ v' < 2 ^ 63 ∧
    contents res' ++ ztake len' (contents v') = contents res ++ ztake len (contents v) ∧
    zdrop len' (contents v') = zdrop len (contents v) ∧ chain_length_ v' ≤ chain_length_ v.
Proof.
  induction fuel as [|fuel IH]; intros res v len Hr H Hor Hlen Hm Hfu; [lia|].
  simpl. pose proof (wf_bounds v H) as Hbd. pose proof (wf_bounds res Hr) as Hbr.
  pose proof (zlen_contents v H) as Hzl.
  destruct (live v) as [|b bs] eqn:E.
  { rewrite contents_nil in Hlen by done. simpl in Hlen. lia. }
  destruct (front_of_live v _ _ E) as [Hf Hd]. rewrite Hf. simpl.
  rewrite E in Hd. injection Hd as Hd.
  destruct (contents_split v _ _ H E) as [Hc Hsz].
  pose proof H as [Hb Hfr HL HM Hi Hs]. rewrite E in Hb, Hfr, HL. simpl in Hfr.
  apply Forall_cons in Hb as [[Hw Hpos] Hb].
  rewrite total_cons, block_content_len in HL by done. pose proof (total_nonneg bs).
  rewrite !(u64_small (Block.size_ b - begin_offset_ v)) by lia.
  destruct (Z.leb_spec (Block.size_ b - begin_offset_ v) len) as [Hn|Hn].
  2: { exists res, v, len, b, bs. split_and!; auto; lia. }
  rewrite (u64_small (chain_length_ v - _)), (u64_small (len - _)) by lia. zbool.
  assert (bs ≠ []) as Hne.
  { intros ->. rewrite Hc in Hlen. simpl in Hlen. rewrite app_nil_r in Hlen. lia. }
  destruct (wf_aligned (chain_length_ v - Block.size_ b) (S (start_index_ v))
              (<[start_index_ v := Block.default]> (chain_ v)) bs) as [Wv Cv]; auto; try lia.
  { rewrite drop_insert_lt by lia. done. }
  destruct (append_spec res b) as (Wa & Ca & La); auto; [lia|].
  set (res' := if negb (begin_offset_ v =? 0) then _ else _).
  assert (wf res' ∧ contents res' = contents res ++ zdrop (begin_offset_ v) (Block.content b) ∧
          chain_length_ res' = chain_length_ res + Block.size_ b) as (Wr & Cr & Lr).
  { unfold res'. destruct (Z.eqb_spec (begin_offset_ v) 0) as [E0|E0]; simpl.
    { rewrite E0, zdrop_0. auto. }
    destruct Hor as [->|?]; [|lia]. unfold append in *. simpl in *.
    destruct (Z.eqb_spec (Block.size_ b) 0); [lia|]. simpl in *.
    rewrite u64_small in * by lia. split_and!; [|by unfold contents; simpl; rewrite app_nil_r|lia].
    destruct Wa as [? ? ? ? ? ?]. split; simpl in *; auto. }
  destruct (IH res' (mk (chain_length_ v - Block.size_ b) 0 (S (start_index_ v))
              (<[start_index_ v := Block.default]> (chain_ v)))
              (len - (Block.size_ b - begin_offset_ v)))
    as (r & v' & l' & b' & bs' & -> & ? & ? & ? & ? & ? & Heq1 & Heq2 & Hcl);
    auto; simpl; rewrite ?drop_insert_lt, ?Hd by lia; simpl in *; try lia.
  { rewrite Cv. rewrite Hc, length_app in Hlen. lia. }
  { rewrite <- Hd. lia. }
  exists r, v', l', b', bs'. split_and!; auto; try lia.
  - rewrite Heq1, Cr, Cv, Hc, ztake_app_ge by lia. rewrite <- app_assoc. do 3 f_equal. lia.
  - rewrite Heq2, Cv, Hc, zdrop_app_ge by lia. f_equal. lia.
Qed.

Lemma take_split_spec junk res v b bs len :
  wf res → wf v → live v = b :: bs → 0 < len < Block.size_ b - begin_offset_ v →
  chain_length_ res + chain_length_ v < 2 ^ 63 →
  ∃ r v', take_split junk res v len = Ret (r, v') ∧ wf r ∧ wf v' ∧
    contents r = contents res ++ ztake len (contents v) ∧
    contents v' = zdrop len (contents v) ∧ chain_length_ v' ≤ chain_length_ v.
Proof.
  intros Hr H E Hlen Hm. pose proof (wf_bounds v H) as Hbd. pose proof (wf_bounds res Hr) as Hbr.
  unfold take_split. destruct (front_of_live v _ _ E) as [-> Hd]. simpl.
  rewrite E in Hd. injection Hd as Hd.
  destruct (contents_split v _ _ H E) as [Hc Hsz].
  pose proof H as [Hb Hfr HL HM Hi Hs]. rewrite E in Hb, Hfr, HL. simpl in Hfr.
  apply Forall_cons in Hb as [[Hw Hpos] Hb].
  rewrite total_cons, block_content_len in HL by done. pose proof (total_nonneg bs).
  pose proof (block_content_len b Hw) as Hlb.
  destruct (negb _ || _) eqn:Etest.
  - destruct (block_of_range junk (ztake len (zdrop (begin_offset_ v) (Block.content b))))
      as (blk & -> & Wb & Cb & Sb). simpl. rewrite zlen_ztake in Sb by lia.
    destruct (append_spec res blk) as (Wa & Ca & La); auto; [lia|].
    rewrite u64_small by lia. do 2 eexists. split_and!; [done|done|split; simpl; auto|..].
    + rewrite E. auto.
    + rewrite E. simpl. lia.
    + rewrite E, total_cons, block_content_len by done. lia.
    + rewrite Ca, Cb, Hc, ztake_app_le by lia. done.
    + unfold contents. simpl. by rewrite zdrop_zdrop by lia.
    + simpl. lia.
  - apply orb_false_iff in Etest as [E0 _]. apply negb_false_iff in E0. rewrite E0. simpl.
    apply Z.eqb_eq in E0. rewrite E0 in *. rewrite zdrop_0 in *.
    destruct (block_of_range junk (zdrop len (Block.content b))) as (blk & -> & Wb & Cb & Sb). simpl.
    rewrite zlen_zdrop in Sb by lia.
    destruct (block_shrink junk b len Hw) as (b' & -> & Wb' & Cb' & Sb'); [lia|]. simpl.
    destruct (append_spec res b') as (Wa & Ca & La); auto; [lia|].
    rewrite (u64_small (chain_length_ v - _)), u64_small by lia.
    destruct (wf_aligned (chain_length_ v - Block.size_ b + Block.size_ blk) (start_index_ v)
                (<[start_index_ v := blk]> (chain_ v)) (blk :: bs)) as [Wv Cv]; auto; try lia.
    + rewrite drop_insert_ge, Nat.sub_diag, E by lia. done.
    + apply Forall_cons. split; [split; [done|lia]|done].
    + rewrite total_cons, Cb, zlen_zdrop by lia. lia.
    + do 2 eexists. split_and!; [done|done|done|..].
      * rewrite Ca, Cb', Hc, ztake_app_le by lia. done.
      * rewrite Cv, Hc, zdrop_app_le, fmap_cons, concat_cons, Cb by lia. done.
      * simpl. lia.
Qed.

Lemma iterate_spec v :
  wf v → ∃ segs, iterate_blocks v = Ret segs ∧ concat segs = contents v ∧
                 Forall (λ s, s ≠ []) segs.
Proof.
  intros H. unfold iterate_blocks. rewrite size_contents by done.
  destruct (Z.eqb_spec (zlen (contents v)) 0) as [E|E].
  { exists []. destruct (contents v); simpl in *; [done|lia]. }
  destruct (live v) as [|b bs] eqn:EL; [by rewrite contents_nil in E|].
  destruct (contents_split v _ _ H EL) as [-> Hz].
  destruct H as [Hb Hf _ _ _ _]. rewrite EL in Hb, Hf. simpl in Hf.
  apply Forall_cons in Hb as [_ Hb]. zbool. simpl. eexists; split; [done|]. split; [done|].
  apply Forall_cons. split; [intros E0; rewrite E0 in Hz; simpl in Hz; lia|].
  apply Forall_fmap, (Forall_impl _ _ _ Hb). intros x [Hw Hp] E0.
  apply block_content_len in Hw. rewrite E0 in Hw. simpl in Hw. lia.
Qed.

(** Consecutive copies into one array lay the segments out in order. *)
Lemma copy_all_spec segs : ∀ d cap sz off,
  0 ≤ off → off + zlen (concat segs) ≤ zlen d →
  copy_all (Block.mk (Some d) cap sz) off segs =
    Ret (Block.mk (Some (ztake off d ++ concat segs ++ zdrop (off + zlen (concat segs)) d)) cap sz).
Proof.
  induction segs as [|s segs IH]; intros d cap sz off Ho Hl; simpl.
  { do 3 f_equal. rewrite Z.add_0_r. by rewrite ztake_zdrop. }
  simpl in Hl. rewrite length_app in Hl. unfold Block.write_at. simpl.
  rewrite memcpy_fit by lia. simpl.
  assert (zlen (ztake off d ++ s ++ zdrop (off + zlen s) d) = zlen d) as Hd.
  { rewrite !length_app, !Nat2Z.inj_add, zlen_ztake, zlen_zdrop by lia. lia. }
  rewrite IH by lia. do 3 f_equal.
  replace (ztake off d ++ s ++ zdrop (off + zlen s) d)
    with ((ztake off d ++ s) ++ zdrop (off + zlen s) d) by by rewrite <- app_assoc.
  assert (zlen (ztake off d ++ s) = off + zlen s) as Hp.
  { rewrite length_app, Nat2Z.inj_add, zlen_ztake by lia. lia. }
  rewrite ztake_app_le by lia. rewrite ztake_all by lia.
  rewrite zdrop_app_ge by lia. rewrite Hp, zdrop_zdrop by lia.
  rewrite <- !app_assoc, !length_app. do 4 f_equal. lia.
Qed.

Lemma coalesce_spec junk v :
  wf v → ∃ b, coalesce junk v = Ret b ∧ Block.wf b ∧ Block.content b = contents v.
Proof.
  intros H. unfold coalesce. pose proof (zlen_contents v H) as Hzl. pose proof (wf_bounds v H).
  destruct (iterate_spec v H) as (segs & Hi & Hc & _). rewrite Hi, size_contents by done.
  destruct (Z.eqb_spec (zlen (contents v)) 0) as [E|E].
  { eexists; split; [done|]. destruct (contents v); simpl in *; [done|lia]. }
  unfold Block.resize, Block.allocate. simpl. zbool. simpl.
  rewrite copy_all_spec by (rewrite ?Hc, ?zlen_new_array; lia).
  rewrite Hc. eexists; split; [done|]. rewrite (zdrop_all (0 + _)) by (rewrite zlen_new_array; lia).
  rewrite app_nil_r. unfold Block.wf, Block.content. simpl. rewrite ztake_all by lia.
  split_and!; auto; lia.
Qed.

End IOV.

(** ** The theorems *)

Lemma empty_contents v : IOVector.wf v → IOVector.empty v = bool_decide (IOVector.contents v = []).
Proof.
  intros H. unfold IOVector.empty. rewrite IOV.size_contents by done.
  destruct (IOVector.contents v); [done|]. rewrite bool_decide_false by done.
  apply Z.eqb_neq. cbn [length]. lia.
Qed.

Lemma take_front_spec junk v len :
  IOVector.wf v → 0 ≤ len →
  if len <=? zlen (IOVector.contents v) then
    ∃ res v', IOVector.take_front junk v len = Ret (res, v') ∧
      IOVector.wf res ∧ IOVector.wf v' ∧
      IOVector.contents res = ztake len (IOVector.contents v) ∧
      IOVector.contents v' = zdrop len (IOVector.contents v) ∧
      IOVector.chain_length_ v' ≤ IOVector.chain_length_ v
  else IOVector.take_front junk v len = Abort.
Proof.
  intros H Hlen. unfold IOVector.take_front. rewrite IOV.size_contents by done.
  destruct IOV.contents_empty as [We Ce].
  destruct (Z.leb_spec len (zlen (IOVector.contents v))) as [Hle|Hgt].
  2: { zbool. done. }
  destruct (Z.eqb_spec len 0) as [->|Hne].
  { do 2 eexists. split_and!; [done|done|done|done| |lia]. by rewrite zdrop_0. }
  destruct (Z.eqb_spec len (zlen (IOVector.contents v))) as [->|Hne2].
  { destruct (IOV.move_spec v H) as (? & ? & ?). destruct (IOVector.move v) as [r w]. simpl in *.
    subst w. do 2 eexists. split_and!; [done|done|done|..].
    - by rewrite ztake_all.
    - by rewrite Ce, zdrop_all.
    - pose proof (IOV.wf_bounds v H). simpl. lia. }
  zbool. mstep.
  destruct (IOV.take_loop_spec (S (length (IOVector.chain_ v))) IOVector.empty_vec v len)
    as (r & v' & l' & b & bs & -> & Wr & Wv & EL & Hl' & Hs & E1 & E2 & Hcl); auto; try lia.
  { destruct H; simpl; lia. }
  { rewrite IOV.live_length. lia. }
  mstep. rewrite Ce in E1. simpl in E1.
  destruct (Z.ltb_spec 0 l') as [Hp|Hp].
  - destruct (IOV.take_split_spec junk r v' b bs l') as (r' & v'' & -> & ? & ? & C1 & C2 & ?); auto; [lia|].
    do 2 eexists. split_and!; [done|done|done|congruence..|lia].
  - replace l' with 0 in * by lia. rewrite ztake_0, app_nil_r in E1. rewrite zdrop_0 in E2.
    do 2 eexists. split_and!; [done|done|done|congruence..|lia].
Qed.

(** [IOVector::take_front] splits the queue: on a well-formed vector and
    any [len] up to its size it returns two well-formed vectors, the first [len]
    bytes and the rest, without aborting or leaving the buffers; for a larger
    [len] its [CHECK_GE] ends the process. *)
Theorem take_front_correct junk v len :
  IOVector.wf v → 0 ≤ len →
  if len <=? zlen (IOVector.contents v) then
    ∃ res v', IOVector.take_front junk v len = Ret (res, v') ∧
      IOVector.wf res ∧ IOVector.wf v' ∧
      IOVector.contents res = ztake len (IOVector.contents v) ∧
      IOVector.contents v' = zdrop len (IOVector.contents v)
  else IOVector.take_front junk v len = Abort.
Proof.
  intros H H0. pose proof (take_front_spec junk v len H H0) as Hs. destruct (len <=? _); [|done].
  destruct Hs as (res & v' & ? & ? & ? & ? & ? & _). eauto 7.
Qed.

Lemma drop_front_spec v len :
  IOVector.wf v → 0 ≤ len ≤ zlen (IOVector.contents v) → len < 2 ^ 32 →
  ∃ v', IOVector.drop_front v len = Ret v' ∧ IOVector.wf v' ∧
        IOVector.contents v' = zdrop len (IOVector.contents v) ∧
        IOVector.chain_length_ v' ≤ IOVector.chain_length_ v.
Proof.
  intros H Hlen Hm. unfold IOVector.drop_front. rewrite IOV.size_contents by done.
  destruct (Z.eqb_spec len 0) as [->|Hne].
  { eexists; split; [done|]. rewrite zdrop_0. split_and!; [done..|lia]. }
  destruct (Z.eqb_spec len (zlen (IOVector.contents v))) as [->|Hne2].
  { destruct IOV.contents_empty as [We Ce]. eexists; split; [done|]. split; [done|].
    rewrite zdrop_all by lia. split; [done|]. pose proof (IOV.wf_bounds v H). simpl. lia. }
  zbool. mstep.
  destruct (IOV.drop_loop_spec (S (length (IOVector.chain_ v))) v len 0) as (v' & E & W & C & ?);
    auto; try lia.
  { rewrite IOV.live_length. lia. }
  rewrite Z.sub_0_r in C. eauto.
Qed.

(** [IOVector::drop_front] removes exactly the first [len] bytes of a
    well-formed vector whenever [len] fits the 32-bit counter of its loop. *)
Theorem drop_front_correct v len :
  IOVector.wf v → 0 ≤ len ≤ zlen (IOVector.contents v) → len < 2 ^ 32 →
  ∃ v', IOVector.drop_front v len = Ret v' ∧ IOVector.wf v' ∧
        IOVector.contents v' = zdrop len (IOVector.contents v).
Proof.
  intros H H0 H1. destruct (drop_front_spec v len H H0 H1) as (v' & ? & ? & ? & _). eauto.
Qed.

(** The loop counter of [IOVector::drop_front] is an [unsigned int]: on a
    well-formed vector of more than 4 GiB, dropping its first 2^32 bytes wraps the
    counter to zero, the loop pops every block and then reads past the chain. *)
Theorem drop_front_wraps d1 d2 :
  zlen d1 = 2 ^ 32 → zlen d2 = 2 →
  let v := IOVector.mk (2 ^ 32 + 2) 0 0
             [Block.mk (Some d1) (2 ^ 32) (2 ^ 32); Block.mk (Some d2) 2 2] in
  IOVector.wf v ∧ 2 ^ 32 < IOVector.size v ∧ IOVector.drop_front v (2 ^ 32) = UB.
Proof.
  intros H1 H2 v. split_and!; [|vm_compute; reflexivity..].
  assert (Block.content (Block.mk (Some d1) (2 ^ 32) (2 ^ 32)) = d1) as E1.
  { unfold Block.content. simpl. apply ztake_all. lia. }
  assert (Block.content (Block.mk (Some d2) 2 2) = d2) as E2.
  { unfold Block.content. simpl. apply ztake_all. lia. }
  split; subst v; cbn [IOVector.chain_ IOVector.start_index_ IOVector.chain_length_ drop].
  - repeat constructor; cbn [Block.data_ Block.size_ Block.capacity_]; lia.
  - split; cbn [IOVector.begin_offset_ Block.size_]; lia.
  - rewrite !IOV.total_cons, E1, E2, H1, H2. unfold IOVector.total. simpl. lia.
  - lia.
  - right. simpl. lia.
  - discriminate.
Qed.

(** [IOVector::iovecs] hands [writev] exactly the queued bytes, in order
    and in nonempty pieces. *)
Theorem iovecs_correct v :
  IOVector.wf v →
  ∃ segs, IOVector.iovecs v = Ret segs ∧ concat segs = IOVector.contents v ∧
          Forall (λ s, s ≠ []) segs.
Proof. apply IOV.iterate_spec. Qed.

Lemma coalesced_spec junk v :
  IOVector.wf v → IOVector.coalesced junk v = Ret (IOVector.contents v).
Proof.
  intros H. unfold IOVector.coalesced. case_bool_decide as E.
  - destruct (IOV.live v) as [|b bs] eqn:EL.
    { pose proof (IOV.live_length v) as EN. rewrite EL in EN. simpl in EN. lia. }
    destruct (IOV.front_of_live v _ _ EL) as [-> Hd].
    assert (bs = []) as ->.
    { rewrite EL in Hd. injection Hd as Hd. rewrite drop_ge in Hd by lia. done. }
    destruct (IOV.contents_split v _ _ H EL) as [Hc _]. mstep.
    rewrite IOV.size_contents by done. rewrite Hc. simpl. rewrite app_nil_r.
    by rewrite ztake_all by lia.
  - destruct (IOV.coalesce_spec junk v H) as (b & -> & _ & Hc). mstep. by rewrite Hc.
Qed.

(** The copying [coalesce() const&] and the callback form [coalesced]
    agree: both present the whole queue as one contiguous byte string. *)
Theorem coalesce_correct junk v :
  IOVector.wf v →
  (∃ b, IOVector.coalesce junk v = Ret b ∧ Block.wf b ∧
        Block.content b = IOVector.contents v) ∧
  IOVector.coalesced junk v = Ret (IOVector.contents v).
Proof. intros H. split; [by apply IOV.coalesce_spec|by apply coalesced_spec]. Qed.

(** [trim_front] on a vector whose front block is partly consumed. *)
Lemma trim_front_spec junk v :
  IOVector.wf v →
  ∃ v', IOVector.trim_front junk v = Ret v' ∧ IOVector.wf v' ∧
        IOVector.contents v' = IOVector.contents v ∧
        IOVector.begin_offset_ v' = 0 ∧ IOVector.start_index_ v' = 0%nat.
Proof.
  intros H. unfold IOVector.trim_front.
  destruct (_ || _) eqn:T.
  { exists v. split_and!; auto; destruct H as [_ Hf _ _ _ Hs];
      apply orb_true_iff in T as [T|T]; try apply andb_true_iff in T as [T1 T2].
    - lia.
    - apply bool_decide_eq_true in T. rewrite T, drop_nil in Hf. done.
    - by apply bool_decide_eq_true in T2.
    - apply bool_decide_eq_true in T. auto. }
  apply orb_false_iff in T as [_ T]. apply bool_decide_eq_false in T.
  destruct (IOV.live v) as [|b bs] eqn:EL.
  { destruct H as [_ _ _ _ [?|Hi] _]; [done|].
    pose proof (IOV.live_length v) as EN. rewrite EL in EN. simpl in EN. lia. }
  destruct (IOV.front_of_live v _ _ EL) as [-> Hd]. mstep.
  destruct (IOV.contents_split v _ _ H EL) as [Hc Hsz].
  pose proof (IOV.wf_bounds v H) as Hbd.
  destruct H as [Hb Hf HL HM Hi Hs]. rewrite EL in *. simpl in Hf. injection Hd as Hd.
  apply Forall_cons in Hb as [[Hw Hpos] Hb]. zbool.
  rewrite IOV.total_cons, block_content_len in HL by done. pose proof (IOV.total_nonneg bs).
  rewrite !(u64_small (Block.size_ b - _)), u64_small by lia.
  destruct (block_move_down junk b (IOVector.begin_offset_ v) (Block.size_ b - IOVector.begin_offset_ v))
    as (b1 & b2 & -> & E2 & _ & _ & _ & _ & W2 & C2 & S2); auto; try lia.
  mstep. rewrite E2. mstep.
  assert (drop (IOVector.start_index_ v) (<[IOVector.start_index_ v := b2]> (IOVector.chain_ v)) = b2 :: bs) as Hdr.
  { rewrite drop_insert_ge, Nat.sub_diag, EL by lia. done. }
  assert (Forall (λ b, Block.wf b ∧ 0 < Block.size_ b) (b2 :: bs)) as Hall.
  { apply Forall_cons. split; [split; [done|lia]|done]. }
  assert (IOVector.chain_length_ v - IOVector.begin_offset_ v = IOVector.total (b2 :: bs)) as Ht.
  { rewrite IOV.total_cons, block_content_len by done. lia. }
  assert (IOVector.contents v = concat (Block.content <$> (b2 :: bs))) as Hcc.
  { rewrite Hc, fmap_cons, concat_cons, C2. done. }
  unfold IOVector.trim_chain_front. cbn [IOVector.start_index_ IOVector.chain_].
  case_bool_decide as Hst.
  - destruct (IOV.wf_aligned (IOVector.chain_length_ v - IOVector.begin_offset_ v) (IOVector.start_index_ v) (<[IOVector.start_index_ v := b2]> (IOVector.chain_ v)) (b2 :: bs)) as [W C]; auto; try done; [lia|].
    eexists; split; [done|]. split_and!; auto; congruence.
  - rewrite Hdr.
    destruct (IOV.wf_aligned (IOVector.chain_length_ v - IOVector.begin_offset_ v) 0 (b2 :: bs) (b2 :: bs)) as [W C]; auto; try done; [lia|].
    eexists; split; [done|]. split_and!; auto; congruence.
Qed.

(** Appending segments behind the first [m] bytes of a large enough block. *)
Lemma fill_block junk r m segs :
  Block.wf r → 0 < m → m + zlen (concat segs) ≤ Block.capacity_ r → m + zlen (concat segs) < 2 ^ 64 →
  ∃ r2 r3, IOVector.copy_all r m segs = Ret r2 ∧
    Block.resize junk r2 (u64 (m + zlen (concat segs))) = Ret r3 ∧ Block.wf r3 ∧
    Block.content r3 = ztake m (default [] (Block.data_ r)) ++ concat segs.
Proof.
  destruct r as [[d|] cap sz]; unfold Block.wf; simpl; [|lia].
  intros (Hd & Hc & Hs) Hm Hfit Hcap. rewrite IOV.copy_all_spec by lia.
  do 2 eexists. split; [done|]. unfold Block.resize. simpl. rewrite u64_small by lia. zbool.
  mstep. split; [done|]. unfold Block.content. simpl.
  assert (zlen (ztake m d ++ concat segs ++ zdrop (m + zlen (concat segs)) d) = cap) as Hl.
  { rewrite !length_app, !Nat2Z.inj_add, zlen_ztake, zlen_zdrop by lia. lia. }
  split_and!; [lia..|].
  rewrite app_assoc, ztake_app_le by (rewrite length_app, Nat2Z.inj_add, zlen_ztake; lia).
  apply ztake_all. rewrite length_app, Nat2Z.inj_add, zlen_ztake; lia.
Qed.

Lemma coalesce_rvalue_spec junk v :
  IOVector.wf v →
  ∃ b v', IOVector.coalesce_rvalue junk v = Ret (b, v') ∧ Block.wf b ∧
          Block.content b = IOVector.contents v.
Proof.
  intros H. unfold IOVector.coalesce_rvalue. rewrite IOV.size_contents by done.
  destruct (Z.eqb_spec (zlen (IOVector.contents v)) 0) as [E|E].
  { do 2 eexists; split; [done|]. destruct (IOVector.contents v); simpl in *; [done|lia]. }
  destruct (IOV.live v) as [|b bs] eqn:EL; [by rewrite IOV.contents_nil in E|].
  destruct (IOV.front_of_live v _ _ EL) as [Hfb Hd]. rewrite Hfb. mstep.
  rewrite EL in Hd. injection Hd as Hd.
  destruct (IOV.contents_split v _ _ H EL) as [Hc Hsz].
  pose proof (IOV.zlen_contents v H) as Hzl. pose proof (IOV.wf_bounds v H) as Hbd.
  pose proof H as [Hb Hf HL HM Hi Hs]. rewrite EL in Hb, Hf, HL. simpl in Hf.
  apply Forall_cons in Hb as [[Hw Hpos] Hb].
  assert (last (IOVector.chain_ v) = last (b :: bs)) as Hlast.
  { rewrite <- EL, <- (take_drop (IOVector.start_index_ v) (IOVector.chain_ v)) at 1.
    rewrite last_app, EL. by destruct (last (b :: bs)) eqn:El; [|apply last_None in El]. }
  rewrite Hlast. destruct (last (b :: bs)) as [back|] eqn:El; [|by apply last_None in El]. mstep.
  zbool. mstep. case_bool_decide as En.
  { assert (bs = []) as -> by (rewrite drop_ge in Hd by lia; done). injection El as <-.
    simpl in Hc. rewrite app_nil_r in Hc.
    destruct (Z.eqb_spec (IOVector.begin_offset_ v) 0) as [E0|E0]; mstep.
    - do 2 eexists; split; [done|]. rewrite Hc, E0, zdrop_0. done.
    - rewrite (u64_small (Block.size_ b - _)) by (rewrite IOV.total_cons, block_content_len in HL by done;
                            pose proof (IOV.total_nonneg []); lia).
      destruct (block_move_down junk b (IOVector.begin_offset_ v) (Block.size_ b - IOVector.begin_offset_ v))
        as (b1 & b2 & -> & E2 & _ & _ & _ & _ & W2 & C2 & S2); auto; try lia.
      mstep. rewrite E2. mstep. do 2 eexists; split; [done|]. by rewrite Hc, C2. }
  rewrite IOV.total_cons, block_content_len in HL by done. pose proof (IOV.total_nonneg bs).
  destruct (Z.leb_spec (zlen (IOVector.contents v)) (Block.capacity_ b)) as [Hcp|Hcp]; mstep.
  2: { destruct (IOV.coalesce_spec junk v H) as (r & -> & Wr & Cr). mstep. eauto. }
  rewrite <- Hd. rewrite (u64_small (Block.size_ b - _)) by lia.
  set (m := Block.size_ b - IOVector.begin_offset_ v).
  assert (∃ r1, (if negb (IOVector.begin_offset_ v =? 0)
                 then Block.memmove_front b (IOVector.begin_offset_ v) m else Ret b) = Ret r1 ∧
                Block.wf r1 ∧ Block.capacity_ r1 = Block.capacity_ b ∧
                ztake m (default [] (Block.data_ r1)) = zdrop (IOVector.begin_offset_ v) (Block.content b))
    as (r1 & -> & W1 & C1 & D1).
  { destruct (Z.eqb_spec (IOVector.begin_offset_ v) 0) as [E0|E0]; mstep.
    - eexists; split; [done|]. split_and!; auto. unfold m. rewrite E0, zdrop_0, Z.sub_0_r.
      unfold Block.wf, Block.content in *. destruct (Block.data_ b); [done|lia].
    - destruct (block_move_down junk b (IOVector.begin_offset_ v) m)
        as (b1 & b2 & E1 & _ & W1 & Cp & _ & D1 & _); auto; unfold m in *; try lia.
      eauto 6. }
  mstep.
  destruct (fill_block junk r1 m (Block.content <$> bs)) as (r2 & r3 & -> & E3 & W3 & C3);
    auto; rewrite ?C1; try lia; rewrite Hc, length_app, Nat2Z.inj_add in Hcp, Hzl; try lia.
  mstep. rewrite E3. mstep. do 2 eexists; split; [done|]. split; [done|].
  by rewrite C3, D1, Hc.
Qed.

(** C40: The destructive [coalesce() &&], with its three allocation-saving
    special cases, returns the same bytes as the plain copy: the whole queue. *)
Theorem coalesce_rvalue_correct junk v :
  IOVector.wf v →
  ∃ b v', IOVector.coalesce_rvalue junk v = Ret (b, v') ∧ Block.wf b ∧
          Block.content b = IOVector.contents v.
Proof. apply coalesce_rvalue_spec. Qed.

(** What [coalesce() &&] leaves behind: when the last live block sits
    behind already consumed ones, the moved-from vector has size 0, yet its
    [start_index_] points past the chain, so [front_size()] and [trim_front()]
    on it read out of bounds. *)
Theorem coalesce_rvalue_dangling junk v b :
  IOVector.wf v → IOV.live v = [b] → (0 < IOVector.start_index_ v)%nat →
  ∃ r v', IOVector.coalesce_rvalue junk v = Ret (r, v') ∧ IOVector.size v' = 0 ∧
          IOVector.front_size v' = UB ∧ IOVector.trim_front junk v' = UB.
Proof.
  intros H EL Hst.
  assert (length (IOVector.chain_ v) = S (IOVector.start_index_ v)) as Hn.
  { pose proof (IOV.live_length v) as E. rewrite EL in E. simpl in E. lia. }
  destruct (IOV.front_of_live v _ _ EL) as [Hfb _].
  destruct (IOV.contents_split v _ _ H EL) as [Hc Hsz].
  pose proof (IOV.zlen_contents v H) as Hzl. pose proof (IOV.wf_bounds v H) as Hbd.
  pose proof H as [Hb Hf HL _ _ _]. rewrite EL in Hb, Hf, HL. simpl in Hf.
  apply Forall_cons in Hb as [[Hw Hpos] _].
  rewrite IOV.total_cons, block_content_len in HL by done. unfold IOVector.total in HL. simpl in HL.
  assert (last (IOVector.chain_ v) = Some b) as Hlast.
  { rewrite <- (take_drop (IOVector.start_index_ v) (IOVector.chain_ v)), EL. apply last_snoc. }
  set (dangling := λ off, IOVector.mk 0 off (IOVector.start_index_ v)
                            (take (IOVector.start_index_ v) (IOVector.chain_ v))).
  assert (∃ r, IOVector.coalesce_rvalue junk v = Ret (r, dangling 0)) as (r & ->).
  { unfold IOVector.coalesce_rvalue, dangling. rewrite IOV.size_contents, Hfb, Hlast by done. mstep.
    zbool. mstep. rewrite bool_decide_true by done. rewrite Hn, Nat.sub_succ, Nat.sub_0_r.
    replace (IOVector.chain_length_ v - Block.size_ b) with 0 by lia.
    destruct (Z.eqb_spec (IOVector.begin_offset_ v) 0) as [->|E0]; mstep; [eauto|].
    rewrite (u64_small (Block.size_ b - _)) by lia.
    destruct (block_move_down junk b (IOVector.begin_offset_ v) (Block.size_ b - IOVector.begin_offset_ v))
      as (b1 & b2 & -> & E2 & _); auto; try lia.
    mstep. rewrite E2. mstep. eauto. }
  assert (take (IOVector.start_index_ v) (IOVector.chain_ v) ≠ []) as Hne.
  { intros E%(f_equal length). rewrite length_take in E. simpl in E. lia. }
  assert (take (IOVector.start_index_ v) (IOVector.chain_ v) !! IOVector.start_index_ v = None) as Hnone.
  { apply lookup_ge_None. rewrite length_take. lia. }
  do 2 eexists. split_and!; [done|done|..].
  - unfold IOVector.front_size, IOVector.front_block, dangling. simpl.
    by rewrite bool_decide_false, Hnone by done.
  - unfold IOVector.trim_front, IOVector.front_block, dangling. simpl.
    rewrite !bool_decide_false, Hnone by (done || lia). done.
Qed.

(** ** Concrete vectors for the theorems above *)

Definition hello : Block.t := Block.mk (Some (str "hello")) 5 5.
Definition world : Block.t := Block.mk (Some (str "world!..")) 8 6.

(** A queue with one consumed block behind it, three bytes into its front. *)
Definition sample : IOVector.t :=
  IOVector.mk 11 3 1 [Block.default; hello; world].

(** One live block behind a consumed one. *)
Definition sample_tail : IOVector.t := IOVector.mk 6 0 1 [Block.default; world].

Lemma sample_wf : IOVector.wf sample.
Proof.
  split.
  - repeat constructor; vm_compute; congruence.
  - split; vm_compute; congruence.
  - reflexivity.
  - reflexivity.
  - right. simpl. lia.
  - discriminate.
Qed.

Lemma sample_tail_wf : IOVector.wf sample_tail.
Proof.
  split.
  - repeat constructor; vm_compute; congruence.
  - split; vm_compute; congruence.
  - reflexivity.
  - reflexivity.
  - right. simpl. lia.
  - discriminate.
Qed.

Example sample_contents : IOVector.contents sample = str "loworld!".
Proof. reflexivity. Qed.

Lemma take_front_correct_witness :
  ∃ res v', IOVector.take_front (λ _, Byte.x00) sample 3 = Ret (res, v') ∧
    IOVector.contents res = str "low" ∧ IOVector.contents v' = str "orld!".
Proof.
  destruct (take_front_correct (λ _, Byte.x00) sample 3 sample_wf ltac:(lia))
    as (res & v' & E & _ & _ & C1 & C2).
  exists res, v'. split; [exact E|]. split; [exact C1|exact C2].
Defined.

Lemma drop_front_correct_witness :
  ∃ v', IOVector.drop_front sample 4 = Ret v' ∧ IOVector.contents v' = str "rld!".
Proof.
  destruct (drop_front_correct sample 4 sample_wf) as (v' & E & _ & C).
  - vm_compute. split; congruence.
  - lia.
  - exists v'. split; [exact E|exact C].
Defined.

Lemma drop_front_wraps_witness :
  let d1 := repeat Byte.x00 (Z.to_nat (2 ^ 32)) in
  let v := IOVector.mk (2 ^ 32 + 2) 0 0
             [Block.mk (Some d1) (2 ^ 32) (2 ^ 32); Block.mk (Some (str "ab")) 2 2] in
  IOVector.wf v ∧ 2 ^ 32 < IOVector.size v ∧ IOVector.drop_front v (2 ^ 32) = UB.
Proof.
  apply drop_front_wraps.
  - rewrite repeat_length. apply Z2Nat.id. lia.
  - reflexivity.
Defined.

Lemma iovecs_correct_witness :
  ∃ segs, IOVector.iovecs sample = Ret segs ∧ concat segs = str "loworld!".
Proof.
  destruct (iovecs_correct sample sample_wf) as (segs & E & C & _).
  exists segs. split; [exact E|exact C].
Defined.

Lemma coalesce_correct_witness :
  IOVector.coalesced (λ _, Byte.x00) sample = Ret (str "loworld!").
Proof. apply (coalesce_correct (λ _, Byte.x00) sample sample_wf). Defined.

Lemma coalesce_rvalue_correct_witness :
  ∃ b v', IOVector.coalesce_rvalue (λ _, Byte.x00) sample = Ret (b, v') ∧
          Block.content b = str "loworld!".
Proof.
  destruct (coalesce_rvalue_correct (λ _, Byte.x00) sample sample_wf) as (b & v' & E & _ & C).
  exists b, v'. split; [exact E|exact C].
Defined.

Lemma coalesce_rvalue_dangling_witness :
  ∃ r v', IOVector.coalesce_rvalue (λ _, Byte.x00) sample_tail = Ret (r, v') ∧
          IOVector.size v' = 0 ∧ IOVector.front_size v' = UB ∧
          IOVector.trim_front (λ _, Byte.x00) v' = UB.
Proof.
  apply (coalesce_rvalue_dangling (λ _, Byte.x00) sample_tail world sample_tail_wf).
  - reflexivity.
  - simpl. lia.
Defined.
