(* ===== verification/AdbIO.v ===== *)
(** * Blocking descriptor I/O: [adb/adb_io.cpp], [adb/shell_service_protocol.cpp]

    A descriptor that is read is a script of what successive [adb_read] calls
    find; one that is written is the bytes it has accepted together with a
    script of how much of each [adb_write] the kernel takes.  The scripts are
    arbitrary, so the theorems hold for every fragmentation and every error. *)

From S2P Require Import Prelude CString.
Local Open Scope Z_scope.

(** ** [adb/adb.h]: sizes *)
Definition MAX_PAYLOAD_V1 : Z := 4 * 1024.
Definition MAX_PAYLOAD : Z := 1024 * 1024.

(** ** Descriptors *)

Inductive errno := EAGAIN | EPIPE | EOther.

(** [read(2)] and [write(2)] transfer at most this many bytes per call. *)
Definition MAX_RW_COUNT : Z := 2147479552.

Inductive arrival :=
| Data (bs : bytes)     (* bytes that can be read at once *)
| Fault (e : errno).    (* the call fails *)

(** A descriptor to read from: the empty script is the end of file. *)
Abbreviation instream := (list arrival).

Inductive read_result := ReadBytes (bs : bytes) | ReadError (e : errno).

(** [adb_read(fd, p, len)] *)
Definition adb_read (fd : instream) (len : Z) : read_result * instream :=
  match fd with
  | [] => (ReadBytes [], [])
  | Fault e :: fd' => (ReadError e, fd')
  | Data bs :: fd' =>
      let n := Z.min len MAX_RW_COUNT in
      (ReadBytes (ztake n bs),
       if n <? zlen bs then Data (zdrop n bs) :: fd' else fd')
  end.

Inductive acceptance :=
| Accept (n : Z)            (* takes up to [n] bytes *)
| Reject (e : errno).

(** A descriptor to write to; when the script is used up every write succeeds
    in full. *)
Record outstream := Out { o_written : bytes; o_script : list acceptance }.

Inductive write_result := Wrote (n : Z) | WriteError (e : errno).

(** [adb_write(fd, p, len)] *)
Definition adb_write (fd : outstream) (p : bytes) : write_result * outstream :=
  let accept n rest :=
    let n := Z.max 0 (Z.min n (Z.min (zlen p) MAX_RW_COUNT)) in
    (Wrote n, Out (o_written fd ++ ztake n p) rest) in
  match o_script fd with
  | [] => accept (zlen p) []
  | Accept n :: rest => accept n rest
  | Reject e :: rest => (WriteError e, Out (o_written fd) rest)
  end.

(** ** [adb_io.cpp] *)

(** The loop of [ReadFdExactly]: [got] is what has been stored at [buf]. *)
Fixpoint read_loop (fuel : nat) (fd : instream) (got : bytes) (len : Z)
  : outcome (bool * bytes * instream) :=
  if 0 <? len then
    match fuel with
    | O => OutOfFuel
    | S fuel =>
        match adb_read fd len with
        | (ReadBytes bs, fd') =>
            let r := zlen bs in
            if 0 <? r then read_loop fuel fd' (got ++ bs) (u64 (len - r))
            else Ret (false, got, fd')
        | (ReadError _, fd') => Ret (false, got, fd')
        end
    end
  else Ret (true, got, fd).

(** The result, the bytes stored at [buf], and the descriptor afterwards. *)
Definition ReadFdExactly (fd : instream) (len : Z) : outcome (bool * bytes * instream) :=
  read_loop (Z.to_nat len) fd [] len.

(** The loop of [WriteFdExactly] over what is left at [p]. *)
Fixpoint write_loop (fuel : nat) (fd : outstream) (p : bytes) : outcome (bool * outstream) :=
  if 0 <? zlen p then
    match fuel with
    | O => OutOfFuel
    | S fuel =>
        match adb_write fd p with
        | (Wrote r, fd') => write_loop fuel fd' (zdrop r p)
        | (WriteError EAGAIN, fd') => write_loop fuel fd' p
        | (WriteError EPIPE, fd') => Ret (false, fd')
        | (WriteError EOther, fd') => Ret (false, fd')
        end
    end
  else Ret (true, fd).

(** Every turn uses up a scripted write or transfers at least one byte. *)
Definition WriteFdExactly (fd : outstream) (buf : bytes) : outcome (bool * outstream) :=
  write_loop (length (o_script fd) + length buf) fd buf.

Definition SendProtocolString (fd : outstream) (s : bytes) : outcome (bool * outstream) :=
  let length := u32 (zlen s) in
  if MAX_PAYLOAD - 4 <? length then Ret (false, fd)
  else WriteFdExactly fd (print_0x 4 length ++ s).

Inductive proto_string :=
| ProtoString (s : bytes)
| ProtoNoLength      (* "couldn't read status length" *)
| ProtoNoMessage.    (* "couldn't read status message" *)

(** The largest string the library can hold; [resize] throws beyond it. *)
Definition string_max_size : Z := 2 ^ 63 - 1.

Definition ReadProtocolString (fd : instream) : outcome (proto_string * instream) :=
  '(ok, buf, fd) ← ReadFdExactly fd 4;
  if negb ok then Ret (ProtoNoLength, fd)
  else
    let len := st_val (strtoull (c_str buf) 16) in
    _ ← check (len <=? string_max_size);
    '(ok, s, fd) ← ReadFdExactly fd len;
    Ret (if (ok : bool) then ProtoString s else ProtoNoMessage, fd).

Definition SendOkay (fd : outstream) : outcome (bool * outstream) :=
  WriteFdExactly fd (str "OKAY").

Definition SendFail (fd : outstream) (reason : bytes) : outcome (bool * outstream) :=
  '(ok, fd) ← WriteFdExactly fd (str "FAIL");
  if (ok : bool) then SendProtocolString fd reason else Ret (false, fd).

(** The result, whether the socket was shut down, and the descriptor. *)
Definition ReadOrderlyShutdown (fd : instream) : outcome (bool * bool * instream) :=
  match adb_read fd 16 with
  | (ReadError EAGAIN, _) => Abort
  | (ReadError _, fd') => Ret (false, false, fd')
  | (ReadBytes [], fd') => Ret (true, false, fd')
  | (ReadBytes _, fd') => Ret (false, true, fd')
  end.

(** ** [class ShellProtocol] *)
Module ShellProtocol.

Inductive Id :=
| kIdStdin | kIdStdout | kIdStderr | kIdExit | kIdCloseStdin | kIdWindowSizeChange | kIdInvalid.

Definition Id_byte (i : Id) : byte :=
  Zbyte match i with
        | kIdStdin => 0 | kIdStdout => 1 | kIdStderr => 2 | kIdExit => 3
        | kIdCloseStdin => 4 | kIdWindowSizeChange => 5 | kIdInvalid => 255
        end.

Definition kHeaderSize : Z := 5.

(** [buffer_] up to [buffer_end_]. *)
Record t := mk { buffer_ : bytes; data_length_ : Z; bytes_left_ : Z }.

Definition kBufferSize : Z := MAX_PAYLOAD.

(** The constructor; the array is not initialised apart from its first byte. *)
Definition init (junk : bytes) : outcome t :=
  b ← memcpy junk 0 [Id_byte kIdInvalid]; Ret (mk b 0 0).

Definition data_capacity (p : t) : Z := u64 (zlen (buffer_ p) - kHeaderSize).
Definition id (p : t) : outcome byte := deref (buffer_ p !! 0%nat).
Definition data (p : t) : bytes := ztake (data_length_ p) (zdrop kHeaderSize (buffer_ p)).

(** The part of [Read] that starts a new packet. *)
Definition read_header (p : t) (fd : instream) : outcome (bool * t * instream) :=
  if bytes_left_ p =? 0 then
    '(ok, got, fd) ← ReadFdExactly fd kHeaderSize;
    buf ← memcpy (buffer_ p) 0 got;
    if negb ok then Ret (false, mk buf (data_length_ p) (bytes_left_ p), fd)
    else
      packet_length ← deref (le32_dec (ztake 4 (zdrop 1 buf)));
      Ret (true, mk buf 0 packet_length, fd)
  else Ret (true, p, fd).

(** The rest of [Read]: as much of the packet as fits the buffer. *)
Definition read_data (p : t) (fd : instream) : outcome (bool * t * instream) :=
  let read_length := Z.min (bytes_left_ p) (data_capacity p) in
  '(ok, buf, fd) ←
    (if negb (read_length =? 0) then
       '(ok, got, fd) ← ReadFdExactly fd read_length;
       buf ← memcpy (buffer_ p) kHeaderSize got;
       Ret (ok, buf, fd)
     else Ret (true, buffer_ p, fd));
  if negb ok then Ret (false, mk buf (data_length_ p) (bytes_left_ p), fd)
  else Ret (true, mk buf read_length (u64 (bytes_left_ p - read_length)), fd).

Definition Read (p : t) (fd : instream) : outcome (bool * t * instream) :=
  '(ok, p, fd) ← read_header p fd;
  if negb ok then Ret (false, p, fd) else read_data p fd.

Definition Write (p : t) (fd : outstream) (i : Id) (length : Z) : outcome (bool * t * outstream) :=
  buf ← memcpy (buffer_ p) 0 [Id_byte i];
  buf ← memcpy buf 1 (le32 (u32 length));
  if zlen buf <? kHeaderSize + length then UB
  else
    '(ok, fd) ← WriteFdExactly fd (ztake (kHeaderSize + length) buf);
    Ret (ok, mk buf (data_length_ p) (bytes_left_ p), fd).

(** Storing a payload at [data()]. *)
Definition fill (p : t) (payload : bytes) : outcome t :=
  buf ← memcpy (buffer_ p) kHeaderSize payload;
  Ret (mk buf (data_length_ p) (bytes_left_ p)).

End ShellProtocol.
