(* ===== verification/AdbIOFacts.v ===== *)
(** * Correctness of the blocking I/O layer

    [ReadFdExactly] and [WriteFdExactly] do not depend on how the kernel
    fragments the transfer; on top of that, the length-prefixed strings of the
    smart-socket protocol and the packets of the shell protocol round-trip. *)

From S2P Require Import Prelude CString CStringFacts AdbIO.
Local Open Scope Z_scope.

(** The bytes that can be read before the first failure or end of file. *)
Fixpoint stream_data (fd : instream) : bytes :=
  match fd with
  | Data (b :: bs) :: fd' => (b :: bs) ++ stream_data fd'
  | _ => []
  end.

Lemma adb_read_stream fd len :
  0 < len →
  match adb_read fd len with
  | (ReadBytes [], _) | (ReadError _, _) => stream_data fd = []
  | (ReadBytes (b :: bs), fd') =>
      stream_data fd = (b :: bs) ++ stream_data fd' ∧ zlen (b :: bs) ≤ len
  end.
Proof.
  intros Hl. destruct fd as [|[[|b bs]|e] fd]; cbn -[Z.of_nat]; try done.
  - assert (ztake (Z.min len MAX_RW_COUNT) (@nil byte) = []) as -> by apply take_nil. done.
  - unfold MAX_RW_COUNT. set (n := Z.min len 2147479552). assert (0 < n ≤ len) by lia.
    pose proof (ztake_zdrop n (b :: bs)) as E.
    destruct (ztake n (b :: bs)) as [|c cs] eqn:Et.
    { unfold ztake in Et. destruct (Z.to_nat n) eqn:?; [lia|done]. }
    assert (zlen (c :: cs) ≤ n).
    { rewrite <- Et. unfold ztake. rewrite length_take. lia. }
    change (b :: bs ++ stream_data fd) with ((b :: bs) ++ stream_data fd).
    cbn [length] in *. split; [|lia]. rewrite <- E at 1. rewrite <- app_assoc. simpl. do 2 f_equal.
    destruct (Z.ltb_spec n (Z.of_nat (S (length bs)))).
    + cbn -[Z.of_nat]. destruct (zdrop n (b :: bs)) eqn:Ed; [|done].
      apply (f_equal length) in Ed. unfold zdrop in Ed. rewrite length_drop in Ed. cbn -[Z.of_nat] in *. lia.
    + by rewrite zdrop_all by (cbn [length]; lia).
Qed.

Lemma read_loop_spec fuel : ∀ fd got len,
  0 ≤ len < 2 ^ 64 → len ≤ Z.of_nat fuel →
  ∃ fd', read_loop fuel fd got len =
           Ret (len <=? zlen (stream_data fd), got ++ ztake len (stream_data fd), fd') ∧
         (len ≤ zlen (stream_data fd) → stream_data fd' = zdrop len (stream_data fd)).
Proof.
  induction fuel as [|fuel IH]; intros fd got len Hl Hf.
  { assert (len = 0) as -> by lia. simpl. rewrite ztake_0, app_nil_r. zbool. eexists. split; [done|].
    by rewrite zdrop_0. }
  simpl. destruct (Z.ltb_spec 0 len) as [Hp|]; cycle 1.
  { assert (len = 0) as -> by lia. rewrite ztake_0, app_nil_r. zbool. eexists. split; [done|].
    by rewrite zdrop_0. }
  pose proof (adb_read_stream fd len Hp) as Hr.
  destruct (adb_read fd len) as [[[|b bs]|e] fd1]; cbn -[Z.of_nat].
  - rewrite Hr. simpl. zbool. eexists. split; [|lia]. unfold ztake. by rewrite take_nil, app_nil_r.
  - destruct Hr as [Hd Hle]. zbool.
    destruct (IH fd1 (got ++ b :: bs) (u64 (len - zlen (b :: bs)))) as (fd' & E & Hs).
    { rewrite u64_small by lia. simpl in *; lia. }
    { rewrite u64_small by lia. simpl in *; lia. }
    change (Z.of_nat (S (length bs))) with (zlen (b :: bs)). rewrite E. exists fd'. rewrite Hd.
    rewrite u64_small in * by lia.
    rewrite length_app, ztake_app_ge, <- app_assoc by lia. split.
    + do 3 f_equal. apply eq_true_iff_eq. rewrite !Z.leb_le. lia.
    + intros H. rewrite zdrop_app_ge by lia. apply Hs. lia.
  - rewrite Hr. simpl. zbool. eexists. split; [|lia]. unfold ztake. by rewrite take_nil, app_nil_r.
Qed.

Lemma read_exactly_spec fd len :
  0 ≤ len < 2 ^ 64 →
  ∃ fd', ReadFdExactly fd len =
           Ret (len <=? zlen (stream_data fd), ztake len (stream_data fd), fd') ∧
         (len ≤ zlen (stream_data fd) → stream_data fd' = zdrop len (stream_data fd)).
Proof. intros. unfold ReadFdExactly. apply (read_loop_spec _ fd [] len); lia. Qed.

(** [ReadFdExactly] reads exactly the next [len] bytes whatever the
    fragmentation of the stream, returns false (after storing what there was)
    exactly when the stream ends or fails earlier, and always returns. *)
Theorem ReadFdExactly_correct fd len :
  0 ≤ len < 2 ^ 64 →
  ∃ fd', ReadFdExactly fd len =
           Ret (len <=? zlen (stream_data fd), ztake len (stream_data fd), fd') ∧
         (len ≤ zlen (stream_data fd) → stream_data fd' = zdrop len (stream_data fd)).
Proof. apply read_exactly_spec. Qed.

Lemma ReadFdExactly_correct_witness :
  ∃ fd', ReadFdExactly [Data (str "he"); Data (str "llo, "); Data (str "w")] 6 =
           Ret (true, str "hello,", fd').
Proof.
  destruct (ReadFdExactly_correct [Data (str "he"); Data (str "llo, "); Data (str "w")] 6 ltac:(lia))
    as (fd' & E & _).
  exists fd'. exact E.
Defined.

(** The successful case, for the proofs above it. *)
Lemma read_exactly_ok fd len :
  0 ≤ len < 2 ^ 64 → len ≤ zlen (stream_data fd) →
  ∃ fd', ReadFdExactly fd len = Ret (true, ztake len (stream_data fd), fd') ∧
         stream_data fd' = zdrop len (stream_data fd).
Proof.
  intros. destruct (read_exactly_spec fd len) as (fd' & E & Hs); [lia|].
  exists fd'. rewrite E. zbool. auto.
Qed.

Lemma read_exactly_app fd bs rest :
  zlen bs < 2 ^ 64 → stream_data fd = bs ++ rest →
  ∃ fd', ReadFdExactly fd (zlen bs) = Ret (true, bs, fd') ∧ stream_data fd' = rest.
Proof.
  intros Hl E. destruct (read_exactly_ok fd (zlen bs)) as (fd' & H & Hd).
  - lia.
  - rewrite E, length_app. lia.
  - exists fd'. rewrite H, Hd, E. by rewrite ztake_app_le, ztake_all, zdrop_app_ge, Z.sub_diag, zdrop_0 by lia.
Qed.

Lemma write_loop_spec fuel : ∀ fd p,
  (length (o_script fd) + length p ≤ fuel)%nat →
  ∃ ok fd' sent, write_loop fuel fd p = Ret (ok, fd') ∧
    o_written fd' = o_written fd ++ sent ∧ sent `prefix_of` p ∧ (ok = true → sent = p) ∧
    (ok = false → ∃ e, e ≠ EAGAIN ∧ Reject e ∈ o_script fd).
Proof.
  induction fuel as [|fuel IH]; intros fd p Hf.
  { destruct p; [|simpl in Hf; lia]. exists true, fd, []. simpl. by rewrite app_nil_r. }
  destruct p as [|b p].
  { exists true, fd, []. simpl. by rewrite app_nil_r. }
  cbn [write_loop]. rewrite (proj2 (Z.ltb_lt _ _)) by (simpl; lia).
  assert (∀ n, 0 ≤ n ≤ zlen (b :: p) → ∀ fd1,
    o_written fd1 = o_written fd ++ ztake n (b :: p) →
    (∀ x, x ∈ o_script fd1 → x ∈ o_script fd) →
    (length (o_script fd1) + length (zdrop n (b :: p)) ≤ fuel)%nat →
    ∃ ok fd' sent, write_loop fuel fd1 (zdrop n (b :: p)) = Ret (ok, fd') ∧
      o_written fd' = o_written fd ++ sent ∧ sent `prefix_of` b :: p ∧ (ok = true → sent = b :: p) ∧
      (ok = false → ∃ e, e ≠ EAGAIN ∧ Reject e ∈ o_script fd)) as step.
  { intros n Hn fd1 Hw Hs Hf'. destruct (IH fd1 (zdrop n (b :: p)) Hf') as (ok & fd' & sent & E & Hw' & Hp & Ht & Hx).
    exists ok, fd', (ztake n (b :: p) ++ sent). split_and!; [done|by rewrite Hw', Hw, app_assoc| | |].
    - rewrite <- (ztake_zdrop n (b :: p)) at 2. by apply prefix_app.
    - intros H. by rewrite (Ht H), ztake_zdrop.
    - intros H. destruct (Hx H) as (e & ? & ?). eauto. }
  unfold adb_write. destruct (o_script fd) as [|[n|e] rest] eqn:Es.
  - apply step; [unfold MAX_RW_COUNT; lia|done|done|].
    simpl o_script. unfold zdrop, MAX_RW_COUNT. rewrite length_drop. cbn [length] in *. lia.
  - apply step; [unfold MAX_RW_COUNT; lia|done|by right|].
    simpl o_script. unfold zdrop. rewrite length_drop. cbn [length] in *. lia.
  - destruct e.
    + specialize (step 0 ltac:(lia) (Out (o_written fd) rest)).
      rewrite zdrop_0, ztake_0, app_nil_r in step. apply step; [done|by right|].
      simpl o_script. cbn [length] in *. lia.
    + exists false, (Out (o_written fd) rest), []. simpl. rewrite app_nil_r.
      split_and!; auto using prefix_nil; [done|]. intros _. exists EPIPE. split; [done|]. left.
    + exists false, (Out (o_written fd) rest), []. simpl. rewrite app_nil_r.
      split_and!; auto using prefix_nil; [done|]. intros _. exists EOther. split; [done|]. left.
Qed.

Lemma write_exactly_spec fd buf :
  ∃ ok fd' sent, WriteFdExactly fd buf = Ret (ok, fd') ∧
    o_written fd' = o_written fd ++ sent ∧ sent `prefix_of` buf ∧ (ok = true → sent = buf) ∧
    (ok = false → ∃ e, e ≠ EAGAIN ∧ Reject e ∈ o_script fd).
Proof. apply write_loop_spec. lia. Qed.

(** [WriteFdExactly] always returns; when it succeeds it has written the
    buffer, once and in order, whatever the partial writes; when it fails, some
    write was rejected with an error other than [EAGAIN] and the peer got a
    prefix of the buffer. *)
Theorem WriteFdExactly_correct fd buf :
  ∃ ok fd' sent, WriteFdExactly fd buf = Ret (ok, fd') ∧
    o_written fd' = o_written fd ++ sent ∧ sent `prefix_of` buf ∧ (ok = true → sent = buf) ∧
    (ok = false → ∃ e, e ≠ EAGAIN ∧ Reject e ∈ o_script fd).
Proof. apply write_exactly_spec. Qed.

(** Writing to a descriptor that never fails. *)
Lemma write_exactly_ok fd buf :
  (∀ e, Reject e ∈ o_script fd → e = EAGAIN) →
  ∃ fd', WriteFdExactly fd buf = Ret (true, fd') ∧ o_written fd' = o_written fd ++ buf.
Proof.
  intros Hok. destruct (write_exactly_spec fd buf) as ([|] & fd' & sent & E & Hw & _ & Ht & Hf).
  - exists fd'. by rewrite <- (Ht eq_refl) at 2.
  - destruct (Hf eq_refl) as (e & He & Hin). by destruct He; apply Hok.
Qed.

Lemma write_loop_script fuel : ∀ fd p ok fd',
  write_loop fuel fd p = Ret (ok, fd') → ∀ x, x ∈ o_script fd' → x ∈ o_script fd.
Proof.
  induction fuel as [|fuel IH]; intros fd p ok fd' H x Hx.
  { cbn [write_loop] in H. destruct (0 <? zlen p); [done|]. by injection H as _ <-. }
  cbn [write_loop] in H. destruct (0 <? zlen p); [|by injection H as _ <-].
  unfold adb_write in H. destruct (o_script fd) as [|[n|e] rest] eqn:Es.
  - exact (IH _ _ _ _ H x Hx).
  - right. exact (IH _ _ _ _ H x Hx).
  - right. destruct e; [exact (IH _ _ _ _ H x Hx)|..]; by injection H as _ <-.
Qed.

(** ** Protocol strings *)

Lemma print_0x_val w n :
  0 ≤ n → digits_val 16 (print_0x w n) = n ∧
  Forall (λ b, is_base_digit 16 b = true) (print_0x w n) ∧ print_0x w n ≠ [].
Proof.
  intros Hn. destruct (print_base_spec 16 n) as (Hv & Hf & Hne); [lia..|].
  unfold print_0x, print_x. rewrite digits_val_zeros by lia. split_and!; [done| |].
  - apply Forall_app; split; [|done]. apply Forall_forall. intros b [-> _]%elem_of_replicate. done.
  - by intros [_ ?]%app_eq_nil.
Qed.

Lemma length_print_0x w n :
  (0 < w)%nat → 0 ≤ n < 16 ^ Z.of_nat w → length (print_0x w n) = w.
Proof.
  intros Hw Hn. unfold print_0x. rewrite length_app, length_replicate.
  pose proof (length_print_base_le 16 n w) as H. unfold print_x. lia.
Qed.

Lemma base_digit_not_nul base b : is_base_digit base b = true → b ≠ NUL.
Proof. intros H ->. done. Qed.

Lemma c_str_print_0x w n : 0 ≤ n → c_str (print_0x w n) = print_0x w n.
Proof.
  intros Hn. destruct (print_0x_val w n Hn) as (_ & Hf & _). apply c_str_id. rewrite Forall_forall in Hf.
  intros Hin. by apply (base_digit_not_nul 16 NUL); [apply Hf|].
Qed.

Lemma strtoull_04x n : 0 ≤ n < 2 ^ 16 → strtoull (print_0x 4 n) 16 = StrTo n [] false true.
Proof.
  intros Hn. destruct (print_0x_val 4 n) as (Hv & Hf & Hne); [lia|].
  assert (length (print_0x 4 n) = 4%nat) as Hlen by (apply length_print_0x; lia).
  unfold strtoull. rewrite <- (app_nil_r (print_0x 4 n)), strto_scan_digits; [|..|done| |done|done].
  - rewrite Hv. by zbool.
  - right. split; [done|]. intros x r E. rewrite E in Hf. by apply Forall_cons in Hf as [_ [? _]%Forall_cons].
  - done.
Qed.

Lemma strtoull_print_04x n :
  0 ≤ n < 2 ^ 16 → st_val (strtoull (c_str (print_0x 4 n)) 16) = n.
Proof. intros Hn. by rewrite c_str_print_0x, strtoull_04x by lia. Qed.

Lemma digits_rev_fuel base f1 : ∀ f2 n,
  2 ≤ base → 0 ≤ n < 2 ^ Z.of_nat f1 → 0 ≤ n < 2 ^ Z.of_nat f2 → (0 < f1)%nat → (0 < f2)%nat →
  digits_rev base f1 n = digits_rev base f2 n.
Proof.
  induction f1 as [|f1 IH]; intros f2 n Hb H1 H2 ??; [lia|]. destruct f2 as [|f2]; [lia|]. simpl.
  destruct (Z.eqb_spec (n / base) 0) as [|Hq]; [done|]. f_equal.
  rewrite Nat2Z.inj_succ, Z.pow_succ_r in H1, H2 by lia.
  assert (0 ≤ n / base) by (apply Z.div_pos; lia).
  assert (n / base ≤ n / 2) by (apply Z.div_le_compat_l; lia).
  assert (n / 2 < 2 ^ Z.of_nat f1) by (apply Z.div_lt_upper_bound; lia).
  assert (n / 2 < 2 ^ Z.of_nat f2) by (apply Z.div_lt_upper_bound; lia).
  apply IH; try lia.
  - destruct f1; [simpl in *; lia|lia].
  - destruct f2; [simpl in *; lia|lia].
Qed.

Lemma print_base_step base n :
  2 ≤ base → base ≤ n → print_base base n = print_base base (n / base) ++ [digit_char (n mod base)].
Proof.
  intros Hb Hn. unfold print_base. simpl. assert (1 ≤ n / base) by (apply Z.div_le_lower_bound; lia).
  rewrite (proj2 (Z.eqb_neq (n / base) 0)), reverse_cons by lia. f_equal. f_equal.
  pose proof (Z.log2_spec n ltac:(lia)) as L1. pose proof (Z.log2_spec (n / base) ltac:(lia)) as L2.
  assert (n / base ≤ n / 2) by (apply Z.div_le_compat_l; lia).
  assert (0 < Z.log2 n) by (apply Z.log2_pos; lia).
  assert (n / 2 < 2 ^ Z.log2 n).
  { apply Z.div_lt_upper_bound; [lia|]. rewrite <- Z.pow_succ_r by lia. lia. }
  pose proof (Z.log2_nonneg (n / base)).
  apply (digits_rev_fuel base (Z.to_nat (Z.log2 n)) (S (Z.to_nat (Z.log2 (n / base))))); rewrite ?Nat2Z.inj_succ, ?Z2Nat.id; lia.
Qed.

(** What the reader makes of a frame whose length field is [n] in hexadecimal. *)
Lemma read_protocol_frame fd n rest :
  0 ≤ n < 2 ^ 16 → n ≤ zlen rest → stream_data fd = print_0x 4 n ++ rest →
  ∃ fd', ReadProtocolString fd = Ret (ProtoString (ztake n rest), fd') ∧
         stream_data fd' = zdrop n rest.
Proof.
  intros Hn Hr Hd. assert (length (print_0x 4 n) = 4%nat) as Hl by (apply length_print_0x; lia).
  destruct (read_exactly_app fd (print_0x 4 n) rest) as (fd1 & E1 & D1); [rewrite Hl; lia|done|].
  rewrite Hl in E1. destruct (read_exactly_ok fd1 n) as (fd2 & E2 & D2); [lia|rewrite D1; lia|].
  unfold ReadProtocolString. change 4 with (Z.of_nat 4). rewrite E1. mstep.
  rewrite strtoull_print_04x by lia. unfold string_max_size. zbool. mstep. rewrite E2. mstep.
  rewrite D1 in D2 |- *. eauto.
Qed.

(** a protocol string shorter than 64 KiB sent over a descriptor that
    does not fail is read back unchanged, under every fragmentation, and the
    reader stops exactly at the end of the frame. *)
Theorem protocol_string_roundtrip out s :
  zlen s < 2 ^ 16 → (∀ e, Reject e ∈ o_script out → e = EAGAIN) →
  ∃ out' frame, SendProtocolString out s = Ret (true, out') ∧
    o_written out' = o_written out ++ frame ∧
    (∀ in_ rest, stream_data in_ = frame ++ rest →
     ∃ in', ReadProtocolString in_ = Ret (ProtoString s, in') ∧ stream_data in' = rest).
Proof.
  intros Hs Hok. destruct (write_exactly_ok out (print_0x 4 (zlen s) ++ s) Hok) as (out' & E & Hw).
  exists out', (print_0x 4 (zlen s) ++ s). unfold SendProtocolString, MAX_PAYLOAD.
  rewrite u32_small by lia. zbool. rewrite E. split_and!; [done..|]. intros in_ rest Hd.
  destruct (read_protocol_frame in_ (zlen s) (s ++ rest)) as (in' & E' & D').
  - lia.
  - rewrite length_app. lia.
  - by rewrite Hd, app_assoc.
  - exists in'. rewrite E', D'. by rewrite ztake_app_le, ztake_all, zdrop_app_ge, Z.sub_diag, zdrop_0 by lia.
Qed.

Lemma protocol_string_roundtrip_witness :
  ∃ in', ReadProtocolString [Data (str "0"); Data (str "00chost:ver"); Data (str "sionOKAY")] =
           Ret (ProtoString (str "host:version"), in').
Proof.
  destruct (protocol_string_roundtrip (Out [] [Accept 3; Reject EAGAIN; Accept 1]) (str "host:version"))
    as (out' & frame & E & Hw & Hr).
  - done.
  - intros e. simpl. rewrite !elem_of_cons. intros [|[|[|H]]]; try congruence. by apply elem_of_nil in H.
  - vm_compute in E. injection E as <-. simpl in Hw. subst frame.
    destruct (Hr [Data (str "0"); Data (str "00chost:ver"); Data (str "sionOKAY")] (str "OKAY") eq_refl)
      as (in' & Hin & _).
    by exists in'.
Defined.

(** a string of 64 KiB or more that [SendProtocolString] accepts is
    framed with a five-digit length, of which the reader takes four: it returns
    a string of a sixteenth of the length. *)
Theorem protocol_string_misframed out s :
  2 ^ 16 ≤ zlen s ≤ MAX_PAYLOAD - 4 → (∀ e, Reject e ∈ o_script out → e = EAGAIN) →
  ∃ out' frame, SendProtocolString out s = Ret (true, out') ∧
    o_written out' = o_written out ++ frame ∧
    (∀ in_ rest, stream_data in_ = frame ++ rest →
     ∃ s' in', ReadProtocolString in_ = Ret (ProtoString s', in') ∧ zlen s' = zlen s / 16).
Proof.
  unfold MAX_PAYLOAD. intros Hs Hok. set (n := zlen s).
  destruct (write_exactly_ok out (print_0x 4 n ++ s) Hok) as (out' & E & Hw).
  exists out', (print_0x 4 n ++ s). unfold SendProtocolString, MAX_PAYLOAD. fold n.
  rewrite u32_small by lia. zbool. rewrite E. split_and!; [done..|]. intros in_ rest Hd.
  assert (0 ≤ n / 16 < 2 ^ 16) by (split; [apply Z.div_pos|apply Z.div_lt_upper_bound]; lia).
  assert (2 ^ 12 ≤ n / 16) by (apply Z.div_le_lower_bound; lia).
  assert (n / 16 ≤ n) by (apply Z.div_le_upper_bound; lia).
  assert (print_0x 4 n = print_0x 4 (n / 16) ++ [digit_char (n mod 16)]) as Hp.
  { unfold print_0x, print_x. pose proof (length_print_base_gt 16 n 4). pose proof (length_print_base_gt 16 (n / 16) 3).
    rewrite !(proj2 (Nat.sub_0_le _ _)) by lia. simpl replicate. rewrite !app_nil_l. apply print_base_step; lia. }
  rewrite Hp, <- !app_assoc in Hd.
  eapply read_protocol_frame in Hd as (in' & E' & _); [|lia|rewrite !length_app; simpl length; lia].
  do 2 eexists. split; [exact E'|]. rewrite zlen_ztake; [done|]. rewrite !length_app. simpl length. lia.
Qed.

Lemma stream_data_single bs : stream_data [Data bs] = bs.
Proof. destruct bs; simpl; by rewrite ?app_nil_r. Qed.

Lemma protocol_string_misframed_witness :
  ∃ out' s' in',
    SendProtocolString (Out [] []) (replicate (Z.to_nat 65536) (Zbyte 65)) = Ret (true, out') ∧
    ReadProtocolString [Data (o_written out')] = Ret (ProtoString s', in') ∧ zlen s' = 4096.
Proof.
  destruct (protocol_string_misframed (Out [] []) (replicate (Z.to_nat 65536) (Zbyte 65)))
    as (out' & frame & E & Hw & Hr).
  - rewrite length_replicate, Z2Nat.id by lia. unfold MAX_PAYLOAD. lia.
  - intros e H. by apply elem_of_nil in H.
  - destruct (Hr [Data (o_written out')] []) as (s' & in' & Hin & Hl).
    { by rewrite stream_data_single, app_nil_r, Hw. }
    exists out', s', in'. split_and!; [done..|]. rewrite Hl, length_replicate, Z2Nat.id by lia. done.
Defined.

Lemma strto_scan_minus ds :
  (1 < length ds)%nat → Forall (λ b, is_base_digit 16 b = true) ds →
  strto_scan (Zbyte 45 :: ds) 16 = Some (true, ds, []).
Proof.
  intros Hl Hf. unfold strto_scan. change (skip_space (Zbyte 45 :: ds)) with (Zbyte 45 :: ds).
  cbv beta iota zeta. change (bool_decide (Zbyte 45 = Zbyte 45)) with true. cbv iota.
  match goal with |- context [span (is_base_digit 16) ?t] => assert (t = ds) as -> end.
  { destruct ds as [|z [|x [|y r]]]; try done. apply Forall_cons in Hf as [_ [Hx _]%Forall_cons].
    rewrite (bool_decide_false (x = Zbyte 120)), (bool_decide_false (x = Zbyte 88)) by (intros ->; done).
    by rewrite andb_false_r. }
  rewrite <- (app_nil_r ds) at 1. rewrite span_app by done. rewrite bool_decide_false; [done|].
  intros ->. simpl in Hl. lia.
Qed.

(** the length field is parsed by [strtoul], which takes a sign: a frame
    that starts with a nonzero negative length makes the reader ask for a
    string beyond any allocation, which ends the process. *)
Theorem ReadProtocolString_negative fd ds rest :
  length ds = 3%nat → Forall (λ b, is_base_digit 16 b = true) ds → digits_val 16 ds ≠ 0 →
  stream_data fd = Zbyte 45 :: ds ++ rest → ReadProtocolString fd = Abort.
Proof.
  intros Hl Hf Hv Hd.
  destruct (read_exactly_app fd (Zbyte 45 :: ds) rest) as (fd1 & E1 & _); [simpl; lia|done|].
  cbn [length] in E1. rewrite Hl in E1. unfold ReadProtocolString. change 4 with (Z.of_nat 4). rewrite E1. mstep.
  rewrite c_str_id; cycle 1.
  { rewrite elem_of_cons, Forall_forall in *. intros [?|Hin]; [done|]. by apply (base_digit_not_nul 16 NUL); [apply Hf|]. }
  unfold strtoull. rewrite strto_scan_minus by (done || lia).
  pose proof (digits_val_bound 16 ds ltac:(lia)) as Hb. rewrite Hl in Hb. change (16 ^ Z.of_nat 3) with 4096 in Hb.
  assert (u64 (- digits_val 16 ds) = 2 ^ 64 - digits_val 16 ds) as Hu.
  { unfold u64. symmetry. apply (Z.mod_unique _ _ (-1)); lia. }
  zbool. cbn [st_val]. rewrite Hu. unfold string_max_size. zbool. done.
Qed.

Lemma ReadProtocolString_negative_witness : ReadProtocolString [Data (str "-001abc")] = Abort.
Proof.
  apply (ReadProtocolString_negative [Data (str "-001abc")] (str "001") (str "abc")); try done.
  repeat constructor.
Defined.

(** ** Descriptors that work

    One that is written takes everything in the end; one that is read blocks
    until there is something. *)

Definition accepts (o : outstream) : Prop := ∀ e, Reject e ∈ o_script o → e = EAGAIN.
Definition blocking (i : instream) : Prop := Fault EAGAIN ∉ i.

Lemma write_accepts o buf :
  accepts o → ∃ o', WriteFdExactly o buf = Ret (true, o') ∧ o_written o' = o_written o ++ buf ∧ accepts o'.
Proof.
  intros H. destruct (write_exactly_ok o buf H) as (o' & E & Hw). exists o'. split_and!; [done..|].
  intros e He. apply H. by eapply write_loop_script in E.
Qed.

(** A string with its length. *)
Definition frame_string (s : bytes) : bytes := print_0x 4 (zlen s) ++ s.

Lemma send_string_accepts o s :
  accepts o → zlen s ≤ MAX_PAYLOAD - 4 →
  ∃ o', SendProtocolString o s = Ret (true, o') ∧ o_written o' = o_written o ++ frame_string s ∧ accepts o'.
Proof.
  intros H Hs. unfold SendProtocolString. unfold MAX_PAYLOAD in *. rewrite u32_small by lia. zbool. by apply write_accepts.
Qed.

Lemma read_loop_faults fuel : ∀ i got len ok b i' e,
  read_loop fuel i got len = Ret (ok, b, i') → Fault e ∈ i' → Fault e ∈ i.
Proof.
  induction fuel as [|fuel IH]; intros i got len ok b i' e H He; cbn [read_loop] in H.
  { destruct (0 <? len); [done|]. by injection H as _ _ <-. }
  destruct (0 <? len); [|by injection H as _ _ <-]. unfold adb_read in H.
  destruct i as [|[bs|e'] i].
  - by injection H as _ _ <-.
  - destruct (0 <? _).
    + eapply IH in H; [|done]. right. destruct (_ <? _); [|done]. by apply elem_of_cons in H as [[=]|].
    + injection H as _ _ <-. right. destruct (_ <? _); [|done]. by apply elem_of_cons in He as [[=]|].
  - injection H as _ _ <-. by right.
Qed.

Lemma read_exactly_blocking i n ok b i' : ReadFdExactly i n = Ret (ok, b, i') → blocking i → blocking i'.
Proof. intros E Hb Hin. by eapply Hb, read_loop_faults. Qed.

Lemma read_bytes i bs rest :
  zlen bs < 2 ^ 64 → stream_data i = bs ++ rest → blocking i →
  ∃ i', ReadFdExactly i (zlen bs) = Ret (true, bs, i') ∧ stream_data i' = rest ∧ blocking i'.
Proof.
  intros Hl E Hb. destruct (read_exactly_app i bs rest Hl E) as (i' & E' & D). exists i'. split_and!; [done..|].
  by eapply read_exactly_blocking.
Qed.

Lemma read_string_blocking i r i' : ReadProtocolString i = Ret (r, i') → blocking i → blocking i'.
Proof.
  unfold ReadProtocolString. intros H Hb. apply bind_ret_inv in H as ([[ok buf] i1] & E1 & H).
  destruct ok; cbn [negb] in H; [|injection H as _ <-; by eapply read_exactly_blocking].
  apply bind_ret_inv in H as (? & _ & H). apply bind_ret_inv in H as ([[ok s] i2] & E2 & H). injection H as _ <-.
  by eapply read_exactly_blocking, read_exactly_blocking.
Qed.

Lemma read_string i s rest :
  zlen s < 2 ^ 16 → stream_data i = frame_string s ++ rest → blocking i →
  ∃ i', ReadProtocolString i = Ret (ProtoString s, i') ∧ stream_data i' = rest ∧ blocking i'.
Proof.
  intros Hs Hd Hb. destruct (read_protocol_frame i (zlen s) (s ++ rest)) as (i' & E & D).
  - lia.
  - rewrite length_app. lia.
  - rewrite Hd. unfold frame_string. by rewrite <- app_assoc.
  - rewrite ztake_app_le, ztake_all in E by lia. rewrite zdrop_app_ge, Z.sub_diag, zdrop_0 in D by lia.
    exists i'. split_and!; [done..|]. by eapply read_string_blocking.
Qed.

Lemma orderly_shutdown i : blocking i → ∃ ok shut i', ReadOrderlyShutdown i = Ret (ok, shut, i').
Proof.
  intros Hb. unfold ReadOrderlyShutdown. destruct i as [|[bs|e] i]; cbn [adb_read]; [by eauto|..].
  - destruct (ztake _ _); eauto.
  - destruct e; [|by eauto..]. destruct Hb. by left.
Qed.

(** ** The shell protocol *)
Module Shell.
Import ShellProtocol.

(** A buffer with room for a header and at least one byte of data. *)
Definition wf (p : t) : Prop :=
  kHeaderSize < zlen (buffer_ p) < 2 ^ 63 ∧ 0 ≤ bytes_left_ p < 2 ^ 32.

Lemma data_capacity_wf p : wf p → data_capacity p = zlen (buffer_ p) - 5.
Proof. unfold wf, kHeaderSize, data_capacity. intros. rewrite u64_small; unfold kHeaderSize; lia. Qed.

Lemma data_app h a n l : length h = 5%nat → data (mk (h ++ a) n l) = ztake n a.
Proof.
  intros Hh. unfold data, kHeaderSize. simpl. rewrite zdrop_app_ge by lia. rewrite Hh. done.
Qed.

(** The result of one [Read]: up to a buffer of the [n] bytes still to come. *)
Definition received (p : t) (h : bytes) (n : Z) (body : bytes)
    (p' : t) (fd' : instream) : Prop :=
  let m := Z.min n (data_capacity p) in
  wf p' ∧ data_capacity p' = data_capacity p ∧ take 5 (buffer_ p') = h ∧
  data p' = ztake m body ∧ stream_data fd' = zdrop m body ∧ bytes_left_ p' = n - m.

Lemma read_data_spec h a dl n fd :
  length h = 5%nat → wf (mk (h ++ a) dl n) →
  Z.min n (zlen a) ≤ zlen (stream_data fd) →
  ∃ p' fd', read_data (mk (h ++ a) dl n) fd = Ret (true, p', fd') ∧
    received (mk (h ++ a) dl n) h n (stream_data fd) p' fd'.
Proof.
  intros Hh Hw Hm. pose proof (data_capacity_wf _ Hw) as Hc. destruct Hw as [Hw1 Hw2].
  unfold received, read_data. rewrite Hc in *. cbn [buffer_ bytes_left_] in *.
  rewrite length_app, Hh in *. unfold kHeaderSize in *.
  replace (Z.of_nat (5 + length a) - 5) with (zlen a) by lia.
  set (m := Z.min n (zlen a)) in *. assert (0 ≤ m) by lia.
  destruct (Z.eqb_spec m 0) as [E|E]; mstep.
  - rewrite E, Z.sub_0_r, u64_small by lia. do 2 eexists. split; [done|].
    rewrite (data_app h), ztake_0, zdrop_0 by done.
    split_and!; try done; [split; unfold kHeaderSize; simpl; rewrite ?length_app; lia| |].
    + rewrite data_capacity_wf; [simpl; rewrite length_app; lia|].
      split; unfold kHeaderSize; simpl; rewrite ?length_app; lia.
    + simpl. rewrite <- Hh. apply take_app_length.
  - destruct (read_exactly_ok fd m) as (fd' & Er & Hd); [lia..|]. rewrite Er. mstep.
    assert (zlen (ztake m (stream_data fd)) = m) as Hl by (apply zlen_ztake; lia).
    rewrite memcpy_app by lia. mstep. rewrite u64_small by lia. do 2 eexists. split; [done|].
    rewrite (data_app h), Hl, ztake_app_le, ztake_ztake by (done || lia).
    assert (wf (mk (h ++ ztake m (stream_data fd) ++ zdrop m a) m (n - m))) as Hw'.
    { split; unfold kHeaderSize; simpl; rewrite ?length_app, ?Nat2Z.inj_add, ?Hl, ?zlen_zdrop by lia; lia. }
    split_and!; try done.
    + rewrite data_capacity_wf by done. simpl. rewrite !length_app, !Nat2Z.inj_add, Hl, zlen_zdrop by lia. lia.
    + simpl. rewrite <- Hh. apply take_app_length.
Qed.

(** A packet on the wire. *)
Definition frame (i : byte) (payload : bytes) : bytes := i :: le32 (zlen payload) ++ payload.

Lemma Read_start p i n body fd :
  wf p → bytes_left_ p = 0 → 0 ≤ n < 2 ^ 32 →
  stream_data fd = i :: le32 n ++ body → Z.min n (data_capacity p) ≤ zlen body →
  ∃ p' fd', Read p fd = Ret (true, p', fd') ∧ received p (i :: le32 n) n body p' fd'.
Proof.
  intros Hw H0 Hn Hd Hm. pose proof (data_capacity_wf _ Hw) as Hc. destruct p as [buf dl bl].
  destruct Hw as [Hw1 Hw2]. unfold kHeaderSize in Hw1. cbn [buffer_ bytes_left_ data_length_] in *. subst bl.
  assert (∃ h0 a, buf = h0 ++ a ∧ zlen h0 = 5) as (h0 & a & -> & Hh0).
  { exists (ztake 5 buf), (zdrop 5 buf). by rewrite ztake_zdrop, zlen_ztake by lia. }
  rewrite length_app in *.
  destruct (read_exactly_app fd (i :: le32 n) body) as (fd1 & E1 & D1); [rewrite length_cons, length_le32; lia|done|].
  unfold Read, read_header. cbn [buffer_ bytes_left_ data_length_].
  change (0 =? 0) with true. cbv iota. change kHeaderSize with (zlen (i :: le32 n)). rewrite E1. mstep.
  change (h0 ++ a) with ([] ++ h0 ++ a). rewrite memcpy_app by (rewrite ?length_cons, ?length_app, ?length_le32; simpl; lia). mstep.
  assert (zdrop (zlen (i :: le32 n)) (h0 ++ a) = a) as ->.
  { rewrite length_cons, length_le32, zdrop_app_ge, Hh0 by lia. apply zdrop_0. }
  rewrite app_nil_l, <- app_comm_cons.
  assert (ztake 4 (zdrop 1 (i :: le32 n ++ a)) = le32 n) as ->.
  { change (zdrop 1 (i :: le32 n ++ a)) with (le32 n ++ a). by rewrite ztake_app_le by (rewrite length_le32; lia). }
  rewrite le32_dec_le32, u32_small by lia. mstep.
  change (i :: le32 n ++ a) with ((i :: le32 n) ++ a).
  destruct (read_data_spec (i :: le32 n) a 0 n fd1) as (p' & fd' & E & Hr); [done| |rewrite D1; lia|].
  { split; unfold kHeaderSize; simpl; rewrite ?length_app; lia. }
  exists p', fd'. split; [exact E|]. rewrite D1 in Hr.
  unfold received, data_capacity in *. cbn [buffer_] in *.
  replace (zlen ([] ++ h0 ++ a)) with (zlen ((i :: le32 n) ++ a)); [exact Hr|].
  rewrite app_nil_l, !length_app, length_cons, length_le32. lia.
Qed.

Lemma Read_more p fd :
  wf p → 0 < bytes_left_ p →
  Z.min (bytes_left_ p) (data_capacity p) ≤ zlen (stream_data fd) →
  ∃ p' fd', Read p fd = Ret (true, p', fd') ∧
    received p (take 5 (buffer_ p)) (bytes_left_ p) (stream_data fd) p' fd'.
Proof.
  intros Hw H0 Hm. unfold Read, read_header. rewrite (proj2 (Z.eqb_neq (bytes_left_ p) 0)) by lia. mstep.
  pose proof (data_capacity_wf _ Hw) as Hc. pose proof Hw as [Hw1 _]. unfold kHeaderSize in Hw1.
  destruct p as [buf dl n]. cbn [buffer_ bytes_left_] in *.
  pose proof (read_data_spec (take 5 buf) (drop 5 buf) dl n fd) as Hs. rewrite take_drop in Hs.
  apply Hs; [rewrite length_take; lia|done|]. rewrite length_drop, Hc in *. lia.
Qed.

(** Calling [Read] until the packet is complete: the chunks that [data()] and
    [data_length()] show after each call, all under the same id. *)
Inductive reads : t → instream → byte → list bytes → t → instream → Prop :=
| reads_last p fd i p' fd' :
    Read p fd = Ret (true, p', fd') → id p' = Ret i → bytes_left_ p' = 0 →
    reads p fd i [data p'] p' fd'
| reads_more p fd i p' fd' cs p'' fd'' :
    Read p fd = Ret (true, p', fd') → id p' = Ret i → 0 < bytes_left_ p' →
    reads p' fd' i cs p'' fd'' → reads p fd i (data p' :: cs) p'' fd''.

Lemma id_of_header p i h : take 5 (buffer_ p) = i :: h → id p = Ret i.
Proof. unfold id. destruct (buffer_ p); simpl; by intros [= ->]. Qed.

(** How a payload of which [body] is still to come is split over a buffer. *)
Definition chunked (cap : Z) (payload : bytes) (cs : list bytes) : Prop :=
  ∃ full c, cs = full ++ [c] ∧ concat cs = payload ∧
    Forall (λ c, zlen c = cap) full ∧ zlen c ≤ cap.

(** One call, and those that follow it. *)
Lemma reads_received : ∀ (k : nat) p fd i h body rest p' fd',
  (length body ≤ k)%nat → 0 < data_capacity p → Read p fd = Ret (true, p', fd') →
  received p (i :: h) (zlen body) (body ++ rest) p' fd' →
  ∃ cs p'' fd'', reads p fd i cs p'' fd'' ∧ chunked (data_capacity p) body cs ∧
    wf p'' ∧ bytes_left_ p'' = 0 ∧ stream_data fd'' = rest.
Proof.
  induction k as [k IH] using lt_wf_ind. intros p fd i h body rest p' fd' Hk Hcap E Hr.
  destruct Hr as (Hw & Hc & Hh & Hd & Hs & Hb). pose proof (id_of_header _ _ _ Hh) as Hi.
  destruct (Z.le_gt_cases (zlen body) (data_capacity p)) as [Hle|Hgt].
  - rewrite Z.min_l in * by lia. rewrite Z.sub_diag in Hb.
    rewrite ztake_app_le, ztake_all in Hd by lia. rewrite zdrop_app_ge, Z.sub_diag, zdrop_0 in Hs by lia.
    exists [data p'], p', fd'. split_and!; [by econstructor| |done..].
    exists [], body. rewrite Hd. simpl. rewrite app_nil_r. eauto.
  - rewrite Z.min_r in * by lia.
    rewrite ztake_app_le in Hd by lia. rewrite zdrop_app_le in Hs by lia.
    set (body' := zdrop (data_capacity p) body) in *.
    assert (zlen body' = zlen body - data_capacity p) as Hl by (apply zlen_zdrop; lia).
    destruct (Read_more p' fd') as (p1 & fd1 & E1 & Hr1); [done|lia|rewrite Hs, length_app; lia|].
    rewrite Hb, Hs, Hh, <- Hl in Hr1.
    destruct (IH (length body') ltac:(lia) p' fd' i h body' rest p1 fd1)
      as (cs & p2 & fd2 & Hreads & (full & c & -> & Hcat & Hf & Hlc) & Hrest); [lia|lia|done..|].
    exists (data p' :: full ++ [c]), p2, fd2. split_and!; [eapply reads_more; eauto; lia| |apply Hrest..].
    exists (data p' :: full), c. rewrite Hc in *. split_and!; [done| |constructor; [|done]|done].
    + simpl. rewrite Hcat, Hd. apply ztake_zdrop.
    + rewrite Hd. apply zlen_ztake. lia.
Qed.

Lemma Write_frame p i payload out :
  wf p → zlen payload ≤ data_capacity p → zlen payload < 2 ^ 32 →
  (∀ e, Reject e ∈ o_script out → e = EAGAIN) →
  ∃ p0 p1 out', fill p payload = Ret p0 ∧
    Write p0 out i (zlen payload) = Ret (true, p1, out') ∧
    o_written out' = o_written out ++ frame (Id_byte i) payload.
Proof.
  intros Hw Hl H32 Hok. rewrite data_capacity_wf in Hl by done. destruct Hw as [Hw1 _]. unfold kHeaderSize in Hw1.
  destruct p as [buf dl bl]. cbn [buffer_] in *.
  destruct buf as [|b0 [|b1 [|b2 [|b3 [|b4 a]]]]]; try (simpl in Hw1; lia).
  change (b0 :: b1 :: b2 :: b3 :: b4 :: a) with ([b0; b1; b2; b3; b4] ++ a) in *. rewrite length_app in *.
  unfold fill. cbn [buffer_ data_length_ bytes_left_]. rewrite memcpy_app by (simpl length in *; unfold kHeaderSize; lia). mstep.
  destruct (write_exactly_ok out (frame (Id_byte i) payload) Hok) as (out' & E & Ho).
  eexists _, _, out'. split; [done|]. split; [|exact Ho].
  unfold Write. cbn [buffer_]. set (r := zdrop (zlen payload) a).
  change ([b0; b1; b2; b3; b4] ++ payload ++ r) with ([] ++ [b0; b1; b2; b3; b4] ++ payload ++ r).
  rewrite memcpy_app by (simpl; lia). mstep.
  change (zdrop (zlen [Id_byte i]) ([b0; b1; b2; b3; b4] ++ payload ++ r)) with ([b1; b2; b3; b4] ++ payload ++ r).
  rewrite app_nil_l, (memcpy_app [Id_byte i] ([b1; b2; b3; b4] ++ payload ++ r)) by (rewrite ?length_le32; simpl; lia). mstep. rewrite length_le32.
  change (zdrop (Z.of_nat 4) ([b1; b2; b3; b4] ++ payload ++ r)) with (payload ++ r).
  rewrite u32_small by lia.
  replace ([Id_byte i] ++ le32 (zlen payload) ++ payload ++ r) with (frame (Id_byte i) payload ++ r)
    by (unfold frame; by rewrite <- app_comm_cons, <- app_assoc).
  assert (zlen (frame (Id_byte i) payload) = kHeaderSize + zlen payload) as Hf.
  { unfold frame, kHeaderSize. rewrite length_cons, length_app, length_le32. lia. }
  rewrite length_app. zbool. rewrite ztake_app_le, ztake_all by lia. rewrite E. done.
Qed.

(** a packet written by one side is read back by the other, under every
    fragmentation and whatever the sizes of the two buffers: the chunks that
    successive reads deliver under the packet's id concatenate to the payload,
    every chunk but the last fills the reader's buffer, and the reader ends
    exactly at the next packet. *)
Theorem shell_roundtrip p i payload out q :
  wf p → zlen payload ≤ data_capacity p → zlen payload < 2 ^ 32 →
  (∀ e, Reject e ∈ o_script out → e = EAGAIN) → wf q → bytes_left_ q = 0 →
  ∃ p0 p1 out' wire, fill p payload = Ret p0 ∧
    Write p0 out i (zlen payload) = Ret (true, p1, out') ∧
    o_written out' = o_written out ++ wire ∧
    ∀ fd rest, stream_data fd = wire ++ rest →
    ∃ cs q' fd', reads q fd (Id_byte i) cs q' fd' ∧ chunked (data_capacity q) payload cs ∧
      wf q' ∧ bytes_left_ q' = 0 ∧ stream_data fd' = rest.
Proof.
  intros Hp Hl H32 Hok Hq H0. destruct (Write_frame p i payload out) as (p0 & p1 & out' & Ef & Ew & Ho); [done..|].
  exists p0, p1, out', (frame (Id_byte i) payload). split_and!; [done..|]. intros fd rest Hd.
  assert (0 < data_capacity q) by (rewrite data_capacity_wf by done; destruct Hq as [Hq _]; unfold kHeaderSize in Hq; lia).
  destruct (Read_start q (Id_byte i) (zlen payload) (payload ++ rest) fd) as (q1 & fd1 & E & Hr);
    [done|done|lia|by rewrite Hd; unfold frame; rewrite <- app_comm_cons, <- app_assoc|rewrite length_app; lia|].
  eapply reads_received; eauto.
Qed.

(** A 50-byte packet read into a 20-byte buffer: 20, 20, then 10 bytes. *)
Lemma shell_roundtrip_witness :
  ∃ fd cs q' fd', reads (mk (replicate 25 (Zbyte 0)) 0 0) fd (Zbyte 1) cs q' fd' ∧
    concat cs = replicate 50 (Zbyte 65) ∧ length cs = 3%nat.
Proof.
  destruct (shell_roundtrip (mk (replicate 60 (Zbyte 0)) 0 0) kIdStdout (replicate 50 (Zbyte 65))
    (Out [] [Accept 7; Reject EAGAIN]) (mk (replicate 25 (Zbyte 0)) 0 0))
    as (p0 & p1 & out' & wire & _ & _ & _ & H); try done.
  - intros e. simpl. rewrite !elem_of_cons. intros [|[|Hn]]; try congruence. by apply elem_of_nil in Hn.
  - destruct (H [Data wire] []) as (cs & q' & fd' & Hr & (full & c & -> & Hc & Hf & Hl) & _).
    { by rewrite stream_data_single, app_nil_r. }
    exists [Data wire], (full ++ [c]), q', fd'. split_and!; [done..|].
    apply (f_equal length) in Hc. rewrite concat_app, length_app, length_replicate in Hc. simpl in Hc.
    rewrite app_nil_r in Hc. change (data_capacity _) with 20 in *.
    assert (length (concat full) = 20 * length full)%nat as Hlen.
    { clear -Hf. induction Hf as [|x l Hx _ IH]; [done|]. simpl. rewrite length_app. lia. }
    rewrite length_app. simpl. lia.
Defined.
End Shell.
