(* ===== verification/Packets.v ===== *)
(** * Packets and the connections that carry them one at a time

    [struct amessage]/[apacket] ([adb/types.h]), the header helpers of
    [adb/adb.cpp] and [adb/transport.cpp], [TlsConnectionImpl::ReadFully] and
    [WriteFully] ([adb/tls/tls_connection.cpp]) and [FdConnection]
    ([adb/transport.cpp]).  The SSL library is a parameter. *)

From S2P Require Import Prelude Types AdbIO.
Local Open Scope Z_scope.

(** ** [adb.h] *)
Definition A_SYNC : Z := 0x434e5953.
Definition A_CNXN : Z := 0x4e584e43.
Definition A_OPEN : Z := 0x4e45504f.
Definition A_OKAY : Z := 0x59414b4f.
Definition A_CLSE : Z := 0x45534c43.
Definition A_WRTE : Z := 0x45545257.
Definition A_AUTH : Z := 0x48545541.
Definition A_STLS : Z := 0x534C5453.

Definition A_VERSION_MIN : Z := 0x01000000.
Definition A_VERSION_SKIP_CHECKSUM : Z := 0x01000001.
Definition A_VERSION : Z := 0x01000001.
Definition A_STLS_VERSION_MIN : Z := 0x01000000.
Definition A_STLS_VERSION : Z := 0x01000000.

(** ** [types.h] *)
Record amessage := AMessage {
  command : Z; arg0 : Z; arg1 : Z; data_length : Z; data_check : Z; magic : Z
}.

Record apacket := APacket { msg : amessage; payload : Block.t }.

Definition sizeof_amessage : Z := 24.

(** The memory image of a header on the little-endian hosts adb runs on. *)
Definition amessage_bytes (m : amessage) : bytes :=
  le32 (command m) ++ le32 (arg0 m) ++ le32 (arg1 m) ++
  le32 (data_length m) ++ le32 (data_check m) ++ le32 (magic m).

#[global] Arguments amessage_bytes : simpl never.

Definition amessage_of_bytes (bs : bytes) : option amessage :=
  c ← le32_dec (ztake 4 bs); a0 ← le32_dec (ztake 4 (zdrop 4 bs));
  a1 ← le32_dec (ztake 4 (zdrop 8 bs)); dl ← le32_dec (ztake 4 (zdrop 12 bs));
  dc ← le32_dec (ztake 4 (zdrop 16 bs)); mg ← le32_dec (ztake 4 (zdrop 20 bs));
  Some (AMessage c a0 a1 dl dc mg).

(** ** [adb.cpp] *)

(** [get_apacket()]: a zeroed header and an empty payload. *)
Definition get_apacket : apacket := APacket (AMessage 0 0 0 0 0 0) Block.default.

Fixpoint checksum_loop (n : nat) (p : bytes) (sum : Z) : outcome Z :=
  match n with
  | O => Ret sum
  | S n =>
      match p with
      | [] => UB
      | b :: p => checksum_loop n p (u32 (sum + byteZ b))
      end
  end.

(** Reads [payload[i]] for every [i] below [data_length], unchecked. *)
Definition calculate_apacket_checksum (p : apacket) : outcome Z :=
  checksum_loop (Z.to_nat (data_length (msg p)))
    (default [] (Block.data_ (payload p))) 0.

(** ** [transport.cpp] *)

(** The header fields [send_packet] fills in before it queues the packet. *)
Definition stamp_packet (protocol_version : Z) (p : apacket) : outcome apacket :=
  let m := msg p in
  check_sum ← (if A_VERSION_SKIP_CHECKSUM <=? protocol_version then Ret 0
               else calculate_apacket_checksum p);
  Ret (APacket (AMessage (command m) (arg0 m) (arg1 m) (data_length m) check_sum
                  (Z.lxor (command m) 0xffffffff)) (payload p)).

Definition check_header (p : apacket) (max_payload : Z) : bool :=
  (magic (msg p) =? Z.lxor (command (msg p)) 0xffffffff) &&
  (data_length (msg p) <=? max_payload).

(** ** [tls_connection.cpp] *)
Section tls.
Context {SSL : Type}.
(** [SSL_read] and [SSL_write] of the SSL library: the bytes read ([None] for a
    result of zero or less), the number of bytes written. *)
Context (SSL_read : SSL → Z → option bytes * SSL).
Context (SSL_write : SSL → bytes → Z * SSL).

Definition INT_MAX : Z := 2 ^ 31 - 1.

Fixpoint tls_read_loop (fuel : nat) (ssl : SSL) (got : bytes) (size : Z)
  : outcome (bool * bytes * SSL) :=
  if 0 <? size then
    match fuel with
    | O => OutOfFuel
    | S fuel =>
        match SSL_read ssl (Z.min INT_MAX size) with
        | (None, ssl') => Ret (false, got, ssl')
        | (Some bs, ssl') => tls_read_loop fuel ssl' (got ++ bs) (u64 (size - zlen bs))
        end
    end
  else Ret (true, got, ssl).

Definition tls_ReadFully (ssl_ : option SSL) (size : Z) : outcome (bool * bytes * option SSL) :=
  _ ← check (0 <? size);
  match ssl_ with
  | None => Ret (false, [], None)
  | Some ssl =>
      '(ok, got, ssl') ← tls_read_loop (Z.to_nat size) ssl [] size;
      Ret (ok, got, Some ssl')
  end.

Fixpoint tls_write_loop (fuel : nat) (ssl : SSL) (data : bytes) : outcome (bool * SSL) :=
  if bool_decide (data = []) then Ret (true, ssl)
  else
    match fuel with
    | O => OutOfFuel
    | S fuel =>
        let '(bytes_out, ssl') := SSL_write ssl (ztake INT_MAX data) in
        if bytes_out <=? 0 then Ret (false, ssl')
        else if zlen data <? bytes_out then Abort
        else tls_write_loop fuel ssl' (zdrop bytes_out data)
    end.

Definition tls_WriteFully (ssl_ : option SSL) (data : bytes) : outcome (bool * option SSL) :=
  _ ← check (negb (bool_decide (data = [])));
  match ssl_ with
  | None => Ret (false, None)
  | Some ssl =>
      '(ok, ssl') ← tls_write_loop (length data) ssl data;
      Ret (ok, Some ssl')
  end.

(** ** [FdConnection] *)

(** The descriptor, as its two directions, and the TLS session if one was set
    up by [DoTlsHandshake]. *)
Record FdConnection := FdConn {
  fd_in : instream; fd_out : outstream; tls_ : option (option SSL)
}.

Definition DispatchRead (c : FdConnection) (len : Z) : outcome (bool * bytes * FdConnection) :=
  match tls_ c with
  | Some ssl =>
      if len =? 0 then Ret (true, [], c)
      else
        '(ok, got, ssl') ← tls_ReadFully ssl len;
        Ret (ok, got, FdConn (fd_in c) (fd_out c) (Some ssl'))
  | None =>
      '(ok, got, fd') ← ReadFdExactly (fd_in c) len;
      Ret (ok, got, FdConn fd' (fd_out c) None)
  end.

Definition DispatchWrite (c : FdConnection) (buf : bytes) : outcome (bool * FdConnection) :=
  match tls_ c with
  | Some ssl =>
      if zlen buf =? 0 then Ret (true, c)
      else
        '(ok, ssl') ← tls_WriteFully ssl buf;
        Ret (ok, FdConn (fd_in c) (fd_out c) (Some ssl'))
  | None =>
      '(ok, fd') ← WriteFdExactly (fd_out c) buf;
      Ret (ok, FdConn (fd_in c) fd' None)
  end.

(** [Read] into a fresh packet: [None] when it returns false. *)
Definition FdConnection_Read (junk : nat → byte) (c : FdConnection)
  : outcome (option apacket * FdConnection) :=
  '(ok, hdr, c) ← DispatchRead c sizeof_amessage;
  if negb ok then Ret (None, c)
  else
    m ← deref (amessage_of_bytes hdr);
    if MAX_PAYLOAD <? data_length m then Ret (None, c)
    else
      b ← Block.resize junk Block.default (data_length m);
      '(ok, got, c) ← DispatchRead c (Block.size_ b);
      b ← Block.write_at b 0 got;
      if negb ok then Ret (None, c) else Ret (Some (APacket m b), c).

(** [Write]: the payload is sent up to [data_length], which the array
    behind it must cover. *)
Definition FdConnection_Write (c : FdConnection) (p : apacket) : outcome (bool * FdConnection) :=
  '(ok, c) ← DispatchWrite c (amessage_bytes (msg p));
  if negb ok then Ret (false, c)
  else if negb (data_length (msg p) =? 0) then
    let d := default [] (Block.data_ (payload p)) in
    if zlen d <? data_length (msg p) then UB
    else DispatchWrite c (ztake (data_length (msg p)) d)
  else Ret (true, c).

End tls.
Arguments FdConnection : clear implicits.
Arguments FdConn {SSL} _ _ _.
