(* ===== verification/PacketsFacts.v ===== *)
(** * Packets round-trip through [FdConnection]

    The laws the SSL library is assumed to satisfy are the class [SslLaws]; a
    connection, with or without TLS, is then a reliable byte channel, and the
    packet level is proved against that. *)

From S2P Require Import Prelude Types TypesFacts AdbIO AdbIOFacts Packets.
Local Open Scope Z_scope.

(** ** Headers *)

Definition is_u32 (z : Z) : Prop := 0 ≤ z < 2 ^ 32.

(** Every field fits its type. *)
Definition amessage_wf (m : amessage) : Prop :=
  Forall is_u32 [command m; arg0 m; arg1 m; data_length m; data_check m; magic m].

Lemma length_amessage_bytes m : length (amessage_bytes m) = 24%nat.
Proof. reflexivity. Qed.

Lemma amessage_roundtrip m :
  amessage_wf m → amessage_of_bytes (amessage_bytes m) = Some m.
Proof.
  unfold amessage_wf, is_u32. rewrite !Forall_cons. intros (H1 & H2 & H3 & H4 & H5 & H6 & _).
  assert (∀ z, 0 ≤ z < 2 ^ 32 → le32_dec (le32 z) = Some z) as Hd.
  { intros z Hz. by rewrite le32_dec_le32, u32_small. }
  unfold amessage_of_bytes.
  change (ztake 4 (amessage_bytes m)) with (le32 (command m)).
  change (ztake 4 (zdrop 4 (amessage_bytes m))) with (le32 (arg0 m)).
  change (ztake 4 (zdrop 8 (amessage_bytes m))) with (le32 (arg1 m)).
  change (ztake 4 (zdrop 12 (amessage_bytes m))) with (le32 (data_length m)).
  change (ztake 4 (zdrop 16 (amessage_bytes m))) with (le32 (data_check m)).
  change (ztake 4 (zdrop 20 (amessage_bytes m))) with (le32 (magic m)).
  rewrite !Hd by done. by destruct m.
Qed.

Lemma le32_dec_Some b0 b1 b2 b3 : le32_dec [b0; b1; b2; b3] = Some (le32_val b0 b1 b2 b3).
Proof. done. Qed.

(** Any 24 bytes are a header, and printing it gives them back. *)
Lemma amessage_decode bs :
  length bs = 24%nat →
  ∃ m, amessage_of_bytes bs = Some m ∧ amessage_wf m ∧ amessage_bytes m = bs.
Proof.
  intros H. do 24 (destruct bs as [|? bs]; [done|]). destruct bs; [|done]. clear H.
  eexists. split; [reflexivity|]. split.
  - repeat constructor; apply le32_val_bound.
  - unfold amessage_bytes. cbn [command arg0 arg1 data_length data_check magic].
    by rewrite !le32_le32_val.
Qed.

(** ** Checksums and stamping *)

Definition byte_sum (bs : bytes) : Z := foldr (λ b acc, byteZ b + acc) 0 bs.

Lemma checksum_loop_spec n : ∀ p sum,
  (n ≤ length p)%nat → checksum_loop n p sum =
    Ret (match n with O => sum | _ => u32 (sum + byte_sum (take n p)) end).
Proof.
  induction n as [|n IH]; intros p sum Hl; [done|]. destruct p as [|b p]; [simpl in Hl; lia|].
  simpl in Hl. simpl. rewrite IH by lia. destruct n as [|n]; f_equal; simpl; [f_equal; lia|].
  unfold u32. rewrite Zplus_mod_idemp_l. f_equal. lia.
Qed.

Lemma checksum_spec p :
  0 ≤ data_length (msg p) ≤ zlen (default [] (Block.data_ (payload p))) →
  calculate_apacket_checksum p =
    Ret (u32 (byte_sum (ztake (data_length (msg p)) (default [] (Block.data_ (payload p)))))).
Proof.
  intros H. unfold calculate_apacket_checksum. rewrite checksum_loop_spec by lia.
  unfold ztake. by destruct (Z.to_nat _).
Qed.

Lemma lxor_ones_bound c : is_u32 c → is_u32 (Z.lxor c 0xffffffff).
Proof.
  unfold is_u32. intros [H0 H1].
  assert (0 ≤ Z.lxor c 0xffffffff) as Hn by (apply Z.lxor_nonneg; lia).
  split; [done|]. destruct (Z.eq_dec (Z.lxor c 0xffffffff) 0) as [->|Hne]; [lia|].
  apply Z.log2_lt_pow2; [lia|]. eapply Z.le_lt_trans; [apply Z.log2_lxor; lia|].
  apply Z.max_lub_lt; [|done]. destruct (Z.eq_dec c 0) as [->|]; [done|]. apply Z.log2_lt_pow2; lia.
Qed.

(** A packet whose header describes its payload. *)
Definition packet_wf (p : apacket) : Prop :=
  amessage_wf (msg p) ∧ Block.wf (payload p) ∧ data_length (msg p) = Block.size_ (payload p).

Lemma packet_payload p :
  packet_wf p → data_length (msg p) ≤ zlen (default [] (Block.data_ (payload p))) ∧
  ztake (data_length (msg p)) (default [] (Block.data_ (payload p))) = Block.content (payload p) ∧
  0 ≤ data_length (msg p).
Proof.
  intros (Hm & Hw & ->). unfold Block.wf, Block.content in *. destruct (Block.data_ (payload p)); simpl; [|].
  - split; [lia|]. split; [done|lia].
  - destruct Hw as [_ ->]. done.
Qed.

Lemma stamp_packet_spec v p :
  packet_wf p →
  ∃ p', stamp_packet v p = Ret p' ∧ packet_wf p' ∧ payload p' = payload p ∧
    check_header p' (data_length (msg p)) = true ∧
    (command (msg p'), arg0 (msg p'), arg1 (msg p'), data_length (msg p')) =
      (command (msg p), arg0 (msg p), arg1 (msg p), data_length (msg p)) ∧
    data_check (msg p') =
      if A_VERSION_SKIP_CHECKSUM <=? v then 0 else u32 (byte_sum (Block.content (payload p))).
Proof.
  intros Hp. pose proof (packet_payload p Hp) as (Hl & Hc & H0). destruct Hp as (Hm & Hw & Hd).
  unfold stamp_packet. rewrite checksum_spec, Hc by lia.
  set (s := if A_VERSION_SKIP_CHECKSUM <=? v then 0 else u32 (byte_sum (Block.content (payload p)))).
  assert ((if A_VERSION_SKIP_CHECKSUM <=? v then Ret 0
           else Ret (u32 (byte_sum (Block.content (payload p))))) = Ret s) as ->
    by (unfold s; by destruct (_ <=? v)).
  assert (is_u32 s) by (unfold s; destruct (_ <=? v); [done|apply u32_bound]).
  mstep. eexists. split; [done|]. simpl. split_and!; try done.
  - split_and!; try done. unfold amessage_wf in *. simpl. rewrite !Forall_cons in *.
    destruct Hm as (? & ? & ? & ? & ? & ? & _). split_and!; try done. by apply lxor_ones_bound.
  - unfold check_header. simpl. rewrite Z.eqb_refl, Z.leb_refl. done.
Qed.

(** ** Connections as byte channels *)

(** What the code relies on of the SSL library: [SSL_read] returns a nonempty
    prefix of the decrypted bytes still to come, [SSL_write] sends a nonempty
    prefix of its argument while the session is up. *)
Class SslLaws {SSL} (SSL_read : SSL → Z → option bytes * SSL)
    (SSL_write : SSL → bytes → Z * SSL) := {
  ssl_in : SSL → bytes;
  ssl_out : SSL → bytes;
  ssl_up : SSL → Prop;
  ssl_read_ok s n : 0 < n → ssl_in s ≠ [] →
    ∃ bs s', SSL_read s n = (Some bs, s') ∧ bs ≠ [] ∧ zlen bs ≤ n ∧ ssl_in s = bs ++ ssl_in s';
  ssl_write_ok s p : p ≠ [] → ssl_up s →
    ∃ k s', SSL_write s p = (k, s') ∧ 0 < k ≤ zlen p ∧ ssl_up s' ∧
            ssl_out s' = ssl_out s ++ ztake k p
}.

Lemma nonempty_zlen {A} (l : list A) : l ≠ [] → 0 < zlen l.
Proof. destruct l; [done|simpl; lia]. Qed.

(** A fresh block resized and filled. *)
Lemma block_resize_write junk src :
  ∃ b0 b, Block.resize junk Block.default (zlen src) = Ret b0 ∧ Block.size_ b0 = zlen src ∧
    Block.write_at b0 0 src = Ret b ∧ Block.wf b ∧ Block.content b = src ∧ Block.size_ b = zlen src.
Proof.
  destruct (block_of_range junk src) as (b & E & Hw & Hc & Hs).
  unfold Block.of_range, Block.of_size in E. apply bind_ret_inv in E as (b0 & E0 & E).
  exists b0, b. split_and!; try done. unfold Block.allocate in E0. simpl in E0.
  destruct (zlen src =? 0) eqn:Ez; injection E0 as <-; simpl; lia.
Qed.

Lemma block_resize_partial junk n src :
  0 ≤ n → zlen src ≤ n →
  ∃ b0 b, Block.resize junk Block.default n = Ret b0 ∧ Block.size_ b0 = n ∧
    Block.write_at b0 0 src = Ret b.
Proof.
  intros Hn Hs. unfold Block.resize, Block.allocate, Block.write_at. simpl.
  destruct (Z.eqb_spec n 0) as [->|Hne]; simpl.
  - do 2 eexists. split_and!; [done..|]. simpl. by destruct src; [|simpl in Hs; lia].
  - do 2 eexists. split_and!; [done..|]. simpl. rewrite memcpy_fit by (rewrite ?zlen_new_array; lia). done.
Qed.

Section channel.
Context {SSL} (SSL_read : SSL → Z → option bytes * SSL) (SSL_write : SSL → bytes → Z * SSL).
Context `{!SslLaws SSL_read SSL_write}.
Context (junk : nat → byte).

Lemma tls_read_loop_ok fuel : ∀ ssl got bs rest,
  (length bs ≤ fuel)%nat → zlen bs < 2 ^ 64 → ssl_in ssl = bs ++ rest →
  ∃ ssl', tls_read_loop SSL_read fuel ssl got (zlen bs) = Ret (true, got ++ bs, ssl') ∧
          ssl_in ssl' = rest.
Proof.
  induction fuel as [|fuel IH]; intros ssl got bs rest Hf Hl Hin.
  { destruct bs; [|simpl in Hf; lia]. exists ssl. simpl. by rewrite app_nil_r. }
  destruct bs as [|b bs']. { exists ssl. simpl. by rewrite app_nil_r. }
  set (bs := b :: bs') in *. cbn [tls_read_loop]. pose proof (nonempty_zlen bs ltac:(done)).
  rewrite (proj2 (Z.ltb_lt 0 (zlen bs))) by lia.
  destruct (ssl_read_ok ssl (Z.min INT_MAX (zlen bs))) as (r & ssl1 & E & Hne & Hle & Hsplit).
  { unfold INT_MAX. lia. } { by rewrite Hin. }
  pose proof (nonempty_zlen r Hne). rewrite E.
  assert (bs = r ++ zdrop (zlen r) bs) as Hbs.
  { rewrite <- (ztake_zdrop (zlen r) bs) at 1. f_equal.
    rewrite <- (ztake_app_le (zlen r) bs rest) by lia. rewrite <- Hin, Hsplit.
    rewrite ztake_app_le, ztake_all by lia. done. }
  assert (zlen (zdrop (zlen r) bs) = zlen bs - zlen r) as Hz by (apply zlen_zdrop; lia).
  rewrite u64_small by lia. rewrite <- Hz.
  destruct (IH ssl1 (got ++ r) (zdrop (zlen r) bs) rest) as (ssl' & E' & Hr); [lia..| |].
  { apply (app_inv_head r). rewrite <- Hsplit, Hin, app_assoc. by rewrite <- Hbs. }
  exists ssl'. rewrite E', <- app_assoc, <- Hbs. done.
Qed.

Lemma tls_write_loop_ok fuel : ∀ ssl data,
  (length data ≤ fuel)%nat → ssl_up ssl →
  ∃ ssl', tls_write_loop SSL_write fuel ssl data = Ret (true, ssl') ∧ ssl_up ssl' ∧
          ssl_out ssl' = ssl_out ssl ++ data.
Proof.
  induction fuel as [|fuel IH]; intros ssl data Hf Hup.
  { destruct data; [|simpl in Hf; lia]. exists ssl. simpl. by rewrite app_nil_r. }
  cbn [tls_write_loop]. case_bool_decide as Hd; [subst; exists ssl; by rewrite app_nil_r|].
  pose proof (nonempty_zlen data Hd).
  assert (zlen (ztake INT_MAX data) ≤ zlen data) by (unfold ztake; rewrite length_take; lia).
  destruct (ssl_write_ok ssl (ztake INT_MAX data)) as (k & ssl1 & E & Hk & Hup1 & Ho); [|done|].
  { unfold ztake, INT_MAX. destruct data; [done|]. by destruct (Z.to_nat _) eqn:?; [lia|]. }
  rewrite E. zbool.
  assert (zlen (zdrop k data) = zlen data - k) by (apply zlen_zdrop; lia).
  destruct (IH ssl1 (zdrop k data)) as (ssl' & E' & Hup' & Ho'); [lia|done|].
  exists ssl'. rewrite E', Ho', Ho, <- app_assoc. split_and!; [done..|]. f_equal.
  rewrite ztake_ztake; [apply ztake_zdrop|]. unfold ztake in Hk. rewrite length_take in Hk. lia.
Qed.

(** The two directions of a connection, whether or not TLS is on. *)
Definition conn_in (c : FdConnection SSL) : bytes :=
  match tls_ c with
  | Some (Some s) => ssl_in s | Some None => [] | None => stream_data (fd_in c)
  end.

Definition conn_out (c : FdConnection SSL) : bytes :=
  match tls_ c with
  | Some (Some s) => ssl_out s | Some None => [] | None => o_written (fd_out c)
  end.

(** No write fails for a reason other than [EAGAIN]. *)
Definition conn_up (c : FdConnection SSL) : Prop :=
  match tls_ c with
  | Some (Some s) => ssl_up s | Some None => False
  | None => ∀ e, Reject e ∈ o_script (fd_out c) → e = EAGAIN
  end.

Lemma DispatchRead_app c bs rest :
  zlen bs < 2 ^ 64 → conn_in c = bs ++ rest →
  ∃ c', DispatchRead SSL_read c (zlen bs) = Ret (true, bs, c') ∧ conn_in c' = rest.
Proof.
  intros Hl Hin. unfold DispatchRead. destruct c as [i o [[s|]|]]; unfold conn_in in *; simpl in *.
  - destruct (Z.eqb_spec (zlen bs) 0).
    { destruct bs; [|simpl in *; lia]. by eexists. }
    unfold tls_ReadFully. zbool. mstep. rewrite Nat2Z.id.
    destruct (tls_read_loop_ok (length bs) s [] bs rest) as (s' & E & Hr); [lia|done..|].
    rewrite E. mstep. eexists. split; [done|]. done.
  - symmetry in Hin. apply app_eq_nil in Hin as [-> ->]. simpl. by eexists.
  - destruct (read_exactly_app i bs rest) as (fd' & E & Hr); [done..|]. rewrite E. mstep. by eexists.
Qed.

Lemma DispatchWrite_ok c buf :
  conn_up c →
  ∃ c', DispatchWrite SSL_write c buf = Ret (true, c') ∧ conn_up c' ∧ conn_out c' = conn_out c ++ buf.
Proof.
  intros Hup. unfold DispatchWrite. destruct c as [i o [[s|]|]]; unfold conn_up, conn_out in *; simpl in *; [|done|].
  - destruct (Z.eqb_spec (zlen buf) 0).
    { destruct buf; [|simpl in *; lia]. eexists. split; [done|]. simpl. by rewrite app_nil_r. }
    unfold tls_WriteFully. rewrite bool_decide_false by (intros ->; done). mstep.
    destruct (tls_write_loop_ok (length buf) s buf) as (s' & E & Hu & Ho); [lia|done|].
    rewrite E. mstep. by eexists.
  - destruct (write_exactly_ok o buf Hup) as (fd' & E & Hw). rewrite E. mstep.
    eexists. split; [done|]. simpl. split; [|done]. intros e He. apply Hup.
    exact (write_loop_script _ _ _ _ _ E _ He).
Qed.

(** A packet on the wire. *)
Definition packet_bytes (p : apacket) : bytes := amessage_bytes (msg p) ++ Block.content (payload p).

Lemma FdConnection_Write_ok c p :
  packet_wf p → conn_up c →
  ∃ c', FdConnection_Write SSL_write c p = Ret (true, c') ∧ conn_up c' ∧
        conn_out c' = conn_out c ++ packet_bytes p.
Proof.
  intros Hp Hup. pose proof (packet_payload p Hp) as (Hl & Hc & H0).
  destruct (DispatchWrite_ok c (amessage_bytes (msg p)) Hup) as (c1 & E1 & Hu1 & Ho1).
  unfold FdConnection_Write. rewrite E1. mstep. unfold packet_bytes. rewrite <- Hc.
  destruct (Z.eqb_spec (data_length (msg p)) 0) as [E|E]; mstep.
  - exists c1. rewrite E, ztake_0, app_nil_r. done.
  - zbool. destruct (DispatchWrite_ok c1 (ztake (data_length (msg p)) (default [] (Block.data_ (payload p)))) Hu1)
      as (c2 & E2 & Hu2 & Ho2).
    exists c2. rewrite E2, Ho2, Ho1, <- app_assoc. done.
Qed.

Lemma FdConnection_Read_ok c p rest :
  packet_wf p → data_length (msg p) ≤ MAX_PAYLOAD → conn_in c = packet_bytes p ++ rest →
  ∃ p' c', FdConnection_Read SSL_read junk c = Ret (Some p', c') ∧ conn_in c' = rest ∧
    packet_wf p' ∧ msg p' = msg p ∧ Block.content (payload p') = Block.content (payload p).
Proof.
  intros Hp Hmax Hin. pose proof Hp as (Hm & Hw & Hd). unfold packet_bytes in Hin. rewrite <- app_assoc in Hin.
  destruct (DispatchRead_app c (amessage_bytes (msg p)) (Block.content (payload p) ++ rest))
    as (c1 & E1 & Hin1); [done..|].
  unfold FdConnection_Read. change sizeof_amessage with (zlen (amessage_bytes (msg p))). rewrite E1. mstep.
  rewrite amessage_roundtrip by done. mstep. zbool.
  pose proof (block_content_len (payload p) Hw) as Hlen. unfold MAX_PAYLOAD in Hmax.
  destruct (DispatchRead_app c1 (Block.content (payload p)) rest) as (c2 & E2 & Hin2); [lia|done|].
  destruct (block_resize_write junk (Block.content (payload p))) as (b0 & b & Er & Hs & Ew & Hbw & Hbc & Hbs).
  rewrite Hlen, <- Hd in Er. rewrite Er. mstep. rewrite Hs, E2. mstep. rewrite Ew. mstep.
  do 2 eexists. split; [done|]. split; [done|]. split_and!; simpl; try done. split_and!; simpl; try done.
  by rewrite Hbs, Hlen.
Qed.

(** C11: a packet stamped by [send_packet] and written over a connection,
    plain or TLS, is read back by the peer with the same header and payload,
    passes the peer's [check_header], and leaves the stream at the next packet. *)
Theorem packet_roundtrip v p c1 :
  packet_wf p → data_length (msg p) ≤ MAX_PAYLOAD → conn_up c1 →
  ∃ p1 c1' wire, stamp_packet v p = Ret p1 ∧
    FdConnection_Write SSL_write c1 p1 = Ret (true, c1') ∧ conn_out c1' = conn_out c1 ++ wire ∧
    ∀ c2 rest, conn_in c2 = wire ++ rest →
    ∃ p2 c2', FdConnection_Read SSL_read junk c2 = Ret (Some p2, c2') ∧ conn_in c2' = rest ∧
      msg p2 = msg p1 ∧ command (msg p2) = command (msg p) ∧
      Block.content (payload p2) = Block.content (payload p) ∧
      check_header p2 MAX_PAYLOAD = true.
Proof.
  intros Hp Hmax Hup. destruct (stamp_packet_spec v p Hp) as (p1 & Es & Hp1 & Hpay & Hh & Hf & _).
  injection Hf as Hcmd _ _ Hdl.
  destruct (FdConnection_Write_ok c1 p1 Hp1 Hup) as (c1' & Ew & _ & Ho).
  exists p1, c1', (packet_bytes p1). split_and!; [done..|]. intros c2 rest Hin.
  destruct (FdConnection_Read_ok c2 p1 rest Hp1) as (p2 & c2' & Er & Hr & _ & Hm & Hc); [lia|done|].
  exists p2, c2'. rewrite Hm, Hc, Hpay. split_and!; try done.
  unfold check_header in *. rewrite Hm. apply andb_true_iff in Hh as [-> _]. rewrite Hdl. simpl.
  by apply Z.leb_le.
Qed.

(** reading a packet from a plain connection never goes wrong, whatever
    the peer sends: it either returns a packet that is exactly the next bytes of
    the stream, with a payload of at most [MAX_PAYLOAD] matching its header, or
    fails, and it fails only when the header or payload is cut short or the
    header announces too much. *)
Theorem FdConnection_Read_sound c :
  tls_ c = None →
  ∃ r c', FdConnection_Read SSL_read junk c = Ret (r, c') ∧
  match r with
  | Some p => packet_wf p ∧ data_length (msg p) ≤ MAX_PAYLOAD ∧ conn_in c = packet_bytes p ++ conn_in c'
  | None =>
      zlen (conn_in c) < 24 ∨
      ∃ m, amessage_of_bytes (ztake 24 (conn_in c)) = Some m ∧
           (MAX_PAYLOAD < data_length m ∨ zlen (conn_in c) < 24 + data_length m)
  end.
Proof.
  destruct c as [i o t]. cbn [tls_]. intros ->. unfold conn_in, FdConnection_Read, DispatchRead. cbn [fd_in fd_out tls_].
  destruct (read_exactly_spec i 24) as (i1 & E1 & Hi1); [lia|]. unfold sizeof_amessage. rewrite E1. mstep.
  destruct (Z.leb_spec 24 (zlen (stream_data i))) as [H24|H24]; mstep.
  2: { do 2 eexists. split; [done|]. by left. }
  specialize (Hi1 H24).
  destruct (amessage_decode (ztake 24 (stream_data i))) as (m & Em & Hm & Hb).
  { unfold ztake. rewrite length_take. lia. }
  rewrite Em. mstep. destruct (Z.ltb_spec MAX_PAYLOAD (data_length m)) as [Hgt|Hle].
  { do 2 eexists. split; [done|]. right. eauto. }
  assert (0 ≤ data_length m) as H0.
  { unfold amessage_wf, is_u32 in Hm. rewrite !Forall_cons in Hm. lia. }
  unfold MAX_PAYLOAD in Hle. set (n := data_length m) in *.
  set (src := ztake n (stream_data i1)).
  destruct (read_exactly_spec i1 n) as (i2 & E2 & Hi2); [lia|]. fold src in E2.
  destruct (Z.leb_spec n (zlen (stream_data i1))) as [Hn|Hn].
  - assert (zlen src = n) as Hsrc by (apply zlen_ztake; lia).
    destruct (block_resize_write junk src) as (b0 & b & Er & Hs & Ew & Hbw & Hbc & Hbs).
    rewrite Hsrc in Er, Hs. rewrite Er. mstep. cbn [fd_in fd_out tls_]. rewrite Hs, E2. mstep. rewrite Ew. mstep.
    do 2 eexists. split; [done|]. cbn [msg payload fd_in fd_out tls_]. split_and!.
    + split_and!; cbn [msg payload]; [done..|]. by rewrite Hbs, Hsrc.
    + unfold MAX_PAYLOAD. done.
    + unfold packet_bytes. cbn [msg payload]. rewrite Hb, Hbc, Hi2 by done. unfold src.
      by rewrite <- app_assoc, ztake_zdrop, Hi1, ztake_zdrop.
  - assert (zlen src ≤ n) as Hsrc by (unfold src, ztake; rewrite length_take; lia).
    destruct (block_resize_partial junk n src) as (b0 & b & Er & Hs & Ew); [lia|done|].
    rewrite Er. mstep. cbn [fd_in fd_out tls_]. rewrite Hs, E2. mstep. rewrite Ew. mstep.
    do 2 eexists. split; [done|]. right. exists m. split; [done|]. right.
    rewrite Hi1 in Hn. rewrite zlen_zdrop in Hn by lia. fold n. lia.
Qed.
End channel.

(** An in-memory session, to see that the laws can hold. *)
Definition mem_read (s : bytes * bytes) (n : Z) : option bytes * (bytes * bytes) :=
  if bool_decide (fst s = []) then (None, s) else (Some (ztake n (fst s)), (zdrop n (fst s), snd s)).
Definition mem_write (s : bytes * bytes) (p : bytes) : Z * (bytes * bytes) :=
  (zlen p, (fst s, snd s ++ p)).

#[refine] Instance mem_laws : SslLaws mem_read mem_write :=
  {| ssl_in := fst; ssl_out := snd; ssl_up _ := True |}.
Proof.
  - intros [i o] n Hn Hi. simpl in *. unfold mem_read. simpl. rewrite bool_decide_false by done.
    do 2 eexists. split; [done|]. simpl. rewrite ztake_zdrop. split_and!; try done.
    + unfold ztake. destruct i; [done|]. by destruct (Z.to_nat n) eqn:?; [lia|].
    + unfold ztake. rewrite length_take. lia.
  - intros [i o] p Hp _. do 2 eexists. split; [done|]. simpl. rewrite ztake_all by lia.
    pose proof (nonempty_zlen p Hp). split_and!; try done; lia.
Defined.

Definition hello_packet : apacket :=
  APacket (AMessage A_WRTE 1 2 5 0 0) (Block.mk (Some (str "hello")) 5 5).

Lemma hello_packet_wf : packet_wf hello_packet.
Proof.
  split_and!; [|by vm_compute..]. unfold amessage_wf, is_u32. repeat constructor; simpl; done.
Qed.

Lemma packet_roundtrip_witness :
  ∃ wire p2 c2', FdConnection_Read mem_read (λ _, Zbyte 0) (FdConn [] (Out [] []) (Some (Some (wire, [])))) =
      Ret (Some p2, c2') ∧ Block.content (payload p2) = str "hello".
Proof.
  destruct (packet_roundtrip mem_read mem_write (λ _, Zbyte 0) A_VERSION_MIN hello_packet
              (FdConn [] (Out [] []) (Some (Some ([], []))))) as (p1 & c1' & wire & _ & _ & _ & H).
  - apply hello_packet_wf.
  - by vm_compute.
  - done.
  - destruct (H (FdConn [] (Out [] []) (Some (Some (wire, [])))) []) as (p2 & c2' & Hr & _ & _ & _ & Hc & _).
    { unfold conn_in. simpl. by rewrite app_nil_r. }
    by exists wire, p2, c2'.
Defined.

Lemma FdConnection_Read_sound_witness :
  ∃ r c', FdConnection_Read mem_read (λ _, Zbyte 0)
            (FdConn [Data (str "CNXN"); Data (replicate 30 (Zbyte 255))] (Out [] []) None) = Ret (r, c').
Proof.
  destruct (FdConnection_Read_sound mem_read mem_write (λ _, Zbyte 0)
    (FdConn [Data (str "CNXN"); Data (replicate 30 (Zbyte 255))] (Out [] []) None) eq_refl)
    as (r & c' & E & _).
  by exists r, c'.
Defined.
