(* ===== verification/Nonblocking.v ===== *)
(** * [NonblockingFdConnection]: [adb/transport_fd.cpp]

    The connection is shared by the thread that executes [Run] and by the
    threads that call [Write] and [Stop].  [write_mutex_] makes [DispatchWrites]
    and [Write] atomic, so an execution is a sequence of the steps [label]
    below, in any interleaving the program counter of [Run] allows. *)

From S2P Require Import Prelude Types AdbIO Packets.
Local Open Scope Z_scope.

Module Nonblocking.

(** Where the [Run] thread is: not yet past [SetRunning(true)], before the poll
    set is built, in [adb_poll] with
    or without [POLLOUT] for the socket, handling the events that were returned,
    or gone with [*error]. *)
Inductive pc :=
| Boot
| Top
| Polling (pollout : bool)
| Got (out in_ wake : bool)
| Exited (error : string).

Record t := mk {
  running_ : bool;
  read_header_ : option amessage;
  read_buffer_ : IOVector.t;
  writable_ : bool;
  write_buffer_ : IOVector.t;
  fd_in : instream;              (* what the socket still delivers *)
  fd_out : outstream;            (* what it has taken *)
  wake_fd_ : nat;                (* wake-ups written and not yet read *)
  handled : list apacket;        (* calls of [transport_->HandleRead], in order *)
  run_pc : pc
}.

(** After [Start]; [running_] is only meaningful once [Run] or [Stop] wrote it. *)
Definition init (i : instream) (o : outstream) : t :=
  mk false None IOVector.empty_vec true IOVector.empty_vec i o 0 [] Boot.

Definition set_pc (c : t) (p : pc) : t :=
  mk (running_ c) (read_header_ c) (read_buffer_ c) (writable_ c) (write_buffer_ c)
     (fd_in c) (fd_out c) (wake_fd_ c) (handled c) p.

Definition set_write (c : t) (w : bool) (b : IOVector.t) (o : outstream) : t :=
  mk (running_ c) (read_header_ c) (read_buffer_ c) w b
     (fd_in c) o (wake_fd_ c) (handled c) (run_pc c).

Definition set_read (c : t) (h : option amessage) (b : IOVector.t) (i : instream)
    (d : list apacket) : t :=
  mk (running_ c) h b (writable_ c) (write_buffer_ c) i (fd_out c) (wake_fd_ c) d (run_pc c).

Definition WakeThread (c : t) : t :=
  mk (running_ c) (read_header_ c) (read_buffer_ c) (writable_ c) (write_buffer_ c)
     (fd_in c) (fd_out c) (S (wake_fd_ c)) (handled c) (run_pc c).

Inductive WriteResult := Error | Completed | TryAgain.

(** [adb_writev] takes a prefix of the concatenation of the segments. *)
Definition adb_writev (fd : outstream) (iovs : list bytes) : write_result * outstream :=
  adb_write fd (concat iovs).

Definition DispatchWrites (c : t) : outcome (WriteResult * t) :=
  _ ← check (negb (IOVector.empty (write_buffer_ c)));
  iovs ← IOVector.iovecs (write_buffer_ c);
  match adb_writev (fd_out c) iovs with
  | (WriteError EAGAIN, o) => Ret (TryAgain, set_write c false (write_buffer_ c) o)
  | (WriteError _, o) => Ret (Error, set_write c (writable_ c) (write_buffer_ c) o)
  | (Wrote rc, o) =>
      if rc =? 0 then Ret (Error, set_write c (writable_ c) (write_buffer_ c) o)
      else
        b ← IOVector.drop_front (write_buffer_ c) rc;
        Ret (if IOVector.empty b then Completed else TryAgain,
             set_write c (IOVector.empty b) b o)
  end.

Section fresh_memory.
Context (junk : nat → byte).

Definition Write (c : t) (p : apacket) : outcome (bool * t) :=
  header_block ← Block.of_range junk (amessage_bytes (msg p));
  let b := IOVector.append (write_buffer_ c) header_block in
  let b := if negb (Block.size_ (payload p) =? 0) then IOVector.append b (payload p) else b in
  '(result, c) ← DispatchWrites (set_write c (writable_ c) b (fd_out c));
  match result with
  | Error => Ret (false, c)
  | Completed => Ret (true, c)
  | TryAgain => Ret (true, WakeThread c)
  end.

(** Extracting the header, when none is pending and there are enough bytes. *)
Definition take_header (h : option amessage) (b : IOVector.t)
  : outcome (option amessage * IOVector.t) :=
  match h with
  | Some _ => Ret (h, b)
  | None =>
      if sizeof_amessage <=? IOVector.size b then
        '(front, b) ← IOVector.take_front junk b sizeof_amessage;
        '(header_buf, _) ← IOVector.coalesce_rvalue junk front;
        _ ← check (Block.size_ header_buf =? sizeof_amessage);
        m ← deref (amessage_of_bytes (Block.content header_buf));
        Ret (Some m, b)
      else Ret (None, b)
  end.

(** Delivering the packet whose header is pending, when its payload is there. *)
Definition take_packet (h : option amessage) (b : IOVector.t) (d : list apacket)
  : outcome (option amessage * IOVector.t * list apacket) :=
  match h with
  | Some m =>
      if data_length m <=? IOVector.size b then
        '(data_chain, b) ← IOVector.take_front junk b (data_length m);
        '(pay, _) ← IOVector.coalesce_rvalue junk data_chain;
        Ret (None, b, d ++ [APacket m pay])
      else Ret (h, b, d)
  | None => Ret (h, b, d)
  end.

(** The [POLLIN] branch of [Run]; [Some error] when it returns. *)
Definition on_pollin (c : t) : outcome (option string * t) :=
  block ← Block.of_size junk MAX_PAYLOAD;
  match adb_read (fd_in c) (Block.size_ block) with
  | (ReadError _, i) => Ret (Some "read failed: "%string, set_read c (read_header_ c) (read_buffer_ c) i (handled c))
  | (ReadBytes bs, i) =>
      block ← Block.write_at block 0 bs;
      if zlen bs =? 0 then
        Ret (Some "read failed: EOF"%string, set_read c (read_header_ c) (read_buffer_ c) i (handled c))
      else
        block ← Block.resize junk block (zlen bs);
        let b := IOVector.append (read_buffer_ c) block in
        '(h, b) ← take_header (read_header_ c) b;
        '(h, b, d) ← take_packet h b (handled c);
        Ret (None, set_read c h b i d)
  end.

Inductive label :=
| LBoot                               (* [Run] starts *)
| LPrep                               (* [Run] builds the poll set *)
| LPoll (out in_ wake : bool)         (* [adb_poll] returns these events *)
| LOut                                (* [Run] handles [POLLOUT] *)
| LIn                                 (* [Run] handles [POLLIN] *)
| LWake                               (* [Run] drains the wake descriptor *)
| LNext                               (* [Run] goes back to the loop test *)
| LWrite (p : apacket)                (* another thread calls [Write] *)
| LStop.                              (* another thread calls [Stop] *)

(** One step; [None] when the label is not enabled. *)
Definition step (c : t) (l : label) : option (outcome t) :=
  match l, run_pc c with
  | LBoot, Boot =>
      Some (Ret (mk true (read_header_ c) (read_buffer_ c) (writable_ c) (write_buffer_ c)
                    (fd_in c) (fd_out c) (wake_fd_ c) (handled c) Top))
  | LPrep, Top =>
      Some (Ret (set_pc c (if running_ c then Polling (negb (writable_ c))
                           else Exited "connection closed")))
  | LPoll out in_ wake, Polling pollout =>
      if (implb out pollout) && (out || in_ || wake) && implb wake (0 <? wake_fd_ c)%nat
      then Some (Ret (set_pc c (Got out in_ wake))) else None
  | LOut, Got true in_ wake =>
      Some ('(r, c) ← DispatchWrites c;
            Ret (match r with
                 | Error => set_pc c (Exited "write failed")
                 | _ => set_pc c (Got false in_ wake)
                 end))
  | LIn, Got false true wake =>
      Some ('(e, c) ← on_pollin c;
            Ret (match e with
                 | Some error => set_pc c (Exited error)
                 | None => set_pc c (Got false false wake)
                 end))
  | LWake, Got false false true =>
      Some (Ret (mk (running_ c) (read_header_ c) (read_buffer_ c) (writable_ c)
                    (write_buffer_ c) (fd_in c) (fd_out c) (pred (wake_fd_ c))
                    (handled c) (Got false false false)))
  | LNext, Got false false false => Some (Ret (set_pc c Top))
  | LWrite p, _ => Some ('(_, c) ← Write c p; Ret c)
  | LStop, _ =>
      Some (Ret (WakeThread (mk false (read_header_ c) (read_buffer_ c) (writable_ c)
                    (write_buffer_ c) (fd_in c) (fd_out c) (wake_fd_ c) (handled c) (run_pc c))))
  | _, _ => None
  end.

(** Executing a sequence of steps; [None] if one of them is not enabled. *)
Fixpoint run (c : t) (ls : list label) : option (outcome t) :=
  match ls with
  | [] => Some (Ret c)
  | l :: ls =>
      match step c l with
      | None => None
      | Some (Ret c') => run c' ls
      | Some r => Some r
      end
  end.

End fresh_memory.
End Nonblocking.
