(* ===== verification/NonblockingFacts.v ===== *)
(** * Properties of [NonblockingFdConnection]

    Over every interleaving of the [Run] thread with [Write] and [Stop]: both
    byte streams are preserved, and pending output is polled for.  Three traces
    show where the class falls short: a complete packet that is not delivered, a
    [CHECK] that a concurrent [Write] makes fail, and a [Stop] that is lost. *)

From S2P Require Import Prelude Types TypesFacts AdbIO AdbIOFacts Packets PacketsFacts.
From S2P Require Import Nonblocking.
Local Open Scope Z_scope.

Module NB.
Import Nonblocking.

(** ** Output *)

(** The bytes a list of steps asks to be written. *)
Fixpoint requested (ls : list label) : bytes :=
  match ls with
  | [] => []
  | LWrite p :: ls => packet_bytes p ++ requested ls
  | _ :: ls => requested ls
  end.

Definition out_inv (c : t) (sent : bytes) : Prop :=
  IOVector.wf (write_buffer_ c) ∧ IOVector.chain_length_ (write_buffer_ c) ≤ zlen sent ∧
  o_written (fd_out c) ++ IOVector.contents (write_buffer_ c) = sent.

(** [adb_write] sends a prefix. *)
Lemma adb_write_prefix fd p :
  match adb_write fd p with
  | (Wrote n, fd') => 0 ≤ n ≤ zlen p ∧ n < 2 ^ 32 ∧ o_written fd' = o_written fd ++ ztake n p
  | (WriteError _, fd') => o_written fd' = o_written fd
  end.
Proof.
  unfold adb_write, MAX_RW_COUNT. destruct (o_script fd) as [|[n|e] rest]; simpl; repeat split; try done; lia.
Qed.

Lemma DispatchWrites_spec c sent :
  out_inv c sent →
  if IOVector.empty (write_buffer_ c) then DispatchWrites c = Abort
  else ∃ r w b o, DispatchWrites c = Ret (r, set_write c w b o) ∧ out_inv (set_write c w b o) sent ∧
    (r ≠ Error → IOVector.contents b ≠ [] → w = false).
Proof.
  intros (Hw & Hl & Hs). unfold DispatchWrites. destruct (IOVector.empty (write_buffer_ c)) eqn:Ee; [done|].
  mstep. destruct (IOV.iterate_spec _ Hw) as (segs & Ei & Hc & _). unfold IOVector.iovecs. rewrite Ei. mstep.
  unfold adb_writev. rewrite Hc. pose proof (adb_write_prefix (fd_out c) (IOVector.contents (write_buffer_ c))) as Hp.
  destruct (adb_write _ _) as [[n|e] o].
  - destruct Hp as (Hn & H32 & Ho). destruct (Z.eqb_spec n 0) as [->|Hne].
    + do 4 eexists. split; [done|]. split; [|done].
      split_and!; simpl; [done|done|]. by rewrite Ho, ztake_0, app_nil_r.
    + destruct (drop_front_spec _ n Hw ltac:(lia) H32) as (b & Eb & Hb & Hbc & Hbl). rewrite Eb. mstep.
      do 4 eexists. split; [done|]. split.
      * split_and!; simpl; [done|lia|]. by rewrite Ho, Hbc, <- app_assoc, ztake_zdrop.
      * intros _ Hne'. rewrite empty_contents by done. by apply bool_decide_eq_false.
  - destruct e; (do 4 eexists; split; [done|]; split; [|done]; split_and!; simpl; [done|done|by rewrite Hp]).
Qed.

(** The buffer once [Write] has queued the header and the payload. *)
Lemma Write_dispatch_inv junk c p hb sent :
  out_inv c sent → Block.wf (payload p) → zlen sent + zlen (packet_bytes p) < 2 ^ 63 →
  Block.of_range junk (amessage_bytes (msg p)) = Ret hb →
  let b1 := IOVector.append (write_buffer_ c) hb in
  let b2 := if negb (Block.size_ (payload p) =? 0) then IOVector.append b1 (payload p) else b1 in
  out_inv (set_write c (writable_ c) b2 (fd_out c)) (sent ++ packet_bytes p) ∧
  IOVector.contents b2 ≠ [].
Proof.
  intros (Hw & Hl & Hs) Hp Hm Eh b1 b2. unfold packet_bytes in *. rewrite length_app, length_amessage_bytes in Hm.
  pose proof (block_content_len _ Hp) as Hlp.
  destruct (block_of_range junk (amessage_bytes (msg p))) as (hb' & Eh' & Whb & Chb & Shb).
  assert (hb' = hb) as -> by congruence. rewrite length_amessage_bytes in Shb.
  destruct (IOV.append_spec (write_buffer_ c) hb) as (W1 & C1 & L1); [done..|lia|]. fold b1 in W1, C1, L1.
  assert (IOVector.wf b2 ∧ IOVector.contents b2 = IOVector.contents (write_buffer_ c) ++ packet_bytes p ∧
          IOVector.chain_length_ b2 = IOVector.chain_length_ (write_buffer_ c) + 24 + Block.size_ (payload p))
    as (W2 & C2 & L2).
  { unfold b2, packet_bytes. destruct (Z.eqb_spec (Block.size_ (payload p)) 0) as [E|E]; mstep.
    - assert (Block.content (payload p) = []) as -> by (destruct (Block.content _); simpl in *; [done|lia]).
      rewrite app_nil_r. split_and!; [done|by rewrite C1, Chb|lia].
    - destruct (IOV.append_spec b1 (payload p)) as (? & C & L); [done..|lia|].
      split_and!; [done|by rewrite C, C1, Chb, app_assoc|lia]. }
  split; [|by rewrite C2; intros [_ ?]%app_eq_nil].
  split_and!; cbn [write_buffer_ set_write fd_out]; [done| |].
  - rewrite L2, !length_app, length_amessage_bytes. lia.
  - rewrite C2. unfold packet_bytes. by rewrite app_assoc, Hs.
Qed.

Lemma Write_spec junk c p sent :
  out_inv c sent → Block.wf (payload p) → zlen sent + zlen (packet_bytes p) < 2 ^ 63 →
  ∃ ok c', Write junk c p = Ret (ok, c') ∧ out_inv c' (sent ++ packet_bytes p) ∧
    (read_header_ c', read_buffer_ c', fd_in c', handled c', run_pc c', running_ c') =
    (read_header_ c, read_buffer_ c, fd_in c, handled c, run_pc c, running_ c).
Proof.
  intros Ho Hp Hm. unfold Write.
  destruct (block_of_range junk (amessage_bytes (msg p))) as (hb & Eh & _).
  destruct (Write_dispatch_inv junk c p hb sent Ho Hp Hm Eh) as [Ho' Hne]. rewrite Eh. mstep.
  set (b2 := if negb _ then _ else _) in *.
  pose proof (DispatchWrites_spec _ _ Ho') as Hd. simpl in Hd. pose proof Ho' as (W2 & _ & _). simpl in W2.
  rewrite empty_contents, bool_decide_false in Hd by done.
  destruct Hd as (r & w & b & o & E & Hinv & _). rewrite E. mstep.
  destruct r; (do 2 eexists; split; [done|]; split; [exact Hinv|done]).
Qed.

(** ** Input *)

(** A fresh block of size [n], filled and cut to what was read. *)
Lemma block_fill junk n src :
  src ≠ [] → zlen src ≤ n →
  ∃ b0 b1 b2, Block.allocate junk Block.default n = Ret b0 ∧ Block.write_at b0 0 src = Ret b1 ∧
    Block.resize junk b1 (zlen src) = Ret b2 ∧ Block.wf b2 ∧ Block.content b2 = src.
Proof.
  intros Hne Hn. pose proof (nonempty_zlen src Hne). unfold Block.allocate, Block.write_at. simpl.
  zbool. mstep. do 3 eexists. split; [done|]. simpl.
  rewrite memcpy_fit by (rewrite ?zlen_new_array; lia). mstep. split; [done|].
  unfold Block.resize. simpl. zbool. mstep. split; [done|].
  unfold Block.wf, Block.content. simpl.
  rewrite ztake_app_le, ztake_all, length_app, Nat2Z.inj_add, zlen_zdrop, zlen_new_array by (rewrite ?zlen_new_array; lia).
  split_and!; try done; lia.
Qed.


Definition header_bytes (h : option amessage) : bytes :=
  match h with Some m => amessage_bytes m | None => [] end.

(** Delivered packets, the pending header and the buffer are, in this order, a
    prefix of the stream; while the connection reads, the rest is still to come. *)
Definition in_inv (stream : bytes) (live : bool) (h : option amessage) (b : IOVector.t)
    (i : instream) (d : list apacket) : Prop :=
  IOVector.wf b ∧ Forall packet_wf d ∧ (∀ m, h = Some m → amessage_wf m) ∧
  ∃ rest, concat (packet_bytes <$> d) ++ header_bytes h ++ IOVector.contents b ++ rest = stream ∧
    IOVector.chain_length_ b + zlen rest ≤ zlen stream ∧
    (live = true → rest = stream_data i).

Lemma take_header_spec junk stream i h b d :
  in_inv stream true h b i d →
  ∃ h' b', take_header junk h b = Ret (h', b') ∧ in_inv stream true h' b' i d.
Proof.
  intros H. destruct h as [m|]; [by eexists _, _|]. cbn [take_header].
  destruct H as (Hw & Hd & Hh & rest & Hs & Hl & Hr). rewrite IOV.size_contents by done. unfold sizeof_amessage.
  destruct (Z.leb_spec 24 (zlen (IOVector.contents b))) as [Hle|Hgt].
  2: { do 2 eexists. split; [done|]. split_and!; try done. by exists rest. }
  pose proof (take_front_spec junk b 24 Hw ltac:(lia)) as Ht. rewrite (proj2 (Z.leb_le _ _)) in Ht by lia.
  destruct Ht as (front & b' & Et & Wf & Wb & Cf & Cb & Lb). rewrite Et. mstep.
  destruct (coalesce_rvalue_spec junk front Wf) as (blk & ? & Ec & Wblk & Cblk). rewrite Ec. mstep.
  assert (zlen (Block.content blk) = 24) as Hlen by (rewrite Cblk, Cf; apply zlen_ztake; lia).
  pose proof (block_content_len blk Wblk) as Hsz. rewrite <- Hsz, Hlen. mstep.
  destruct (amessage_decode (Block.content blk)) as (m & Em & Hm & Hb); [lia|]. change (24 =? 24) with true. mstep.
  rewrite Em. mstep. do 2 eexists. split; [done|]. split_and!; [done..|intros ? [= <-]; done|].
  exists rest. split_and!; [|lia|done]. rewrite <- Hs. cbn [header_bytes].
  rewrite Hb, Cblk, Cf, Cb. f_equal. rewrite app_nil_l, (app_assoc (ztake _ _)), ztake_zdrop. done.
Qed.

Lemma take_packet_spec junk stream i h b d :
  in_inv stream true h b i d →
  ∃ h' b' d', take_packet junk h b d = Ret (h', b', d') ∧ in_inv stream true h' b' i d'.
Proof.
  intros H. destruct h as [m|]; [|by eexists _, _, _]. cbn [take_packet].
  destruct H as (Hw & Hd & Hh & rest & Hs & Hl & Hr). pose proof (Hh m eq_refl) as Hm.
  rewrite IOV.size_contents by done.
  assert (0 ≤ data_length m) as H0.
  { unfold amessage_wf, is_u32 in Hm. rewrite !Forall_cons in Hm. lia. }
  destruct (Z.leb_spec (data_length m) (zlen (IOVector.contents b))) as [Hle|Hgt].
  2: { do 3 eexists. split; [done|]. split_and!; try done. by exists rest. }
  pose proof (take_front_spec junk b _ Hw H0) as Ht. rewrite (proj2 (Z.leb_le _ _)) in Ht by lia.
  destruct Ht as (front & b' & Et & Wf & Wb & Cf & Cb & Lb). rewrite Et. mstep.
  destruct (coalesce_rvalue_spec junk front Wf) as (blk & ? & Ec & Wblk & Cblk). rewrite Ec. mstep.
  pose proof (block_content_len blk Wblk) as Hsz. rewrite Cblk, Cf, zlen_ztake in Hsz by lia.
  do 3 eexists. split; [done|]. split_and!; [done| |done|].
  - apply Forall_app. split; [done|]. apply Forall_singleton. by split_and!.
  - exists rest. split_and!; [|lia|done]. rewrite <- Hs. cbn [header_bytes].
    rewrite fmap_app, concat_app, <- app_assoc. f_equal. simpl fmap. cbn [concat].
    unfold packet_bytes. cbn [msg payload]. rewrite Cblk, Cf, Cb, app_nil_r, app_nil_l, <- !app_assoc. f_equal.
    rewrite (app_assoc (ztake _ _)), ztake_zdrop. done.
Qed.

Lemma on_pollin_spec junk stream c :
  in_inv stream true (read_header_ c) (read_buffer_ c) (fd_in c) (handled c) → zlen stream < 2 ^ 63 →
  ∃ e h b i d, on_pollin junk c = Ret (e, set_read c h b i d) ∧
    in_inv stream (match e with Some _ => false | None => true end) h b i d.
Proof.
  intros H Hm. unfold on_pollin.
  destruct (block_resize_partial junk MAX_PAYLOAD []) as (blk & _ & E & Hs & _); [by unfold MAX_PAYLOAD|by unfold MAX_PAYLOAD|].
  unfold Block.resize in E. simpl in E. unfold Block.of_size. rewrite E. mstep. rewrite Hs.
  pose proof (adb_read_stream (fd_in c) MAX_PAYLOAD ltac:(by unfold MAX_PAYLOAD)) as Hr.
  pose proof H as (Hw & Hd & Hh & rest & Hst & Hl & Hrest). specialize (Hrest eq_refl).
  destruct (adb_read (fd_in c) MAX_PAYLOAD) as [[[|b0 bs]|e] i] eqn:Er.
  - destruct (block_resize_partial junk MAX_PAYLOAD []) as (blk' & blk2 & E' & _ & Ew); [by unfold MAX_PAYLOAD|by unfold MAX_PAYLOAD|].
    assert (blk' = blk) as -> by (unfold Block.resize in E'; simpl in E'; congruence).
    rewrite Ew. mstep. do 5 eexists. split; [done|]. split_and!; try done. by exists rest.
  - destruct Hr as [Hsd Hle]. set (bs' := b0 :: bs) in *.
    destruct (block_fill junk MAX_PAYLOAD bs') as (blk' & blk2 & blk3 & E' & Ew & Ers & W3 & C3); [done|done|].
    assert (blk' = blk) as -> by congruence.
    rewrite Ew. mstep. rewrite (proj2 (Z.eqb_neq (zlen bs') 0)) by (simpl; lia). rewrite Ers. mstep.
    pose proof (block_content_len blk3 W3) as Hl3. rewrite C3 in Hl3.
    assert (zlen rest = zlen bs' + zlen (stream_data i)) as Hrl by (rewrite Hrest, Hsd, length_app; lia).
    destruct (IOV.append_spec (read_buffer_ c) blk3) as (Wa & Ca & La); [done..|lia|].
    destruct (take_header_spec junk stream i (read_header_ c) (IOVector.append (read_buffer_ c) blk3) (handled c))
      as (h & b & Et & Hi).
    { split_and!; try done. exists (stream_data i). split_and!; [|lia|done].
      rewrite <- Hst, Ca, C3, Hrest, Hsd. by rewrite <- !app_assoc. }
    rewrite Et. mstep.
    destruct (take_packet_spec junk stream i h b (handled c)) as (h' & b' & d' & Ep & Hi'); [done|].
    rewrite Ep. mstep. do 5 eexists. split; [done|]. exact Hi'.
  - do 5 eexists. split; [done|]. split_and!; try done. by exists rest.
Qed.

(** ** Executions *)

Definition live (c : t) : bool := match run_pc c with Exited _ => false | _ => true end.

Definition inv (stream sent : bytes) (c : t) : Prop :=
  out_inv c sent ∧
  in_inv stream (live c) (read_header_ c) (read_buffer_ c) (fd_in c) (handled c).

(** What a caller of [Write] must provide. *)
Definition label_ok (l : label) : Prop :=
  match l with LWrite p => Block.wf (payload p) | _ => True end.

Lemma in_inv_weaken stream (l l' : bool) h b i d :
  implb l' l = true → in_inv stream l h b i d → in_inv stream l' h b i d.
Proof.
  intros Hl (? & ? & ? & rest & ? & ? & Hr). split_and!; try done. exists rest. split_and!; try done.
  intros ->. destruct l; [by apply Hr|done].
Qed.

Lemma inv_set_pc stream sent c p :
  implb (match p with Exited _ => false | _ => true end) (live c) = true →
  inv stream sent c → inv stream sent (set_pc c p).
Proof. intros Hl [Ho Hi]. split; [exact Ho|]. exact (in_inv_weaken _ _ _ _ _ _ _ Hl Hi). Qed.

Lemma step_write junk c p : step junk c (LWrite p) = Some ('(_, c) ← Write junk c p; Ret c).
Proof. unfold step. by destruct (run_pc c). Qed.

Lemma step_stop junk c :
  step junk c LStop =
    Some (Ret (WakeThread (mk false (read_header_ c) (read_buffer_ c) (writable_ c)
                 (write_buffer_ c) (fd_in c) (fd_out c) (wake_fd_ c) (handled c) (run_pc c)))).
Proof. unfold step. by destruct (run_pc c). Qed.

Lemma step_spec junk stream sent c l r :
  inv stream sent c → label_ok l → zlen stream < 2 ^ 63 →
  zlen sent + zlen (requested [l]) < 2 ^ 63 → step junk c l = Some r →
  match r with
  | Ret c' => inv stream (sent ++ requested [l]) c'
  | Abort => l = LOut ∧ IOVector.contents (write_buffer_ c) = []
  | _ => False
  end.
Proof.
  intros Hinv Hok Hst Hse Hstep. pose proof Hinv as [Ho Hi].
  assert ((∃ p, l = LWrite p) ∨ l = LStop ∨ (requested [l] = [] ∧ ∀ p, l ≠ LWrite p ∧ l ≠ LStop))
    as [[p ->]|[->|[Hnil Hl]]] by (destruct l; eauto 8; right; right; done).
  { rewrite step_write in Hstep. injection Hstep as <-. cbn [requested] in *. rewrite app_nil_r in *.
    destruct (Write_spec junk c p sent Ho Hok Hse) as (ok & c' & E & Ho' & Hf). rewrite E. mstep.
    injection Hf as E1 E2 E3 E4 E5 _. split; [done|]. unfold live. rewrite E1, E2, E3, E4, E5. exact Hi. }
  { rewrite step_stop in Hstep. injection Hstep as <-. cbn [requested] in *. rewrite app_nil_r. done. }
  rewrite Hnil in *. rewrite app_nil_r. clear Hnil.
  destruct l; try (by destruct (Hl (APacket (AMessage 0 0 0 0 0 0) Block.default))); try (by destruct (Hl p));
    clear Hl; unfold step in Hstep; destruct (run_pc c) eqn:Epc; try discriminate Hstep.
  - injection Hstep as <-. split; [exact Ho|]. unfold live in Hi. by rewrite Epc in Hi.
  - injection Hstep as <-. apply inv_set_pc; [|done]. unfold live. rewrite Epc. by destruct (running_ c).
  - destruct (_ && _); [|done]. injection Hstep as <-. apply inv_set_pc; [|done]. unfold live. by rewrite Epc.
  - destruct out; [|done]. injection Hstep as <-. pose proof (DispatchWrites_spec c sent Ho) as Hd.
    destruct (IOVector.empty (write_buffer_ c)) eqn:Ee.
    { rewrite Hd. split; [done|]. destruct Ho as [Hw _]. rewrite empty_contents in Ee by done.
      by apply bool_decide_eq_true in Ee. }
    destruct Hd as (r & w & b & o & E & Ho' & _). rewrite E. mstep.
    assert (inv stream sent (set_write c w b o)) as Hi' by (split; [exact Ho'|exact Hi]).
    destruct r; apply inv_set_pc; try done; unfold live; simpl; by rewrite Epc.
  - destruct out, in_; try done. injection Hstep as <-. unfold live in Hi. rewrite Epc in Hi.
    destruct (on_pollin_spec junk stream c) as (e & h & b & i & d & E & Hi'); [done..|].
    rewrite E. mstep. destruct e as [e|]; (split; [exact Ho|exact Hi']).
  - destruct out, in_, wake; try done. injection Hstep as <-. split; [exact Ho|].
    unfold live in *. simpl. by rewrite Epc in Hi.
  - destruct out, in_, wake; try done. injection Hstep as <-. apply inv_set_pc; [|done]. unfold live. by rewrite Epc.
Qed.

Lemma requested_cons l ls : requested (l :: ls) = requested [l] ++ requested ls.
Proof. destruct l; try done. cbn [requested]. by rewrite app_nil_r. Qed.

Lemma run_spec junk stream ls : ∀ sent c r,
  inv stream sent c → Forall label_ok ls → zlen stream < 2 ^ 63 →
  zlen sent + zlen (requested ls) < 2 ^ 63 → run junk c ls = Some r →
  match r with
  | Ret c' => inv stream (sent ++ requested ls) c'
  | Abort => LOut ∈ ls
  | _ => False
  end.
Proof.
  induction ls as [|l ls IH]; intros sent c r Hinv Hok Hst Hse Hrun.
  { injection Hrun as <-. by rewrite app_nil_r. }
  apply Forall_cons in Hok as [Hl Hok]. rewrite requested_cons, length_app in Hse. cbn [run] in Hrun.
  destruct (step junk c l) as [r0|] eqn:Es; [|done].
  pose proof (step_spec junk stream sent c l r0 Hinv Hl Hst ltac:(lia) Es) as Hs.
  destruct r0 as [c'| | |]; [|injection Hrun as <-; destruct Hs as [-> _]; left|done..].
  apply (IH _ _ _ Hs Hok Hst) in Hrun; [|rewrite length_app; lia].
  rewrite requested_cons, app_assoc. destruct r; try done. by right.
Qed.

Lemma streams_inv_init i script : inv (stream_data i) [] (init i (Out [] script)).
Proof.
  destruct IOV.contents_empty as [We Ce].
  split; [by split_and!|]. split_and!; [done|done|done|].
  exists (stream_data i). split_and!; [done|simpl; lia|done].
Qed.

(** C9: under every interleaving of [Run] with [Write] and [Stop], every
    fragmentation of the input and every partial write, both directions are
    faithful: what the socket took and what is still buffered is, in order, what
    [Write] was given; the packets handed to the transport, the pending header
    and the read buffer are a prefix of what the peer sent, with nothing lost
    while the connection is alive.  The only failure is the [CHECK] in
    [DispatchWrites]. *)
Theorem nonblocking_streams junk i script ls r :
  Forall label_ok ls → zlen (stream_data i) < 2 ^ 63 → zlen (requested ls) < 2 ^ 63 →
  run junk (init i (Out [] script)) ls = Some r →
  match r with
  | Ret c =>
      o_written (fd_out c) ++ IOVector.contents (write_buffer_ c) = requested ls ∧
      Forall packet_wf (handled c) ∧
      let got := concat (packet_bytes <$> handled c) ++ header_bytes (read_header_ c) ++
                 IOVector.contents (read_buffer_ c) in
      got `prefix_of` stream_data i ∧ (live c = true → got ++ stream_data (fd_in c) = stream_data i)
  | Abort => LOut ∈ ls
  | _ => False
  end.
Proof.
  intros Hok Hst Hse Hrun. pose proof (run_spec junk _ ls [] _ r (streams_inv_init i script) Hok Hst Hse Hrun) as H.
  destruct r as [c| | |]; try done. destruct H as [(_ & _ & Ho) (_ & Hd & _ & rest & Hs & _ & Hr)].
  split; [done|]. split; [done|]. cbv zeta. split.
  - exists rest. by rewrite <- Hs, <- !app_assoc.
  - intros Hl. rewrite <- (Hr Hl), <- Hs. by rewrite <- !app_assoc.
Qed.

Lemma nonblocking_streams_witness :
  ∃ c, run (λ _, Zbyte 0) (init [] (Out [] [Accept 3; Reject EAGAIN])) [LWrite hello_packet; LBoot; LPrep] = Some (Ret c) ∧
       o_written (fd_out c) ++ IOVector.contents (write_buffer_ c) = packet_bytes hello_packet.
Proof.
  destruct (run (λ _, Zbyte 0) (init [] (Out [] [Accept 3; Reject EAGAIN])) [LWrite hello_packet; LBoot; LPrep])
    as [[c| | |]|] eqn:E; try (vm_compute in E; discriminate E).
  exists c. split; [done|].
  destruct (nonblocking_streams (λ _, Zbyte 0) [] [Accept 3; Reject EAGAIN] [LWrite hello_packet; LBoot; LPrep]
    (Ret c)) as (H & _); [|done|by vm_compute|done|].
  - repeat constructor; vm_compute; done.
  - rewrite H. cbn [requested]. by rewrite app_nil_r.
Defined.

(** ** Polling for output *)

(** The socket never fails, only takes less than asked or nothing for now. *)
Definition soft (o : outstream) : Prop :=
  Forall (λ a, a = Reject EAGAIN ∨ ∃ n, a = Accept n ∧ 0 < n) (o_script o).

Lemma adb_write_soft fd p :
  soft fd → p ≠ [] →
  soft (snd (adb_write fd p)) ∧
  ((∃ n, fst (adb_write fd p) = Wrote n ∧ n ≠ 0) ∨ fst (adb_write fd p) = WriteError EAGAIN).
Proof.
  unfold soft, adb_write, MAX_RW_COUNT. intros Hs Hp. pose proof (nonempty_zlen p Hp).
  destruct (o_script fd) as [|[n|e] rest]; simpl; [|apply Forall_cons in Hs as [[[=]|(k & [= <-] & ?)] Hs]|
    apply Forall_cons in Hs as [[[= ->]|(k & [=] & ?)] Hs]]; split; try done; eauto;
    left; eexists; (split; [done|lia]).
Qed.

Definition polled (c : t) : Prop :=
  soft (fd_out c) ∧ (IOVector.contents (write_buffer_ c) ≠ [] → writable_ c = false).

Lemma DispatchWrites_polled c sent r c' :
  out_inv c sent → soft (fd_out c) → DispatchWrites c = Ret (r, c') →
  polled c' ∧ r ≠ Error ∧ (r = Completed → IOVector.contents (write_buffer_ c') = []) ∧
  (run_pc c', wake_fd_ c', running_ c') = (run_pc c, wake_fd_ c, running_ c).
Proof.
  intros Hinv Hs E. pose proof (DispatchWrites_spec c sent Hinv) as Hd.
  destruct (IOVector.empty (write_buffer_ c)) eqn:Ee; [congruence|].
  destruct Hd as (r' & w & b & o & E' & (Wb & _) & Hw). rewrite E in E'. injection E' as <- ->.
  destruct Hinv as (Hwf & _). rewrite empty_contents in Ee by done. apply bool_decide_eq_false in Ee.
  destruct (adb_write_soft (fd_out c) _ Hs Ee) as [Hso Hor].
  unfold DispatchWrites in E. apply bind_ret_inv in E as (u & _ & E).
  apply bind_ret_inv in E as (segs & Ei & E). unfold adb_writev in E.
  destruct (IOV.iterate_spec _ Hwf) as (segs' & Ei' & Hc & _). unfold IOVector.iovecs in Ei.
  rewrite Ei' in Ei. injection Ei as <-. rewrite Hc in E. simpl in Wb.
  destruct (adb_write _ _) as [[n|e] o'] eqn:Ew; simpl in Hso, Hor.
  - destruct Hor as [(? & [= <-] & Hn)|[=]]. rewrite (proj2 (Z.eqb_neq n 0)) in E by done.
    apply bind_ret_inv in E as (b' & _ & E). injection E as <- <- <- <-.
    rewrite empty_contents in * by done. simpl.
    split_and!; [split; [exact Hso|]| | |done]; simpl; case_bool_decide; done.
  - destruct Hor as [(? & [=] & _)|[= ->]]. injection E as <- <- <- <-.
    split_and!; [split; [exact Hso|done]|done..].
Qed.

(** A thread blocked in [adb_poll] without [POLLOUT] has a wake-up coming. *)
Definition pending_noticed (c : t) : Prop :=
  polled c ∧
  (run_pc c = Polling false → IOVector.contents (write_buffer_ c) ≠ [] → (0 < wake_fd_ c)%nat).

Lemma Write_polled junk c p sent ok c' :
  out_inv c sent → Block.wf (payload p) → zlen sent + zlen (packet_bytes p) < 2 ^ 63 →
  pending_noticed c → Write junk c p = Ret (ok, c') → pending_noticed c'.
Proof.
  intros Ho Hp Hm [[Hs _] _] E. destruct (Write_spec junk c p sent Ho Hp Hm) as (ok' & c0 & E0 & Ho' & _).
  rewrite E in E0. injection E0 as <- <-. unfold Write in E.
  apply bind_ret_inv in E as (hb & Eh & E). apply bind_ret_inv in E as ([r c1] & Ed & E). simpl in E.
  destruct (Write_dispatch_inv junk c p hb sent Ho Hp Hm Eh) as [Hinv _].
  destruct (DispatchWrites_polled _ _ _ _ Hinv Hs Ed) as (Hpol & Hne & Hcomp & _).
  destruct r; [done|injection E as <- <-..].
  - split; [done|]. intros _ []. by apply Hcomp.
  - split; [exact Hpol|]. intros _ _. simpl. lia.
Qed.

Lemma step_noticed junk stream sent c l c' :
  inv stream sent c → label_ok l → zlen sent + zlen (requested [l]) < 2 ^ 63 → zlen stream < 2 ^ 63 →
  pending_noticed c → step junk c l = Some (Ret c') → pending_noticed c'.
Proof.
  intros [Ho Hi] Hok Hse Hst Hn Hstep. pose proof Hn as [Hp Hw].
  destruct l; try (unfold step in Hstep; destruct (run_pc c) eqn:Epc; try discriminate Hstep; []).
  - injection Hstep as <-. done.
  - injection Hstep as <-. split; [exact Hp|]. simpl. intros Hpc Hc. destruct Hp as [_ Hp].
    rewrite (Hp Hc) in Hpc. by destruct (running_ c).
  - destruct (_ && _); [|done]. injection Hstep as <-. split; [exact Hp|done].
  - destruct out; [|done]. injection Hstep as Hstep. apply bind_ret_inv in Hstep as ([r c1] & Ed & E). simpl in E.
    destruct (DispatchWrites_polled _ _ _ _ Ho (proj1 Hp) Ed) as (Hp' & _).
    injection E as <-. destruct r; (split; [exact Hp'|done]).
  - destruct out, in_; try done. injection Hstep as Hstep. unfold live in Hi. rewrite Epc in Hi.
    destruct (on_pollin_spec junk stream c Hi Hst) as (e & h & b & i & d & E & _). rewrite E in Hstep.
    cbv [mbind outcome_bind] in Hstep. injection Hstep as <-. destruct e; (split; [exact Hp|done]).
  - destruct out, in_, wake; try done. injection Hstep as <-. split; [exact Hp|done].
  - destruct out, in_, wake; try done. injection Hstep as <-. split; [exact Hp|done].
  - rewrite step_write in Hstep. injection Hstep as Hstep.
    apply bind_ret_inv in Hstep as ([ok c1] & Ew & E). injection E as <-.
    cbn [requested] in Hse. rewrite app_nil_r in Hse. exact (Write_polled junk c p sent ok c1 Ho Hok Hse Hn Ew).
  - rewrite step_stop in Hstep. injection Hstep as <-. split; [exact Hp|]. intros _ _. simpl. lia.
Qed.

Lemma run_noticed junk stream ls : ∀ sent c c',
  inv stream sent c → Forall label_ok ls → zlen stream < 2 ^ 63 →
  zlen sent + zlen (requested ls) < 2 ^ 63 → pending_noticed c →
  run junk c ls = Some (Ret c') → pending_noticed c'.
Proof.
  induction ls as [|l ls IH]; intros sent c c' Hinv Hok Hst Hse Hn Hrun.
  { by injection Hrun as <-. }
  apply Forall_cons in Hok as [Hl Hok]. rewrite requested_cons, length_app in Hse. cbn [run] in Hrun.
  destruct (step junk c l) as [[c1| | |]|] eqn:Es; try done.
  pose proof (step_spec junk stream sent c l _ Hinv Hl Hst ltac:(lia) Es) as Hs.
  eapply (IH _ c1); [exact Hs|done|done|rewrite length_app; lia| |done].
  eapply step_noticed; [exact Hinv|exact Hl|lia|done|done|exact Es].
Qed.

(** buffered output is never forgotten.  As long as the socket does not
    fail, in every reachable state with bytes left to write, the [Run] thread is
    not blocked in a poll that ignores them: either it asks for [POLLOUT], or a
    wake-up is waiting for it; and the next poll set it builds has [POLLOUT]. *)
Theorem nonblocking_output_polled junk i script ls c :
  Forall label_ok ls → zlen (stream_data i) < 2 ^ 63 → zlen (requested ls) < 2 ^ 63 →
  soft (Out [] script) → run junk (init i (Out [] script)) ls = Some (Ret c) →
  IOVector.contents (write_buffer_ c) ≠ [] →
  (run_pc c = Polling false → (0 < wake_fd_ c)%nat) ∧
  (run_pc c = Top → running_ c = true → step junk c LPrep = Some (Ret (set_pc c (Polling true)))).
Proof.
  intros Hok Hst Hse Hsoft Hrun Hne.
  assert (pending_noticed (init i (Out [] script))) as H0 by (split; [split|]; done).
  destruct (run_noticed junk _ ls [] _ c (streams_inv_init i script) Hok Hst Hse H0 Hrun) as [[_ Hw] Hp].
  split; [by intros; apply Hp|]. intros Htop Hr. unfold step. by rewrite Htop, Hr, (Hw Hne).
Qed.

Lemma nonblocking_output_polled_witness :
  ∃ c, run (λ _, Zbyte 0) (init [] (Out [] [Accept 3; Reject EAGAIN])) [LBoot; LPrep; LWrite hello_packet] = Some (Ret c) ∧
       run_pc c = Polling false ∧ (0 < wake_fd_ c)%nat.
Proof.
  destruct (run (λ _, Zbyte 0) (init [] (Out [] [Accept 3; Reject EAGAIN])) [LBoot; LPrep; LWrite hello_packet])
    as [[c| | |]|] eqn:E; try (vm_compute in E; discriminate E).
  assert (run_pc c = Polling false ∧ IOVector.contents (write_buffer_ c) ≠ []) as [Hpc Hne].
  { vm_compute in E. injection E as <-. by vm_compute. }
  exists c. split; [done|]. split; [done|].
  destruct (nonblocking_output_polled (λ _, Zbyte 0) [] [Accept 3; Reject EAGAIN]
              [LBoot; LPrep; LWrite hello_packet] c) as [Hw _]; [|done|done| |done|done|].
  - repeat constructor; vm_compute; done.
  - constructor; [right; by exists 3|]. constructor; [by left|constructor].
  - by apply Hw.
Defined.

(** ** Where the class falls short *)

(** a [Write] that flushes the buffer while [Run] is blocked in a poll that
    asks for [POLLOUT] makes the [CHECK] in [DispatchWrites] fail when the poll
    returns: the poll set was built from an older [writable_]. *)
Theorem nonblocking_write_race junk i :
  run junk (init i (Out [] [Reject EAGAIN]))
    [LBoot; LWrite hello_packet; LPrep; LWrite hello_packet; LPoll true false false; LOut] = Some Abort.
Proof. vm_compute. reflexivity. Qed.

(** The steps of [Run] and [Write] leave [running_] alone, and [Run] only ends
    with "connection closed" when it finds it false. *)
Lemma DispatchWrites_frame c r c' :
  DispatchWrites c = Ret (r, c') → (running_ c', run_pc c') = (running_ c, run_pc c).
Proof.
  intros H. unfold DispatchWrites in H. apply bind_ret_inv in H as (u & _ & H).
  apply bind_ret_inv in H as (segs & _ & H). destruct (adb_writev _ _) as [[n|[]] o].
  - destruct (n =? 0); [by injection H as _ <-|]. apply bind_ret_inv in H as (b & _ & H). by injection H as _ <-.
  - by injection H as _ <-.
  - by injection H as _ <-.
  - by injection H as _ <-.
Qed.

Lemma on_pollin_frame junk c e c' :
  on_pollin junk c = Ret (e, c') → running_ c' = running_ c ∧ e ≠ Some "connection closed"%string.
Proof.
  intros H. unfold on_pollin in H. apply bind_ret_inv in H as (blk & _ & H).
  destruct (adb_read _ _) as [[bs|x] i].
  - apply bind_ret_inv in H as (b1 & _ & H). destruct (zlen bs =? 0); [by injection H as <- <-|].
    apply bind_ret_inv in H as (b2 & _ & H). apply bind_ret_inv in H as ([h b] & _ & H).
    apply bind_ret_inv in H as ([[h' b'] d] & _ & H). by injection H as <- <-.
  - by injection H as <- <-.
Qed.

Definition keeps_running (c : t) : Prop := running_ c = true ∧ run_pc c ≠ Exited "connection closed".

Lemma step_running junk c l c' :
  l ≠ LStop → keeps_running c → step junk c l = Some (Ret c') → keeps_running c'.
Proof.
  intros Hl [Hr Hpc] Hs.
  destruct l; try (unfold step in Hs; destruct (run_pc c) eqn:Epc; try discriminate Hs; []); unfold keeps_running.
  - by injection Hs as <-.
  - injection Hs as <-. simpl. by rewrite Hr.
  - destruct (_ && _); [|done]. by injection Hs as <-.
  - destruct out; [|done]. injection Hs as Hs. apply bind_ret_inv in Hs as ([r c1] & Ed & E).
    apply DispatchWrites_frame in Ed as [= Hr1 Hp1]. injection E as <-. destruct r; simpl; by rewrite Hr1.
  - destruct out, in_; try done. injection Hs as Hs. apply bind_ret_inv in Hs as ([e c1] & Ed & E).
    apply on_pollin_frame in Ed as [Hr1 He]. injection E as <-.
    destruct e; simpl; rewrite Hr1; split; congruence.
  - destruct out, in_, wake; try done. by injection Hs as <-.
  - destruct out, in_, wake; try done. by injection Hs as <-.
  - rewrite step_write in Hs. injection Hs as Hs. apply bind_ret_inv in Hs as ([ok c1] & Ew & E).
    injection E as <-. unfold Write in Ew. apply bind_ret_inv in Ew as (hb & _ & Ew).
    apply bind_ret_inv in Ew as ([r c2] & Ed & E). apply DispatchWrites_frame in Ed as [= Hr1 Hp1].
    simpl in Hr1, Hp1. destruct r; injection E as _ <-; simpl; by rewrite Hr1, Hp1.
  - done.
Qed.

(** a [Stop] that arrives before the new thread has executed
    [SetRunning(true)] is lost: whatever happens next, [Run] does not see it, so
    unless the socket fails the thread that joins it waits for ever. *)
Theorem nonblocking_stop_lost junk i o ls c :
  LStop ∉ ls → run junk (init i o) (LStop :: LBoot :: ls) = Some (Ret c) →
  running_ c = true ∧ run_pc c ≠ Exited "connection closed".
Proof.
  intros Hls Hrun. cbn [run] in Hrun. rewrite step_stop in Hrun.
  change (step junk _ LBoot) with (Some (Ret (mk true None IOVector.empty_vec true IOVector.empty_vec i o 1 [] Top))) in Hrun.
  cbv beta iota in Hrun.
  assert (keeps_running (mk true None IOVector.empty_vec true IOVector.empty_vec i o 1 [] Top)) as H by done.
  revert H Hrun. generalize (mk true None IOVector.empty_vec true IOVector.empty_vec i o 1 [] Top).
  induction ls as [|l ls IH]; intros c0 H Hrun; [by injection Hrun as <-|].
  apply not_elem_of_cons in Hls as [Hl Hls]. cbn [run] in Hrun.
  destruct (step junk c0 l) as [[c1| | |]|] eqn:Es; try done.
  apply (IH Hls c1); [|done]. eapply step_running; [|exact H|exact Es]. congruence.
Qed.

Lemma nonblocking_stop_lost_witness :
  ∃ c, run (λ _, Zbyte 0) (init [] (Out [] [])) [LStop; LBoot; LPrep; LPoll false false true; LWake; LNext; LPrep]
         = Some (Ret c) ∧ running_ c = true.
Proof.
  destruct (run (λ _, Zbyte 0) (init [] (Out [] [])) [LStop; LBoot; LPrep; LPoll false false true; LWake; LNext; LPrep])
    as [[c| | |]|] eqn:E; try (vm_compute in E; discriminate E).
  exists c. split; [done|].
  apply (nonblocking_stop_lost (λ _, Zbyte 0) [] (Out [] []) [LPrep; LPoll false false true; LWake; LNext; LPrep] c);
    [|done].
  rewrite !not_elem_of_cons. split_and!; try done. apply not_elem_of_nil.
Defined.

Lemma run_step junk c l c' ls : step junk c l = Some (Ret c') → run junk c (l :: ls) = run junk c' ls.
Proof. intros H. cbn [run]. by rewrite H. Qed.

(** Taking the header and then the payload of the first packet off a buffer. *)
Lemma take_first junk b p rest d :
  IOVector.wf b → packet_wf p → IOVector.contents b = packet_bytes p ++ rest →
  ∃ b1 b2 p', take_header junk None b = Ret (Some (msg p), b1) ∧
    take_packet junk (Some (msg p)) b1 d = Ret (None, b2, d ++ [p']) ∧
    msg p' = msg p ∧ Block.content (payload p') = Block.content (payload p) ∧
    IOVector.contents b2 = rest.
Proof.
  intros Hw Hp Hc. pose proof Hp as (Hm & Hwp & Hd). pose proof (block_content_len _ Hwp) as Hlp.
  unfold packet_bytes in Hc. rewrite <- app_assoc in Hc.
  cbn [take_header]. rewrite IOV.size_contents by done. unfold sizeof_amessage.
  assert (24 ≤ zlen (IOVector.contents b)) as H24 by (rewrite Hc, length_app, length_amessage_bytes; lia).
  rewrite (proj2 (Z.leb_le 24 _)) by done.
  pose proof (take_front_spec junk b 24 Hw ltac:(lia)) as Ht. rewrite (proj2 (Z.leb_le 24 _)) in Ht by done.
  destruct Ht as (front & b1 & Et & Wf & Wb & Cf & Cb & _). rewrite Et. mstep.
  rewrite Hc, ztake_app_le, ztake_all in Cf by (rewrite length_amessage_bytes; lia).
  rewrite Hc, zdrop_app_ge, length_amessage_bytes, zdrop_0 in Cb by (rewrite length_amessage_bytes; lia).
  destruct (coalesce_rvalue_spec junk front Wf) as (blk & v' & Ec & Wblk & Cblk). rewrite Ec. mstep.
  pose proof (block_content_len blk Wblk) as Hsz. rewrite Cblk, Cf, length_amessage_bytes in Hsz. rewrite <- Hsz.
  change (Z.of_nat 24 =? 24) with true. mstep. rewrite Cblk, Cf, amessage_roundtrip by done. mstep.
  assert (0 ≤ data_length (msg p)) as H0 by lia.
  assert (data_length (msg p) ≤ zlen (IOVector.contents b1)) as Hle by (rewrite Cb, length_app; lia).
  pose proof (take_front_spec junk b1 _ Wb H0) as Ht. rewrite (proj2 (Z.leb_le _ _)) in Ht by done.
  destruct Ht as (front2 & b2 & Et2 & Wf2 & Wb2 & Cf2 & Cb2 & _).
  destruct (coalesce_rvalue_spec junk front2 Wf2) as (pay & ? & Ec2 & Wpay & Cpay).
  exists b1, b2, (APacket (msg p) pay). split; [done|]. cbn [take_packet].
  rewrite IOV.size_contents, (proj2 (Z.leb_le _ _)), Et2 by done. mstep. rewrite Ec2. mstep.
  split_and!; try done.
  - simpl. rewrite Cpay, Cf2, Cb, ztake_app_le, ztake_all by lia. done.
  - rewrite Cb2, Cb, zdrop_app_ge by lia. replace (data_length (msg p) - _) with 0 by lia. apply zdrop_0.
Qed.

(** each turn of [Run] delivers at most one packet.  When two packets
    arrive in one read, the first is delivered and [Run] blocks with the second
    one complete in its buffer and nothing left on the socket: it is delivered
    only if the peer sends something else. *)
Theorem nonblocking_stall junk p q :
  packet_wf p → packet_wf q → zlen (packet_bytes p ++ packet_bytes q) ≤ MAX_PAYLOAD →
  ∃ c p', run junk (init [Data (packet_bytes p ++ packet_bytes q)] (Out [] []))
            [LBoot; LPrep; LPoll false true false; LIn; LNext; LPrep] = Some (Ret c) ∧
    handled c = [p'] ∧ msg p' = msg p ∧ Block.content (payload p') = Block.content (payload p) ∧
    IOVector.contents (read_buffer_ c) = packet_bytes q ∧ read_header_ c = None ∧
    fd_in c = [] ∧ run_pc c = Polling false ∧ wake_fd_ c = 0%nat.
Proof.
  intros Hp Hq Hmax. set (bs := packet_bytes p ++ packet_bytes q) in *.
  assert (bs ≠ []) as Hne by (intros E%(f_equal length); unfold bs, packet_bytes in E;
    rewrite !length_app, length_amessage_bytes in E; simpl in E; lia).
  pose proof (nonempty_zlen bs Hne) as Hpos.
  destruct (block_fill junk MAX_PAYLOAD bs Hne Hmax) as (b0 & b1 & b2 & E0 & E1 & E2 & W2 & C2).
  assert (Block.size_ b0 = MAX_PAYLOAD) as Hs0.
  { unfold Block.allocate in E0. simpl in E0. by injection E0 as <-. }
  destruct IOV.contents_empty as [We Ce].
  pose proof (block_content_len b2 W2) as Hl2. rewrite C2 in Hl2.
  destruct (IOV.append_spec IOVector.empty_vec b2 We W2) as (Wa & Ca & _).
  { simpl. unfold MAX_PAYLOAD in Hmax. lia. }
  rewrite Ce, app_nil_l, C2 in Ca.
  destruct (take_first junk _ p (packet_bytes q) [] Wa Hp Ca) as (v1 & v2 & p' & Eh & Ep & Hm & Hc & Hv).
  set (c3 := mk true None IOVector.empty_vec true IOVector.empty_vec [Data bs] (Out [] []) 0 [] (Got false true false)).
  assert (on_pollin junk c3 = Ret (None, set_read c3 None v2 [] [p'])) as Ein.
  { unfold on_pollin, Block.of_size. rewrite E0. mstep. rewrite Hs0. cbn [fd_in c3 adb_read].
    unfold MAX_RW_COUNT, MAX_PAYLOAD in *. zbool. rewrite ztake_all by lia. rewrite E1. mstep. zbool.
    rewrite E2. mstep. cbn [read_header_ read_buffer_ handled c3]. rewrite Eh. mstep. rewrite Ep. mstep. done. }
  exists (set_pc (set_read c3 None v2 [] [p']) (Polling false)), p'.
  split; [|by split_and!].
  do 3 (erewrite run_step by reflexivity). change (set_pc _ (Got false true false)) with c3.
  erewrite run_step by (unfold step; cbn [run_pc c3]; rewrite Ein; reflexivity).
  do 2 (erewrite run_step by reflexivity). reflexivity.
Qed.

Lemma nonblocking_stall_witness :
  ∃ c p', run (λ _, Zbyte 0) (init [Data (packet_bytes hello_packet ++ packet_bytes hello_packet)] (Out [] []))
            [LBoot; LPrep; LPoll false true false; LIn; LNext; LPrep] = Some (Ret c) ∧ handled c = [p'].
Proof.
  destruct (nonblocking_stall (λ _, Zbyte 0) hello_packet hello_packet hello_packet_wf hello_packet_wf)
    as (c & p' & E & H & _); [by vm_compute|].
  exists c, p'. split; [exact E|exact H].
Defined.
End NB.
