(* ===== verification/Adapter.v ===== *)
(** * [BlockingConnectionAdapter]: [adb/transport.cpp]

    A blocking connection is served by a read thread and a write thread; other
    threads call [Write], [DoTlsHandshake], [Reset] and [Stop].  A step of the
    model is what a thread does between two points where it can be overtaken:
    a critical section of [mutex_], one call of the underlying connection, or
    one [std::call_once]. *)

From S2P Require Import Prelude Types Packets.
Local Open Scope Z_scope.

Module Adapter.

(** The read thread: in [underlying_->Read], in [HandleRead], about to report an
    error, or gone. *)
Inductive reader := RNone | RReading | RHandling (p : apacket) | RFailed | RDone.

(** The write thread: waiting on [cv_], in [underlying_->Write], about to report
    an error, or gone. *)
Inductive writer := WNone | WWaiting | WWriting (p : apacket) | WFailed | WDone.

(** The thread inside [Stop]: [stopped_] set, connection closed, thread objects
    moved out of the members, threads joined, error reported. *)
Inductive stopper := SNone | SFlagged | SClosed | SMoved | SJoined | SDone.

Record t := mk {
  started_ : bool;
  stopped_ : bool;
  write_queue_ : list apacket;
  error_flag_ : bool;                 (* [std::call_once] has run *)
  read_thread_joinable : bool;        (* [read_thread_] owns a thread *)
  read_pc : reader;                   (* ... in this state *)
  local_pc : reader;                  (* the read thread [Stop] moved out *)
  write_thread_joinable : bool;
  write_pc : writer;
  stop_pc : stopper;
  closed : bool;                      (* [underlying_->Close()] was called *)
  written : list apacket;             (* packets [underlying_->Write] sent *)
  lost : list apacket;                (* packets it failed to send *)
  handled : list apacket;             (* calls of [transport_->HandleRead] *)
  errors : list string                (* calls of [transport_->HandleError] *)
}.

Definition init : t :=
  mk false false [] false false RNone RNone false WNone SNone false [] [] [] [].

Definition set_reader (c : t) (j : bool) (r lr : reader) (h : list apacket) : t :=
  mk (started_ c) (stopped_ c) (write_queue_ c) (error_flag_ c) j r lr
     (write_thread_joinable c) (write_pc c) (stop_pc c) (closed c) (written c) (lost c) h (errors c).

Definition set_writer (c : t) (w : writer) (q wr l : list apacket) : t :=
  mk (started_ c) (stopped_ c) q (error_flag_ c) (read_thread_joinable c) (read_pc c) (local_pc c)
     (write_thread_joinable c) w (stop_pc c) (closed c) wr l (handled c) (errors c).

Definition set_stop (c : t) (st : bool) (s : stopper) (cl : bool) : t :=
  mk (started_ c) st (write_queue_ c) (error_flag_ c) (read_thread_joinable c) (read_pc c)
     (local_pc c) (write_thread_joinable c) (write_pc c) s cl (written c) (lost c) (handled c) (errors c).

(** [std::call_once(error_flag_, [] { transport_->HandleError(e); })] *)
Definition call_once (c : t) (e : string) : t :=
  if error_flag_ c then c
  else mk (started_ c) (stopped_ c) (write_queue_ c) true (read_thread_joinable c) (read_pc c)
          (local_pc c) (write_thread_joinable c) (write_pc c) (stop_pc c) (closed c) (written c) (lost c)
          (handled c) (errors c ++ [e]).

(** Assigning a new thread to a member that still owns one ends the process. *)
Definition StartReadThread (c : t) : outcome t :=
  _ ← check (negb (read_thread_joinable c));
  Ret (set_reader c true RReading (local_pc c) (handled c)).

Definition Start (c : t) : outcome t :=
  _ ← check (negb (started_ c));
  c ← StartReadThread c;
  Ret (mk true (stopped_ c) (write_queue_ c) (error_flag_ c) (read_thread_joinable c) (read_pc c)
          (local_pc c) true WWaiting (stop_pc c) (closed c) (written c) (lost c) (handled c) (errors c)).

Definition Write (c : t) (p : apacket) : t :=
  set_writer c (write_pc c) (write_queue_ c ++ [p]) (written c) (lost c).

(** The read thread the member owns, or the one [Stop] is about to join. *)
Inductive which := Member | Local.

Definition reader_of (c : t) (w : which) : reader :=
  match w with Member => read_pc c | Local => local_pc c end.

Definition set_reader_of (c : t) (w : which) (r : reader) (h : list apacket) : t :=
  match w with
  | Member => set_reader c (read_thread_joinable c) r (local_pc c) h
  | Local => set_reader c (read_thread_joinable c) (read_pc c) r h
  end.

Inductive label :=
| LStart
| LWrite (p : apacket)
| LRead (w : which) (r : option apacket)   (* [underlying_->Read] returns *)
| LHandle (w : which)             (* [HandleRead] returns *)
| LReadError (w : which)          (* the read thread reports its error *)
| LTake                           (* the write thread passes [cv_.wait] *)
| LSent (ok : bool)               (* [underlying_->Write] returns *)
| LWriteError
| LTls (success : bool)           (* a thread runs [DoTlsHandshake] *)
| LStop                           (* a thread enters [Stop] *)
| LClose | LMove | LJoin | LReport  (* ... and goes through it *)
| LDestroy.                       (* the destructor, after [Stop] *)

Definition reader_gone (r : reader) : bool := match r with RNone | RDone => true | _ => false end.

(** One step; [None] when the thread in question is not at that point, or
    blocks there. *)
Definition step (c : t) (l : label) : option (outcome t) :=
  match l with
  | LStart => Some (Start c)
  | LWrite p => Some (Ret (Write c p))
  | LRead w r =>
      match reader_of c w, r with
      | RReading, Some p => Some (Ret (set_reader_of c w (RHandling p) (handled c)))
      | RReading, None => Some (Ret (set_reader_of c w RFailed (handled c)))
      | _, _ => None
      end
  | LHandle w =>
      match reader_of c w with
      | RHandling p =>
          Some (Ret (set_reader_of c w (if command (msg p) =? A_STLS then RDone else RReading)
                       (handled c ++ [p])))
      | _ => None
      end
  | LReadError w =>
      match reader_of c w with
      | RFailed =>
          let c := call_once c "read failed" in Some (Ret (set_reader_of c w RDone (handled c)))
      | _ => None
      end
  | LTake =>
      match write_pc c with
      | WWaiting =>
          if stopped_ c then Some (Ret (set_writer c WDone (write_queue_ c) (written c) (lost c)))
          else match write_queue_ c with
               | p :: q => Some (Ret (set_writer c (WWriting p) q (written c) (lost c)))
               | [] => None
               end
      | _ => None
      end
  | LSent ok =>
      match write_pc c with
      | WWriting p =>
          Some (Ret (if (ok : bool) then set_writer c WWaiting (write_queue_ c) (written c ++ [p]) (lost c)
                     else set_writer c WFailed (write_queue_ c) (written c) (lost c ++ [p])))
      | _ => None
      end
  | LWriteError =>
      match write_pc c with
      | WFailed =>
          let c := call_once c "write failed" in
          Some (Ret (set_writer c WDone (write_queue_ c) (written c) (lost c)))
      | _ => None
      end
  | LTls success =>
      (* [mutex_] is held; the join waits for the read thread. *)
      if read_thread_joinable c then
        if reader_gone (read_pc c)
        then Some (StartReadThread (set_reader c false (read_pc c) (local_pc c) (handled c)))
        else None
      else Some (StartReadThread c)
  | LStop =>
      match stop_pc c with
      | SNone =>
          if negb (started_ c) || stopped_ c then Some (Ret c)
          else Some (Ret (set_stop c true SFlagged (closed c)))
      | _ => Some (Ret c)
      end
  | LClose =>
      match stop_pc c with
      | SFlagged => Some (Ret (set_stop c (stopped_ c) SClosed true))
      | _ => None
      end
  | LMove =>
      match stop_pc c with
      | SClosed =>
          Some (Ret (mk (started_ c) (stopped_ c) (write_queue_ c) (error_flag_ c) false RNone (read_pc c)
                        false (write_pc c) SMoved (closed c) (written c) (lost c) (handled c) (errors c)))
      | _ => None
      end
  | LJoin =>
      match stop_pc c with
      | SMoved =>
          (* joining a thread object that owns no thread throws *)
          match local_pc c, write_pc c with
          | RNone, _ | _, WNone => Some Abort
          | RDone, WDone => Some (Ret (set_stop c (stopped_ c) SJoined (closed c)))
          | _, _ => None
          end
      | _ => None
      end
  | LReport =>
      match stop_pc c with
      | SJoined =>
          let c := call_once c "requested stop" in
          Some (Ret (set_stop c (stopped_ c) SDone (closed c)))
      | _ => None
      end
  | LDestroy =>
      (* [~thread] of a member that is still joinable ends the process. *)
      match stop_pc c with
      | SDone => Some (_ ← check (negb (read_thread_joinable c || write_thread_joinable c)); Ret c)
      | _ => None
      end
  end.

Fixpoint run (c : t) (ls : list label) : option (outcome t) :=
  match ls with
  | [] => Some (Ret c)
  | l :: ls =>
      match step c l with
      | None => None
      | Some (Ret c') => run c' ls
      | Some r => Some r
      end
  end.

End Adapter.
