(* ===== verification/AdapterFacts.v ===== *)
(** * Properties of [BlockingConnectionAdapter]

    Proved over every interleaving of its threads, by induction on executions. *)

From S2P Require Import Prelude Types Packets Adapter.
Local Open Scope Z_scope.

Module AD.
Import Adapter.

(** The packets given to [Write], in order. *)
Fixpoint enqueued (ls : list label) : list apacket :=
  match ls with
  | [] => []
  | LWrite p :: ls => p :: enqueued ls
  | _ :: ls => enqueued ls
  end.

Definition in_flight (w : writer) : list apacket :=
  match w with WWriting p => [p] | _ => [] end.

Record inv (enq : list apacket) (c : t) : Prop := {
  inv_once : errors c = [] ∧ error_flag_ c = false ∨ (∃ e, errors c = [e]) ∧ error_flag_ c = true;
  inv_fifo : written c ++ in_flight (write_pc c) ++ lost c ++ write_queue_ c = enq;
  inv_lost : lost c = [] ∨ write_pc c = WFailed ∨ write_pc c = WDone;
  inv_started : started_ c = false → stop_pc c = SNone ∧ write_pc c = WNone;
  inv_writer : started_ c = true → write_pc c ≠ WNone;
  inv_reader : started_ c = true → stop_pc c = SNone ∨ stop_pc c = SFlagged ∨ stop_pc c = SClosed →
    read_pc c ≠ RNone;
  inv_local : stop_pc c = SMoved ∨ stop_pc c = SJoined ∨ stop_pc c = SDone → local_pc c ≠ RNone;
  inv_joined : stop_pc c = SJoined ∨ stop_pc c = SDone → local_pc c = RDone ∧ write_pc c = WDone;
  inv_done : stop_pc c = SDone → error_flag_ c = true
}.

Lemma threads_inv_init : inv [] init.
Proof. split; simpl; try done; auto. all: intros; destruct_or?; done. Qed.

(** Unfolds the setters and decides the fields of the invariant that a step
    leaves alone or sets to a constant. *)
Ltac unfold_step H :=
  unfold step, Start, StartReadThread, Write, call_once, set_reader_of, set_reader, set_writer, set_stop,
    reader_of in H; simpl in H.

Ltac field :=
  simpl in *;
  first [ assumption | congruence | solve [auto]
        | solve [intros; destruct_or?; first [congruence | assumption | (split; congruence) | auto]]
        | match goal with
          | H : ?A → _ ∧ _ |- ?A → _ =>
              let Hx := fresh in
              intros Hx; destruct (H Hx); first [congruence | split; congruence]
          end ].

Lemma step_inv enq c l c' :
  inv enq c → step c l = Some (Ret c') → inv (enq ++ enqueued [l]) c'.
Proof.
  intros H Hs. destruct c as [st sp q ef rj rp lp wj wp sc cl wr lo ha er].
  destruct H as [H1 H2 H3 H4 H5 H6 H7 H8 H9]. simpl in *.
  destruct l; unfold_step Hs; rewrite ?app_nil_r; cbn [enqueued].
  - (* LStart *) destruct st; [done|]. destruct rj; [done|]. simplify_eq/=.
    destruct (H4 eq_refl) as [-> ->]. destruct H3 as [->|[|]]; [|done..]. split; field.
  - (* LWrite *) simplify_eq/=. split; try field. by rewrite <- !app_assoc.
  - (* LRead *) destruct w, r; case_match; simplify_eq/=; split; field.
  - (* LHandle *) destruct w; case_match; simplify_eq/=; destruct (_ =? _); split; field.
  - (* LReadError *) destruct w, ef; case_match; simplify_eq/=; split; try field.
    all: destruct H1 as [[-> _]|[_ ?]]; [|done]; simpl; eauto.
  - (* LTake *) destruct wp; simplify_eq/=. destruct sp; simplify_eq/=; [split; field|].
    destruct q; simplify_eq/=. destruct H3 as [->|[|]]; [|done..]. split; field.
  - (* LSent *) destruct wp; simplify_eq/=. destruct H3 as [->|[|]]; [|done..]. destruct ok; split; try field.
    all: simpl; by rewrite <- ?app_assoc.
  - (* LWriteError *) destruct wp; simplify_eq/=. destruct ef; simplify_eq/=; split; try field.
    all: try (destruct H1 as [[-> _]|[_ ?]]; [|done]; simpl; eauto).
  - (* LTls *) destruct rj; [destruct (reader_gone rp)|]; simplify_eq/=; split; field.
  - (* LStop *) destruct sc; simplify_eq/=; try (split; field). destruct st, sp; simplify_eq/=; split; field.
  - (* LClose *) destruct sc; simplify_eq/=. split; field.
  - (* LMove *) destruct sc; simplify_eq/=. destruct st; [|by destruct (H4 eq_refl)].
    pose proof (H6 eq_refl ltac:(auto)). split; field.
  - (* LJoin *) destruct sc; simplify_eq/=. destruct lp, wp; simplify_eq/=; split; field.
  - (* LReport *) destruct sc; simplify_eq/=. destruct ef; simplify_eq/=; split; try field.
    all: try (destruct H1 as [[-> _]|[_ ?]]; [|done]; simpl; eauto).
  - (* LDestroy *) destruct sc; simplify_eq/=. destruct (rj || wj); simplify_eq/=. split; field.
Qed.

Lemma enqueued_cons l ls : enqueued (l :: ls) = enqueued [l] ++ enqueued ls.
Proof. by destruct l. Qed.

Lemma run_inv ls : ∀ enq c c',
  inv enq c → run c ls = Some (Ret c') → inv (enq ++ enqueued ls) c'.
Proof.
  induction ls as [|l ls IH]; intros enq c c' H Hr.
  { injection Hr as <-. by rewrite app_nil_r. }
  cbn [run] in Hr. destruct (step c l) as [[c1| | |]|] eqn:E; try done.
  rewrite enqueued_cons, app_assoc. eapply IH; [|exact Hr]. by eapply step_inv.
Qed.

Lemma run_app ls1 ls2 c :
  run c (ls1 ++ ls2) =
    match run c ls1 with Some (Ret c') => run c' ls2 | r => r end.
Proof.
  revert c. induction ls1 as [|l ls1 IH]; intros c; [done|]. cbn [app run].
  destruct (step c l) as [[c1| | |]|]; try done.
Qed.

(** C10: in every execution the transport hears of at most one error; packets
    go to the underlying connection one at a time in the order of the calls of
    [Write], none is skipped or sent twice, and a failed one is the last; and
    when [Stop] has returned, both threads it joined are gone and the transport
    has heard of exactly one error. *)
Theorem adapter_correct ls c :
  run init ls = Some (Ret c) →
  (length (errors c) ≤ 1)%nat ∧
  written c ++ in_flight (write_pc c) ++ lost c ++ write_queue_ c = enqueued ls ∧
  (lost c ≠ [] → in_flight (write_pc c) = []) ∧
  (stop_pc c = SDone → (∃ e, errors c = [e]) ∧ local_pc c = RDone ∧ write_pc c = WDone).
Proof.
  intros Hr. destruct (run_inv ls [] init c threads_inv_init Hr) as [H1 H2 H3 _ _ _ _ H8 H9].
  split_and!.
  - destruct H1 as [[-> _]|[[e ->] _]]; simpl; lia.
  - exact H2.
  - destruct H3 as [?|[->| ->]]; done.
  - intros Hd. split; [|by apply H8; right]. destruct H1 as [[_ Hf]|[H _]]; [|exact H].
    rewrite (H9 Hd) in Hf. done.
Qed.

Definition wrte : apacket := APacket (AMessage A_WRTE 1 2 0 0 0) Block.default.
Definition stls : apacket := APacket (AMessage A_STLS A_STLS_VERSION 0 0 0 0) Block.default.

Lemma adapter_correct_witness :
  ∃ c, run init [LStart; LWrite wrte; LTake; LWrite stls; LSent true; LStop; LClose; LRead Member None;
                 LMove; LReadError Local; LTake; LJoin; LReport] = Some (Ret c) ∧
       errors c = ["read failed"%string] ∧ written c ++ write_queue_ c = [wrte; stls].
Proof.
  destruct (run init [LStart; LWrite wrte; LTake; LWrite stls; LSent true; LStop; LClose; LRead Member None;
                 LMove; LReadError Local; LTake; LJoin; LReport]) as [[c| | |]|] eqn:E; try (vm_compute in E; discriminate E).
  destruct (adapter_correct _ _ E) as (_ & Hf & _ & Hd).
  exists c. split; [reflexivity|]. vm_compute in E. injection E as <-. split; [reflexivity|]. exact Hf.
Defined.

(** ** The life of the threads *)

(** Members that [Stop] has emptied stay empty without a handshake. *)
Definition emptied (c : t) : Prop :=
  stop_pc c = SMoved ∨ stop_pc c = SJoined ∨ stop_pc c = SDone →
  read_thread_joinable c = false ∧ write_thread_joinable c = false.

Definition is_tls (l : label) : bool := match l with LTls _ => true | _ => false end.

Lemma step_alive enq c l r :
  inv enq c → started_ c = true → emptied c → l ≠ LStart →
  (is_tls l = true → stop_pc c = SNone) → step c l = Some r →
  ∃ c', r = Ret c' ∧ started_ c' = true ∧ emptied c' ∧
        (l ≠ LStop → stop_pc c = SNone → stop_pc c' = SNone).
Proof.
  intros [_ _ _ _ Hw _ Hl _ _] Hst He Hne Htls Hs. destruct c as [st sp q ef rj rp lp wj wp sc cl wr lo ha er].
  unfold emptied in *. simpl in *. subst st. specialize (Hw eq_refl).
  destruct l; unfold_step Hs; try done.
  - simplify_eq/=. by eexists.
  - destruct w, r0; case_match; simplify_eq/=; by eexists.
  - destruct w; case_match; simplify_eq/=; by eexists.
  - destruct w, ef; case_match; simplify_eq/=; by eexists.
  - destruct wp; simplify_eq/=. destruct sp; simplify_eq/=; [by eexists|]. destruct q; simplify_eq/=. by eexists.
  - destruct wp; simplify_eq/=. destruct ok; by eexists.
  - destruct wp, ef; simplify_eq/=; by eexists.
  - rewrite Htls in * by done.
    destruct rj; [destruct (reader_gone rp)|]; simplify_eq/=; eexists; (split; [done|]); split_and!; try done;
      simpl; intros; by destruct_or?.
  - destruct sc; simplify_eq/=; try (by eexists). destruct sp; simplify_eq/=; eexists; (split; [done|]); simpl;
      split_and!; try done; intros; by destruct_or?.
  - destruct sc; simplify_eq/=. eexists. split; [done|]. simpl. split_and!; try done. intros; by destruct_or?.
  - destruct sc; simplify_eq/=. eexists. split; [done|]. simpl. by split_and!.
  - destruct sc; simplify_eq/=. specialize (Hl ltac:(auto)).
    destruct lp, wp; simplify_eq/=; try done. eexists. split; [done|]. simpl. split_and!; try done. auto.
  - destruct sc, ef; simplify_eq/=; eexists; (split; [done|]); simpl; split_and!; try done; auto.
  - destruct sc; simplify_eq/=. destruct (He ltac:(auto)) as [-> ->]. simpl. eexists. split; [done|]. simpl. by split_and!.
Qed.

Lemma run_alive ls : ∀ enq c r,
  inv enq c → started_ c = true → emptied c → LStart ∉ ls →
  (Forall (λ l, is_tls l = false) ls ∨ stop_pc c = SNone ∧ LStop ∉ ls) → run c ls = Some r →
  ∃ c', r = Ret c' ∧ started_ c' = true ∧ emptied c' ∧ inv (enq ++ enqueued ls) c'.
Proof.
  induction ls as [|l ls IH]; intros enq c r Hi Hst He Hns Hor Hr.
  { injection Hr as <-. exists c. by rewrite app_nil_r. }
  apply not_elem_of_cons in Hns as [Hl Hns]. cbn [run] in Hr.
  destruct (step c l) as [r0|] eqn:E; [|done].
  destruct (step_alive enq c l r0 Hi Hst He) as (c1 & -> & Hst1 & He1 & Hn1); [congruence| |done|].
  { intros Ht. destruct Hor as [Hf|[? _]]; [|done]. apply Forall_cons in Hf as [Hf _]. congruence. }
  destruct (IH (enq ++ enqueued [l]) c1 r) as (c' & -> & ? & ? & Hi'); try done.
  - by eapply step_inv.
  - destruct Hor as [Hf|[Hn Hs]]; [left; by apply Forall_cons in Hf as [_ ?]|right].
    apply not_elem_of_cons in Hs as [Hs1 Hs2]. split; [|done]. apply Hn1; [congruence|done].
  - exists c'. split_and!; try done. by rewrite enqueued_cons, app_assoc.
Qed.

(** started once and shut down without a TLS handshake after [Stop], the
    adapter never ends the process: no thread object is overwritten, joined
    while empty, or destroyed while it owns a thread, in any interleaving. *)
Theorem adapter_shutdown_safe ls1 ls2 r :
  LStart ∉ ls1 ++ ls2 → LStop ∉ ls1 → Forall (λ l, is_tls l = false) ls2 →
  run init (LStart :: ls1 ++ ls2) = Some r → ∃ c, r = Ret c.
Proof.
  intros Hns Hs Ht Hr. apply not_elem_of_app in Hns as [Hn1 Hn2].
  cbn [run] in Hr. destruct (step init LStart) as [[c0| | |]|] eqn:E0; try done. rewrite run_app in Hr.
  pose proof (step_inv [] init LStart c0 threads_inv_init E0) as Hi0. injection E0 as <-.
  destruct (run _ ls1) as [r1|] eqn:E1; [|done].
  destruct (run_alive ls1 _ _ r1 Hi0) as (c1 & -> & Hst1 & He1 & Hi1); try done; [|by right|].
  { unfold emptied. simpl. intros. by destruct_or?. }
  destruct (run_alive ls2 _ _ r Hi1) as (c2 & -> & _); try done; [by left|]. by exists c2.
Qed.

Lemma adapter_shutdown_safe_witness :
  ∃ c, run init (LStart :: [LRead Member (Some stls); LHandle Member; LTls true] ++
        [LStop; LClose; LMove; LRead Local None; LReadError Local; LTake; LJoin; LReport; LDestroy]) = Some (Ret c).
Proof.
  destruct (run init (LStart :: [LRead Member (Some stls); LHandle Member; LTls true] ++
        [LStop; LClose; LMove; LRead Local None; LReadError Local; LTake; LJoin; LReport; LDestroy])) as [r|] eqn:E;
    [|vm_compute in E; discriminate E].
  destruct (adapter_shutdown_safe [LRead Member (Some stls); LHandle Member; LTls true]
    [LStop; LClose; LMove; LRead Local None; LReadError Local; LTake; LJoin; LReport; LDestroy] r) as [c ->].
  - simpl. rewrite !not_elem_of_cons. split_and!; try done. apply not_elem_of_nil.
  - rewrite !not_elem_of_cons. split_and!; try done. apply not_elem_of_nil.
  - by repeat constructor.
  - exact E.
  - by exists c.
Defined.

(** a handshake that gets [mutex_] after [Stop] has moved the threads out
    starts a read thread that nobody joins: the destructor finds it joinable and
    the process ends. *)
Theorem adapter_handshake_after_stop :
  run init [LStart; LRead Member (Some stls); LHandle Member; LStop; LClose; LMove; LTls false;
            LTake; LJoin; LReport; LDestroy] = Some Abort.
Proof. vm_compute. reflexivity. Qed.

(** ** The pause for the handshake *)

Definition paused (c : t) : Prop :=
  reader_gone (read_pc c) = true ∧ reader_gone (local_pc c) = true.

Lemma step_paused c l c' :
  paused c → is_tls l = false → l ≠ LStart → step c l = Some (Ret c') →
  paused c' ∧ handled c' = handled c.
Proof.
  intros [Hr Hl] Ht Hne Hs. destruct c as [st sp q ef rj rp lp wj wp sc cl wr lo ha er]. unfold paused. simpl in *.
  destruct l; unfold_step Hs; try done.
  - by simplify_eq/=.
  - destruct w; case_match; by simplify_eq/=.
  - destruct w; case_match; by simplify_eq/=.
  - destruct w, ef; case_match; by simplify_eq/=.
  - destruct wp; simplify_eq/=. destruct sp; simplify_eq/=; [done|]. by destruct q; simplify_eq/=.
  - destruct wp; simplify_eq/=. by destruct ok.
  - by destruct wp, ef; simplify_eq/=.
  - destruct sc; simplify_eq/=; try done. by destruct st, sp; simplify_eq/=.
  - by destruct sc; simplify_eq/=.
  - by destruct sc; simplify_eq/=.
  - destruct sc; simplify_eq/=. by destruct lp, wp; simplify_eq/=.
  - by destruct sc, ef; simplify_eq/=.
  - destruct sc; simplify_eq/=. by destruct (rj || wj); simplify_eq/=.
Qed.

(** once the read thread has handed over an STLS packet, no further packet
    is read from the connection until [DoTlsHandshake] runs, whatever the other
    threads do. *)
Theorem adapter_stls_pauses c p ls c' :
  read_pc c = RHandling p → command (msg p) = A_STLS → reader_gone (local_pc c) = true →
  Forall (λ l, is_tls l = false) ls → LStart ∉ ls →
  run c (LHandle Member :: ls) = Some (Ret c') → handled c' = handled c ++ [p].
Proof.
  intros Hp Hc Hl Ht Hns Hr. cbn [run step reader_of] in Hr. rewrite Hp, Hc in Hr.
  change (A_STLS =? A_STLS) with true in Hr. cbv iota in Hr.
  assert (paused (set_reader_of c Member RDone (handled c ++ [p]))) as Hpa by done.
  change (handled c ++ [p]) with (handled (set_reader_of c Member RDone (handled c ++ [p]))).
  revert Hpa Hr. generalize (set_reader_of c Member RDone (handled c ++ [p])). clear Hp Hc Hl c.
  induction ls as [|l ls IH]; intros c Hpa Hr; [by injection Hr as <-|].
  apply Forall_cons in Ht as [Hl Ht]. apply not_elem_of_cons in Hns as [Hn Hns]. cbn [run] in Hr.
  destruct (step c l) as [[c1| | |]|] eqn:E; try done.
  destruct (step_paused c l c1 Hpa Hl) as [Hpa1 <-]; [congruence|done|]. by apply IH.
Qed.

Lemma adapter_stls_pauses_witness :
  ∃ c c', run c [LHandle Member; LWrite wrte; LTake; LSent true] = Some (Ret c') ∧ handled c' = [stls].
Proof.
  exists (mk true false [] false true (RHandling stls) RNone true WWaiting SNone false [] [] [] []).
  eexists. split; [reflexivity|].
  apply (adapter_stls_pauses (mk true false [] false true (RHandling stls) RNone true WWaiting SNone false [] [] [] [])
           stls [LWrite wrte; LTake; LSent true]); try done.
  - by repeat constructor.
  - rewrite !not_elem_of_cons. split_and!; try done. apply not_elem_of_nil.
Defined.
End AD.
