(* ===== verification/Transport.v ===== *)
(** * Transports: [adb/transport.h], [adb/transport.cpp], [adb/adb.cpp]

    The state of an [atransport] on the host, how a connection banner and the
    reverse-forward requests change it, packet output, and how a transport is
    chosen for a client.  The underlying connection is seen as the list of
    packets handed to it. *)

From S2P Require Import Prelude CString LibBase Types AdbIO Packets.
Local Open Scope Z_scope.
Local Open Scope record_scope.

Inductive TransportType := kTransportUsb | kTransportLocal | kTransportAny | kTransportHost.

Inductive ConnectionState :=
| kCsAny | kCsConnecting | kCsAuthorizing | kCsUnauthorized | kCsNoPerm | kCsDetached
| kCsOffline | kCsBootloader | kCsDevice | kCsHost | kCsRecovery | kCsSideload | kCsRescue.

#[global] Instance TransportType_eq_dec : EqDecision TransportType.
Proof. solve_decision. Defined.
#[global] Instance ConnectionState_eq_dec : EqDecision ConnectionState.
Proof. solve_decision. Defined.

Definition ConnectionStateIsOnline (state : ConnectionState) : bool :=
  match state with
  | kCsBootloader | kCsDevice | kCsHost | kCsRecovery | kCsSideload | kCsRescue => true
  | _ => false
  end.

(** [to_string]; the text for a device without permissions comes from
    [UsbNoPermissionsShortHelpText]. *)
Definition to_string (no_perm : bytes) (state : ConnectionState) : bytes :=
  match state with
  | kCsOffline => str "offline"
  | kCsBootloader => str "bootloader"
  | kCsDevice => str "device"
  | kCsHost => str "host"
  | kCsRecovery => str "recovery"
  | kCsRescue => str "rescue"
  | kCsNoPerm => no_perm
  | kCsSideload => str "sideload"
  | kCsUnauthorized => str "unauthorized"
  | kCsAuthorizing => str "authorizing"
  | kCsConnecting => str "connecting"
  | kCsDetached => str "detached"
  | kCsAny => str "unknown"
  end.

Record atransport := Transport {
  id : Z;
  online : bool;
  type : TransportType;
  serial : bytes;
  product : bytes;
  model : bytes;
  device : bytes;
  devpath : bytes;
  use_tls : bool;
  kicked_ : bool;
  features_ : list bytes;
  delayed_ack_ : bool;
  protocol_version : Z;
  max_payload : Z;
  disconnects_ : list nat;            (* the callbacks to run, by identity *)
  connection_state_ : ConnectionState;
  established_ : option bool;         (* [connection_waitable_]: ready, and the result *)
  reverse_forwards_ : gmap bytes bytes;
  keys_ : list nat;                   (* the private keys still to try *)
  stops : nat;                        (* calls of [Stop()] or [Reset()] on the connection *)
  starts : nat;                       (* calls of [Start()] on it *)
  writable : bool;                    (* whether [connection()->Write] succeeds *)
  sent : list apacket                 (* packets handed to it, in order *)
}.

#[global] Instance eta_atransport : Eta atransport :=
  rd_pure Transport <%> id <%> online <%> type <%> serial <%> product <%> model <%> device
    <%> devpath <%> use_tls <%> kicked_ <%> features_ <%> delayed_ack_ <%> protocol_version
    <%> max_payload <%> disconnects_ <%> connection_state_ <%> established_
    <%> reverse_forwards_ <%> keys_ <%> stops <%> starts <%> writable <%> sent.

#[global] Instance upd_online : Update online. Proof. mk_update. Defined.
#[global] Instance upd_type : Update type. Proof. mk_update. Defined.
#[global] Instance upd_serial : Update serial. Proof. mk_update. Defined.
#[global] Instance upd_product : Update product. Proof. mk_update. Defined.
#[global] Instance upd_model : Update model. Proof. mk_update. Defined.
#[global] Instance upd_device : Update device. Proof. mk_update. Defined.
#[global] Instance upd_devpath : Update devpath. Proof. mk_update. Defined.
#[global] Instance upd_use_tls : Update use_tls. Proof. mk_update. Defined.
#[global] Instance upd_kicked_ : Update kicked_. Proof. mk_update. Defined.
#[global] Instance upd_features_ : Update features_. Proof. mk_update. Defined.
#[global] Instance upd_delayed_ack_ : Update delayed_ack_. Proof. mk_update. Defined.
#[global] Instance upd_protocol_version : Update protocol_version. Proof. mk_update. Defined.
#[global] Instance upd_max_payload : Update max_payload. Proof. mk_update. Defined.
#[global] Instance upd_disconnects_ : Update disconnects_. Proof. mk_update. Defined.
#[global] Instance upd_connection_state_ : Update connection_state_. Proof. mk_update. Defined.
#[global] Instance upd_established_ : Update established_. Proof. mk_update. Defined.
#[global] Instance upd_reverse_forwards_ : Update reverse_forwards_. Proof. mk_update. Defined.
#[global] Instance upd_keys_ : Update keys_. Proof. mk_update. Defined.
#[global] Instance upd_stops : Update stops. Proof. mk_update. Defined.
#[global] Instance upd_starts : Update starts. Proof. mk_update. Defined.
#[global] Instance upd_sent : Update sent. Proof. mk_update. Defined.

(** The constructor: minimum protocol version, maximum payload. *)
Definition new_atransport (tid : Z) (state : ConnectionState) : atransport :=
  Transport tid false kTransportAny [] [] [] [] [] false false [] false
    A_VERSION_MIN MAX_PAYLOAD [] state None ∅ [] 0 0 true [].

Definition serial_name (t : atransport) : bytes :=
  if bool_decide (serial t = []) then str "<unknown>" else serial t.

Definition IsTcpDevice (t : atransport) : bool := bool_decide (type t = kTransportLocal).
Definition SupportsDelayedAck (t : atransport) : bool := delayed_ack_ t.

(** [update_version(int, size_t)]; the version arrives as an unsigned word. *)
Definition update_version (t : atransport) (version payload : Z) : atransport :=
  t <| protocol_version := Z.min (s32 version) A_VERSION |>
    <| max_payload := Z.min payload MAX_PAYLOAD |>.

(** The assignment of [SetConnectionState]; the notification that follows it is
    [update_transports]. *)
Definition SetConnectionState (t : atransport) (s : ConnectionState) : atransport :=
  t <| connection_state_ := s |>.

(** Only the first call counts. *)
Definition SetConnectionEstablished (t : atransport) (success : bool) : atransport :=
  match established_ t with
  | Some _ => t
  | None => t <| established_ := Some success |>
  end.

Definition Kick (t : atransport) : atransport :=
  if kicked_ t then t else t <| kicked_ := true |> <| stops ::= S |>.

Definition Reset (t : atransport) : atransport :=
  if kicked_ t then t else t <| kicked_ := true |> <| stops ::= S |>.

Definition AddDisconnect (t : atransport) (d : nat) : atransport :=
  t <| disconnects_ ::= λ l, l ++ [d] |>.

Definition RemoveDisconnect (t : atransport) (d : nat) : atransport :=
  t <| disconnects_ ::= filter (λ x, x ≠ d) |>.

(** The callbacks run, in order, and the transport afterwards. *)
Definition RunDisconnects (t : atransport) : list nat * atransport :=
  (disconnects_ t, t <| disconnects_ := [] |>).

(** ** Features *)

Definition kFeatureShell2 := str "shell_v2".
Definition kFeatureCmd := str "cmd".
Definition kFeatureStat2 := str "stat_v2".
Definition kFeatureLs2 := str "ls_v2".
Definition kFeatureFixedPushMkdir := str "fixed_push_mkdir".
Definition kFeatureApex := str "apex".
Definition kFeatureAbb := str "abb".
Definition kFeatureFixedPushSymlinkTimestamp := str "fixed_push_symlink_timestamp".
Definition kFeatureAbbExec := str "abb_exec".
Definition kFeatureRemountShell := str "remount_shell".
Definition kFeatureTrackApp := str "track_app".
Definition kFeatureSendRecv2 := str "sendrecv_v2".
Definition kFeatureSendRecv2Brotli := str "sendrecv_v2_brotli".
Definition kFeatureSendRecv2LZ4 := str "sendrecv_v2_lz4".
Definition kFeatureSendRecv2Zstd := str "sendrecv_v2_zstd".
Definition kFeatureSendRecv2DryRunSend := str "sendrecv_v2_dry_run_send".
Definition kFeatureDelayedAck := str "delayed_ack".
Definition kFeatureOpenscreenMdns := str "openscreen_mdns".
Definition kFeatureDeviceTrackerProtoFormat := str "devicetracker_proto_format".
Definition kFeatureDevRaw := str "devraw".
Definition kFeatureAppInfo := str "app_info".
Definition kFeatureServerStatus := str "server_status".

(** [delayed_ack_enabled] reads [$ADB_DELAYED_ACK] once. *)
Definition supported_features (delayed_ack_enabled : bool) : list bytes :=
  [kFeatureShell2; kFeatureCmd; kFeatureStat2; kFeatureLs2; kFeatureFixedPushMkdir;
   kFeatureApex; kFeatureAbb; kFeatureFixedPushSymlinkTimestamp; kFeatureAbbExec;
   kFeatureRemountShell; kFeatureTrackApp; kFeatureSendRecv2; kFeatureSendRecv2Brotli;
   kFeatureSendRecv2LZ4; kFeatureSendRecv2Zstd; kFeatureSendRecv2DryRunSend;
   kFeatureOpenscreenMdns; kFeatureDeviceTrackerProtoFormat; kFeatureDevRaw;
   kFeatureAppInfo; kFeatureServerStatus]
  ++ (if delayed_ack_enabled then [kFeatureDelayedAck] else []).

Definition comma : byte := Zbyte 44.

Definition FeatureSetToString (features : list bytes) : bytes := Join features comma.

Definition StringToFeatureSet (features_string : bytes) : outcome (list bytes) :=
  if bool_decide (features_string = []) then Ret [] else Split features_string [comma].

Definition contains (r : list bytes) (v : bytes) : bool := bool_decide (v ∈ r).

Definition CanUseFeature (env : bool) (feature_set : list bytes) (feature : bytes) : bool :=
  contains feature_set feature && contains (supported_features env) feature.

Definition has_feature (t : atransport) (feature : bytes) : bool := contains (features_ t) feature.

Definition SetFeatures (env : bool) (t : atransport) (features_string : bytes) : outcome atransport :=
  fs ← StringToFeatureSet features_string;
  Ret (t <| features_ := fs |> <| delayed_ack_ := CanUseFeature env fs kFeatureDelayedAck |>).

(** ** Packet output *)

(** [send_packet]: stamps the header, hands the packet to the connection, and
    kicks the transport when the connection refuses it. *)
Definition send_packet (p : apacket) (t : atransport) : outcome atransport :=
  p ← stamp_packet (protocol_version t) p;
  Ret (if writable t then t <| sent ::= λ l, l ++ [p] |> else Kick t).

(** [HandleRead]: whether the packet goes on to [handle_packet]. *)
Definition HandleRead (t : atransport) (p : apacket) : bool := check_header p (max_payload t).

Section output.
Context (junk : nat → byte).

(** [get_apacket()] with the header fields and payload the senders fill in. *)
Definition make_packet (cmd a0 a1 : Z) (data : bytes) : outcome apacket :=
  b ← Block.assign junk Block.default data;
  Ret (APacket (AMessage cmd a0 a1 (u32 (Block.size_ b)) 0 0) b).

Definition send_ready (local remote : Z) (t : atransport) (ack_bytes : Z) : outcome atransport :=
  p ← make_packet A_OKAY local remote (if SupportsDelayedAck t then le32 ack_bytes else []);
  send_packet p t.

Definition send_close (local remote : Z) (t : atransport) : outcome atransport :=
  p ← make_packet A_CLSE local remote []; send_packet p t.

Definition send_tls_request (t : atransport) : outcome atransport :=
  p ← make_packet A_STLS A_STLS_VERSION 0 []; send_packet p t.

(** [adb_device_banner] is "host" in the server. *)
Definition get_connection_string (env : bool) (banner : bytes) : bytes :=
  banner ++ str "::" ++ Join [str "features=" ++ FeatureSetToString (supported_features env)] (Zbyte 59).

Definition send_connect (env : bool) (banner : bytes) (t : atransport) : outcome atransport :=
  let connection_str := get_connection_string env banner in
  _ ← check (zlen connection_str <=? MAX_PAYLOAD_V1);
  p ← make_packet A_CNXN A_VERSION (max_payload t) connection_str;
  send_packet p t.

(** ** Authentication: [adb/client/auth.cpp]

    The key store is a parameter. *)
Context (private_keys : list nat) (userkey : bytes).

Definition ADB_AUTH_TOKEN : Z := 1.
Definition ADB_AUTH_SIGNATURE : Z := 2.
Definition ADB_AUTH_RSAPUBLICKEY : Z := 3.

Definition Key (t : atransport) : option nat := head (keys_ t).

Definition NextKey (t : atransport) : outcome (option nat * atransport) :=
  match keys_ t with
  | [] =>
      _ ← check (negb (bool_decide (private_keys = [])));
      let t := t <| keys_ := private_keys |> in Ret (Key t, t)
  | _ :: ks => let t := t <| keys_ := ks |> in Ret (Key t, t)
  end.

Definition ResetKeys (t : atransport) : atransport := t <| keys_ := [] |>.

Definition send_auth_publickey (t : atransport) : outcome atransport :=
  if bool_decide (userkey = []) then Ret t
  else if MAX_PAYLOAD_V1 <=? zlen userkey then Ret t
  else
    p ← make_packet A_AUTH ADB_AUTH_RSAPUBLICKEY 0 (userkey ++ [NUL]);
    send_packet p t.

End output.

(** ** The connection banner *)

(** One [key=value] of the property list. *)
Definition banner_prop (env : bool) (t : atransport) (prop : bytes) : outcome atransport :=
  if bool_decide (prop = []) then Ret t
  else
    key_value ← Split prop (str "=");
    match key_value with
    | [key; value] =>
        if bool_decide (key = str "ro.product.name") then Ret (t <| product := value |>)
        else if bool_decide (key = str "ro.product.model") then Ret (t <| model := value |>)
        else if bool_decide (key = str "ro.product.device") then Ret (t <| device := value |>)
        else if bool_decide (key = str "features") then SetFeatures env t value
        else Ret t
    | _ => Ret t
    end.

Fixpoint banner_props (env : bool) (t : atransport) (props : list bytes) : outcome atransport :=
  match props with
  | [] => Ret t
  | p :: ps => t ← banner_prop env t p; banner_props env t ps
  end.

Definition banner_state (ty : bytes) : ConnectionState :=
  if bool_decide (ty = str "bootloader") then kCsBootloader
  else if bool_decide (ty = str "device") then kCsDevice
  else if bool_decide (ty = str "recovery") then kCsRecovery
  else if bool_decide (ty = str "sideload") then kCsSideload
  else if bool_decide (ty = str "rescue") then kCsRescue
  else kCsHost.

Definition parse_banner (env : bool) (banner : bytes) (t : atransport) : outcome atransport :=
  pieces ← Split banner (str ":");
  t ← SetFeatures env t [];
  t ← (match pieces !! 2%nat with
       | Some props => ps ← Split props (str ";"); banner_props env t ps
       | None => Ret t
       end);
  ty ← deref (pieces !! 0%nat);
  Ret (SetConnectionState t (banner_state ty)).

Definition handle_online (t : atransport) : atransport :=
  SetConnectionEstablished (t <| online := true |>) true.

(** ** Reverse forwards *)

Definition semicolon : byte := Zbyte 59.

Definition UpdateReverseConfig (t : atransport) (service_addr : bytes) : outcome atransport :=
  match ConsumePrefix service_addr (str "reverse:") with
  | None => Ret t
  | Some addr =>
      match ConsumePrefix addr (str "forward:") with
      | Some addr =>
          let '(norebind, addr) :=
            match ConsumePrefix addr (str "norebind:") with
            | Some a => (true, a) | None => (false, addr)
            end in
          match find_char addr semicolon 0 with
          | None => Ret t
          | Some it =>
              let remote := take it addr in
              if norebind && bool_decide (is_Some (reverse_forwards_ t !! remote)) then Ret t
              else Ret (t <| reverse_forwards_ ::= <[remote := drop (S it) addr]> |>)
          end
      | None =>
          match ConsumePrefix addr (str "killforward:") with
          | Some addr =>
              match find_char addr semicolon 0 with
              | Some _ => Ret t
              | None => Ret (t <| reverse_forwards_ ::= delete addr |>)
              end
          | None =>
              if bool_decide (addr = str "killforward-all") then Ret (t <| reverse_forwards_ := ∅ |>)
              else if bool_decide (addr = str "list-forward") then Ret t
              else Abort
          end
      end
  end.

Definition IsReverseConfigured (t : atransport) (local_addr : bytes) : bool :=
  bool_decide (local_addr ∈ (map_to_list (reverse_forwards_ t)).*2).

(** ** Choosing a transport *)

(** Compares the bytes of [pat] with what [ptr] points to; [ptr] is the rest of
    the array behind it, with its terminator. *)
Fixpoint scan (pat ptr : bytes) : outcome (option bytes) :=
  match pat with
  | [] => Ret (Some ptr)
  | c :: pat =>
      match ptr with
      | [] => UB
      | b :: ptr => if bool_decide (c = b) then scan pat ptr else Ret None
      end
  end.

Definition sanitize_char (b : byte) : byte := if isalnum b then b else Zbyte 95.

Definition qual_match (to_test prefix qual : bytes) (sanitize_qual : bool) : outcome bool :=
  if bool_decide (to_test = []) then Ret (bool_decide (qual = []))
  else if bool_decide (qual = []) then Ret false
  else
    r ← scan prefix (to_test ++ [NUL]);
    match r with
    | None => Ret false
    | Some ptr =>
        r ← scan (if sanitize_qual then sanitize_char <$> qual else qual) ptr;
        match r with
        | None => Ret false
        | Some ptr => b ← deref (head ptr); Ret (bool_decide (b = NUL))
        end
    end.

(** The part of [MatchesTarget] for network targets. *)
Definition matches_address (serial target : bytes) : outcome bool :=
  let local_target := if StartsWith target (str "tcp:") || StartsWith target (str "udp:")
                      then drop 4 target else target in
  r ← ParseNetAddress serial (-1);
  match r with
  | NetErr _ => Ret false
  | NetOk serial_host serial_port _ =>
      r ← ParseNetAddress (c_str local_target) serial_port;
      match r with
      | NetErr _ => Ret false
      | NetOk target_host target_port _ =>
          Ret (bool_decide (serial_host = target_host) && (serial_port =? target_port))
      end
  end.

Definition MatchesTarget (t : atransport) (target : bytes) : outcome bool :=
  by_serial ←
    (if negb (bool_decide (serial t = [])) then
       if bool_decide (target = serial t) then Ret true
       else if bool_decide (type t = kTransportLocal) then matches_address (serial t) target
       else Ret false
     else Ret false);
  if (by_serial : bool) then Ret true
  else if bool_decide (target = devpath t) then Ret true
  else
    b ← qual_match target (str "product:") (product t) false;
    if (b : bool) then Ret true
    else
      b ← qual_match target (str "model:") (model t) true;
      if (b : bool) then Ret true
      else qual_match target (str "device:") (device t) false.

(** What the caller asks for. *)
Record query := Query { q_type : TransportType; q_serial : option bytes; q_transport_id : Z }.

Definition not_found (q : query) : bytes :=
  if negb (q_transport_id q =? 0) then
    str "no device with transport id '" ++ print_u (q_transport_id q) ++ str "'"
  else match q_serial q with
       | Some s => str "device '" ++ s ++ str "' not found"
       | None =>
           match q_type q with
           | kTransportLocal => str "no emulators found"
           | kTransportAny => str "no devices/emulators found"
           | _ => str "no devices found"
           end
       end.

(** Whether [t] is a candidate, without the check of its id. *)
Definition candidate (q : query) (t : atransport) : outcome bool :=
  match q_serial q with
  | Some s => MatchesTarget t s
  | None =>
      Ret (match q_type q with
           | kTransportUsb => bool_decide (type t = kTransportUsb)
           | kTransportLocal => bool_decide (type t = kTransportLocal)
           | kTransportAny => true
           | kTransportHost => false
           end)
  end.

Definition ambiguous (q : query) : bytes :=
  match q_serial q with
  | Some s => str "more than one device with serial " ++ s
  | None =>
      match q_type q with
      | kTransportUsb => str "more than one USB device"
      | kTransportLocal => str "more than one emulator"
      | _ => str "more than one device/emulator"
      end
  end.

(** The loop over [transport_list]: result, [*is_ambiguous], [*error_out]. *)
Fixpoint acquire_loop (no_perm : bytes) (q : query) (l : list atransport)
    (result : option atransport) (error : bytes) : outcome (option atransport * bool * bytes) :=
  match l with
  | [] => Ret (result, false, error)
  | t :: l =>
      if bool_decide (connection_state_ t = kCsNoPerm) then acquire_loop no_perm q l result no_perm
      else if negb (q_transport_id q =? 0) then
        if id t =? q_transport_id q then Ret (Some t, false, error)
        else acquire_loop no_perm q l result error
      else
        m ← candidate q t;
        if (m : bool) then
          match result with
          | Some _ => Ret (None, true, ambiguous q)
          | None => acquire_loop no_perm q l (Some t) error
          end
        else acquire_loop no_perm q l result error
  end.

(** The check that the transport is connected; [keys] is [$ADB_VENDOR_KEYS]. *)
Definition require_active (keys : option bytes) (t : atransport) : option atransport * bytes :=
  match connection_state_ t with
  | kCsConnecting => (None, str "device still connecting")
  | kCsAuthorizing => (None, str "device still authorizing")
  | kCsUnauthorized =>
      (None, str "device unauthorized." ++ [Zbyte 10] ++ str "This adb server's $ADB_VENDOR_KEYS is "
             ++ default (str "not set") keys ++ [Zbyte 10]
             ++ str "Try 'adb kill-server' if that seems wrong." ++ [Zbyte 10]
             ++ str "Otherwise check for a confirmation dialog on your device.")
  | kCsOffline => (None, str "device offline")
  | _ => (Some t, [])
  end.

Definition acquire_one_transport (no_perm : bytes) (keys : option bytes) (l : list atransport)
    (q : query) (accept_any_state : bool) : outcome (option atransport * bool * bytes) :=
  '(result, is_ambiguous, error) ← acquire_loop no_perm q l None (not_found q);
  let '(result, error) :=
    match result with
    | Some t => if accept_any_state then (Some t, error)
                else match require_active keys t with
                     | (Some t, _) => (Some t, error)
                     | (None, e) => (None, e)
                     end
    | None => (None, error)
    end in
  Ret (result, is_ambiguous, match result with Some _ => str "success" | None => error end).

Definition find_transport (l : list atransport) (serial_ : bytes) : option atransport :=
  snd <$> list_find (λ t, c_str (serial t) = c_str serial_) l.

(** [--one-device]; [None] when the server owns every device. *)
Definition transport_server_owns_device (one_device : option bytes) (dev_path serial_ : bytes) : bool :=
  match one_device with
  | None => true
  | Some d => bool_decide (serial_ = d) || bool_decide (dev_path = d)
  end.

(** ** Listing transports *)

Definition newline : byte := Zbyte 10.

Definition sanitize (s : bytes) (alphanumeric : bool) : bytes :=
  (λ c, if (if alphanumeric then negb (isalnum c) else bool_decide (c = newline))
        then Zbyte 95 else c) <$> s.

Definition append_transport_info (key value : bytes) (alphanumeric : bool) : bytes :=
  if bool_decide (value = []) then [] else str " " ++ key ++ sanitize value alphanumeric.

(** [%-22s] *)
Definition pad22 (s : bytes) : bytes := s ++ replicate (22 - length s) (Zbyte 32).

Definition append_transport (no_perm : bytes) (t : atransport) (long_listing : bool) : bytes :=
  let serial_ := if bool_decide (serial t = []) then str "(no serial number)" else serial t in
  (if negb long_listing then
     serial_ ++ [Zbyte 9] ++ to_string no_perm (connection_state_ t)
   else
     pad22 (c_str serial_) ++ str " " ++ c_str (to_string no_perm (connection_state_ t))
     ++ append_transport_info [] (devpath t) false
     ++ append_transport_info (str "product:") (product t) false
     ++ append_transport_info (str "model:") (model t) true
     ++ append_transport_info (str "device:") (device t) false
     ++ str " transport_id:" ++ print_u (id t))
  ++ [newline].

Definition transportListToText (no_perm : bytes) (l : list atransport) (long_listing : bool) : bytes :=
  concat ((λ t, append_transport no_perm t long_listing) <$> l).

Inductive TrackerOutputType := SHORT_TEXT | LONG_TEXT | PROTOBUF | TEXT_PROTOBUF.

(** The order of [TransportType]'s enumerators. *)
Definition type_rank (ty : TransportType) : Z :=
  match ty with kTransportUsb => 0 | kTransportLocal => 1 | kTransportAny => 2 | kTransportHost => 3 end.

(** [operator<] of [std::string] *)
Fixpoint bytes_lt (x y : bytes) : bool :=
  match x, y with
  | _, [] => false
  | [], _ :: _ => true
  | a :: x, b :: y => (byteZ a <? byteZ b) || ((byteZ a =? byteZ b) && bytes_lt x y)
  end.

Definition transport_lt (x y : atransport) : bool :=
  if negb (type_rank (type x) =? type_rank (type y)) then type_rank (type x) <? type_rank (type y)
  else bytes_lt (serial x) (serial y).

(** [std::list::sort] is stable: an element moves behind the smaller ones only. *)
Fixpoint insert_transport (x : atransport) (l : list atransport) : list atransport :=
  match l with
  | [] => [x]
  | y :: l' => if transport_lt y x then y :: insert_transport x l' else x :: l
  end.

Definition sort_transports (l : list atransport) : list atransport := foldr insert_transport [] l.

(** Texts that come from elsewhere: the help on USB permissions, short and long,
    and the protobuf form of the list, in binary or text. *)
Class Texts := {
  no_perm_short : bytes;
  no_perm_long : bytes;
  transportListToProto : list atransport → bool → bytes
}.

(** [list_transports] on the contents of [transport_list]. *)
Definition list_transports `{Texts} (output : TrackerOutputType) (l : list atransport) : bytes :=
  let sorted := sort_transports l in
  match output with
  | SHORT_TEXT => transportListToText no_perm_short sorted false
  | LONG_TEXT => transportListToText no_perm_short sorted true
  | PROTOBUF => transportListToProto sorted false
  | TEXT_PROTOBUF => transportListToProto sorted true
  end.
