(* ===== verification/TransportFacts.v ===== *)
(** * Facts about transports ([Transport]): features and the banner, reverse
    forwards, authentication, choosing and listing transports *)

From S2P Require Import Prelude CString CStringFacts LibBase LibBaseFacts Types TypesFacts.
From S2P Require Import AdbIO Packets PacketsFacts Transport.
Local Open Scope Z_scope.
Local Open Scope record_scope.

(** ** Features and the banner *)

Lemma Split_join ps c : ps ≠ [] → Forall (Forall (λ b, b ≠ c)) ps → Split (Join ps c) [c] = Ret ps.
Proof. intros. rewrite Split_ref, Join_ref, split_join_ref by done. done. Qed.

Lemma StringToFeatureSet_join fs :
  fs ≠ [[]] → Forall (λ f, comma ∉ f) fs → StringToFeatureSet (FeatureSetToString fs) = Ret fs.
Proof.
  intros Hne Hf. unfold StringToFeatureSet, FeatureSetToString.
  destruct fs as [|f fs]; [done|]. rewrite bool_decide_false.
  - apply Split_join; [done|]. eapply Forall_impl; [exact Hf|]. intros ?. by rewrite Forall_not_elem.
  - rewrite Join_ref. intros E. destruct fs; simpl in E; [by subst|]. by destruct f.
Qed.

Definition keyval (k v : bytes) : bytes := k ++ str "=" ++ v.

(** What a device sends in its CNXN packet. *)
Definition device_banner (ty name mod_ dev : bytes) (fs : list bytes) : bytes :=
  ty ++ str "::" ++
  Join [keyval (str "ro.product.name") name; keyval (str "ro.product.model") mod_;
        keyval (str "ro.product.device") dev; keyval (str "features") (FeatureSetToString fs)]
       semicolon.

(** Bytes with a meaning in the banner. *)
Definition banner_clean (s : bytes) : Prop :=
  Forall (λ c, c ∉ s) [colon; semicolon; Zbyte 61].

Lemma Split_keyval k v :
  Zbyte 61 ∉ k → Zbyte 61 ∉ v → Split (keyval k v) (str "=") = Ret [k; v].
Proof.
  intros Hk Hv. assert (keyval k v = Join [k; v] (Zbyte 61)) as ->.
  { unfold keyval, Join. cbn. done. }
  apply Split_join; [done|]. by rewrite !Forall_cons, <- !Forall_not_elem.
Qed.

Lemma keyval_not c k v : c ≠ Zbyte 61 → c ∉ k → c ∉ v → c ∉ keyval k v.
Proof.
  intros ? ? ?. unfold keyval. rewrite !not_elem_of_app. split_and!; try done.
  change (str "=") with [Zbyte 61]. by rewrite list_elem_of_singleton.
Qed.

Lemma join_not c d ps : c ≠ d → Forall (λ p, c ∉ p) ps → c ∉ Join ps d.
Proof.
  intros Hc Hf. rewrite Join_ref. induction Hf as [|p ps Hp Hf IH]; [set_solver|].
  destruct ps; [done|]. cbn [join_ref]. set_solver.
Qed.

Lemma banner_clean_not c s : banner_clean s → c ∈ [colon; semicolon; Zbyte 61] → c ∉ s.
Proof. intros H Hc. exact (proj1 (Forall_forall _ _) H c Hc). Qed.

Lemma features_not c fs :
  c ≠ comma → Forall (λ f, c ∉ f) fs → c ∉ FeatureSetToString fs.
Proof. intros. by apply join_not. Qed.

Lemma banner_keyval_props k v c :
  c ∈ [colon; semicolon] → Forall (λ c, c ∉ k) [colon; semicolon; Zbyte 61] → banner_clean v →
  c ∉ keyval k v.
Proof.
  intros Hc Hk Hv. apply keyval_not.
  - intros ->. apply list_elem_of_In in Hc. cbn in Hc. intuition discriminate.
  - eapply banner_clean_not; [exact Hk|]. set_solver.
  - eapply banner_clean_not; [exact Hv|]. set_solver.
Qed.

Lemma features_clean fs :
  Forall (λ f, banner_clean f) fs → banner_clean (FeatureSetToString fs).
Proof.
  intros H. apply Forall_forall. intros c Hc. apply features_not.
  - intros ->. apply list_elem_of_In in Hc. cbn in Hc. intuition discriminate.
  - eapply Forall_impl; [exact H|]. intros f Hf. by eapply banner_clean_not.
Qed.

(** A decidable form of the side condition, for concrete banners. *)
Definition banner_cleanb (s : bytes) : bool :=
  forallb (λ c, negb (bool_decide (c ∈ s))) [colon; semicolon; Zbyte 61].

Lemma banner_cleanb_ok s : banner_cleanb s = true → banner_clean s.
Proof.
  intros Hs. apply Forall_forall. intros c Hc%list_elem_of_In.
  apply (proj1 (forallb_forall _ _) Hs) in Hc. by destruct (bool_decide_reflect (c ∈ s)).
Qed.

(** The keys of the banner contain none of its separators. *)
Lemma banner_keys_clean :
  Forall banner_clean [str "ro.product.name"; str "ro.product.model"; str "ro.product.device"; str "features"].
Proof. rewrite !Forall_cons, Forall_nil. split_and!; try done; by apply banner_cleanb_ok. Qed.

Lemma banner_prop_keyval env t k v :
  banner_clean k → banner_clean v → k ≠ [] →
  banner_prop env t (keyval k v) =
    if bool_decide (k = str "ro.product.name") then Ret (t <| product := v |>)
    else if bool_decide (k = str "ro.product.model") then Ret (t <| model := v |>)
    else if bool_decide (k = str "ro.product.device") then Ret (t <| device := v |>)
    else if bool_decide (k = str "features") then SetFeatures env t v else Ret t.
Proof.
  intros Hk Hv Hne. unfold banner_prop. rewrite bool_decide_false by (by destruct k).
  rewrite Split_keyval by (eapply banner_clean_not; [done|set_solver]). done.
Qed.

(** Decides comparisons of literals. *)
Ltac decide_lits :=
  repeat match goal with
  | |- context [bool_decide (str ?a = str ?b)] =>
      let v := eval vm_compute in (bool_decide (str a = str b)) in
      change (bool_decide (str a = str b)) with v
  end.

Lemma parse_banner_device env t ty name mod_ dev fs :
  banner_clean ty → banner_clean name → banner_clean mod_ → banner_clean dev →
  fs ≠ [[]] → Forall (λ f, banner_clean f ∧ comma ∉ f) fs →
  parse_banner env (device_banner ty name mod_ dev fs) t =
  Ret (t <| features_ := fs |> <| delayed_ack_ := CanUseFeature env fs kFeatureDelayedAck |>
         <| product := name |> <| model := mod_ |> <| device := dev |>
         <| connection_state_ := banner_state ty |>).
Proof.
  intros Hty Hn Hm Hd Hne [Hfc Hf]%Forall_and.
  pose proof banner_keys_clean as K. rewrite !Forall_cons in K. destruct K as (K1 & K2 & K3 & K4 & _).
  pose proof (features_clean fs Hfc) as Hfs.
  unfold device_banner. set (props := Join _ semicolon).
  assert (colon ∉ props) as Hcol.
  { apply join_not; [done|]. rewrite !Forall_cons.
    split_and!; try apply banner_keyval_props; try done; set_solver. }
  assert (ty ++ str "::" ++ props = Join [ty; []; props] colon) as ->.
  { rewrite Join_ref. done. }
  unfold parse_banner. rewrite Split_join; [|done|].
  2:{ rewrite !Forall_cons, <- !Forall_not_elem. split_and!; try done; [|set_solver].
      eapply banner_clean_not; [done|set_solver]. }
  mstep. cbn [lookup list_lookup]. unfold props. rewrite Split_join; [|done|].
  2:{ rewrite !Forall_cons, <- !Forall_not_elem.
      split_and!; try apply banner_keyval_props; try done; set_solver. }
  mstep. cbn [banner_props]. change (SetFeatures env t []) with
    (Ret (t <| features_ := [] |> <| delayed_ack_ := CanUseFeature env [] kFeatureDelayedAck |>)).
  mstep. do 4 (rewrite banner_prop_keyval by done; mstep; decide_lits; mstep).
  unfold SetFeatures. rewrite StringToFeatureSet_join by done. done.
Qed.

(** A device banner is parsed into exactly the product, model, device,
    feature set and connection state it was built from, whatever the transport
    held before, provided no field contains a separator of the format. *)
Theorem banner_roundtrip env t ty name mod_ dev fs :
  Forall banner_clean [ty; name; mod_; dev] →
  fs ≠ [[]] → Forall (λ f, banner_clean f ∧ comma ∉ f) fs →
  parse_banner env (device_banner ty name mod_ dev fs) t =
  Ret (t <| features_ := fs |> <| delayed_ack_ := CanUseFeature env fs kFeatureDelayedAck |>
         <| product := name |> <| model := mod_ |> <| device := dev |>
         <| connection_state_ := banner_state ty |>).
Proof.
  rewrite !Forall_cons. intros (? & ? & ? & ? & _) ? ?. by apply parse_banner_device.
Qed.

Lemma banner_roundtrip_witness :
  connection_state_ <$> parse_banner true
    (device_banner (str "device") (str "sdk") (str "Pixel_8") (str "shiba") [str "shell_v2"; str "cmd"])
    (new_atransport 1 kCsOffline) = Ret kCsDevice.
Proof.
  rewrite banner_roundtrip.
  - vm_compute. reflexivity.
  - rewrite !Forall_cons, Forall_nil. split_and!; try exact I; apply banner_cleanb_ok; vm_compute; reflexivity.
  - discriminate.
  - rewrite !Forall_cons, Forall_nil. split_and!; try exact I;
      try (apply banner_cleanb_ok; vm_compute; reflexivity);
      apply (bool_decide_unpack (_ ∉ _)); vm_compute; exact I.
Defined.

(** ** Choosing a transport *)

Lemma scan_ok pat : ∀ s, NUL ∉ pat →
  scan pat (s ++ [NUL]) =
  Ret (if StartsWith s pat then Some (drop (length pat) s ++ [NUL]) else None).
Proof.
  induction pat as [|c pat IH]; intros s H; [done|]. apply not_elem_of_cons in H as [Hc Hp].
  destruct s as [|b s]; cbn [app scan].
  { rewrite bool_decide_false by done. unfold StartsWith, substr. by rewrite bool_decide_false. }
  unfold StartsWith, substr in *. cbn [length drop take]. destruct (bool_decide_reflect (c = b)) as [->|Hb].
  - rewrite IH by done. rewrite drop_0. cbn [take].
    destruct (bool_decide_reflect (take (length pat) s = pat)) as [E|E];
      destruct (bool_decide_reflect (b :: take (length pat) s = b :: pat)) as [E'|E']; try done;
      exfalso; apply E || apply E'; congruence.
  - rewrite bool_decide_false by congruence. done.
Qed.

Lemma StartsWith_all s p : StartsWith s p = true → s = p ++ drop (length p) s.
Proof.
  unfold StartsWith, substr. intros E%bool_decide_eq_true. rewrite drop_0 in E.
  rewrite <- E at 1. by rewrite take_drop.
Qed.

Lemma StartsWith_app p s : StartsWith (p ++ s) p = true.
Proof. unfold StartsWith, substr. rewrite drop_0, take_app_length. by apply bool_decide_eq_true. Qed.

(** The name a qualifier gives a device. *)
Definition qual_name (prefix qual : bytes) (sanitize_qual : bool) : bytes :=
  prefix ++ (if sanitize_qual then sanitize_char <$> qual else qual).

Lemma sanitize_char_not_nul (q : bytes) : NUL ∉ sanitize_char <$> q.
Proof.
  intros (b & E & Hb)%list_elem_of_fmap. unfold sanitize_char in E. destruct (isalnum b) eqn:Ea; [|done].
  by subst.
Qed.

Lemma qual_match_spec s prefix qual z :
  NUL ∉ s → NUL ∉ prefix → z = true ∨ NUL ∉ qual →
  qual_match s prefix qual z =
  Ret (bool_decide (s = [] ∧ qual = [] ∨ s ≠ [] ∧ qual ≠ [] ∧ s = qual_name prefix qual z)).
Proof.
  intros Hs Hp Hq. unfold qual_match.
  destruct (bool_decide_reflect (s = [])) as [->|Hne].
  { f_equal. apply bool_decide_ext. naive_solver. }
  destruct (bool_decide_reflect (qual = [])) as [->|Hqn].
  { rewrite bool_decide_false by naive_solver. done. }
  rewrite scan_ok by done. unfold qual_name. set (q := if z then _ else qual).
  assert (NUL ∉ q) as Hq' by (destruct z; [apply sanitize_char_not_nul|by destruct Hq]).
  mstep. destruct (StartsWith s prefix) eqn:E.
  - apply StartsWith_all in E. remember (drop (length prefix) s) as s' eqn:Es. clear Es. subst s.
    rewrite scan_ok by done. mstep. destruct (StartsWith s' q) eqn:E'.
    + apply StartsWith_all in E'. remember (drop (length q) s') as r eqn:Er. clear Er. subst s'.
      destruct r as [|b r]; cbn [head app deref]; mstep.
      * rewrite !bool_decide_true; [done| |done]. right. rewrite app_nil_r in *. naive_solver.
      * rewrite !bool_decide_false; [done| |].
        { intros [?|(_ & _ & E2)]; [naive_solver|]. apply (f_equal length) in E2.
          rewrite !length_app in E2. cbn [length] in E2. lia. }
        { intros ->. set_solver. }
    + rewrite bool_decide_false; [done|]. intros [?|(_ & _ & E2)]; [naive_solver|].
      apply app_inv_head in E2. subst s'. pose proof (StartsWith_app q []) as X.
      rewrite app_nil_r in X. congruence.
  - rewrite bool_decide_false; [done|]. intros [?|(_ & _ & ->)]; [naive_solver|].
    by rewrite StartsWith_app in E.
Qed.

(** [t] and the target are the same network endpoint. *)
Definition same_address (serial_ target : bytes) : Prop :=
  ∃ h p c c', ParseNetAddress serial_ (-1) = Ret (NetOk h p c) ∧
    ParseNetAddress (if StartsWith target (str "tcp:") || StartsWith target (str "udp:")
                     then drop 4 target else target) p = Ret (NetOk h p c').

(** The names a client can use for [t]. *)
Definition names (t : atransport) (s : bytes) : Prop :=
  (serial t ≠ [] ∧ (s = serial t ∨ type t = kTransportLocal ∧ same_address (serial t) s)) ∨
  s = devpath t ∨
  (s = [] ∧ (product t = [] ∨ model t = [] ∨ device t = [])) ∨
  (s ≠ [] ∧ ((product t ≠ [] ∧ s = qual_name (str "product:") (product t) false) ∨
             (model t ≠ [] ∧ s = qual_name (str "model:") (model t) true) ∨
             (device t ≠ [] ∧ s = qual_name (str "device:") (device t) false))).

Lemma ParseNetAddress_total a port : ∃ r, ParseNetAddress a port = Ret r.
Proof.
  unfold ParseNetAddress. destruct (split_address_total a) as [r ->]. mstep.
  repeat case_match; eauto.
Qed.

Lemma matches_address_spec serial_ target :
  NUL ∉ target → ∃ b, matches_address serial_ target = Ret b ∧ (b = true ↔ same_address serial_ target).
Proof.
  intros H. unfold matches_address, same_address. set (lt := if _ || _ then _ else target).
  assert (NUL ∉ lt) as Hl.
  { unfold lt. destruct (_ || _); [|done]. intros E. apply H.
    rewrite <- (take_drop 4 target). set_solver. }
  destruct (ParseNetAddress_total serial_ (-1)) as [r E]. rewrite E. mstep.
  destruct r as [h p c|]; [|exists false; split; [done|]; split; [done|by intros (? & ? & ? & ? & ? & ?)]].
  rewrite c_str_id by done. destruct (ParseNetAddress_total lt p) as [r E']. rewrite E'. mstep.
  destruct r as [h' p' c'|].
  2:{ exists false. split; [done|]. split; [done|]. intros (? & ? & ? & ? & ? & ?). congruence. }
  eexists. split; [done|]. rewrite andb_true_iff, bool_decide_eq_true, Z.eqb_eq. split.
  - intros [-> ->]. eauto 10.
  - intros (? & ? & ? & ? & ? & ?). simplify_eq. split; congruence.
Qed.

Definition quals_ok (t : atransport) : Prop := (NUL ∉ product t) ∧ (NUL ∉ device t).

Lemma MatchesTarget_spec t s :
  NUL ∉ s → quals_ok t → ∃ b, MatchesTarget t s = Ret b ∧ (b = true ↔ names t s).
Proof.
  intros Hs (Hp & Hd). unfold MatchesTarget, names.
  assert (∃ b : bool, (if negb (bool_decide (serial t = [])) then
       if bool_decide (s = serial t) then Ret true
       else if bool_decide (type t = kTransportLocal) then matches_address (serial t) s
       else Ret false
     else Ret false) = Ret b ∧
     (b = true ↔ serial t ≠ [] ∧ (s = serial t ∨ type t = kTransportLocal ∧ same_address (serial t) s)))
    as (b & -> & Hb).
  { destruct (bool_decide_reflect (serial t = [])); cbn [negb]; [exists false; intuition congruence|].
    destruct (bool_decide_reflect (s = serial t)); [exists true; tauto|].
    destruct (bool_decide_reflect (type t = kTransportLocal)); [|exists false; intuition congruence].
    destruct (matches_address_spec (serial t) s Hs) as (b & -> & Hb). exists b. tauto. }
  mstep. destruct b; [exists true; tauto|].
  destruct (bool_decide_reflect (s = devpath t)); [exists true; tauto|].
  rewrite !qual_match_spec by (first [done|by left|by right|by apply (bool_decide_unpack (NUL ∉ _))]). mstep.
  case_bool_decide; [exists true; tauto|].
  case_bool_decide; [exists true; tauto|].
  eexists. split; [done|]. rewrite bool_decide_eq_true.
  assert (Hn : ¬ (serial t ≠ [] ∧ (s = serial t ∨ type t = kTransportLocal ∧ same_address (serial t) s)))
    by (intros X; by apply Hb in X).
  clear Hb. split; [intros [[? ?]|(? & ? & ?)]; eauto 9|].
  intros [?|[?|[[? [?|[?|?]]]|[? [[? ?]|[[? ?]|[? ?]]]]]]]; subst; eauto; exfalso; eauto 7.
Qed.

(** [MatchesTarget] decides exactly whether [s] is one of the names of
    the transport: its serial, for a network device any spelling of its host and
    port (with or without a tcp:/udp: prefix, the port optional), its device
    path, or its product, model (sanitised) or device name with the matching
    prefix.  The empty target names every device that lacks one of the three.
    A product name with a NUL makes the comparison read past the target. *)
Theorem MatchesTarget_correct t s :
  NUL ∉ s → quals_ok t →
  (∃ b, MatchesTarget t s = Ret b ∧ (b = true ↔ names t s)) ∧
  MatchesTarget (t <| serial := [] |> <| devpath := [] |> <| product := str "ab" ++ [NUL] ++ str "c" |>)
    (str "product:ab") = UB.
Proof.
  intros Hs Ht. split; [by apply MatchesTarget_spec|]. destruct t. vm_compute. reflexivity.
Qed.

(** The transports that match a query without a transport id. *)
Definition candidates (q : query) (l : list atransport) : list atransport :=
  filter (λ t, connection_state_ t ≠ kCsNoPerm ∧ candidate q t = Ret true) l.

Lemma acquire_loop_spec no_perm q l : ∀ result error,
  q_transport_id q = 0 → Forall (λ t, ∃ b, candidate q t = Ret b) l →
  acquire_loop no_perm q l result error =
  Ret (match option_list result ++ candidates q l with
       | [] => (None, false, if bool_decide (Exists (λ t, connection_state_ t = kCsNoPerm) l)
                             then no_perm else error)
       | [t] => (Some t, false, if bool_decide (Exists (λ t, connection_state_ t = kCsNoPerm) l)
                                then no_perm else error)
       | _ => (None, true, ambiguous q)
       end).
Proof.
  intros result error Hq Hl. revert result error.
  induction Hl as [|t l [b Hb] Hl IH]; intros result error; cbn [acquire_loop].
  { by destruct result. }
  unfold candidates in *. rewrite filter_cons, Hb.
  destruct (bool_decide_reflect (connection_state_ t = kCsNoPerm)) as [Hs|Hs].
  - rewrite IH, decide_False by naive_solver.
    rewrite (bool_decide_true (Exists _ (t :: l))) by (by constructor).
    by case_bool_decide.
  - rewrite Hq. mstep. cbn [Z.eqb negb].
    rewrite (bool_decide_ext (Exists _ (t :: l)) (Exists (λ t, connection_state_ t = kCsNoPerm) l))
      by (rewrite Exists_cons; naive_solver).
    destruct b.
    + rewrite decide_True by done. destruct result as [r|]; [done|]. by rewrite IH.
    + rewrite decide_False by naive_solver. by rewrite IH.
Qed.

(** The states in which a device cannot serve a client. *)
Definition inactive (s : ConnectionState) : Prop :=
  s = kCsConnecting ∨ s = kCsAuthorizing ∨ s = kCsUnauthorized ∨ s = kCsOffline.

Lemma require_active_spec keys t :
  (inactive (connection_state_ t) ∧ ∃ e, require_active keys t = (None, e)) ∨
  (¬ inactive (connection_state_ t) ∧ require_active keys t = (Some t, [])).
Proof.
  unfold require_active, inactive.
  destruct (connection_state_ t); first [left; split; [tauto|eexists; done] | right; split; [naive_solver|done]].
Qed.

Lemma candidate_total q t :
  (∀ s, q_serial q = Some s → NUL ∉ s) → quals_ok t → ∃ b, candidate q t = Ret b.
Proof.
  intros Hs Ht. unfold candidate. destruct (q_serial q) as [s|]; [|eauto].
  destruct (MatchesTarget_spec t s) as (b & ? & _); eauto.
Qed.


(** Any query, also one for a transport id: a listed transport is chosen, or none. *)
Lemma acquire_loop_total no_perm q l : ∀ result error,
  (∀ s, q_serial q = Some s → NUL ∉ s) → Forall quals_ok l →
  ∃ r amb e, acquire_loop no_perm q l result error = Ret (r, amb, e) ∧ ∀ t, r = Some t → t ∈ l ∨ result = Some t.
Proof.
  intros result error Hs Hl. revert result error.
  induction Hl as [|t l Ht Hl IH]; intros result error; cbn [acquire_loop]; [by eauto 10|].
  assert (∀ result' error', result' = result ∨ result' = Some t →
    ∃ r amb e, acquire_loop no_perm q l result' error' = Ret (r, amb, e) ∧ ∀ t', r = Some t' → t' ∈ t :: l ∨ result = Some t') as Hrec.
  { intros result' error' Hr. destruct (IH result' error') as (r & amb & e & -> & Hin). exists r, amb, e. split; [done|].
    intros t' Et. destruct (Hin t' Et) as [?| ->]; [left; by right|]. destruct Hr as [Hr|[= ->]]; [by right|left; by left]. }
  case_bool_decide; [by apply Hrec; left|]. destruct (negb _).
  - destruct (_ =? _); [|by apply Hrec; left]. eexists _, _, _. split; [done|]. intros t' [= <-]. left. by left.
  - destruct (candidate_total q t Hs Ht) as [b ->]. mstep. destruct b; [|by apply Hrec; left].
    destruct result as [t0|]; [|by apply Hrec; right]. by eexists _, _, _.
Qed.

Lemma acquire_one_transport_total no_perm keys l q accept_any :
  (∀ s, q_serial q = Some s → NUL ∉ s) → Forall quals_ok l →
  ∃ r amb e, acquire_one_transport no_perm keys l q accept_any = Ret (r, amb, e) ∧
    ∀ t, r = Some t → t ∈ l ∧ (accept_any = true ∨ ¬ inactive (connection_state_ t)).
Proof.
  intros Hs Hl. unfold acquire_one_transport.
  destruct (acquire_loop_total no_perm q l None (not_found q) Hs Hl) as (r & amb & e & -> & Hin). mstep.
  destruct r as [t|]; [|by eexists _, _, _]. destruct (Hin t eq_refl) as [Ht|]; [|done].
  destruct accept_any.
  - eexists _, _, _. split; [done|]. intros t' [= <-]. by split; [|left].
  - destruct (require_active_spec keys t) as [(_ & e' & ->)|(Ha & ->)]; eexists _, _, _; split; try done.
    intros t' [= <-]. by split; [|right].
Qed.

Definition sample_device (tid : Z) (ty : TransportType) (s : string) (st : ConnectionState) : atransport :=
  (new_atransport tid st) <| type := ty |> <| serial := str s |>.


Lemma MatchesTarget_correct_witness :
  (∃ b, MatchesTarget (sample_device 2 kTransportLocal "10.0.0.2:5555" kCsDevice) (str "tcp:10.0.0.2") = Ret b ∧
   (b = true ↔ names (sample_device 2 kTransportLocal "10.0.0.2:5555" kCsDevice) (str "tcp:10.0.0.2"))).
Proof.
  apply (MatchesTarget_correct (sample_device 2 kTransportLocal "10.0.0.2:5555" kCsDevice) (str "tcp:10.0.0.2"));
    [|repeat split]; apply (bool_decide_unpack (_ ∉ _)); vm_compute; exact I.
Defined.

(** ** Reverse forwards *)

Lemma ConsumePrefix_Some s p r : ConsumePrefix s p = Some r → s = p ++ r.
Proof.
  unfold ConsumePrefix. destruct (StartsWith s p) eqn:E; [|done]. intros [= <-].
  by apply StartsWith_all.
Qed.

Lemma ConsumePrefix_app p r : ConsumePrefix (p ++ r) p = Some r.
Proof. unfold ConsumePrefix. by rewrite StartsWith_app, drop_app_length. Qed.

Lemma find_char_first s c i :
  find_char s c 0 = Some i → s = take i s ++ c :: drop (S i) s ∧ c ∉ take i s.
Proof.
  unfold find_char, find_if. rewrite drop_0.
  destruct (list_find _ s) as [[j x]|] eqn:E; [|done]. intros [= <-].
  apply list_find_Some in E as (E & Hx & Hlt). apply bool_decide_eq_true in Hx as ->. cbn [fst]. split.
  - by rewrite take_drop_middle.
  - intros Hin%list_elem_of_lookup. destruct Hin as [k Hk].
    apply lookup_take_Some in Hk as [Hk Hlt']. apply (Hlt k c) in Hk; [|lia].
    by rewrite bool_decide_true in Hk.
Qed.

(** [s] asks for a reverse forward of [remote] to [local]. *)
Definition forward_request (s remote local : bytes) : Prop :=
  ∃ nb : bool, s = str "reverse:forward:" ++ (if nb then str "norebind:" else []) ++ remote ++ [semicolon] ++ local
               ∧ semicolon ∉ remote.

(** [s] asks to remove the forward of [remote]. *)
Definition kill_request (s remote : bytes) : Prop :=
  s = str "reverse:killforward:" ++ remote ∨ s = str "reverse:killforward-all".

Lemma ConsumePrefix_None_not s p r : ConsumePrefix s p = None → s ≠ p ++ r.
Proof. intros E ->. by rewrite ConsumePrefix_app in E. Qed.

Lemma find_char_None s c : find_char s c 0 = None → c ∉ s.
Proof.
  unfold find_char, find_if. rewrite drop_0. destruct (list_find _ s) as [[]|] eqn:E; [done|].
  intros _ Hin. apply list_find_None in E. rewrite Forall_forall in E. apply (E c Hin).
  by apply bool_decide_eq_true.
Qed.

(** An entry of the table after a request is either new, or was there before
    and the request does not remove it. *)
Lemma UpdateReverseConfig_entries t s t' remote local :
  UpdateReverseConfig t s = Ret t' → reverse_forwards_ t' !! remote = Some local →
  forward_request s remote local ∨
  (reverse_forwards_ t !! remote = Some local ∧ (semicolon ∉ remote → ¬ kill_request s remote)).
Proof.
  unfold UpdateReverseConfig, kill_request. intros H Hl.
  destruct (ConsumePrefix s (str "reverse:")) as [a|] eqn:E1.
  2:{ injection H as ->. right. split; [done|]. intros _ [->| ->]; vm_compute in E1; done. }
  apply ConsumePrefix_Some in E1 as ->.
  destruct (ConsumePrefix a (str "forward:")) as [a1|] eqn:E2.
  { apply ConsumePrefix_Some in E2 as ->.
    assert (∀ a2 (nb : bool), str "forward:" ++ a1 = str "forward:" ++ (if nb then str "norebind:" else []) ++ a2 →
      (match find_char a2 semicolon 0 with
       | None => Ret t
       | Some it => if nb && bool_decide (is_Some (reverse_forwards_ t !! take it a2)) then Ret t
                    else Ret (t <| reverse_forwards_ ::= <[take it a2 := drop (S it) a2]> |>)
       end = Ret t') → forward_request (str "reverse:" ++ str "forward:" ++ a1) remote local ∨
         reverse_forwards_ t !! remote = Some local) as Hfwd.
    { intros a2 nb Ea. destruct (find_char a2 semicolon 0) as [it|] eqn:Ef; [|intros [= ->]; auto].
      apply find_char_first in Ef as [Ef Hn]. destruct (_ && _); intros [= <-]; [auto|].
      cbn in Hl. apply lookup_insert_Some in Hl as [[<- <-]|[_ ?]]; [|auto].
      left. exists nb. split; [|done]. rewrite Ea. by rewrite Ef at 1. }
    assert (forward_request (str "reverse:" ++ str "forward:" ++ a1) remote local ∨
            reverse_forwards_ t !! remote = Some local) as [?|?]; [|by left|].
    - destruct (ConsumePrefix a1 (str "norebind:")) as [a2|] eqn:E3.
      + apply ConsumePrefix_Some in E3 as ->. by apply (Hfwd a2 true).
      + by apply (Hfwd a1 false).
    - right. split; [done|]. intros _ [E|E]; discriminate E. }
  right. destruct (ConsumePrefix a (str "killforward:")) as [a1|] eqn:E3.
  { apply ConsumePrefix_Some in E3 as ->. destruct (find_char a1 semicolon 0) as [it|] eqn:Ef; injection H as <-.
    - split; [done|]. intros Hr [E|E]; [|discriminate E].
      apply (app_inv_head (str "reverse:killforward:") a1 remote) in E as ->.
      apply find_char_first in Ef as [Ef _]. apply Hr. rewrite Ef. set_solver.
    - cbn in Hl. apply lookup_delete_Some in Hl as [Hne Hl]. split; [done|].
      intros _ [E|E]; [|discriminate E]. by apply (app_inv_head (str "reverse:killforward:") a1 remote) in E. }
  case_bool_decide as Ea; [by injection H as <-|]. case_bool_decide as Eb; [|done].
  injection H as <-. split; [done|]. subst a. intros _ [E|E]; discriminate E.
Qed.

(** Runs [UpdateReverseConfig] on one service address after the other. *)
Fixpoint update_all (t : atransport) (l : list bytes) : outcome atransport :=
  match l with
  | [] => Ret t
  | s :: l => t ← UpdateReverseConfig t s; update_all t l
  end.

Lemma update_all_entries l : ∀ t t' remote local,
  update_all t l = Ret t' → reverse_forwards_ t' !! remote = Some local → semicolon ∉ remote →
  (∃ pre s post, l = pre ++ s :: post ∧ forward_request s remote local ∧
                 Forall (λ s', ¬ kill_request s' remote) post) ∨
  (reverse_forwards_ t !! remote = Some local ∧ Forall (λ s', ¬ kill_request s' remote) l).
Proof.
  induction l as [|s l IH]; intros t t' remote local H Hl Hr; cbn [update_all] in H.
  { injection H as <-. right. by split. }
  apply bind_ret_inv in H as (t1 & H1 & H).
  destruct (IH _ _ _ _ H Hl Hr) as [(pre & s' & post & -> & ? & ?)|[Hl1 Hk]].
  { left. by exists (s :: pre), s', post. }
  destruct (UpdateReverseConfig_entries _ _ _ _ _ H1 Hl1) as [?|[? Hn]].
  - left. by exists [], s, l.
  - right. split; [done|]. constructor; auto.
Qed.

Lemma UpdateReverseConfig_keys t s t' :
  UpdateReverseConfig t s = Ret t' → map_Forall (λ r _, semicolon ∉ r) (reverse_forwards_ t) →
  map_Forall (λ r _, semicolon ∉ r) (reverse_forwards_ t').
Proof.
  intros H Ht r l Hl. destruct (UpdateReverseConfig_entries _ _ _ _ _ H Hl) as [(nb & _ & ?)|[? _]]; [done|].
  by eapply Ht.
Qed.

Lemma update_all_keys l : ∀ t t',
  update_all t l = Ret t' → map_Forall (λ r _, semicolon ∉ r) (reverse_forwards_ t) →
  map_Forall (λ r _, semicolon ∉ r) (reverse_forwards_ t').
Proof.
  induction l as [|s l IH]; intros t t' H Ht; cbn [update_all] in H; [by injection H as <-|].
  apply bind_ret_inv in H as (t1 & H1 & H). eapply IH; [done|]. by eapply UpdateReverseConfig_keys.
Qed.

(** C32: The table of reverse forwards authorises a connection only on
    request: if, after any sequence of service addresses, a device may connect
    to [local], then one of them asked for a reverse forward to [local], and no
    later one removed it. *)
Theorem reverse_connect_authorised t l t' local :
  reverse_forwards_ t = ∅ → update_all t l = Ret t' → IsReverseConfigured t' local = true →
  ∃ remote pre s post, l = pre ++ s :: post ∧ forward_request s remote local ∧
    Forall (λ s', ¬ kill_request s' remote) post.
Proof.
  intros H0 H Hc. unfold IsReverseConfigured in Hc. apply bool_decide_eq_true in Hc.
  apply list_elem_of_fmap in Hc as ([remote local'] & -> & Hin%elem_of_map_to_list).
  assert (semicolon ∉ remote) as Hr.
  { eapply (update_all_keys _ _ _ H); [|done]. rewrite H0. apply map_Forall_empty. }
  destruct (update_all_entries _ _ _ _ _ H Hin Hr) as [(pre & s & post & ?)|[E _]].
  - by exists remote, pre, s, post.
  - by rewrite H0, lookup_empty in E.
Qed.

Lemma reverse_connect_authorised_witness :
  ∃ remote pre s post,
    [str "reverse:forward:tcp:1;tcp:2"; str "reverse:killforward:tcp:9"] = pre ++ s :: post ∧
    forward_request s remote (str "tcp:2") ∧ Forall (λ s', ¬ kill_request s' remote) post.
Proof.
  refine (reverse_connect_authorised (new_atransport 1 kCsDevice) _ _ _ eq_refl _ _).
  - vm_compute. reflexivity.
  - vm_compute. reflexivity.
Defined.

Lemma ConsumePrefix_before a c b p :
  c ∉ p → ConsumePrefix a p = None → ConsumePrefix (a ++ c :: b) p = None.
Proof.
  intros Hc H. destruct (ConsumePrefix (a ++ c :: b) p) as [r|] eqn:E; [|done].
  apply ConsumePrefix_Some in E. apply app_eq_inv in E as [(k & -> & Ek)|(k & -> & Ek)].
  - by rewrite ConsumePrefix_app in H.
  - destruct k as [|x k].
    + pose proof (ConsumePrefix_app a []) as X. rewrite app_nil_r in *. congruence.
    + simplify_list_eq. set_solver.
Qed.

Lemma find_char_app a c b : c ∉ a → find_char (a ++ c :: b) c 0 = Some (length a).
Proof.
  intros H. unfold find_char, find_if. rewrite drop_0, list_find_app_r.
  - cbn. rewrite bool_decide_true by done. rewrite decide_True by done. done.
  - apply list_find_None, Forall_forall. intros x Hx E%bool_decide_eq_true. by subst.
Qed.

Lemma find_char_absent a c : c ∉ a → find_char a c 0 = None.
Proof.
  intros H. unfold find_char, find_if. rewrite drop_0.
  assert (list_find (λ b, bool_decide (b = c) = true) a = None) as ->; [|done].
  apply list_find_None, Forall_forall. intros x Hx E%bool_decide_eq_true. by subst.
Qed.

Lemma drop_app_S {A} (a : list A) c b : drop (S (length a)) (a ++ c :: b) = b.
Proof. by rewrite cons_middle, app_assoc, drop_app_length' by (rewrite length_app; cbn; lia). Qed.

(** Each reverse request a client can make takes effect as its grammar
    says, and any other "reverse:" service ends the server: the last branch of
    [UpdateReverseConfig] is fatal. *)
Theorem UpdateReverseConfig_effect t remote local other :
  semicolon ∉ remote → ConsumePrefix remote (str "norebind:") = None →
  ConsumePrefix other (str "forward:") = None → ConsumePrefix other (str "killforward:") = None →
  other ≠ str "killforward-all" → other ≠ str "list-forward" →
  UpdateReverseConfig t (str "reverse:forward:" ++ remote ++ [semicolon] ++ local)
    = Ret (t <| reverse_forwards_ ::= <[remote := local]> |>) ∧
  UpdateReverseConfig t (str "reverse:killforward:" ++ remote)
    = Ret (t <| reverse_forwards_ ::= delete remote |>) ∧
  UpdateReverseConfig t (str "reverse:killforward-all") = Ret (t <| reverse_forwards_ := ∅ |>) ∧
  UpdateReverseConfig t (str "reverse:" ++ other) = Abort.
Proof.
  intros Hr Hnb H1 H2 H3 H4. split_and!.
  - change (str "reverse:forward:" ++ remote ++ [semicolon] ++ local)
      with (str "reverse:" ++ str "forward:" ++ remote ++ semicolon :: local).
    unfold UpdateReverseConfig. rewrite !ConsumePrefix_app.
    rewrite ConsumePrefix_before by (done || by apply (bool_decide_unpack (_ ∉ _))).
    by rewrite find_char_app, take_app_length, drop_app_S.
  - change (str "reverse:killforward:" ++ remote) with (str "reverse:" ++ str "killforward:" ++ remote).
    unfold UpdateReverseConfig. rewrite !ConsumePrefix_app.
    change (ConsumePrefix (str "killforward:" ++ remote) (str "forward:")) with (@None bytes).
    by rewrite find_char_absent.
  - done.
  - unfold UpdateReverseConfig. rewrite ConsumePrefix_app, H1, H2. by rewrite !bool_decide_false.
Qed.

Lemma UpdateReverseConfig_effect_witness :
  UpdateReverseConfig (new_atransport 1 kCsDevice) (str "reverse:" ++ str "bogus") = Abort.
Proof.
  apply (UpdateReverseConfig_effect (new_atransport 1 kCsDevice) (str "tcp:1") (str "tcp:2") (str "bogus"));
    [apply (bool_decide_unpack (_ ∉ _)); vm_compute; exact I|reflexivity..|discriminate|discriminate].
Defined.
