(* ===== verification/HostService.v ===== *)
(** * Service requests of clients: the parsers of [adb/sockets.cpp] and
    [adb/adb_utils.h]

    The four-digit length, transport ids, and the split of a "host-serial:"
    request into the serial of a device and a command. *)

From S2P Require Import Prelude CString LibBase.
Local Open Scope Z_scope.

(** ** [adb_utils.h] *)

(** [ParseUint(&result, str, &remaining)] for a type with maximum [max]. *)
Definition ParseUint_rest (max : Z) (s : bytes) : option (Z * bytes) := from_chars max s.

(** [ParseUint(&result, str)] *)
Definition ParseUint_all (max : Z) (s : bytes) : option Z :=
  match from_chars max s with
  | Some (v, []) => Some v
  | _ => None
  end.

Fixpoint strip_leading_nulls (s : bytes) : bytes :=
  match s with
  | b :: r => if bool_decide (b = NUL) then strip_leading_nulls r else s
  | [] => []
  end.

(** The loop runs over the reversed string. *)
Definition StripTrailingNulls (s : bytes) : bytes := reverse (strip_leading_nulls (reverse s)).

(** ** [sockets.cpp] *)

Definition unhex_digit (c : byte) : option Z :=
  let c := byteZ c in
  if (48 <=? c) && (c <=? 57) then Some (c - 48)
  else if (97 <=? c) && (c <=? 102) then Some (c - 97 + 10)
  else if (65 <=? c) && (c <=? 70) then Some (c - 65 + 10)
  else None.

Fixpoint unhex_loop (n : Z) (s : bytes) (len : nat) : outcome Z :=
  match len with
  | O => Ret n
  | S len =>
      match s with
      | [] => UB
      | c :: s =>
          match unhex_digit c with
          | None => Ret 0xffffffff
          | Some d => unhex_loop (Z.lor (u32 (Z.shiftl n 4)) d) s len
          end
      end
  end.

Definition unhex (s : bytes) (len : nat) : outcome Z := unhex_loop 0 s len.

(** The two views of [parse_host_service]: [serial] is a prefix of
    [full_service], [command] what follows it. *)
Definition consume (full_service serial command : bytes) (count : nat) : outcome (bytes * bytes) :=
  _ ← check (count <=? length command)%nat;
  _ ← check (bool_decide (serial = []) ||
             (length serial + length command =? length full_service)%nat);
  Ret (take (length serial + count) full_service, drop count command).

Definition finish (serial command : bytes) : outcome (option (bytes * bytes)) :=
  if bool_decide (serial = []) || bool_decide (command = []) then Ret None
  else
    _ ← check (bool_decide (last serial = Some colon));
    Ret (Some (take (length serial - 1) serial, command)).

Definition serial_prefixes : list bytes :=
  [str "usb:"; str "product:"; str "model:"; str "device:"; str "localfilesystem:"].

(** [command[0]] *)
Definition first_char (command : bytes) : outcome byte := deref (head command).

(** The serial is an IPv6 address in brackets: the views after it and its
    colon.  [inl None] is a failure, [inl (Some _)] an address, [inr tt] none. *)
Definition parse_ipv6 (full serial command : bytes)
  : outcome (option (bytes * bytes) + unit) :=
  c ← first_char command;
  if bool_decide (c = bracket_open) then
    match find_char command (Zbyte 93) 0 with
    | None => Ret (inr tt)
    | Some ipv6_end =>
        '(serial, command) ← consume full serial command (ipv6_end + 1);
        match command with
        | [] => Ret (inl None)
        | c :: _ =>
            if negb (bool_decide (c = colon)) then Ret (inl None)
            else r ← consume full serial command 1; Ret (inl (Some r))
        end
    end
  else Ret (inr tt).

(** From the port, or the command itself. *)
Definition parse_port (full serial command : bytes) : outcome (option (bytes * bytes)) :=
  match find_char command colon 0 with
  | None => finish serial command
  | Some next_colon =>
      if (length command <=? next_colon)%nat then Ret None
      else if forallb isdigit (take next_colon command) then
        '(serial, command) ← consume full serial command (next_colon + 1);
        finish serial command
      else finish serial command
  end.

(** From the address; the serial may have a "tcp:", "udp:" or "vsock:" prefix. *)
Definition parse_address (full serial command : bytes) : outcome (option (bytes * bytes)) :=
  address ← parse_ipv6 full serial command;
  match address with
  | inl None => Ret None
  | inl (Some (serial, command)) => parse_port full serial command
  | inr _ =>
      match find_char command colon 0 with
      | None => Ret None
      | Some offset =>
          '(serial, command) ← consume full serial command (offset + 1);
          parse_port full serial command
      end
  end.

(** [parse_host_service]: the serial and the command. *)
Definition parse_host_service (full_service : bytes) : outcome (option (bytes * bytes)) :=
  if bool_decide (full_service = []) then Ret None
  else
    match find (starts_with full_service) serial_prefixes with
    | Some prefix =>
        '(serial, command) ← consume full_service [] full_service (length prefix);
        match find_char command colon 0 with
        | None => Ret None
        | Some offset =>
            '(serial, command) ← consume full_service serial command (offset + 1);
            finish serial command
        end
    | None =>
        '(serial, command) ←
          (if starts_with full_service (str "tcp:") || starts_with full_service (str "udp:")
           then consume full_service [] full_service 4 else Ret ([], full_service));
        if bool_decide (serial ≠ []) && bool_decide (command = []) then Ret None
        else
          r ← (if starts_with command (str "vsock:") then
                 match find_char command colon 0 with
                 | None => Ret None
                 | Some next_colon => Some <$> consume full_service serial command (next_colon + 1)
                 end
               else Ret (Some (serial, command)));
          match r with
          | None => Ret None
          | Some (serial, command) => parse_address full_service serial command
          end
    end.
