(* ===== verification/HostServiceFacts.v ===== *)
(** * Facts about service requests: how [parse_host_service] divides a request
    into the serial of a device and the command *)

From S2P Require Import Prelude CString CStringFacts LibBase LibBaseFacts Types AdbIO Packets.
From S2P Require Import Transport TransportFacts HostService.
Local Open Scope Z_scope.

(** The two views cover the request, and the first one is empty or ends in a colon. *)
Record views (full serial command : bytes) : Prop := {
  vw_full : full = serial ++ command;
  vw_colon : serial = [] ∨ last serial = Some colon
}.

Lemma consume_ok full serial command count :
  full = serial ++ command → (count ≤ length command)%nat →
  consume full serial command count = Ret (serial ++ take count command, drop count command).
Proof.
  intros -> Hc. unfold consume. rewrite (proj2 (Nat.leb_le _ _) Hc). mstep.
  rewrite length_app, Nat.eqb_refl, orb_true_r. mstep. by rewrite take_app_add.
Qed.

Lemma consume_prefix full p :
  starts_with full p = true → last p = Some colon →
  ∃ command, consume full [] full (length p) = Ret (p, command) ∧ views full p command.
Proof.
  intros Hs%starts_with_inv Hl. exists (drop (length p) full). split; [|by split; [|right]].
  rewrite consume_ok; [|done|rewrite Hs, length_app; lia]. cbn [app]. by rewrite Hs at 1; rewrite take_app_length.
Qed.

(** Up to a colon. *)
Lemma consume_colon full serial command i :
  views full serial command → find_char command colon 0 = Some i →
  ∃ serial', consume full serial command (i + 1) = Ret (serial', drop (S i) command) ∧
    serial' = serial ++ take i command ++ [colon] ∧ views full serial' (drop (S i) command).
Proof.
  intros [Hf _] Hi. destruct (find_char_first _ _ _ Hi) as [Hs _].
  assert (length (take i command) = i) as Hl.
  { rewrite length_take. pose proof (f_equal length Hs) as E. rewrite length_app, length_take in E. cbn in E. lia. }
  assert (command !! i = Some colon) as Hat.
  { rewrite Hs, lookup_app_r, Hl, Nat.sub_diag by lia. done. }
  pose proof (take_S_r _ _ _ Hat) as Ht.
  eexists. rewrite consume_ok; [|done|].
  2:{ rewrite Hs, length_app. cbn. lia. }
  rewrite Nat.add_1_r, Ht. split_and!; [done..|]. split.
  - rewrite Hf, <- !app_assoc. f_equal. exact Hs.
  - right. by rewrite app_assoc, last_snoc.
Qed.

(** What the parser may answer. *)
Definition divides (full : bytes) (r : outcome (option (bytes * bytes))) : Prop :=
  match r with
  | Ret (Some (serial, command)) => full = serial ++ colon :: command ∧ command ≠ []
  | Ret None => True
  | _ => False
  end.

Lemma finish_divides full serial command : views full serial command → divides full (finish serial command).
Proof.
  intros [Hf Hc]. unfold finish. destruct (bool_decide_reflect (serial = [])); [done|].
  destruct (bool_decide_reflect (command = [])); [done|]. destruct Hc as [|Hc]; [done|].
  rewrite bool_decide_true by done. mstep. split; [|done]. rewrite Hf. apply last_Some in Hc as [s ->].
  rewrite length_app, Nat.add_sub, take_app_length. by rewrite <- app_assoc.
Qed.

Lemma parse_port_divides full serial command :
  views full serial command → divides full (parse_port full serial command).
Proof.
  intros Hv. unfold parse_port. destruct (find_char command colon 0) as [i|] eqn:Hi; [|by apply finish_divides].
  destruct (_ <=? _)%nat; [done|]. destruct (forallb _ _); [|by apply finish_divides].
  destruct (consume_colon _ _ _ _ Hv Hi) as (s' & -> & _ & Hv'). mstep. by apply finish_divides.
Qed.

Lemma parse_ipv6_ok full serial command :
  views full serial command → command ≠ [] →
  match parse_ipv6 full serial command with
  | Ret (inl (Some (s, c))) => views full s c
  | Ret _ => True
  | _ => False
  end.
Proof.
  intros [Hf _] Hne. unfold parse_ipv6, first_char. destruct command as [|b command]; [done|]. cbn [head deref]. mstep.
  case_bool_decide; [|done]. destruct (find_char (b :: command) (Zbyte 93) 0) as [i|] eqn:Hi; [|done].
  destruct (find_char_first _ _ _ Hi) as [Hs _].
  rewrite consume_ok; [|done|].
  2:{ rewrite Hs, length_app, length_take. cbn [length]. pose proof (f_equal length Hs) as E.
      rewrite length_app, length_take in E. cbn [length] in *. lia. }
  mstep. set (c2 := drop (i + 1) (b :: command)). set (s2 := serial ++ take (i + 1) (b :: command)).
  assert (full = s2 ++ c2) as Hf2 by (unfold s2, c2; by rewrite <- app_assoc, take_drop).
  destruct c2 as [|d c2]; [done|]. destruct (bool_decide_reflect (d = colon)) as [->|]; [|done]. cbn [negb].
  rewrite consume_ok; [|done|cbn; lia]. mstep. cbn. split; [by rewrite take_0, <- app_assoc|].
  right. by rewrite take_0, last_snoc.
Qed.

Lemma parse_address_divides full serial command :
  views full serial command → command ≠ [] → divides full (parse_address full serial command).
Proof.
  intros Hv Hne. unfold parse_address. pose proof (parse_ipv6_ok full serial command Hv Hne) as H.
  destruct (parse_ipv6 full serial command) as [[[[s c]|]|]| | |]; mstep; try done; [by apply parse_port_divides|].
  destruct (find_char command colon 0) as [i|] eqn:Hi; [|done].
  destruct (consume_colon _ _ _ _ Hv Hi) as (s' & -> & _ & Hv'). mstep. by apply parse_port_divides.
Qed.

(** The rest of the parser, after a "tcp:" or "udp:". *)
Definition parse_vsock (full serial command : bytes) : outcome (option (bytes * bytes)) :=
  r ← (if starts_with command (str "vsock:") then
         match find_char command colon 0 with
         | None => Ret None
         | Some next_colon => Some <$> consume full serial command (next_colon + 1)
         end
       else Ret (Some (serial, command)));
  match r with
  | None => Ret None
  | Some (serial, command) => parse_address full serial command
  end.

Lemma parse_vsock_divides full serial command :
  views full serial command → command ≠ [] →
  divides full (parse_vsock full serial command) ∨
  parse_vsock full serial command = UB ∧ full = serial ++ str "vsock:".
Proof.
  intros Hv Hne. unfold parse_vsock. destruct (starts_with command (str "vsock:")) eqn:Hs.
  2:{ mstep. left. by apply parse_address_divides. }
  apply starts_with_inv in Hs. set (rest := drop (length (str "vsock:")) command) in *.
  assert (find_char command colon 0 = Some 5%nat) as Hi.
  { rewrite Hs. apply (find_char_app (str "vsock") colon rest). apply (bool_decide_unpack (_ ∉ _)). by vm_compute. }
  rewrite Hi. destruct (consume_colon _ _ _ _ Hv Hi) as (s' & -> & Es' & Hv'). mstep. cbn [fmap].
  change (drop 6 command) with rest in *. destruct rest as [|b rest'] eqn:Er; [right|left; by apply parse_address_divides].
  split; [done|]. rewrite (vw_full _ _ _ Hv), Hs. done.
Qed.

(** Whatever [parse_host_service] accepts is the request divided at a colon
    into a serial and a command that is not empty; it reads outside its argument
    exactly for a request that ends after "vsock:", and never fails a check. *)
Theorem parse_host_service_divides full :
  match parse_host_service full with
  | Ret (Some (serial, command)) => full = serial ++ colon :: command ∧ command ≠ []
  | Ret None => True
  | UB => full ∈ [str "vsock:"; str "tcp:vsock:"; str "udp:vsock:"]
  | _ => False
  end ∧ Forall (λ s, parse_host_service s = UB) [str "vsock:"; str "tcp:vsock:"; str "udp:vsock:"].
Proof.
  split; [|by repeat constructor].
  assert (∀ r, divides full r → match r with
    | Ret (Some (serial, command)) => full = serial ++ colon :: command ∧ command ≠ []
    | Ret None => True
    | UB => full ∈ [str "vsock:"; str "tcp:vsock:"; str "udp:vsock:"]
    | _ => False
    end) as Hd by (by intros [[[]|]| | |]).
  unfold parse_host_service. case_bool_decide as Hne; [done|]. destruct (find _ _) as [prefix|] eqn:Hp.
  - apply find_some in Hp as [Hin Hs]. apply Hd.
    assert (last prefix = Some colon) as Hc by (unfold serial_prefixes in Hin; cbn in Hin; naive_solver).
    destruct (consume_prefix full prefix Hs Hc) as (command & -> & Hv). mstep.
    destruct (find_char command colon 0) as [i|] eqn:Hi; [|done].
    destruct (consume_colon _ _ _ _ Hv Hi) as (s' & -> & _ & Hv'). mstep. by apply finish_divides.
  - set (sc := if _ || _ then _ else _ : outcome (bytes * bytes)).
    assert (∃ serial command, sc = Ret (serial, command) ∧ views full serial command ∧
      serial ∈ [[]; str "tcp:"; str "udp:"]) as (serial & command & -> & Hv & Hin).
    { unfold sc. destruct (starts_with full (str "tcp:")) eqn:H1; cbn [orb].
      { destruct (consume_prefix full (str "tcp:")) as (command & ? & ?); [done..|].
        exists (str "tcp:"), command. split_and!; [done..|right; by left]. }
      destruct (starts_with full (str "udp:")) eqn:H2.
      { destruct (consume_prefix full (str "udp:")) as (command & ? & ?); [done..|].
        exists (str "udp:"), command. split_and!; [done..|right; right; by left]. }
      exists [], full. split_and!; [done|by split; [|left]|by left]. }
    mstep. destruct (bool_decide_reflect (command = [])) as [->|Hc].
    { rewrite andb_true_r. case_bool_decide as Hser; [done|]. destruct Hv as [Hf _].
      by subst. }
    rewrite andb_false_r. fold (parse_vsock full serial command).
    destruct (parse_vsock_divides full serial command Hv Hc) as [?|[-> ->]]; [by apply Hd|]. set_solver.
Qed.

(** ** Serials that are understood *)

(** The words that start a serial of another form. *)
Definition reserved_words : list bytes :=
  [str "usb"; str "product"; str "model"; str "device"; str "localfilesystem"; str "tcp"; str "udp"; str "vsock"].

Lemma starts_with_word s c p :
  colon ∉ s → colon ∉ p → s ≠ p → starts_with (s ++ colon :: c) (p ++ [colon]) = false.
Proof.
  intros Hs Hp Hne. apply not_true_iff_false. intros H%starts_with_inv. apply Hne.
  rewrite <- app_assoc in H. pose proof (find_char_app s colon c Hs) as E1.
  rewrite H in E1. cbn [app] in E1. rewrite (find_char_app p colon _ Hp) in E1. injection E1 as E1.
  by apply app_inj_1 in H as [? _].
Qed.

(** A command that does not look like a port. *)
Definition not_port (c : bytes) : Prop :=
  match find_char c colon 0 with Some i => forallb isdigit (take i c) = false | None => True end.

(** The first part is taken for the address. *)
Lemma parse_plain s c :
  colon ∉ s → s ∉ reserved_words → s ≠ [] → head s ≠ Some bracket_open →
  parse_host_service (s ++ colon :: c) = parse_port (s ++ colon :: c) (s ++ [colon]) c.
Proof.
  intros Hs Hw Hne Hb. set (full := s ++ colon :: c).
  assert (∀ p p', p ∈ reserved_words → p' = p ++ [colon] → starts_with full p' = false) as Hno.
  { intros p p' Hp ->. apply starts_with_word; [done| |by intros ->].
    assert (Forall (λ p, colon ∉ p) reserved_words) as Hall by by_decide.
    rewrite Forall_forall in Hall. by apply Hall. }
  assert (full ≠ []) as Hf by (unfold full; by destruct s). unfold parse_host_service.
  rewrite bool_decide_false by done.
  assert (find (starts_with full) serial_prefixes = None) as ->.
  { unfold serial_prefixes. cbn [find].
    rewrite (Hno (str "usb") (str "usb:")), (Hno (str "product") (str "product:")), (Hno (str "model") (str "model:")),
      (Hno (str "device") (str "device:")), (Hno (str "localfilesystem") (str "localfilesystem:")) by by_decide. done. }
  rewrite (Hno (str "tcp") (str "tcp:")), (Hno (str "udp") (str "udp:")) by by_decide. cbn [orb]. mstep.
  rewrite (bool_decide_false (full = [])), andb_false_r by done.
  rewrite (Hno (str "vsock") (str "vsock:")) by by_decide. mstep. unfold parse_address, parse_ipv6, first_char.
  assert (head full = head s) as Hh by (unfold full; by destruct s). destruct s as [|b s]; [done|].
  change (head full) with (Some b). cbn [deref]. mstep. rewrite bool_decide_false by (intros ->; by apply Hb). mstep.
  unfold full at 1. rewrite find_char_app by done. rewrite consume_ok; [|done|unfold full; rewrite length_app; cbn; lia].
  mstep. cbn [app]. f_equal.
  - unfold full. by rewrite (app_assoc _ [colon] c), take_app_length' by (rewrite length_app; done).
  - unfold full. rewrite Nat.add_1_r. apply drop_app_S.
Qed.

(** A name that is not taken for something else. *)
Record plain_serial (s : bytes) : Prop := {
  ps_colon : colon ∉ s;
  ps_word : s ∉ reserved_words;
  ps_nonempty : s ≠ [];
  ps_bracket : head s ≠ Some bracket_open
}.

Lemma parse_serial s c :
  plain_serial s → c ≠ [] → not_port c → parse_host_service (s ++ colon :: c) = Ret (Some (s, c)).
Proof.
  intros [Hs Hw Hne Hb] Hc Hn. rewrite parse_plain by done. unfold parse_port, not_port in *.
  assert (finish (s ++ [colon]) c = Ret (Some (s, c))) as Hf.
  { unfold finish. rewrite !bool_decide_false by (done || by destruct s). cbn [orb].
    rewrite last_snoc, bool_decide_true by done. mstep. by rewrite length_app, Nat.add_sub, take_app_length. }
  destruct (find_char c colon 0) as [i|] eqn:Hi; [|done]. destruct (find_char_first _ _ _ Hi) as [Hd _].
  rewrite (proj2 (Nat.leb_gt _ _)).
  2:{ pose proof (f_equal length Hd) as E. rewrite length_app, length_take in E. cbn in E. lia. }
  by rewrite Hn.
Qed.

Lemma parse_serial_port s port c :
  plain_serial s → c ≠ [] → forallb isdigit port = true →
  parse_host_service (s ++ colon :: port ++ colon :: c) = Ret (Some (s ++ colon :: port, c)).
Proof.
  intros [Hs Hw Hne Hb] Hc Hp. rewrite parse_plain by done. unfold parse_port.
  assert (colon ∉ port) as Hcp.
  { intros Hin. rewrite forallb_forall in Hp. by specialize (Hp colon (proj1 (list_elem_of_In _ _) Hin)). }
  rewrite find_char_app by done. rewrite (proj2 (Nat.leb_gt _ _)) by (rewrite length_app; cbn; lia).
  rewrite take_app_length, Hp. rewrite consume_ok; [|by rewrite <- app_assoc|rewrite length_app; cbn; lia]. mstep.
  rewrite Nat.add_1_r, drop_app_S.
  replace (take (S (length port)) (port ++ colon :: c)) with (port ++ [colon]).
  2:{ change (port ++ colon :: c) with (port ++ [colon] ++ c).
      rewrite app_assoc, take_app_length' by (rewrite length_app; cbn; lia). done. }
  unfold finish. rewrite !bool_decide_false by (done || by destruct s). cbn [orb].
  rewrite app_assoc, last_snoc, bool_decide_true by done. mstep.
  rewrite length_app, Nat.add_sub, take_app_length. by rewrite <- app_assoc.
Qed.

(** Requests for a device by its serial, and for a network device by host
    and port, are divided at the right colon: the command may contain colons,
    and a host without a port is understood unless the command starts with
    something that looks like one. *)
Theorem parse_host_service_complete s port c :
  plain_serial s → c ≠ [] →
  (not_port c → parse_host_service (s ++ colon :: c) = Ret (Some (s, c))) ∧
  (forallb isdigit port = true →
   parse_host_service (s ++ colon :: port ++ colon :: c) = Ret (Some (s ++ colon :: port, c))).
Proof. intros Hs Hc. split; intros H; [by apply parse_serial|by apply parse_serial_port]. Qed.

Lemma parse_host_service_complete_witness :
  parse_host_service (str "emulator-5554:shell:ls") = Ret (Some (str "emulator-5554", str "shell:ls")) ∧
  parse_host_service (str "emulator-5554:5555:shell:ls") = Ret (Some (str "emulator-5554:5555", str "shell:ls")).
Proof.
  destruct (parse_host_service_complete (str "emulator-5554") (str "5555") (str "shell:ls")) as [H1 H2].
  - split; [by_decide|by_decide|discriminate|discriminate].
  - discriminate.
  - split; [apply H1; by vm_compute|by apply H2].
Defined.
