(* ===== verification/SocketSpec.v ===== *)
(** * Socket specifications: [adb/socket_spec.cpp]

    What a specification such as "tcp:8000", "localabstract:name" or
    "vsock:3:5555" denotes, for connecting and for listening, on a Linux host.
    The network itself is a parameter. *)

From S2P Require Import Prelude CString LibBase HostService.
Local Open Scope Z_scope.

Inductive socket_namespace := NAMESPACE_FILESYSTEM | NAMESPACE_RESERVED | NAMESPACE_ABSTRACT.

(** Name, namespace and availability. *)
Definition kLocalSocketTypes : list (bytes * (socket_namespace * bool)) :=
  [(str "local", (NAMESPACE_FILESYSTEM, true));
   (str "localreserved", (NAMESPACE_RESERVED, false));
   (str "localabstract", (NAMESPACE_ABSTRACT, true));
   (str "localfilesystem", (NAMESPACE_FILESYSTEM, true))].

Definition DEFAULT_ADB_LOCAL_TRANSPORT_PORT : Z := 5555.

(** Hostname, port and canonical address of a "tcp:" specification; the error
    otherwise.  The port is parsed from [&spec[4]], a C string: [after] is what
    follows the view in memory. *)
Inductive tcp_spec :=
| TcpSpec (hostname : bytes) (port : Z) (serial : option bytes)
| TcpError (error : bytes).

Definition parse_tcp_socket_spec (spec after : bytes) : outcome tcp_spec :=
  if negb (starts_with spec (str "tcp:")) then
    Ret (TcpError (str "specification is not tcp: " ++ spec))
  else
    s ← c_str_of_buffer (drop 4 spec ++ after);
    match ParseInt s INT_MIN INT_MAX with
    | Some port_value =>
        if (port_value <? 0) || (65535 <? port_value) then
          Ret (TcpError (str "bad port number '" ++ print_d port_value ++ str "'"))
        else Ret (TcpSpec [] port_value None)
    | None =>
        r ← ParseNetAddress (drop 4 spec) DEFAULT_ADB_LOCAL_TRANSPORT_PORT;
        match r with
        | NetOk host port serial => Ret (TcpSpec host port (Some serial))
        | NetErr e => Ret (TcpError e)
        end
    end.

(** The port, or -1 and an error. *)
Definition get_host_socket_spec_port (spec after : bytes) : outcome (Z * bytes) :=
  if starts_with spec (str "tcp:") then
    r ← parse_tcp_socket_spec spec after;
    match r with
    | TcpSpec _ port _ => Ret (port, [])
    | TcpError e => Ret (-1, e)
    end
  else if starts_with spec (str "vsock:") then
    fragments ← Split spec (str ":");
    match fragments with
    | [_; p] =>
        match ParseInt (c_str p) INT_MIN INT_MAX with
        | None => Ret (-1, str "could not parse vsock port")
        | Some port => if port <? 0 then Ret (-1, str "vsock port was negative.") else Ret (port, [])
        end
    | _ => Ret (-1, str "given vsock server socket string was invalid")
    end
  else Ret (-1, str "given socket spec string was invalid").

Definition tcp_host_is_local (hostname : bytes) : bool :=
  bool_decide (hostname = []) || bool_decide (hostname = str "localhost").

(** The entry of [kLocalSocketTypes] whose prefix the specification has, and
    what follows the prefix. *)
Fixpoint local_type (l : list (bytes * (socket_namespace * bool))) (spec : bytes)
  : option (bytes * (socket_namespace * bool) * bytes) :=
  match l with
  | [] => None
  | (name, ty) :: l =>
      if starts_with spec (name ++ [colon])
      then Some (name, ty, drop (length name + 1) spec) else local_type l spec
  end.

Definition has_local_type (spec : bytes) : bool :=
  match local_type kLocalSocketTypes spec with Some _ => true | None => false end.

Definition is_socket_spec (spec : bytes) : bool :=
  has_local_type spec || starts_with spec (str "tcp:") || starts_with spec (str "acceptfd:")
  || starts_with spec (str "vsock:").

Definition is_local_socket_spec (spec after : bytes) : outcome bool :=
  if has_local_type spec then Ret true
  else
    r ← parse_tcp_socket_spec spec after;
    Ret (match r with TcpSpec host _ _ => tcp_host_is_local host | TcpError _ => false end).

(** ** Connecting *)

Inductive endpoint :=
| LoopbackTcp (port : Z)
| RemoteTcp (host : bytes) (port : Z)
| Vsock (cid port : Z)
| LocalSocket (ns : socket_namespace) (name : bytes).

(** What is to be connected, the serial it gives the device when it sets one,
    and the port. *)
Record destination := Dest { d_endpoint : endpoint; d_serial : option bytes; d_port : Z }.

Definition UINT_MAX : Z := 2 ^ 32 - 1.

Definition vsock_destination (address : bytes) (port : Z) : outcome (bytes + destination) :=
  fragments ← Split address (str ":");
  let bad_cid := str "could not parse vsock cid in '" ++ c_str address ++ str "'" in
  let bad_port := str "could not parse vsock port in '" ++ c_str address ++ str "'" in
  let go cid port :=
    if port =? 0 then inl (str "vsock port was not provided.")
    else inr (Dest (Vsock cid port)
                (Some (str "vsock:" ++ print_u cid ++ str ":" ++ print_d (s32 port))) port) in
  Ret (match fragments with
       | [_; c] =>
           match ParseUint (c_str c) UINT_MAX false with
           | None => inl bad_cid
           | Some cid => go cid port
           end
       | [_; c; p] =>
           match ParseUint (c_str c) UINT_MAX false with
           | None => inl bad_cid
           | Some cid =>
               match ParseUint (c_str p) UINT_MAX false with
               | None => inl bad_port
               | Some port => go cid port
               end
           end
       | _ => inl (str "expected vsock:cid or vsock:cid:port in '" ++ c_str address ++ str "'")
       end).

(** The parsing part of [socket_spec_connect]; [port] is what the caller stored
    there, 0 without one. *)
Definition connect_destination (address after : bytes) (port : Z) : outcome (bytes + destination) :=
  if starts_with address (str "tcp:") then
    r ← parse_tcp_socket_spec address after;
    Ret (match r with
         | TcpError e => inl e
         | TcpSpec host p serial =>
             inr (Dest (if tcp_host_is_local host then LoopbackTcp p else RemoteTcp host p) serial p)
         end)
  else if starts_with address (str "vsock:") then vsock_destination address (u32 port)
  else if starts_with address (str "acceptfd:") then Ret (inl (str "cannot connect to acceptfd"))
  else
    match local_type kLocalSocketTypes address with
    | Some (name, (ns, available), rest) =>
        if negb available then
          Ret (inl (str "socket type " ++ name ++ str " is unavailable on this platform"))
        else
          s ← c_str_of_buffer (rest ++ after);
          Ret (inr (Dest (LocalSocket ns s) (Some address) port))
    | None => Ret (inl (str "unknown socket specification: " ++ address))
    end.

(** ** Listening *)

Inductive listener :=
| AnyTcp (port : Z)
| LoopbackListener (port : Z) (ipv4 : bool)
| VsockListener (port : Z)
| Inherited (fd : Z)
| LocalListener (ns : socket_namespace) (name : bytes).

(** The parsing part of [socket_spec_listen]. *)
Definition listen_destination (gListenAll : bool) (spec after : bytes) : outcome (bytes + listener) :=
  if starts_with spec (str "tcp:") then
    r ← parse_tcp_socket_spec spec after;
    Ret (match r with
         | TcpError e => inl e
         | TcpSpec host port _ =>
             if bool_decide (host = []) && gListenAll then inr (AnyTcp port)
             else if tcp_host_is_local host then inr (LoopbackListener port true)
             else if bool_decide (host = str "::1") then inr (LoopbackListener port false)
             else inl (str "listening on specified hostname currently unsupported")
         end)
  else if starts_with spec (str "vsock:") then
    '(port, e) ← get_host_socket_spec_port spec after;
    Ret (if port =? -1 then inl e else inr (VsockListener port))
  else
    match ConsumePrefix spec (str "acceptfd:") with
    | Some rest =>
        Ret (match ParseUint_all UINT_MAX rest with
             | Some fd_u => if INT_MAX <? fd_u then inl (str "invalid fd") else inr (Inherited fd_u)
             | None => inl (str "invalid fd")
             end)
    | None =>
        match local_type kLocalSocketTypes spec with
        | Some (name, (ns, available), rest) =>
            if negb available then
              Ret (inl (str "attempted to listen on unavailable socket type: " ++ spec))
            else
              s ← c_str_of_buffer (rest ++ after);
              Ret (inr (LocalListener ns s))
        | None => Ret (inl (str "unknown socket specification:" ++ spec))
        end
    end.

(** ** [adb_utils.cpp]: [forward_targets_are_valid] *)
Definition forward_targets_are_valid (source dest : bytes) : option bytes :=
  let port s := ParseInt (c_str (drop 4 s)) INT_MIN INT_MAX in
  if StartsWith source (str "tcp:") &&
     match port source with Some p => p <? 0 | None => true end
  then Some (str "Invalid source port: '" ++ c_str (drop 4 source) ++ str "'")
  else if StartsWith dest (str "tcp:") &&
     match port dest with Some p => p <=? 0 | None => true end
  then Some (str "Invalid destination port: '" ++ c_str (drop 4 dest) ++ str "'")
  else None.
