(* ===== verification/SocketSpecFacts.v ===== *)
(** * Facts about socket specifications

    Parsing terminates and stays within the specification; local
    specifications denote local endpoints; the serial a connection reports is
    itself a specification of the same endpoint. *)

From S2P Require Import Prelude CString CStringFacts LibBase LibBaseFacts HostService SocketSpec.
Local Open Scope Z_scope.

Lemma ParseInt_colon s min max : colon ∈ s → ParseInt s min max = None.
Proof. intros H. apply (ParseInt_bad colon); [done..|]. by_decide. Qed.

Lemma ParseNetAddress_returns a port : ∃ r, ParseNetAddress a port = Ret r.
Proof.
  unfold ParseNetAddress. destruct (split_address_total a) as [r ->]. mstep. repeat case_match; eauto.
Qed.

Lemma parse_tcp_total spec after : NUL ∈ spec ++ after → ∃ r, parse_tcp_socket_spec spec after = Ret r.
Proof.
  intros H. unfold parse_tcp_socket_spec. destruct (starts_with spec (str "tcp:")) eqn:E; cbn [negb]; [|eauto].
  rewrite c_str_of_buffer_ok. 2:{ apply (nul_behind spec (str "tcp:")); [done| |done]. by_decide. }
  mstep. destruct (ParseInt _ _ _); [destruct (_ || _); eauto|].
  destruct (ParseNetAddress_returns (drop 4 spec) DEFAULT_ADB_LOCAL_TRANSPORT_PORT) as [r ->]. mstep.
  destruct r; eauto.
Qed.

Lemma local_type_Some l spec name ty rest :
  local_type l spec = Some (name, ty, rest) →
  (name, ty) ∈ l ∧ spec = name ++ colon :: rest ∧ starts_with spec (name ++ [colon]) = true.
Proof.
  induction l as [|[n u] l IH]; cbn [local_type]; [done|].
  destruct (starts_with spec (n ++ [colon])) eqn:E.
  - intros [= <- <- <-]. split_and!; [by left| |done].
    pose proof (starts_with_inv _ _ E) as H. rewrite length_app in H. cbn [length] in H.
    rewrite <- app_assoc in H. done.
  - intros H. destruct (IH H) as (? & ? & ?). split_and!; [by right|done..].
Qed.

Lemma local_names_clean name ty : (name, ty) ∈ kLocalSocketTypes → NUL ∉ name ++ [colon].
Proof.
  intros H. repeat (apply elem_of_cons in H as [[= -> _]|H]; [by_decide|]). by apply elem_of_nil in H.
Qed.

(** Parsing an address stays within the buffer if that has a terminator. *)
(** What follows the prefix of a local socket's name ends in memory. *)
Lemma local_rest_total address after name ty rest :
  NUL ∈ address ++ after → local_type kLocalSocketTypes address = Some (name, ty, rest) →
  ∃ s, c_str_of_buffer (rest ++ after) = Ret s.
Proof.
  intros H E. destruct (local_type_Some _ _ _ _ _ E) as (Hin & -> & Hs).
  rewrite c_str_of_buffer_ok; [eauto|].
  apply (nul_behind _ (name ++ [colon])) in H; [|done|by eapply local_names_clean].
  by rewrite (cons_middle colon name rest), app_assoc, drop_app_length in H.
Qed.

Lemma connect_destination_total address after port :
  NUL ∈ address ++ after → ∃ r, connect_destination address after port = Ret r.
Proof.
  intros H. unfold connect_destination. destruct (starts_with address (str "tcp:")).
  { destruct (parse_tcp_total address after H) as [r ->]. mstep. eauto. }
  destruct (starts_with address (str "vsock:")).
  { unfold vsock_destination. rewrite Split_ref by done. mstep. eauto. }
  destruct (starts_with address (str "acceptfd:")); [eauto|].
  destruct (local_type kLocalSocketTypes address) as [[[name [ns av]] rest]|] eqn:E; [|eauto].
  destruct (negb av); [eauto|]. destruct (local_rest_total _ _ _ _ _ H E) as [s ->]. mstep. eauto.
Qed.

Lemma listen_destination_total all spec after :
  NUL ∈ spec ++ after → ∃ r, listen_destination all spec after = Ret r.
Proof.
  intros H. unfold listen_destination. destruct (starts_with spec (str "tcp:")) eqn:Et.
  { destruct (parse_tcp_total spec after H) as [r ->]. mstep. eauto. }
  destruct (starts_with spec (str "vsock:")) eqn:Ev.
  { unfold get_host_socket_spec_port. rewrite Et, Ev, Split_ref by done. mstep.
    destruct (split_ref _ spec) as [|f1 [|f2 [|]]]; mstep; eauto.
    destruct (ParseInt _ _ _); mstep; eauto. destruct (_ <? _); mstep; eauto. }
  destruct (ConsumePrefix spec (str "acceptfd:")); [eauto|].
  destruct (local_type kLocalSocketTypes spec) as [[[name [ns av]] rest]|] eqn:E; [|eauto].
  destruct (negb av); [eauto|]. destruct (local_rest_total _ _ _ _ _ H E) as [s ->]. mstep. eauto.
Qed.

(** ** Numbers in specifications *)

Lemma ParseUint_range s max v : ParseUint s max false = Some v → 0 ≤ v ≤ max.
Proof.
  unfold ParseUint. set (s' := skip_space s). destruct (match s' with [] => _ | _ => _ end); [|done].
  cbn. assert (0 ≤ st_val (strtoull s' (choose_base s'))) as H0.
  { unfold strtoull. destruct (strto_scan _ _) as [[[neg ds] rest]|]; [|done].
    destruct (_ <=? _); [done|]. destruct neg; cbn; [apply u64_bound|]. apply digits_val_bound.
    unfold choose_base. repeat case_match; done. }
  destruct (st_range _); [done|]. destruct (negb _); [done|]. destruct (st_rest _); [|done].
  cbn. destruct (Z.ltb_spec max (st_val (strtoull s' (choose_base s')))); [done|]. intros [= <-]. lia.
Qed.

Lemma print_u_clean n c : 0 ≤ n → is_base_digit 10 c = false → Forall (λ b, b ∉ [c]) (print_u n).
Proof.
  intros Hn Hc. destruct (print_base_spec 10 n) as (_ & Hf & _); [lia..|].
  apply (Forall_impl _ _ _ Hf). intros b Hb ->%list_elem_of_singleton. congruence.
Qed.

Lemma print_u_no_nul n : 0 ≤ n → NUL ∉ print_u n.
Proof.
  intros Hn Hin. pose proof (print_u_clean n NUL Hn eq_refl) as H.
  apply (proj1 (Forall_forall _ _) H NUL Hin). by left.
Qed.

(** ** The serial of a connection *)

Definition vsock_serial (cid p : Z) : bytes := str "vsock:" ++ print_u cid ++ colon :: print_u p.

Lemma vsock_serial_parses cid p port :
  0 ≤ cid ≤ UINT_MAX → 0 < p < 2 ^ 31 →
  vsock_destination (vsock_serial cid p) port = Ret (inr (Dest (Vsock cid p) (Some (vsock_serial cid p)) p)).
Proof.
  intros Hc Hp. unfold UINT_MAX in Hc. unfold vsock_destination. rewrite Split_ref by done. mstep.
  assert (split_ref (str ":") (vsock_serial cid p) = [str "vsock"; print_u cid; print_u p]) as ->.
  { unfold vsock_serial. change (str "vsock:") with (str "vsock" ++ [colon]). rewrite <- app_assoc.
    change ([colon] ++ ?s) with (colon :: s). change (str ":") with [colon].
    rewrite split_ref_app; [|by_decide|by left]. rewrite split_ref_app; [|apply print_u_clean; [lia|done]|by left].
    rewrite split_ref_no_delim; [done|]. apply print_u_clean; [lia|done]. }
  rewrite !c_str_id by (apply print_u_no_nul; lia). rewrite !ParseUint_print by lia. unfold UINT_MAX. zbool.
  rewrite s32_small by lia. unfold print_d. zbool. done.
Qed.

Lemma vsock_destination_inv address port d :
  vsock_destination address port = Ret (inr d) → 0 ≤ port →
  ∃ cid p, 0 ≤ cid ≤ UINT_MAX ∧ 0 < p ∧
    d = Dest (Vsock cid p) (Some (str "vsock:" ++ print_u cid ++ str ":" ++ print_d (s32 p))) p.
Proof.
  unfold vsock_destination. rewrite Split_ref by done. mstep. intros E Hp.
  destruct (split_ref (str ":") address) as [|f0 [|f1 [|f2 [|]]]]; try done.
  - destruct (ParseUint (c_str f1) UINT_MAX false) as [cid|] eqn:Ec; [|done]. apply ParseUint_range in Ec.
    destruct (Z.eqb_spec port 0); [done|]. injection E as <-. exists cid, port. split_and!; [lia..|done].
  - destruct (ParseUint (c_str f1) UINT_MAX false) as [cid|] eqn:Ec; [|done]. apply ParseUint_range in Ec.
    destruct (ParseUint (c_str f2) UINT_MAX false) as [p|] eqn:Ep; [|done]. apply ParseUint_range in Ep.
    destruct (Z.eqb_spec p 0); [done|]. injection E as <-. exists cid, p. split_and!; [lia..|done].
Qed.

Lemma parse_tcp_spec a after host p c :
  NUL ∈ a ++ after → parse_tcp_socket_spec (str "tcp:" ++ a) after = Ret (TcpSpec host p (Some c)) →
  ParseNetAddress a DEFAULT_ADB_LOCAL_TRANSPORT_PORT = Ret (NetOk host p c).
Proof.
  intros Hn. unfold parse_tcp_socket_spec. rewrite starts_with_app. cbn [negb].
  change (drop 4 (str "tcp:" ++ a)) with a. rewrite c_str_of_buffer_ok by done. mstep.
  destruct (ParseInt _ _ _); [by destruct (_ || _)|].
  destruct (ParseNetAddress_returns a DEFAULT_ADB_LOCAL_TRANSPORT_PORT) as [r ->]. mstep.
  destruct r; [|done]. by intros [= -> -> ->].
Qed.

Lemma parse_tcp_canonical a host p c r :
  ParseNetAddress a DEFAULT_ADB_LOCAL_TRANSPORT_PORT = Ret (NetOk host p c) → NUL ∉ a →
  (StartsWith_char a bracket_open = true ∨ Zbyte 93 ∉ a) →
  parse_tcp_socket_spec (str "tcp:" ++ c) (NUL :: r) = Ret (TcpSpec host p (Some c)).
Proof.
  intros E Hn Hb. pose proof E as E2. apply ParseNetAddress_stable with (port' := DEFAULT_ADB_LOCAL_TRANSPORT_PORT) in E2;
    [|by unfold DEFAULT_ADB_LOCAL_TRANSPORT_PORT|done..].
  unfold parse_tcp_socket_spec. rewrite starts_with_app. cbn [negb]. change (drop 4 (str "tcp:" ++ c)) with c.
  rewrite c_str_of_buffer_ok by (apply elem_of_app; right; by left). mstep. rewrite c_str_app_nul.
  rewrite ParseInt_colon; [by rewrite E2|].
  apply ParseNetAddress_ok in E as (ipv6 & ps & Hs & Hne & -> & Hps).
  assert (1 ≤ p ≤ 65535) as Hp.
  { destruct ps; [tauto|]. subst p. by unfold DEFAULT_ADB_LOCAL_TRANSPORT_PORT. }
  destruct (print_port_chars p Hp) as (_ & _ & Hcp & _).
  assert (∀ x, colon ∈ c_str (c_str x ++ colon :: print_d p)) as Hcol.
  { intros x. rewrite c_str_id; [set_solver|]. rewrite elem_of_app, elem_of_cons. intros [H|[H|H]]; [|done|].
    - by apply c_str_no_nul in H.
    - rewrite <- Hcp in H. by apply c_str_no_nul in H. }
  destruct ipv6; [|apply (Hcol host)].
  specialize (Hcol (str "[" ++ c_str host ++ str "]")).
  assert (c_str (str "[" ++ c_str host ++ str "]") = str "[" ++ c_str host ++ str "]") as Hid.
  { apply c_str_id. rewrite !not_elem_of_app. split_and!; [by_decide|apply c_str_no_nul|by_decide]. }
  rewrite Hid in Hcol. rewrite <- !app_assoc in Hcol. exact Hcol.
Qed.

(** The specification that a serial stands for: network serials are addresses. *)
Definition spec_of_serial (address serial : bytes) : bytes :=
  if starts_with address (str "tcp:") then str "tcp:" ++ serial else serial.

(** The serial that a connection reports denotes the endpoint that was
    connected: for "tcp:", "vsock:" and local specifications alike, connecting
    to it again gives the same endpoint, serial and port.  For vsock this takes
    a port below 2^31: the serial is printed as a signed number. *)
Theorem connect_serial_stable address r r' port d serial :
  NUL ∉ address → (starts_with address (str "tcp:") = true →
    StartsWith_char (drop 4 address) bracket_open = true ∨ Zbyte 93 ∉ address) →
  connect_destination address (NUL :: r) port = Ret (inr d) → d_serial d = Some serial →
  d_port d < 2 ^ 31 →
  connect_destination (spec_of_serial address serial) (NUL :: r') port = Ret (inr d).
Proof.
  intros Hn Hb E Hser Hport. unfold connect_destination in E. unfold spec_of_serial.
  assert (∀ s : bytes, NUL ∈ s ++ NUL :: r) as Hnul by (intros; apply elem_of_app; right; by left).
  destruct (starts_with address (str "tcp:")) eqn:Et.
  { pose proof (starts_with_inv _ _ Et) as Ha. cbn [length str] in Ha.
    set (a := drop (length (str "tcp:")) address) in Ha. rewrite Ha in E, Hn.
    destruct (parse_tcp_total (str "tcp:" ++ a) (NUL :: r)) as [ts Ets]; [apply Hnul|].
    rewrite Ets in E. revert E. mstep. destruct ts as [h p s|]; [|done]. intros [= <-]. cbn in Hser. subst s.
    apply parse_tcp_spec in Ets; [|apply Hnul]. unfold connect_destination. rewrite starts_with_app.
    rewrite (parse_tcp_canonical a h p serial r'); [done|done|set_solver|].
    destruct (Hb eq_refl) as [Hb'|Hb']; [by left|right]. rewrite Ha in Hb'. set_solver. }
  destruct (starts_with address (str "vsock:")) eqn:Ev.
  { apply vsock_destination_inv in E as (cid & p & Hc & Hp & ->); [|apply u32_bound].
    cbn [d_serial d_port] in Hser, Hport. rewrite s32_small in * by lia. unfold print_d in *. revert Hser. zbool.
    change (str "vsock:" ++ print_u cid ++ str ":" ++ print_u p) with (vsock_serial cid p).
    intros Hser. assert (serial = vsock_serial cid p) as -> by congruence.
    unfold connect_destination. assert (starts_with (vsock_serial cid p) (str "tcp:") = false) as -> by done.
    unfold vsock_serial at 1. rewrite starts_with_app. by rewrite vsock_serial_parses. }
  destruct (starts_with address (str "acceptfd:")) eqn:Ea; [done|].
  destruct (local_type kLocalSocketTypes address) as [[[name [ns av]] rest]|] eqn:El; [|done].
  destruct (negb av) eqn:Eav; [done|]. rewrite c_str_of_buffer_ok in E by done. revert E. mstep.
  rewrite c_str_app_nul. intros [= <-]. cbn in Hser. injection Hser as <-.
  unfold connect_destination. rewrite Et, Ev, Ea, El, Eav.
  rewrite c_str_of_buffer_ok by (apply elem_of_app; right; by left). mstep. by rewrite c_str_app_nul.
Qed.

Lemma connect_serial_stable_witness :
  connect_destination (str "tcp:[fe80::1]:5037") [NUL] 0 =
    Ret (inr (Dest (RemoteTcp (str "fe80::1") 5037) (Some (str "[fe80::1]:5037")) 5037)).
Proof.
  apply (connect_serial_stable (str "tcp:[fe80::1]:5037") [] []).
  - by_decide.
  - intros _. by left.
  - by vm_compute.
  - done.
  - done.
Defined.
