(* ===== verification/Env.v ===== *)
(** * What the server depends on from outside

    The environment variables it reads, the network and the devices' connections,
    the host's keys, texts made elsewhere: parameters of the definitions that
    use them, gathered in one class. *)

From S2P Require Import Prelude CString Types AdbIO Packets Transport SocketSpec.
Local Open Scope Z_scope.

(** The calls of [create_service_thread]. *)
Inductive service_call :=
| WaitService (serial : bytes) (transport_id : Z) (spec : bytes)
| ConnectService (host : bytes)
| PairService (host password : bytes).

Class Env := {
  #[global] env_texts :: Texts;
  (* [$ADB_DELAYED_ACK], [$ADB_VENDOR_KEYS] *)
  env : bool;
  ADB_VENDOR_KEYS : option bytes;
  (* options of the server *)
  adb_device_banner : bytes;
  g_reject_kill_server : bool;
  gListenAll : bool;
  (* USB: [usb_devices_start_detached], [is_libusb_enabled], the error with which
     [Connection::Attach] or [Detach] fails *)
  usb_devices_start_detached : bool;
  is_libusb_enabled : bool;
  attach_connection : atransport → option bytes;
  detach_connection : atransport → option bytes;
  (* the network: connecting; listening, with an error or the port that was bound;
     the connection to an emulator's port *)
  network : endpoint → option (instream * outstream);
  bind_socket : listener → bytes + Z;
  emulator_connect : Z → bool;
  (* our end of the socket pair of a service thread *)
  service_thread : service_call → option (instream * outstream);
  (* the keys, the signature algorithm, the public key file, the TLS handshake *)
  private_keys : list nat;
  adb_auth_sign : nat → bytes → bytes;
  userkey : bytes;
  DoTlsHandshake : nat → atransport → bool;
  (* the serialized [AdbServerStatus] *)
  server_status : bytes
}.
