(* ===== verification/Sockets.v ===== *)
(** * Sockets: [adb/socket.h], [adb/sockets.cpp]

    The sockets of the server, the objects they point to (their peers, their
    transports, their descriptors) and the functions stored in their function
    pointers.  An [asocket*] is an index into a heap; using a pointer whose
    object has been deleted is [UB].  The functions are written in the state
    monad [M] over that heap. *)

From S2P Require Import Prelude State CString LibBase Types AdbIO Packets Nonblocking Transport.
From S2P Require Import HostService.
Local Open Scope Z_scope.
Local Open Scope record_scope.

(** The functions the pointers of an [asocket] can hold. *)
Inductive enqueue_ptr := enqueue_local | enqueue_remote | enqueue_smart | enqueue_tracker.
Inductive ready_ptr := ready_local | ready_notify | ready_remote | ready_smart | ready_tracker.
Inductive close_ptr := close_local | close_notify | close_remote | close_smart | close_tracker.

#[global] Instance enqueue_ptr_eq_dec : EqDecision enqueue_ptr.
Proof. solve_decision. Defined.
#[global] Instance ready_ptr_eq_dec : EqDecision ready_ptr.
Proof. solve_decision. Defined.
#[global] Instance close_ptr_eq_dec : EqDecision close_ptr.
Proof. solve_decision. Defined.

(** The interest set of an [fdevent]. *)
Record fdevent := Fdevent { FDE_READ : bool; FDE_WRITE : bool }.

(** The fields a [device_tracker] adds to the socket it contains. *)
Record device_tracker := Tracker { update_needed : bool; output_type : TrackerOutputType }.

Record asocket := Socket {
  sid : Z;
  closing : bool;
  has_write_error : bool;
  peer : option nat;
  enqueue_fn : enqueue_ptr;
  ready_fn : ready_ptr;
  shutdown_fn : bool;                 (* [remote_socket_shutdown], or null *)
  close_fn : close_ptr;
  transport : option Z;
  fde : option fdevent;
  fd : Z;
  packet_queue : IOVector.t;
  available_send_bytes : option Z;
  smart_socket_data : bytes;
  tracker : option device_tracker
}.

#[global] Instance eta_fdevent : Eta fdevent := rd_pure Fdevent <%> FDE_READ <%> FDE_WRITE.
#[global] Instance upd_FDE_READ : Update FDE_READ. Proof. mk_update. Defined.
#[global] Instance upd_FDE_WRITE : Update FDE_WRITE. Proof. mk_update. Defined.

#[global] Instance eta_asocket : Eta asocket :=
  rd_pure Socket <%> sid <%> closing <%> has_write_error <%> peer <%> enqueue_fn <%> ready_fn
    <%> shutdown_fn <%> close_fn <%> transport <%> fde <%> fd <%> packet_queue
    <%> available_send_bytes <%> smart_socket_data <%> tracker.

#[global] Instance upd_sid : Update sid. Proof. mk_update. Defined.
#[global] Instance upd_closing : Update closing. Proof. mk_update. Defined.
#[global] Instance upd_has_write_error : Update has_write_error. Proof. mk_update. Defined.
#[global] Instance upd_peer : Update peer. Proof. mk_update. Defined.
#[global] Instance upd_enqueue_fn : Update enqueue_fn. Proof. mk_update. Defined.
#[global] Instance upd_ready_fn : Update ready_fn. Proof. mk_update. Defined.
#[global] Instance upd_shutdown_fn : Update shutdown_fn. Proof. mk_update. Defined.
#[global] Instance upd_close_fn : Update close_fn. Proof. mk_update. Defined.
#[global] Instance upd_transport : Update transport. Proof. mk_update. Defined.
#[global] Instance upd_fde : Update fde. Proof. mk_update. Defined.
#[global] Instance upd_packet_queue : Update packet_queue. Proof. mk_update. Defined.
#[global] Instance upd_available_send_bytes : Update available_send_bytes. Proof. mk_update. Defined.
#[global] Instance upd_smart_socket_data : Update smart_socket_data. Proof. mk_update. Defined.
#[global] Instance upd_tracker : Update tracker. Proof. mk_update. Defined.

(** An [alistener]: [l_ptr] is its address, and names its [adisconnect] too. *)
Record alistener := Listener {
  l_ptr : nat;
  l_fd : Z;
  l_smart : bool;                     (* handler: [ss_listener_event_func], or the other one *)
  l_read : bool;                      (* [FDE_READ] of its [fdevent] *)
  local_name : bytes;
  connect_to : bytes;
  l_transport : option Z
}.

#[global] Instance eta_alistener : Eta alistener :=
  rd_pure Listener <%> l_ptr <%> l_fd <%> l_smart <%> l_read <%> local_name <%> connect_to <%> l_transport.
#[global] Instance upd_l_read : Update l_read. Proof. mk_update. Defined.
#[global] Instance upd_connect_to : Update connect_to. Proof. mk_update. Defined.
#[global] Instance upd_l_transport : Update l_transport. Proof. mk_update. Defined.

(** ** The state of the server's main thread

    An [atransport*] is the id of the transport, which is never used again. *)

Record world := World {
  sockets : gmap nat asocket;                     (* the live [asocket] objects *)
  next_socket : nat;                              (* the address [new] returns next *)
  local_socket_next_id : Z;
  local_socket_list : list nat;
  local_socket_closing_list : list nat;
  fds : gmap Z (instream * outstream);
  next_fd : Z;
  lingering : list Z;                             (* descriptors in [deferred_close] *)
  transports : gmap Z atransport;                 (* the live [atransport] objects *)
  transport_list : list Z;
  pending_list : list Z;
  device_tracker_list : list nat;
  listener_list : list alistener;
  next_listener : nat;
  transports_ready : bool;
  next_transport_id : Z;
  local_transports : gmap Z Z                     (* emulator port to transport *)
}.

#[global] Instance eta_world : Eta world :=
  rd_pure World <%> sockets <%> next_socket <%> local_socket_next_id <%> local_socket_list
    <%> local_socket_closing_list <%> fds <%> next_fd <%> lingering <%> transports
    <%> transport_list <%> pending_list <%> device_tracker_list <%> listener_list
    <%> next_listener <%> transports_ready <%> next_transport_id <%> local_transports.

#[global] Instance upd_sockets : Update sockets. Proof. mk_update. Defined.
#[global] Instance upd_next_socket : Update next_socket. Proof. mk_update. Defined.
#[global] Instance upd_local_socket_next_id : Update local_socket_next_id. Proof. mk_update. Defined.
#[global] Instance upd_local_socket_list : Update local_socket_list. Proof. mk_update. Defined.
#[global] Instance upd_local_socket_closing_list : Update local_socket_closing_list.
Proof. mk_update. Defined.
#[global] Instance upd_fds : Update fds. Proof. mk_update. Defined.
#[global] Instance upd_next_fd : Update next_fd. Proof. mk_update. Defined.
#[global] Instance upd_lingering : Update lingering. Proof. mk_update. Defined.
#[global] Instance upd_transports : Update transports. Proof. mk_update. Defined.
#[global] Instance upd_transport_list : Update transport_list. Proof. mk_update. Defined.
#[global] Instance upd_pending_list : Update pending_list. Proof. mk_update. Defined.
#[global] Instance upd_device_tracker_list : Update device_tracker_list. Proof. mk_update. Defined.
#[global] Instance upd_listener_list : Update listener_list. Proof. mk_update. Defined.
#[global] Instance upd_next_listener : Update next_listener. Proof. mk_update. Defined.
#[global] Instance upd_transports_ready : Update transports_ready. Proof. mk_update. Defined.
#[global] Instance upd_next_transport_id : Update next_transport_id. Proof. mk_update. Defined.
#[global] Instance upd_local_transports : Update local_transports. Proof. mk_update. Defined.

Abbreviation M := (ST world).

(** [*s] *)
Definition load (p : nat) : M asocket := λ w, s ← deref (sockets w !! p); Ret (s, w).

(** [s->field = ...] *)
Definition store (p : nat) (f : asocket → asocket) : M unit := λ w,
  s ← deref (sockets w !! p); Ret (tt, w <| sockets ::= <[p := f s]> |>).

(** [new asocket] *)
Definition new (s : asocket) : M nat := λ w,
  let p := next_socket w in
  Ret (p, w <| sockets ::= <[p := s]> |> <| next_socket := S p |>).

(** [delete s] *)
Definition delete_socket (p : nat) : M unit := λ w,
  s ← deref (sockets w !! p); Ret (tt, w <| sockets ::= delete p |>).

(** [*t] *)
Definition load_transport (t : Z) : M atransport := λ w,
  a ← deref (transports w !! t); Ret (a, w).

(** A method of the transport that changes it. *)
Definition on_transport (t : Z) (f : atransport → outcome atransport) : M unit := λ w,
  a ← deref (transports w !! t); a ← f a; Ret (tt, w <| transports ::= <[t := a]> |>).

(** [adb_read] and [adb_write] on a descriptor number. *)
Definition fd_read (n len : Z) : M read_result := λ w,
  match fds w !! n with
  | None => Ret (ReadError EOther, w)
  | Some (i, o) => let '(r, i) := adb_read i len in Ret (r, w <| fds ::= <[n := (i, o)]> |>)
  end.

Definition fd_out {A} (n : Z) (dflt : A) (f : outstream → outcome (A * outstream)) : M A := λ w,
  match fds w !! n with
  | None => Ret (dflt, w)
  | Some (i, o) => '(r, o) ← f o; Ret (r, w <| fds ::= <[n := (i, o)]> |>)
  end.

(** ** [fdevent_add], [fdevent_del] *)
Definition fdevent_set (p : nat) (f : fdevent → fdevent) : M unit :=
  s ← load p; e ← lift (deref (fde s)); store p (λ s, s <| fde := Some (f e) |>).

Definition fdevent_add_read p : M unit := fdevent_set p (λ e, e <| FDE_READ := true |>).
Definition fdevent_del_read p : M unit := fdevent_set p (λ e, e <| FDE_READ := false |>).
Definition fdevent_add_write p : M unit := fdevent_set p (λ e, e <| FDE_WRITE := true |>).
Definition fdevent_del_write p : M unit := fdevent_set p (λ e, e <| FDE_WRITE := false |>).

(** ** The lists of local sockets *)

Fixpoint find_in (l : list nat) (local_id peer_id : Z) : M (option nat) :=
  match l with
  | [] => mret None
  | p :: l =>
      s ← load p;
      if negb (sid s =? local_id) then find_in l local_id peer_id
      else if peer_id =? 0 then mret (Some p)
      else match peer s with
           | None => mret None
           | Some q => s' ← load q; mret (if sid s' =? peer_id then Some p else None)
           end
  end.

Definition find_local_socket (local_id peer_id : Z) : M (option nat) :=
  l ← get local_socket_list; find_in l local_id peer_id.

Definition install_local_socket (p : nat) : M unit :=
  n ← get local_socket_next_id;
  _ ← store p (λ s, s <| sid := n |>);
  _ ← modify (λ w, w <| local_socket_next_id := u32 (n + 1) |>);
  _ ← lift (check (negb (u32 (n + 1) =? 0)));
  modify (λ w, w <| local_socket_list ::= λ l, l ++ [p] |>).

Definition remove_socket (p : nat) : M unit :=
  modify (λ w, w <| local_socket_list ::= filter (λ x, x ≠ p) |>
                 <| local_socket_closing_list ::= filter (λ x, x ≠ p) |>).

Definition get_max_payload (p : nat) : M Z :=
  s ← load p;
  m ← (match transport s with
       | None => mret MAX_PAYLOAD
       | Some t => a ← load_transport t; mret (Z.min MAX_PAYLOAD (max_payload a))
       end);
  match peer s with
  | None => mret m
  | Some q =>
      s' ← load q;
      match transport s' with
      | None => mret m
      | Some t => a ← load_transport t; mret (Z.min m (max_payload a))
      end
  end.

(** ** Closing *)

(** [deferred_close]: the outgoing direction is shut down, and the descriptor
    is read to its end before it is closed. *)
Definition deferred_close (n : Z) : M unit := modify (λ w, w <| lingering ::= λ l, l ++ [n] |>).

(** The callback it installs: [None] while it waits for more. *)
Fixpoint drain (fuel : nat) (n : Z) : M (option errno) :=
  match fuel with
  | O => λ _, OutOfFuel
  | S fuel =>
      r ← fd_read n 8192;
      match r with
      | ReadBytes [] => mret None
      | ReadBytes _ => drain fuel n
      | ReadError e => mret (Some e)
      end
  end.

(** Enough turns to read a descriptor to its end. *)
Definition drain_fuel (i : instream) : nat :=
  S (sum_list ((λ a, match a with Data bs => S (length bs) | Fault _ => 1%nat end) <$> i)).

Definition deferred_close_event (n : Z) (read timeout : bool) (expired : bool) : M unit :=
  wait ← (if read then
            f ← get (λ w, drain_fuel (default [] (fst <$> fds w !! n)));
            rc ← drain f n;
            mret (match rc with Some EAGAIN => negb expired | _ => false end)
          else mret false);
  if (wait : bool) then mret tt
  else modify (λ w, w <| lingering ::= filter (λ x, x ≠ n) |> <| fds ::= delete n |>).

Definition local_socket_destroy (p : nat) : M unit :=
  s ← load p;
  _ ← lift (deref (fde s));
  _ ← deferred_close (fd s);
  _ ← remove_socket p;
  delete_socket p.

(** The part of [local_socket_close] after the peer is gone. *)
Definition local_socket_finish (p : nat) : M unit :=
  s ← load p;
  if closing s || has_write_error s || IOVector.empty (packet_queue s) then local_socket_destroy p
  else
    _ ← store p (λ s, s <| closing := true |>);
    _ ← fdevent_del_read p;
    _ ← remove_socket p;
    _ ← modify (λ w, w <| local_socket_closing_list ::= λ l, l ++ [p] |>);
    s ← load p;
    e ← lift (deref (fde s));
    lift (check (FDE_WRITE e)).

Section output.
Context (junk : nat → byte).

Definition remote_socket_shutdown (p : nat) : M unit :=
  s ← load p;
  local ← (match peer s with None => mret 0 | Some q => s' ← load q; mret (sid s') end);
  pkt ← lift (make_packet junk A_CLSE local (sid s) []);
  t ← lift (deref (transport s));
  on_transport t (send_packet pkt).

(** The close functions call each other through the [close] pointers of the
    peers: [close_rec] is that call. *)
Section close.
Context (close_rec : nat → M unit).

Definition local_socket_close (p : nat) : M unit :=
  s ← load p;
  _ ← (match peer s with
       | None => mret tt
       | Some q =>
           s' ← load q;
           _ ← (if shutdown_fn s' then remote_socket_shutdown q else mret tt);
           _ ← store q (λ s', s' <| peer := None |>);
           _ ← close_rec q;
           store p (λ s, s <| peer := None |>)
       end);
  local_socket_finish p.

Definition remote_socket_close (p : nat) : M unit :=
  s ← load p;
  _ ← (match peer s with
       | None => mret tt
       | Some q => _ ← store q (λ s', s' <| peer := None |>); close_rec q
       end);
  delete_socket p.

Definition smart_socket_close (p : nat) : M unit :=
  s ← load p;
  _ ← (match peer s with
       | None => mret tt
       | Some q =>
           _ ← store q (λ s', s' <| peer := None |>);
           _ ← close_rec q;
           store p (λ s, s <| peer := None |>)
       end);
  delete_socket p.

(** Unlinks the first node that is the tracker. *)
Fixpoint remove_node (p : nat) (l : list nat) : list nat :=
  match l with
  | [] => []
  | node :: l => if bool_decide (node = p) then l else node :: remove_node p l
  end.

Definition device_tracker_remove (p : nat) : M unit :=
  modify (λ w, w <| device_tracker_list ::= remove_node p |>).

Definition device_tracker_close (p : nat) : M unit :=
  s ← load p;
  _ ← (match peer s with
       | None => mret tt
       | Some q => _ ← store q (λ s', s' <| peer := None |>); close_rec q
       end);
  _ ← device_tracker_remove p;
  delete_socket p.

(** Makes a local socket an ordinary one again. *)
Definition restore_local (s : asocket) : asocket :=
  s <| ready_fn := ready_local |> <| shutdown_fn := false |> <| close_fn := close_local |>.

Definition local_socket_close_notify (p : nat) : M unit :=
  _ ← store p restore_local;
  s ← load p;
  _ ← fd_out (fd s) false (λ o, SendFail o (str "closed"));
  close_rec p.
End close.

(** [s->close(s)] *)
Fixpoint socket_close_fuel (fuel : nat) (p : nat) : M unit :=
  match fuel with
  | O => λ _, OutOfFuel
  | S fuel =>
      s ← load p;
      match close_fn s with
      | close_local => local_socket_close (socket_close_fuel fuel) p
      | close_notify => local_socket_close_notify (socket_close_fuel fuel) p
      | close_remote => remote_socket_close (socket_close_fuel fuel) p
      | close_smart => smart_socket_close (socket_close_fuel fuel) p
      | close_tracker => device_tracker_close (socket_close_fuel fuel) p
      end
  end.

(** A socket closes its peer, which then has no peer; each of the two may first
    turn from [close_notify] into an ordinary one. *)
Definition CLOSE_FUEL : nat := 4.
Definition socket_close (p : nat) : M unit := socket_close_fuel CLOSE_FUEL p.

(** [close_all_sockets]: the loop restarts after every close. *)
Fixpoint find_of_transport (l : list nat) (t : Z) : M (option nat) :=
  match l with
  | [] => mret None
  | p :: l =>
      s ← load p;
      hit ← (if bool_decide (transport s = Some t) then mret true
             else match peer s with
                  | None => mret false
                  | Some q => s' ← load q; mret (bool_decide (transport s' = Some t))
                  end);
      if (hit : bool) then mret (Some p) else find_of_transport l t
  end.

Fixpoint close_all_loop (fuel : nat) (t : Z) : M unit :=
  match fuel with
  | O => λ _, OutOfFuel
  | S fuel =>
      l ← get local_socket_list;
      r ← find_of_transport l t;
      match r with
      | None => mret tt
      | Some p => _ ← socket_close p; close_all_loop fuel t
      end
  end.

Definition close_all_sockets (t : Z) : M unit :=
  l ← get local_socket_list; close_all_loop (S (length l)) t.

(** ** From the peer to the descriptor *)

Inductive SocketFlushResult := Destroyed | TryAgain | Completed.

(** Writing what is queued: the number of bytes taken. *)
Definition flush_queue (p : nat) : M Z :=
  s ← load p;
  if IOVector.empty (packet_queue s) then mret 0
  else
    iov ← lift (IOVector.iovecs (packet_queue s));
    rc ← fd_out (fd s) (WriteError EOther) (λ o, Ret (Nonblocking.adb_writev o iov));
    match rc with
    | Wrote rc =>
        if 0 <? rc then
          q ← (if rc =? IOVector.size (packet_queue s)
               then mret (snd (IOVector.clear (packet_queue s)))
               else lift (IOVector.drop_front (packet_queue s) rc));
          _ ← store p (λ s, s <| packet_queue := q |>);
          mret (u32 rc)
        else
          _ ← store p (λ s, s <| has_write_error := true |>); mret 0
    | WriteError EAGAIN => mret 0
    | WriteError _ => _ ← store p (λ s, s <| has_write_error := true |>); mret 0
    end.

Definition local_socket_flush_incoming (p : nat) : M SocketFlushResult :=
  bytes_flushed ← flush_queue p;
  s ← load p;
  let fd_full := negb (IOVector.empty (packet_queue s)) && negb (has_write_error s) in
  _ ← (match transport s, peer s with
       | Some t, Some q =>
           s' ← load q;
           match available_send_bytes s with
           | Some _ => on_transport t (λ a, send_ready junk (sid s) (sid s') a bytes_flushed)
           | None =>
               if negb (bytes_flushed =? 0) && (IOVector.size (packet_queue s) <? MAX_PAYLOAD)
               then on_transport t (λ a, send_ready junk (sid s) (sid s') a 0)
               else mret tt
           end
       | _, _ => mret tt
       end);
  if closing s && negb fd_full then _ ← socket_close p; mret Destroyed
  else if fd_full then _ ← fdevent_add_write p; mret TryAgain
  else _ ← fdevent_del_write p; mret Completed.

(** The [enqueue] functions return an [int]. *)
Definition local_socket_enqueue (p : nat) (data : Block.t) : M Z :=
  _ ← store p (λ s, s <| packet_queue ::= λ q, IOVector.append q data |>);
  r ← local_socket_flush_incoming p;
  mret (match r with Destroyed => -1 | TryAgain => 1 | Completed => 0 end).

Definition remote_socket_enqueue (p : nat) (data : Block.t) : M Z :=
  s ← load p;
  q ← lift (deref (peer s));
  s' ← load q;
  if MAX_PAYLOAD <? Block.size_ data then mret (-1)
  else
    let pkt := APacket (AMessage A_WRTE (sid s') (sid s) (u32 (Block.size_ data)) 0 0) data in
    t ← lift (deref (transport s));
    _ ← on_transport t (send_packet pkt);
    mret 1.

(** One cannot write to a device tracker. *)
Definition device_tracker_enqueue (p : nat) (data : Block.t) : M Z :=
  _ ← device_tracker_close socket_close p; mret (-1).

(** ** Memory for payloads *)

(** What is queued on all sockets: these blocks are all live. *)
Definition queued (w : world) : Z :=
  foldr Z.add 0 ((λ x, u64 (IOVector.chain_length_ (packet_queue x.2))) <$> map_to_list (sockets w)).

(** [Block::resize] allocates; [new] throws, which ends the server, when the
    address space has no room for the block next to the live ones. *)
Definition resize_block (b : Block.t) (n : Z) : M Block.t :=
  used ← get queued;
  _ ← lift (check (used + n <? 2 ^ 63));
  lift (Block.resize junk b n).

(** ** Device trackers and the list of transports: [transport.cpp]

    [enqueue] is the call through the function pointer of the peer. *)
Context `{!Texts}.
Section peers.
Context (enqueue : nat → Block.t → M Z).

(** The objects [transport_list] points to. *)
Fixpoint load_all (l : list Z) : M (list atransport) :=
  match l with
  | [] => mret []
  | t :: l => a ← load_transport t; as_ ← load_all l; mret (a :: as_)
  end.

Definition listed_transports : M (list atransport) := l ← get transport_list; load_all l.

Definition transports_text (output : TrackerOutputType) : M bytes :=
  l ← listed_transports; mret (list_transports output l).

(** The payload; [snprintf] writes at most four characters of the length. *)
Definition tracker_message (string : bytes) : M Block.t :=
  data ← resize_block Block.default (4 + zlen string);
  data ← lift (Block.write_at data 0 (take 4 (print_0x 4 (u32 (zlen string)))));
  lift (Block.write_at data 4 string).

Definition device_tracker_send (p : nat) (string : bytes) : M Z :=
  s ← load p;
  data ← tracker_message string;
  q ← lift (deref (peer s));
  enqueue q data.

Definition device_tracker_ready (p : nat) : M unit :=
  s ← load p;
  tr ← lift (deref (tracker s));
  if update_needed tr then
    _ ← store p (λ s, s <| tracker := Some (Tracker false (output_type tr)) |>);
    text ← transports_text (output_type tr);
    _ ← device_tracker_send p text;
    mret tt
  else mret tt.

Definition create_device_tracker (output : TrackerOutputType) : M nat :=
  p ← new (Socket 0 false false None enqueue_tracker ready_tracker false close_tracker None None (-1)
             IOVector.empty_vec None [] (Some (Tracker true output)));
  _ ← modify (λ w, w <| device_tracker_list ::= cons p |>);
  mret p.

(** [iterate_transports] with a predicate that returns false to stop. *)
Definition iterate_transports (fn : atransport → bool) : M bool :=
  l ← listed_transports;
  if negb (forallb fn l) then mret false
  else l ← get pending_list; l ← load_all l; mret (forallb fn l).

Definition update_transport_status : M unit :=
  result ← iterate_transports (λ t, negb (bool_decide (type t = kTransportUsb) && negb (online t)));
  modify (λ w, w <| transports_ready := result |>).

(** The loop reads [tracker->next] before the tracker may be destroyed, so it
    goes over the list as it was. *)
Fixpoint notify_trackers (l : list nat) : M unit :=
  match l with
  | [] => mret tt
  | p :: l =>
      s ← load p;
      tr ← lift (deref (tracker s));
      text ← transports_text (output_type tr);
      _ ← device_tracker_send p text;
      notify_trackers l
  end.

Definition update_transports : M unit :=
  _ ← update_transport_status; l ← get device_tracker_list; notify_trackers l.

(** [t->SetConnectionState(state)] *)
Definition set_connection_state (t : Z) (state : ConnectionState) : M unit :=
  _ ← on_transport t (λ a, Ret (SetConnectionState a state)); update_transports.

(** ** Ready *)

Definition local_socket_ready (p : nat) : M unit := fdevent_add_read p.

Definition remote_socket_ready (p : nat) : M unit :=
  s ← load p;
  q ← lift (deref (peer s));
  s' ← load q;
  t ← lift (deref (transport s));
  on_transport t (send_packet (APacket (AMessage A_OKAY (sid s') (sid s) 0 0 0) Block.default)).

Definition local_socket_ready_notify (p : nat) : M unit :=
  _ ← store p restore_local;
  s ← load p;
  _ ← fd_out (fd s) false SendOkay;
  local_socket_ready p.

(** [s->ready(s)] *)
Definition socket_ready (p : nat) : M unit :=
  s ← load p;
  match ready_fn s with
  | ready_local => local_socket_ready p
  | ready_notify => local_socket_ready_notify p
  | ready_remote => remote_socket_ready p
  | ready_smart => mret tt
  | ready_tracker => device_tracker_ready p
  end.

Definition local_socket_ack (p : nat) (acked_bytes : option Z) : M unit :=
  s ← load p;
  match available_send_bytes s, acked_bytes with
  | Some n, Some k =>
      let n := n + k in
      _ ← store p (λ s, s <| available_send_bytes := Some n |>);
      if 0 <? n then socket_ready p else mret tt
  | None, None => socket_ready p
  | _, _ => mret tt
  end.
End peers.

(** ** Creating sockets *)

Definition create_local_socket (n : Z) : M nat :=
  p ← new (Socket 0 false false None enqueue_local ready_local false close_local None None n
             IOVector.empty_vec None [] None);
  _ ← install_local_socket p;
  _ ← store p (λ s, s <| fde := Some (Fdevent false false) |>);
  mret p.

Definition create_remote_socket (rid t : Z) : M nat :=
  _ ← lift (check (negb (rid =? 0)));
  new (Socket rid false false None enqueue_remote ready_remote true close_remote (Some t) None (-1)
         IOVector.empty_vec None [] None).

(** [s->peer = create_remote_socket(rid, t); s->peer->peer = s] *)
Definition attach_remote (p : nat) (rid t : Z) : M nat :=
  q ← create_remote_socket rid t;
  _ ← store p (λ s, s <| peer := Some q |>);
  _ ← store q (λ q, q <| peer := Some p |>);
  mret q.

(** A new descriptor, and a local socket on it. *)
Definition new_fd (d : instream * outstream) : M Z := λ w,
  let n := next_fd w in Ret (n, w <| fds ::= <[n := d]> |> <| next_fd := n + 1 |>).

Definition socket_on (d : instream * outstream) : M nat := n ← new_fd d; create_local_socket n.

Definition create_smart_socket : M nat :=
  new (Socket 0 false false None enqueue_smart ready_smart false close_smart None None (-1)
         IOVector.empty_vec None [] None).

Definition connect_to_smartsocket (enqueue : nat → Block.t → M Z) (p : nat) : M unit :=
  ss ← create_smart_socket;
  _ ← store p (λ s, s <| peer := Some ss |>);
  _ ← store ss (λ s, s <| peer := Some p |>);
  socket_ready enqueue p.

Definition INITIAL_DELAYED_ACK_BYTES : Z := 32 * 1024 * 1024.

Definition connect_to_remote (p : nat) (destination : bytes) : M unit :=
  s ← load p;
  t ← lift (deref (transport s));
  _ ← on_transport t (λ a, UpdateReverseConfig a destination);
  a ← load_transport t;
  _ ← (if SupportsDelayedAck a then store p (λ s, s <| available_send_bytes := Some 0 |>)
       else mret tt);
  pkt ← lift (make_packet junk A_OPEN (sid s)
                (if SupportsDelayedAck a then INITIAL_DELAYED_ACK_BYTES else 0)
                (destination ++ [NUL]));
  m ← get_max_payload p;
  _ ← lift (check (data_length (msg pkt) <=? m));
  on_transport t (send_packet pkt).

(** ** Reading from the descriptor *)

(** The loop that fills [data]: what is left of it, and whether the descriptor
    is at its end. *)
Fixpoint fill_loop (fuel : nat) (n : Z) (data : Block.t) (max avail : Z) : M (Block.t * Z * bool) :=
  if 0 <? avail then
    match fuel with
    | O => λ _, OutOfFuel
    | S fuel =>
        r ← fd_read n avail;
        match r with
        | ReadBytes [] => mret (data, avail, true)
        | ReadBytes bs =>
            data ← lift (Block.write_at data (max - avail) bs);
            fill_loop fuel n data max (avail - zlen bs)
        | ReadError EAGAIN => mret (data, avail, false)
        | ReadError _ => mret (data, avail, true)
        end
    end
  else mret (data, avail, false).

(** Each read uses up an arrival or fills the buffer. *)
Definition fill_fuel (n : Z) (w : world) : nat :=
  S (S (length (default [] (fst <$> fds w !! n)))).

(** Reads up to [max_payload] bytes: the buffer, what is left of it, and whether
    the descriptor is at its end. *)
Definition read_data (n max_payload : Z) : M (Block.t * Z * bool) :=
  data ← resize_block Block.default max_payload;
  fuel ← get (fill_fuel n);
  fill_loop fuel n data max_payload max_payload.

End output.
