(* ===== verification/SocketsWp.v ===== *)
(** * Reasoning about socket code: total correctness of [M] computations and
    the invariant of the sockets

    [wp m Q w]: run from [w], [m] returns (it neither aborts, nor uses a dead
    pointer, nor runs out of fuel) with a result and a state that satisfy [Q]. *)

From S2P Require Import Prelude State CString LibBase Types TypesFacts AdbIO AdbIOFacts Packets.
From S2P Require Import PacketsFacts Nonblocking Transport TransportFacts HostService Sockets.
Local Open Scope Z_scope.
Local Open Scope record_scope.

Lemma wp_load p s Q w : sockets w !! p = Some s → Q s w → wp (load p) Q w.
Proof. intros E H. unfold wp, load. by rewrite E. Qed.

Lemma wp_store p s f Q w :
  sockets w !! p = Some s → Q tt (w <| sockets ::= <[p := f s]> |>) → wp (store p f) Q w.
Proof. intros E H. unfold wp, store. by rewrite E. Qed.

Lemma wp_new s Q w :
  Q (next_socket w)
    (w <| sockets ::= <[next_socket w := s]> |> <| next_socket := S (next_socket w) |>) →
  wp (new s) Q w.
Proof. done. Qed.

Lemma wp_delete p s Q w :
  sockets w !! p = Some s → Q tt (w <| sockets ::= delete p |>) → wp (delete_socket p) Q w.
Proof. intros E H. unfold wp, delete_socket. by rewrite E. Qed.

Lemma wp_load_transport t a Q w :
  transports w !! t = Some a → Q a w → wp (load_transport t) Q w.
Proof. intros E H. unfold wp, load_transport. by rewrite E. Qed.

Lemma wp_on_transport t a a' f Q w :
  transports w !! t = Some a → f a = Ret a' → Q tt (w <| transports ::= <[t := a']> |>) →
  wp (on_transport t f) Q w.
Proof. intros E Ef H. unfold wp, on_transport. rewrite E. simpl. by rewrite Ef. Qed.

Lemma wp_fd_out_eq {A} n (d : A) f Q w :
  match fds w !! n with
  | Some (i, o) => ∃ a o', f o = Ret (a, o') ∧ Q a (w <| fds ::= <[n := (i, o')]> |>)
  | None => Q d w
  end → wp (fd_out n d f) Q w.
Proof.
  unfold wp, fd_out. destruct (fds w !! n) as [[i o]|]; [|done].
  by intros (a & o' & -> & H).
Qed.

(** A write to a descriptor: any result, only that descriptor changes. *)
Lemma wp_fd_out {A} n (d : A) f Q w :
  (∀ o, ∃ r, f o = Ret r) →
  (∀ a g, (∀ k, k ≠ n → g !! k = fds w !! k) → Q a (w <| fds := g |>)) →
  wp (fd_out n d f) Q w.
Proof.
  intros Hf H. unfold wp, fd_out. destruct (fds w !! n) as [[i o]|] eqn:E.
  - destruct (Hf o) as [[r o'] Ef]. rewrite Ef. cbn.
    apply (H r (<[n := (i, o')]> (fds w))). intros k Hk. by rewrite lookup_insert_ne.
  - destruct w. apply (H d). done.
Qed.

Lemma wp_fdevent_set p s e f Q w :
  sockets w !! p = Some s → fde s = Some e →
  Q tt (w <| sockets ::= <[p := s <| fde := Some (f e) |>]> |>) → wp (fdevent_set p f) Q w.
Proof.
  intros E Ee H. unfold fdevent_set. apply wp_bind, (wp_load _ s); [done|].
  apply wp_bind, (wp_lift _ e); [by rewrite Ee|]. by apply (wp_store _ s).
Qed.

(** Simplifies the fields of updated worlds and sockets. *)
Ltac rec_simpl :=
  cbn [update upd_sockets upd_next_socket upd_local_socket_next_id upd_local_socket_list
    upd_local_socket_closing_list upd_fds upd_next_fd upd_lingering upd_transports
    upd_transport_list upd_pending_list upd_device_tracker_list upd_listener_list upd_next_listener
    upd_transports_ready upd_next_transport_id upd_local_transports upd_tracker
    upd_l_read upd_connect_to upd_l_transport
    upd_sid upd_closing upd_has_write_error upd_peer upd_enqueue_fn upd_ready_fn upd_shutdown_fn
    upd_close_fn upd_transport upd_fde upd_packet_queue upd_available_send_bytes
    upd_smart_socket_data upd_FDE_READ upd_FDE_WRITE
    sockets next_socket local_socket_next_id local_socket_list local_socket_closing_list fds
    next_fd lingering transports transport_list pending_list device_tracker_list listener_list
    next_listener transports_ready next_transport_id local_transports tracker l_ptr l_fd l_smart
    l_read local_name connect_to l_transport sid closing has_write_error peer enqueue_fn ready_fn
    shutdown_fn close_fn transport fde fd packet_queue available_send_bytes smart_socket_data
    FDE_READ FDE_WRITE].

(** Unfolds the updates themselves, to compare worlds. *)
Ltac rec_norm :=
  cbv [update upd_sockets upd_next_socket upd_local_socket_next_id upd_local_socket_list
    upd_local_socket_closing_list upd_fds upd_next_fd upd_lingering upd_transports
    upd_transport_list upd_pending_list upd_device_tracker_list upd_listener_list upd_next_listener
    upd_transports_ready upd_next_transport_id upd_local_transports upd_tracker
    upd_l_read upd_connect_to upd_l_transport
    upd_sid upd_closing upd_has_write_error upd_peer upd_enqueue_fn upd_ready_fn upd_shutdown_fn
    upd_close_fn upd_transport upd_fde upd_packet_queue upd_available_send_bytes
    upd_smart_socket_data upd_FDE_READ upd_FDE_WRITE];
  rec_simpl.

Create HintDb wp discriminated.
#[export] Hint Resolve wp_ret wp_get wp_modify : wp.

(** Runs the straight-line steps whose facts are at hand. *)
Ltac wp_step :=
  lazymatch goal with
  | |- wp (mbind _ _) _ _ => apply wp_bind
  | |- wp (mret _) _ _ => apply wp_ret
  | |- wp (get _) _ _ => apply wp_get
  | |- wp (modify _) _ _ => apply wp_modify
  | |- wp (load _) _ _ => eapply wp_load; [eassumption|]
  | |- wp (store _ _) _ _ => eapply wp_store; [eassumption|]
  | |- wp (delete_socket _) _ _ => eapply wp_delete; [eassumption|]
  | |- wp (load_transport _) _ _ => eapply wp_load_transport; [eassumption|]
  end; cbv beta.
Ltac wp_go := repeat wp_step.

(** ** Packets to a transport *)

(** [a'] differs from [a] at most in what was sent since and whether it was kicked. *)
Definition tsame (a a' : atransport) : Prop :=
  a' <| sent := sent a |> <| kicked_ := kicked_ a |> <| stops := stops a |> = a ∧ sent a `prefix_of` sent a'.

Lemma tsame_refl a : tsame a a.
Proof. by destruct a. Qed.

Lemma tsame_trans a b c : tsame a b → tsame b c → tsame a c.
Proof.
  intros [H1 P1] [H2 P2]. split; [|by etrans]. destruct a, b, c. cbn in *. revert H1 H2. intros [=] [=]. by subst.
Qed.

(** The packet [p'] is [p] with the header completed. *)
Definition stamped (p p' : apacket) : Prop :=
  payload p' = payload p ∧ command (msg p') = command (msg p) ∧ arg0 (msg p') = arg0 (msg p) ∧
  arg1 (msg p') = arg1 (msg p) ∧ data_length (msg p') = data_length (msg p).

(** The header does not claim more bytes than the payload's array has. *)
Definition sendable (p : apacket) : Prop :=
  0 ≤ data_length (msg p) ≤ zlen (default [] (Block.data_ (payload p))).

Lemma send_packet_ok p a :
  sendable p → ∃ a', send_packet p a = Ret a' ∧ tsame a a' ∧
    if writable a then ∃ p', sent a' = sent a ++ [p'] ∧ stamped p p' else sent a' = sent a.
Proof.
  intros H. unfold send_packet, stamp_packet. rewrite checksum_spec by done.
  assert (∃ z, (if A_VERSION_SKIP_CHECKSUM <=? protocol_version a then Ret 0
      else Ret (u32 (byte_sum (ztake (data_length (msg p)) (default [] (Block.data_ (payload p))))))) = Ret z)
    as [z ->] by (destruct (_ <=? _); eauto).
  mstep. eexists. split; [done|]. destruct a as [? ? ? ? ? ? ? ? ? k ? ? ? ? ? ? ? ? ? ? ? wr ?]. cbn.
  destruct wr; cbn; [|by destruct k].
  split; [split; [done|by apply prefix_app_r]|]. eexists. by split.
Qed.

Lemma make_packet_ok junk cmd a0 a1 data :
  ∃ p, make_packet junk cmd a0 a1 data = Ret p ∧ sendable p ∧ Block.wf (payload p) ∧
    Block.content (payload p) = data ∧ msg p = AMessage cmd a0 a1 (u32 (zlen data)) 0 0.
Proof.
  unfold make_packet. destruct (block_of_range junk data) as (b & E & Hw & Hc & Hs).
  change (Block.assign junk Block.default data) with (Block.of_range junk data). rewrite E. mstep.
  eexists. split; [done|]. cbn. rewrite Hs. split_and!; try done. unfold sendable. cbn.
  unfold Block.wf in Hw. pose proof (Z.mod_le (zlen data) (2 ^ 32)).
  pose proof (u32_bound (zlen data)). unfold u32 in *.
  destruct (Block.data_ b); cbn; lia.
Qed.

(** Sending is the only thing that happens to transports. *)
Definition tstable (w w' : world) : Prop :=
  ∀ t, option_Forall2 tsame (transports w !! t) (transports w' !! t).

Lemma tstable_refl w : tstable w w.
Proof. intros t. destruct (transports w !! t); constructor. apply tsame_refl. Qed.

Lemma tstable_trans w1 w2 w3 : tstable w1 w2 → tstable w2 w3 → tstable w1 w3.
Proof.
  intros H1 H2 t. specialize (H1 t). specialize (H2 t).
  destruct H1 as [a b Hab|]; inversion H2; subst; constructor. by eapply tsame_trans.
Qed.

Lemma tstable_eq w w' : transports w' = transports w → tstable w w'.
Proof. intros E t. rewrite E. apply tstable_refl. Qed.

Lemma wp_send t a p Q w :
  transports w !! t = Some a → sendable p →
  (∀ a', tsame a a' → (if writable a then ∃ p', sent a' = sent a ++ [p'] ∧ stamped p p' else sent a' = sent a) →
    Q tt (w <| transports ::= <[t := a']> |>)) →
  wp (on_transport t (send_packet p)) Q w.
Proof.
  intros E Hp H. destruct (send_packet_ok p a Hp) as (a' & Es & Ht & Hs).
  eapply wp_on_transport; [done..|]. by apply H.
Qed.

Lemma tstable_insert t a a' w :
  transports w !! t = Some a → tsame a a' → tstable w (w <| transports ::= <[t := a']> |>).
Proof.
  intros E H t'. rec_simpl. destruct (decide (t = t')) as [->|].
  - rewrite lookup_insert_eq, E. by constructor.
  - rewrite lookup_insert_ne by done. apply tstable_refl.
Qed.
