(* ===== verification/SocketsInv.v ===== *)
(** * The invariant of the sockets, and closing

    Every pointer of the socket layer stays valid: the two lists hold exactly
    the live local sockets, peers point at each other, transports in use are
    alive.  Closing a socket, and all sockets of a transport, preserves this. *)

From S2P Require Import Prelude State CString LibBase Types TypesFacts AdbIO AdbIOFacts Packets.
From S2P Require Import PacketsFacts Nonblocking Transport TransportFacts HostService Sockets.
From S2P Require Import SocketsWp.
Local Open Scope Z_scope.
Local Open Scope record_scope.

(** ** The kinds of sockets *)

Definition is_local (s : asocket) : Prop := enqueue_fn s = enqueue_local.
Definition is_smart (s : asocket) : Prop := enqueue_fn s = enqueue_smart.
Definition is_tracker (s : asocket) : Prop := enqueue_fn s = enqueue_tracker.
(** The server itself is behind the socket. *)
Definition on_host (s : asocket) : Prop := is_smart s ∨ is_tracker s.

(** A local socket with data to write waits for its descriptor, unless writing
    failed; a closing one has no peer and no longer reads. *)
Record local_ok (s : asocket) : Prop := {
  lo_enqueue : enqueue_fn s = enqueue_local;
  lo_close : close_fn s = close_local ∨ close_fn s = close_notify;
  lo_ready : ready_fn s = ready_local ∨ ready_fn s = ready_notify;
  lo_shutdown : shutdown_fn s = false;
  lo_queue : IOVector.wf (packet_queue s);
  lo_fde : ∃ e, fde s = Some e ∧
    (IOVector.empty (packet_queue s) = false → has_write_error s = false → FDE_WRITE e = true) ∧
    (closing s = true → peer s = None ∧ FDE_READ e = false)
}.

Record remote_ok (s : asocket) : Prop := {
  ro_enqueue : enqueue_fn s = enqueue_remote;
  ro_close : close_fn s = close_remote;
  ro_ready : ready_fn s = ready_remote;
  ro_shutdown : shutdown_fn s = true;
  ro_closing : closing s = false;
  ro_transport : is_Some (transport s)
}.

Record smart_ok (s : asocket) : Prop := {
  so_enqueue : enqueue_fn s = enqueue_smart;
  so_close : close_fn s = close_smart;
  so_ready : ready_fn s = ready_smart;
  so_shutdown : shutdown_fn s = false;
  so_closing : closing s = false
}.

Record tracker_ok (s : asocket) : Prop := {
  tk_enqueue : enqueue_fn s = enqueue_tracker;
  tk_close : close_fn s = close_tracker;
  tk_ready : ready_fn s = ready_tracker;
  tk_shutdown : shutdown_fn s = false;
  tk_closing : closing s = false;
  tk_tracker : is_Some (tracker s);
  tk_transport : transport s = None
}.

Definition sock_ok (s : asocket) : Prop :=
  match enqueue_fn s with
  | enqueue_local => local_ok s
  | enqueue_remote => remote_ok s
  | enqueue_smart => smart_ok s
  | enqueue_tracker => tracker_ok s
  end.

(** The invariant, except that the [peer] field of the socket [x] may dangle. *)
Record inv (x : option nat) (w : world) : Prop := {
  inv_sock : ∀ p s, sockets w !! p = Some s → sock_ok s;
  inv_fresh : ∀ p s, sockets w !! p = Some s → (p < next_socket w)%nat;
  inv_list : ∀ p, p ∈ local_socket_list w ↔
    ∃ s, sockets w !! p = Some s ∧ is_local s ∧ closing s = false;
  inv_closing : ∀ p, p ∈ local_socket_closing_list w ↔
    ∃ s, sockets w !! p = Some s ∧ is_local s ∧ closing s = true;
  inv_nodup : NoDup (local_socket_list w);
  inv_peer : ∀ p s q, Some p ≠ x → sockets w !! p = Some s → peer s = Some q →
    Some q ≠ x ∧ p ≠ q ∧
    ∃ s', sockets w !! q = Some s' ∧ peer s' = Some p ∧ (is_local s ∨ is_local s');
  inv_transport : ∀ p s t, sockets w !! p = Some s → closing s = false → transport s = Some t →
    is_Some (transports w !! t);
  inv_trackers : ∀ p, p ∈ device_tracker_list w ↔ ∃ s, sockets w !! p = Some s ∧ is_tracker s;
  inv_tracker_nodup : NoDup (device_tracker_list w);
  inv_client : ∀ p s q s', Some p ≠ x → sockets w !! p = Some s → on_host s → peer s = Some q →
    sockets w !! q = Some s' → transport s' = None
}.

(** Remote and smart sockets only exist for a peer. *)
Definition paired (x : option nat) (w : world) : Prop :=
  ∀ p s, Some p ≠ x → sockets w !! p = Some s → ¬ is_local s → is_Some (peer s).

Record wf (w : world) : Prop := { wf_inv : inv None w; wf_paired : paired None w }.

(** ** Local sockets without a peer *)

Definition destroy_local (p : nat) (s : asocket) (w : world) : world :=
  w <| lingering ::= λ l, l ++ [fd s] |>
    <| local_socket_list ::= filter (λ x, x ≠ p) |>
    <| local_socket_closing_list ::= filter (λ x, x ≠ p) |>
    <| sockets ::= delete p |>.

Definition to_closing (p : nat) (s : asocket) (e : fdevent) (w : world) : world :=
  w <| sockets ::= <[p := s <| closing := true |> <| fde := Some (e <| FDE_READ := false |>) |>]> |>
    <| local_socket_list ::= filter (λ x, x ≠ p) |>
    <| local_socket_closing_list ::= λ l, filter (λ x, x ≠ p) l ++ [p] |>.

Definition must_destroy (s : asocket) : bool :=
  closing s || has_write_error s || IOVector.empty (packet_queue s).

Definition finish_local (p : nat) (s : asocket) (w : world) : world :=
  if must_destroy s then destroy_local p s w
  else to_closing p s (default (Fdevent false false) (fde s)) w.

Lemma wp_local_destroy p s Q w :
  sockets w !! p = Some s → is_Some (fde s) → Q tt (destroy_local p s w) →
  wp (local_socket_destroy p) Q w.
Proof.
  intros E [e He] H. unfold local_socket_destroy. wp_go.
  apply (wp_lift _ e); [by rewrite He|]. unfold deferred_close, remove_socket. wp_go. done.
Qed.

Lemma wp_local_finish p s Q w :
  sockets w !! p = Some s → local_ok s → Q tt (finish_local p s w) →
  wp (local_socket_finish p) Q w.
Proof.
  intros E Hok H. unfold local_socket_finish. wp_go.
  destruct (lo_fde s Hok) as (e & He & Hw & _). unfold finish_local, must_destroy in H.
  destruct (closing s || has_write_error s || IOVector.empty (packet_queue s)) eqn:Ed.
  { eapply wp_local_destroy; [done|by rewrite He|done]. }
  apply orb_false_iff in Ed as [[Hc Herr]%orb_false_iff Hq].
  wp_go. unfold fdevent_del_read. eapply wp_fdevent_set; [apply lookup_insert_eq|done|].
  unfold remove_socket. wp_go. eapply wp_load; [apply lookup_insert_eq|]. wp_go.
  apply (wp_lift _ (e <| FDE_READ := false |>)); [done|].
  apply (wp_lift _ tt); [by cbn; rewrite Hw|]. rewrite He in H. cbn [default] in H.
  unfold to_closing in H. revert H. rec_norm. by rewrite insert_insert_eq.
Qed.

Lemma wp_local_close_alone junk rec p s Q w :
  sockets w !! p = Some s → local_ok s → peer s = None → Q tt (finish_local p s w) →
  wp (local_socket_close junk rec p) Q w.
Proof.
  intros E Hok Hp H. unfold local_socket_close. wp_go. rewrite Hp. wp_go.
  by eapply wp_local_finish.
Qed.

(** ** Steps that preserve the invariant *)

Lemma inv_local_ok x w p s : inv x w → sockets w !! p = Some s → is_local s → local_ok s.
Proof. intros H E Hl. apply (inv_sock _ _ H) in E. unfold sock_ok in E. by rewrite Hl in E. Qed.

(** Nobody points at a socket without a peer. *)
Lemma inv_no_peer x w p s a sa :
  inv x w → sockets w !! p = Some s → peer s = None → Some a ≠ x →
  sockets w !! a = Some sa → peer sa ≠ Some p.
Proof.
  intros H E Hp Ha Ea Hpa. destruct (inv_peer _ _ H a sa p Ha Ea Hpa) as (_ & _ & s' & E' & Hp' & _).
  by simplify_eq.
Qed.

(** The trackers, when a socket changes or one that is not a tracker goes. *)
Lemma trackers_insert x p s s' w :
  inv x w → sockets w !! p = Some s → (is_tracker s' ↔ is_tracker s) →
  ∀ a, a ∈ device_tracker_list w ↔ ∃ sa, <[p := s']> (sockets w) !! a = Some sa ∧ is_tracker sa.
Proof.
  intros H E Hs a. rewrite (inv_trackers _ _ H). destruct (decide (p = a)) as [<-|].
  - rewrite lookup_insert_eq, E. split; intros (sa & [= <-] & Ht); eexists; (split; [done|]); by apply Hs.
  - by rewrite lookup_insert_ne.
Qed.

Lemma trackers_delete x p s w :
  inv x w → sockets w !! p = Some s → ¬ is_tracker s →
  ∀ a, a ∈ device_tracker_list w ↔ ∃ sa, delete p (sockets w) !! a = Some sa ∧ is_tracker sa.
Proof.
  intros H E Hs a. rewrite (inv_trackers _ _ H). destruct (decide (p = a)) as [<-|].
  - rewrite lookup_delete_eq, E. split; [by intros (sa & [= <-] & Ht)|by intros (sa & ? & _)].
  - by rewrite lookup_delete_ne.
Qed.

Lemma elem_of_remove (l : list nat) p a : a ∈ filter (λ x, x ≠ p) l ↔ a ≠ p ∧ a ∈ l.
Proof. by rewrite list_elem_of_filter. Qed.

Lemma inv_destroy_local x p s w :
  inv x w → sockets w !! p = Some s → is_local s → peer s = None → inv x (destroy_local p s w).
Proof.
  intros H E Hl Hp. unfold destroy_local. constructor; rec_simpl.
  - intros a sa [? Ea]%lookup_delete_Some. by apply (inv_sock _ _ H) in Ea.
  - intros a sa [? Ea]%lookup_delete_Some. by apply (inv_fresh _ _ H) in Ea.
  - intros a. rewrite elem_of_remove, (inv_list _ _ H). setoid_rewrite lookup_delete_Some. naive_solver.
  - intros a. rewrite elem_of_remove, (inv_closing _ _ H). setoid_rewrite lookup_delete_Some. naive_solver.
  - apply NoDup_filter, (inv_nodup _ _ H).
  - intros a sa b Ha [Hne Ea]%lookup_delete_Some Hb.
    assert (b ≠ p) as Hbp by (intros ->; by eapply (inv_no_peer _ _ p s a sa H)).
    destruct (inv_peer _ _ H a sa b Ha Ea Hb) as (? & ? & s' & ? & ?).
    split_and!; [done..|]. exists s'. by rewrite lookup_delete_ne.
  - intros a sa t [? Ea]%lookup_delete_Some. by apply (inv_transport _ _ H) with (p := a).
  - eapply trackers_delete; [done..|]. unfold is_local, is_tracker in *. congruence.
  - apply (inv_tracker_nodup _ _ H).
  - intros a sa b sb Ha [_ Ea]%lookup_delete_Some Hs Hb [_ Eb]%lookup_delete_Some.
    by eapply (inv_client _ _ H a sa b sb).
Qed.

Lemma inv_to_closing x p s e w :
  inv x w → sockets w !! p = Some s → is_local s → peer s = None →
  fde s = Some e → must_destroy s = false → inv x (to_closing p s e w).
Proof.
  intros H E Hl Hp He Hd. unfold to_closing.
  pose proof (inv_local_ok _ _ _ _ H E Hl) as [L1 L2 L3 L4 L5 (e' & He' & Hw & _)]. simplify_eq.
  constructor; rec_simpl.
  - intros a sa [[<- <-]|[? Ea]]%lookup_insert_Some; [|by apply (inv_sock _ _ H) in Ea].
    unfold sock_ok. rec_simpl. rewrite L1. constructor; try done. eexists. split; [done|]. by rec_simpl.
  - intros a sa [[<- <-]|[? Ea]]%lookup_insert_Some; by eapply (inv_fresh _ _ H).
  - intros a. rewrite elem_of_remove, (inv_list _ _ H). setoid_rewrite lookup_insert_Some. naive_solver.
  - intros a. rewrite elem_of_app, elem_of_remove, (inv_closing _ _ H), list_elem_of_singleton.
    setoid_rewrite lookup_insert_Some. unfold is_local in *. naive_solver.
  - apply NoDup_filter, (inv_nodup _ _ H).
  - intros a sa b Ha [[<- <-]|[Hne Ea]]%lookup_insert_Some Hb; [rec_simpl; cbn in Hb; congruence|].
    assert (b ≠ p) as Hbp by (intros ->; by eapply (inv_no_peer _ _ p s a sa H)).
    destruct (inv_peer _ _ H a sa b Ha Ea Hb) as (? & ? & s' & ? & ?).
    split_and!; [done..|]. exists s'. by rewrite lookup_insert_ne.
  - intros a sa t [[<- <-]|[? Ea]]%lookup_insert_Some; [done|]. by apply (inv_transport _ _ H) with (p := a).
  - by eapply trackers_insert.
  - apply (inv_tracker_nodup _ _ H).
  - intros a sa b sb Ha [[<- <-]|[Hne Ea]]%lookup_insert_Some Hs Hb; [cbn in Hb; congruence|].
    intros [[<- <-]|[_ Eb]]%lookup_insert_Some; [by eapply (inv_client _ _ H a sa p s)|].
    by eapply (inv_client _ _ H a sa b sb).
Qed.

Lemma inv_finish_local x p s w :
  inv x w → sockets w !! p = Some s → is_local s → peer s = None → inv x (finish_local p s w).
Proof.
  intros H E Hl Hp. unfold finish_local. destruct (must_destroy s) eqn:Ed.
  - by apply inv_destroy_local.
  - destruct (lo_fde s) as (e & He & _); [by eapply inv_local_ok|]. rewrite He. cbn.
    by apply inv_to_closing.
Qed.

Lemma inv_store x p s s' w :
  inv x w → sockets w !! p = Some s → sock_ok s' → enqueue_fn s' = enqueue_fn s →
  closing s' = closing s → peer s' = peer s →
  (∀ t, closing s' = false → transport s' = Some t → is_Some (transports w !! t)) →
  (∀ a sa, Some a ≠ x → sockets w !! a = Some sa → on_host sa → peer sa = Some p → transport s' = None) →
  inv x (w <| sockets ::= <[p := s']> |>).
Proof.
  intros H E Hok He Hc Hp Ht Hcl. assert (is_local s' ↔ is_local s) as Hl by (unfold is_local; by rewrite He).
  constructor; rec_simpl.
  - intros a sa [[<- <-]|[? Ea]]%lookup_insert_Some; [done|]. by apply (inv_sock _ _ H) in Ea.
  - intros a sa [[<- <-]|[? Ea]]%lookup_insert_Some; by eapply (inv_fresh _ _ H).
  - intros a. rewrite (inv_list _ _ H). setoid_rewrite lookup_insert_Some. split.
    + intros (sa & Ea & ? & ?). destruct (decide (p = a)) as [->|]; [|by eauto 6].
      simplify_eq. exists s'. rewrite Hl, Hc. eauto.
    + intros (sa & [[<- <-]|[? Ea]] & ? & ?); [|by eauto]. exists s. rewrite <- Hl, <- Hc. eauto.
  - intros a. rewrite (inv_closing _ _ H). setoid_rewrite lookup_insert_Some. split.
    + intros (sa & Ea & ? & ?). destruct (decide (p = a)) as [->|]; [|by eauto 6].
      simplify_eq. exists s'. rewrite Hl, Hc. eauto.
    + intros (sa & [[<- <-]|[? Ea]] & ? & ?); [|by eauto]. exists s. rewrite <- Hl, <- Hc. eauto.
  - apply (inv_nodup _ _ H).
  - assert (∀ a sa b, Some a ≠ x → sockets w !! a = Some sa → peer sa = Some b →
      Some b ≠ x ∧ a ≠ b ∧ ∃ sb, <[p:=s']> (sockets w) !! b = Some sb ∧ peer sb = Some a ∧
      (is_local sa ∨ is_local sb)) as Hgen.
    { intros a sa b Ha Ea Hb. destruct (inv_peer _ _ H a sa b Ha Ea Hb) as (? & ? & sb & Eb & ? & ?).
      split_and!; [done..|]. destruct (decide (p = b)) as [->|].
      - simplify_eq. exists s'. rewrite lookup_insert_eq, Hp, Hl. eauto.
      - exists sb. by rewrite lookup_insert_ne. }
    intros a sa b Ha [[<- <-]|[? Ea]]%lookup_insert_Some Hb; [|by apply Hgen].
    setoid_rewrite Hl. apply Hgen; try done. congruence.
  - intros a sa t [[<- <-]|[? Ea]]%lookup_insert_Some; [by apply Ht|]. by eapply (inv_transport _ _ H).
  - eapply trackers_insert; [done..|]. unfold is_tracker. by rewrite He.
  - apply (inv_tracker_nodup _ _ H).
  - assert (∀ a sa b sb, Some a ≠ x → sockets w !! a = Some sa → on_host sa → peer sa = Some b →
      <[p:=s']> (sockets w) !! b = Some sb → transport sb = None) as Hgen.
    { intros a sa b sb Ha Ea Hs Hb [[<- <-]|[_ Eb]]%lookup_insert_Some; [by eapply Hcl|].
      by eapply (inv_client _ _ H a sa b sb). }
    intros a sa b sb Ha [[<- <-]|[_ Ea]]%lookup_insert_Some Hs Hb; [|by apply (Hgen a sa)].
    apply (Hgen p s); try done; [unfold on_host, is_smart, is_tracker in *; by rewrite <- He|congruence].
Qed.

Lemma sock_ok_no_peer s : sock_ok s → sock_ok (s <| peer := None |>).
Proof.
  unfold sock_ok. rec_simpl. destruct (enqueue_fn s).
  - intros [? ? ? ? ? (e & ? & ? & ?)]. constructor; try done. exists e. rec_simpl. naive_solver.
  - intros []. by constructor.
  - intros []. by constructor.
  - intros []. by constructor.
Qed.

(** The peer [q] of [p] is told that it has no peer any more. *)
Lemma inv_unlink p s q s' w :
  inv None w → sockets w !! p = Some s → peer s = Some q → sockets w !! q = Some s' →
  inv (Some p) (w <| sockets ::= <[q := s' <| peer := None |>]> |>).
Proof.
  intros H E Hq E'. destruct (inv_peer _ _ H p s q) as (_ & Hne & s2 & E2 & Hp2 & _); [done..|].
  simplify_eq. assert (inv (Some p) (w <| sockets ::= <[q := s' <| peer := None |>]> |>)) as ?; [|done].
  constructor; rec_simpl.
  - intros a sa [[<- <-]|[? Ea]]%lookup_insert_Some.
    + by apply sock_ok_no_peer, (inv_sock _ _ H) with (p := q).
    + by apply (inv_sock _ _ H) in Ea.
  - intros a sa [[<- <-]|[? Ea]]%lookup_insert_Some; by eapply (inv_fresh _ _ H).
  - intros a. rewrite (inv_list _ _ H). setoid_rewrite lookup_insert_Some. unfold is_local.
    destruct (decide (q = a)) as [->|]; naive_solver.
  - intros a. rewrite (inv_closing _ _ H). setoid_rewrite lookup_insert_Some. unfold is_local.
    destruct (decide (q = a)) as [->|]; naive_solver.
  - apply (inv_nodup _ _ H).
  - intros a sa b Ha [[<- <-]|[Hqa Ea]]%lookup_insert_Some Hb; [cbn in Hb; done|].
    destruct (inv_peer _ _ H a sa b) as (_ & ? & sb & Eb & Hpb & ?); [done..|].
    assert (b ≠ p) by (intros ->; by simplify_eq). assert (b ≠ q) by (intros ->; by simplify_eq).
    split_and!; [congruence|done|]. exists sb. by rewrite lookup_insert_ne.
  - intros a sa t [[<- <-]|[? Ea]]%lookup_insert_Some; [by apply (inv_transport _ _ H q s' t)|].
    by eapply (inv_transport _ _ H).
  - by eapply trackers_insert.
  - apply (inv_tracker_nodup _ _ H).
  - intros a sa b sb Ha [[<- <-]|[_ Ea]]%lookup_insert_Some Hs Hb; [cbn in Hb; done|].
    intros [[<- <-]|[_ Eb]]%lookup_insert_Some; [by eapply (inv_client _ _ H a sa q s')|].
    by eapply (inv_client _ _ H a sa b sb).
Qed.

Lemma inv_clear_peer p s w :
  inv (Some p) w → sockets w !! p = Some s →
  inv None (w <| sockets ::= <[p := s <| peer := None |>]> |>).
Proof.
  intros H E. constructor; rec_simpl.
  - intros a sa [[<- <-]|[? Ea]]%lookup_insert_Some.
    + by apply sock_ok_no_peer, (inv_sock _ _ H) with (p := p).
    + by apply (inv_sock _ _ H) in Ea.
  - intros a sa [[<- <-]|[? Ea]]%lookup_insert_Some; by eapply (inv_fresh _ _ H).
  - intros a. rewrite (inv_list _ _ H). setoid_rewrite lookup_insert_Some. unfold is_local.
    destruct (decide (p = a)) as [->|]; naive_solver.
  - intros a. rewrite (inv_closing _ _ H). setoid_rewrite lookup_insert_Some. unfold is_local.
    destruct (decide (p = a)) as [->|]; naive_solver.
  - apply (inv_nodup _ _ H).
  - intros a sa b _ [[<- <-]|[Hqa Ea]]%lookup_insert_Some Hb; [cbn in Hb; done|].
    destruct (inv_peer _ _ H a sa b) as (Hbp & ? & sb & Eb & ?); [congruence|done..|].
    split_and!; [done|done|]. exists sb. rewrite lookup_insert_ne by congruence. done.
  - intros a sa t [[<- <-]|[? Ea]]%lookup_insert_Some; [by apply (inv_transport _ _ H p s t)|].
    by eapply (inv_transport _ _ H).
  - by eapply trackers_insert.
  - apply (inv_tracker_nodup _ _ H).
  - intros a sa b sb Ha [[<- <-]|[Hne Ea]]%lookup_insert_Some Hs Hb; [cbn in Hb; done|].
    intros [[<- <-]|[_ Eb]]%lookup_insert_Some; [eapply (inv_client _ _ H a sa p s)|
      eapply (inv_client _ _ H a sa b sb)]; congruence.
Qed.

Lemma elem_of_remove_node p a l : NoDup l → a ∈ remove_node p l ↔ a ≠ p ∧ a ∈ l.
Proof.
  induction 1 as [|b l Hb Hl IH]; cbn [remove_node]; [set_solver|]. case_bool_decide; set_solver.
Qed.

Lemma sublist_remove_node p l : remove_node p l `sublist_of` l.
Proof. induction l as [|b l IH]; cbn [remove_node]; [done|]. case_bool_decide; by constructor. Qed.

Lemma remove_node_absent p l : p ∉ l → remove_node p l = l.
Proof.
  induction l as [|b l IH]; cbn [remove_node]; [done|]. rewrite not_elem_of_cons. intros [? ?].
  rewrite bool_decide_false by done. by rewrite IH.
Qed.

(** A socket that is not local disappears, from the list of trackers too. *)
Definition forget (p : nat) (w : world) : world :=
  w <| device_tracker_list ::= remove_node p |> <| sockets ::= delete p |>.

Lemma forget_plain x p s w :
  inv x w → sockets w !! p = Some s → ¬ is_tracker s → forget p w = w <| sockets ::= delete p |>.
Proof.
  intros H E Ht. unfold forget. assert (p ∉ device_tracker_list w) as Hp.
  { rewrite (inv_trackers _ _ H). intros (s' & E' & ?). congruence. }
  revert Hp. rec_norm. intros Hp. by rewrite remove_node_absent.
Qed.

Lemma inv_forget x p s w :
  inv x w → sockets w !! p = Some s → ¬ is_local s → peer s = None ∨ x = Some p →
  inv (if decide (x = Some p) then None else x) (forget p w).
Proof.
  intros H E Hl Hp. unfold forget.
  assert (∀ a sa, Some a ≠ x → a ≠ p → sockets w !! a = Some sa → peer sa ≠ Some p) as Hno.
  { intros a sa Ha Hap Ea Hpa. destruct (inv_peer _ _ H a sa p Ha Ea Hpa) as (Hx & _ & s2 & E2 & ? & _).
    simplify_eq. destruct Hp; [congruence|]. subst. done. }
  constructor; rec_simpl.
  - intros a sa [? Ea]%lookup_delete_Some. by apply (inv_sock _ _ H) in Ea.
  - intros a sa [? Ea]%lookup_delete_Some. by apply (inv_fresh _ _ H) in Ea.
  - intros a. rewrite (inv_list _ _ H). setoid_rewrite lookup_delete_Some. naive_solver.
  - intros a. rewrite (inv_closing _ _ H). setoid_rewrite lookup_delete_Some. naive_solver.
  - apply (inv_nodup _ _ H).
  - intros a sa b Ha [Hne Ea]%lookup_delete_Some Hb.
    assert (Some a ≠ x) as Hax by (destruct (decide (x = Some p)); congruence).
    destruct (inv_peer _ _ H a sa b Hax Ea Hb) as (Hbx & ? & sb & ? & ?).
    assert (b ≠ p) by (intros ->; by apply (Hno a sa)).
    split_and!; [by destruct (decide (x = Some p))|done|]. exists sb. by rewrite lookup_delete_ne.
  - intros a sa t [? Ea]%lookup_delete_Some. by eapply (inv_transport _ _ H).
  - intros a. rewrite elem_of_remove_node, (inv_trackers _ _ H) by apply (inv_tracker_nodup _ _ H).
    setoid_rewrite lookup_delete_Some. naive_solver.
  - eapply sublist_NoDup; [apply (inv_tracker_nodup _ _ H)|apply sublist_remove_node].
  - intros a sa b sb Ha [? Ea]%lookup_delete_Some Hs Hb [_ Eb]%lookup_delete_Some.
    eapply (inv_client _ _ H a sa b sb); try done. destruct (decide (x = Some p)); congruence.
Qed.

Lemma inv_fds x g w : inv x w → inv x (w <| fds := g |>).
Proof. by intros []; constructor. Qed.

Lemma inv_transports x t a w : inv x w → inv x (w <| transports ::= <[t := a]> |>).
Proof.
  intros []. constructor; try done. rec_simpl. intros p s t' E Hc Ht.
  destruct (decide (t = t')) as [->|]; [rewrite lookup_insert_eq; eauto|].
  rewrite lookup_insert_ne by done. by eapply inv_transport0.
Qed.

(** ** Closing *)

(** What closing sockets without a live peer leaves alone: all others. *)
Record closed (q : nat) (w w' : world) : Prop := {
  cl_others : ∀ a, a ≠ q → sockets w' !! a = sockets w !! a;
  cl_self : ∀ s', sockets w' !! q = Some s' → is_local s' ∧ closing s' = true;
  cl_list : local_socket_list w' `sublist_of` local_socket_list w;
  cl_gone : q ∉ local_socket_list w';
  cl_transports : transports w' = transports w;
  cl_next : next_socket w' = next_socket w ∧ local_socket_next_id w' = local_socket_next_id w
}.

Lemma closed_finish_local p s w :
  is_local s → closed p w (finish_local p s w).
Proof.
  intros Hl. unfold finish_local, destroy_local, to_closing.
  destruct (must_destroy s); constructor; rec_simpl; try done.
  - intros a Ha. by rewrite lookup_delete_ne.
  - intros s'. by rewrite lookup_delete_eq.
  - apply sublist_filter.
  - rewrite elem_of_remove. naive_solver.
  - intros a Ha. by rewrite lookup_insert_ne.
  - intros s'. rewrite lookup_insert_eq. by intros [= <-].
  - apply sublist_filter.
  - rewrite elem_of_remove. naive_solver.
Qed.

Lemma closed_store p s' w w' :
  closed p (w <| sockets ::= <[p := s']> |>) w' → closed p w w'.
Proof.
  intros [H1 H2 H3 H4 H5 H6]. constructor; try done. intros a Ha. rewrite H1 by done. rec_simpl.
  by rewrite lookup_insert_ne.
Qed.

Lemma closed_fds p g w w' : closed p (w <| fds := g |>) w' → closed p w w'.
Proof. by intros []; constructor. Qed.

Lemma local_ok_restore s : local_ok s → local_ok (restore_local s).
Proof.
  intros []. unfold restore_local. constructor; rec_simpl; auto.
Qed.

Lemma sock_local s : local_ok s → sock_ok s.
Proof. intros H. unfold sock_ok. by rewrite (lo_enqueue _ H). Qed.

Lemma SendFail_total o reason : ∃ r, SendFail o reason = Ret r.
Proof.
  unfold SendFail. destruct (write_exactly_spec o (str "FAIL")) as (ok & o' & ? & -> & _). mstep.
  destruct ok; [|eauto]. unfold SendProtocolString. destruct (_ <? _); [eauto|].
  destruct (write_exactly_spec o' (print_0x 4 (u32 (zlen reason)) ++ reason)) as (? & ? & ? & -> & _). eauto.
Qed.

Lemma SendOkay_total o : ∃ r, SendOkay o = Ret r.
Proof. destruct (write_exactly_spec o (str "OKAY")) as (ok & o' & ? & E & _). unfold SendOkay. eauto. Qed.

Lemma inv_restore x p s w :
  inv x w → sockets w !! p = Some s → is_local s →
  inv x (w <| sockets ::= <[p := restore_local s]> |>).
Proof.
  intros H E Hl. eapply inv_store; try done.
  - apply sock_local, local_ok_restore. by eapply inv_local_ok.
  - intros t Hc Ht. by eapply (inv_transport _ _ H).
  - intros a sa Ha Ea Hs Hp. by eapply (inv_client _ _ H a sa p s).
Qed.

Lemma closed_forget x q s w :
  inv x w → Some q ≠ x → sockets w !! q = Some s → peer s = None → enqueue_fn s ≠ enqueue_local →
  inv x (forget q w) ∧ closed q w (forget q w).
Proof.
  intros H Hx E Hp Hl. split.
  { pose proof (inv_forget x q s w H E) as Hd. rewrite decide_False in Hd by done. apply Hd; [done|by left]. }
  unfold forget. constructor; rec_simpl; try done.
  - intros a Ha. by rewrite lookup_delete_ne.
  - intros s'. by rewrite lookup_delete_eq.
  - rewrite (inv_list _ _ H). unfold is_local. intros (s2 & ? & ? & ?). congruence.
Qed.

Lemma wp_close_alone junk fuel x q s w :
  inv x w → Some q ≠ x → sockets w !! q = Some s → peer s = None →
  wp (socket_close_fuel junk (S (S fuel)) q) (λ _ w', inv x w' ∧ closed q w w') w.
Proof.
  intros H Hx E Hp. pose proof (inv_sock _ _ H _ _ E) as Hok. unfold sock_ok in Hok.
  cbn [socket_close_fuel]. wp_go. destruct (enqueue_fn s) eqn:Ek.
  - assert (is_local s) as Hl by done. destruct (lo_close _ Hok) as [Hc|Hc]; rewrite Hc.
    + eapply wp_local_close_alone; [done..|]. split; [by apply inv_finish_local|by apply closed_finish_local].
    + unfold local_socket_close_notify. wp_go. eapply wp_load; [apply lookup_insert_eq|]. wp_go.
      apply wp_fd_out; [intros; apply SendFail_total|]. intros _ g _.
      apply wp_bind, (wp_load _ (restore_local s)); [apply lookup_insert_eq|].
      change (close_fn (restore_local s)) with close_local. cbv iota.
      assert (inv x (w <| sockets ::= <[q := restore_local s]> |> <| fds := g |>)) as H'
        by (by apply inv_fds, inv_restore).
      eapply wp_local_close_alone; [apply lookup_insert_eq|by apply local_ok_restore|done|].
      split; [apply inv_finish_local; try done; apply lookup_insert_eq|].
      eapply closed_store, closed_fds, closed_finish_local. done.
  - destruct Hok as [_ -> _ _ _ _]. unfold remote_socket_close. wp_go. rewrite Hp. wp_go.
    rewrite <- (forget_plain x q s w H E) by (unfold is_tracker; congruence). eapply closed_forget; [done..|congruence].
  - destruct Hok as [_ -> _ _ _]. unfold smart_socket_close. wp_go. rewrite Hp. wp_go.
    rewrite <- (forget_plain x q s w H E) by (unfold is_tracker; congruence). eapply closed_forget; [done..|congruence].
  - destruct Hok as [_ -> _ _ _ _ _]. unfold device_tracker_close, device_tracker_remove.
    wp_go. rewrite Hp. wp_go.
    eapply closed_forget; [done..|congruence].
Qed.

(** What closing [p] does to the rest. *)
Record close_post (p : nat) (w w' : world) : Prop := {
  cp_list : local_socket_list w' `sublist_of` local_socket_list w;
  cp_gone : p ∉ local_socket_list w';
  cp_transports : tstable w w';
  cp_next : next_socket w' = next_socket w ∧ local_socket_next_id w' = local_socket_next_id w;
  cp_sockets : ∀ a s', sockets w' !! a = Some s' → is_Some (sockets w !! a);
  cp_others : ∀ a s, sockets w !! a = Some s → a ≠ p → peer s ≠ Some p → sockets w' !! a = Some s;
  cp_self : ∀ s', sockets w' !! p = Some s' → is_local s' ∧ closing s' = true
}.

Lemma closed_post p w w' : is_Some (sockets w !! p) → closed p w w' → close_post p w w'.
Proof.
  intros Hp [H1 H2 H3 H4 H5 H6]. constructor; try done; [by apply tstable_eq|..].
  - intros a s' E. destruct (decide (a = p)) as [->|]; [done|]. rewrite <- H1 by done. eauto.
  - intros a s E Ha _. by rewrite H1.
Qed.

(** Sockets that have nothing to do with [p] have nothing to do with its peer. *)
Definition apart (p q : nat) (w : world) : Prop :=
  ∀ a s, sockets w !! a = Some s → a ≠ p → peer s ≠ Some p → a ≠ q ∧ peer s ≠ Some q.

Lemma peers_apart p s q w :
  inv None w → sockets w !! p = Some s → peer s = Some q → apart p q w.
Proof.
  intros H E Hq a sa Ea Ha Hp.
  destruct (inv_peer _ _ H p s q) as (_ & _ & s' & E' & Hp' & _); [done..|]. split.
  - intros ->. congruence.
  - intros Hs. destruct (inv_peer _ _ H a sa q) as (_ & _ & s2 & E2 & Hp2 & _); [done..|]. congruence.
Qed.

(** [p] is gone or closing: nothing is left to pair. *)
Lemma paired_closed q w w' : paired (Some q) w → closed q w w' → paired None w'.
Proof.
  intros Hp [H1 H2 _ _ _ _] a sa _ Ea Hl. destruct (decide (a = q)) as [->|Hne].
  - by destruct (H2 _ Ea).
  - rewrite H1 in Ea by done. apply (Hp a sa); [congruence|done..].
Qed.

Lemma paired_weaken q w : paired None w → paired (Some q) w.
Proof. intros H a sa _. by apply H. Qed.

Lemma paired_unlink q s' w :
  paired None w → paired (Some q) (w <| sockets ::= <[q := s' <| peer := None |>]> |>).
Proof.
  intros H a sa Ha. rec_simpl. intros [[-> <-]|[? Ea]]%lookup_insert_Some Hl; [done|]. by eapply H.
Qed.

Lemma paired_local p s w :
  paired None w → is_local s → paired None (w <| sockets ::= <[p := s]> |>).
Proof.
  intros H Hs a sa Ha. rec_simpl. intros [[-> <-]|[? Ea]]%lookup_insert_Some Hl; [done|]. by eapply H.
Qed.

(** The peer of [p] is told that [p] goes away, forgets it, and is closed. *)
Lemma wp_close_peer junk f p s q s' w :
  wf w → sockets w !! p = Some s → peer s = Some q → sockets w !! q = Some s' →
  wp (_ ← store q (λ s', s' <| peer := None |>); socket_close_fuel junk (S (S f)) q)
     (λ _ w', inv (Some p) w' ∧ paired None w' ∧ sockets w' !! p = Some s ∧ close_post q w w') w.
Proof.
  intros [H Hpr] E Hq E'. destruct (inv_peer _ _ H p s q) as (_ & Hne & _); [done..|].
  wp_go. eapply wp_mono.
  { eapply (wp_close_alone junk f (Some p)); [by eapply inv_unlink|congruence|apply lookup_insert_eq|done]. }
  intros _ w' [Hi Hc]. split_and!; [done| | |].
  - eapply paired_closed; [|done]. by apply paired_unlink.
  - rewrite (cl_others _ _ _ Hc) by done. rec_simpl. by rewrite lookup_insert_ne.
  - apply closed_post; [eauto|]. by eapply closed_store.
Qed.

Lemma close_post_trans q p w1 w2 w3 :
  apart p q w1 → close_post q w1 w2 → close_post p w2 w3 → close_post p w1 w3.
Proof.
  intros Hap [L1 G1 T1 [N1 M1] S1 O1 _] [L2 G2 T2 [N2 M2] S2 O2 Se2]. constructor.
  - by etrans.
  - done.
  - by eapply tstable_trans.
  - split; congruence.
  - intros a s3 E. destruct (S2 _ _ E) as [s2 E2]. by eapply S1.
  - intros a s E Ha Hp. destruct (Hap a s E Ha Hp). auto.
  - done.
Qed.

Lemma close_post_store s' p w w' :
  is_Some (sockets w !! p) → close_post p (w <| sockets ::= <[p := s']> |>) w' → close_post p w w'.
Proof.
  intros Hq [L1 G1 T1 N1 S1 O1 Se1]. constructor; try done.
  - intros a s2 E. destruct (S1 _ _ E) as [s1 E1]. revert E1. rec_simpl.
    intros [[-> _]|[_ ?]]%lookup_insert_Some; eauto.
  - intros a s E Ha. apply O1; [|done]. rec_simpl. by rewrite lookup_insert_ne.
Qed.

Lemma close_post_fds p g w w' : close_post p (w <| fds := g |>) w' → close_post p w w'.
Proof. intros [L1 G1 T1 N1 S1 O1 Se1]. constructor; assumption. Qed.

Lemma inv_remote_ok x w p s : inv x w → sockets w !! p = Some s → enqueue_fn s = enqueue_remote → remote_ok s.
Proof. intros H E Hl. apply (inv_sock _ _ H) in E. unfold sock_ok in E. by rewrite Hl in E. Qed.

(** [remote_socket_shutdown] sends a CLSE packet. *)
Lemma wp_shutdown junk q s' Q w :
  inv None w → sockets w !! q = Some s' → shutdown_fn s' = true →
  (∀ w', (∃ t a a', transports w !! t = Some a ∧ tsame a a' ∧ w' = w <| transports ::= <[t := a']> |>) →
    Q tt w') →
  wp (remote_socket_shutdown junk q) Q w.
Proof.
  intros H E Hs HQ. assert (remote_ok s') as [? ? ? ? Hc [t Ht]].
  { pose proof (inv_sock _ _ H _ _ E) as Hok. unfold sock_ok in Hok. destruct (enqueue_fn s'); [|done|..].
    - pose proof (lo_shutdown _ Hok). congruence.
    - pose proof (so_shutdown _ Hok). congruence.
    - pose proof (tk_shutdown _ Hok). congruence. }
  destruct (inv_transport _ _ H _ _ _ E Hc Ht) as [a Ea].
  unfold remote_socket_shutdown. wp_go.
  assert (∀ local, wp (pkt ← lift (make_packet junk A_CLSE local (sid s') []);
                       t ← lift (deref (transport s')); on_transport t (send_packet pkt)) Q w) as Hsend.
  { intros local. apply wp_bind. destruct (make_packet_ok junk A_CLSE local (sid s') []) as (pk & Ep & Hp & _).
    eapply wp_lift; [exact Ep|]. apply wp_bind, (wp_lift _ t); [by rewrite Ht|].
    eapply wp_send; [done..|]. intros a' Ha _. eapply HQ. eauto 10. }
  destruct (peer s') as [p|] eqn:Hp; [|wp_go; apply Hsend].
  destruct (inv_peer _ _ H q s' p) as (_ & _ & s & Es & _); [done..|]. wp_go. apply Hsend.
Qed.

Lemma wf_transports t a w : wf w → wf (w <| transports ::= <[t := a]> |>).
Proof. intros [H Hp]. split; [by apply inv_transports|done]. Qed.

Lemma close_post_transports p t a a' w w' :
  transports w !! t = Some a → tsame a a' →
  close_post p (w <| transports ::= <[t := a']> |>) w' → close_post p w w'.
Proof.
  intros E Ht [L1 G1 T1 N1 S1 O1 Se1]. constructor; try done.
  eapply tstable_trans; [by eapply tstable_insert|done].
Qed.

Lemma wf_finish_local p s w :
  inv None w → paired None w → sockets w !! p = Some s → is_local s → peer s = None →
  wf (finish_local p s w).
Proof.
  intros H Hp E Hl Hn. split; [by apply inv_finish_local|].
  eapply paired_closed; [by apply paired_weaken|by apply closed_finish_local].
Qed.

(** The part of [local_socket_close] and [smart_socket_close] that closes the peer. *)
Lemma wp_detach junk f p s q s' Q w :
  wf w → sockets w !! p = Some s → peer s = Some q → sockets w !! q = Some s' →
  (∀ w1, inv (Some p) w1 → paired None w1 → sockets w1 !! p = Some s → close_post q w w1 →
         Q tt (w1 <| sockets ::= <[p := s <| peer := None |>]> |>)) →
  wp (_ ← store q (λ s', s' <| peer := None |>);
      _ ← socket_close_fuel junk (S (S f)) q;
      store p (λ s, s <| peer := None |>)) Q w.
Proof.
  intros H E Hq E' HQ. pose proof (wp_close_peer junk f p s q s' w H E Hq E') as Hw.
  apply wp_run in Hw as ([] & w1 & Erun & Hi & Hpr & Ep & Hpost).
  assert (wp (store p (λ s, s <| peer := None |>)) Q w1) as Hst by (eapply wp_store; [done|]; by apply HQ).
  revert Erun Hst. unfold wp, mbind, ST_bind. cbv beta.
  destruct (store q _ w) as [[[] w0]| | |]; [|done..]. intros -> Hst. exact Hst.
Qed.

Lemma wp_local_close junk f p s w :
  wf w → sockets w !! p = Some s → is_local s →
  wp (local_socket_close junk (socket_close_fuel junk (S (S f))) p)
     (λ _ w', wf w' ∧ close_post p w w') w.
Proof.
  intros H E Hl. destruct (peer s) as [q|] eqn:Hq.
  2:{ destruct H as [H Hp]. eapply wp_local_close_alone; [done|by eapply inv_local_ok|done|].
      split; [by apply wf_finish_local|]. apply closed_post; [eauto|by apply closed_finish_local]. }
  destruct (inv_peer _ _ (wf_inv _ H) p s q) as (_ & Hne & s' & E' & Hp' & _); [done..|].
  unfold local_socket_close. wp_go. rewrite Hq. wp_go.
  assert (∀ w1, wf w1 → sockets w1 = sockets w → (∀ w2, close_post p w1 w2 → close_post p w w2) →
    wp (_ ← store q (λ s', s' <| peer := None |>);
        _ ← socket_close_fuel junk (S (S f)) q;
        store p (λ s, s <| peer := None |>))
      (λ _, wp (local_socket_finish p) (λ _ w', wf w' ∧ close_post p w w')) w1) as Hrest.
  { intros w1 Hw1 Es Hpost. eapply wp_detach; rewrite ?Es; try done.
    intros w2 Hi Hpr Ep2 Hc. pose proof (inv_clear_peer _ _ _ Hi Ep2) as Hi2.
    assert (sockets (w2 <| sockets ::= <[p := s <| peer := None |>]> |>) !! p = Some (s <| peer := None |>))
      as Ep3 by apply lookup_insert_eq.
    eapply wp_local_finish; [exact Ep3|by eapply inv_local_ok|]. split.
    - apply wf_finish_local; try done. by apply paired_local.
    - apply Hpost. eapply close_post_trans; [|done|].
      { eapply (peers_apart p s); [apply Hw1|by rewrite Es|done]. }
      eapply (close_post_store _ p); [eauto|].
      apply closed_post; [eauto|]. by apply closed_finish_local. }
  destruct (shutdown_fn s') eqn:Hs; [|by apply Hrest].
  eapply wp_shutdown; [apply H|done..|]. intros w1 (t & a & a' & Et & Ht & ->).
  apply Hrest; [by apply wf_transports|done|]. intros w2. by apply (close_post_transports p t a a').
Qed.

Lemma wf_forget_self p s w :
  inv (Some p) w → paired None w → sockets w !! p = Some s → ¬ is_local s → wf (forget p w).
Proof.
  intros H Hp E Hl. split.
  - pose proof (inv_forget (Some p) p s w H E Hl) as Hd. rewrite decide_True in Hd by done. auto.
  - intros a sa Ha. unfold forget. rec_simpl. intros [? Ea]%lookup_delete_Some. by apply (Hp a sa).
Qed.

Lemma close_post_forget p q s w w1 :
  inv (Some p) w1 → is_Some (sockets w !! p) → apart p q w → close_post q w w1 →
  sockets w1 !! p = Some s → ¬ is_local s → close_post p w (forget p w1).
Proof.
  intros H Hp Hap [L1 G1 T1 N1 S1 O1 _] E Hl. unfold forget. constructor; try done.
  - rec_simpl. rewrite (inv_list _ _ H). intros (s' & E' & Hs & _). congruence.
  - intros a s'. rec_simpl. intros [? Ea]%lookup_delete_Some. eauto.
  - intros a sa Ea Ha Hpa. rec_simpl. rewrite lookup_delete_ne by done. destruct (Hap a sa Ea Ha Hpa). auto.
  - intros s'. rec_simpl. by rewrite lookup_delete_eq.
Qed.

Lemma wp_socket_close junk p s w :
  wf w → sockets w !! p = Some s → wp (socket_close junk p) (λ _ w', wf w' ∧ close_post p w w') w.
Proof.
  intros H E. pose proof (inv_sock _ _ (wf_inv _ H) _ _ E) as Hok. unfold sock_ok in Hok.
  unfold socket_close, CLOSE_FUEL. cbn [socket_close_fuel]. wp_go.
  destruct (decide (enqueue_fn s = enqueue_local)) as [Hl|Hl].
  { rewrite Hl in Hok. destruct (lo_close _ Hok) as [->| ->]; [by eapply (wp_local_close junk 1)|].
    unfold local_socket_close_notify. wp_go. eapply wp_load; [apply lookup_insert_eq|]. wp_go.
    apply wp_fd_out; [intros; apply SendFail_total|]. intros _ g _.
    apply wp_bind, (wp_load _ (restore_local s)); [apply lookup_insert_eq|].
    change (close_fn (restore_local s)) with close_local. cbv iota.
    eapply wp_mono; [eapply (wp_local_close junk 0)|].
    + destruct H as [H Hp]. split; [by apply inv_fds, inv_restore|].
      apply (paired_local p (restore_local s) w Hp). done.
    + apply lookup_insert_eq.
    + done.
    + intros _ w' [Hw Hc]. split; [done|]. eapply (close_post_store _ p); [eauto|].
      by eapply close_post_fds. }
  destruct (wf_paired _ H p s) as [q Hq]; [done..|].
  destruct (inv_peer _ _ (wf_inv _ H) p s q) as (_ & _ & s' & E' & _); [done..|].
  pose proof (peers_apart p s q w (wf_inv _ H) E Hq) as Hap.
  destruct (enqueue_fn s) eqn:Ek; [done|..].
  - rewrite (ro_close _ Hok). unfold remote_socket_close. wp_go. rewrite Hq.
    eapply wp_mono; [by apply (wp_close_peer junk 1 p s q s')|].
    intros _ w1 (Hi & Hpr & Ep & Hc). wp_go.
    rewrite <- (forget_plain _ p s w1 Hi Ep) by (unfold is_tracker; congruence).
    split; [eapply wf_forget_self|eapply close_post_forget]; eauto; congruence.
  - rewrite (so_close _ Hok). unfold smart_socket_close. wp_go. rewrite Hq.
    eapply (wp_detach junk 1 p s q s'); [done..|]. intros w1 Hi Hpr Ep Hc.
    eapply wp_delete; [apply lookup_insert_eq|].
    replace (w1 <| sockets ::= <[p := s <| peer := None |>]> |> <| sockets ::= delete p |>)
      with (w1 <| sockets ::= delete p |>) by (rec_norm; by rewrite delete_insert_eq).
    rewrite <- (forget_plain _ p s w1 Hi Ep) by (unfold is_tracker; congruence).
    split; [eapply wf_forget_self|eapply close_post_forget]; eauto; congruence.
  - rewrite (tk_close _ Hok). unfold device_tracker_close. wp_go. rewrite Hq.
    eapply wp_mono; [by apply (wp_close_peer junk 1 p s q s')|].
    intros _ w1 (Hi & Hpr & Ep & Hc). unfold device_tracker_remove. wp_go.
    split; [eapply wf_forget_self|eapply close_post_forget]; eauto; congruence.
Qed.

(** ** Closing every socket of a transport *)

(** [s] or its peer is bound to [t]. *)
Definition uses (w : world) (t : Z) (s : asocket) : Prop :=
  transport s = Some t ∨
  ∃ q s', peer s = Some q ∧ sockets w !! q = Some s' ∧ transport s' = Some t.

Lemma wp_find_of_transport t w l :
  inv None w → (∀ p, p ∈ l → is_Some (sockets w !! p)) →
  wp (find_of_transport l t)
     (λ r w', w' = w ∧ match r with
                       | Some p => p ∈ l ∧ ∃ s, sockets w !! p = Some s ∧ uses w t s
                       | None => ∀ p s, p ∈ l → sockets w !! p = Some s → ¬ uses w t s
                       end) w.
Proof.
  intros H. induction l as [|p l IH]; intros Hl; cbn [find_of_transport].
  { wp_go. split; [done|]. intros p s Hp. by apply not_elem_of_nil in Hp. }
  destruct (Hl p) as [s E]; [by left|]. wp_go.
  assert (wp (if bool_decide (transport s = Some t) then mret true
              else match peer s with
                   | None => mret false
                   | Some q => s' ← load q; mret (bool_decide (transport s' = Some t))
                   end) (λ b w', w' = w ∧ (b = true ↔ uses w t s)) w) as Hhit.
  { unfold uses. case_bool_decide as Ht; wp_go; [split; [done|]; tauto|].
    destruct (peer s) as [q|] eqn:Hq; wp_go; [|split; [done|]; naive_solver].
    destruct (inv_peer _ _ H p s q) as (_ & _ & s' & E' & _); [done..|]. wp_go.
    split; [done|]. rewrite bool_decide_eq_true. naive_solver. }
  eapply wp_mono; [exact Hhit|]. intros b w' [-> Hb]. destruct b; wp_go.
  { split; [done|]. split; [by left|]. exists s. split; [done|]. by apply Hb. }
  eapply wp_mono; [apply IH; intros; apply Hl; by right|].
  intros r w' [-> Hr]. split; [done|]. destruct r as [p'|]; [destruct Hr; split; [by right|done]|].
  intros a sa [->|Ha]%elem_of_cons Ea; [|by eapply Hr]. simplify_eq. intros Hu. by apply Hb in Hu.
Qed.

Lemma sublist_shorter (l l' : list nat) p :
  l' `sublist_of` l → p ∈ l → p ∉ l' → (length l' < length l)%nat.
Proof.
  intros Hs Hp Hn. apply sublist_length in Hs as Hlen.
  destruct (decide (length l' = length l)) as [Heq|]; [|lia].
  apply sublist_submseteq in Hs. apply submseteq_length_Permutation in Hs; [|lia].
  by rewrite Hs in Hn.
Qed.

Record close_all_post (t : Z) (w w' : world) : Prop := {
  ca_wf : wf w';
  ca_free : ∀ p s, p ∈ local_socket_list w' → sockets w' !! p = Some s → ¬ uses w' t s;
  ca_list : local_socket_list w' `sublist_of` local_socket_list w;
  ca_transports : tstable w w';
  ca_next : next_socket w' = next_socket w ∧ local_socket_next_id w' = local_socket_next_id w;
  ca_others : ∀ a s, sockets w !! a = Some s → ¬ uses w t s → sockets w' !! a = Some s
}.

(** Closing a socket that uses [t] leaves alone those that do not. *)
Lemma close_others p s t w w' a sa :
  inv None w → sockets w !! p = Some s → uses w t s → close_post p w w' →
  sockets w !! a = Some sa → ¬ uses w t sa → sockets w' !! a = Some sa.
Proof.
  intros H E Hu Hc Ea Ha. apply (cp_others _ _ _ Hc); [done|congruence|]. intros Hp. apply Ha.
  destruct (inv_peer _ _ H a sa p) as (_ & _ & s2 & E2 & Hp2 & _); [done..|]. simplify_eq.
  destruct Hu as [Ht|(q & s' & Hq & E' & Ht)]; [right; eauto|]. simplify_eq. by left.
Qed.

Lemma close_not_uses p s t w w' a sa :
  inv None w → sockets w !! p = Some s → uses w t s → close_post p w w' →
  sockets w !! a = Some sa → ¬ uses w t sa → ¬ uses w' t sa.
Proof.
  intros H E Hu Hc Ea Ha [Ht|(q & s' & Hq & E' & Ht)]; [apply Ha; by left|].
  destruct (inv_peer _ _ H a sa q) as (_ & _ & s2 & E2 & Hp2 & _); [done..|].
  apply Ha. right. exists q, s2. split_and!; [done..|].
  assert (¬ uses w t s2) as Hn.
  { intros [?|(b & sb & Hb & Eb & ?)]; apply Ha; [right; eauto|]. simplify_eq. by left. }
  pose proof (close_others p s t w w' q s2 H E Hu Hc E2 Hn). congruence.
Qed.

Lemma wp_close_all_loop junk t fuel : ∀ w,
  wf w → (length (local_socket_list w) < fuel)%nat →
  wp (close_all_loop junk fuel t) (λ _ w', close_all_post t w w') w.
Proof.
  induction fuel as [|fuel IH]; intros w H Hf; [lia|]. cbn [close_all_loop]. wp_go.
  eapply wp_mono; [apply wp_find_of_transport; [apply H|]|].
  { intros p (s & E & _)%(inv_list _ _ (wf_inv _ H)). eauto. }
  intros [p|] w' [-> Hr]; wp_go.
  2:{ constructor; try done. apply tstable_refl. }
  destruct Hr as (Hr & s & E & Hu).
  eapply wp_mono; [by eapply wp_socket_close|]. intros _ w1 [H1 Hpost].
  pose proof Hpost as [L1 G1 T1 [N1 M1] _ _ _].
  eapply wp_mono; [apply IH; [done|]|].
  { pose proof (sublist_shorter _ _ _ L1 Hr G1). lia. }
  intros _ w2 [W2 F2 L2 T2 [N2 M2] O2]. constructor; try done.
  - by etrans.
  - by eapply tstable_trans.
  - split; congruence.
  - intros a sa Ea Ha. destruct H as [H _]. apply O2;
      [by apply (close_others p s t w w1)|by apply (close_not_uses p s t w w1 a)].
Qed.

Lemma wp_close_all junk t w :
  wf w → wp (close_all_sockets junk t) (λ _ w', close_all_post t w w') w.
Proof. intros H. unfold close_all_sockets. wp_go. apply wp_close_all_loop; [done|lia]. Qed.

(** No socket that can still use its transport is bound to [t]. *)
Definition unused (t : Z) (w : world) : Prop :=
  ∀ p s, sockets w !! p = Some s → closing s = false → transport s ≠ Some t.

Lemma close_all_unused t w w' : close_all_post t w w' → unused t w'.
Proof.
  intros [[H Hp] F _ _ _ _] p s E Hc Ht. destruct (decide (enqueue_fn s = enqueue_local)) as [Hl|Hl].
  - eapply (F p s); [apply (inv_list _ _ H); eauto|done|by left].
  - destruct (Hp p s) as [q Hq]; [done..|].
    destruct (inv_peer _ _ H p s q) as (_ & _ & s' & E' & Hp' & [?|Hl']); [done..| |]; [done|].
    assert (closing s' = false) as Hc'.
    { destruct (lo_fde s') as (e & _ & _ & Hcl); [by eapply inv_local_ok|].
      destruct (closing s'); [|done]. destruct Hcl; [done|congruence]. }
    eapply (F q s'); [apply (inv_list _ _ H); eauto|done|]. right. eauto.
Qed.

(** ** Creating sockets *)

Definition fresh_local (id n : Z) : asocket :=
  Socket id false false None enqueue_local ready_local false close_local None
    (Some (Fdevent false false)) n IOVector.empty_vec None [] None.

Definition fresh_remote (rid t : Z) (p : nat) : asocket :=
  Socket rid false false (Some p) enqueue_remote ready_remote true close_remote (Some t) None (-1)
    IOVector.empty_vec None [] None.

(** The server before any client has connected, with transports [ts]. *)
Definition init_world (ts : gmap Z atransport) (f : gmap Z (instream * outstream)) (n : Z) : world :=
  World ∅ 0 1 [] [] f n [] ts (map_to_list ts).*1 [] [] [] 0 false 1 ∅.

Lemma init_empty ts f n p : sockets (init_world ts f n) !! p = None.
Proof. apply lookup_empty. Qed.

Lemma wf_init ts f n : wf (init_world ts f n).
Proof.
  split; [constructor|]; try (by intros p s; rewrite init_empty); try (by intros p s ? ?; rewrite init_empty).
  - intros p. split; [by intros ?%elem_of_nil|]. intros (s & E & _). by rewrite init_empty in E.
  - intros p. split; [by intros ?%elem_of_nil|]. intros (s & E & _). by rewrite init_empty in E.
  - constructor.
  - intros p. split; [by intros ?%elem_of_nil|]. intros (s & E & _). by rewrite init_empty in E.
  - constructor.
Qed.

Lemma fresh_not_in x w : inv x w → sockets w !! next_socket w = None.
Proof.
  intros H. destruct (sockets w !! next_socket w) as [s|] eqn:E; [|done].
  apply (inv_fresh _ _ H) in E. lia.
Qed.

Lemma trackers_new x p s w :
  inv x w → sockets w !! p = None → ¬ is_tracker s →
  ∀ a, a ∈ device_tracker_list w ↔ ∃ sa, <[p := s]> (sockets w) !! a = Some sa ∧ is_tracker sa.
Proof.
  intros H E Hs a. rewrite (inv_trackers _ _ H). destruct (decide (p = a)) as [<-|].
  - rewrite lookup_insert_eq, E. split; [by intros (sa & ? & _)|]. by intros (sa & [= <-] & Ht).
  - by rewrite lookup_insert_ne.
Qed.

Definition add_local (id n : Z) (w : world) : world :=
  w <| sockets ::= <[next_socket w := fresh_local id n]> |>
    <| next_socket := S (next_socket w) |>
    <| local_socket_next_id := id + 1 |>
    <| local_socket_list ::= λ l, l ++ [next_socket w] |>.

Lemma local_ok_fresh id n : local_ok (fresh_local id n).
Proof.
  constructor; try done; [by left|by left|apply IOV.contents_empty|].
  exists (Fdevent false false). by split_and!.
Qed.

Lemma wf_add_local id n w : wf w → wf (add_local id n w).
Proof.
  intros [H Hp]. pose proof (fresh_not_in _ _ H) as Hf. set (p := next_socket w) in *.
  assert (∀ a s, sockets w !! a = Some s → p ≠ a) as Hne by (intros a s E ->; congruence).
  split; [constructor|]; unfold add_local; fold p; rec_simpl.
  - intros a sa [[<- <-]|[? Ea]]%lookup_insert_Some; [by apply sock_local, local_ok_fresh|].
    by apply (inv_sock _ _ H) in Ea.
  - intros a sa [[<- <-]|[? Ea]]%lookup_insert_Some; [lia|]. apply (inv_fresh _ _ H) in Ea. fold p in Ea. lia.
  - intros a. rewrite elem_of_app, list_elem_of_singleton, (inv_list _ _ H). setoid_rewrite lookup_insert_Some.
    split; [intros [(s & E & ?)| ->]|].
    + exists s. split; [right; split; [by eapply Hne|done]|done].
    + exists (fresh_local id n). split; [by left|done].
    + intros (s & [[-> _]|[? E]] & ?); [by right|]. left. eauto.
  - intros a. rewrite (inv_closing _ _ H). setoid_rewrite lookup_insert_Some. split.
    + intros (s & E & ?). exists s. split; [right; split; [by eapply Hne|done]|done].
    + intros (s & [[_ <-]|[? E]] & ? & ?); [done|]. eauto.
  - apply NoDup_app. split_and!; [apply (inv_nodup _ _ H)| |apply NoDup_singleton].
    intros a Ha%(inv_list _ _ H) ->%list_elem_of_singleton. destruct Ha as (s & E & _). congruence.
  - intros a sa b _ [[_ <-]|[? Ea]]%lookup_insert_Some Hb; [done|].
    destruct (inv_peer _ _ H a sa b) as (? & ? & sb & Eb & ?); [done..|]. split_and!; [done..|].
    exists sb. rewrite lookup_insert_ne by (by eapply Hne). done.
  - intros a sa t [[_ <-]|[? Ea]]%lookup_insert_Some; [done|]. by eapply (inv_transport _ _ H).
  - by eapply trackers_new.
  - apply (inv_tracker_nodup _ _ H).
  - intros a sa b sb _ [[_ <-]|[? Ea]]%lookup_insert_Some Hs Hb; [by destruct Hs|].
    intros [[_ <-]|[_ Eb]]%lookup_insert_Some; [done|]. by eapply (inv_client _ _ H a sa b sb).
  - intros a sa _. rec_simpl. intros [[_ <-]|[? Ea]]%lookup_insert_Some Hl; [done|]. by eapply Hp.
Qed.

Lemma wp_create_local_socket n w Q :
  0 ≤ local_socket_next_id w < 2 ^ 32 - 1 →
  Q (next_socket w) (add_local (local_socket_next_id w) n w) →
  wp (create_local_socket n) Q w.
Proof.
  intros Hid HQ. unfold create_local_socket. wp_go. apply wp_new. rec_norm. unfold install_local_socket. wp_go.
  eapply wp_store; [apply lookup_insert_eq|]. rec_norm. rewrite insert_insert_eq. wp_go.
  apply (wp_lift _ tt). { rewrite u32_small by lia. zbool. done. }
  rec_norm. wp_go. rec_norm. eapply wp_store; [apply lookup_insert_eq|]. rec_norm.
  rewrite insert_insert_eq, u32_small by lia. wp_go. exact HQ.
Qed.

(** A local socket without a peer is connected to a new socket [sq]. *)
Definition add_peer (p : nat) (s sq : asocket) (w : world) : world :=
  w <| sockets ::= λ m, <[next_socket w := sq]> (<[p := s <| peer := Some (next_socket w) |>]> m) |>
    <| next_socket := S (next_socket w) |>.

Definition add_remote (p : nat) (s : asocket) (rid t : Z) (w : world) : world :=
  add_peer p s (fresh_remote rid t p) w.

Lemma wp_attach_remote p s rid t w Q :
  inv None w → sockets w !! p = Some s → rid ≠ 0 →
  Q (next_socket w) (add_remote p s rid t w) →
  wp (attach_remote p rid t) Q w.
Proof.
  intros H E Hr HQ. pose proof (fresh_not_in _ _ H) as Hf. set (q := next_socket w) in *.
  assert (p ≠ q) as Hne by (intros ->; congruence).
  unfold attach_remote, create_remote_socket. wp_go. apply (wp_lift _ tt); [zbool; done|]. wp_go. apply wp_new.
  wp_go. fold q. eapply wp_store; [rec_simpl; by rewrite lookup_insert_ne|]. wp_go.
  eapply wp_store; [rec_simpl; rewrite lookup_insert_ne by done; apply lookup_insert_eq|]. wp_go.
  unfold add_remote, add_peer in HQ. revert HQ. fold q. rec_norm.
  rewrite (insert_insert_ne _ p q) by done. rewrite insert_insert_eq. done.
Qed.

Lemma local_ok_set_peer s q : local_ok s → closing s = false → local_ok (s <| peer := Some q |>).
Proof.
  intros [? ? ? ? ? (e & He & Hw & Hcl)] Hc. constructor; try done. exists e.
  split_and!; [done|exact Hw|]. intros Hc'. change (closing s = true) in Hc'. congruence.
Qed.

(** What the new socket must satisfy. *)
Record peer_ok (p : nat) (s sq : asocket) (w : world) : Prop := {
  po_ok : sock_ok sq;
  po_peer : peer sq = Some p;
  po_kind : ¬ is_local sq ∧ ¬ is_tracker sq;
  po_closing : closing sq = false;
  po_transport : ∀ t, transport sq = Some t → is_Some (transports w !! t);
  po_client : is_smart sq → transport s = None
}.

Lemma wf_add_peer p s sq w :
  wf w → sockets w !! p = Some s → is_local s → closing s = false → peer s = None →
  peer_ok p s sq w → wf (add_peer p s sq w).
Proof.
  intros [H Hp] E Hl Hc Hn [Q1 Q2 [Q3 Q4] Q5 Q6 Q7].
  pose proof (fresh_not_in _ _ H) as Hf. set (q := next_socket w) in *.
  assert (∀ a s, sockets w !! a = Some s → q ≠ a) as Hne by (intros a s2 E2 ->; congruence).
  assert (p ≠ q) as Hpq by (symmetry; by eapply Hne).
  assert (local_ok (s <| peer := Some q |>)) as Hlo.
  { apply local_ok_set_peer; [|done]. by eapply inv_local_ok. }
  assert (∀ a sa, <[q:=sq]> (<[p:=s <| peer := Some q |>]> (sockets w)) !! a = Some sa →
    (a = q ∧ sa = sq) ∨ (a = p ∧ sa = s <| peer := Some q |>) ∨
    (a ≠ q ∧ a ≠ p ∧ sockets w !! a = Some sa)) as Hcases.
  { intros a sa [[<- <-]|[? [[<- <-]|[? Ea]]%lookup_insert_Some]]%lookup_insert_Some; auto. }
  split; [constructor|]; unfold add_peer; fold q; rec_simpl.
  - intros a sa [[-> ->]|[[-> ->]|(_ & _ & Ea)]]%Hcases; [done|by apply sock_local|].
    by apply (inv_sock _ _ H) in Ea.
  - intros a sa [[-> ->]|[[-> ->]|(_ & _ & Ea)]]%Hcases; [lia|..].
    + apply (inv_fresh _ _ H) in E. fold q in E. lia.
    + apply (inv_fresh _ _ H) in Ea. fold q in Ea. lia.
  - intros a. rewrite (inv_list _ _ H). split.
    + intros (sa & Ea & ? & ?). rewrite lookup_insert_ne by (by eapply Hne).
      destruct (decide (p = a)) as [<-|]; [rewrite lookup_insert_eq|rewrite lookup_insert_ne by done; eauto].
      simplify_eq. eexists. by split_and!.
    + intros (sa & [[-> ->]|[[-> ->]|(_ & _ & Ea)]]%Hcases & ? & ?); [done|by eauto|by eauto].
  - intros a. rewrite (inv_closing _ _ H). split.
    + intros (sa & Ea & ? & ?). rewrite lookup_insert_ne by (by eapply Hne).
      destruct (decide (p = a)) as [<-|]; [congruence|rewrite lookup_insert_ne by done; eauto].
    + intros (sa & [[-> ->]|[[-> ->]|(_ & _ & Ea)]]%Hcases & ? & Hcl); [done|cbn in Hcl; congruence|by eauto].
  - apply (inv_nodup _ _ H).
  - intros a sa b _ [[-> ->]|[[-> ->]|(Haq & Hap & Ea)]]%Hcases Hb.
    + rewrite Q2 in Hb. injection Hb as <-. split_and!; [done..|]. exists (s <| peer := Some q |>).
      rewrite lookup_insert_ne by done. rewrite lookup_insert_eq. split_and!; [done..|by right].
    + injection Hb as <-. split_and!; [done..|]. exists sq.
      rewrite lookup_insert_eq. split_and!; [done..|by left].
    + destruct (inv_peer _ _ H a sa b) as (? & ? & sb & Eb & ?); [done..|]. split_and!; [done..|].
      exists sb. rewrite lookup_insert_ne by (by eapply Hne).
      rewrite lookup_insert_ne; [done|]. intros <-. by eapply (inv_no_peer None w p s a sa).
  - intros a sa t' [[-> ->]|[[-> ->]|(_ & _ & Ea)]]%Hcases; [by intros _; apply Q6|by apply (inv_transport _ _ H p s)|].
    by eapply (inv_transport _ _ H).
  - intros a. rewrite (trackers_insert _ _ _ (s <| peer := Some q |>) _ H E) by done.
    destruct (decide (q = a)) as [<-|]; [|by rewrite (lookup_insert_ne _ q)].
    rewrite lookup_insert_eq, lookup_insert_ne, Hf by done.
    split; [by intros (sa & ? & _)|by intros (sa & [= <-] & ?)].
  - apply (inv_tracker_nodup _ _ H).
  - intros a sa b sb _ [[-> ->]|[[-> ->]|(_ & Hap & Ea)]]%Hcases Hs Hb.
    + rewrite Q2 in Hb. injection Hb as <-. rewrite lookup_insert_ne, lookup_insert_eq by done.
      intros [= <-]. destruct Hs; [by apply Q7|done].
    + destruct Hs; unfold is_local, is_smart, is_tracker in *; cbn in *; congruence.
    + intros [[-> ->]|[[-> ->]|(_ & _ & Eb)]]%Hcases; [|by eapply (inv_client _ _ H a sa p s)|by eapply (inv_client _ _ H a sa b sb)].
      destruct (inv_peer _ _ H a sa q) as (_ & _ & s2 & E2 & _); [done..|]. congruence.
  - intros a sa _ [[-> ->]|[[-> ->]|(_ & _ & Ea)]]%Hcases Hla; [by rewrite Q2; eauto|done|]. by eapply Hp.
Qed.

Lemma wf_add_remote p s rid t w :
  wf w → sockets w !! p = Some s → is_local s → closing s = false → peer s = None →
  is_Some (transports w !! t) → wf (add_remote p s rid t w).
Proof.
  intros H E Hl Hc Hn Ht. apply wf_add_peer; try done. constructor; try done.
  by intros t' [= <-].
Qed.
