(* ===== verification/SocketsIO.v ===== *)
(** * Data through a local socket: what is queued for and read from its
    descriptor

    The steps of [local_socket_flush_incoming], the [enqueue] and [ready]
    functions and [local_socket_flush_outgoing], with the bytes they move. *)

From S2P Require Import Prelude State CString LibBase Types TypesFacts AdbIO AdbIOFacts Packets.
From S2P Require Import PacketsFacts Nonblocking Transport TransportFacts HostService Sockets.
From S2P Require Import SocketsWp SocketsInv.
Local Open Scope Z_scope.
Local Open Scope record_scope.

(** ** Writing the queue *)

(** Descriptor [n] took the bytes [d]; nothing else changed. *)
Definition wrote (f g : gmap Z (instream * outstream)) (n : Z) (d : bytes) : Prop :=
  (∀ k, k ≠ n → g !! k = f !! k) ∧
  match f !! n with
  | Some (i, o) => ∃ o', g !! n = Some (i, o') ∧ o_written o' = o_written o ++ d
  | None => g !! n = None ∧ d = []
  end.

Lemma wrote_nil f n : wrote f f n [].
Proof.
  split; [done|]. destruct (f !! n) as [[i o]|]; [|done]. exists o. by rewrite app_nil_r.
Qed.

(** One [adb_writev]: a number of bytes within the buffer was taken. *)
Lemma adb_write_spec o p :
  match adb_write o p with
  | (Wrote n, o') => 0 ≤ n ≤ zlen p ∧ n ≤ MAX_RW_COUNT ∧ o_written o' = o_written o ++ ztake n p
  | (WriteError _, o') => o_written o' = o_written o
  end.
Proof.
  unfold adb_write, MAX_RW_COUNT. destruct (o_script o) as [|[n|e] rest]; cbn; [..|done].
  - split_and!; [lia..|done].
  - split_and!; [lia..|done].
Qed.

(** Dropping what was written, the way the code does. *)
Lemma drop_written v n :
  IOVector.wf v → 0 < n ≤ zlen (IOVector.contents v) → n ≤ MAX_RW_COUNT →
  ∃ v', (if n =? IOVector.size v then Ret (snd (IOVector.clear v)) else IOVector.drop_front v n) = Ret v' ∧
    IOVector.wf v' ∧ IOVector.contents v' = zdrop n (IOVector.contents v) ∧
    IOVector.chain_length_ v' ≤ IOVector.chain_length_ v.
Proof.
  intros H Hn Hm. rewrite IOV.size_contents by done. unfold MAX_RW_COUNT in Hm.
  destruct (Z.eqb_spec n (zlen (IOVector.contents v))) as [->|].
  - eexists. split; [done|]. cbn. destruct IOV.contents_empty as [? ->].
    rewrite zdrop_all by lia. pose proof (IOV.wf_bounds v H). split_and!; [done..|lia].
  - destruct (drop_front_spec v n) as (v' & ? & ? & ? & ?); [done|lia|lia|]. eauto.
Qed.

Definition queue_set (s : asocket) (q : IOVector.t) (err : bool) : asocket :=
  s <| packet_queue := q |> <| has_write_error := err |>.

Lemma queue_set_same s : queue_set s (packet_queue s) (has_write_error s) = s.
Proof. by destruct s. Qed.

(** What [flush_queue] did. *)
Record flushed (p : nat) (s s1 : asocket) (d : bytes) (w w1 : world) : Prop := {
  fl_world : ∃ g, w1 = w <| fds := g |> <| sockets ::= <[p := s1]> |> ∧ wrote (fds w) g (fd s) d;
  fl_sock : ∃ q err, s1 = queue_set s q err ∧ IOVector.wf q ∧
    IOVector.contents (packet_queue s) = d ++ IOVector.contents q ∧
    (has_write_error s = true → err = true) ∧
    IOVector.chain_length_ q ≤ IOVector.chain_length_ (packet_queue s)
}.

Lemma wp_flush_queue p s Q w :
  sockets w !! p = Some s → IOVector.wf (packet_queue s) →
  (∀ s1 d w1, flushed p s s1 d w w1 → zlen d < 2 ^ 32 → Q (zlen d) w1) →
  wp (flush_queue p) Q w.
Proof.
  intros E Hq HQ. unfold flush_queue. wp_go.
  assert (∀ g err, wrote (fds w) g (fd s) [] → (has_write_error s = true → err = true) →
    Q 0 (w <| fds := g |> <| sockets ::= <[p := queue_set s (packet_queue s) err]> |>)) as H0.
  { intros g err Hg Herr. apply (HQ (queue_set s (packet_queue s) err) []); [|done].
    constructor; [by exists g|]. exists (packet_queue s), err. split_and!; [done..|lia]. }
  assert (∀ g, wrote (fds w) g (fd s) [] → Q 0 (w <| fds := g |>)) as H0'.
  { intros g Hg. specialize (H0 g (has_write_error s) Hg (λ x, x)).
    rewrite queue_set_same in H0. revert H0. rec_norm. by rewrite insert_id by done. }
  destruct (IOVector.empty (packet_queue s)) eqn:Eq; wp_go.
  { specialize (H0' (fds w) (wrote_nil _ _)). by destruct w. }
  destruct (IOV.iterate_spec _ Hq) as (segs & Es & Hc & _).
  eapply wp_lift; [exact Es|]. wp_go. apply wp_fd_out_eq.
  destruct (fds w !! fd s) as [[i o]|] eqn:Ef.
  2:{ wp_go. pose proof (H0 (fds w) true (wrote_nil _ _) (λ _, eq_refl)) as H1. by destruct w. }
  unfold Nonblocking.adb_writev. rewrite Hc.
  pose proof (adb_write_spec o (IOVector.contents (packet_queue s))) as Ho.
  destruct (adb_write o _) as [r o']. exists r, o'. split; [done|].
  assert (∀ d, o_written o' = o_written o ++ d → wrote (fds w) (<[fd s := (i, o')]> (fds w)) (fd s) d) as Hwr.
  { intros d Hd. split; [intros k Hk; by rewrite lookup_insert_ne|]. rewrite Ef, lookup_insert_eq. eauto. }
  assert (∀ e, WriteError e = r → o_written o' = o_written o ++ []) as He
    by (intros e <-; by rewrite app_nil_r).
  set (g := <[fd s := (i, o')]> (fds w)) in *. change (w <| fds ::= <[fd s := (i, o')]> |>) with (w <| fds := g |>).
  assert (∀ d, o_written o' = o_written o ++ d → d = [] →
    wp (_ ← store p (λ s, s <| has_write_error := true |>); mret 0) Q (w <| fds := g |>)) as Herr.
  { intros d Hd ->. apply wp_bind. eapply wp_store; [done|]. wp_go. by apply (H0 g true); [apply Hwr|]. }
  destruct r as [n|[]].
  - destruct Ho as (Hn & Hm & Ho). destruct (Z.ltb_spec 0 n) as [Hpos|].
    2:{ apply (Herr (ztake n (IOVector.contents (packet_queue s)))); [done|].
        replace n with 0 by lia. apply ztake_0. }
    destruct (drop_written (packet_queue s) n) as (q & Eq' & Hwq & Hcq & Hcl); [done|lia|done|].
    apply wp_bind, wp_mono with (Q := λ q' w', q' = q ∧ w' = w <| fds := g |>).
    { destruct (_ =? _); [injection Eq' as <-; by wp_go|]. by eapply wp_lift. }
    intros q' w' [-> ->]. apply wp_bind. eapply wp_store; [done|]. wp_go.
    unfold MAX_RW_COUNT in Hm. rewrite u32_small by lia.
    assert (n = zlen (ztake n (IOVector.contents (packet_queue s)))) as Hlen by (by rewrite zlen_ztake).
    rewrite Hlen at 1.
    apply (HQ (queue_set s q (has_write_error s))); [|lia].
    constructor; [exists g; split; [by destruct s|by apply Hwr]|].
    exists q, (has_write_error s). split_and!; try done. by rewrite Hcq, ztake_zdrop.
  - wp_go. apply H0', Hwr. by eapply He.
  - by eapply Herr; [eapply He|].
  - by eapply Herr; [eapply He|].
Qed.

(** ** Flushing *)

(** [s] with the write interest set: flushing is called when new data is queued
    and the interest is not yet adjusted. *)
Definition force_write (s : asocket) : asocket :=
  s <| fde ::= fmap (λ e, e <| FDE_WRITE := true |>) |>.

Lemma wf_replace p s0 s1 w :
  wf (w <| sockets ::= <[p := s0]> |>) → is_local s0 → local_ok s1 → peer s1 = peer s0 →
  closing s1 = closing s0 → transport s1 = transport s0 → wf (w <| sockets ::= <[p := s1]> |>).
Proof.
  intros [H Hp] Hl Hok Hpe Hc Ht.
  assert (sockets (w <| sockets ::= <[p := s0]> |>) !! p = Some s0) as E by apply lookup_insert_eq.
  replace (w <| sockets ::= <[p := s1]> |>)
    with (w <| sockets ::= <[p := s0]> |> <| sockets ::= <[p := s1]> |>)
    by (rec_norm; by rewrite insert_insert_eq).
  split.
  - eapply inv_store; try done; [by apply sock_local|by rewrite (lo_enqueue _ Hok)|..].
    + intros t. rewrite Hc, Ht. by eapply (inv_transport _ _ H).
    + intros a sa Ha Ea Hs Hpa. rewrite Ht. by eapply (inv_client _ _ H a sa p s0).
  - apply paired_local; [done|]. apply (lo_enqueue _ Hok).
Qed.

Lemma wf_store_local p s s1 w :
  wf w → sockets w !! p = Some s → is_local s → local_ok s1 → peer s1 = peer s →
  closing s1 = closing s → transport s1 = transport s → wf (w <| sockets ::= <[p := s1]> |>).
Proof.
  intros H E. apply wf_replace. assert (w <| sockets ::= <[p := s]> |> = w) as ->; [|done].
  destruct w. cbn in *. rec_norm. by rewrite insert_id.
Qed.

Lemma wf_fds g w : wf w → wf (w <| fds := g |>).
Proof. intros [H Hp]. split; [by apply inv_fds|done]. Qed.

Lemma local_ok_force s : local_ok s → local_ok (force_write s).
Proof.
  intros [? ? ? ? ? (e & He & ? & ?)]. constructor; try done. exists (e <| FDE_WRITE := true |>).
  unfold force_write. rec_norm. rewrite He. cbn. split_and!; [done..|]. naive_solver.
Qed.

Lemma wf_force p s w :
  wf w → sockets w !! p = Some s → is_local s → wf (w <| sockets ::= <[p := force_write s]> |>).
Proof.
  intros H E Hl. eapply wf_store_local; try done. apply local_ok_force.
  destruct H as [H _]. by eapply inv_local_ok.
Qed.

(** The data the socket's OKAY packet carries. *)
Lemma send_ready_ok junk local remote a n :
  ∃ a', send_ready junk local remote a n = Ret a' ∧ tsame a a' ∧
    if writable a then
      ∃ p', sent a' = sent a ++ [p'] ∧ command (msg p') = A_OKAY ∧ arg0 (msg p') = local ∧
        arg1 (msg p') = remote ∧
        Block.content (payload p') = (if SupportsDelayedAck a then le32 n else [])
    else sent a' = sent a.
Proof.
  unfold send_ready.
  destruct (make_packet_ok junk A_OKAY local remote (if SupportsDelayedAck a then le32 n else []))
    as (p & -> & Hp & _ & Hc & Hm). mstep.
  destruct (send_packet_ok p a Hp) as (a' & E & Ht & Hs). exists a'. split_and!; [done..|].
  destruct (writable a); [|done]. destruct Hs as (p' & Hs & Hpay & Hcmd & H0 & H1 & _).
  exists p'. rewrite Hpay, Hcmd, H0, H1, Hc, Hm. done.
Qed.

Lemma wp_send_ready junk t a local remote n Q w :
  transports w !! t = Some a →
  (∀ a', tsame a a' → Q tt (w <| transports ::= <[t := a']> |>)) →
  wp (on_transport t (λ a, send_ready junk local remote a n)) Q w.
Proof.
  intros E H. destruct (send_ready_ok junk local remote a n) as (a' & Es & Ht & _).
  eapply wp_on_transport; [done|exact Es|]. by apply H.
Qed.

(** A transport changed at most by sending. *)
Definition tsent (w w' : world) : Prop :=
  ∃ f, w' = w <| transports := f |> ∧ tstable w w'.

Lemma tsent_refl w : tsent w w.
Proof. exists (transports w). split; [by destruct w|apply tstable_refl]. Qed.

Lemma tsent_insert t a a' w :
  transports w !! t = Some a → tsame a a' → tsent w (w <| transports ::= <[t := a']> |>).
Proof. intros E H. exists (<[t := a']> (transports w)). split; [by destruct w|by eapply tstable_insert]. Qed.

Lemma tsent_wf w w' : wf w → tsent w w' → wf w'.
Proof.
  intros [[? ? ? ? ? ? Ht] Hp] (f & -> & Hst). split; [|done]. constructor; try done.
  intros p s t E Hc Htr. destruct (Ht p s t E Hc Htr) as [a Ha]. specialize (Hst t). rewrite Ha in Hst.
  inversion Hst; subst. eauto.
Qed.

Record flush_in (p : nat) (s : asocket) (r : SocketFlushResult) (w w' : world) : Prop := {
  fi_wf : wf w';
  fi_tstable : tstable w w';
  fi_next : next_socket w' = next_socket w ∧ local_socket_next_id w' = local_socket_next_id w;
  fi_list : local_socket_list w' `sublist_of` local_socket_list w;
  fi_live : r ≠ Destroyed → ∃ d q err e',
    IOVector.contents (packet_queue s) = d ++ IOVector.contents q ∧
    wrote (fds w) (fds w') (fd s) d ∧
    sockets w' = <[p := (queue_set s q err) <| fde := Some e' |>]> (sockets w) ∧
    local_socket_list w' = local_socket_list w ∧
    (has_write_error s = true → err = true) ∧
    (∀ e, fde s = Some e → FDE_READ e' = FDE_READ e) ∧
    (r = Completed → IOVector.contents q = [] ∨ err = true) ∧
    (r = TryAgain → err = false ∧ IOVector.contents q ≠ []) ∧
    IOVector.chain_length_ q ≤ IOVector.chain_length_ (packet_queue s);
  fi_dead : r = Destroyed → closing s = true
}.

Lemma local_ok_queue s q err e e' :
  local_ok (force_write s) → fde s = Some e → IOVector.wf q →
  (IOVector.empty q = false → err = false → FDE_WRITE e' = true) → FDE_READ e' = FDE_READ e →
  local_ok ((queue_set s q err) <| fde := Some e' |>).
Proof.
  intros [? ? ? ? ? (e0 & He0 & _ & Hcl)] He Hq Hw Hr. unfold force_write in *. revert He0. rec_norm.
  rewrite He. intros [= <-]. constructor; try done. exists e'. split; [done|]. split; [exact Hw|].
  intros Hc. destruct (Hcl Hc) as [? Hrd]. split; [done|]. rewrite Hr. exact Hrd.
Qed.

(** The acknowledgement [local_socket_flush_incoming] sends. *)
Lemma wp_flush_ack junk p s1 n w :
  inv None (w <| sockets ::= <[p := force_write s1]> |>) → is_local s1 → sockets w !! p = Some s1 →
  wp (match transport s1, peer s1 with
      | Some t, Some q =>
          s' ← load q;
          match available_send_bytes s1 with
          | Some _ => on_transport t (λ a, send_ready junk (sid s1) (sid s') a n)
          | None =>
              if negb (n =? 0) && (IOVector.size (packet_queue s1) <? MAX_PAYLOAD)
              then on_transport t (λ a, send_ready junk (sid s1) (sid s') a 0)
              else mret tt
          end
      | _, _ => mret tt
      end) (λ _ w', tsent w w') w.
Proof.
  intros H Hl E. set (wf0 := w <| sockets ::= <[p := force_write s1]> |>) in *.
  assert (sockets wf0 !! p = Some (force_write s1)) as E0 by apply lookup_insert_eq.
  destruct (transport s1) as [t|] eqn:Ht; [|wp_go; apply tsent_refl].
  destruct (peer s1) as [q|] eqn:Hq; [|wp_go; apply tsent_refl].
  destruct (inv_peer _ _ H p (force_write s1) q) as (_ & Hne & s' & E' & _); [done..|].
  revert E'. unfold wf0. rec_norm. rewrite lookup_insert_ne by done. intros E'. wp_go.
  assert (closing s1 = false) as Hc.
  { destruct (lo_fde (force_write s1)) as (e & _ & _ & Hcl); [by eapply inv_local_ok|].
    destruct (closing s1) eqn:Hc; [|done]. destruct (Hcl Hc) as [Hn _]. change (peer s1 = None) in Hn.
    congruence. }
  destruct (inv_transport _ _ H p (force_write s1) t) as [a Ea]; [done..|]. change (transports w !! t = Some a) in Ea.
  destruct (available_send_bytes s1).
  - eapply wp_send_ready; [done|]. intros a' Ha. by eapply tsent_insert.
  - destruct (_ && _); [|wp_go; apply tsent_refl].
    eapply wp_send_ready; [done|]. intros a' Ha. by eapply tsent_insert.
Qed.

Lemma queue_set_fde s q err e : fde s = Some e → queue_set s q err = (queue_set s q err) <| fde := Some e |>.
Proof. intros H. destruct s. cbn in *. by subst. Qed.

Lemma wp_flush_incoming junk p s w :
  wf (w <| sockets ::= <[p := force_write s]> |>) → sockets w !! p = Some s → is_local s →
  wp (local_socket_flush_incoming junk p) (λ r w', flush_in p s r w w') w.
Proof.
  intros H E Hl. assert (local_ok (force_write s)) as Hok.
  { destruct H as [H _]. eapply inv_local_ok; [done|apply lookup_insert_eq|done]. }
  destruct (lo_fde _ Hok) as (e0 & He0 & _). unfold force_write in He0. revert He0. rec_norm.
  destruct (fde s) as [e|] eqn:He; [|done]. intros _.
  unfold local_socket_flush_incoming. wp_go. eapply wp_flush_queue; [done|apply Hok|].
  intros s1 d w1 [(g & -> & Hg) (q & err & -> & Hwq & Hcq & Herr & Hcl)] _.
  set (s1 := queue_set s q err). set (w1 := w <| fds := g |> <| sockets ::= <[p := s1]> |>).
  assert (sockets w1 !! p = Some s1) as E1 by apply lookup_insert_eq. wp_go.
  assert (∀ s2, local_ok s2 → peer s2 = peer s → closing s2 = closing s → transport s2 = transport s →
    wf (w <| fds := g |> <| sockets ::= <[p := s2]> |>)) as Hwf.
  { intros s2 H2 Hp2 Hc2 Ht2. apply (wf_replace p (force_write s)); try done.
    apply (wf_fds g) in H. by destruct w. }
  eapply wp_mono; [apply (wp_flush_ack junk p s1); [|done..]|].
  { assert (wf (w1 <| sockets ::= <[p := force_write s1]> |>)) as Hw1; [|by apply Hw1].
    replace (w1 <| sockets ::= <[p := force_write s1]> |>)
      with (w <| fds := g |> <| sockets ::= <[p := force_write s1]> |>)
      by (unfold w1; rec_norm; by rewrite insert_insert_eq).
    assert (force_write s1 = s1 <| fde := Some (e <| FDE_WRITE := true |>) |>) as ->.
    { unfold s1. destruct s. cbn in He. by subst. }
    apply Hwf; try done. by apply (local_ok_queue s q err e). }
  intros [] w2 (f & -> & Hst). change (tstable w (w1 <| transports := f |>)) in Hst.
  set (w2 := w1 <| transports := f |>) in *.
  assert (sockets w2 !! p = Some s1) as E2 by exact E1.
  assert (∀ s2, local_ok s2 → peer s2 = peer s → closing s2 = closing s → transport s2 = transport s →
    wf (w2 <| sockets ::= <[p := s2]> |>)) as Hwf2.
  { intros s2 H2 Hp2 Hc2 Ht2. pose proof (Hwf s2 H2 Hp2 Hc2 Ht2) as Hw2.
    eapply tsent_wf; [exact Hw2|]. exists f. split; [|exact Hst].
    unfold w2, w1. rec_norm. by rewrite insert_insert_eq. }
  assert (∀ r e', r ≠ Destroyed → (IOVector.empty q = false → err = false → FDE_WRITE e' = true) →
    FDE_READ e' = FDE_READ e →
    (r = Completed → IOVector.contents q = [] ∨ err = true) →
    (r = TryAgain → err = false ∧ IOVector.contents q ≠ []) →
    flush_in p s r w (w2 <| sockets ::= <[p := s1 <| fde := Some e' |>]> |>)) as Hpost.
  { intros r e' Hr Hw Hrd Hcomp Htry. constructor; try done.
    - apply Hwf2; try done. by eapply local_ok_queue.
    - intros _. exists d, q, err, e'. split_and!; try done.
      + unfold w2, w1. rec_norm. by rewrite insert_insert_eq.
      + intros e1 He1. congruence. }
  change (packet_queue s1) with q. change (has_write_error s1) with err. change (closing s1) with (closing s).
  rewrite (empty_contents q Hwq) in *.
  destruct (closing s && negb (negb (bool_decide (IOVector.contents q = [])) && negb err)) eqn:Eclose.
  - apply andb_true_iff in Eclose as [Hc Hfull]. wp_go.
    assert (wf w2) as Hw2.
    { assert (w2 <| sockets ::= <[p := s1]> |> = w2) as <-.
      { unfold w2, w1. rec_norm. by rewrite insert_insert_eq. }
      apply Hwf2; try done. unfold s1. rewrite (queue_set_fde s q err e He). eapply local_ok_queue; try done.
      rewrite empty_contents by done. case_bool_decide; [done|]. by destruct err. }
    eapply wp_mono; [by eapply wp_socket_close|]. intros _ w3 [Hw3 [L3 G3 T3 N3 S3]]. wp_go.
    constructor; try done. by eapply tstable_trans.
  - destruct (negb (bool_decide (IOVector.contents q = [])) && negb err) eqn:Hfull; wp_go.
    + apply andb_true_iff in Hfull as [Hq%negb_true_iff%bool_decide_eq_false He'%negb_true_iff].
      eapply wp_fdevent_set; [done|exact He|]. wp_go. by apply Hpost.
    + eapply wp_fdevent_set; [done|exact He|]. wp_go. apply Hpost; try done.
      * case_bool_decide; [done|]. by destruct err.
      * intros _. case_bool_decide; [by left|]. right. by destruct err.
Qed.

(** ** The enqueue functions *)

Definition flush_code (r : SocketFlushResult) : Z :=
  match r with Destroyed => -1 | TryAgain => 1 | Completed => 0 end.

Definition append_data (s : asocket) (data : Block.t) : asocket :=
  s <| packet_queue ::= λ q, IOVector.append q data |>.

Lemma append_ok s data :
  local_ok s → Block.wf data → IOVector.chain_length_ (packet_queue s) + Block.size_ data < 2 ^ 63 →
  local_ok (force_write (append_data s data)) ∧
  IOVector.contents (packet_queue (append_data s data)) =
    IOVector.contents (packet_queue s) ++ Block.content data.
Proof.
  intros [? ? ? ? Hq (e & He & ? & Hcl)] Hd Hb. destruct (IOV.append_spec _ _ Hq Hd Hb) as (? & ? & _).
  split; [|done]. constructor; try done. exists (e <| FDE_WRITE := true |>).
  unfold force_write, append_data. rec_norm. rewrite He. cbn. split_and!; [done..|]. exact Hcl.
Qed.

Lemma wp_local_enqueue junk p s data w :
  wf w → sockets w !! p = Some s → is_local s → Block.wf data →
  IOVector.chain_length_ (packet_queue s) + Block.size_ data < 2 ^ 63 →
  wp (local_socket_enqueue junk p data)
     (λ r w', ∃ fr, r = flush_code fr ∧
        flush_in p (append_data s data) fr (w <| sockets ::= <[p := append_data s data]> |>) w') w.
Proof.
  intros H E Hl Hd Hb. unfold local_socket_enqueue. wp_go.
  assert (local_ok s) as Hok by (destruct H as [H _]; by eapply inv_local_ok).
  destruct (append_ok s data Hok Hd Hb) as [Hok' _].
  eapply wp_mono; [apply (wp_flush_incoming junk p (append_data s data))|].
  - replace (w <| sockets ::= <[p := s <| packet_queue ::= λ q, IOVector.append q data |>]> |>
               <| sockets ::= <[p := force_write (append_data s data)]> |>)
      with (w <| sockets ::= <[p := force_write (append_data s data)]> |>)
      by (rec_norm; by rewrite insert_insert_eq).
    by eapply wf_store_local.
  - apply lookup_insert_eq.
  - done.
  - intros r w' Hr. wp_go. eauto.
Qed.

(** A remote socket forwards the data as a WRTE packet. *)
Lemma wp_remote_enqueue p s q s' data w :
  wf w → sockets w !! p = Some s → remote_ok s → peer s = Some q → sockets w !! q = Some s' →
  Block.wf data →
  wp (remote_socket_enqueue p data)
     (λ r w', if MAX_PAYLOAD <? Block.size_ data then r = -1 ∧ w' = w
              else r = 1 ∧ ∃ t a a', transport s = Some t ∧ transports w !! t = Some a ∧ tsame a a' ∧
                w' = w <| transports ::= <[t := a']> |> ∧
                if writable a then
                  ∃ pk, sent a' = sent a ++ [pk] ∧ command (msg pk) = A_WRTE ∧
                    arg0 (msg pk) = sid s' ∧ arg1 (msg pk) = sid s ∧ payload pk = data ∧
                    data_length (msg pk) = Block.size_ data
                else sent a' = sent a) w.
Proof.
  intros H E [He Hc Hr Hs Hcl [t Ht]] Hq E' Hd. unfold remote_socket_enqueue. wp_go.
  apply (wp_lift _ q); [by rewrite Hq|]. wp_go.
  destruct (Z.ltb_spec MAX_PAYLOAD (Block.size_ data)) as [|Hsz]; wp_go; [done|].
  destruct (inv_transport _ _ (wf_inv _ H) p s t) as [a Ea]; [done..|].
  apply (wp_lift _ t); [by rewrite Ht|]. wp_go. unfold MAX_PAYLOAD in Hsz.
  assert (0 ≤ Block.size_ data) as H0 by (unfold Block.wf in Hd; destruct (Block.data_ data); lia).
  eapply wp_send; [done|..].
  - unfold sendable. cbn. rewrite u32_small by lia. unfold Block.wf in Hd.
    destruct (Block.data_ data); cbn; lia.
  - intros a' Ha Hsent. wp_go. split; [done|]. exists t, a, a'. split_and!; try done.
    destruct (writable a); [|done]. destruct Hsent as (pk & Hs' & Hp1 & Hp2 & Hp3 & Hp4 & Hp5).
    exists pk. cbn in *. rewrite u32_small in Hp5 by lia. done.
Qed.

(** ** Ready *)

Definition set_read (s : asocket) (e : fdevent) : asocket :=
  s <| fde := Some (e <| FDE_READ := true |>) |>.

Lemma local_ok_set_read s e :
  local_ok s → fde s = Some e → closing s = false → local_ok (set_read s e).
Proof.
  intros [? ? ? ? ? (e' & He & Hw & Hcl)] He' Hc.
  rewrite He' in He. injection He as <-. constructor; try done.
  exists (e <| FDE_READ := true |>). split; [done|]. split; [exact Hw|].
  intros Hc'. change (closing s = true) in Hc'. congruence.
Qed.

(** What [s->ready(s)] does to a local socket. *)
Definition made_ready (p : nat) (s : asocket) (w w' : world) : Prop :=
  ∃ e g, fde s = Some e ∧ (∀ k, k ≠ fd s → g !! k = fds w !! k) ∧
    w' = w <| fds := g |> <| sockets ::=
      <[p := set_read (match ready_fn s with ready_notify => restore_local s | _ => s end) e]> |>.

Section ready.
Context (junk : nat → byte) `{HT : !Texts} (enqueue : nat → Block.t → M Z).

Lemma wp_local_ready p s w :
  wf w → sockets w !! p = Some s → is_local s → closing s = false →
  wp (socket_ready junk enqueue p) (λ _ w', wf w' ∧ made_ready p s w w') w.
Proof.
  intros H E Hl Hc. assert (local_ok s) as Hok by (destruct H as [H _]; by eapply inv_local_ok).
  destruct (lo_fde _ Hok) as (e & He & _). unfold socket_ready. wp_go.
  destruct (lo_ready _ Hok) as [Hr|Hr]; rewrite Hr.
  - unfold local_socket_ready, fdevent_add_read. eapply wp_fdevent_set; [done..|]. split.
    + eapply wf_store_local; try done. by apply local_ok_set_read.
    + exists e, (fds w). rewrite Hr. split_and!; [done..|]. by destruct w.
  - unfold local_socket_ready_notify. wp_go. eapply wp_load; [apply lookup_insert_eq|]. wp_go.
    apply wp_fd_out; [apply SendOkay_total|]. intros _ g Hg.
    unfold local_socket_ready, fdevent_add_read. eapply wp_fdevent_set; [apply lookup_insert_eq|done|].
    replace (w <| sockets ::= <[p := restore_local s]> |> <| fds := g |>
               <| sockets ::= <[p := set_read (restore_local s) e]> |>)
      with (w <| fds := g |> <| sockets ::= <[p := set_read (restore_local s) e]> |>)
      by (rec_norm; by rewrite insert_insert_eq). split.
    + eapply (wf_store_local p s); try done; [by apply wf_fds|].
      by apply local_ok_set_read; [apply local_ok_restore|..].
    + exists e, g. by rewrite Hr.
Qed.

Definition acked_socket (s : asocket) (n : Z) : asocket := s <| available_send_bytes := Some n |>.

Lemma local_ok_acked s n : local_ok s → local_ok (acked_socket s n).
Proof. by intros [? ? ? ? ? ?]; constructor. Qed.

(** An acknowledgement adds to the credit of the socket; reading resumes when
    the credit is positive.  A mismatch changes nothing. *)
Lemma wp_local_ack p s acked w :
  wf w → sockets w !! p = Some s → is_local s → closing s = false →
  wp (local_socket_ack junk enqueue p acked)
     (λ _ w', wf w' ∧
        match available_send_bytes s, acked with
        | Some n, Some k =>
            let s1 := acked_socket s (n + k) in
            if 0 <? n + k then made_ready p s1 (w <| sockets ::= <[p := s1]> |>) w'
            else w' = w <| sockets ::= <[p := s1]> |>
        | None, None => made_ready p s w w'
        | _, _ => w' = w
        end) w.
Proof.
  intros H E Hl Hc. unfold local_socket_ack. wp_go.
  destruct (available_send_bytes s) as [n|] eqn:Ha; destruct acked as [k|]; wp_go; try done.
  2:{ by apply wp_local_ready. }
  assert (wf (w <| sockets ::= <[p := acked_socket s (n + k)]> |>)) as Hw.
  { eapply wf_store_local; try done. apply local_ok_acked. destruct H as [H _]. by eapply inv_local_ok. }
  change (s <| available_send_bytes := Some (n + k) |>) with (acked_socket s (n + k)).
  destruct (0 <? n + k); [|by wp_go].
  apply wp_local_ready; [done|apply lookup_insert_eq|done..].
Qed.

Lemma made_ready_live p s w w' :
  made_ready p s w w' → is_local s → closing s = false →
  ∃ s1, sockets w' !! p = Some s1 ∧ is_local s1 ∧ closing s1 = false.
Proof.
  intros (e & g & _ & _ & ->) Hl Hc. eexists. split; [apply lookup_insert_eq|]. by destruct (ready_fn s).
Qed.

(** Acknowledging keeps the socket. *)
Lemma wp_local_ack_live p s acked w :
  wf w → sockets w !! p = Some s → is_local s → closing s = false →
  wp (local_socket_ack junk enqueue p acked)
     (λ _ w', wf w' ∧ ∃ s1, sockets w' !! p = Some s1 ∧ is_local s1 ∧ closing s1 = false) w.
Proof.
  intros H E Hl Hc. eapply wp_mono; [by eapply wp_local_ack|]. intros [] w' [H' Hpost]. split; [done|].
  destruct (available_send_bytes s) as [n|], acked as [k|]; [|by subst; eauto..|by eapply made_ready_live].
  cbv zeta in Hpost. destruct (0 <? n + k); [by eapply made_ready_live|]. subst w'.
  eexists. split; [apply lookup_insert_eq|]. done.
Qed.

End ready.

(** ** Reading the descriptor *)

(** The bytes a descriptor still has to deliver, across errors. *)
Definition arrived (i : instream) : bytes :=
  concat ((λ a, match a with Data bs => bs | Fault _ => [] end) <$> i).

Lemma adb_read_arrived i len :
  0 < len ≤ MAX_RW_COUNT →
  match adb_read i len with
  | (ReadBytes bs, i') => arrived i = bs ++ arrived i' ∧ zlen bs ≤ len ∧
      (bs = [] ∨ zlen bs = len ∨ (length i' < length i)%nat) ∧ (length i' ≤ length i)%nat
  | (ReadError _, i') => arrived i' = arrived i ∧ (length i' ≤ length i)%nat
  end.
Proof.
  intros Hl. destruct i as [|[bs|e] i]; cbn -[Z.of_nat Z.min]; [split_and!; auto; lia| |split; [done|lia]].
  rewrite Z.min_l by lia. unfold arrived. cbn -[Z.of_nat]. pose proof (ztake_zdrop len bs) as E.
  destruct (Z.ltb_spec len (zlen bs)).
  - cbn -[Z.of_nat]. rewrite zlen_ztake by lia. split_and!; [by rewrite app_assoc, E|lia|auto|lia].
  - rewrite ztake_all by lia. split_and!; [done|lia|right; right; lia|lia].
Qed.

(** Descriptor [n] delivered the bytes [got]; nothing else changed. *)
Definition took (n : Z) (w w' : world) (got : bytes) : Prop :=
  match fds w !! n with
  | Some (i, o) => ∃ i', w' = w <| fds ::= <[n := (i', o)]> |> ∧ arrived i = got ++ arrived i'
  | None => w' = w ∧ got = []
  end.

Lemma took_nil n w : took n w w [].
Proof.
  unfold took. destruct (fds w !! n) as [[i o]|] eqn:E; [|done]. exists i. split; [|done].
  destruct w. cbn in *. rec_norm. by rewrite insert_id.
Qed.

Lemma took_trans n w1 w2 w3 a b : took n w1 w2 a → took n w2 w3 b → took n w1 w3 (a ++ b).
Proof.
  unfold took. destruct (fds w1 !! n) as [[i o]|] eqn:E.
  - intros (i2 & -> & Ha). rec_norm. rewrite lookup_insert_eq. intros (i3 & -> & Hb).
    exists i3. rec_norm. rewrite insert_insert_eq. split; [done|]. by rewrite Ha, Hb, app_assoc.
  - intros [-> ->]. by rewrite E.
Qed.

(** The result of reading into the unused part of a buffer. *)
Definition filled (n max : Z) (d : bytes) (avail : Z) (w : world) (r : Block.t * Z * bool)
    (w' : world) : Prop :=
  ∃ got avail' d' eof,
    r = (Block.mk (Some d') max max, avail', eof) ∧ zlen d' = max ∧ 0 ≤ avail' ∧
    avail = avail' + zlen got ∧ ztake (max - avail') d' = ztake (max - avail) d ++ got ∧
    took n w w' got.

Lemma filled_stop n max d avail w eof w' :
  zlen d = max → 0 ≤ avail → took n w w' [] →
  filled n max d avail w (Block.mk (Some d) max max, avail, eof) w'.
Proof.
  intros Hd Ha Ht. exists [], avail, d, eof. rewrite app_nil_r. split_and!; try done. cbn. lia.
Qed.

Lemma filled_step n max d d1 avail bs w w1 r w' :
  zlen d = max → zlen bs ≤ avail ≤ max → memcpy d (max - avail) bs = Ret d1 → took n w w1 bs →
  filled n max d1 (avail - zlen bs) w1 r w' → filled n max d avail w r w'.
Proof.
  intros Hd Ha Hm Ht (got & avail' & d' & eof & -> & Hd' & H0 & Hav & Hc & Ht').
  rewrite memcpy_fit in Hm by lia. injection Hm as <-.
  exists (bs ++ got), avail', d', eof. rewrite length_app. split_and!; try done; [lia| |by eapply took_trans].
  rewrite Hc, (app_assoc (ztake (max - avail) d) bs got). f_equal.
  replace (max - (avail - zlen bs)) with (max - avail + zlen bs) by lia.
  rewrite ztake_app_ge by (rewrite zlen_ztake; lia). rewrite zlen_ztake by lia.
  replace (max - avail + zlen bs - (max - avail)) with (zlen bs) by lia.
  rewrite ztake_app_le by lia. by rewrite (ztake_all (zlen bs) bs) by lia.
Qed.

(** [fill_loop] reads at most [avail] bytes, in order, into the unused part of
    the buffer. *)
Lemma wp_fill_loop n max fuel : ∀ d avail w,
  zlen d = max → 0 ≤ avail ≤ max → max ≤ MAX_PAYLOAD →
  avail = 0 ∨ (length (default [] (fst <$> fds w !! n)) < fuel)%nat →
  wp (fill_loop fuel n (Block.mk (Some d) max max) max avail) (filled n max d avail w) w.
Proof.
  induction fuel as [|fuel IH]; intros d avail w Hd Ha Hm Hf;
    cbn [fill_loop]; destruct (Z.ltb_spec 0 avail) as [Hpos|Hz];
    try (wp_go; apply filled_stop; [done|lia|apply took_nil]); [lia|].
  wp_go. unfold wp at 1, fd_read. destruct (fds w !! n) as [[i o]|] eqn:E.
  2:{ wp_go. apply filled_stop; [done|lia|apply took_nil]. }
  cbn in Hf. unfold MAX_PAYLOAD in Hm.
  pose proof (adb_read_arrived i avail ltac:(unfold MAX_RW_COUNT; lia)) as Hr.
  destruct (adb_read i avail) as [[bs|e] i']; set (w1 := w <| fds ::= <[n := (i', o)]> |>).
  2:{ destruct Hr as [Hr _]. assert (took n w w1 []) as Ht by (unfold took; rewrite E; eauto).
      destruct e; wp_go; (apply filled_stop; [done|lia|done]). }
  destruct Hr as (Harr & Hlen & Hprog & Hle).
  assert (took n w w1 bs) as Ht by (unfold took; rewrite E; eauto).
  destruct bs as [|b bs]; [wp_go; apply filled_stop; [done|lia|done]|].
  remember (b :: bs) as bs' eqn:Ebs. assert (bs' ≠ []) as Hne by (by subst). clear Ebs b bs.
  wp_go. assert (∃ d1, memcpy d (max - avail) bs' = Ret d1 ∧ zlen d1 = max) as (d1 & Em & Hd1).
  { rewrite memcpy_fit by lia. eexists. split; [done|].
    rewrite !length_app, !Nat2Z.inj_add, zlen_ztake, zlen_zdrop by lia. lia. }
  eapply (wp_lift _ (Block.mk (Some d1) max max)); [cbn; by rewrite Em|].
  pose proof (nonempty_zlen _ Hne). eapply wp_mono; [apply IH; [done|lia|unfold MAX_PAYLOAD; lia|]|].
  - destruct Hprog as [?|[?|?]]; [done|left; lia|right]. unfold w1. rec_norm. rewrite lookup_insert_eq.
    cbn. destruct Hf; lia.
  - intros r w' Hfill. eapply (filled_step n max d d1 avail bs' w w1); [done|lia|done..].
Qed.
