(* ===== verification/SocketsSafe.v ===== *)
(** * Memory safety of the socket events

    [safe m Q w]: run from [w], [m] never uses a dead pointer and ends, either
    with a result and a state that satisfy [Q], or in a deliberate abort of the
    server ([CHECK], [LOG(FATAL)]). *)

From S2P Require Import Prelude State CString LibBase LibBaseFacts Types TypesFacts AdbIO AdbIOFacts.
From S2P Require Import Packets PacketsFacts Nonblocking Transport TransportFacts HostService.
From S2P Require Import Sockets SocketsWp SocketsInv SocketsIO.
Local Open Scope Z_scope.
Local Open Scope record_scope.

Ltac safe_step :=
  lazymatch goal with
  | |- safe (mret _) _ _ => apply wp_safe, wp_ret
  | |- safe (mbind _ (get _)) _ _ => apply safe_wp_bind, wp_get
  | |- safe (mbind _ (modify _)) _ _ => apply safe_wp_bind, wp_modify
  | |- safe (mbind _ (load _)) _ _ => apply safe_wp_bind; eapply wp_load; [eassumption|]
  | |- safe (mbind _ (store _ _)) _ _ => apply safe_wp_bind; eapply wp_store; [eassumption|]
  | |- safe (mbind _ (mret _)) _ _ => apply safe_wp_bind, wp_ret
  | |- safe (mbind _ (load_transport _)) _ _ =>
      apply safe_wp_bind; eapply wp_load_transport; [eassumption|]
  end; cbv beta.
Ltac safe_go := repeat safe_step.

(** ** Room for data *)

Lemma fold_add_nonneg (l : list Z) : Forall (λ z, 0 ≤ z) l → 0 ≤ foldr Z.add 0 l.
Proof. induction 1; cbn; lia. Qed.

Lemma fold_add_elem (l : list Z) z : Forall (λ z, 0 ≤ z) l → z ∈ l → z ≤ foldr Z.add 0 l.
Proof.
  intros H. induction H as [|y l Hy Hl IH]; [by intros ?%elem_of_nil|]. intros [->|Hz]%elem_of_cons; cbn.
  - pose proof (fold_add_nonneg l Hl). lia.
  - specialize (IH Hz). lia.
Qed.

(** What is queued on one socket is part of what is queued on all. *)
Lemma queued_elem w p s :
  sockets w !! p = Some s → local_ok s → IOVector.chain_length_ (packet_queue s) ≤ queued w.
Proof.
  intros E Hok. rewrite <- (u64_small (IOVector.chain_length_ _)).
  2:{ pose proof (IOV.wf_bounds _ (lo_queue _ Hok)). lia. }
  unfold queued. apply fold_add_elem.
  - apply Forall_fmap, Forall_forall. intros [a sa] _. apply u64_bound.
  - apply list_elem_of_fmap. exists (p, s). split; [done|]. by apply elem_of_map_to_list.
Qed.

Lemma safe_resize_block junk b n Q w :
  (queued w + n < 2 ^ 63 → safe (lift (Block.resize junk b n)) Q w) → safe (resize_block junk b n) Q w.
Proof.
  intros H. unfold resize_block. safe_go. apply safe_bind, safe_check. intros ?%Z.ltb_lt. auto.
Qed.

Lemma wp_get_max_payload x p s w Q :
  inv x w → Some p ≠ x → sockets w !! p = Some s → closing s = false →
  (∀ t a, transports w !! t = Some a → 0 ≤ max_payload a) →
  (∀ m, 0 ≤ m ≤ MAX_PAYLOAD → Q m w) → wp (get_max_payload p) Q w.
Proof.
  intros H Hx E Hc Hm HQ. unfold get_max_payload. wp_go.
  apply wp_mono with (Q := λ m w', w' = w ∧ 0 ≤ m ≤ MAX_PAYLOAD).
  { destruct (transport s) as [t|] eqn:Ht; wp_go; [|done].
    destruct (inv_transport _ _ H p s t) as [a Ea]; [done..|]. pose proof (Hm t a Ea).
    wp_go. split; [done|]. unfold MAX_PAYLOAD in *. lia. }
  intros m w' [-> Hb]. destruct (peer s) as [q|] eqn:Hq; wp_go; [|by apply HQ].
  destruct (inv_peer _ _ H p s q) as (_ & _ & s' & E' & Hp' & _); [done..|]. wp_go.
  destruct (transport s') as [t|] eqn:Ht'; wp_go; [|by apply HQ].
  assert (closing s' = false) as Hc'.
  { pose proof (inv_sock _ _ H _ _ E') as Hok. unfold sock_ok in Hok.
    destruct (enqueue_fn s'); [|apply Hok..]. destruct (lo_fde _ Hok) as (e & _ & _ & Hcl).
    destruct (closing s'); [|done]. destruct Hcl; [done|congruence]. }
  destruct (inv_transport _ _ H q s' t) as [a Ea]; [done..|]. pose proof (Hm t a Ea).
  wp_go. apply HQ. lia.
Qed.

(** A socket with a peer is not closing. *)
Lemma peer_not_closing w p s : inv None w → sockets w !! p = Some s → is_Some (peer s) → closing s = false.
Proof.
  intros H E [q Hq]. pose proof (inv_sock _ _ H _ _ E) as Hok. unfold sock_ok in Hok.
  destruct (enqueue_fn s); [|apply Hok..]. destruct (lo_fde _ Hok) as (e & _ & _ & Hcl).
  destruct (closing s); [|done]. destruct Hcl; [done|congruence].
Qed.

(** ** From the descriptor to the peer *)

(** The buffer and the loop that fills it. *)
Lemma safe_read_data junk n max w (Q : Block.t * Z * bool → world → Prop) :
  0 ≤ max ≤ MAX_PAYLOAD →
  (∀ b avail eof w' got, took n w w' got → avail = max - zlen got → 0 ≤ avail → queued w + max < 2 ^ 63 →
     (got ≠ [] → ∃ b', Block.resize junk b (max - avail) = Ret b' ∧ Block.wf b' ∧
                       Block.content b' = got ∧ Block.size_ b' = zlen got) →
     Q (b, avail, eof) w') →
  safe (read_data junk n max) Q w.
Proof.
  intros Hm HQ. unfold read_data. apply safe_bind, safe_resize_block. intros Hroom.
  destruct (Z.eqb_spec max 0) as [->|Hne]; apply wp_safe.
  { apply (wp_lift _ Block.default); [done|]. apply wp_safe. wp_go. unfold fill_fuel. cbn [fill_loop]. cbn. wp_go.
    apply (HQ _ _ _ _ []); [apply took_nil|done|done|done|done]. }
  assert (Block.resize junk Block.default max = Ret (Block.mk (Some (Block.new_array junk max)) max max)) as Er.
  { unfold Block.resize, Block.allocate. cbn. zbool. done. }
  eapply wp_lift; [exact Er|]. apply wp_safe. wp_go. pose proof (zlen_new_array junk max ltac:(lia)) as Hl.
  eapply wp_mono; [apply wp_fill_loop; [done|lia|lia|right; unfold fill_fuel; lia]|].
  intros r w' (got & avail & d & eof & -> & Hd & H0 & Hav & Hc & Ht).
  apply (HQ _ _ _ _ got); [done|lia|done|done|]. intros Hg. pose proof (nonempty_zlen _ Hg).
  destruct (block_shrink junk (Block.mk (Some d) max max) (max - avail)) as (b' & Eb & Hw & Hcb & Hs).
  { split_and!; cbn; lia. }
  { cbn. lia. }
  exists b'. split_and!; try done; [|lia]. rewrite Hcb. unfold Block.content. cbn.
  rewrite (ztake_all max d) by lia. rewrite Hc, Z.sub_diag, ztake_0. done.
Qed.

Lemma took_frame n w w' got : took n w w' got → ∃ g, w' = w <| fds := g |>.
Proof.
  unfold took. destruct (fds w !! n) as [[i o]|].
  - intros (i' & -> & _). exists (<[n := (i', o)]> (fds w)). by destruct w.
  - intros [-> _]. exists (fds w). by destruct w.
Qed.

Lemma local_ok_not_reading s e :
  local_ok s → fde s = Some e → local_ok (s <| fde := Some (e <| FDE_READ := false |>) |>).
Proof.
  intros [? ? ? ? ? (e' & He & Hw & Hcl)] He'. rewrite He' in He. injection He as <-.
  constructor; try done. exists (e <| FDE_READ := false |>). split; [done|]. split; [exact Hw|].
  intros Hc. split; [by apply Hcl|done].
Qed.

Lemma wp_del_read p s w :
  wf w → sockets w !! p = Some s → is_local s →
  wp (fdevent_del_read p) (λ _ w', wf w' ∧ ∃ s1, sockets w' !! p = Some s1 ∧ is_local s1) w.
Proof.
  intros H E Hl. assert (local_ok s) as Hok by (destruct H as [H _]; by eapply inv_local_ok).
  destruct (lo_fde _ Hok) as (e & He & _).
  eapply wp_fdevent_set; [done..|]. split.
  - eapply wf_store_local; try done. by apply local_ok_not_reading.
  - eexists. split; [apply lookup_insert_eq|done].
Qed.

