(* ===== verification/SocketsFrame.v ===== *)
(** * What the socket code leaves alone

    Running socket code changes the sockets and what was sent, but neither the
    state of a transport nor which transports are in use.  [keeps x m] states
    this for every run of [m]; [x] is a transport that [m] may bind new sockets
    to.  The property is compositional, so it holds of whole handlers by a walk
    over their text. *)

From S2P Require Import Prelude State CString LibBase Types TypesFacts AdbIO AdbIOFacts Packets.
From S2P Require Import PacketsFacts Nonblocking Transport TransportFacts HostService Sockets.
From S2P Require Import SocketsWp SocketsInv SocketsIO SocketsSafe.
Local Open Scope Z_scope.
Local Open Scope record_scope.

(** The state of the transport is the same. *)
Record tlike (a a' : atransport) : Prop := {
  tl_id : id a' = id a;
  tl_state : connection_state_ a' = connection_state_ a;
  tl_online : online a' = online a;
  tl_max : max_payload a' = max_payload a;
  tl_names : product a' = product a ∧ device a' = device a;
  tl_disconnects : disconnects_ a' = disconnects_ a
}.

#[export] Instance tlike_preorder : PreOrder tlike.
Proof.
  split; [by intros a; constructor|]. intros a b c [? ? ? ? [? ?] ?] [? ? ? ? [? ?] ?].
  constructor; try congruence. split; congruence.
Qed.

Lemma tsame_tlike a a' : tsame a a' → tlike a a'.
Proof. intros [<- _]. by destruct a'. Qed.

(** The lists of transports and listeners are the same. *)
Record same_lists (w w' : world) : Prop := {
  sl_transports : transport_list w' = transport_list w;
  sl_pending : pending_list w' = pending_list w;
  sl_listeners : listener_list w' = listener_list w;
  sl_next_listener : next_listener w' = next_listener w;
  sl_next_id : next_transport_id w' = next_transport_id w
}.

#[export] Instance same_lists_preorder : PreOrder same_lists.
Proof. split; [by intros w; constructor|]. intros w1 w2 w3 [] []. constructor; congruence. Qed.

Record evolves (x : option Z) (w w' : world) : Prop := {
  ev_transports : ∀ t, option_Forall2 tlike (transports w !! t) (transports w' !! t);
  ev_unused : ∀ t, Some t ≠ x → unused t w → unused t w';
  ev_ids : 0 ≤ local_socket_next_id w < 2 ^ 32 → 0 ≤ local_socket_next_id w' < 2 ^ 32;
  ev_lists : same_lists w w'
}.

#[export] Instance evolves_preorder x : PreOrder (evolves x).
Proof.
  split.
  - intros w. constructor; [|done..]. intros t. destruct (transports w !! t); by constructor.
  - intros w1 w2 w3 [T1 U1 I1 L1] [T2 U2 I2 L2]. constructor; [|by auto..|by etrans].
    intros t. specialize (T1 t). specialize (T2 t).
    destruct T1 as [a b Hab|]; inversion T2; subst; constructor. by etrans.
Qed.

Lemma evolves_sockets x w w' :
  transports w' = transports w → local_socket_next_id w' = local_socket_next_id w → same_lists w w' →
  (∀ t, Some t ≠ x → unused t w → unused t w') → evolves x w w'.
Proof.
  intros T I L U. constructor; [|done|by rewrite I|done]. intros t. rewrite T.
  destruct (transports w !! t); by constructor.
Qed.

Definition keeps {A} (x : option Z) (m : M A) : Prop :=
  ∀ w a w', m w = Ret (a, w') → evolves x w w'.

Section rules.
Context {A B : Type} (x : option Z).
Implicit Types (m : M A).

Lemma keeps_ret (a : A) : keeps x (mret a).
Proof. intros w b w' [= _ <-]. done. Qed.

Lemma keeps_bind m (f : A → M B) : keeps x m → (∀ a, keeps x (f a)) → keeps x (m ≫= f).
Proof.
  intros Hm Hf w b w'. unfold mbind, ST_bind. destruct (m w) as [[a w1]| | |] eqn:E; [|done..].
  intros E'. etrans; [by eapply Hm|by eapply Hf].
Qed.

Lemma keeps_lift (o : outcome A) : keeps x (lift o).
Proof. intros w a w'. unfold lift. destruct o; [|done..]. by intros [= _ <-]. Qed.

Lemma keeps_get (f : world → A) : keeps x (get f).
Proof. intros w a w' [= _ <-]. done. Qed.

Lemma keeps_stuck (o : outcome (A * world)) : (∀ r, o ≠ Ret r) → keeps x (λ _, o).
Proof. intros H w a w' E. by apply H in E. Qed.
End rules.

Section primitives.
Context (x : option Z).

Lemma keeps_load p : keeps x (load p).
Proof. intros w s w'. unfold load. destruct (sockets w !! p); [|done]. by intros [= _ <-]. Qed.

Lemma keeps_load_transport t : keeps x (load_transport t).
Proof. intros w s w'. unfold load_transport. destruct (transports w !! t); [|done]. by intros [= _ <-]. Qed.

(** Changing a socket, except for binding it to a transport. *)
Definition same_use (f : asocket → asocket) : Prop :=
  ∀ s, transport (f s) = transport s ∧ (closing (f s) = false → closing s = false).

Lemma keeps_store p f : same_use f → keeps x (store p f).
Proof.
  intros Hf w a w'. unfold store. destruct (sockets w !! p) as [s|] eqn:E; [|done].
  intros [= _ <-]. apply evolves_sockets; [done..|by constructor|]. intros t _ U q s'. rec_simpl.
  intros [[<- <-]|[_ Eq]]%lookup_insert_Some Hc; [|by eapply U]. destruct (Hf s) as [-> Hcl]. eauto.
Qed.

Lemma keeps_new s : (∀ t, transport s = Some t → Some t = x) → keeps x (new s).
Proof.
  intros Hs w a w' [= _ <-]. apply evolves_sockets; [done..|by constructor|]. intros t Ht U q s'. rec_simpl.
  intros [[<- <-]|[_ Eq]]%lookup_insert_Some Hc; [|by eapply U]. intros Hx. by apply Ht, Hs.
Qed.

Lemma keeps_delete p : keeps x (delete_socket p).
Proof.
  intros w a w'. unfold delete_socket. destruct (sockets w !! p) as [s|] eqn:E; [|done].
  intros [= _ <-]. apply evolves_sockets; [done..|by constructor|]. intros t _ U q s'. rec_simpl.
  intros [_ Eq]%lookup_delete_Some. by eapply U.
Qed.

(** Functions of a transport that only send. *)
Definition sends (f : atransport → outcome atransport) : Prop := ∀ a a', f a = Ret a' → tlike a a'.

Lemma keeps_on_transport t f : sends f → keeps x (on_transport t f).
Proof.
  intros Hf w u w'. unfold on_transport. destruct (transports w !! t) as [a|] eqn:E; [|done].
  simpl. destruct (f a) as [a'| | |] eqn:Ef; [|done..]. intros [= _ <-]. constructor; [|done..].
  intros t'. rec_simpl. destruct (decide (t = t')) as [<-|].
  - rewrite E, lookup_insert_eq. constructor. by apply Hf.
  - rewrite lookup_insert_ne by done. destruct (transports w !! t'); by constructor.
Qed.

Lemma keeps_modify f :
  (∀ w, sockets (f w) = sockets w ∧ transports (f w) = transports w ∧
        (0 ≤ local_socket_next_id w < 2 ^ 32 → 0 ≤ local_socket_next_id (f w) < 2 ^ 32) ∧
        same_lists w (f w)) →
  keeps x (modify f).
Proof.
  intros Hf w a w' [= _ <-]. destruct (Hf w) as (Hs & Ht & Hi & Hl).
  constructor; [|by unfold unused; rewrite Hs|done..].
  intros t. rewrite Ht. destruct (transports w !! t); by constructor.
Qed.

Lemma keeps_fd_read n len : keeps x (fd_read n len).
Proof.
  intros w a w'. unfold fd_read. destruct (fds w !! n) as [[i o]|]; [|by intros [= _ <-]].
  destruct (adb_read i len). intros [= _ <-]. by apply evolves_sockets.
Qed.

Lemma keeps_fd_out {A} n (d : A) f : keeps x (fd_out n d f).
Proof.
  intros w a w'. unfold fd_out. destruct (fds w !! n) as [[i o]|]; [|by intros [= _ <-]].
  destruct (f o) as [[r o']| | |]; [|done..]. intros [= _ <-]. by apply evolves_sockets.
Qed.
End primitives.

(** ** The walk *)

Create HintDb keeps discriminated.
#[export] Hint Resolve keeps_ret keeps_lift keeps_get keeps_load keeps_load_transport keeps_delete
  keeps_fd_read keeps_fd_out : keeps.

Lemma sends_packet p : sends (send_packet p).
Proof.
  intros a a'. unfold send_packet. destruct (stamp_packet _ p); [|done..]. intros [= <-].
  destruct (writable a); [by constructor|]. unfold Kick. destruct (kicked_ a); by constructor.
Qed.

Lemma sends_made (p : outcome apacket) : sends (λ a, p ← p; send_packet p a).
Proof. intros a a'. destruct p; [|done..]. apply sends_packet. Qed.

Lemma sends_ready junk l r n : sends (λ a, send_ready junk l r a n).
Proof.
  intros a a'. unfold send_ready. destruct (make_packet _ _ _ _ _); [|done..]. apply sends_packet.
Qed.

Lemma sends_close junk l r : sends (send_close junk l r).
Proof. intros a a'. unfold send_close. destruct (make_packet _ _ _ _ _); [|done..]. apply sends_packet. Qed.

#[export] Hint Resolve sends_packet sends_ready sends_close : keeps.

Ltac keeps_step :=
  lazymatch goal with
  | |- keeps _ (mbind _ _) => apply keeps_bind; [|intros]
  | |- keeps _ (store _ _) => apply keeps_store; intros ?; by split
  | |- keeps _ (on_transport _ _) => apply keeps_on_transport; by auto with keeps
  | |- keeps _ (modify _) => apply keeps_modify; intros ?; by split_and!
  | |- keeps _ (λ _, OutOfFuel) => by apply keeps_stuck
  | |- keeps _ (match ?x with _ => _ end) => destruct x
  | |- keeps _ _ => by eauto with keeps
  end.
Ltac keeps_go := cbv beta zeta; repeat (keeps_step; cbv beta zeta).

Section sockets.
Context (x : option Z) (junk : nat → byte).

Lemma keeps_fdevent_set p f : keeps x (fdevent_set p f).
Proof. unfold fdevent_set. keeps_go. Qed.
Hint Resolve keeps_fdevent_set : keeps.

Lemma keeps_find_in l lid pid : keeps x (find_in l lid pid).
Proof. induction l; cbn [find_in]; keeps_go. Qed.
Hint Resolve keeps_find_in : keeps.

Lemma keeps_find_local_socket lid pid : keeps x (find_local_socket lid pid).
Proof. unfold find_local_socket. keeps_go. Qed.

Lemma keeps_remove_socket p : keeps x (remove_socket p).
Proof. unfold remove_socket. keeps_go. Qed.
Hint Resolve keeps_remove_socket : keeps.

Lemma keeps_get_max_payload p : keeps x (get_max_payload p).
Proof. unfold get_max_payload. keeps_go. Qed.
Hint Resolve keeps_get_max_payload : keeps.

Lemma keeps_deferred_close n : keeps x (deferred_close n).
Proof. unfold deferred_close. keeps_go. Qed.
Hint Resolve keeps_deferred_close : keeps.

Lemma keeps_local_destroy p : keeps x (local_socket_destroy p).
Proof. unfold local_socket_destroy. keeps_go. Qed.
Hint Resolve keeps_local_destroy : keeps.

Lemma keeps_local_finish p : keeps x (local_socket_finish p).
Proof. unfold local_socket_finish, fdevent_del_read. keeps_go. Qed.
Hint Resolve keeps_local_finish : keeps.

Lemma keeps_shutdown p : keeps x (remote_socket_shutdown junk p).
Proof. unfold remote_socket_shutdown. keeps_go. Qed.
Hint Resolve keeps_shutdown : keeps.

Lemma keeps_close_fuel fuel : ∀ p, keeps x (socket_close_fuel junk fuel p).
Proof.
  induction fuel as [|fuel IH]; intros p; cbn [socket_close_fuel]; [keeps_go|].
  unfold local_socket_close, local_socket_close_notify, remote_socket_close, smart_socket_close,
    device_tracker_close, device_tracker_remove.
  keeps_go.
Qed.

Lemma keeps_close p : keeps x (socket_close junk p).
Proof. apply keeps_close_fuel. Qed.
Hint Resolve keeps_close : keeps.

Lemma keeps_find_of_transport l t : keeps x (find_of_transport l t).
Proof. induction l; cbn [find_of_transport]; keeps_go. Qed.
Hint Resolve keeps_find_of_transport : keeps.

Lemma keeps_close_all t : keeps x (close_all_sockets junk t).
Proof.
  unfold close_all_sockets. apply keeps_bind; [keeps_go|]. intros l.
  induction (S (length l)) as [|fuel IH]; cbn [close_all_loop]; keeps_go.
Qed.

Lemma keeps_flush_queue p : keeps x (flush_queue p).
Proof. unfold flush_queue. keeps_go. Qed.
Hint Resolve keeps_flush_queue : keeps.

Lemma keeps_flush_incoming p : keeps x (local_socket_flush_incoming junk p).
Proof. unfold local_socket_flush_incoming, fdevent_add_write, fdevent_del_write. keeps_go. Qed.
Hint Resolve keeps_flush_incoming : keeps.

Lemma keeps_local_enqueue p data : keeps x (local_socket_enqueue junk p data).
Proof. unfold local_socket_enqueue. keeps_go. Qed.

Lemma keeps_remote_enqueue p data : keeps x (remote_socket_enqueue p data).
Proof. unfold remote_socket_enqueue. keeps_go. Qed.

Lemma keeps_fill_loop fuel n max : ∀ data avail, keeps x (fill_loop fuel n data max avail).
Proof. induction fuel as [|fuel IH]; intros data avail; cbn [fill_loop]; keeps_go. Qed.
Hint Resolve keeps_fill_loop : keeps.

Lemma keeps_resize_block b n : keeps x (resize_block junk b n).
Proof. unfold resize_block. keeps_go. Qed.
Hint Resolve keeps_resize_block : keeps.

Lemma keeps_read_data n m : keeps x (read_data junk n m).
Proof. unfold read_data. keeps_go. Qed.
End sockets.

#[export] Hint Resolve keeps_fdevent_set keeps_find_local_socket keeps_get_max_payload keeps_close
  keeps_close_all keeps_flush_incoming keeps_local_enqueue keeps_remote_enqueue 
  keeps_read_data : keeps.

