(* ===== verification/SocketsCorrect.v ===== *)
(** * What closing and queueing guarantee *)

From S2P Require Import Prelude State CString LibBase Types TypesFacts AdbIO AdbIOFacts Packets.
From S2P Require Import PacketsFacts Nonblocking Transport TransportFacts HostService Sockets.
From S2P Require Import SocketsWp SocketsInv SocketsIO SocketsSafe SocketsFrame.
Local Open Scope Z_scope.
Local Open Scope record_scope.

(** ** Closing *)

(** C7: Closing a socket of any kind, through its function pointer, terminates,
    though the [close] functions call one another through the peers' pointers.
    Afterwards nobody points at the socket; it is gone, or waits without a peer
    for its queue to drain; the sockets that were not its peer are as before, and
    every pointer of the socket layer is valid. *)
Theorem socket_close_correct junk p s w :
  wf w → sockets w !! p = Some s →
  ∃ w', socket_close junk p w = Ret (tt, w') ∧ wf w' ∧
    (∀ s', sockets w' !! p = Some s' → is_local s' ∧ closing s' = true ∧ peer s' = None) ∧
    (∀ a sa, sockets w' !! a = Some sa → peer sa ≠ Some p) ∧
    (∀ a sa, sockets w !! a = Some sa → a ≠ p → peer s ≠ Some a → sockets w' !! a = Some sa) ∧
    (∀ a, is_Some (sockets w' !! a) → is_Some (sockets w !! a)).
Proof.
  intros H E. pose proof (wp_socket_close junk p s w H E) as Hw. apply wp_run in Hw as ([] & w' & Er & H' & Hc).
  assert (∀ s', sockets w' !! p = Some s' → is_local s' ∧ closing s' = true ∧ peer s' = None) as Hself.
  { intros s' E'. destruct (cp_self _ _ _ Hc s' E') as [Hl Hcl]. split_and!; [done..|].
    destruct (lo_fde s') as (e & _ & _ & Hp); [eapply inv_local_ok; [apply H'|done..]|]. by apply Hp. }
  exists w'. split_and!; try done.
  - intros a sa Ea Hp. destruct (inv_peer _ _ (wf_inv _ H') a sa p) as (_ & _ & s' & E' & Hp' & _); [done..|].
    destruct (Hself s' E') as (_ & _ & Hn). congruence.
  - intros a sa Ea Ha Hq. apply (cp_others _ _ _ Hc); [done..|]. intros Hp. apply Hq.
    destruct (inv_peer _ _ (wf_inv _ H) a sa p) as (_ & _ & s2 & E2 & Hp2 & _); [done..|]. congruence.
  - intros a [sa Ea]. by apply (cp_sockets _ _ _ Hc) in Ea.
Qed.

(** C8: [close_all_sockets] terminates: every socket that uses the transport,
    itself or through its peer, is closed, although closing one may close
    others; the rest are as before. *)
Theorem close_all_sockets_correct junk t w :
  wf w →
  ∃ w', close_all_sockets junk t w = Ret (tt, w') ∧ wf w' ∧ unused t w' ∧
    (∀ p s, p ∈ local_socket_list w' → sockets w' !! p = Some s → ¬ uses w' t s) ∧
    (∀ p s, sockets w !! p = Some s → ¬ uses w t s → sockets w' !! p = Some s).
Proof.
  intros H. pose proof (wp_close_all junk t w H) as Hw. apply wp_run in Hw as ([] & w' & Er & Hc).
  exists w'. split_and!; [done|apply Hc|by eapply close_all_unused|apply Hc|apply Hc].
Qed.

(** ** Data for a client *)

(** What a client has received and will receive. *)
Definition client_stream (s : asocket) (w : world) : option bytes :=
  '(_, o) ← fds w !! fd s; Some (o_written o ++ IOVector.contents (packet_queue s)).

(** Data given to an open local socket is added at the end of its stream:
    what was written to the descriptor followed by what is queued; nothing is
    lost, repeated or reordered, however the writes are split.  The result says
    whether the queue is empty, or the socket waits to write. *)
Lemma local_enqueue_stream junk p s data w :
  wf w → sockets w !! p = Some s → is_local s → closing s = false → Block.wf data →
  queued w + Block.size_ data < 2 ^ 63 →
  ∃ r w' s', local_socket_enqueue junk p data w = Ret (r, w') ∧ wf w' ∧ sockets w' !! p = Some s' ∧
    client_stream s' w' = (λ d, d ++ Block.content data) <$> client_stream s w ∧
    (∀ a, a ≠ p → sockets w' !! a = sockets w !! a) ∧
    (r = 0 ∧ (IOVector.contents (packet_queue s') = [] ∨ has_write_error s' = true) ∨
     r = 1 ∧ IOVector.contents (packet_queue s') ≠ [] ∧ has_write_error s' = false ∧
     ∃ e, fde s' = Some e ∧ FDE_WRITE e = true).
Proof.
  intros H E Hl Hc Hd Hroom. assert (local_ok s) as Hok by (eapply inv_local_ok; [apply H|done..]).
  pose proof (queued_elem w p s E Hok) as Hle.
  pose proof (wp_local_enqueue junk p s data w H E Hl Hd ltac:(lia)) as Hw.
  apply wp_run in Hw as (r & w' & Er & fr & -> & Hfi). destruct (append_ok s data Hok Hd ltac:(lia)) as [_ Hcont].
  assert (fr ≠ Destroyed) as Hfr.
  { intros Hfr. pose proof (fi_dead _ _ _ _ _ Hfi Hfr) as Hcl. cbn in Hcl. congruence. }
  destruct (fi_live _ _ _ _ _ Hfi Hfr) as (d & v & err & e' & Hdv & [_ Hwr] & Hs & _ & _ & _ & Hcomp & Htry & _).
  set (s' := (queue_set (append_data s data) v err) <| fde := Some e' |>) in *.
  exists (flush_code fr), w', s'. assert (sockets w' !! p = Some s') as Es' by (rewrite Hs; apply lookup_insert_eq).
  split_and!; [done|apply Hfi|done| | |].
  - unfold client_stream. change (fd s') with (fd s). change (fd (append_data s data)) with (fd s) in Hwr.
    change (packet_queue s') with v. change (fds (w <| sockets ::= _ |>)) with (fds w) in Hwr.
    destruct (fds w !! fd s) as [[i o]|].
    + destruct Hwr as (o' & -> & Ho). cbn. f_equal. rewrite Ho, <- !app_assoc. f_equal. by rewrite <- Hdv, Hcont.
    + destruct Hwr as [-> _]. done.
  - intros a Ha. rewrite Hs. rec_simpl. by rewrite !lookup_insert_ne.
  - destruct fr; [done| |].
    + right. destruct (Htry eq_refl) as [Herr Hv]. split_and!; [done..|].
      assert (local_ok s') as Hok' by (eapply inv_local_ok; [apply Hfi|done..]).
      destruct (lo_fde _ Hok') as (e & He & Hwi & _). exists e. split; [done|]. apply Hwi; [|done].
      rewrite empty_contents by apply Hok'. by apply bool_decide_eq_false.
    + left. split; [done|]. by apply Hcomp.
Qed.

(** ** Examples *)

(** A local socket on descriptor 10, connected to a socket of the device 7. *)
Definition sample_local : world :=
  add_local 1 10 (init_world {[7 := new_atransport 7 kCsDevice]} {[10 := ([], Out [] [])]} 11).
Definition sample_pair : world := add_remote 0 (fresh_local 1 10) 5 7 sample_local.

Lemma wf_sample_pair : wf sample_pair.
Proof.
  apply wf_add_remote; [|apply lookup_insert_eq|done..|].
  - apply wf_add_local, wf_init.
  - by vm_compute; eexists.
Qed.

Lemma socket_close_correct_witness :
  ∃ w', socket_close (λ _, NUL) 1 sample_pair = Ret (tt, w') ∧ sockets w' = ∅.
Proof.
  destruct (socket_close_correct (λ _, NUL) 1 (fresh_remote 5 7 0) sample_pair) as (w' & E & _).
  - exact wf_sample_pair.
  - by vm_compute.
  - exists w'. split; [done|]. vm_compute in E. injection E as <-. by vm_compute.
Defined.

Lemma close_all_sockets_correct_witness :
  ∃ w', close_all_sockets (λ _, NUL) 7 sample_pair = Ret (tt, w') ∧ unused 7 w'.
Proof.
  destruct (close_all_sockets_correct (λ _, NUL) 7 sample_pair wf_sample_pair) as (w' & E & _ & Hu & _). eauto.
Defined.
