(* ===== verification/TrackersFacts.v ===== *)
(** * Facts about device trackers: what [update_transports] does

    A change of the list of transports is sent to the client of every tracker.
    The clients are local sockets, so the calls through their [enqueue] pointers
    are calls of [local_socket_enqueue]; no socket is closed on the way. *)

From S2P Require Import Prelude State CString LibBase Types TypesFacts AdbIO AdbIOFacts Packets.
From S2P Require Import PacketsFacts Nonblocking Transport TransportFacts HostService Sockets.
From S2P Require Import SocketsWp SocketsInv SocketsIO SocketsSafe SocketsFrame SocketsCorrect.
Local Open Scope Z_scope.
Local Open Scope record_scope.

(** What the socket code relies on when it calls the [enqueue] of a peer that is
    a local socket. *)
Class LocalEnqueue (junk : nat → byte) (enqueue : nat → Block.t → M Z) : Prop :=
  local_enqueue : ∀ p s data w, sockets w !! p = Some s → is_local s →
    enqueue p data w = local_socket_enqueue junk p data w.

(** The objects of the lists of transports are alive. *)
Definition listed (w : world) : Prop :=
  ∀ t, t ∈ transport_list w ∨ t ∈ pending_list w → is_Some (transports w !! t).

(** What a client receives. *)
Definition tracker_frame (text : bytes) : bytes := take 4 (print_0x 4 (u32 (zlen text))) ++ text.

(** Two states of a socket that differ in what is queued and in the interest in
    its descriptor at most. *)
Record alike (s s' : asocket) : Prop := {
  ak_enqueue : enqueue_fn s' = enqueue_fn s;
  ak_peer : peer s' = peer s;
  ak_transport : transport s' = transport s;
  ak_closing : closing s' = closing s;
  ak_tracker : tracker s' = tracker s;
  ak_fd : fd s' = fd s
}.

#[export] Instance alike_preorder : PreOrder alike.
Proof. split; [by intros s; constructor|]. intros a b c [] []. constructor; congruence. Qed.

Definition sockets_alike (w w' : world) : Prop :=
  ∀ p, option_Forall2 alike (sockets w !! p) (sockets w' !! p).

(** The peer of [s] is not a tracker. *)
Definition untracked (w : world) (s : asocket) : Prop :=
  ∀ q s', peer s = Some q → sockets w !! q = Some s' → ¬ is_tracker s'.

(** What telling the trackers changes. *)
Record notified (w w' : world) : Prop := {
  nt_wf : wf w';
  nt_evolves : evolves None w w';
  nt_alike : sockets_alike w w';
  nt_untracked : ∀ p s, sockets w !! p = Some s → untracked w s → sockets w' !! p = Some s
}.

Lemma alike_lookup w w' p s :
  sockets_alike w w' → sockets w !! p = Some s → ∃ s', sockets w' !! p = Some s' ∧ alike s s'.
Proof. intros H E. specialize (H p). rewrite E in H. inversion H; subst. eauto. Qed.

Lemma alike_lookup_back w w' p s' :
  sockets_alike w w' → sockets w' !! p = Some s' → ∃ s, sockets w !! p = Some s ∧ alike s s'.
Proof. intros H E. specialize (H p). rewrite E in H. inversion H; subst. eauto. Qed.

Lemma alike_untracked w w' s : sockets_alike w w' → untracked w s → untracked w' s.
Proof.
  intros H Hu q s' Hq E. destruct (alike_lookup_back _ _ _ _ H E) as (s0 & E0 & [He _ _ _ _ _]).
  unfold is_tracker. rewrite He. by eapply Hu.
Qed.

Lemma notified_refl w : wf w → notified w w.
Proof.
  intros H. constructor; [done|done| |done]. intros p. destruct (sockets w !! p); constructor. done.
Qed.

Lemma notified_trans w1 w2 w3 : notified w1 w2 → notified w2 w3 → notified w1 w3.
Proof.
  intros [W1 E1 A1 U1] [W2 E2 A2 U2]. constructor; [done|by etrans| |].
  - intros p. specialize (A1 p). specialize (A2 p). destruct A1 as [a b ?|]; inversion A2; subst; constructor.
    by etrans.
  - intros p s E Hu. apply U2; [by apply U1|by eapply alike_untracked].
Qed.

Lemma evolves_listed x w w' : evolves x w w' → listed w → listed w'.
Proof.
  intros [T _ _ [L1 L2 _ _ _]] H t. rewrite L1, L2. intros Ht. destruct (H t Ht) as [a E].
  specialize (T t). rewrite E in T. inversion T; subst. eauto.
Qed.

Section trackers.
Context (junk : nat → byte) `{HT : !Texts} (enqueue : nat → Block.t → M Z) `{!LocalEnqueue junk enqueue}.

(** ** One message *)

Lemma length_print_0x_ge w n : (w ≤ length (print_0x w n))%nat.
Proof. unfold print_0x. rewrite length_app, length_replicate. lia. Qed.

(** The block [device_tracker_send] fills. *)
Lemma safe_tracker_message text Q w :
  (∀ b, Block.wf b → Block.content b = tracker_frame text → queued w + Block.size_ b < 2 ^ 63 → Q b w) →
  safe (tracker_message junk text) Q w.
Proof.
  intros HQ. unfold tracker_message. apply safe_bind, safe_resize_block.
  set (h := take 4 (print_0x 4 (u32 (zlen text)))) in *. assert (length h = 4%nat) as Hh.
  { unfold h. rewrite length_take. pose proof (length_print_0x_ge 4 (u32 (zlen text))). lia. }
  assert (tracker_frame text = h ++ text) as Hf by done. clearbody h.
  remember (4 + zlen text) as n eqn:Hn. intros Hroom.
  assert (Block.resize junk Block.default n = Ret (Block.mk (Some (Block.new_array junk n)) n n)) as ->.
  { unfold Block.resize, Block.allocate. cbn. zbool. done. }
  pose proof (zlen_new_array junk n ltac:(lia)) as Hl. apply wp_safe. eapply wp_lift; [done|].
  eapply safe_wp_bind, wp_lift.
  { unfold Block.write_at. cbn. rewrite memcpy_fit by lia. rewrite ztake_0, app_nil_l. done. }
  apply wp_safe. eapply wp_lift.
  { unfold Block.write_at. cbn. rewrite memcpy_app by (rewrite ?zlen_zdrop; lia).
    rewrite zdrop_zdrop, zdrop_all, app_nil_r by lia. done. }
  apply HQ; [|unfold Block.content|done].
  - unfold Block.wf. cbn. rewrite length_app. lia.
  - cbn. rewrite ztake_all by (rewrite length_app; lia). done.
Qed.

Lemma tracker_client w p s :
  wf w → sockets w !! p = Some s → is_tracker s →
  ∃ q s', peer s = Some q ∧ q ≠ p ∧ sockets w !! q = Some s' ∧ is_local s' ∧ peer s' = Some p ∧
    transport s' = None ∧ closing s' = false.
Proof.
  intros [H Hp] E Ht. assert (¬ is_local s) as Hl by (unfold is_local, is_tracker in *; congruence).
  destruct (Hp p s) as [q Hq]; [done..|].
  destruct (inv_peer _ _ H p s q) as (_ & Hne & s' & E' & Hp' & [?|Hl']); [done..|].
  exists q, s'. split_and!; try done.
  - eapply (inv_client _ _ H p s q s'); try done. by right.
  - apply (peer_not_closing w q s' H E'). eauto.
Qed.

(** Nothing is acknowledged for a socket without a transport. *)
Lemma wp_enqueue_transports p s data w :
  wf w → sockets w !! p = Some s → is_local s → closing s = false → transport s = None → Block.wf data →
  IOVector.chain_length_ (packet_queue s) + Block.size_ data < 2 ^ 63 →
  wp (local_socket_enqueue junk p data) (λ _ w', transports w' = transports w) w.
Proof.
  intros H E Hl Hc Ht Hd Hb. assert (local_ok s) as Hok by (eapply inv_local_ok; [apply H|done..]).
  destruct (append_ok s data Hok Hd Hb) as [Hok' _]. destruct (lo_fde _ Hok) as (e & He & _).
  unfold local_socket_enqueue. wp_go. unfold local_socket_flush_incoming. wp_go.
  eapply wp_flush_queue; [apply lookup_insert_eq|apply Hok'|].
  intros s1 d w1 [(g & -> & _) (q & err & -> & _)] _. wp_go. eapply wp_load; [apply lookup_insert_eq|].
  set (s2 := queue_set _ q err). change (transport s2) with (transport s). change (closing s2) with (closing s).
  rewrite Ht, Hc. wp_go. cbn [andb]. assert (fde s2 = Some e) as He2 by exact He.
  destruct (_ && _); wp_go; (eapply wp_fdevent_set; [apply lookup_insert_eq|exact He2|]); by wp_go.
Qed.

(** The socket of a client whose queue [data] went through. *)
Record sent_to (q : nat) (s : asocket) (data : bytes) (w w' : world) : Prop := {
  st_notified : notified w w';
  st_transports : transports w' = transports w;
  st_queue : ∃ d v err e', IOVector.contents (packet_queue s) ++ data = d ++ IOVector.contents v ∧
    wrote (fds w) (fds w') (fd s) d ∧
    sockets w' = <[q := (queue_set s v err) <| fde := Some e' |>]> (sockets w)
}.

Lemma safe_tracker_send p s q s' text w :
  wf w → sockets w !! p = Some s → is_tracker s → peer s = Some q → sockets w !! q = Some s' →
  safe (device_tracker_send junk enqueue p text) (λ _ w', sent_to q s' (tracker_frame text) w w') w.
Proof.
  intros H E Ht Hq E'. destruct (tracker_client w p s H E Ht) as (q0 & s0 & Hq0 & Hne & E0 & Hl & Hp & Htr & Hc).
  simplify_eq. unfold device_tracker_send. safe_go. apply safe_bind, safe_tracker_message.
  intros b Hb Hcb Hroom. eapply safe_wp_bind, wp_lift; [by rewrite Hq|].
  assert (local_ok s') as Hok by (destruct H as [H _]; by eapply inv_local_ok).
  pose proof (queued_elem w q s' E' Hok) as Hle.
  pose proof (wp_local_enqueue junk q s' b w H E' Hl Hb ltac:(lia)) as Hw.
  pose proof (wp_enqueue_transports q s' b w H E' Hl Hc Htr Hb ltac:(lia)) as Htp.
  apply wp_run in Hw as (r & w' & Erun & fr & _ & Hfi). unfold wp in Htp. rewrite Erun in Htp.
  unfold safe. rewrite (local_enqueue q s' b w E' Hl), Erun.
  destruct (append_ok s' b Hok Hb ltac:(lia)) as [_ Hcont].
  destruct (fi_live _ _ _ _ _ Hfi) as (d & v & err & e' & Hd & Hwr & Hs & _).
  { intros Hfr. pose proof (fi_dead _ _ _ _ _ Hfi Hfr) as Hcl. cbn in Hcl. congruence. }
  assert (sockets w' = <[q := (queue_set s' v err) <| fde := Some e' |>]> (sockets w)) as Hs'.
  { rewrite Hs. rec_simpl. by rewrite insert_insert_eq. }
  split; [|exact Htp|exists d, v, err, e'; split_and!; [by rewrite <- Hd, Hcont, Hcb|exact Hwr|done]].
  split; [apply Hfi|by eapply keeps_local_enqueue| |].
  - intros a. rewrite Hs'. destruct (decide (q = a)) as [<-|].
    + rewrite lookup_insert_eq, E'. by constructor.
    + rewrite lookup_insert_ne by done. destruct (sockets w !! a); by constructor.
  - intros a sa Ea Hu. rewrite Hs', lookup_insert_ne; [done|]. intros <-. simplify_eq. by eapply Hu.
Qed.

(** ** The whole list *)

Lemma wp_load_all l w Q :
  (∀ t, t ∈ l → is_Some (transports w !! t)) →
  (∀ as_, Forall2 (λ t a, transports w !! t = Some a) l as_ → Q as_ w) → wp (load_all l) Q w.
Proof.
  revert Q. induction l as [|t l IH]; intros Q H HQ; cbn [load_all]; wp_go; [by apply HQ|].
  destruct (H t) as [a Ea]; [by left|]. wp_go. apply IH; [intros; apply H; by right|].
  intros as_ Has. wp_go. apply HQ. by constructor.
Qed.

Lemma wp_listed_transports w Q :
  listed w → (∀ as_, Forall2 (λ t a, transports w !! t = Some a) (transport_list w) as_ → Q as_ w) →
  wp listed_transports Q w.
Proof.
  intros H HQ. unfold listed_transports. wp_go. apply wp_load_all; [|done]. intros t Ht. apply H. by left.
Qed.

Lemma wp_transports_text output w Q :
  listed w →
  (∀ as_, Forall2 (λ t a, transports w !! t = Some a) (transport_list w) as_ →
     Q (list_transports output as_) w) →
  wp (transports_text output) Q w.
Proof.
  intros H HQ. unfold transports_text. wp_go. apply wp_listed_transports; [done|].
  intros as_ Has. wp_go. by apply HQ.
Qed.

Lemma wp_update_status w Q :
  listed w → (∀ b, Q tt (w <| transports_ready := b |>)) → wp update_transport_status Q w.
Proof.
  intros H HQ. unfold update_transport_status, iterate_transports. wp_go.
  apply wp_listed_transports; [done|]. intros as_ _.
  destruct (negb (forallb _ as_)); wp_go; [apply HQ|].
  apply wp_load_all; [intros t Ht; apply H; by right|]. intros as2 _. wp_go. apply HQ.
Qed.

Lemma notified_ready b w : wf w → notified w (w <| transports_ready := b |>).
Proof.
  intros [H Hp]. constructor.
  - split; [|exact Hp]. by destruct H; constructor.
  - by apply evolves_sockets.
  - intros p. rec_simpl. destruct (sockets w !! p); by constructor.
  - done.
Qed.

Lemma safe_notify_trackers l : ∀ w,
  wf w → listed w → (∀ p, p ∈ l → ∃ s, sockets w !! p = Some s ∧ is_tracker s) →
  safe (notify_trackers junk enqueue l) (λ _ w', notified w w') w.
Proof.
  induction l as [|p l IH]; intros w H Hw Hl; cbn [notify_trackers]; [safe_go; by apply notified_refl|].
  destruct (Hl p) as (s & E & Ht); [by left|]. safe_go.
  destruct (tracker_client w p s H E Ht) as (q & s' & Hq & _ & E' & _).
  pose proof (inv_sock _ _ (wf_inv _ H) _ _ E) as Hok. unfold sock_ok in Hok. rewrite Ht in Hok.
  destruct (tk_tracker _ Hok) as [tr Htr]. eapply safe_wp_bind, wp_lift; [by rewrite Htr|].
  apply safe_wp_bind, wp_transports_text; [done|]. intros as_ _.
  eapply safe_bind, safe_mono; [by apply (safe_tracker_send p s q s')|]. intros _ w1 [H1 _ _].
  eapply safe_mono; [apply IH; [apply H1|by eapply evolves_listed; [apply H1|]|]|].
  - intros a Ha. destruct (Hl a) as (sa & Ea & Hta); [by right|].
    destruct (alike_lookup _ _ _ _ (nt_alike _ _ H1) Ea) as (sa' & Ea' & [He _ _ _ _ _]).
    exists sa'. split; [done|]. unfold is_tracker. by rewrite He.
  - intros [] w2 H2. by eapply notified_trans.
Qed.

(** Telling the trackers is safe in every state of the server, and changes the
    queues of their clients only. *)
Lemma safe_update_transports w :
  wf w → listed w → safe (update_transports junk enqueue) (λ _ w', notified w w') w.
Proof.
  intros H Hw. unfold update_transports. apply safe_wp_bind, wp_update_status; [done|]. intros b.
  pose proof (notified_ready b w H) as Hn. safe_go.
  eapply safe_mono; [apply safe_notify_trackers; [apply Hn|by eapply evolves_listed; [apply Hn|]|]|].
  - intros p. apply (inv_trackers _ _ (wf_inv _ (nt_wf _ _ Hn))).
  - intros [] w' H'. by eapply notified_trans.
Qed.

(** ** What the clients receive *)

(** Open descriptors belong to one socket each. *)
Definition fds_distinct (w : world) : Prop :=
  ∀ p s q s', sockets w !! p = Some s → sockets w !! q = Some s' → is_local s → is_local s' → fd s = fd s' → p = q.

Definition loaded (w : world) (as_ : list atransport) : Prop :=
  Forall2 (λ t a, transports w !! t = Some a) (transport_list w) as_.

(** The client of the tracker [p] gets the list, at the end of its stream. *)
Definition tells (as_ : list atransport) (w w' : world) (p : nat) : Prop :=
  ∀ s tr q c, sockets w !! p = Some s → tracker s = Some tr → peer s = Some q → sockets w !! q = Some c →
    ∃ c', sockets w' !! q = Some c' ∧
      client_stream c' w' = (λ d, d ++ tracker_frame (list_transports (output_type tr) as_)) <$> client_stream c w.

(** The sockets that are not clients of the trackers [l] receive nothing. *)
Definition spares (l : list nat) (w w' : world) : Prop :=
  ∀ q c, sockets w !! q = Some c → is_local c → (∀ p, p ∈ l → peer c ≠ Some p) →
    sockets w' !! q = Some c ∧ fds w' !! fd c = fds w !! fd c.

Lemma loaded_inj w as1 as2 : loaded w as1 → loaded w as2 → as1 = as2.
Proof.
  unfold loaded. generalize (transport_list w). intros l H. revert as2.
  induction H as [|t a l as1 Ha _ IH]; inversion 1; subst; [done|]. f_equal; [congruence|by apply IH].
Qed.

Lemma sent_stream q c data w w' :
  sent_to q c data w w' → ∃ c', sockets w' = <[q := c']> (sockets w) ∧ alike c c' ∧
    client_stream c' w' = (λ d, d ++ data) <$> client_stream c w ∧ (∀ k, k ≠ fd c → fds w' !! k = fds w !! k).
Proof.
  intros [_ _ (d & v & err & e' & Hd & [Hk Hwr] & Hs)]. eexists. split; [exact Hs|]. split; [by constructor|].
  split; [|done]. unfold client_stream. cbn. destruct (fds w !! fd c) as [[i o]|].
  - destruct Hwr as (o' & -> & Ho). cbn. f_equal. by rewrite Ho, <- !app_assoc, Hd.
  - destruct Hwr as [-> _]. done.
Qed.

Lemma stream_fds c w w' : fds w' !! fd c = fds w !! fd c → client_stream c w' = client_stream c w.
Proof. unfold client_stream. by intros ->. Qed.

(** One tracker after the other. *)
Lemma tells_step as_ p q c l w w1 w2 :
  wf w → fds_distinct w → p ∉ l → sockets w !! q = Some c → is_local c → peer c = Some p →
  (∀ a, a ∈ p :: l → ∃ s, sockets w !! a = Some s ∧ is_tracker s) →
  (∃ c1, sockets w1 = <[q := c1]> (sockets w) ∧ alike c c1 ∧ (∀ k, k ≠ fd c → fds w1 !! k = fds w !! k) ∧
     ∀ s tr, sockets w !! p = Some s → tracker s = Some tr →
       client_stream c1 w1 = (λ d, d ++ tracker_frame (list_transports (output_type tr) as_)) <$> client_stream c w) →
  (∀ a, a ∈ l → tells as_ w1 w2 a) → spares l w1 w2 →
  (∀ a, a ∈ p :: l → tells as_ w w2 a) ∧ spares (p :: l) w w2.
Proof.
  intros H Hfd Hp Ec Hl Hpc Htr (c1 & Hs1 & [He Hpe _ _ _ Hf] & Hk & Hst) Ht Hsp.
  assert (∀ a sa, sockets w !! a = Some sa → a ≠ q → sockets w1 !! a = Some sa) as Hsame.
  { intros a sa Ea Ha. by rewrite Hs1, lookup_insert_ne. }
  assert (∀ a sa, sockets w !! a = Some sa → is_local sa → a ≠ q → fds w1 !! fd sa = fds w !! fd sa) as Hfds.
  { intros a sa Ea Hla Ha. apply Hk. intros Heq. apply Ha. by apply (Hfd a sa q c). }
  split.
  - intros a [->|Ha]%elem_of_cons s tr b cb Es Htrk Hb Eb.
    + destruct (inv_peer _ _ (wf_inv _ H) p s b) as (_ & Hpb & cb' & Eb' & Hpeer & _); [done..|]. simplify_eq.
      assert (b = q) as ->.
      { destruct (inv_peer _ _ (wf_inv _ H) q c p) as (_ & _ & s' & Es' & Hp' & _); [done..|]. congruence. }
      simplify_eq. destruct (Hsp q c1) as [E2 Ef2].
      * by rewrite Hs1, lookup_insert_eq.
      * unfold is_local in *. congruence.
      * intros a Ha. rewrite Hpe, Hpc. intros [= ->]. done.
      * exists c1. split; [done|]. rewrite (stream_fds c1 w1 w2 Ef2). by eapply Hst.
    + assert (a ≠ p) as Hap by (intros ->; done).
      destruct (Htr a) as (s0 & E0 & Hta); [by right|]. simplify_eq.
      destruct (inv_peer _ _ (wf_inv _ H) a s b) as (_ & Hab & cb' & Eb' & Hpeer & Hloc); [done..|]. simplify_eq.
      assert (b ≠ q) as Hbq by (intros ->; congruence).
      assert (a ≠ q) as Haq. { intros ->. simplify_eq. unfold is_tracker, is_local in *. congruence. }
      assert (is_local cb) as Hlb. { destruct Hloc as [Hx|]; [unfold is_local, is_tracker in *; congruence|done]. }
      destruct (Ht a Ha s tr b cb) as (c' & E' & Hs'); [by apply Hsame|done..|by apply Hsame|].
      exists c'. split; [done|]. rewrite Hs'. f_equal. by apply stream_fds, (Hfds b cb).
  - intros b cb Eb Hlb Hno. assert (b ≠ q) as Hbq.
    { intros ->. simplify_eq. apply (Hno p); [by left|done]. }
    destruct (Hsp b cb) as [E2 Ef2]; [by apply Hsame|done|intros a Ha; apply Hno; by right|].
    split; [done|]. rewrite Ef2. by apply (Hfds b cb).
Qed.

Lemma fds_distinct_sent q c c1 w w1 :
  fds_distinct w → sockets w !! q = Some c → sockets w1 = <[q := c1]> (sockets w) → alike c c1 → fds_distinct w1.
Proof.
  intros H Ec Hs [He _ _ _ _ Hf].
  assert (∀ a sa, sockets w1 !! a = Some sa → is_local sa → ∃ sa0, sockets w !! a = Some sa0 ∧ is_local sa0 ∧ fd sa0 = fd sa) as Hb.
  { intros a sa. rewrite Hs. intros [[<- <-]|[_ Ea]]%lookup_insert_Some Hla; [|by eauto].
    exists c. split_and!; [done| |done]. unfold is_local in *. congruence. }
  intros a sa b sb Ea Eb Hla Hlb Hfd. destruct (Hb a sa Ea Hla) as (sa0 & Ea0 & Hla0 & Hfa).
  destruct (Hb b sb Eb Hlb) as (sb0 & Eb0 & Hlb0 & Hfb). apply (H a sa0 b sb0); try done. congruence.
Qed.

Lemma safe_notify_tells as_ l : ∀ w,
  wf w → listed w → NoDup l → (∀ p, p ∈ l → ∃ s, sockets w !! p = Some s ∧ is_tracker s) →
  fds_distinct w → loaded w as_ →
  safe (notify_trackers junk enqueue l) (λ _ w', (∀ p, p ∈ l → tells as_ w w' p) ∧ spares l w w') w.
Proof.
  induction l as [|p l IH]; intros w H Hw Hn Hl Hfd Has; cbn [notify_trackers].
  { safe_go. split; [by intros p ?%not_elem_of_nil|done]. }
  apply NoDup_cons in Hn as [Hp Hn]. destruct (Hl p) as (s & E & Ht); [by left|]. safe_go.
  destruct (tracker_client w p s H E Ht) as (q & c & Hq & Hne & Ec & Hlc & Hpc & _).
  pose proof (inv_sock _ _ (wf_inv _ H) _ _ E) as Hok. unfold sock_ok in Hok. rewrite Ht in Hok.
  destruct (tk_tracker _ Hok) as [tr Htr]. eapply safe_wp_bind, wp_lift; [by rewrite Htr|].
  apply safe_wp_bind, wp_transports_text; [done|]. intros as' Has'. rewrite (loaded_inj w as' as_ Has' Has).
  eapply safe_bind, safe_mono; [by apply (safe_tracker_send p s q c)|]. intros r w1 Hsent.
  destruct (sent_stream _ _ _ _ _ Hsent) as (c1 & Hs1 & Hal & Hst & Hk). destruct Hsent as [H1 Htp _].
  eapply safe_mono; [apply IH; [apply H1|by eapply evolves_listed; [apply H1|]|done| |by eapply fds_distinct_sent|]|].
  - intros a Ha. destruct (Hl a) as (sa & Ea & Hta); [by right|].
    destruct (alike_lookup _ _ _ _ (nt_alike _ _ H1) Ea) as (sa' & Ea' & [He _ _ _ _ _]).
    exists sa'. split; [done|]. unfold is_tracker. by rewrite He.
  - unfold loaded. rewrite Htp, (sl_transports _ _ (ev_lists _ _ _ (nt_evolves _ _ H1))). exact Has.
  - intros [] w2 [Ht2 Hsp2]. eapply (tells_step as_ p q c l w w1 w2); try done. exists c1. split_and!; try done.
    intros s0 tr0 E0 Htr0. by simplify_eq.
Qed.
End trackers.
