(* ===== verification/Listeners.v ===== *)
(** * Listeners and the life of a transport: [adb/adb_listeners.cpp], and from
    [adb/transport.cpp] and [adb/adb.cpp] what happens when a transport appears,
    goes offline and disappears

    A listener accepts connections on a local port: for the clients of the
    server itself ("smart sockets"), or to forward them to a service of a
    device.  A forwarding listener lives as long as its transport is online: the
    transport runs its [adisconnect] when it goes offline. *)

From S2P Require Import Prelude State CString LibBase Types AdbIO Packets Transport SocketSpec Env Sockets.
Local Open Scope Z_scope.
Local Open Scope record_scope.

Definition kSmartSocketConnectTo : bytes := str "*smartsocket*".

Inductive InstallStatus :=
| INSTALL_STATUS_OK | INSTALL_STATUS_INTERNAL_ERROR | INSTALL_STATUS_CANNOT_BIND
| INSTALL_STATUS_CANNOT_REBIND | INSTALL_STATUS_LISTENER_NOT_FOUND.

Definition isSmartSocket (l : alistener) : bool := bool_decide (connect_to l = kSmartSocketConnectTo).

(** The first listener that satisfies [f], and the list without it. *)
Fixpoint extract (f : alistener → bool) (l : list alistener) : option (alistener * list alistener) :=
  match l with
  | [] => None
  | x :: l => if f x then Some (x, l)
              else '(y, l) ← extract f l; Some (y, x :: l)
  end.

(** [~alistener]; its descriptor is closed too. *)
Definition destroy_listener (l : alistener) : M unit :=
  match l_transport l with
  | None => mret tt
  | Some t => on_transport t (λ a, Ret (RemoveDisconnect a (l_ptr l)))
  end.

(** ** Disconnecting *)

Definition listener_disconnect (d : nat) : M unit :=
  l ← get listener_list;
  match extract (λ l, bool_decide (l_ptr l = d)) l with
  | None => mret tt
  | Some (l, rest) =>
      _ ← modify (λ w, w <| listener_list := rest |>);
      destroy_listener (l <| l_transport := None |>)
  end.

(** [disconnect->func(disconnect->opaque, this)]: the [adisconnect] is part of
    the listener, so the listener must be alive. *)
Definition run_disconnect (d : nat) : M unit :=
  l ← get listener_list;
  _ ← lift (deref (extract (λ l, bool_decide (l_ptr l = d)) l));
  listener_disconnect d.

Fixpoint run_disconnect_list (ds : list nat) : M unit :=
  match ds with
  | [] => mret tt
  | d :: ds => _ ← run_disconnect d; run_disconnect_list ds
  end.

(** [t->RunDisconnects()] *)
Definition run_disconnects (t : Z) : M unit :=
  a ← load_transport t;
  _ ← run_disconnect_list (disconnects_ a);
  on_transport t (λ a, Ret (snd (RunDisconnects a))).

(** ** The list of listeners *)

Fixpoint format_list (l : list alistener) : M bytes :=
  match l with
  | [] => mret []
  | l :: ls =>
      if isSmartSocket l then format_list ls
      else
        t ← lift (deref (l_transport l));
        a ← load_transport t;
        rest ← format_list ls;
        mret (c_str (if bool_decide (serial a = []) then str "(reverse)" else serial a)
              ++ str " " ++ c_str (local_name l) ++ str " " ++ c_str (connect_to l) ++ [newline] ++ rest)
  end.

Definition format_listeners : M bytes := l ← get listener_list; format_list l.

Definition remove_listener (name : bytes) : M InstallStatus :=
  l ← get listener_list;
  match extract (λ l, bool_decide (local_name l = name)) l with
  | None => mret INSTALL_STATUS_LISTENER_NOT_FOUND
  | Some (l, rest) =>
      _ ← modify (λ w, w <| listener_list := rest |>);
      _ ← destroy_listener l;
      mret INSTALL_STATUS_OK
  end.

(** Destroys the listeners that [keep] rejects. *)
Fixpoint sweep (keep : alistener → bool) (l : list alistener) : M (list alistener) :=
  match l with
  | [] => mret []
  | l :: ls =>
      if keep l then ls ← sweep keep ls; mret (l :: ls)
      else _ ← destroy_listener l; sweep keep ls
  end.

Definition asterisk : byte := Zbyte 42.

Definition remove_all_listeners : M unit :=
  l ← get listener_list;
  l ← sweep (λ l, bool_decide (head (connect_to l) = Some asterisk)) l;
  modify (λ w, w <| listener_list := l |>).

Definition enable_server_sockets : M unit :=
  modify (λ w, w <| listener_list ::= fmap (λ l, if isSmartSocket l then l <| l_read := true |> else l) |>).

Definition close_smartsockets : M unit :=
  l ← get listener_list;
  l ← sweep (λ l, negb (isSmartSocket l)) l;
  modify (λ w, w <| listener_list := l |>).

Section install.
Context `{!Env}.

Definition socket_spec_listen (spec : bytes) : outcome (bytes + Z) :=
  r ← listen_destination gListenAll spec [NUL];
  Ret (match r with inl e => inl e | inr l => bind_socket l end).

(** Changes the listener at address [d]. *)
Definition retarget (d : nat) (f : alistener → alistener) (l : list alistener) : list alistener :=
  (λ l, if bool_decide (l_ptr l = d) then f l else l) <$> l.

Definition set_listener (d : nat) (f : alistener → alistener) : M unit :=
  modify (λ w, w <| listener_list ::= retarget d f |>).

Definition set_disconnect (t : option Z) (f : atransport → atransport) : M unit :=
  t ← lift (deref t); on_transport t (λ a, Ret (f a)).

(** Status, resolved port and error. *)
Definition install_listener (name target : bytes) (t : option Z) (no_rebind disabled : bool)
  : M (InstallStatus * Z * bytes) :=
  l ← get listener_list;
  match extract (λ l, bool_decide (local_name l = name)) l with
  | Some (l, _) =>
      if isSmartSocket l then
        mret (INSTALL_STATUS_INTERNAL_ERROR, 0, str "cannot repurpose smartsocket")
      else if no_rebind then mret (INSTALL_STATUS_CANNOT_REBIND, 0, str "cannot rebind")
      else
        _ ← set_listener (l_ptr l) (λ l, l <| connect_to := target |>);
        _ ← (if bool_decide (l_transport l = t) then mret tt
             else
               _ ← set_disconnect (l_transport l) (λ a, RemoveDisconnect a (l_ptr l));
               _ ← set_listener (l_ptr l) (λ l, l <| l_transport := t |>);
               set_disconnect t (λ a, AddDisconnect a (l_ptr l)));
        mret (INSTALL_STATUS_OK, 0, [])
  | None =>
      r ← lift (socket_spec_listen name);
      match r with
      | inl e => mret (INSTALL_STATUS_CANNOT_BIND, 0, e)
      | inr resolved =>
          d ← get next_listener;
          n ← get next_fd;
          let name := if resolved =? 0 then name else str "tcp:" ++ print_d resolved in
          let smart := bool_decide (target = kSmartSocketConnectTo) in
          _ ← modify (λ w, w <| next_listener := S d |> <| next_fd := n + 1 |>);
          _ ← (match t with
               | None => mret tt
               | Some t => on_transport t (λ a, Ret (AddDisconnect a d))
               end);
          _ ← modify (λ w, w <| listener_list ::= λ l,
                 l ++ [Listener d n smart (negb disabled) name target t] |>);
          mret (INSTALL_STATUS_OK, resolved, [])
      end
  end.
End install.

Section transports.
Context (junk : nat → byte) `{!Env} (enqueue : nat → Block.t → M Z).

(** ** Going offline: [adb.cpp] *)

Definition handle_offline (t : Z) : M unit :=
  a ← load_transport t;
  if bool_decide (connection_state_ a = kCsOffline) then mret tt
  else
    _ ← set_connection_state junk enqueue t kCsOffline;
    _ ← on_transport t (λ a, Ret (a <| online := false |>));
    _ ← close_all_sockets junk t;
    run_disconnects t.

(** ** Connections to a listener; [None] when [accept] fails *)

Definition ss_listener_event_func (conn : option (instream * outstream)) : M unit :=
  match conn with
  | None => mret tt
  | Some d =>
      p ← socket_on d;
      connect_to_smartsocket junk enqueue p
  end.

Definition listener_event_func (l : alistener) (conn : option (instream * outstream)) : M unit :=
  match conn with
  | None => mret tt
  | Some d =>
      p ← socket_on d;
      _ ← store p (λ s, s <| transport := l_transport l |>);
      connect_to_remote junk p (connect_to l)
  end.

(** ** New transports *)

Definition new_transport (state : ConnectionState) : M Z := λ w,
  let t := next_transport_id w in
  Ret (t, w <| transports ::= <[t := new_atransport t state]> |> <| next_transport_id := t + 1 |>).

(** A new transport, and the assignments [f] to its fields. *)
Definition make_transport (state : ConnectionState) (f : atransport → atransport) : M Z :=
  t ← new_transport state; _ ← on_transport t (λ a, Ret (f a)); mret t.

(** [delete t] *)
Definition delete_transport (t : Z) : M unit := λ w,
  _ ← deref (transports w !! t); Ret (tt, w <| transports ::= delete t |>).

(** Whether no transport in the list has the serial. *)
Definition validate_transport_list (l : list Z) (serial_ : bytes) : M bool :=
  as_ ← load_all l; mret (forallb (λ a, negb (bool_decide (serial_ = serial a))) as_).

(** The part of [register_socket_transport] before it waits: the transport is
    pending, and the task that starts it is posted.  [None] when it is refused. *)
Definition register_socket_transport (serial_ : bytes) (port : Z) (local use_tls_ : bool) : M (option Z) :=
  t ← make_transport kCsOffline (λ a,
        a <| use_tls := use_tls_ |> <| serial := serial_ |> <| type := kTransportLocal |>);
  known ← get (λ w, local_transports w !! port);
  if local && bool_decide (is_Some known) then _ ← delete_transport t; mret None
  else
    _ ← (if local then modify (λ w, w <| local_transports ::= <[port := t]> |>) else mret tt);
    pending ← get pending_list;
    ok ← validate_transport_list pending serial_;
    if negb ok then _ ← delete_transport t; mret None
    else
      listed ← get transport_list;
      ok ← validate_transport_list listed serial_;
      if negb ok then _ ← delete_transport t; mret None
      else _ ← modify (λ w, w <| pending_list ::= cons t |>); mret (Some t).

Definition register_usb_transport (serial_ devpath_ : bytes) (writeable : bool) : M Z :=
  t ← make_transport (if writeable then kCsOffline else kCsNoPerm) (λ a,
        a <| serial := serial_ |> <| devpath := devpath_ |> <| type := kTransportUsb |>);
  _ ← modify (λ w, w <| pending_list ::= cons t |>);
  mret t.

Definition fdevent_register_transport (t : Z) : M unit :=
  a ← load_transport t;
  _ ← (if bool_decide (connection_state_ a = kCsNoPerm) then mret tt
       else if bool_decide (type a = kTransportUsb) && usb_devices_start_detached then
         set_connection_state junk enqueue t kCsDetached
       else
         _ ← on_transport t (λ a, Ret (a <| starts ::= S |>));
         on_transport t (send_connect junk env adb_device_banner));
  pending ← get pending_list;
  _ ← (if bool_decide (t ∈ pending) then
         modify (λ w, w <| pending_list ::= filter (λ x, x ≠ t) |> <| transport_list ::= cons t |>)
       else mret tt);
  update_transports junk enqueue.

Definition fdevent_unregister_transport (t : Z) : M unit :=
  _ ← load_transport t;
  _ ← modify (λ w, w <| transport_list ::= filter (λ x, x ≠ t) |>);
  _ ← delete_transport t;
  update_transports junk enqueue.

(** ** Kicking *)

Definition kick_or_reset (reset : bool) (t : Z) : M unit :=
  on_transport t (λ a, Ret (if reset then Reset a else Kick a)).

Definition kick_transport (t : Z) (reset : bool) : M unit :=
  l ← get transport_list;
  if bool_decide (t ∈ l) then kick_or_reset reset t else mret tt.

(** Kicks or resets every transport of the list that [fn] chooses. *)
Fixpoint kick_each (fn : atransport → bool) (reset : bool) (l : list Z) : M unit :=
  match l with
  | [] => mret tt
  | t :: l =>
      a ← load_transport t;
      _ ← (if fn a then kick_or_reset reset t else mret tt);
      kick_each fn reset l
  end.

Definition close_usb_devices (predicate : atransport → bool) (reset : bool) : M unit :=
  l ← get transport_list; kick_each predicate reset l.

Definition kick_all_tcp_devices : M unit := l ← get transport_list; kick_each IsTcpDevice false l.

Definition kick_all_tcp_tls_transports : M unit :=
  l ← get transport_list; kick_each (λ a, IsTcpDevice a && use_tls a) false l.

Definition kick_all_transports : M unit := l ← get transport_list; kick_each (λ _, true) false l.
End transports.
