(* ===== verification/ServerInv.v ===== *)
(** * The invariant of the server's main thread

    On top of the invariant [wf] of the sockets: a transport that is offline
    carries no sockets and no listeners, and takes no new ones; the lists of
    transports hold live objects; transports and listeners know each other.
    [server_inv (Some t)] leaves out what follows from [t] being offline: it
    holds while [t] is on the way there. *)

From S2P Require Import Prelude State CString LibBase Types TypesFacts AdbIO AdbIOFacts Packets.
From S2P Require Import PacketsFacts Nonblocking Transport TransportFacts HostService SocketSpec.
From S2P Require Import Env Sockets SocketsWp SocketsInv SocketsIO SocketsSafe SocketsFrame.
From S2P Require Import TrackersFacts Listeners.
Local Open Scope Z_scope.
Local Open Scope record_scope.

Record quiet (y : option Z) (w : world) (t : Z) (a : atransport) : Prop := {
  qu_id : id a = t;
  qu_max : 0 ≤ max_payload a;
  qu_names : (NUL ∉ product a) ∧ (NUL ∉ device a);
  qu_offline : Some t ≠ y → connection_state_ a = kCsOffline → online a = false ∧ unused t w
}.

Record listener_ok (y : option Z) (w : world) (l : alistener) : Prop := {
  lk_ptr : (l_ptr l < next_listener w)%nat;
  lk_smart : l_smart l = isSmartSocket l;
  lk_transport : if isSmartSocket l then l_transport l = None
    else ∃ t a, l_transport l = Some t ∧ transports w !! t = Some a ∧
           (Some t ≠ y → connection_state_ a ≠ kCsOffline)
}.

Record server_inv (y : option Z) (w : world) : Prop := {
  sv_wf : wf w;
  sv_quiet : ∀ t a, transports w !! t = Some a → quiet y w t a;
  sv_next : ∀ t, is_Some (transports w !! t) → t < next_transport_id w;
  sv_ids : 0 ≤ local_socket_next_id w < 2 ^ 32;
  sv_listed : listed w;
  sv_listeners : ∀ l, l ∈ listener_list w → listener_ok y w l;
  sv_ptrs : NoDup (l_ptr <$> listener_list w);
  sv_disconnects : ∀ t a, transports w !! t = Some a → NoDup (disconnects_ a) ∧
    ∀ d, d ∈ disconnects_ a ↔ ∃ l, l ∈ listener_list w ∧ l_ptr l = d ∧ l_transport l = Some t
}.

Abbreviation server_ok := (server_inv None).

(** ** Steps that preserve it *)

Lemma evolves_alive x w w' t : evolves x w w' → is_Some (transports w !! t) → is_Some (transports w' !! t).
Proof. intros [T _ _ _] [a E]. specialize (T t). rewrite E in T. inversion T; subst. eauto. Qed.

Lemma evolves_lookup x w w' t a :
  evolves x w w' → transports w !! t = Some a → ∃ a', transports w' !! t = Some a' ∧ tlike a a'.
Proof. intros [T _ _ _] E. specialize (T t). rewrite E in T. inversion T; subst. eauto. Qed.

Lemma evolves_lookup_back x w w' t a' :
  evolves x w w' → transports w' !! t = Some a' → ∃ a, transports w !! t = Some a ∧ tlike a a'.
Proof. intros [T _ _ _] E. specialize (T t). rewrite E in T. inversion T; subst. eauto. Qed.

(** Socket code preserves it; it binds sockets to transports that are not offline. *)
Lemma evolves_server x y w w' :
  server_inv y w → wf w' → evolves x w w' →
  (∀ t a, x = Some t → transports w !! t = Some a → Some t ≠ y → connection_state_ a ≠ kCsOffline) →
  server_inv y w'.
Proof.
  intros [_ Hq Hn Hi Hl Hk Hpt Hd] Hwf Hev Hx. pose proof (ev_lists _ _ _ Hev) as [L1 L2 L3 L4 L5].
  split; [done| | |by apply Hev|by eapply evolves_listed| |by rewrite L3|].
  - intros t a' E'. destruct (evolves_lookup_back _ _ _ _ _ Hev E') as (a & E & [Eid Es Eo Em [Ep Ed] _]).
    destruct (Hq t a E) as [H1 H2 H3 H4]. constructor; [congruence|by rewrite Em|by rewrite Ep, Ed|].
    intros Hy. rewrite Es, Eo. intros Hoff. destruct (H4 Hy Hoff) as [Hon Hun]. split; [done|].
    apply (ev_unused _ _ _ Hev); [|done]. intros Hxt. by apply (Hx t a).
  - intros t [a' E']. destruct (evolves_lookup_back _ _ _ _ _ Hev E') as (a & E & _). rewrite L5. eauto.
  - intros l. rewrite L3. intros Hin. destruct (Hk l Hin) as [K1 K2 K3]. constructor; [by rewrite L4|done|].
    destruct (isSmartSocket l); [done|]. destruct K3 as (t & a & Ht & E & Hs).
    destruct (evolves_lookup _ _ _ _ _ Hev E) as (a' & E' & [_ Es _ _ _ _]). exists t, a'.
    split_and!; [done..|]. by rewrite Es.
  - intros t a' E'. destruct (evolves_lookup_back _ _ _ _ _ Hev E') as (a & E & [_ _ _ _ _ Ed]).
    rewrite Ed, L3. by apply Hd.
Qed.

Lemma notified_server y w w' : server_inv y w → notified w w' → server_inv y w'.
Proof. intros H Hn. eapply evolves_server; [done|apply Hn|apply Hn|done]. Qed.

(** A change of one transport. *)
Lemma server_set_transport y t a a' w :
  server_inv y w → transports w !! t = Some a → disconnects_ a' = disconnects_ a → quiet y w t a' →
  (Some t ≠ y → connection_state_ a' = kCsOffline → connection_state_ a = kCsOffline) →
  server_inv y (w <| transports ::= <[t := a']> |>).
Proof.
  intros [Hw Hq Hn Hi Hl Hk Hpt Hd] E Hda Ha Hs. split; rec_simpl; try done.
  - by apply wf_transports.
  - intros t' b [[<- <-]|[_ Eb]]%lookup_insert_Some; [by destruct Ha|]. by destruct (Hq t' b Eb).
  - intros t' [b [[<- <-]|[_ Eb]]%lookup_insert_Some]; apply Hn; eauto.
  - intros t' Ht'. rec_simpl. destruct (decide (t = t')) as [<-|]; [rewrite lookup_insert_eq; eauto|].
    rewrite lookup_insert_ne by done. by apply Hl.
  - intros l Hin. destruct (Hk l Hin) as [K1 K2 K3]. constructor; [done..|].
    destruct (isSmartSocket l); [done|]. destruct K3 as (t' & b & Ht & Eb & Hb). rec_simpl.
    destruct (decide (t = t')) as [<-|].
    + exists t, a'. rewrite lookup_insert_eq. split_and!; [done..|]. intros Hy Hoff. simplify_eq.
      by apply Hb, Hs.
    + exists t', b. by rewrite lookup_insert_ne.
  - intros t' b [[<- <-]|[_ Eb]]%lookup_insert_Some; [rewrite Hda|]; by apply Hd.
Qed.

Lemma server_open_hole t w : server_ok w → server_inv (Some t) w.
Proof.
  intros [Hw Hq Hn Hi Hl Hk Hpt Hd]. split; try done.
  - intros t' a E. destruct (Hq t' a E) as [? ? ? Ho]. constructor; try done. intros _. by apply Ho.
  - intros l Hin. destruct (Hk l Hin) as [? ? K]. constructor; try done.
    destruct (isSmartSocket l); [done|]. destruct K as (t' & a & ? & ? & Hs). exists t', a.
    split_and!; [done..|]. intros _. by apply Hs.
Qed.

(** [t] is offline, with nothing left on it, or it is not offline. *)
Lemma server_close_hole t w :
  server_inv (Some t) w →
  (∀ a, transports w !! t = Some a → connection_state_ a = kCsOffline →
     online a = false ∧ unused t w ∧ disconnects_ a = []) →
  server_ok w.
Proof.
  intros [Hw Hq Hn Hi Hl Hk Hpt Hd] Hc. split; try done.
  - intros t' a E. destruct (Hq t' a E) as [? ? ? Ho]. constructor; try done. intros _ Hoff.
    destruct (decide (t' = t)) as [->|]; [by destruct (Hc a E Hoff) as (? & ? & _)|]. apply Ho; [congruence|done].
  - intros l Hin. destruct (Hk l Hin) as [? ? K]. constructor; try done.
    destruct (isSmartSocket l); [done|]. destruct K as (t' & a & Ht & E & Hs). exists t', a.
    split_and!; [done..|]. intros _ Hoff. destruct (decide (t' = t)) as [->|]; [|apply Hs; congruence].
    destruct (Hc a E Hoff) as (_ & _ & Hnil). destruct (Hd t a E) as [_ Hd'].
    apply (not_elem_of_nil (l_ptr l)). rewrite <- Hnil. apply Hd'. eauto.
Qed.

(** What runs safely and keeps the transports preserves the invariant. *)
Lemma safe_evolves {A} x (m : M A) (Q : A → world → Prop) w :
  keeps x m → safe m Q w → safe m (λ a w', Q a w' ∧ evolves x w w') w.
Proof.
  intros Hk. unfold safe. destruct (m w) as [[a w']| | |] eqn:E; [|done..]. intros HQ. split; [done|by eapply Hk].
Qed.

Lemma wp_evolves {A} x (m : M A) (Q : A → world → Prop) w :
  keeps x m → wp m Q w → wp m (λ a w', Q a w' ∧ evolves x w w') w.
Proof.
  intros Hk. unfold wp. destruct (m w) as [[a w']| | |] eqn:E; [|done..]. intros HQ. split; [done|by eapply Hk].
Qed.

(** ** Changing the listeners *)

(** Transports that differ in what [tlike] compares in their [adisconnect]s only. *)
Record tnear (a a' : atransport) : Prop := {
  tn_id : id a' = id a;
  tn_state : connection_state_ a' = connection_state_ a;
  tn_online : online a' = online a;
  tn_max : max_payload a' = max_payload a;
  tn_names : product a' = product a ∧ device a' = device a
}.

Lemma tnear_refl a : tnear a a.
Proof. by constructor. Qed.

Lemma server_listeners y w w' :
  server_inv y w → wf w' → sockets w' = sockets w →
  (∀ t, option_Forall2 tnear (transports w !! t) (transports w' !! t)) →
  transport_list w' = transport_list w → pending_list w' = pending_list w →
  next_transport_id w' = next_transport_id w → local_socket_next_id w' = local_socket_next_id w →
  (∀ l, l ∈ listener_list w' → (l_ptr l < next_listener w')%nat ∧ l_smart l = isSmartSocket l ∧
     if isSmartSocket l then l_transport l = None
     else ∃ t a, l_transport l = Some t ∧ transports w !! t = Some a ∧
            (Some t ≠ y → connection_state_ a ≠ kCsOffline)) →
  NoDup (l_ptr <$> listener_list w') →
  (∀ t a, transports w' !! t = Some a → NoDup (disconnects_ a) ∧
    ∀ d, d ∈ disconnects_ a ↔ ∃ l, l ∈ listener_list w' ∧ l_ptr l = d ∧ l_transport l = Some t) →
  server_inv y w'.
Proof.
  intros [Hw Hq Hn Hi Hl Hk Hpt Hd] Hw' Es T L1 L2 L3 L4 Hk' Hpt' Hd'.
  assert (∀ t a', transports w' !! t = Some a' → ∃ a, transports w !! t = Some a ∧ tnear a a') as Hb.
  { intros t a' E. specialize (T t). rewrite E in T. inversion T; subst. eauto. }
  assert (∀ t a, transports w !! t = Some a → ∃ a', transports w' !! t = Some a' ∧ tnear a a') as Hf.
  { intros t a E. specialize (T t). rewrite E in T. inversion T; subst. eauto. }
  split; try done.
  - intros t a' E'. destruct (Hb t a' E') as (a & E & [Eid Est Eo Em [Ep Ed]]).
    destruct (Hq t a E) as [H1 H2 H3 H4]. constructor; [congruence|by rewrite Em|by rewrite Ep, Ed|].
    intros Hy. rewrite Est, Eo. intros Hoff. destruct (H4 Hy Hoff) as [? Hu]. split; [done|].
    unfold unused. by rewrite Es.
  - intros t [a' E']. destruct (Hb t a' E') as (a & E & _). rewrite L3. eauto.
  - by rewrite L4.
  - intros t. rewrite L1, L2. intros Ht. destruct (Hl t Ht) as [a E]. destruct (Hf t a E) as (a' & ? & _). eauto.
  - intros l Hin. destruct (Hk' l Hin) as (K1 & K2 & K3). constructor; [done..|].
    destruct (isSmartSocket l); [done|]. destruct K3 as (t & a & Ht & E & Hst).
    destruct (Hf t a E) as (a' & E' & [_ Est _ _ _]). exists t, a'. split_and!; [done..|]. by rewrite Est.
Qed.
