(* ===== verification/ListenersFacts.v ===== *)
(** * Facts about listeners, and about a transport going offline *)

From S2P Require Import Prelude State CString LibBase Types TypesFacts AdbIO AdbIOFacts Packets.
From S2P Require Import PacketsFacts Nonblocking Transport TransportFacts HostService SocketSpec SocketSpecFacts.
From S2P Require Import Env Sockets SocketsWp SocketsInv SocketsIO SocketsSafe SocketsFrame.
From S2P Require Import TrackersFacts Listeners ServerInv.
Local Open Scope Z_scope.
Local Open Scope record_scope.

(** ** The list of listeners *)

Lemma extract_spec f l :
  match extract f l with
  | Some (x, rest) => ∃ l1 l2, l = l1 ++ x :: l2 ∧ rest = l1 ++ l2 ∧ f x = true ∧
      Forall (λ y, f y = false) l1
  | None => Forall (λ y, f y = false) l
  end.
Proof.
  induction l as [|x l IH]; cbn [extract]; [done|]. destruct (f x) eqn:Hf.
  { by exists [], l. }
  destruct (extract f l) as [[y rest]|]; cbn; [|by constructor].
  destruct IH as (l1 & l2 & -> & -> & Hy & H1). exists (x :: l1), l2. split_and!; try done. by constructor.
Qed.

Lemma filter_all {A} (P : A → Prop) `{∀ x, Decision (P x)} (l : list A) : (∀ x, x ∈ l → P x) → filter P l = l.
Proof.
  induction l as [|x l IH]; intros Hl; [done|]. rewrite filter_cons_True by (apply Hl; by left).
  f_equal. apply IH. intros. apply Hl. by right.
Qed.

(** The listener at an address. *)
Lemma extract_ptr d l x :
  NoDup (l_ptr <$> l) → x ∈ l → l_ptr x = d →
  extract (λ l, bool_decide (l_ptr l = d)) l = Some (x, filter (λ l, l_ptr l ≠ d) l).
Proof.
  intros Hnd Hx Hd. induction l as [|y l IH]; [by apply not_elem_of_nil in Hx|]. cbn in Hnd.
  apply NoDup_cons in Hnd as [Hy Hnd]. cbn [extract]. case_bool_decide as Hyd.
  - apply elem_of_cons in Hx as [->|Hx].
    + rewrite filter_cons_False by naive_solver. rewrite filter_all; [done|].
      intros z Hz Hzd. apply Hy. rewrite Hyd, <- Hzd. by apply list_elem_of_fmap_2.
    + destruct Hy. rewrite Hyd, <- Hd. by apply list_elem_of_fmap_2.
  - apply elem_of_cons in Hx as [->|Hx]; [done|]. rewrite IH by done. by rewrite filter_cons_True by done.
Qed.

(** ** Removing a listener *)

(** The world with the listeners [l]. *)
Abbreviation with_listeners w l := (w <| listener_list := l |>).

Lemma wf_listeners l w : wf w → wf (with_listeners w l).
Proof. intros [[] ?]. by split; [constructor|]. Qed.

Lemma destroy_state l1 x l2 y w :
  server_inv y (with_listeners w (l1 ++ x :: l2)) →
  match l_transport x with
  | None => server_inv y (with_listeners w (l1 ++ l2))
  | Some t => ∃ a, transports w !! t = Some a ∧
      server_inv y (with_listeners (w <| transports ::= <[t := RemoveDisconnect a (l_ptr x)]> |>) (l1 ++ l2))
  end.
Proof.
  intros H. pose proof H as [Hw Hq Hn Hi Hl Hk Hpt Hd]. revert Hk Hpt Hd. rec_simpl. intros Hk Hpt Hd.
  assert (∀ l, l ∈ l1 ++ l2 → l ∈ l1 ++ x :: l2) as Hsub by set_solver.
  assert (NoDup (l_ptr <$> l1 ++ l2) ∧ l_ptr x ∉ l_ptr <$> l1 ++ l2) as [Hnd Hx].
  { rewrite fmap_app, fmap_cons, NoDup_app, NoDup_cons in Hpt. rewrite fmap_app, NoDup_app. set_solver. }
  assert (∀ l, l ∈ l1 ++ l2 → l_ptr l ≠ l_ptr x) as Hne.
  { intros l Hin Heq. apply Hx. rewrite <- Heq. by apply list_elem_of_fmap_2. }
  assert (∀ l, l ∈ l1 ++ x :: l2 → l = x ∨ l ∈ l1 ++ l2) as Hsup by set_solver.
  assert (wf (with_listeners w (l1 ++ l2))) as Hw' by exact (wf_listeners (l1 ++ l2) _ Hw).
  assert (∀ l, l ∈ l1 ++ l2 → (l_ptr l < next_listener w)%nat ∧ l_smart l = isSmartSocket l ∧
     if isSmartSocket l then l_transport l = None
     else ∃ t a, l_transport l = Some t ∧ transports w !! t = Some a ∧
            (Some t ≠ y → connection_state_ a ≠ kCsOffline)) as Hk'.
  { intros l Hin. by destruct (Hk l (Hsub l Hin)) as [? ? ?]. }
  destruct (l_transport x) as [t|] eqn:Ht.
  2:{ eapply (server_listeners y _ _ H); rec_simpl; try done.
      - intros t. destruct (transports w !! t); by constructor.
      - intros t a E. destruct (Hd t a E) as [? Hdd]. split; [done|]. intros d. rewrite Hdd. split.
        + intros (l & Hin & ? & ?). exists l. destruct (Hsup l Hin) as [->|]; [congruence|done].
        + intros (l & Hin & ?). eauto. }
  assert (∃ a, transports w !! t = Some a) as [a Ea].
  { destruct (Hk x) as [_ _ K]; [set_solver|]. destruct (isSmartSocket x); [congruence|].
    destruct K as (t' & a & ? & ? & _). simplify_eq. eauto. }
  exists a. split; [done|]. eapply (server_listeners y _ _ H); rec_simpl; try done.
  - exact (wf_transports t (RemoveDisconnect a (l_ptr x)) _ Hw').
  - intros t'. destruct (decide (t = t')) as [<-|].
    + rewrite lookup_insert_eq, Ea. by constructor.
    + rewrite lookup_insert_ne by done. destruct (transports w !! t'); by constructor.
  - intros t' b [[<- <-]|[Htt Eb]]%lookup_insert_Some.
    + destruct (Hd t a Ea) as [Hnda Hdd]. split; [by apply NoDup_filter|].
      intros d. cbn. rewrite list_elem_of_filter, Hdd. split.
      * intros [Hdx (l & Hin & Hp & Hlt)]. exists l. destruct (Hsup l Hin) as [->|]; [congruence|done].
      * intros (l & Hin & <- & Hlt). split; [by apply Hne|]. eauto.
    + destruct (Hd t' b Eb) as [? Hdd]. split; [done|]. intros d. rewrite Hdd. split.
      * intros (l & Hin & ? & ?). exists l. destruct (Hsup l Hin) as [->|]; [congruence|done].
      * intros (l & Hin & ?). eauto.
Qed.

Lemma with_listeners_id w l : listener_list w = l → with_listeners w l = w.
Proof. intros <-. by destruct w. Qed.

(** What operations on listeners leave alone. *)
Definition same_sockets (w w' : world) : Prop := sockets w' = sockets w ∧ fds w' = fds w.

Lemma wp_destroy_listener l1 x l2 y w :
  server_inv y (with_listeners w (l1 ++ x :: l2)) →
  wp (destroy_listener x) (λ _ w', server_inv y (with_listeners w' (l1 ++ l2)) ∧
    listener_list w' = listener_list w ∧ same_sockets w w') w.
Proof.
  intros H. pose proof (destroy_state l1 x l2 y w H) as Hs. unfold destroy_listener.
  destruct (l_transport x) as [t|]; wp_go; [|done]. destruct Hs as (a & Ea & Hs).
  by eapply wp_on_transport.
Qed.

Lemma wp_remove_listener name y w :
  server_inv y w → wp (remove_listener name) (λ _ w', server_inv y w' ∧ same_sockets w w') w.
Proof.
  intros H. unfold remove_listener. wp_go.
  pose proof (extract_spec (λ l, bool_decide (local_name l = name)) (listener_list w)) as He.
  destruct (extract _ _) as [[x rest]|]; wp_go; [|done]. destruct He as (l1 & l2 & El & -> & _).
  eapply wp_mono; [apply (wp_destroy_listener l1 x l2 y (with_listeners w (l1 ++ l2)))|].
  { assert (with_listeners (with_listeners w (l1 ++ l2)) (l1 ++ x :: l2) = w) as ->; [|done].
    rewrite <- El. by destruct w. }
  intros [] w' (Hw' & Hl & Hs). wp_go. split; [|done]. by rewrite with_listeners_id in Hw'.
Qed.

Lemma wp_sweep keep y ls : ∀ pre w,
  server_inv y (with_listeners w (pre ++ ls)) →
  wp (sweep keep ls) (λ kept w', server_inv y (with_listeners w' (pre ++ kept)) ∧ same_sockets w w') w.
Proof.
  induction ls as [|l ls IH]; intros pre w H; cbn [sweep]; [by wp_go|]. destruct (keep l); wp_go.
  - eapply wp_mono; [apply (IH (pre ++ [l])); by rewrite <- app_assoc|].
    intros kept w' [Hw' Hs]. wp_go. by rewrite <- app_assoc in Hw'.
  - eapply wp_mono; [by apply (wp_destroy_listener pre l ls y)|]. intros [] w1 (H1 & _ & Hs1).
    eapply wp_mono; [by apply (IH pre)|]. intros kept w' [Hw' Hs]. split; [done|].
    destruct Hs1, Hs. split; congruence.
Qed.

(** [remove_all_listeners] and [close_smartsockets]. *)
Lemma wp_sweep_all keep y w :
  server_inv y w →
  wp (l ← get listener_list; l ← sweep keep l; modify (λ w, w <| listener_list := l |>))
     (λ _ w', server_inv y w' ∧ same_sockets w w') w.
Proof.
  intros H. wp_go. eapply wp_mono; [apply (wp_sweep keep y _ []); by rewrite with_listeners_id|].
  intros kept w' [Hw' Hs]. wp_go. done.
Qed.

Lemma wp_format_list ls y w :
  (∀ l, l ∈ ls → listener_ok y w l) → wp (format_list ls) (λ _ w', w' = w) w.
Proof.
  induction ls as [|l ls IH]; intros H; cbn [format_list]; [by wp_go|].
  destruct (H l) as [_ _ K]; [by left|]. destruct (isSmartSocket l); [apply IH; intros; apply H; by right|].
  destruct K as (t & a & Ht & Ea & _). wp_go. eapply wp_lift; [by rewrite Ht|]. wp_go.
  eapply wp_mono; [apply IH; intros; apply H; by right|]. intros text w' ->. by wp_go.
Qed.

Lemma wp_format_listeners y w : server_inv y w → wp format_listeners (λ _ w', w' = w) w.
Proof. intros H. unfold format_listeners. wp_go. eapply wp_format_list. apply H. Qed.

(** ** Running the disconnects *)

Lemma ptr_inj (l : list alistener) x y :
  NoDup (l_ptr <$> l) → x ∈ l → y ∈ l → l_ptr x = l_ptr y → x = y.
Proof.
  induction l as [|z l IH]; [by intros _ ?%not_elem_of_nil|]. cbn. intros [Hz Hl]%NoDup_cons.
  intros [->|Hx]%elem_of_cons [->|Hy]%elem_of_cons E; [done|..|by apply IH].
  - destruct Hz. rewrite E. by apply list_elem_of_fmap_2.
  - destruct Hz. rewrite <- E. by apply list_elem_of_fmap_2.
Qed.

Lemma wp_run_disconnect_list ds : ∀ w,
  NoDup ds → NoDup (l_ptr <$> listener_list w) →
  (∀ d, d ∈ ds → ∃ l, l ∈ listener_list w ∧ l_ptr l = d) →
  wp (run_disconnect_list ds)
     (λ _ w', w' = with_listeners w (filter (λ l, l_ptr l ∉ ds) (listener_list w))) w.
Proof.
  induction ds as [|d ds IH]; intros w Hds Hnd Hl; cbn [run_disconnect_list].
  { wp_go. rewrite with_listeners_id; [done|]. symmetry. apply filter_all. intros x _. set_solver. }
  apply NoDup_cons in Hds as [Hd Hds]. destruct (Hl d) as (x & Hx & Hxd); [by left|].
  unfold run_disconnect, listener_disconnect. wp_go. eapply wp_lift; [by rewrite (extract_ptr d _ x)|]. wp_go.
  rewrite (extract_ptr d _ x) by done. unfold destroy_listener. wp_go. rec_simpl. wp_go.
  eapply wp_mono; [apply IH; [done|..]|].
  - eapply sublist_NoDup; [exact Hnd|]. apply fmap_sublist. apply sublist_filter.
  - intros d' Hd'. destruct (Hl d') as (z & Hz & Hzd); [by right|]. exists z. split; [|done].
    rec_simpl. apply list_elem_of_filter. split; [|done]. intros Hzd'. apply Hd. congruence.
  - intros [] w' ->. rec_simpl. rewrite list_filter_filter.
    assert (filter (λ l, (l_ptr l ∉ ds) ∧ l_ptr l ≠ d) (listener_list w) =
            filter (λ l, l_ptr l ∉ d :: ds) (listener_list w)) as ->; [|done].
    apply list_filter_iff. intros z. rewrite not_elem_of_cons. tauto.
Qed.

(** After the disconnects of [t] no listener is left on it. *)
Lemma wp_run_disconnects t a w :
  server_inv (Some t) w → transports w !! t = Some a →
  wp (run_disconnects t) (λ _ w', server_inv (Some t) w' ∧ same_sockets w w' ∧
        ∃ a', transports w' !! t = Some a' ∧ tnear a a' ∧ disconnects_ a' = []) w.
Proof.
  intros H E. pose proof H as [Hw Hq Hn Hi Hl Hk Hpt Hd]. destruct (Hd t a E) as [Hnd Hdd].
  unfold run_disconnects. wp_go. eapply wp_mono; [apply wp_run_disconnect_list; [done..|]|].
  { intros d Hin. apply Hdd in Hin as (l & ? & ? & _). eauto. }
  intros [] w' ->. eapply wp_on_transport; [exact E|done|].
  set (ls := filter _ (listener_list w)). set (a' := snd (RunDisconnects a)).
  assert (∀ l, l ∈ ls ↔ l ∈ listener_list w ∧ l_transport l ≠ Some t) as Hls.
  { intros l. unfold ls. rewrite list_elem_of_filter, Hdd. split.
    - intros [Hno Hin]. split; [done|]. intros Ht. apply Hno. eauto.
    - intros [Hin Ht]. split; [|done]. intros (l' & Hin' & Hp & Ht'). apply Ht.
      by rewrite (ptr_inj _ l l' Hpt Hin Hin' (eq_sym Hp)). }
  split_and!; [|done..|].
  2:{ exists a'. rec_simpl. rewrite lookup_insert_eq. done. }
  eapply (server_listeners (Some t) w _ H); rec_simpl; try done.
  - exact (wf_transports t a' _ (wf_listeners ls _ Hw)).
  - intros t'. destruct (decide (t = t')) as [<-|].
    + rewrite lookup_insert_eq, E. by constructor.
    + rewrite lookup_insert_ne by done. destruct (transports w !! t'); by constructor.
  - intros l [Hin _]%Hls. by destruct (Hk l Hin).
  - eapply sublist_NoDup; [exact Hpt|]. apply fmap_sublist, sublist_filter.
  - intros t' b [[<- <-]|[Hne Eb]]%lookup_insert_Some.
    + split; [constructor|]. intros d. split; [by intros ?%elem_of_nil|].
      intros (l & [_ Hno]%Hls & _ & Ht). done.
    + destruct (Hd t' b Eb) as [Hndb Hdb]. split; [done|]. intros d. rewrite Hdb. split.
      * intros (l & Hin & Hp & Ht). exists l. split_and!; [|done..]. apply Hls. split; [done|congruence].
      * intros (l & [Hin _]%Hls & ?). eauto.
Qed.

(** ** Installing a listener *)

Lemma retarget_ptrs d f l : (∀ x, l_ptr (f x) = l_ptr x) → l_ptr <$> retarget d f l = l_ptr <$> l.
Proof.
  intros Hf. unfold retarget. rewrite <- list_fmap_compose. apply list_fmap_ext. intros _ x _. cbn.
  by case_bool_decide.
Qed.

Lemma elem_of_retarget d f l x y :
  NoDup (l_ptr <$> l) → x ∈ l → l_ptr x = d →
  y ∈ retarget d f l ↔ y = f x ∨ (y ∈ l ∧ l_ptr y ≠ d).
Proof.
  intros Hnd Hx Hd. unfold retarget. rewrite list_elem_of_fmap. split.
  - intros (z & -> & Hz). case_bool_decide as Hzd; [|by right]. left.
    by rewrite (ptr_inj l x z Hnd Hx Hz) by congruence.
  - intros [->|[Hy Hyd]].
    + exists x. by rewrite bool_decide_true.
    + exists y. by rewrite bool_decide_false.
Qed.

(** A listener that is not a smart socket connects to another service. *)
Lemma server_retarget y l target w :
  server_inv y w → l ∈ listener_list w → isSmartSocket l = false → target ≠ kSmartSocketConnectTo →
  server_inv y (w <| listener_list ::= retarget (l_ptr l) (λ l, l <| connect_to := target |>) |>).
Proof.
  intros H Hin Hns Htg. pose proof H as [Hw Hq Hn Hi Hl Hk Hpt Hd].
  pose proof (λ x, elem_of_retarget (l_ptr l) (λ l, l <| connect_to := target |>) _ l x Hpt Hin eq_refl) as Hel.
  assert (isSmartSocket (l <| connect_to := target |>) = false) as Hns'.
  { unfold isSmartSocket. rec_simpl. by apply bool_decide_eq_false. }
  eapply (server_listeners y w _ H); rec_simpl; try done.
  - exact (wf_listeners _ _ Hw).
  - intros t. destruct (transports w !! t); by constructor.
  - intros x [->|[Hx _]]%Hel; [|by destruct (Hk x Hx)]. destruct (Hk l Hin) as [K1 K2 K3].
    rewrite Hns'. rewrite Hns in K2, K3. done.
  - by rewrite retarget_ptrs.
  - intros t a E. destruct (Hd t a E) as [? Hdd]. split; [done|]. intros d. rewrite Hdd. split.
    + intros (x & Hx & Hp & Ht). destruct (decide (l_ptr x = l_ptr l)) as [Heq|].
      * rewrite (ptr_inj _ x l Hpt Hx Hin Heq) in Hp, Ht. eexists. split; [apply Hel; by left|done].
      * exists x. split; [|done]. apply Hel. by right.
    + intros (x & [->|[Hx _]]%Hel & Hp & Ht); eauto.
Qed.

(** It listens for another transport. *)
Lemma server_move l t a t0 a0 w :
  server_ok w → l ∈ listener_list w → isSmartSocket l = false → l_transport l = Some t0 →
  transports w !! t0 = Some a0 → transports w !! t = Some a → connection_state_ a ≠ kCsOffline → t0 ≠ t →
  server_ok (w <| transports ::= <[t0 := RemoveDisconnect a0 (l_ptr l)]> |>
               <| listener_list ::= retarget (l_ptr l) (λ l, l <| l_transport := Some t |>) |>
               <| transports ::= <[t := AddDisconnect a (l_ptr l)]> |>).
Proof.
  intros H Hin Hns Ht0 E0 E Hs Htt. pose proof H as [Hw Hq Hn Hi Hl Hk Hpt Hd].
  pose proof (λ x, elem_of_retarget (l_ptr l) (λ l, l <| l_transport := Some t |>) _ l x Hpt Hin eq_refl) as Hel.
  assert (∀ x t', x ∈ listener_list w → l_transport x = Some t' → t' ≠ t0 → l_ptr x ≠ l_ptr l) as Hother.
  { intros x t' Hx Hxt Hne Heq. rewrite (ptr_inj _ x l Hpt Hx Hin Heq) in Hxt. congruence. }
  eapply (server_listeners None w _ H); rec_simpl; try done.
  - exact (wf_transports t _ _ (wf_listeners _ _ (wf_transports t0 _ _ Hw))).
  - intros t'. destruct (decide (t = t')) as [<-|]; [rewrite lookup_insert_eq, E; by constructor|].
    rewrite lookup_insert_ne by done. destruct (decide (t0 = t')) as [<-|].
    + rewrite lookup_insert_eq, E0. by constructor.
    + rewrite lookup_insert_ne by done. destruct (transports w !! t'); by constructor.
  - intros x [->|[Hx _]]%Hel; [|by destruct (Hk x Hx)]. destruct (Hk l Hin) as [K1 K2 _].
    change (isSmartSocket (l <| l_transport := Some t |>)) with (isSmartSocket l).
    rewrite Hns in *. split_and!; [done..|]. by exists t, a.
  - by rewrite retarget_ptrs.
  - intros t' b [[<- <-]|[Hne [[<- <-]|[Hne0 Eb]]%lookup_insert_Some]]%lookup_insert_Some.
    + destruct (Hd t a E) as [Hnd Hdd]. assert (l_ptr l ∉ disconnects_ a) as Hfresh.
      { rewrite Hdd. intros (x & Hx & Hp & Ht). by apply (Hother x t). }
      cbn. split.
      * apply NoDup_app. split_and!; [done|set_solver|apply NoDup_singleton].
      * intros d. rewrite elem_of_app, list_elem_of_singleton, Hdd. split.
        { intros [(x & Hx & Hp & Ht)| ->]; [|eexists; split; [apply Hel; by left|done]].
          exists x. split; [|done]. apply Hel. right. split; [done|by apply (Hother x t)]. }
        { intros (x & [->|[Hx _]]%Hel & Hp & Ht); [by right|left; eauto]. }
    + destruct (Hd t0 a0 E0) as [Hnd Hdd]. cbn. split; [by apply NoDup_filter|].
      intros d. rewrite list_elem_of_filter, Hdd. split.
      * intros [Hdl (x & Hx & Hp & Ht)]. exists x. split; [|done]. apply Hel. right. by rewrite Hp.
      * intros (x & [->|[Hx Hxl]]%Hel & Hp & Ht); [cbn in Ht; congruence|]. split; [congruence|eauto].
    + destruct (Hd t' b Eb) as [Hnd Hdd]. split; [done|]. intros d. rewrite Hdd. split.
      * intros (x & Hx & Hp & Ht). exists x. split; [|done]. apply Hel. right.
        split; [done|]. by apply (Hother x t').
      * intros (x & [->|[Hx _]]%Hel & Hp & Ht); [cbn in Ht; congruence|eauto].
Qed.

(** A new listener for [t]. *)
Lemma server_add_listener n read name target t a w :
  server_ok w → target ≠ kSmartSocketConnectTo → transports w !! t = Some a →
  connection_state_ a ≠ kCsOffline →
  server_ok (w <| next_listener := S (next_listener w) |> <| next_fd := n + 1 |>
               <| transports ::= <[t := AddDisconnect a (next_listener w)]> |>
               <| listener_list ::= λ l, l ++ [Listener (next_listener w) n false read name target (Some t)] |>).
Proof.
  intros H Htg E Hs. pose proof H as [Hw Hq Hn Hi Hl Hk Hpt Hd]. set (d := next_listener w).
  set (l := Listener d n false read name target (Some t)).
  assert (∀ x, x ∈ listener_list w → (l_ptr x < d)%nat) as Hlt by (intros x Hx; apply (Hk x Hx)).
  assert (isSmartSocket l = false) as Hns by (by apply bool_decide_eq_false).
  assert (∀ x, x ∈ listener_list w ++ [l] ↔ x ∈ listener_list w ∨ x = l) as Hel.
  { intros x. by rewrite elem_of_app, list_elem_of_singleton. }
  eapply (server_listeners None w _ H); rec_simpl; try done.
  - assert (wf (w <| next_listener := S d |> <| next_fd := n + 1 |>)) as Hw1.
    { destruct Hw as [[] ?]. by split; [constructor|]. }
    exact (wf_listeners _ _ (wf_transports t _ _ Hw1)).
  - intros t'. destruct (decide (t = t')) as [<-|]; [rewrite lookup_insert_eq, E; by constructor|].
    rewrite lookup_insert_ne by done. destruct (transports w !! t'); by constructor.
  - intros x [Hx| ->]%Hel.
    + destruct (Hk x Hx) as [? ? ?]. specialize (Hlt x Hx). split_and!; [lia|done..].
    + rewrite Hns. split_and!; [cbn; lia|done|]. by exists t, a.
  - rewrite fmap_app, NoDup_app. split_and!; [done| |apply NoDup_singleton].
    intros p (x & -> & Hx)%list_elem_of_fmap Hp%list_elem_of_singleton. specialize (Hlt x Hx). cbn in Hp. lia.
  - intros t' b [[<- <-]|[Hne Eb]]%lookup_insert_Some.
    + destruct (Hd t a E) as [Hnd Hdd]. cbn. split.
      * apply NoDup_app. split_and!; [done| |apply NoDup_singleton].
        intros p (x & Hx & <- & _)%Hdd Hp%list_elem_of_singleton. specialize (Hlt x Hx). lia.
      * intros p. rewrite elem_of_app, list_elem_of_singleton, Hdd. setoid_rewrite Hel. split.
        { intros [(x & Hx & ?)| ->]; [eauto|]. exists l. split; [by right|done]. }
        { intros (x & [Hx| ->] & Hp & Ht); [left; eauto|by right]. }
    + destruct (Hd t' b Eb) as [Hnd Hdd]. split; [done|]. intros p. rewrite Hdd. setoid_rewrite Hel. split.
      * intros (x & Hx & ?). eauto.
      * intros (x & [Hx| ->] & Hp & Ht); [eauto|cbn in Ht; congruence].
Qed.

Section install.
Context `{HE : !Env}.

(** A forwarding request for a transport that is not offline. *)
Lemma wp_install_listener name target t a no_rebind disabled w :
  server_ok w → target ≠ kSmartSocketConnectTo → transports w !! t = Some a →
  connection_state_ a ≠ kCsOffline →
  wp (install_listener name target (Some t) no_rebind disabled)
     (λ _ w', server_ok w' ∧ same_sockets w w') w.
Proof.
  intros H Htg E Hs. unfold install_listener. wp_go.
  pose proof (extract_spec (λ l, bool_decide (local_name l = name)) (listener_list w)) as He.
  destruct (extract _ _) as [[l rest]|].
  - destruct He as (l1 & l2 & El & _). assert (l ∈ listener_list w) as Hin by (rewrite El; set_solver).
    destruct (isSmartSocket l) eqn:Hns; [by wp_go|]. destruct no_rebind; [by wp_go|].
    unfold set_listener. wp_go. pose proof (server_retarget None l target w H Hin Hns Htg) as H1.
    case_bool_decide as Ht; wp_go; [done|].
    destruct (sv_listeners _ _ H l Hin) as [_ _ K]. rewrite Hns in K. destruct K as (t0 & a0 & Ht0 & E0 & _).
    unfold set_disconnect. wp_go. eapply wp_lift; [by rewrite Ht0|]. eapply wp_on_transport; [exact E0|done|].
    wp_go. eapply wp_lift; [done|]. eapply wp_on_transport; [|done|].
    { rec_simpl. rewrite lookup_insert_ne by congruence. exact E. }
    wp_go. split; [|done].
    pose (l' := l <| connect_to := target |>). refine (server_move l' t a t0 a0 _ H1 _ _ Ht0 E0 E Hs _); [| |congruence].
    + rec_simpl. rewrite (elem_of_retarget _ _ _ l); [by left|apply H|done|done].
    + by apply bool_decide_eq_false.
  - unfold socket_spec_listen. destruct (listen_destination_total gListenAll name [NUL]) as [r Er].
    { apply elem_of_app. right. by left. }
    wp_go. eapply wp_lift; [by rewrite Er|].
    destruct (match r with inl e => inl e | inr l => bind_socket l end) as [e|resolved]; wp_go; [done|].
    rewrite bool_decide_false by done. eapply wp_on_transport; [exact E|done|]. wp_go. split; [|done].
    by apply server_add_listener.
Qed.
End install.

Lemma tnear_tlike a a' : tlike a a' → tnear a a'.
Proof. by intros [? ? ? ? ? _]; constructor. Qed.

(** ** Going offline *)

Section offline.
Context (junk : nat → byte) `{HE : !Env} (enqueue : nat → Block.t → M Z).
Context `{HL : !LocalEnqueue junk enqueue}.

(** A change of state: the invariant holds but for what follows from [t] being
    offline, and only the clients of trackers notice. *)
Lemma safe_set_state t a state w :
  server_inv (Some t) w → transports w !! t = Some a →
  safe (set_connection_state junk enqueue t state)
    (λ _ w', server_inv (Some t) w' ∧
       notified (w <| transports ::= <[t := SetConnectionState a state]> |>) w') w.
Proof.
  intros H E. unfold set_connection_state. eapply safe_wp_bind, wp_on_transport; [done..|].
  set (w1 := w <| transports ::= _ |>). assert (server_inv (Some t) w1) as H1.
  { eapply server_set_transport; try done. by destruct (sv_quiet _ _ H t a E); constructor. }
  eapply safe_mono; [apply safe_update_transports; [exact _|apply H1..]|]. intros [] w' Hn.
  split; [by eapply notified_server|done].
Qed.

(** The transport is offline, nothing uses it, and sockets that had nothing to
    do with it or with trackers are unchanged. *)
Record gone_offline (t : Z) (a : atransport) (w w' : world) : Prop := {
  go_server : server_ok w';
  go_unused : unused t w';
  go_transport : ∃ a', transports w' !! t = Some a' ∧ connection_state_ a' = kCsOffline ∧
    id a' = id a ∧ product a' = product a ∧ device a' = device a ∧ max_payload a' = max_payload a;
  go_sockets : ∀ p s, sockets w !! p = Some s → untracked w s → ¬ uses w t s → sockets w' !! p = Some s
}.

Lemma notified_uses t w w' s : notified w w' → ¬ uses w t s → ¬ uses w' t s.
Proof.
  intros Hn Hu [Ht|(q & s' & Hq & E' & Ht)]; apply Hu; [by left|].
  destruct (alike_lookup_back _ _ _ _ (nt_alike _ _ Hn) E') as (s0 & E0 & [_ _ Htr _ _ _]).
  right. exists q, s0. split_and!; [done..|congruence].
Qed.

(** Closing the sockets of [t] once its state is set. *)
Lemma wp_close_and_disconnect t a w :
  server_inv (Some t) w → transports w !! t = Some a →
  wp (_ ← on_transport t (λ a, Ret (a <| online := false |>));
      _ ← close_all_sockets junk t;
      run_disconnects t)
     (λ _ w', server_ok w' ∧ unused t w' ∧
        (∃ a', transports w' !! t = Some a' ∧ tnear (a <| online := false |>) a') ∧
        ∀ p s, sockets w !! p = Some s → ¬ uses w t s → sockets w' !! p = Some s) w.
Proof.
  intros H E. eapply wp_bind, wp_on_transport; [done..|]. set (a0 := a <| online := false |>).
  set (w0 := w <| transports ::= <[t := a0]> |>). assert (server_inv (Some t) w0) as H0.
  { eapply server_set_transport; try done. by destruct (sv_quiet _ _ H t a E); constructor. }
  assert (transports w0 !! t = Some a0) as E0 by apply lookup_insert_eq.
  eapply wp_bind, wp_mono; [apply wp_evolves; [apply (keeps_close_all None)|apply wp_close_all, H0]|].
  intros [] w1 [Hc Hev]. destruct (evolves_lookup _ _ _ _ _ Hev E0) as (a1 & E1 & Ha1).
  assert (server_inv (Some t) w1) as H1 by (eapply evolves_server; [done|apply Hc|done..]).
  eapply wp_mono; [by apply wp_run_disconnects|]. intros [] w2 (H2 & [Hs2 _] & a2 & E2 & Ha2 & Hnil).
  assert (unused t w2) as Hun. { unfold unused. rewrite Hs2. by eapply close_all_unused. }
  split_and!; [|done|exists a2; split; [done|]|].
  - eapply server_close_hole; [done|]. intros a' E' _. simplify_eq. split_and!; try done.
    by rewrite (tn_online _ _ Ha2), (tl_online _ _ Ha1).
  - destruct Ha1 as [? ? ? ? [? ?] _], Ha2 as [? ? ? ? [? ?]]. constructor; try congruence. split; congruence.
  - intros p s Ep Hu. rewrite Hs2. by apply (ca_others _ _ _ Hc).
Qed.

Lemma safe_handle_offline t a w :
  server_ok w → transports w !! t = Some a →
  safe (handle_offline junk enqueue t) (λ _ w', gone_offline t a w w') w.
Proof.
  intros H E. unfold handle_offline. safe_go. case_bool_decide as Hoff; safe_go.
  { destruct (qu_offline _ _ _ _ (sv_quiet _ _ H t a E)) as [? ?]; [done..|]. split; try done. eauto 10. }
  eapply safe_bind, safe_mono; [eapply safe_set_state; [by apply server_open_hole|done]|].
  set (a0 := SetConnectionState a kCsOffline). set (w0 := w <| transports ::= _ |>). intros [] w1 [H1 Hn].
  assert (transports w0 !! t = Some a0) as E0 by apply lookup_insert_eq.
  destruct (evolves_lookup _ _ _ _ _ (nt_evolves _ _ Hn) E0) as (a1 & E1 & [? Es ? ? [? ?] _]).
  apply wp_safe. eapply wp_mono; [by apply (wp_close_and_disconnect t a1)|].
  intros [] w2 (Hw2 & Hun & (a2 & E2 & [? Es2 ? ? [? ?]]) & Hs). split; try done.
  - exists a2. split_and!; [done|cbn in *; congruence..].
  - intros p s Ep Hu Hno. apply Hs; [by apply (nt_untracked _ _ Hn)|by apply (notified_uses _ _ _ _ Hn)].
Qed.
End offline.
