(* ===== verification/LifecycleFacts.v ===== *)
(** * Facts about new sockets and transports

    Creating sockets for clients and for listeners, registering and removing
    transports, kicking them: these steps preserve the invariant of the server. *)

From S2P Require Import Prelude State CString CStringFacts LibBase LibBaseFacts Types TypesFacts.
From S2P Require Import AdbIO AdbIOFacts Packets PacketsFacts Nonblocking Transport.
From S2P Require Import TransportFacts HostService SocketSpec SocketSpecFacts Env Sockets SocketsWp SocketsInv.
From S2P Require Import SocketsIO SocketsSafe SocketsFrame TrackersFacts Listeners ServerInv ListenersFacts.
Local Open Scope Z_scope.
Local Open Scope record_scope.

(** ** Functions of a transport *)

Lemma safe_on_transport t a f Q w :
  transports w !! t = Some a →
  match f a with
  | Ret a' => Q tt (w <| transports ::= <[t := a']> |>)
  | Abort => True
  | _ => False
  end → safe (on_transport t f) Q w.
Proof. intros E H. unfold safe, on_transport. rewrite E. simpl. by destruct (f a). Qed.

(** A transport function that returns a transport in the relation [R], or aborts. *)
Definition returns (R : relation atransport) (f : atransport → outcome atransport) : Prop :=
  ∀ a, match f a with Ret a' => R a a' | Abort => True | _ => False end.

Lemma returns_made junk cmd a0 a1 data : returns tlike (λ a, p ← make_packet junk cmd a0 a1 data; send_packet p a).
Proof.
  intros a. destruct (make_packet_ok junk cmd a0 a1 data) as (p & -> & Hp & _). mstep.
  destruct (send_packet_ok p a Hp) as (a' & -> & Ht & _). by apply tsame_tlike.
Qed.

Lemma returns_ready junk l r n : returns tlike (λ a, send_ready junk l r a n).
Proof. intros a. unfold send_ready. apply returns_made. Qed.

Lemma returns_close junk l r : returns tlike (send_close junk l r).
Proof. apply returns_made. Qed.

Lemma returns_connect junk env banner : returns tlike (send_connect junk env banner).
Proof.
  intros a. unfold send_connect. destruct (_ <=? _); mstep; [apply returns_made|done].
Qed.

Lemma returns_reverse dest : returns tlike (λ a, UpdateReverseConfig a dest).
Proof.
  intros a. unfold UpdateReverseConfig. repeat case_match; simplify_eq; try done; by constructor.
Qed.

Lemma tlike_kick a : tlike a (Kick a).
Proof. unfold Kick. destruct (kicked_ a); by constructor. Qed.

Lemma tlike_reset a : tlike a (Reset a).
Proof. unfold Reset. destruct (kicked_ a); by constructor. Qed.

(** Sending to a transport, and other changes that leave its state alone. *)
Lemma safe_send R t f w :
  wf w → is_Some (transports w !! t) → returns R f →
  safe (on_transport t f) (λ _ w', wf w' ∧ sockets w' = sockets w) w.
Proof.
  intros H [a E] Hf. eapply safe_on_transport; [done|]. specialize (Hf a). destruct (f a); [|done..].
  split; [by apply wf_transports|done].
Qed.

Lemma safe_tlike y t f w :
  server_inv y w → is_Some (transports w !! t) → returns tlike f →
  safe (on_transport t f) (λ _ w', server_inv y w' ∧ same_sockets w w' ∧ is_Some (transports w' !! t) ∧
    evolves None w w') w.
Proof.
  intros H [a E] Hf. eapply safe_on_transport; [done|]. specialize (Hf a).
  destruct (f a) as [a'| | |] eqn:Ef; [|done..].
  assert (evolves None w (w <| transports ::= <[t := a']> |>)) as Hev.
  { constructor; [|done..|by constructor]. intros t'. rec_simpl. destruct (decide (t = t')) as [<-|].
    - rewrite E, lookup_insert_eq. by constructor.
    - rewrite lookup_insert_ne by done. destruct (transports w !! t'); by constructor. }
  split_and!; [|done| |done].
  - eapply evolves_server; [done|apply wf_transports, H|done|done].
  - rec_simpl. rewrite lookup_insert_eq. eauto.
Qed.

(** ** New sockets *)

Lemma keeps_bind_transport p t : keeps (Some t) (store p (λ s, s <| transport := Some t |>)).
Proof.
  intros w a w'. unfold store. destruct (sockets w !! p) as [s|] eqn:E; [|done].
  intros [= _ <-]. apply evolves_sockets; [done..|]. intros t' Ht U q s'. rec_simpl.
  intros [[<- <-]|[_ Eq]]%lookup_insert_Some Hc; [|by eapply U]. cbn. congruence.
Qed.

Lemma keeps_new_fd x d : keeps x (new_fd d).
Proof. intros w a w' [= _ <-]. by apply evolves_sockets. Qed.

Lemma keeps_create_local x n : keeps x (create_local_socket n).
Proof.
  unfold create_local_socket, install_local_socket. keeps_go; [by apply keeps_new|].
  apply keeps_modify. intros w. split_and!; [done..| |done]. intros _. apply u32_bound.
Qed.

Lemma keeps_socket_on x d : keeps x (socket_on d).
Proof. unfold socket_on. keeps_go; [apply keeps_new_fd|apply keeps_create_local]. Qed.

Lemma safe_create_local n w Q :
  0 ≤ local_socket_next_id w < 2 ^ 32 →
  Q (next_socket w) (add_local (local_socket_next_id w) n w) → safe (create_local_socket n) Q w.
Proof.
  intros Hid HQ. destruct (decide (local_socket_next_id w = 2 ^ 32 - 1)) as [Heq|].
  { unfold create_local_socket. apply safe_wp_bind, wp_new, safe_bind. unfold install_local_socket. safe_go.
    eapply safe_wp_bind, wp_store; [apply lookup_insert_eq|]. safe_go. apply safe_bind, safe_check.
    rec_simpl. by rewrite Heq. }
  apply wp_safe, wp_create_local_socket; [lia|done].
Qed.

(** A socket on a new descriptor: nothing else changes. *)
Record fresh_socket (w : world) (p : nat) (w' : world) : Prop := {
  fs_wf : wf w';
  fs_evolves : evolves None w w';
  fs_transports : transports w' = transports w;
  fs_new : sockets w !! p = None;
  fs_socket : ∃ s, sockets w' !! p = Some s ∧ is_local s ∧ closing s = false ∧ peer s = None ∧ transport s = None;
  fs_others : ∀ a, a ≠ p → sockets w' !! a = sockets w !! a
}.

Lemma wf_new_fd d n w : wf w → wf (w <| fds ::= <[n := d]> |> <| next_fd := n + 1 |>).
Proof. intros [[] ?]. by split; [constructor|]. Qed.

Lemma safe_new_socket d w :
  wf w → 0 ≤ local_socket_next_id w < 2 ^ 32 →
  safe (socket_on d) (fresh_socket w) w.
Proof.
  intros Hw Hi. pose proof (keeps_socket_on None d) as Hk. unfold socket_on in *.
  eapply safe_mono; [apply (safe_evolves None _ (λ p w', wf w' ∧ transports w' = transports w ∧ p = next_socket w ∧
    sockets w' = <[p := fresh_local (local_socket_next_id w) (next_fd w)]> (sockets w))); [done|]|].
  - apply safe_bind. apply wp_safe.
    change (safe (create_local_socket (next_fd w)) (λ p w', wf w' ∧ transports w' = transports w ∧ p = next_socket w ∧
      sockets w' = <[p := fresh_local (local_socket_next_id w) (next_fd w)]> (sockets w))
      (w <| fds ::= <[next_fd w := d]> |> <| next_fd := next_fd w + 1 |>)).
    apply safe_create_local; [done|]. split_and!; [by apply wf_add_local, wf_new_fd|done..].
  - intros p w' [(Hw' & Ht & -> & Hs) Hev]. pose proof (fresh_not_in _ _ (wf_inv _ Hw)) as Hf. split; try done.
    + rewrite Hs, lookup_insert_eq. by eexists.
    + intros a Ha. by rewrite Hs, lookup_insert_ne.
Qed.

(** Binding a socket without a peer to a transport. *)
Lemma wf_bind_transport p s t w :
  wf w → sockets w !! p = Some s → is_local s → peer s = None → is_Some (transports w !! t) →
  wf (w <| sockets ::= <[p := s <| transport := Some t |>]> |>).
Proof.
  intros [H Hp] E Hl Hn Ht. assert (local_ok s) as Hok by (by eapply inv_local_ok). split.
  - eapply inv_store; try done.
    + apply sock_local. by destruct Hok; constructor.
    + by intros t' _ [= <-].
    + intros a sa Ha Ea _ Hpa. by destruct (inv_no_peer None w p s a sa).
  - by apply paired_local.
Qed.

(** ** Connecting to a service of the device *)

Lemma returns_sends f : returns tlike f → sends f.
Proof. intros H a a' E. specialize (H a). by rewrite E in H. Qed.

Lemma keeps_connect_to_remote x junk p dest : keeps x (connect_to_remote junk p dest).
Proof.
  unfold connect_to_remote. keeps_go. apply keeps_on_transport, returns_sends, returns_reverse.
Qed.

Lemma inv_store_local x p s s1 w :
  inv x w → sockets w !! p = Some s → local_ok s1 → is_local s → alike s s1 →
  inv x (w <| sockets ::= <[p := s1]> |>).
Proof.
  intros H E Hok Hl [He Hp Ht Hc _ _]. eapply inv_store; try done; [by apply sock_local|..].
  - intros t. rewrite Hc, Ht. by eapply (inv_transport _ _ H).
  - intros a sa Ha Ea Hs Hpa. rewrite Ht. by eapply (inv_client _ _ H a sa p s).
Qed.

(** Payload limits are not negative. *)
Definition limits (w : world) : Prop := ∀ t a, transports w !! t = Some a → 0 ≤ max_payload a.

Lemma server_limits y w : server_inv y w → limits w.
Proof. intros H t a E. by destruct (sv_quiet _ _ H t a E). Qed.

Lemma safe_connect_to_remote junk x p s t dest w :
  inv x w → Some p ≠ x → limits w → sockets w !! p = Some s → is_local s → closing s = false →
  transport s = Some t →
  safe (connect_to_remote junk p dest)
    (λ _ w', inv x w' ∧ ∃ s1, sockets w' = <[p := s1]> (sockets w) ∧ alike s s1) w.
Proof.
  intros H Hx Hlim E Hl Hc Ht. destruct (inv_transport _ _ H p s t E Hc Ht) as [a Ea].
  unfold connect_to_remote. safe_go. eapply safe_wp_bind, wp_lift; [by rewrite Ht|].
  eapply safe_bind, safe_on_transport; [done|]. pose proof (returns_reverse dest a) as Hr.
  destruct (UpdateReverseConfig a dest) as [a1| | |]; [|done..].
  set (w1 := w <| transports ::= <[t := a1]> |>). assert (inv x w1) as H1 by (by apply inv_transports).
  assert (transports w1 !! t = Some a1) as Ea1 by apply lookup_insert_eq.
  assert (limits w1) as Hlim1.
  { intros t' b. unfold w1. rec_simpl. intros [[<- <-]|[_ Eb]]%lookup_insert_Some; [|by eapply Hlim].
    rewrite (tl_max _ _ Hr). by eapply Hlim. }
  assert (sockets w1 !! p = Some s) as E1 by exact E. safe_go.
  apply safe_wp_bind, wp_mono with (Q := λ _ w2, inv x w2 ∧ transports w2 = transports w1 ∧
    ∃ s1, sockets w2 = <[p := s1]> (sockets w) ∧ alike s s1).
  { destruct (SupportsDelayedAck a1); wp_go.
    - split_and!; [|done|by eexists]. eapply inv_store_local; try done. apply (local_ok_acked s).
      by eapply inv_local_ok.
    - split_and!; [done..|]. exists s. by rewrite insert_id. }
  intros [] w2 (H2 & T2 & s1 & Hs2 & Hal).
  destruct (make_packet_ok junk A_OPEN (sid s) (if SupportsDelayedAck a1 then INITIAL_DELAYED_ACK_BYTES else 0)
    (dest ++ [NUL])) as (pk & Ep & Hpk & _). eapply safe_wp_bind, wp_lift; [exact Ep|].
  apply safe_wp_bind. eapply (wp_get_max_payload x p s1); [done|done|by rewrite Hs2, lookup_insert_eq| | |].
  { by rewrite (ak_closing _ _ Hal). }
  { intros t' b. rewrite T2. apply Hlim1. }
  intros m _. apply safe_bind, safe_check. intros _. apply wp_safe.
  eapply wp_send; [by rewrite T2|done|]. intros a2 _ _. split; [by apply inv_transports|]. eauto.
Qed.

Section listeners.
Context (junk : nat → byte) `{HE : !Env} (enqueue : nat → Block.t → M Z).

(** ** Connections to listeners *)

Lemma safe_listener_event l conn w :
  server_ok w → l ∈ listener_list w → isSmartSocket l = false →
  safe (listener_event_func junk l conn) (λ _ w', server_ok w') w.
Proof.
  intros H Hin Hns. destruct (sv_listeners _ _ H l Hin) as [_ _ K]. rewrite Hns in K.
  destruct K as (t & a & Ht & E & Hs). unfold listener_event_func. destruct conn as [d|]; [|by safe_go].
  assert (keeps (Some t) (p ← socket_on d; _ ← store p (λ s, s <| transport := l_transport l |>);
    connect_to_remote junk p (connect_to l))) as Hk.
  { rewrite Ht. keeps_go; [apply keeps_socket_on|apply keeps_bind_transport|apply keeps_connect_to_remote]. }
  eapply safe_mono; [apply (safe_evolves (Some t) _ (λ _ w', wf w') w Hk)|].
  2:{ intros [] w' [Hw' Hev]. eapply evolves_server; [done..|]. intros t' a' [= <-] E' _.
      simplify_eq. by apply Hs. }
  eapply safe_bind, safe_mono; [by apply safe_new_socket; apply H|].
  intros p w1 [Hw1 _ Ht1 _ (s & Es & Hl & Hc & Hp & _) _]. safe_go. rewrite Ht.
  set (s1 := s <| transport := Some t |>). set (w2 := w1 <| sockets ::= <[p := s1]> |>).
  assert (wf w2) as [Hi2 Hp2]. { apply wf_bind_transport; try done. rewrite Ht1. eauto. }
  eapply safe_mono; [apply (safe_connect_to_remote junk None p s1 t); try done|].
  { intros t' b. unfold w2. rec_simpl. rewrite Ht1. apply (server_limits _ _ H). }
  { apply lookup_insert_eq. }
  intros [] w3 [Hi3 (s3 & Hs3 & [Hk3 Hp3 _ _ _ _])]. split; [done|].
  intros b sb Hb. rewrite Hs3. intros [[<- <-]|[_ Eb]]%lookup_insert_Some Hlb; [|by eapply Hp2].
  destruct Hlb. unfold is_local. by rewrite Hk3.
Qed.

(** A client connects: a local socket with a smart socket as its peer. *)
Definition fresh_smart (p : nat) : asocket :=
  Socket 0 false false (Some p) enqueue_smart ready_smart false close_smart None None (-1)
    IOVector.empty_vec None [] None.

Lemma wp_connect_smart p s w Q :
  inv None w → sockets w !! p = Some s →
  wp (socket_ready junk enqueue p) Q (add_peer p s (fresh_smart p) w) →
  wp (connect_to_smartsocket junk enqueue p) Q w.
Proof.
  intros H E HQ. pose proof (fresh_not_in _ _ H) as Hf. set (q := next_socket w) in *.
  assert (p ≠ q) as Hne by (intros ->; congruence).
  unfold connect_to_smartsocket, create_smart_socket. apply wp_bind, wp_new. fold q.
  apply wp_bind. eapply wp_store; [rec_simpl; by rewrite lookup_insert_ne|].
  apply wp_bind. eapply wp_store; [rec_simpl; rewrite lookup_insert_ne by done; apply lookup_insert_eq|].
  unfold add_peer in HQ. revert HQ. fold q. rec_norm.
  rewrite (insert_insert_ne _ p q) by done. rewrite insert_insert_eq. done.
Qed.

Lemma made_ready_evolves x p s w w' :
  sockets w !! p = Some s → made_ready p s w w' → evolves x w w'.
Proof.
  intros E (e & g & _ & _ & ->). apply evolves_sockets; [done..|]. intros t _ U q s'. rec_simpl.
  intros [[<- <-]|[_ Eq]]%lookup_insert_Some Hc; [|by eapply U].
  destruct (ready_fn s); by apply (U p s).
Qed.

Lemma safe_ss_listener_event conn w :
  server_ok w → safe (ss_listener_event_func junk enqueue conn) (λ _ w', server_ok w') w.
Proof.
  intros H. unfold ss_listener_event_func. destruct conn as [d|]; [|by safe_go].
  eapply safe_bind, safe_mono; [by apply safe_new_socket; apply H|].
  intros p w1 [Hw1 Hev1 _ _ (s & Es & Hl & Hc & Hp & Ht) _].
  apply wp_safe, (wp_connect_smart p s); [apply Hw1|done|].
  set (w2 := add_peer p s (fresh_smart p) w1). set (s2 := s <| peer := Some (next_socket w1) |>).
  assert (p ≠ next_socket w1) as Hne.
  { pose proof (inv_fresh _ _ (wf_inv _ Hw1) p s Es). lia. }
  assert (sockets w2 !! p = Some s2) as Es2.
  { unfold w2, add_peer. rec_simpl. rewrite lookup_insert_ne by done. apply lookup_insert_eq. }
  assert (wf w2) as Hw2 by (by apply wf_add_peer).
  assert (evolves None w1 w2) as Hev2.
  { apply evolves_sockets; [done..|]. intros t _ U a sa. unfold w2, add_peer. rec_simpl.
    intros [[<- <-]|[_ [[<- <-]|[_ Ea]]%lookup_insert_Some]]%lookup_insert_Some Hca;
      [done|by apply (U p s)|by apply (U a sa)]. }
  eapply wp_mono; [by apply (wp_local_ready junk enqueue p s2)|]. intros [] w3 [Hw3 Hr].
  eapply (evolves_server None None w); [done..| |done]. etrans; [done|]. etrans; [done|].
  by eapply made_ready_evolves.
Qed.

(** ** New transports and their end *)

(** A transport that is not in any list yet. *)
Lemma server_new_transport a w :
  server_ok w → id a = next_transport_id w → 0 ≤ max_payload a → NUL ∉ product a → NUL ∉ device a →
  online a = false → disconnects_ a = [] →
  server_ok (w <| transports ::= <[next_transport_id w := a]> |>
               <| next_transport_id := next_transport_id w + 1 |>).
Proof.
  intros [Hw Hq Hn Hi Hl Hk Hpt Hd] Hid Hm Hp Hde Ho Hdc. set (t := next_transport_id w) in *.
  assert (transports w !! t = None) as Hf.
  { destruct (transports w !! t) eqn:E; [|done]. assert (t < t); [|lia]. apply Hn. eauto. }
  assert (∀ t', is_Some (transports w !! t') → t ≠ t') as Hne by (intros t' [b E] ->; congruence).
  assert (unused t w) as Hun.
  { intros p s E Hc Ht. destruct (inv_transport _ _ (wf_inv _ Hw) p s t E Hc Ht) as [b Eb]. congruence. }
  split; rec_simpl; try done.
  - destruct (wf_transports t a w Hw) as [[] ?]. by split; [constructor|].
  - intros t' b [[<- <-]|[_ Eb]]%lookup_insert_Some; [by constructor|]. by destruct (Hq t' b Eb).
  - intros t' [b [[<- _]|[_ Eb]]%lookup_insert_Some]; [lia|]. assert (t' < t); [|lia]. apply Hn. eauto.
  - intros t' Ht'. rec_simpl. destruct (Hl t' Ht') as [b Eb]. rewrite lookup_insert_ne by (apply Hne; eauto). eauto.
  - intros l Hin. destruct (Hk l Hin) as [K1 K2 K3]. constructor; [done..|]. rec_simpl.
    destruct (isSmartSocket l); [done|]. destruct K3 as (t' & b & Ht & Eb & Hs). exists t', b.
    rewrite lookup_insert_ne by (apply Hne; eauto). done.
  - intros t' b [[<- <-]|[_ Eb]]%lookup_insert_Some; [|by apply Hd]. rewrite Hdc. split; [constructor|].
    intros d. split; [by intros ?%elem_of_nil|]. intros (l & Hin & _ & Hlt).
    destruct (Hk l Hin) as [_ _ K3]. destruct (isSmartSocket l); [congruence|].
    destruct K3 as (t' & b & Ht & Eb & _). congruence.
Qed.

(** A transport that is offline, on no list but perhaps [transport_list], is deleted. *)
Lemma server_delete_transport t a w :
  server_ok w → transports w !! t = Some a → connection_state_ a = kCsOffline →
  t ∉ transport_list w → t ∉ pending_list w →
  server_ok (w <| transports ::= delete t |>).
Proof.
  intros [Hw Hq Hn Hi Hl Hk Hpt Hd] E Hoff Hnl Hnp.
  destruct (qu_offline _ _ _ _ (Hq t a E)) as [_ Hun]; [done..|]. split; rec_simpl; try done.
  - destruct Hw as [[] Hp]. split; [constructor|]; try done. rec_simpl. intros p s t' Es Hc Ht.
    rewrite lookup_delete_ne; [by eapply inv_transport|]. intros <-. by eapply (Hun p s).
  - intros t' b [_ Eb]%lookup_delete_Some. by destruct (Hq t' b Eb).
  - intros t' [b [_ Eb]%lookup_delete_Some]. eauto.
  - intros t' Ht'. rec_simpl. rewrite lookup_delete_ne; [by apply Hl|]. intros <-. by destruct Ht'.
  - intros l Hin. destruct (Hk l Hin) as [K1 K2 K3]. constructor; [done..|]. rec_simpl.
    destruct (isSmartSocket l); [done|]. destruct K3 as (t' & b & Ht & Eb & Hs). exists t', b.
    rewrite lookup_delete_ne; [done|]. intros <-. simplify_eq. by apply Hs.
  - intros t' b [_ Eb]%lookup_delete_Some. by apply Hd.
Qed.

(** The lists of transports change, among live ones. *)
Lemma server_relist tl pl w :
  server_ok w → (∀ t, t ∈ tl ∨ t ∈ pl → is_Some (transports w !! t)) →
  server_ok (w <| pending_list := pl |> <| transport_list := tl |>).
Proof.
  intros [Hw Hq Hn Hi Hl Hk Hpt Hd] H. split; rec_simpl; try done.
  - destruct Hw as [[] Hp]. by split; [constructor|].
  - intros t a E. by destruct (Hq t a E).
  - intros l Hin. by destruct (Hk l Hin).
Qed.

Lemma server_local_transports f w : server_ok w → server_ok (w <| local_transports ::= f |>).
Proof.
  intros [Hw Hq Hn Hi Hl Hk Hpt Hd]. split; rec_simpl; try done.
  - destruct Hw as [[] Hp]. by split; [constructor|].
  - intros t a E. by destruct (Hq t a E).
  - intros l Hin. by destruct (Hk l Hin).
Qed.

Lemma wp_validate l s w Q :
  (∀ t, t ∈ l → is_Some (transports w !! t)) → (∀ b, Q b w) → wp (validate_transport_list l s) Q w.
Proof.
  intros H HQ. unfold validate_transport_list. wp_go. apply wp_load_all; [done|]. intros as_ _. wp_go. apply HQ.
Qed.

Lemma wp_delete_transport t a Q w :
  transports w !! t = Some a → Q tt (w <| transports ::= delete t |>) → wp (delete_transport t) Q w.
Proof. intros E H. unfold wp, delete_transport. by rewrite E. Qed.

Lemma wp_new_transport state Q w :
  Q (next_transport_id w) (w <| transports ::= <[next_transport_id w := new_atransport (next_transport_id w) state]> |>
    <| next_transport_id := next_transport_id w + 1 |>) → wp (new_transport state) Q w.
Proof. done. Qed.

(** A transport that was just made. *)
Record pending_new (t : Z) (w w' : world) : Prop := {
  pn_server : server_ok w';
  pn_transport : ∃ a, transports w' !! t = Some a ∧ (connection_state_ a = kCsOffline ∨ connection_state_ a = kCsNoPerm);
  pn_lists : transport_list w' = transport_list w ∧ pending_list w' = pending_list w;
  pn_fresh : (t ∉ transport_list w) ∧ (t ∉ pending_list w);
  pn_sockets : same_sockets w w'
}.

Lemma wp_make_transport state f w Q :
  server_ok w → state = kCsOffline ∨ state = kCsNoPerm → (∀ a, tlike a (f a)) →
  (∀ t w', pending_new t w w' → t = next_transport_id w →
     (∃ a, transports w' !! t = Some a ∧ connection_state_ a = state) → Q t w') →
  wp (make_transport state f) Q w.
Proof.
  intros H Hst Hf HQ. unfold make_transport. apply wp_bind, wp_new_transport. set (t := next_transport_id w).
  set (a := new_atransport t state). set (w1 := w <| transports ::= _ |> <| next_transport_id := _ |>).
  assert (server_ok w1) as H1. { apply server_new_transport; try done; by_decide. }
  assert (transports w1 !! t = Some a) as E1 by apply lookup_insert_eq.
  eapply wp_bind, wp_on_transport; [exact E1|done|]. wp_go. destruct (Hf a) as [Fi Fs Fo Fm [Fp Fd] Fc].
  apply HQ; [|done|].
  - split; [..|done].
    + eapply server_set_transport; [done|exact E1|exact Fc| |].
      * destruct (sv_quiet _ _ H1 t a E1) as [Q1 Q2 Q3 Q4].
        constructor; [congruence|by rewrite Fm|by rewrite Fp, Fd|by rewrite Fs, Fo].
      * intros _. by rewrite Fs.
    + exists (f a). rec_simpl. rewrite lookup_insert_eq, Fs. done.
    + done.
    + split; intros Hin; (assert (t < t); [|lia]); apply (sv_next _ _ H), (sv_listed _ _ H); auto.
  - exists (f a). rec_simpl. by rewrite lookup_insert_eq, Fs.
Qed.

(** It is refused, and deleted. *)
Lemma wp_refuse t w w' :
  pending_new t w w' → (∃ a, transports w' !! t = Some a ∧ connection_state_ a = kCsOffline) →
  wp (delete_transport t) (λ _ w', server_ok w' ∧ same_sockets w w') w'.
Proof.
  intros [H _ [Hl Hp] [Hnl Hnp] Hs] (a & E & Hoff). eapply wp_delete_transport; [done|]. split; [|done].
  eapply server_delete_transport; [done|done|done|by rewrite Hl|by rewrite Hp].
Qed.

(** It waits to be started. *)
Lemma server_pend t w w' : pending_new t w w' → server_ok (w' <| pending_list ::= cons t |>).
Proof.
  intros [H (a & E & _) _ _ _]. pose proof (server_relist (transport_list w') (t :: pending_list w') w' H) as Hr.
  assert (w' <| pending_list := t :: pending_list w' |> <| transport_list := transport_list w' |> =
          w' <| pending_list ::= cons t |>) as <- by (by destruct w').
  apply Hr. intros t' [Ht|[->|Ht]%elem_of_cons]; [apply (sv_listed _ _ H); by left|by eauto|].
  apply (sv_listed _ _ H). by right.
Qed.

Lemma wp_register_usb s path writeable w :
  server_ok w →
  wp (register_usb_transport s path writeable) (λ t w', server_ok w' ∧ same_sockets w w' ∧
    t ∈ pending_list w') w.
Proof.
  intros H. unfold register_usb_transport. apply wp_bind, wp_make_transport; [done|by destruct writeable; auto|done|].
  intros t w' Hp _ _. wp_go. split_and!; [by eapply server_pend|apply Hp|by left].
Qed.

Lemma wp_register_socket s port local tls w :
  server_ok w →
  wp (register_socket_transport s port local tls) (λ r w', server_ok w' ∧ same_sockets w w' ∧
    match r with Some t => t ∈ pending_list w' | None => True end) w.
Proof.
  intros H. unfold register_socket_transport. apply wp_bind, wp_make_transport; [done|by left|done|].
  intros t w1 H1 _ Ho. wp_go.
  assert (∀ w2, pending_new t w w2 → (∃ a, transports w2 !! t = Some a ∧ connection_state_ a = kCsOffline) →
    wp (_ ← delete_transport t; mret (None : option Z)) (λ r w', server_ok w' ∧ same_sockets w w' ∧
      match r with Some t => t ∈ pending_list w' | None => True end) w2) as Hno.
  { intros w2 H2 Ho2. apply wp_bind. eapply wp_mono; [by apply (wp_refuse t w)|]. intros [] w' [? ?]. by wp_go. }
  destruct (local && _); [by apply Hno|]. wp_go.
  apply wp_mono with (Q := λ _ w2, pending_new t w w2 ∧
    ∃ a, transports w2 !! t = Some a ∧ connection_state_ a = kCsOffline).
  { destruct local; wp_go; [|done]. split; [|done]. destruct H1 as [A1 A2 A3 A4 A5].
    split; try done. by apply server_local_transports. }
  intros [] w2 [H2 Ho2]. pose proof (sv_listed _ _ (pn_server _ _ _ H2)) as Hl. wp_go.
  apply wp_validate; [intros t' Ht'; apply Hl; by right|]. intros b. destruct (negb b); [by apply Hno|]. wp_go.
  apply wp_validate; [intros t' Ht'; apply Hl; by left|]. intros b'. destruct (negb b'); [by apply Hno|]. wp_go.
  split_and!; [by eapply server_pend|apply H2|by left].
Qed.
End listeners.

Section transports.
Context (junk : nat → byte) `{HE : !Env} (enqueue : nat → Block.t → M Z).
Context `{HL : !LocalEnqueue junk enqueue}.

(** A state other than offline, for a transport that may have been. *)
Lemma safe_set_live t a state w :
  server_ok w → transports w !! t = Some a → state ≠ kCsOffline →
  safe (set_connection_state junk enqueue t state)
    (λ _ w', server_ok w' ∧ notified (w <| transports ::= <[t := SetConnectionState a state]> |>) w') w.
Proof.
  intros H E Hs. eapply safe_mono; [eapply safe_set_state; [exact _|by apply server_open_hole|done]|].
  intros [] w' [H' Hn]. split; [|done]. eapply server_close_hole; [done|]. intros a' E'.
  destruct (evolves_lookup_back _ _ _ _ _ (nt_evolves _ _ Hn) E') as (b & Eb & [_ -> _ _ _ _]).
  revert Eb. rec_simpl. rewrite lookup_insert_eq. by intros [= <-].
Qed.

Lemma safe_notify w : server_ok w → safe (update_transports junk enqueue) (λ _ w', server_ok w') w.
Proof.
  intros H. eapply safe_mono; [apply safe_update_transports; [exact _|apply H..]|].
  intros [] w' Hn. by eapply notified_server.
Qed.

(** The transport is started, and listed. *)
Lemma safe_register t w :
  server_ok w → is_Some (transports w !! t) →
  safe (fdevent_register_transport junk enqueue t) (λ _ w', server_ok w') w.
Proof.
  intros H [a E]. unfold fdevent_register_transport. safe_go.
  apply safe_bind, safe_mono with (Q := λ _ w', server_ok w' ∧ is_Some (transports w' !! t)).
  { case_bool_decide; [safe_go; by eauto|]. destruct (_ && _).
    - eapply safe_mono; [by eapply safe_set_live|]. intros [] w' [H' Hn]. split; [done|].
      eapply (evolves_alive None); [apply Hn|]. rec_simpl. rewrite lookup_insert_eq. eauto.
    - eapply safe_bind, safe_mono; [apply (safe_tlike None); [done|by eauto|]|].
      { intros b. by constructor. }
      intros [] w1 (H1 & _ & Et & _). eapply safe_mono; [apply (safe_tlike None); [done..|apply returns_connect]|].
      by intros [] w2 (H2 & _ & ? & _). }
  intros [] w1 [H1 Et1]. safe_go. case_bool_decide as Hin; safe_go; [|by apply safe_notify].
  apply safe_notify. pose proof (sv_listed _ _ H1) as Hl.
  apply (server_relist (t :: transport_list w1) (filter (λ x, x ≠ t) (pending_list w1))); [done|].
  intros t' [[->|?]%elem_of_cons|[_ ?]%list_elem_of_filter]; [done|apply Hl; auto..].
Qed.

(** The last reference to an offline transport is gone. *)
Lemma safe_unregister t a w :
  server_ok w → transports w !! t = Some a → connection_state_ a = kCsOffline → t ∉ pending_list w →
  safe (fdevent_unregister_transport junk enqueue t) (λ _ w', server_ok w') w.
Proof.
  intros H E Ho Hp. unfold fdevent_unregister_transport. safe_go.
  set (w1 := w <| transport_list ::= _ |>). assert (server_ok w1) as H1.
  { pose proof (server_relist (filter (λ x, x ≠ t) (transport_list w)) (pending_list w) w H) as Hr.
    assert (w <| pending_list := pending_list w |> <| transport_list := filter (λ x, x ≠ t) (transport_list w) |> = w1)
      as <- by (by destruct w).
    apply Hr. intros t' [[_ ?]%list_elem_of_filter|?]; apply (sv_listed _ _ H); auto. }
  apply safe_bind, wp_safe, (wp_delete_transport t a); [done|]. apply safe_notify.
  eapply (server_delete_transport t a); [done..| |done]. intros [? _]%list_elem_of_filter. done.
Qed.

(** ** Kicking *)

Lemma safe_kick_or_reset reset t w :
  server_ok w → is_Some (transports w !! t) →
  safe (kick_or_reset reset t) (λ _ w', server_ok w' ∧ same_sockets w w' ∧ evolves None w w') w.
Proof.
  intros H Et. eapply safe_mono; [apply (safe_tlike None); [done..|]|].
  - intros a. destruct reset; [apply tlike_reset|apply tlike_kick].
  - by intros [] w' (? & ? & _ & ?).
Qed.

Lemma safe_kick_transport t reset w :
  server_ok w → safe (kick_transport t reset) (λ _ w', server_ok w' ∧ same_sockets w w' ∧ evolves None w w') w.
Proof.
  intros H. unfold kick_transport. safe_go. case_bool_decide as Hin; [|by safe_go].
  apply safe_kick_or_reset; [done|]. apply (sv_listed _ _ H). by left.
Qed.

Lemma safe_kick_each fn reset l w :
  server_ok w → (∀ t, t ∈ l → is_Some (transports w !! t)) →
  safe (kick_each fn reset l) (λ _ w', server_ok w' ∧ same_sockets w w' ∧ evolves None w w') w.
Proof.
  revert w. induction l as [|t l IH]; intros w H Hl; [by safe_go|]. simpl.
  destruct (Hl t) as [a E]; [by left|]. safe_go.
  apply safe_bind, safe_mono with (Q := λ _ w', server_ok w' ∧ same_sockets w w' ∧ evolves None w w').
  { destruct (fn a); [apply safe_kick_or_reset; by eauto|by safe_go]. }
  intros [] w1 (H1 & [S1 F1] & V1). eapply safe_mono; [apply IH; [done|]|].
  { intros t' Ht'. eapply evolves_alive; [done|]. apply Hl. by right. }
  intros [] w2 (H2 & [S2 F2] & V2). split_and!; [done|by split; congruence|by etrans].
Qed.

Lemma safe_kick_listed fn reset w :
  server_ok w → safe (l ← get transport_list; kick_each fn reset l)
    (λ _ w', server_ok w' ∧ same_sockets w w' ∧ evolves None w w') w.
Proof.
  intros H. safe_go. apply safe_kick_each; [done|]. intros t Ht. apply (sv_listed _ _ H). by left.
Qed.
End transports.
