(* ===== verification/HostRequest.v ===== *)
(** * Requests to the server itself: [adb/adb.cpp], [adb/services.cpp],
    [adb/transport.cpp], [adb/client/transport_local.cpp]

    [handle_host_request], [handle_forward_request] and
    [host_service_to_socket]: what a client asks for after "host:".  The reply
    goes to the client's descriptor [reply_fd]; [s] is the smart socket of the
    client. *)

From S2P Require Import Prelude State CString LibBase Types AdbIO Packets Transport HostService SocketSpec.
From S2P Require Import Env Sockets Listeners.
Local Open Scope Z_scope.
Local Open Scope record_scope.

Inductive HostRequestResult := Handled | SwitchedTransport | Unhandled.

Definition ADB_SERVER_VERSION : Z := 41.
Definition kFeatureLibusb := str "libusb".
Definition kFeaturePushSync := str "push_sync".

(** ** Replies *)

Definition send_okay (n : Z) : M unit := _ ← fd_out n false SendOkay; mret tt.
Definition send_fail (n : Z) (reason : bytes) : M unit :=
  _ ← fd_out n false (λ o, SendFail o reason); mret tt.
Definition send_string (n : Z) (s : bytes) : M unit :=
  _ ← fd_out n false (λ o, SendProtocolString o s); mret tt.

(** [SendOkay(fd, s)] *)
Definition send_okay_string (n : Z) (s : bytes) : M unit := _ ← send_okay n; send_string n s.

Section requests.
Context (junk : nat → byte) `{!Env} (enqueue : nat → Block.t → M Z).

(** ** Choosing a transport *)

Definition acquire (q : query) (accept_any_state : bool) : M (option Z * bytes) :=
  l ← listed_transports;
  '(r, _, error) ← lift (acquire_one_transport no_perm_long ADB_VENDOR_KEYS l q accept_any_state);
  mret (id <$> r, error).

(** [s->transport ? s->transport : acquire_one_transport(...)] *)
Definition chosen_transport (s : nat) (q : query) (accept_any_state : bool) : M (option Z * bytes) :=
  so ← load s;
  match transport so with
  | Some t => mret (Some t, [])
  | None => acquire q accept_any_state
  end.

Definition find_listed (serial_ : bytes) : M (option Z) :=
  l ← listed_transports; mret (id <$> find_transport l serial_).

(** ** Forwarding *)

(** The message for a status. *)
Definition install_message (r : InstallStatus) (error service : bytes) : bytes :=
  match r with
  | INSTALL_STATUS_OK => str "success (!)"
  | INSTALL_STATUS_INTERNAL_ERROR => str "internal error"
  | INSTALL_STATUS_CANNOT_BIND => str "cannot bind listener: " ++ c_str error
  | INSTALL_STATUS_CANNOT_REBIND => str "cannot rebind existing socket"
  | INSTALL_STATUS_LISTENER_NOT_FOUND => str "listener '" ++ service ++ str "' not found"
  end.

Definition forward_status (r : InstallStatus) (resolved : Z) (error service : bytes) (n : Z) : M unit :=
  match r with
  | INSTALL_STATUS_OK =>
      _ ← send_okay n;
      _ ← send_okay n;
      if resolved =? 0 then mret tt else send_string n (print_d resolved)
  | _ => send_fail n (install_message r error service)
  end.

Definition kill_forward (service : bytes) (n : Z) : M unit :=
  pieces ← lift (Split service (str ";"));
  match pieces with
  | [local] =>
      if bool_decide (local = []) then send_fail n (str "bad killforward: " ++ service)
      else r ← remove_listener (c_str local); forward_status r 0 [] service n
  | _ => send_fail n (str "bad killforward: " ++ service)
  end.

Definition add_forward (service : bytes) (no_rebind : bool) (t n : Z) : M unit :=
  pieces ← lift (Split service (str ";"));
  match pieces with
  | [local; remote] =>
      if bool_decide (local = []) || bool_decide (remote = [])
         || bool_decide (head remote = Some asterisk)
      then send_fail n (str "bad forward: " ++ service)
      else
        '(r, resolved, error) ← install_listener local (c_str remote) (Some t) no_rebind false;
        forward_status r resolved error service n
  | _ => send_fail n (str "bad forward: " ++ service)
  end.

(** [service] is a C string; false when it is not a forwarding request. *)
Definition handle_forward_request (service : bytes) (transport_acquirer : M (option Z * bytes)) (n : Z)
  : M bool :=
  if bool_decide (service = str "list-forward") then
    listeners ← format_listeners;
    _ ← send_okay n;
    _ ← send_string n listeners;
    mret true
  else if bool_decide (service = str "killforward-all") then
    _ ← remove_all_listeners;
    _ ← send_okay n;
    _ ← send_okay n;
    mret true
  else if StartsWith service (str "forward:") || StartsWith service (str "killforward:") then
    '(t, error) ← transport_acquirer;
    match t with
    | None => _ ← send_fail n error; mret true
    | Some t =>
        _ ← (if StartsWith service (str "killforward:") then kill_forward (drop 12 service) n
             else if StartsWith (drop 8 service) (str "norebind:")
             then add_forward (drop 17 service) true t n
             else add_forward (drop 8 service) false t n);
        mret true
    end
  else mret false.

(** ** Attaching and detaching USB devices; the error, if any *)

Definition only_libusb := str "attach/detach only implemented for libusb backend".

Definition Attach (t : Z) : M (option bytes) :=
  if negb is_libusb_enabled then mret (Some only_libusb)
  else
    a ← load_transport t;
    if negb (bool_decide (connection_state_ a = kCsDetached)) then
      mret (Some (str "transport " ++ c_str (serial a) ++ str " is not detached"))
    else
      _ ← on_transport t (λ a, Ret (ResetKeys a));
      match attach_connection a with
      | Some e => mret (Some e)
      | None => _ ← on_transport t (send_connect junk env adb_device_banner); mret None
      end.

Definition Detach (t : Z) : M (option bytes) :=
  if negb is_libusb_enabled then mret (Some only_libusb)
  else
    a ← load_transport t;
    if bool_decide (connection_state_ a = kCsDetached) then
      mret (Some (str "transport " ++ c_str (serial a) ++ str " is already detached"))
    else
      _ ← handle_offline junk enqueue t;
      a ← load_transport t;
      match detach_connection a with
      | Some e => mret (Some e)
      | None => _ ← set_connection_state junk enqueue t kCsDetached; mret None
      end.

(** ** Emulators: [client/transport_local.cpp] *)

Definition getEmulatorSerialString (console_port : Z) : bytes := str "emulator-" ++ print_d console_port.

(** Whether a transport was registered. *)
Definition local_connect_arbitrary_ports (console_port adb_port : Z) : M bool :=
  known ← get (λ w, local_transports w !! adb_port);
  by_serial ← find_listed (getEmulatorSerialString console_port);
  if bool_decide (is_Some known) || bool_decide (is_Some by_serial) then mret false
  else if emulator_connect adb_port then
    r ← register_socket_transport (getEmulatorSerialString console_port) adb_port true false;
    mret (bool_decide (is_Some r))
  else mret false.

(** [port - 1] overflows for the smallest [int]. *)
Definition local_connect (port : Z) : M bool :=
  console_port ← lift (if port =? INT_MIN then UB else Ret (port - 1));
  local_connect_arbitrary_ports console_port port.

(** ** The services *)

(** "transport..." and "tport:...": the query, and whether the id of the
    transport is sent back; [None] for a bad transport id. *)
Definition transport_query (service : bytes) (serial_ : option bytes) (transport_id : Z)
  : option (query * bool) :=
  match ConsumePrefix service (str "tport:") with
  | Some service =>
      Some (match ConsumePrefix service (str "serial:") with
            | Some serial_ => Query kTransportAny (Some (c_str serial_)) transport_id
            | None =>
                Query (if bool_decide (service = str "usb") then kTransportUsb
                       else if bool_decide (service = str "local") then kTransportLocal
                       else kTransportAny) serial_ transport_id
            end, true)
  | None =>
      match ConsumePrefix service (str "transport-id:") with
      | Some service =>
          match ParseUint_all (2 ^ 64 - 1) service with
          | None => None
          | Some transport_id => Some (Query kTransportAny serial_ transport_id, false)
          end
      | None =>
          Some (if bool_decide (service = str "transport-usb")
                then Query kTransportUsb serial_ transport_id
                else if bool_decide (service = str "transport-local")
                then Query kTransportLocal serial_ transport_id
                else if bool_decide (service = str "transport-any")
                then Query kTransportAny serial_ transport_id
                else match ConsumePrefix service (str "transport:") with
                     | Some serial_ => Query kTransportAny (Some (c_str serial_)) transport_id
                     | None => Query kTransportAny serial_ transport_id
                     end, false)
      end
  end.

Definition select_transport (service : bytes) (serial_ : option bytes) (transport_id n : Z) (s : nat)
  : M HostRequestResult :=
  match transport_query service serial_ transport_id with
  | None => _ ← send_fail n (str "invalid transport id"); mret Handled
  | Some (q, send_id) =>
      '(t, error) ← acquire q false;
      match t with
      | Some t =>
          _ ← store s (λ s, s <| transport := Some t |>);
          _ ← send_okay n;
          a ← load_transport t;
          _ ← (if send_id then _ ← fd_out n false (λ o, WriteFdExactly o (le64 (id a))); mret tt
               else mret tt);
          mret SwitchedTransport
      | None => _ ← send_fail n error; mret Handled
      end
  end.

(** The response lists the transports that are not online; they are reset. *)
Definition reconnect_offline (n : Z) : M unit :=
  l ← listed_transports;
  let offline a := negb (ConnectionStateIsOnline (connection_state_ a)) in
  let response :=
    concat ((λ a, str "reconnecting " ++ serial_name a ++ [newline]) <$> filter (λ a, offline a = true) l) in
  _ ← close_usb_devices offline true;
  send_okay_string n (take (length response - 1) response).

(** A service that reports something about the chosen transport. *)
Definition report (s : nat) (q : query) (n : Z) (text : atransport → bytes) : M unit :=
  '(t, error) ← chosen_transport s q false;
  match t with
  | Some t => a ← load_transport t; send_okay_string n (text a)
  | None => send_fail n error
  end.

Definition or_unknown (s : bytes) : bytes := if bool_decide (s = []) then str "unknown" else s.

Definition disconnect (address : bytes) (n : Z) : M unit :=
  if bool_decide (address = []) then
    _ ← kick_all_tcp_devices; send_okay_string n (str "disconnected everything")
  else
    let done t := _ ← kick_transport t false; send_okay_string n (str "disconnected " ++ c_str address) in
    t ← find_listed (c_str address);
    match t with
    | Some t => done t
    | None =>
        r ← (if starts_with address (str "vsock:") || starts_with address (str "localfilesystem:")
             then mret (inr address)
             else
               r ← lift (ParseNetAddress address DEFAULT_ADB_LOCAL_TRANSPORT_PORT);
               mret (match r with NetOk _ _ serial => inr serial | NetErr e => inl e end));
        match r with
        | inl error =>
            send_fail n (str "couldn't parse '" ++ c_str address ++ str "': " ++ c_str error)
        | inr serial =>
            t ← find_listed (c_str serial);
            match t with
            | None => send_fail n (str "no such device '" ++ c_str serial ++ str "'")
            | Some t => done t
            end
        end
    end.

Definition reconnect (s : nat) (q : query) (n : Z) : M unit :=
  '(t, error) ← chosen_transport s q true;
  response ← (match t with
              | Some t =>
                  _ ← kick_transport t true;
                  a ← load_transport t;
                  mret (str "reconnecting " ++ serial_name a ++ str " ["
                        ++ to_string no_perm_short (connection_state_ a) ++ str "]" ++ [newline])
              | None => mret error
              end);
  send_okay_string n response.

Definition attach (s : nat) (q : query) (n : Z) : M unit :=
  '(t, error) ← chosen_transport s q true;
  match t with
  | None => send_fail n error
  | Some t =>
      r ← Attach t;
      match r with
      | None => a ← load_transport t; send_okay_string n (c_str (serial_name a) ++ str " attached")
      | Some error => send_fail n error
      end
  end.

(** The smart socket gives up its transport, so that it is not closed too. *)
Definition detach (s : nat) (q : query) (n : Z) : M unit :=
  '(t, error) ← chosen_transport s q true;
  match t with
  | None => send_fail n error
  | Some t =>
      _ ← store s (λ s, s <| transport := None |>);
      r ← Detach t;
      match r with
      | None => a ← load_transport t; send_okay_string n (c_str (serial_name a) ++ str " detached")
      | Some error => send_fail n error
      end
  end.

(** [transport_acquirer] has an [error] of its own, which hides its argument. *)
Definition transport_acquirer (s : nat) (q : query) : M (option Z * bytes) :=
  '(t, _) ← chosen_transport s q false; mret (t, []).

Definition handle_host_request (service : bytes) (ty : TransportType) (serial_ : option bytes)
    (transport_id reply_fd : Z) (s : nat) : M HostRequestResult :=
  let q := Query ty serial_ transport_id in
  let named name := bool_decide (service = str name) in
  let handled (m : M unit) : M HostRequestResult := _ ← m; mret Handled in
  _ ← (if named "kill" then
         if g_reject_kill_server then
           send_fail reply_fd (str "kill-server rejected by remote server")
         else _ ← send_okay reply_fd; lift Abort   (* [exit(0)] *)
       else mret tt);
  if starts_with service (str "transport") || starts_with service (str "tport:") then
    select_transport service serial_ transport_id reply_fd s
  else if named "server-status" then handled (send_okay_string reply_fd server_status)
  else if named "devices" || named "devices-l" then handled (
    text ← transports_text (if named "devices-l" then LONG_TEXT else SHORT_TEXT);
    send_okay_string reply_fd text)
  else if named "reconnect-offline" then handled (reconnect_offline reply_fd)
  else if named "features" then handled (
    report s q reply_fd (λ a, FeatureSetToString (features_ a)))
  else if named "host-features" then handled (
    send_okay_string reply_fd (FeatureSetToString (supported_features env
      ++ (if is_libusb_enabled then [kFeatureLibusb] else []) ++ [kFeaturePushSync])))
  else if starts_with service (str "disconnect:") then handled (disconnect (drop 11 service) reply_fd)
  else if named "version" then handled (send_okay_string reply_fd (print_0x 4 ADB_SERVER_VERSION))
  else if named "get-serialno" then handled (report s q reply_fd (λ a, or_unknown (serial a)))
  else if named "get-devpath" then handled (report s q reply_fd (λ a, or_unknown (devpath a)))
  else if named "get-state" then handled (
    report s q reply_fd (λ a, to_string no_perm_short (connection_state_ a)))
  else
    match ConsumePrefix service (str "emulator:") with
    | Some port => handled (
        match ParseUint_all UINT_MAX port with
        | None => mret tt
        | Some port => _ ← local_connect (s32 port); mret tt
        end)
    | None =>
        if named "reconnect" then handled (reconnect s q reply_fd)
        else if named "attach" then handled (attach s q reply_fd)
        else if named "detach" then handled (detach s q reply_fd)
        else
          done ← handle_forward_request (c_str service) (transport_acquirer s q) reply_fd;
          mret (if (done : bool) then Handled else Unhandled)
    end.

(** ** Services that become sockets: [services.cpp] *)

(** A local socket on the socket pair of a new thread; [fdevent_create] checks
    the descriptor. *)
Definition thread_socket (call : service_call) : M (option nat) :=
  match service_thread call with
  | None => lift Abort
  | Some d => p ← socket_on d; mret (Some p)
  end.

(** [strchr(name.data(), ':')] searches to the end of the request, which is the
    end of [name]. *)
Definition host_service_to_socket (name serial_ : bytes) (transport_id : Z) : M (option nat) :=
  let tracker output := p ← create_device_tracker output; mret (Some p) in
  if bool_decide (name = str "track-devices") then tracker SHORT_TEXT
  else if bool_decide (name = str "track-devices-l") then tracker LONG_TEXT
  else if bool_decide (name = str "track-devices-proto-binary") then tracker PROTOBUF
  else if bool_decide (name = str "track-devices-proto-text") then tracker TEXT_PROTOBUF
  else
    match ConsumePrefix name (str "wait-for-") with
    | Some spec => thread_socket (WaitService serial_ transport_id spec)
    | None =>
        match ConsumePrefix name (str "connect:") with
        | Some host => thread_socket (ConnectService host)
        | None =>
            match ConsumePrefix name (str "pair:") with
            | Some name =>
                match find_char (c_str name) colon 0 with
                | None => mret None
                | Some divider =>
                    thread_socket (PairService (drop (S divider) (c_str name)) (take divider name))
                end
            | None => mret None
            end
        end
    end.
End requests.
