(* ===== verification/HostRequestFacts.v ===== *)
(** * Facts about requests to the server itself

    No request makes the server use an object that is gone: [handle_host_request]
    preserves the invariant of the server, also when it detaches the device whose
    sockets are closed on the way, and leaves the smart socket and its client in
    place, which the caller goes on to use. *)

From S2P Require Import Prelude State CString CStringFacts LibBase LibBaseFacts Types TypesFacts.
From S2P Require Import AdbIO AdbIOFacts Packets PacketsFacts Nonblocking Transport.
From S2P Require Import TransportFacts HostService SocketSpec SocketSpecFacts Env Sockets SocketsWp SocketsInv.
From S2P Require Import SocketsIO SocketsSafe SocketsFrame TrackersFacts Listeners ServerInv ListenersFacts.
From S2P Require Import LifecycleFacts HostRequest.
Local Open Scope Z_scope.
Local Open Scope record_scope.

(** ** A smart socket and its client *)

(** The smart socket [p] serves the local socket [c], which is [sc]. *)
Record talks (p c : nat) (sc : asocket) (w : world) : Prop := {
  ta_server : server_ok w;
  ta_smart : ∃ s, sockets w !! p = Some s ∧ is_smart s ∧ peer s = Some c;
  ta_client : sockets w !! c = Some sc
}.

Section talks.
Context (p c : nat) (sc : asocket).

Lemma talks_same w w' : talks p c sc w → server_ok w' → sockets w' = sockets w → talks p c sc w'.
Proof. intros [_ ? ?] H E. by split; rewrite ?E. Qed.

Lemma talks_peer w : talks p c sc w → peer sc = Some p ∧ is_local sc ∧ p ≠ c ∧ transport sc = None.
Proof.
  intros [H (s & E & Hs & Hp) Ec].
  destruct (inv_peer _ _ (wf_inv _ (sv_wf _ _ H)) p s c) as (_ & Hne & sc' & Ec' & Hp' & Hl); [done..|].
  simplify_eq. split_and!; [done| |done|].
  - destruct Hl as [Hl|]; [|done]. unfold is_local, is_smart in *. congruence.
  - eapply (inv_client _ _ (wf_inv _ (sv_wf _ _ H)) p s c); [done..|by left|done|done].
Qed.

Lemma talks_untracked w : talks p c sc w → untracked w sc.
Proof.
  intros H q s' Hq E. destruct (talks_peer w H) as (Hp & _). destruct H as [_ (s & E' & Hs & _) _].
  simplify_eq. unfold is_tracker, is_smart in *. congruence.
Qed.

(** Telling the trackers of a change of transports. *)
Lemma talks_notified w w1 w' :
  talks p c sc w → sockets w1 = sockets w → notified w1 w' → server_ok w' → talks p c sc w'.
Proof.
  intros H Es Hn H'. pose proof (talks_untracked w H) as Hu. pose proof (talks_peer w H) as (Hp & _ & _ & _).
  destruct H as [_ (s & E & Hs & Hc) Ec]. rewrite <- Es in E, Ec.
  destruct (alike_lookup _ _ _ _ (nt_alike _ _ Hn) E) as (s1 & E1 & [He1 Hp1 _ _ _ _]). split; [done| |].
  - exists s1. split_and!; [done|unfold is_smart in *; congruence|congruence].
  - apply (nt_untracked _ _ Hn); [done|]. intros q s'. rewrite Es. apply Hu.
Qed.

(** ** Replies *)

Lemma server_fds g y w : server_inv y w → server_inv y (w <| fds := g |>).
Proof.
  intros H. eapply (evolves_server None); [done|apply wf_fds, H| |done]. by apply evolves_sockets.
Qed.

Lemma wp_reply {A} n (d : A) f w :
  (∀ o, ∃ r, f o = Ret r) → talks p c sc w →
  wp (fd_out n d f) (λ _ w', talks p c sc w' ∧ transports w' = transports w) w.
Proof.
  intros Hf H. apply wp_fd_out; [done|]. intros a g _. split; [|done].
  apply (talks_same w); [done|apply server_fds, H|done].
Qed.

Lemma SendProtocolString_total o s : ∃ r, SendProtocolString o s = Ret r.
Proof.
  unfold SendProtocolString. destruct (_ <? _); [eauto|].
  destruct (write_exactly_spec o (print_0x 4 (u32 (zlen s)) ++ s)) as (? & ? & ? & -> & _). eauto.
Qed.

Lemma wp_send_okay n w :
  talks p c sc w → wp (send_okay n) (λ _ w', talks p c sc w' ∧ transports w' = transports w) w.
Proof.
  intros H. unfold send_okay. wp_go. eapply wp_mono; [apply wp_reply; [apply SendOkay_total|done]|].
  intros b w' H'. by wp_go.
Qed.

Lemma wp_send_string n s w :
  talks p c sc w → wp (send_string n s) (λ _ w', talks p c sc w' ∧ transports w' = transports w) w.
Proof.
  intros H. unfold send_string. wp_go. eapply wp_mono; [apply wp_reply; [intros; apply SendProtocolString_total|done]|].
  intros b w' H'. by wp_go.
Qed.

Lemma wp_send_fail n s w : talks p c sc w → wp (send_fail n s) (λ _ w', talks p c sc w') w.
Proof.
  intros H. unfold send_fail. wp_go. eapply wp_mono; [apply wp_reply; [intros; apply SendFail_total|done]|].
  intros b w' [H' _]. by wp_go.
Qed.

Lemma wp_send_okay_string n s w : talks p c sc w → wp (send_okay_string n s) (λ _ w', talks p c sc w') w.
Proof.
  intros H. unfold send_okay_string. wp_go. eapply wp_mono; [by apply wp_send_okay|].
  intros [] w' [H' _]. eapply wp_mono; [by apply wp_send_string|]. by intros [] w2 [? _].
Qed.
End talks.

(** ** Choosing a transport *)

Definition serial_fine (q : query) : Prop := ∀ s, q_serial q = Some s → NUL ∉ s.

(** A live transport, not offline unless any state is accepted. *)
Definition chosen (any : bool) (w : world) (t : Z) : Prop :=
  ∃ a, transports w !! t = Some a ∧ (any = true ∨ connection_state_ a ≠ kCsOffline).

Section choice.
Context (junk : nat → byte) `{HE : !Env} (p c : nat) (sc : asocket).

Lemma listed_lookup w as_ a :
  server_ok w → Forall2 (λ t a, transports w !! t = Some a) (transport_list w) as_ → a ∈ as_ →
  transports w !! id a = Some a ∧ quals_ok a.
Proof.
  intros H Has Hin. apply list_elem_of_lookup in Hin as [i Ei].
  destruct (Forall2_lookup_r _ _ _ _ _ Has Ei) as (t & _ & Et). destruct (sv_quiet _ _ H t a Et) as [-> _ Hn _]. done.
Qed.

Lemma wp_acquire q any w :
  server_ok w → serial_fine q →
  wp (acquire q any) (λ r w', w' = w ∧ ∀ t, fst r = Some t → chosen any w t) w.
Proof.
  intros H Hq. unfold acquire. wp_go. apply wp_listed_transports; [apply H|]. intros as_ Has.
  destruct (acquire_one_transport_total no_perm_long ADB_VENDOR_KEYS as_ q any Hq) as (r & amb & e & Er & Hr).
  { apply Forall_forall. intros a Ha. by eapply listed_lookup. }
  wp_go. eapply wp_lift; [exact Er|]. wp_go. split; [done|]. intros t Ht. destruct r as [a|]; [|done].
  destruct (Hr a eq_refl) as [Ha Hs]. destruct (listed_lookup w as_ a H Has Ha) as [E _].
  cbn in Ht. simplify_eq. exists a. split; [done|]. destruct Hs as [|Hs]; [by left|right].
  intros Hoff. apply Hs. unfold inactive. auto.
Qed.

(** A smart socket is bound to transports that are not offline. *)
Lemma smart_transport s t w :
  server_ok w → sockets w !! p = Some s → closing s = false → transport s = Some t → chosen false w t.
Proof.
  intros H E Hc Ht. destruct (inv_transport _ _ (wf_inv _ (sv_wf _ _ H)) p s t) as [a Ea]; [done..|].
  exists a. split; [done|]. right. intros Hoff.
  destruct (qu_offline _ _ _ _ (sv_quiet _ _ H t a Ea)) as [_ Hu]; [done..|]. by eapply Hu.
Qed.

Lemma smart_not_closing x s w : inv x w → sockets w !! p = Some s → is_smart s → smart_ok s.
Proof. intros H E Hs. pose proof (inv_sock _ _ H p s E) as Ho. unfold sock_ok, is_smart in *. by rewrite Hs in Ho. Qed.

Lemma wp_chosen q any w :
  talks p c sc w → serial_fine q →
  wp (chosen_transport p q any) (λ r w', w' = w ∧ ∀ t, fst r = Some t → chosen any w t) w.
Proof.
  intros [H (s & E & Hs & Hp) _] Hq. unfold chosen_transport. wp_go.
  destruct (transport s) as [t|] eqn:Ht; [|by apply wp_acquire]. wp_go. split; [done|]. intros t' [= <-].
  destruct (smart_transport s t w) as (a & Ea & Ha); [done..| |done|exists a; naive_solver].
  eapply so_closing, smart_not_closing; [apply H|done..].
Qed.

Lemma wp_find_listed n w :
  server_ok w → wp (find_listed n) (λ r w', w' = w ∧ ∀ t, r = Some t → is_Some (transports w !! t)) w.
Proof.
  intros H. unfold find_listed. wp_go. apply wp_listed_transports; [apply H|]. intros as_ Has. wp_go.
  split; [done|]. intros t Ht. unfold find_transport in Ht.
  destruct (list_find _ as_) as [[i a]|] eqn:Ef; [|done]. cbn in Ht. simplify_eq.
  apply list_find_Some in Ef as (Ei & _ & _).
  destruct (listed_lookup w as_ a H Has) as [-> _]; [by eapply list_elem_of_lookup_2|eauto].
Qed.
End choice.

(** ** Changing the smart socket *)

Lemma wf_store_host p s s' w :
  wf w → sockets w !! p = Some s → on_host s → sock_ok s' → enqueue_fn s' = enqueue_fn s →
  closing s' = closing s → peer s' = peer s →
  (∀ t, transport s' = Some t → is_Some (transports w !! t)) →
  wf (w <| sockets ::= <[p := s']> |>).
Proof.
  intros [H Hp] E Hs Hok He Hc Hpe Ht. assert (¬ is_local s) as Hnl.
  { unfold is_local, is_smart, is_tracker, on_host in *. naive_solver congruence. }
  split.
  - eapply inv_store; try done; [by intros t _ ?%Ht|].
    intros a sa _ Ea Ha Hpa. destruct (inv_peer _ _ H a sa p) as (_ & _ & sp & Ep & _ & Hl); [done..|].
    simplify_eq. destruct Hl as [Hl|]; [|done]. unfold is_local, is_smart, is_tracker, on_host in *.
    naive_solver congruence.
  - intros b sb Hb. rec_simpl. intros [[<- <-]|[_ Eb]]%lookup_insert_Some; [|by apply (Hp b)].
    intros _. rewrite Hpe. by apply (Hp p s).
Qed.

(** The smart socket is bound to a chosen transport, or to none. *)
Lemma talks_bind p c sc s ot w :
  talks p c sc w → sockets w !! p = Some s → is_smart s → peer s = Some c →
  (∀ t, ot = Some t → chosen false w t) →
  talks p c sc (w <| sockets ::= <[p := s <| transport := ot |>]> |>).
Proof.
  intros Hta E Hs Hp Ht. destruct (talks_peer _ _ _ _ Hta) as (_ & _ & Hne & _).
  pose proof (ta_server _ _ _ _ Hta) as H.
  pose proof (smart_not_closing p None s w (wf_inv _ (sv_wf _ _ H)) E Hs) as Hok.
  assert (wf (w <| sockets ::= <[p := s <| transport := ot |>]> |>)) as Hw.
  { eapply wf_store_host; try done; [apply H|by left| |].
    { unfold sock_ok. rec_simpl. rewrite Hs. by destruct Hok; constructor. }
    intros t Et. destruct (Ht t Et) as (a & ? & _). eauto. }
  split; [|exists (s <| transport := ot |>); split_and!; [apply lookup_insert_eq|done..]|].
  - eapply (evolves_server ot); [done..| |].
    + apply evolves_sockets; [done..|]. intros t Hx U q sq. rec_simpl.
      intros [[<- <-]|[_ Eq]]%lookup_insert_Some Hc; [cbn; congruence|by eapply U].
    + intros t a -> E' _. destruct (Ht t eq_refl) as (a' & ? & [?|?]); [done|]. congruence.
  - rec_simpl. rewrite lookup_insert_ne by done. apply Hta.
Qed.

Section requests.
Context (junk : nat → byte) `{HE : !Env} (enqueue : nat → Block.t → M Z).
Context `{HL : !LocalEnqueue junk enqueue} (p c : nat) (sc : asocket).
Local Abbreviation talking := (talks p c sc).

Lemma safe_talks {A} (m : M A) (P : world → world → Prop) w :
  talking w → safe m (λ _ w', server_ok w' ∧ same_sockets w w' ∧ P w w') w →
  safe m (λ _ w', talking w' ∧ P w w') w.
Proof.
  intros H Hm. eapply safe_mono; [exact Hm|]. intros a w' (? & [? _] & ?). split; [|done]. by eapply talks_same.
Qed.

Lemma safe_select service serial_ tid n w :
  talking w → (∀ s, serial_ = Some s → NUL ∉ s) →
  safe (select_transport service serial_ tid n p) (λ _ w', talking w') w.
Proof.
  intros H Hs. unfold select_transport. destruct (transport_query service serial_ tid) as [[q send_id]|] eqn:Eq.
  2:{ apply safe_wp_bind. eapply wp_mono; [by apply wp_send_fail|]. intros [] w' H'. by safe_go. }
  assert (serial_fine q) as Hq.
  { intros s. unfold transport_query in Eq. repeat case_match; simplify_eq; cbn; auto;
      intros [= <-]; apply c_str_no_nul. }
  apply safe_wp_bind. eapply wp_mono; [by apply wp_acquire; [apply H|]|]. intros [ot e] w' [-> Ht].
  destruct ot as [t|].
  2:{ apply safe_wp_bind. eapply wp_mono; [by apply wp_send_fail|]. intros [] w' H'. by safe_go. }
  specialize (Ht t eq_refl). destruct (ta_smart _ _ _ _ H) as (s & E & Hsm & Hp). safe_go.
  pose proof (talks_bind p c sc s (Some t) w H E Hsm Hp) as H1.
  apply safe_wp_bind. eapply wp_mono; [apply wp_send_okay, H1; by intros ? [= <-]|]. rec_simpl.
  intros [] w2 [H2 T2]. destruct Ht as (a & Ea & _). assert (transports w2 !! t = Some a) as Ea2 by (by rewrite T2).
  safe_go. destruct send_id; safe_go; [|done]. apply safe_wp_bind, wp_bind.
  eapply wp_mono; [apply wp_reply; [|exact H2]|].
  { intros o. destruct (write_exactly_spec o (le64 (id a))) as (? & ? & ? & -> & _). eauto. }
  intros b w3 [H3 _]. wp_go. by safe_go.
Qed.

(** ** Forwarding *)

Lemma wp_talks {A} (m : M A) w :
  talking w → wp m (λ _ w', server_ok w' ∧ same_sockets w w') w → wp m (λ _ w', talking w') w.
Proof. intros H Hm. eapply wp_mono; [exact Hm|]. intros a w' (? & ? & _). by eapply talks_same. Qed.

Lemma wp_forward_status r resolved e service n w :
  talking w → wp (forward_status r resolved e service n) (λ _ w', talking w') w.
Proof.
  intros H. unfold forward_status. destruct r; try by apply wp_send_fail. wp_go.
  eapply wp_mono; [by apply wp_send_okay|]. intros [] w1 [H1 _]. wp_go. eapply wp_mono; [by apply wp_send_okay|].
  intros [] w2 [H2 _]. destruct (resolved =? 0); wp_go; [done|].
  eapply wp_mono; [by apply wp_send_string|]. by intros [] w3 [? _].
Qed.

Lemma wp_kill_forward service n w : talking w → wp (kill_forward service n) (λ _ w', talking w') w.
Proof.
  intros H. unfold kill_forward. wp_go. eapply wp_lift; [by apply Split_ref|].
  destruct (split_ref _ _) as [|local [|? ?]]; [by apply wp_send_fail| |by apply wp_send_fail].
  case_bool_decide; [by apply wp_send_fail|]. wp_go.
  eapply wp_mono; [apply wp_talks; [done|apply wp_remove_listener, H]|]. intros r w' H'. by apply wp_forward_status.
Qed.

Lemma c_str_not_smart remote : head remote ≠ Some asterisk → c_str remote ≠ kSmartSocketConnectTo.
Proof. intros H. destruct remote as [|b r]; [done|]. cbn. case_match; [done|]. intros [= -> _]. by apply H. Qed.

Lemma wp_add_forward service no_rebind t n w :
  talking w → chosen false w t → wp (add_forward service no_rebind t n) (λ _ w', talking w') w.
Proof.
  intros H (a & Ea & [?|Hs]); [done|]. unfold add_forward. wp_go. eapply wp_lift; [by apply Split_ref|].
  destruct (split_ref _ _) as [|local [|remote [|? ?]]]; try by apply wp_send_fail.
  destruct (bool_decide (local = []) || bool_decide (remote = [])); [by apply wp_send_fail|].
  destruct (bool_decide_reflect (head remote = Some asterisk)) as [?|Hh]; [by apply wp_send_fail|]. cbn [orb]. wp_go.
  eapply wp_mono; [apply wp_talks; [done|]|].
  { eapply wp_install_listener; [apply H|by apply c_str_not_smart|done..]. }
  intros [[r resolved] e] w' H'. by apply wp_forward_status.
Qed.

Lemma wp_forward_request service acquirer n w :
  talking w → wp acquirer (λ r w', w' = w ∧ ∀ t, fst r = Some t → chosen false w t) w →
  wp (handle_forward_request service acquirer n) (λ _ w', talking w') w.
Proof.
  intros H Hacq. unfold handle_forward_request. case_bool_decide as Hl1; [|case_bool_decide as Hl2; [|destruct (_ || _)]]; wp_go.
  - eapply wp_mono; [apply (wp_format_listeners None), H|]. intros text w' ->. wp_go.
    eapply wp_mono; [by apply wp_send_okay|]. intros [] w1 [H1 _]. wp_go.
    eapply wp_mono; [by apply wp_send_string|]. intros [] w2 [H2 _]. by wp_go.
  - eapply wp_mono; [apply wp_talks; [done|apply wp_sweep_all, H]|]. intros [] w0 Hw0. wp_go.
    eapply wp_mono; [by apply wp_send_okay|]. intros [] w1 [H1 _]. wp_go.
    eapply wp_mono; [by apply wp_send_okay|]. intros [] w2 [H2 _]. by wp_go.
  - eapply wp_mono; [exact Hacq|]. intros [[t|] e] w' [-> Ht]; wp_go.
    + specialize (Ht t eq_refl). apply wp_mono with (Q := λ _, talking); [|intros [] w' H'; by wp_go].
      destruct (StartsWith _ _); [by apply wp_kill_forward|]. destruct (StartsWith _ _); by apply wp_add_forward.
    + eapply wp_mono; [by apply wp_send_fail|]. intros [] w' H'. by wp_go.
  - done.
Qed.

(** ** Attaching and detaching *)

(** The transport function keeps what [tlike] compares, or aborts. *)
Lemma safe_talks_tlike t f w :
  talking w → is_Some (transports w !! t) → returns tlike f →
  safe (on_transport t f) (λ _ w', talking w' ∧ is_Some (transports w' !! t)) w.
Proof.
  intros H Ht Hf. eapply safe_mono; [apply (safe_tlike None); [apply H|done..]|].
  intros [] w' (H' & [? _] & ? & _). split; [by eapply talks_same|done].
Qed.

Lemma safe_Attach t w :
  talking w → is_Some (transports w !! t) →
  safe (Attach junk t) (λ _ w', talking w' ∧ is_Some (transports w' !! t)) w.
Proof.
  intros H [a Ea]. unfold Attach. destruct (negb _); [safe_go; eauto|]. safe_go. destruct (negb _); [safe_go; eauto|].
  eapply safe_bind, safe_mono; [apply safe_talks_tlike; [done|by eauto|]|].
  { intros b. by constructor. }
  intros [] w1 [H1 Ht1]. destruct (attach_connection a); [safe_go; eauto|].
  eapply safe_bind, safe_mono; [apply safe_talks_tlike; [done..|apply returns_connect]|].
  intros [] w2 [H2 Ht2]. by safe_go.
Qed.

(** A smart socket that is bound to no transport survives the end of any. *)
Lemma safe_Detach t w :
  talking w → (∀ s, sockets w !! p = Some s → transport s = None) → is_Some (transports w !! t) →
  safe (Detach junk enqueue t) (λ _ w', talking w' ∧ is_Some (transports w' !! t)) w.
Proof.
  intros H Hnt [a Ea]. unfold Detach. destruct (negb _); [safe_go; eauto|]. safe_go.
  case_bool_decide; [safe_go; eauto|].
  eapply safe_bind, safe_mono; [eapply safe_handle_offline; [exact _|apply H|exact Ea]|].
  intros [] w1 [H1 _ (a1 & Ea1 & _) Hs1]. assert (talking w1) as T1.
  { destruct (talks_peer _ _ _ _ H) as (Hpc & Hlc & _ & Htc). pose proof (talks_untracked _ _ _ _ H) as Hu.
    destruct H as [_ (s & E & Hs & Hp) Ec]. split; [done| |].
    - exists s. split_and!; [|done..]. apply Hs1; [done| |].
      + intros q s' Hq E'. simplify_eq. unfold is_tracker, is_local in *. congruence.
      + intros [Ht|(q & s' & Hq & E' & Ht)]; [by rewrite (Hnt s E) in Ht|]. simplify_eq.
    - apply Hs1; [done..|]. intros [Ht|(q & s' & Hq & E' & Ht)]; [congruence|]. simplify_eq.
      by rewrite (Hnt s E) in Ht. }
  safe_go. destruct (detach_connection a1); [safe_go; eauto|].
  eapply safe_bind, safe_mono; [by eapply safe_set_live; [exact _| | |]|]. intros [] w2 [H2 Hn2]. safe_go. split.
  - eapply talks_notified; [exact T1| |exact Hn2|done]. done.
  - eapply (evolves_alive None); [apply Hn2|]. rec_simpl. rewrite lookup_insert_eq. eauto.
Qed.

(** ** The services *)

Lemma safe_local_connect port w :
  talking w → port ≠ INT_MIN → safe (local_connect port) (λ _ w', talking w') w.
Proof.
  intros H Hp. unfold local_connect. rewrite (proj2 (Z.eqb_neq _ _) Hp).
  eapply safe_wp_bind, wp_lift; [done|]. unfold local_connect_arbitrary_ports. safe_go.
  apply safe_wp_bind. eapply wp_mono; [apply wp_find_listed, H|]. intros r w' [-> _].
  destruct (_ || _); [by safe_go|]. destruct (emulator_connect port); [|by safe_go].
  apply safe_wp_bind. eapply wp_mono; [apply wp_register_socket, H|]. intros r' w' (H' & [? _] & _). safe_go.
  by eapply talks_same.
Qed.

Lemma safe_kicks (m : M unit) w :
  talking w → safe m (λ _ w', server_ok w' ∧ same_sockets w w' ∧ evolves None w w') w →
  safe m (λ _ w', talking w' ∧ evolves None w w') w.
Proof. intros H Hm. by apply (safe_talks m (evolves None)). Qed.

Lemma safe_okay_string n s w : talking w → safe (send_okay_string n s) (λ _ w', talking w') w.
Proof. intros H. by apply wp_safe, wp_send_okay_string. Qed.

Lemma safe_send_fail n s w : talking w → safe (send_fail n s) (λ _ w', talking w') w.
Proof. intros H. by apply wp_safe, wp_send_fail. Qed.

Lemma safe_reconnect_offline n w : talking w → safe (reconnect_offline n) (λ _ w', talking w') w.
Proof.
  intros H. unfold reconnect_offline. apply safe_wp_bind, wp_listed_transports; [apply H|]. intros as_ _.
  eapply safe_bind, safe_mono; [apply safe_kicks; [done|apply safe_kick_listed, H]|].
  intros [] w' [H' _]. by apply safe_okay_string.
Qed.

Lemma safe_report q n text w : talking w → serial_fine q → safe (report p q n text) (λ _ w', talking w') w.
Proof.
  intros H Hq. unfold report. apply safe_wp_bind. eapply wp_mono; [by eapply wp_chosen|].
  intros [[t|] e] w' [-> Ht]; [|by apply safe_send_fail]. destruct (Ht t eq_refl) as (a & Ea & _). safe_go.
  by apply safe_okay_string.
Qed.

Lemma safe_disconnect address n w : talking w → safe (disconnect address n) (λ _ w', talking w') w.
Proof.
  intros H. unfold disconnect. case_bool_decide as He.
  { eapply safe_bind, safe_mono; [apply safe_kicks; [done|apply safe_kick_listed, H]|].
    intros [] w' [H' _]. by apply safe_okay_string. }
  cbv zeta. assert (∀ t msg, safe (_ ← kick_transport t false; send_okay_string n msg) (λ _ w', talking w') w) as Hk.
  { intros t msg. eapply safe_bind, safe_mono; [apply safe_kicks; [done|apply safe_kick_transport, H]|].
    intros [] w' [H' _]. by apply safe_okay_string. }
  apply safe_wp_bind. eapply wp_mono; [apply wp_find_listed, H|]. intros r w' [-> _].
  destruct r as [t|]; [apply Hk|]. apply safe_wp_bind, wp_mono with (Q := λ _ w', w' = w).
  { destruct (_ || _); wp_go; [done|]. destruct (ParseNetAddress_total address DEFAULT_ADB_LOCAL_TRANSPORT_PORT) as [r Er].
    eapply wp_lift; [exact Er|]. by wp_go. }
  intros [e|s] w' ->; [by apply safe_send_fail|].
  apply safe_wp_bind. eapply wp_mono; [apply wp_find_listed, H|]. intros [t|] w' [-> _]; [apply Hk|by apply safe_send_fail].
Qed.

Lemma safe_reconnect q n w : talking w → serial_fine q → safe (reconnect p q n) (λ _ w', talking w') w.
Proof.
  intros H Hq. unfold reconnect. apply safe_wp_bind. eapply wp_mono; [by eapply wp_chosen|].
  intros [ot e] w' [-> Ht]. apply safe_bind, safe_mono with (Q := λ _ w', talking w').
  2:{ intros r w' H'. by apply safe_okay_string. }
  destruct ot as [t|]; [|by safe_go]. destruct (Ht t eq_refl) as (a & Ea & _).
  eapply safe_bind, safe_mono; [apply safe_kicks; [done|apply safe_kick_transport, H]|]. intros [] w' [H' Hev].
  destruct (evolves_lookup _ _ _ _ _ Hev Ea) as (a' & Ea' & _). by safe_go.
Qed.

(** The reply of [attach] and [detach]. *)
Lemma safe_outcome t n text r w :
  talking w → is_Some (transports w !! t) →
  safe (match r with
        | None => a ← load_transport t; send_okay_string n (c_str (serial_name a) ++ text)
        | Some error => send_fail n error
        end) (λ _ w', talking w') w.
Proof.
  intros H [a Ea]. destruct r; [by apply safe_send_fail|]. safe_go. by apply safe_okay_string.
Qed.

Lemma safe_attach q n w : talking w → serial_fine q → safe (attach junk p q n) (λ _ w', talking w') w.
Proof.
  intros H Hq. unfold attach. apply safe_wp_bind. eapply wp_mono; [by eapply wp_chosen|].
  intros [[t|] e] w' [-> Ht]; [|by apply safe_send_fail]. destruct (Ht t eq_refl) as (a & Ea & _).
  eapply safe_bind, safe_mono; [apply safe_Attach; by eauto|]. intros r w' [? ?]. by apply safe_outcome.
Qed.

Lemma safe_detach q n w : talking w → serial_fine q → safe (detach junk enqueue p q n) (λ _ w', talking w') w.
Proof.
  intros H Hq. unfold detach. apply safe_wp_bind. eapply wp_mono; [by eapply wp_chosen|].
  intros [[t|] e] w' [-> Ht]; [|by apply safe_send_fail]. destruct (Ht t eq_refl) as (a & Ea & _).
  destruct (ta_smart _ _ _ _ H) as (s & E & Hs & Hp). safe_go.
  eapply safe_bind, safe_mono; [apply safe_Detach; [by apply talks_bind| |by eauto]|].
  { intros s'. rec_simpl. rewrite lookup_insert_eq. by intros [= <-]. }
  intros r w' [? ?]. by apply safe_outcome.
Qed.

(** ** The whole request *)

(** [port - 1] overflows for the smallest port. *)
Definition emulator_fine (service : bytes) : bool :=
  match ConsumePrefix service (str "emulator:") with
  | Some rest =>
      match ParseUint_all UINT_MAX rest with Some port => negb (s32 port =? INT_MIN) | None => true end
  | None => true
  end.

Lemma safe_handled (m : M unit) w :
  safe m (λ _ w', talking w') w → safe (_ ← m; mret Handled) (λ _ w', talking w') w.
Proof. intros H. eapply safe_bind, safe_mono; [exact H|]. intros [] w' H'. by safe_go. Qed.

Lemma wp_acquirer q w :
  talking w → serial_fine q →
  wp (transport_acquirer p q) (λ r w', w' = w ∧ ∀ t, fst r = Some t → chosen false w t) w.
Proof.
  intros H Hq. unfold transport_acquirer. wp_go. eapply wp_mono; [by eapply wp_chosen|].
  intros [ot e] w' [-> Ht]. by wp_go.
Qed.

Lemma safe_host_request service ty serial_ tid n w :
  talking w → (∀ s, serial_ = Some s → NUL ∉ s) → emulator_fine service = true →
  safe (handle_host_request junk enqueue service ty serial_ tid n p) (λ _ w', talking w') w.
Proof.
  intros H Hs He. unfold emulator_fine in He. unfold handle_host_request. cbv zeta.
  assert (serial_fine (Query ty serial_ tid)) as Hq by exact Hs.
  apply safe_bind, safe_mono with (Q := λ _ w', talking w').
  { destruct (bool_decide _); [|by safe_go]. destruct g_reject_kill_server; [by apply safe_send_fail|].
    apply safe_wp_bind. eapply wp_mono; [by apply wp_send_okay|]. by intros [] w' _. }
  intros [] w1 H1. clear w H. repeat (match goal with |- safe (if ?b then _ else _) _ _ => destruct b end;
    [first [by apply safe_select|by apply safe_handled, safe_okay_string|by apply safe_handled, safe_reconnect_offline
      |by apply safe_handled, safe_report|by apply safe_handled, safe_disconnect|idtac]|]).
  - apply safe_handled. apply safe_wp_bind, wp_transports_text; [apply H1|]. intros as_ _. by apply safe_okay_string.
  - destruct (ConsumePrefix service (str "emulator:")) as [rest|] eqn:Er.
    { apply safe_handled. destruct (ParseUint_all UINT_MAX rest) as [port|] eqn:Ep; [|by safe_go].
      eapply safe_bind, safe_mono; [eapply safe_local_connect; [done|by apply Z.eqb_neq, negb_true_iff]|]. intros b w' H'. by safe_go. }
    destruct (bool_decide _); [by apply safe_handled, safe_reconnect|].
    destruct (bool_decide _); [by apply safe_handled, safe_attach|].
    destruct (bool_decide _); [by apply safe_handled, safe_detach|].
    apply safe_wp_bind. eapply wp_mono; [apply wp_forward_request; [done|by apply wp_acquirer]|].
    intros b w' H'. by safe_go.
Qed.
End requests.

(** ** Services that become sockets *)

(** A new socket without a peer. *)
Record fresh_service (w : world) (q : nat) (w' : world) : Prop := {
  fv_inv : inv None w';
  fv_paired : paired (Some q) w';
  fv_evolves : evolves None w w';
  fv_new : sockets w !! q = None;
  fv_socket : ∃ s, sockets w' !! q = Some s ∧ closing s = false ∧ peer s = None ∧ transport s = None ∧
    (is_local s ∨ is_tracker s);
  fv_others : ∀ a, a ≠ q → sockets w' !! a = sockets w !! a
}.

Definition fresh_tracker (output : TrackerOutputType) : asocket :=
  Socket 0 false false None enqueue_tracker ready_tracker false close_tracker None None (-1)
    IOVector.empty_vec None [] (Some (Tracker true output)).

Lemma inv_add_tracker output w :
  inv None w →
  inv None (w <| sockets ::= <[next_socket w := fresh_tracker output]> |> <| next_socket := S (next_socket w) |>
              <| device_tracker_list ::= cons (next_socket w) |>).
Proof.
  intros H. pose proof (fresh_not_in _ _ H) as Hf. set (p := next_socket w) in *. set (sp := fresh_tracker output).
  assert (∀ a s, sockets w !! a = Some s → p ≠ a) as Hne by (intros a s E ->; congruence).
  assert (∀ P : asocket → Prop, ¬ P sp → ∀ a, (∃ s, <[p := sp]> (sockets w) !! a = Some s ∧ P s) ↔
    ∃ s, sockets w !! a = Some s ∧ P s) as Hkeep.
  { intros P HP a. setoid_rewrite lookup_insert_Some. split.
    - intros (s & [[_ <-]|[_ E]] & ?); [done|]. eauto.
    - intros (s & E & ?). exists s. split; [right; split; [by eapply Hne|done]|done]. }
  constructor; rec_simpl.
  - intros a sa [[<- <-]|[_ Ea]]%lookup_insert_Some; [by constructor|]. by apply (inv_sock _ _ H) in Ea.
  - intros a sa [[<- <-]|[_ Ea]]%lookup_insert_Some; [lia|]. apply (inv_fresh _ _ H) in Ea. fold p in Ea. lia.
  - intros a. rewrite (inv_list _ _ H), (Hkeep (λ s, is_local s ∧ closing s = false)); [done|]. by intros [? _].
  - intros a. rewrite (inv_closing _ _ H), (Hkeep (λ s, is_local s ∧ closing s = true)); [done|]. by intros [? _].
  - apply (inv_nodup _ _ H).
  - intros a sa b _ [[_ <-]|[_ Ea]]%lookup_insert_Some Hb; [done|].
    destruct (inv_peer _ _ H a sa b) as (? & ? & sb & Eb & ?); [done..|]. split_and!; [done..|].
    exists sb. rewrite lookup_insert_ne by (by eapply Hne). done.
  - intros a sa t [[_ <-]|[_ Ea]]%lookup_insert_Some; [done|]. by eapply (inv_transport _ _ H).
  - intros a. rewrite elem_of_cons, (inv_trackers _ _ H). setoid_rewrite lookup_insert_Some. split.
    + intros [->|(s & E & ?)]; [exists sp; split; [by left|done]|]. exists s. split; [right; split; [by eapply Hne|done]|done].
    + intros (s & [[-> _]|[_ E]] & ?); [by left|right; eauto].
  - constructor; [|apply (inv_tracker_nodup _ _ H)]. rewrite (inv_trackers _ _ H). intros (s & E & _). congruence.
  - intros a sa b sb _ [[_ <-]|[_ Ea]]%lookup_insert_Some Hs Hb; [done|].
    intros [[_ <-]|[_ Eb]]%lookup_insert_Some; [done|]. by eapply (inv_client _ _ H a sa b sb).
Qed.

Lemma wp_create_tracker output w :
  wf w → wp (create_device_tracker output) (fresh_service w) w.
Proof.
  intros [H Hp]. pose proof (fresh_not_in _ _ H) as Hf. unfold create_device_tracker. wp_go. apply wp_new. wp_go.
  pose proof (inv_add_tracker output w H) as H'. split; [exact H'|..]; rec_simpl.
  - intros a sa Ha. rec_simpl. intros [[<- _]|[_ Ea]]%lookup_insert_Some; [done|]. by apply (Hp a sa).
  - apply evolves_sockets; [done..|]. intros t _ U q sq. rec_simpl.
    intros [[_ <-]|[_ Eq]]%lookup_insert_Some Hc; [done|by eapply U].
  - done.
  - exists (fresh_tracker output). rewrite lookup_insert_eq. split_and!; try done. by right.
  - intros a Ha. by rewrite lookup_insert_ne.
Qed.

Section services.
Context `{HE : !Env}.

Definition maybe_service (w : world) (r : option nat) (w' : world) : Prop :=
  match r with Some q => fresh_service w q w' | None => w' = w end.

Lemma safe_thread_socket call w :
  server_ok w → safe (thread_socket call) (maybe_service w) w.
Proof.
  intros H. unfold thread_socket. destruct (service_thread call) as [d|]; [|done].
  eapply safe_bind, safe_mono; [by apply safe_new_socket; apply H|].
  intros p w' [Hw Hev _ Hn (s & E & Hl & Hc & Hp & Ht) Ho]. safe_go. split; try done; [apply Hw| |].
  - apply paired_weaken, Hw.
  - exists s. split_and!; try done. by left.
Qed.

Lemma safe_host_service name serial_ tid w :
  server_ok w → safe (host_service_to_socket name serial_ tid) (maybe_service w) w.
Proof.
  intros H. unfold host_service_to_socket. cbv zeta.
  assert (∀ output, safe (p ← create_device_tracker output; mret (Some p)) (maybe_service w) w) as Ht.
  { intros output. apply safe_wp_bind. eapply wp_mono; [apply wp_create_tracker, H|]. intros q w' Hq. by safe_go. }
  repeat (destruct (bool_decide _); [apply Ht|]).
  destruct (ConsumePrefix name (str "wait-for-")); [by apply safe_thread_socket|].
  destruct (ConsumePrefix name (str "connect:")); [by apply safe_thread_socket|].
  destruct (ConsumePrefix name (str "pair:")) as [name'|]; [|by safe_go].
  destruct (find_char _ _ _); [by apply safe_thread_socket|by safe_go].
Qed.
End services.
