(* ===== verification/SmartSockets.v ===== *)
(** * Smart sockets and reading from clients: [adb/sockets.cpp]

    The first thing a client sends is a service request.  A smart socket
    collects it, and either has it handled as a host request, or connects the
    client to a service of the device.  Also here: the call of [enqueue] through
    the function pointer, and what happens when a client's descriptor is ready. *)

From S2P Require Import Prelude State CString LibBase Types AdbIO Packets Transport HostService SocketSpec.
From S2P Require Import Env Sockets Listeners HostRequest.
Local Open Scope Z_scope.
Local Open Scope record_scope.

Section smart.
Context (junk : nat → byte) `{!Env}.

(** ** The request *)

(** [goto fail] *)
Definition smart_fail (p : nat) : M Z := _ ← socket_close junk p; mret (-1).

(** The prefix of the request: type, serial, transport id and the service, which
    is empty when the request is for the transport already chosen. *)
Inductive smart_request :=
| SmartFail                       (* [goto fail] *)
| SmartReturn                     (* [return -1] *)
| SmartService (type : TransportType) (serial : bytes) (transport_id : Z) (service : bytes).

Definition parse_request (service : bytes) : outcome smart_request :=
  match ConsumePrefix service (str "host-serial:") with
  | Some service =>
      r ← parse_host_service service;
      Ret (match r with
           | None => SmartFail
           | Some (serial, service) => SmartService kTransportAny serial 0 service
           end)
  | None =>
      match ConsumePrefix service (str "host-transport-id:") with
      | Some service =>
          Ret (match ParseUint_rest (2 ^ 64 - 1) service with
               | None => SmartReturn
               | Some (transport_id, service) =>
                   match ConsumePrefix service (str ":") with
                   | None => SmartReturn
                   | Some service => SmartService kTransportAny [] transport_id service
                   end
               end)
      | None =>
          match ConsumePrefix service (str "host-usb:") with
          | Some service => Ret (SmartService kTransportUsb [] 0 service)
          | None =>
              match ConsumePrefix service (str "host-local:") with
              | Some service => Ret (SmartService kTransportLocal [] 0 service)
              | None =>
                  match ConsumePrefix service (str "host:") with
                  | Some service => Ret (SmartService kTransportAny [] 0 service)
                  | None => Ret (SmartService kTransportAny [] 0 [])
                  end
              end
          end
      end
  end.

Section peers.
Context (enqueue : nat → Block.t → M Z).

(** The service [q] becomes the peer of the client, and the smart socket is done. *)
Definition connect_client (p client q : nat) : M unit :=
  c ← load client;
  _ ← fd_out (fd c) false SendOkay;
  _ ← store client (λ c, restore_local c <| peer := Some q |>);
  _ ← store q (λ s2, s2 <| peer := Some client |>);
  _ ← store p (λ s, s <| peer := None |>);
  socket_close junk p.

(** A request for a host service. *)
Definition smart_host_service (p : nat) (type : TransportType) (serial : bytes) (transport_id : Z)
    (service : bytes) : M Z :=
  s ← load p;
  client ← lift (deref (peer s));
  c ← load client;
  r ← handle_host_request junk enqueue service type
        (if bool_decide (serial = []) then None else Some (c_str serial)) transport_id (fd c) p;
  match r with
  | Handled => smart_fail p
  | SwitchedTransport => _ ← store p (λ s, s <| smart_socket_data := [] |>); mret 0
  | Unhandled =>
      r ← host_service_to_socket service serial transport_id;
      s ← load p;
      client ← lift (deref (peer s));
      match r with
      | None =>
          c ← load client;
          _ ← fd_out (fd c) false (λ o, SendFail o (str "unknown host service '" ++ service ++ str "'"));
          smart_fail p
      | Some s2 =>
          _ ← connect_client p client s2;
          _ ← socket_ready junk enqueue s2;
          mret 0
      end
  end.

(** A request for a service of the device. *)
Definition smart_connect (p : nat) : M Z :=
  s ← load p;
  client ← lift (deref (peer s));
  match transport s with
  | None =>
      c ← load client;
      _ ← fd_out (fd c) false (λ o, SendFail o (str "device offline (no transport)"));
      smart_fail p
  | Some t =>
      a ← load_transport t;
      if negb (ConnectionStateIsOnline (connection_state_ a)) then
        c ← load client;
        _ ← fd_out (fd c) false (λ o, SendFail o (str "device offline (transport offline)"));
        smart_fail p
      else
        _ ← store client (λ c, c <| ready_fn := ready_notify |> <| shutdown_fn := false |>
                                 <| close_fn := close_notify |> <| peer := None |>
                                 <| transport := Some t |>);
        _ ← connect_to_remote junk client (drop 4 (smart_socket_data s));
        _ ← store p (λ s, s <| peer := None |>);
        _ ← socket_close junk p;
        mret 1
  end.

Definition smart_socket_enqueue (p : nat) (data : Block.t) : M Z :=
  _ ← store p (λ s, s <| smart_socket_data ::= λ d, d ++ Block.content data |>);
  s ← load p;
  let d := smart_socket_data s in
  if zlen d <? 4 then mret 0
  else
    len ← lift (unhex d 4);
    if (len =? 0) || (MAX_PAYLOAD <? len) then smart_fail p
    else if zlen d <? len + 4 then mret 0
    else
      _ ← store p (λ s, s <| smart_socket_data := <[Z.to_nat (len + 4) := NUL]> d |>);
      r ← lift (parse_request (drop 4 (<[Z.to_nat (len + 4) := NUL]> d)));
      match r with
      | SmartFail => smart_fail p
      | SmartReturn => mret (-1)
      | SmartService type serial transport_id service =>
          if bool_decide (service = []) then smart_connect p
          else smart_host_service p type serial transport_id service
      end.

End peers.

(** [s->enqueue(s, data)] *)
Fixpoint socket_enqueue_fuel (fuel : nat) (p : nat) (data : Block.t) : M Z :=
  match fuel with
  | O => λ _, OutOfFuel
  | S fuel =>
      s ← load p;
      match enqueue_fn s with
      | enqueue_local => local_socket_enqueue junk p data
      | enqueue_remote => remote_socket_enqueue p data
      | enqueue_smart => smart_socket_enqueue (socket_enqueue_fuel fuel) p data
      | enqueue_tracker => device_tracker_enqueue junk p data
      end
  end.

(** A request may change a transport, which is told to the clients of trackers:
    these are local sockets, whose [enqueue] calls no other. *)
Definition ENQUEUE_FUEL : nat := 2.
Definition socket_enqueue (p : nat) (data : Block.t) : M Z := socket_enqueue_fuel ENQUEUE_FUEL p data.

(** ** From the descriptor to the peer *)

(** Gives the data to the peer [q]; false when it closed us. *)
Definition hand_over (p : nat) (available : option Z) (q : nat) (data : Block.t) : M bool :=
  _ ← (match available with
       | Some n => store p (λ s, s <| available_send_bytes := Some (n - Block.size_ data) |>)
       | None => mret tt
       end);
  r ← socket_enqueue q data;
  if r <? 0 then mret false
  else if 0 <? r then
    s ← load p;
    _ ← (match available_send_bytes s with
         | Some n => if n <=? 0 then fdevent_del_read p else mret tt
         | None => fdevent_del_read p
         end);
    mret true
  else mret true.

Definition local_socket_flush_outgoing (p : nat) : M bool :=
  max_payload ← get_max_payload p;
  s ← load p;
  '(data, avail, is_eof) ← read_data junk (fd s) max_payload;
  go_on ←
    (match peer s with
     | Some q =>
         if negb (avail =? max_payload) then
           data ← lift (Block.resize junk data (max_payload - avail));
           hand_over p (available_send_bytes s) q data
         else mret true
     | None => mret true
     end);
  if negb go_on then mret false
  else if (is_eof : bool) then _ ← socket_close junk p; mret false
  else mret true.

(** The handler of the socket's [fdevent]; [FDE_ERROR] alone does nothing. *)
Definition local_socket_event_func (p : nat) (ev_read ev_write : bool) : M unit :=
  _ ← load p;
  alive ← (if ev_write then
             r ← local_socket_flush_incoming junk p;
             mret (match r with Destroyed => false | _ => true end)
           else mret true);
  if (alive : bool) && ev_read then
    _ ← local_socket_flush_outgoing p; mret tt
  else mret tt.
End smart.
