(* ===== verification/SmartSocketsFacts.v ===== *)
(** * Facts about smart sockets and the clients' descriptors

    What a client sends never makes the server touch a socket or transport that
    is gone: [enqueue] on a socket of any kind, and the handlers of a ready
    descriptor, preserve the invariant of the server. *)

From S2P Require Import Prelude State CString CStringFacts LibBase LibBaseFacts Types TypesFacts.
From S2P Require Import AdbIO AdbIOFacts Packets PacketsFacts Nonblocking Transport.
From S2P Require Import TransportFacts HostService SocketSpec SocketSpecFacts Env Sockets SocketsWp SocketsInv.
From S2P Require Import SocketsIO SocketsSafe SocketsFrame TrackersFacts Listeners ServerInv ListenersFacts.
From S2P Require Import LifecycleFacts HostRequest HostRequestFacts SmartSockets.
Local Open Scope Z_scope.
Local Open Scope record_scope.

(** ** Linking two sockets *)

Lemma sock_ok_set_peer s q : sock_ok s → closing s = false → sock_ok (s <| peer := Some q |>).
Proof.
  unfold sock_ok. rec_simpl. destruct (enqueue_fn s).
  - apply local_ok_set_peer.
  - intros [] _. by constructor.
  - intros [] _. by constructor.
  - intros [] _. by constructor.
Qed.

Lemma inv_link c sc q sq w :
  inv None w → sockets w !! c = Some sc → sockets w !! q = Some sq → c ≠ q → is_local sc →
  closing sc = false → closing sq = false → peer sc = None → peer sq = None →
  (on_host sq → transport sc = None) →
  inv None (w <| sockets ::= <[c := sc <| peer := Some q |>]> |> <| sockets ::= <[q := sq <| peer := Some c |>]> |>).
Proof.
  intros H Ec Eq Hne Hl Hcc Hcq Hpc Hpq Ht. set (sc' := sc <| peer := Some q |>). set (sq' := sq <| peer := Some c |>).
  assert (∀ a sa, <[q:=sq']> (<[c:=sc']> (sockets w)) !! a = Some sa →
    (a = q ∧ sa = sq') ∨ (a = c ∧ sa = sc') ∨ (a ≠ q ∧ a ≠ c ∧ sockets w !! a = Some sa)) as Hcases.
  { intros a sa [[<- <-]|[? [[<- <-]|[? Ea]]%lookup_insert_Some]]%lookup_insert_Some; auto. }
  assert (∀ P : asocket → Prop, (P sc' ↔ P sc) → (P sq' ↔ P sq) → ∀ a,
    (∃ s, sockets w !! a = Some s ∧ P s) ↔ ∃ s, <[q:=sq']> (<[c:=sc']> (sockets w)) !! a = Some s ∧ P s) as Hkeep.
  { intros P Pc Pq a. destruct (decide (q = a)) as [<-|]; [|rewrite lookup_insert_ne by done;
      destruct (decide (c = a)) as [<-|]; [|by rewrite lookup_insert_ne]];
      rewrite lookup_insert_eq; naive_solver. }
  constructor; rec_simpl.
  - intros a sa [[-> ->]|[[-> ->]|(_ & _ & Ea)]]%Hcases; [apply sock_ok_set_peer; [|done]..|];
      by eapply (inv_sock _ _ H).
  - intros a sa [[-> ->]|[[-> ->]|(_ & _ & Ea)]]%Hcases; by eapply (inv_fresh _ _ H).
  - intros a. rewrite (inv_list _ _ H). by apply (Hkeep (λ s, is_local s ∧ closing s = false)).
  - intros a. rewrite (inv_closing _ _ H). by apply (Hkeep (λ s, is_local s ∧ closing s = true)).
  - apply (inv_nodup _ _ H).
  - intros a sa b _ [[-> ->]|[[-> ->]|(Haq & Hac & Ea)]]%Hcases Hb.
    + injection Hb as <-. split_and!; [done..|]. exists sc'. rewrite lookup_insert_ne, lookup_insert_eq by done.
      split_and!; [done..|by right].
    + injection Hb as <-. split_and!; [done..|]. exists sq'. rewrite lookup_insert_eq. split_and!; [done..|by left].
    + destruct (inv_peer _ _ H a sa b) as (? & ? & sb & Eb & Hpb & ?); [done..|]. split_and!; [done..|].
      exists sb. rewrite !lookup_insert_ne; [done|intros <-; congruence..].
  - intros a sa t [[-> ->]|[[-> ->]|(_ & _ & Ea)]]%Hcases;
      [apply (inv_transport _ _ H q sq)|apply (inv_transport _ _ H c sc)|apply (inv_transport _ _ H a sa)]; done.
  - intros a. rewrite (inv_trackers _ _ H). by apply (Hkeep is_tracker).
  - apply (inv_tracker_nodup _ _ H).
  - intros a sa b sb _ [[-> ->]|[[-> ->]|(Haq & Hac & Ea)]]%Hcases Hs Hb.
    + injection Hb as <-. rewrite lookup_insert_ne, lookup_insert_eq by done. intros [= <-]. by apply Ht.
    + destruct Hs; unfold is_local, is_smart, is_tracker in *; cbn in *; congruence.
    + destruct (inv_peer _ _ H a sa b) as (_ & _ & sb' & Eb' & Hpb & _); [done..|].
      rewrite !lookup_insert_ne by (intros <-; congruence). intros Eb. by eapply (inv_client _ _ H a sa b).
Qed.

(** The client [c] of [p] gets the new peer [q]. *)
Definition relink (p : nat) (sp : asocket) (c : nat) (sc : asocket) (q : nat) (sq : asocket) (w : world) : world :=
  w <| sockets ::= <[c := restore_local sc <| peer := Some q |>]> |>
    <| sockets ::= <[q := sq <| peer := Some c |>]> |>
    <| sockets ::= <[p := sp <| peer := None |>]> |>.

Lemma inv_relink p sp c sc q sq w :
  inv None w → sockets w !! p = Some sp → peer sp = Some c → sockets w !! c = Some sc → is_local sc →
  sockets w !! q = Some sq → closing sq = false → peer sq = None → (on_host sq → transport sc = None) →
  inv None (relink p sp c sc q sq w).
Proof.
  intros H Ep Hp Ec Hl Eq Hcq Hpq Ht.
  destruct (inv_peer _ _ H p sp c) as (_ & Hne & sc0 & Ec0 & Hpc & _); [done..|]. simplify_eq.
  assert (closing sc = false) as Hcc by (apply (peer_not_closing w c sc H Ec); eauto).
  assert (q ≠ p) as Hqp by congruence. assert (q ≠ c) as Hqc by congruence.
  pose proof (inv_unlink p sp c sc w H Ep Hp Ec) as H1. set (w1 := w <| sockets ::= _ |>) in H1.
  assert (sockets w1 !! p = Some sp) as Ep1 by (unfold w1; rec_simpl; by rewrite lookup_insert_ne).
  pose proof (inv_clear_peer p sp w1 H1 Ep1) as H2. set (w2 := w1 <| sockets ::= _ |>) in H2.
  assert (inv None (w2 <| sockets ::= <[c := sc <| peer := Some q |>]> |> <| sockets ::= <[q := sq <| peer := Some c |>]> |>)) as H3.
  { assert (sc <| peer := Some q |> = sc <| peer := None |> <| peer := Some q |>) as -> by (by destruct sc).
    apply (inv_link c (sc <| peer := None |>) q sq w2); try done; unfold w2, w1; rec_simpl.
    - by rewrite lookup_insert_ne, lookup_insert_eq.
    - by rewrite !lookup_insert_ne. }
  set (w3 := w2 <| sockets ::= _ |> <| sockets ::= _ |>) in H3.
  assert (relink p sp c sc q sq w = w3 <| sockets ::= <[c := restore_local (sc <| peer := Some q |>)]> |>) as ->.
  { unfold relink, w3, w2, w1. rec_norm. f_equal. apply map_eq. intros a. rewrite !lookup_insert.
    repeat case_decide; congruence. }
  apply inv_restore; [done| |done]. unfold w3. rec_simpl. by rewrite lookup_insert_ne, lookup_insert_eq.
Qed.

(** ** After a request *)

(** What an [enqueue] called for the local socket [c] may return: a negative
    result when [c] may be gone. *)
Definition enqueue_post (c : nat) (r : Z) (w : world) : Prop :=
  server_ok w ∧ (0 ≤ r → ∃ s, sockets w !! c = Some s ∧ is_local s).

Section smart.
Context (junk : nat → byte) `{HE : !Env} (enqueue : nat → Block.t → M Z).
Context `{HL : !LocalEnqueue junk enqueue}.

Lemma wp_close_server p s w :
  server_ok w → sockets w !! p = Some s →
  wp (socket_close junk p) (λ _ w', server_ok w' ∧ close_post p w w') w.
Proof.
  intros H E. eapply wp_mono; [apply (wp_evolves None); [apply keeps_close|by eapply wp_socket_close; [apply H|]]|].
  intros [] w' [[Hw Hc] Hev]. split; [|done]. by eapply evolves_server.
Qed.

Lemma wp_smart_fail p s c w :
  server_ok w → sockets w !! p = Some s → wp (smart_fail junk p) (enqueue_post c) w.
Proof.
  intros H E. unfold smart_fail. wp_go. eapply wp_mono; [by eapply wp_close_server|].
  intros [] w' [H' _]. wp_go. split; [done|lia].
Qed.

(** A new tracker sends the list to its client. *)
Lemma safe_tracker_ready q sq c w :
  server_ok w → sockets w !! q = Some sq → is_tracker sq → peer sq = Some c →
  safe (socket_ready junk enqueue q) (λ _ w', enqueue_post c 0 w') w.
Proof.
  intros H E Ht Hc. destruct (tracker_client w q sq (sv_wf _ _ H) E Ht) as (c0 & sc & Hc0 & Hne & Ec & Hl & _).
  simplify_eq. pose proof (inv_sock _ _ (wf_inv _ (sv_wf _ _ H)) q sq E) as Hok. unfold sock_ok in Hok. rewrite Ht in Hok.
  unfold socket_ready. safe_go. rewrite (tk_ready _ Hok). unfold device_tracker_ready. safe_go.
  destruct (tk_tracker _ Hok) as [tr Htr]. eapply safe_wp_bind, wp_lift; [by rewrite Htr|].
  destruct (update_needed tr); safe_go; [|split; [done|by eauto]].
  set (sq' := sq <| tracker := Some _ |>). set (w1 := w <| sockets ::= <[q := sq']> |>).
  assert (wf w1) as Hw1.
  { apply (wf_store_host q sq); try done; [apply H|by right| |].
    - unfold sock_ok. cbn. rewrite Ht. by destruct Hok; constructor.
    - intros t. cbn. by rewrite (tk_transport _ Hok). }
  assert (server_ok w1) as H1.
  { eapply (evolves_server None); [exact H|done| |done]. apply evolves_sockets; [done..|].
    intros t _ U a sa. unfold w1. rec_simpl. intros [[<- <-]|[_ Ea]]%lookup_insert_Some Hca; [by apply (U q sq)|by eapply U]. }
  apply safe_wp_bind, wp_transports_text; [apply H1|]. intros as_ _.
  eapply safe_bind, safe_mono; [eapply (safe_tracker_send _ _ q sq' c sc); try done; unfold w1; rec_simpl|].
  { apply lookup_insert_eq. } { by rewrite lookup_insert_ne. }
  intros r w2 [Hn _]. safe_go. split; [by eapply notified_server|]. intros _.
  destruct (alike_lookup _ _ c sc (nt_alike _ _ Hn)) as (s2 & E2 & [He _ _ _ _ _]).
  { unfold w1. rec_simpl. by rewrite lookup_insert_ne. }
  exists s2. split; [done|]. unfold is_local in *. congruence.
Qed.

Lemma wp_close_alone_server p s w :
  inv None w → paired (Some p) w → sockets w !! p = Some s → peer s = None →
  wp (socket_close junk p) (λ _ w', wf w' ∧ closed p w w') w.
Proof.
  intros H Hp E Hn. eapply wp_mono; [by apply (wp_close_alone junk 2 None p s)|]. intros [] w' [Hi Hc].
  split; [|done]. split; [done|]. by eapply paired_closed.
Qed.

Lemma wp_connect_client p c sc q w w1 :
  talks p c sc w → fresh_service w q w1 →
  wp (connect_client junk p c q) (λ _ w', server_ok w' ∧
    (∃ s, sockets w' !! c = Some s ∧ is_local s) ∧
    ∃ sq, sockets w' !! q = Some sq ∧ closing sq = false ∧ peer sq = Some c ∧ (is_local sq ∨ is_tracker sq)) w1.
Proof.
  intros H [Hi Hp Hev Hnew (sq & Eq & Hcq & Hpq & Htq & Hkq) Ho].
  destruct (talks_peer _ _ _ _ H) as (Hpc & Hl & Hne & Htc). pose proof (ta_server _ _ _ _ H) as Hs.
  destruct H as [_ (sp & Ep & Hsm & Hpp) Ec]. assert (q ≠ p) as Hqp by congruence. assert (q ≠ c) as Hqc by congruence.
  rewrite <- Ho in Ep, Ec by done.
  assert (keeps None (connect_client junk p c q)) as Hk.
  { unfold connect_client. keeps_go. }
  eapply wp_mono; [apply (wp_evolves None _ (λ _ w', wf w' ∧ sockets w' !! c = Some (restore_local sc <| peer := Some q |>) ∧
    sockets w' !! q = Some (sq <| peer := Some c |>)) w1 Hk)|].
  2:{ intros [] w' [(Hw & Ec' & Eq') Hev']. split_and!.
      - eapply (evolves_server None); [exact Hs|done| |done]. by etrans.
      - by eexists.
      - by eexists. }
  clear Hk. unfold connect_client. wp_go. apply wp_fd_out; [apply SendOkay_total|]. intros _ g _.
  set (w2 := w1 <| fds := g |>). assert (inv None w2) as Hi2 by (by apply inv_fds).
  wp_go. eapply wp_store; [rec_simpl; rewrite lookup_insert_ne by done; exact Eq|]. wp_go.
  eapply wp_store; [rec_simpl; rewrite !lookup_insert_ne by done; exact Ep|]. wp_go.
  fold (relink p sp c sc q sq w2). pose proof (inv_relink p sp c sc q sq w2 Hi2 Ep Hpp Ec Hl Eq Hcq Hpq) as Hr.
  eapply wp_mono; [eapply (wp_close_alone_server p (sp <| peer := None |>)); [by apply Hr| |apply lookup_insert_eq|done]|].
  - intros a sa Ha. unfold relink. rec_simpl.
    intros [[<- <-]|[_ [[<- <-]|[Hqa [[<- <-]|[_ Ea]]%lookup_insert_Some]]%lookup_insert_Some]]%lookup_insert_Some Hla;
      [done|by eexists|by eexists|]. apply (Hp a sa); [congruence|done..].
  - intros [] w' [Hw Hc]. split; [done|]. rewrite !(cl_others _ _ _ Hc) by done. unfold relink. rec_simpl.
    rewrite !(lookup_insert_ne _ p) by done. rewrite lookup_insert_ne by done. by rewrite !lookup_insert_eq.
Qed.

(** What is collected of a request. *)
Lemma talks_data p c sc sp f w :
  talks p c sc w → sockets w !! p = Some sp → is_smart sp → peer sp = Some c →
  talks p c sc (w <| sockets ::= <[p := sp <| smart_socket_data ::= f |>]> |>).
Proof.
  intros Hta E Hsm Hp. destruct (talks_peer _ _ _ _ Hta) as (_ & _ & Hne & _). pose proof (ta_server _ _ _ _ Hta) as H.
  pose proof (smart_not_closing p None sp w (wf_inv _ (sv_wf _ _ H)) E Hsm) as Hok. split.
  - eapply (evolves_server None); [exact H| | |done].
    + apply (wf_store_host p sp); try done; [apply H|by left| |].
      * unfold sock_ok. rec_simpl. rewrite Hsm. by destruct Hok; constructor.
      * intros t Ht. apply (inv_transport _ _ (wf_inv _ (sv_wf _ _ H)) p sp t); [done|by apply Hok|done].
    + apply evolves_sockets; [done..|]. intros t _ U a sa. rec_simpl.
      intros [[<- <-]|[_ Ea]]%lookup_insert_Some Hca; [by apply (U p sp)|by eapply U].
  - exists (sp <| smart_socket_data ::= f |>). split_and!; [apply lookup_insert_eq|done..].
  - rec_simpl. rewrite lookup_insert_ne by done. apply Hta.
Qed.

Lemma talks_post p c sc w r : talks p c sc w → enqueue_post c r w.
Proof.
  intros H. destruct (talks_peer _ _ _ _ H) as (_ & Hl & _). split; [apply H|]. intros _. exists sc. split; [apply H|done].
Qed.

(** The client is told why not, and closed with the smart socket. *)
Lemma wp_refuse_client p c sc n reason w :
  talks p c sc w →
  wp (_ ← fd_out n false (λ o, SendFail o reason); smart_fail junk p) (enqueue_post c) w.
Proof.
  intros H. wp_go. eapply wp_mono; [apply (wp_reply p c sc); [intros; apply SendFail_total|done]|]. intros b w' [H' _].
  destruct (ta_smart _ _ _ _ H') as (sp & Ep & _). eapply wp_smart_fail; [apply H'|done].
Qed.

Lemma safe_smart_host_service p c sc ty serial_ tid service w :
  talks p c sc w → emulator_fine service = true →
  safe (smart_host_service junk enqueue p ty serial_ tid service) (enqueue_post c) w.
Proof.
  intros H He. unfold smart_host_service. destruct (ta_smart _ _ _ _ H) as (sp & Ep & Hsm & Hp).
  pose proof (ta_client _ _ _ _ H) as Ec. safe_go. eapply safe_wp_bind, wp_lift; [by rewrite Hp|]. safe_go.
  eapply safe_bind, safe_mono; [apply safe_host_request; [exact _|exact H| |done]|].
  { intros s. case_bool_decide; [done|]. intros [= <-]. apply c_str_no_nul. }
  clear sp Ep Hsm Hp Ec. intros r w1 H1. destruct (ta_smart _ _ _ _ H1) as (sp & Ep & Hsm & Hp). destruct r.
  - apply wp_safe. eapply wp_smart_fail; [apply H1|done].
  - safe_go. eapply talks_post. by apply (talks_data p c sc sp (λ _, [])).
  - eapply safe_bind, safe_mono; [apply safe_host_service, H1|]. intros [q|] w2 Hf; cbn in Hf.
    + pose proof (fv_others _ _ _ Hf) as Ho. assert (sockets w2 !! p = Some sp) as Ep2.
      { rewrite Ho; [done|]. intros ->. by rewrite (fv_new _ _ _ Hf) in Ep. }
      safe_go. eapply safe_wp_bind, wp_lift; [by rewrite Hp|].
      apply safe_wp_bind. eapply wp_mono; [by eapply wp_connect_client|].
      intros [] w3 (H3 & (s3 & Ec3 & Hl3) & sq & Eq & Hcq & Hpq & [Hlq|Htq]).
      * apply safe_wp_bind. eapply wp_mono; [by apply (wp_local_ready junk enqueue q sq); [apply H3|..]|].
        intros [] w4 [Hw4 Hr]. safe_go. split.
        { eapply (evolves_server None); [exact H3|done|by eapply made_ready_evolves|done]. }
        intros _. destruct (inv_peer _ _ (wf_inv _ (sv_wf _ _ H3)) q sq c) as (_ & Hqc & _); [done..|].
        destruct Hr as (e & g & _ & _ & ->). rec_simpl. rewrite lookup_insert_ne by done. eauto.
      * eapply safe_bind, safe_mono; [by eapply safe_tracker_ready|]. intros [] w4 H4. by safe_go.
    + subst w2. safe_go. eapply safe_wp_bind, wp_lift; [by rewrite Hp|]. pose proof (ta_client _ _ _ _ H1) as Ec. safe_go.
      apply wp_safe. by eapply wp_refuse_client.
Qed.

(** ** Connecting the client to the device *)

Lemma keeps_store_bind p f t : (∀ s, transport (f s) = Some t) → keeps (Some t) (store p f).
Proof.
  intros Hf w a w'. unfold store. destruct (sockets w !! p) as [s|] eqn:E; [|done].
  intros [= _ <-]. apply evolves_sockets; [done..|]. intros t' Ht U q s'. rec_simpl.
  intros [[<- <-]|[_ Eq]]%lookup_insert_Some Hc; [|by eapply U]. rewrite Hf. congruence.
Qed.

(** The client waits for the device's answer. *)
Definition waiting (sc : asocket) (t : Z) : asocket :=
  sc <| ready_fn := ready_notify |> <| shutdown_fn := false |> <| close_fn := close_notify |>
     <| peer := None |> <| transport := Some t |>.

Lemma inv_waiting p sp c sc t w :
  inv None w → sockets w !! p = Some sp → peer sp = Some c → sockets w !! c = Some sc → is_local sc →
  is_Some (transports w !! t) →
  inv (Some p) (w <| sockets ::= <[c := waiting sc t]> |>).
Proof.
  intros H Ep Hp Ec Hl Ht. pose proof (inv_unlink p sp c sc w H Ep Hp Ec) as H1.
  set (w1 := w <| sockets ::= _ |>) in H1. set (sc1 := sc <| peer := None |>) in *.
  assert (sockets w1 !! c = Some sc1) as Ec1 by apply lookup_insert_eq.
  replace (w <| sockets ::= <[c := waiting sc t]> |>) with (w1 <| sockets ::= <[c := waiting sc t]> |>)
    by (unfold w1; rec_norm; by rewrite insert_insert_eq).
  apply (inv_store _ c sc1); try done.
  - assert (local_ok sc1) as [] by (by eapply inv_local_ok). apply sock_local. by constructor; try done; right.
  - by intros t' _ [= <-].
  - intros a sa Ha Ea _ Hpa. destruct (inv_peer _ _ H1 a sa c Ha Ea Hpa) as (_ & _ & sc2 & Ec2 & Hp2 & _). by simplify_eq.
Qed.

Lemma safe_smart_connect p c sc w :
  talks p c sc w → safe (smart_connect junk p) (enqueue_post c) w.
Proof.
  intros H. unfold smart_connect. destruct (talks_peer _ _ _ _ H) as (Hpc & Hl & Hne & _).
  pose proof (ta_server _ _ _ _ H) as Hs. destruct (ta_smart _ _ _ _ H) as (sp & Ep & Hsm & Hp).
  pose proof (ta_client _ _ _ _ H) as Ec. safe_go. eapply safe_wp_bind, wp_lift; [by rewrite Hp|].
  destruct (transport sp) as [t|] eqn:Ht; [|safe_go; apply wp_safe; by eapply wp_refuse_client].
  pose proof (wf_inv _ (sv_wf _ _ Hs)) as Hi.
  pose proof (smart_not_closing p None sp w Hi Ep Hsm) as Hok.
  destruct (smart_transport p sp t w Hs Ep (so_closing _ Hok) Ht) as (a & Ea & [?|Hst]); [done|]. safe_go.
  destruct (negb _); [safe_go; apply wp_safe; by eapply wp_refuse_client|].
  match goal with |- safe ?m _ _ => assert (keeps (Some t) m) as Hk end.
  { keeps_go; [by apply keeps_store_bind|apply keeps_connect_to_remote]. }
  eapply safe_mono; [apply (safe_evolves (Some t) _ (λ _ w', wf w' ∧ ∃ s, sockets w' !! c = Some s ∧ is_local s) w Hk)|].
  2:{ intros r w' [(Hw & s & Es & Hls) Hev]. split; [|by eauto]. eapply evolves_server; [exact Hs|done|exact Hev|].
      intros t' a' [= <-] Ea' _. congruence. }
  clear Hk. safe_go. fold (waiting sc t). set (w1 := w <| sockets ::= <[c := waiting sc t]> |>).
  assert (inv (Some p) w1) as H1 by (eapply inv_waiting; eauto).
  assert (closing sc = false) as Hcc by (apply (peer_not_closing w c sc Hi Ec); eauto).
  eapply safe_bind, safe_mono; [apply (safe_connect_to_remote junk (Some p) c (waiting sc t) t); try done|].
  { congruence. } { apply (server_limits _ _ Hs). } { apply lookup_insert_eq. }
  intros [] w2 [H2 (s1 & Hs2 & [He _ _ _ _ _])]. assert (sockets w2 !! p = Some sp) as Ep2.
  { rewrite Hs2, lookup_insert_ne by done. unfold w1. rec_simpl. by rewrite lookup_insert_ne. }
  safe_go. apply safe_wp_bind.
  eapply wp_mono; [eapply (wp_close_alone_server p (sp <| peer := None |>)); [by apply inv_clear_peer| |apply lookup_insert_eq|done]|].
  - intros b sb Hb. rec_simpl. rewrite lookup_insert_ne by congruence. rewrite Hs2. unfold w1. rec_simpl.
    rewrite insert_insert_eq. intros [[<- <-]|[_ Eb]]%lookup_insert_Some Hlb.
    + destruct Hlb. unfold is_local in *. by rewrite He.
    + by apply (wf_paired _ (sv_wf _ _ Hs) b sb).
  - intros [] w3 [Hw Hc]. safe_go. split; [done|]. exists s1. rewrite (cl_others _ _ _ Hc) by done. rec_simpl.
    rewrite lookup_insert_ne by done. rewrite Hs2, lookup_insert_eq. split; [done|]. unfold is_local in *. by rewrite He.
Qed.

(** ** The whole [enqueue] of a smart socket *)

(** What a client has sent so far contains no request that makes the parsing or
    the service itself undefined. *)
Definition request_fine (d : bytes) : bool :=
  if zlen d <? 4 then true
  else match unhex d 4 with
       | Ret len =>
           if (len =? 0) || (MAX_PAYLOAD <? len) then true
           else if zlen d <? len + 4 then true
           else match parse_request (drop 4 (<[Z.to_nat (len + 4) := NUL]> d)) with
                | Ret (SmartService _ _ _ service) => emulator_fine service
                | Ret _ => true
                | _ => false
                end
       | _ => false
       end.

Lemma unhex_total s len : (len ≤ length s)%nat → ∃ z, unhex s len = Ret z.
Proof.
  unfold unhex. generalize 0. revert s. induction len as [|len IH]; intros s n H; [by exists n; destruct s|].
  destruct s as [|b s]; [cbn in H; lia|]. cbn in *. destruct (unhex_digit b); [|by eexists]. apply IH. lia.
Qed.

Lemma safe_smart_enqueue p c sc sp data w :
  talks p c sc w → sockets w !! p = Some sp → request_fine (smart_socket_data sp ++ Block.content data) = true →
  safe (smart_socket_enqueue junk enqueue p data) (enqueue_post c) w.
Proof.
  intros H Ep Hf. unfold smart_socket_enqueue. destruct (ta_smart _ _ _ _ H) as (sp' & Ep' & Hsm & Hp). simplify_eq.
  set (d := smart_socket_data sp ++ Block.content data) in *. safe_go. set (w1 := w <| sockets ::= _ |>).
  pose proof (talks_data p c sc sp (λ d, d ++ Block.content data) w H Ep Hsm Hp) as H1. fold w1 in H1.
  set (sp1 := sp <| smart_socket_data ::= λ d, d ++ Block.content data |>) in *.
  assert (sockets w1 !! p = Some sp1) as Ep1 by apply lookup_insert_eq. safe_go.
  change (smart_socket_data sp1) with d. unfold request_fine in Hf.
  destruct (Z.ltb_spec (zlen d) 4) as [|Hlen]; [safe_go; by eapply talks_post|].
  destruct (unhex_total d 4 ltac:(lia)) as [len El]. rewrite El in Hf. eapply safe_wp_bind, wp_lift; [exact El|].
  destruct (_ || _); [apply wp_safe; eapply wp_smart_fail; [apply H1|done]|].
  destruct (zlen d <? len + 4); [safe_go; by eapply talks_post|]. safe_go. set (w2 := w1 <| sockets ::= _ |>).
  pose proof (talks_data p c sc sp1 (λ _, <[Z.to_nat (len + 4) := NUL]> d) w1 H1 Ep1 Hsm Hp) as H2. fold w2 in H2.
  destruct (parse_request _) as [r| | |] eqn:Er; try done. eapply safe_wp_bind, wp_lift; [done|].
  destruct r as [| |ty serial_ tid service]; [|safe_go; by eapply talks_post|].
  - destruct (ta_smart _ _ _ _ H2) as (sp2 & Ep2 & _). apply wp_safe. eapply wp_smart_fail; [apply H2|done].
  - case_bool_decide; [by eapply safe_smart_connect|by eapply safe_smart_host_service].
Qed.
End smart.
