(* ===== verification/EventsFacts.v ===== *)
(** * Facts about the clients' descriptors

    [enqueue] on a socket of any kind, and the handlers of a ready descriptor,
    preserve the invariant of the server. *)

From S2P Require Import Prelude State CString CStringFacts LibBase LibBaseFacts Types TypesFacts.
From S2P Require Import AdbIO AdbIOFacts Packets PacketsFacts Nonblocking Transport.
From S2P Require Import TransportFacts HostService SocketSpec SocketSpecFacts Env Sockets SocketsWp SocketsInv.
From S2P Require Import SocketsIO SocketsSafe SocketsFrame TrackersFacts Listeners ServerInv ListenersFacts.
From S2P Require Import LifecycleFacts HostRequest HostRequestFacts SmartSockets SmartSocketsFacts.
Local Open Scope Z_scope.
Local Open Scope record_scope.

(** What the socket code relies on when it gives data to the peer of a local
    socket, whatever its kind. *)
Class SafeEnqueue (kind : enqueue_ptr) (enqueue : nat → Block.t → M Z) : Prop :=
  safe_enqueue : ∀ p s q s' data w,
    server_ok w → sockets w !! p = Some s → is_local s → peer s = Some q →
    sockets w !! q = Some s' → enqueue_fn s' = kind → Block.wf data →
    queued w + Block.size_ data < 2 ^ 63 →
    (kind = enqueue_smart → request_fine (smart_socket_data s' ++ Block.content data) = true) →
    safe (enqueue q data) (enqueue_post p) w.

Section kinds.
Context (junk : nat → byte) `{HE : !Env}.

#[export] Instance local_safe_enqueue : SafeEnqueue enqueue_local (local_socket_enqueue junk).
Proof.
  intros p s q s' data w H E Hl Hq E' Hk Hd Hroom _. pose proof (sv_wf _ _ H) as Hw. apply wp_safe.
  destruct (inv_peer _ _ (wf_inv _ Hw) p s q) as (_ & Hne & s2 & E2 & Hp2 & _); [done..|]. simplify_eq.
  assert (local_ok s') as Hok by (eapply inv_local_ok; [apply Hw|done..]).
  pose proof (queued_elem w q s' E' Hok) as Hle.
  eapply wp_mono; [apply (wp_evolves None); [apply keeps_local_enqueue|apply (wp_local_enqueue junk q s'); try done; lia]|].
  intros r w' [(fr & -> & Hfi) Hev]. split; [eapply evolves_server; [done|apply Hfi|done..]|]. intros Hr.
  destruct (fi_live _ _ _ _ _ Hfi) as (d & qq & err & e' & _ & _ & Hs & _); [by destruct fr|].
  exists s. rewrite Hs. rec_simpl. by rewrite !lookup_insert_ne.
Qed.

#[export] Instance remote_safe_enqueue : SafeEnqueue enqueue_remote remote_socket_enqueue.
Proof.
  intros p s q s' data w H E Hl Hq E' Hk Hd _ _. pose proof (sv_wf _ _ H) as Hw. apply wp_safe.
  destruct (inv_peer _ _ (wf_inv _ Hw) p s q) as (_ & Hne & s2 & E2 & Hp2 & _); [done..|]. simplify_eq.
  assert (remote_ok s') as Hro by (eapply inv_remote_ok; [apply Hw|done..]).
  eapply wp_mono; [apply (wp_evolves None); [apply keeps_remote_enqueue|by apply (wp_remote_enqueue q s' p s)]|].
  intros r w' [Hr Hev]. destruct (_ <? _); [destruct Hr as [-> ->]; split; [done|lia]|].
  destruct Hr as [-> (t & a & a' & ? & ? & ? & -> & _)].
  split; [|by intros _; exists s]. eapply evolves_server; [done|by apply wf_transports|done..].
Qed.

(** Data for a tracker closes it, and its client. *)
#[export] Instance tracker_safe_enqueue : SafeEnqueue enqueue_tracker (device_tracker_enqueue junk).
Proof.
  intros p s q s' data w H E Hl Hq E' Hk _ _ _. pose proof (sv_wf _ _ H) as Hw. apply wp_safe.
  destruct (inv_peer _ _ (wf_inv _ Hw) p s q) as (_ & Hne & s2 & E2 & Hp2 & _); [done..|]. simplify_eq.
  assert (keeps None (device_tracker_enqueue junk q data)) as Hkeep.
  { unfold device_tracker_enqueue, device_tracker_close, device_tracker_remove. keeps_go. }
  eapply wp_mono; [apply (wp_evolves None _ (λ r w', wf w' ∧ r < 0) w Hkeep)|].
  - unfold device_tracker_enqueue, device_tracker_close. wp_go. rewrite Hp2.
    eapply wp_mono; [by apply (wp_close_peer junk 2 q s' p s)|].
    intros [] w1 (Hi & Hpr & Ep & Hc). unfold device_tracker_remove. wp_go. split; [|done].
    eapply wf_forget_self; eauto. unfold is_local. congruence.
  - intros r w' [[Hw' Hr] Hev]. split; [by eapply evolves_server|lia].
Qed.

#[export] Instance smart_safe_enqueue enqueue `{!LocalEnqueue junk enqueue} :
  SafeEnqueue enqueue_smart (smart_socket_enqueue junk enqueue).
Proof.
  intros p s q s' data w H E Hl Hq E' Hk _ _ Hf. pose proof (sv_wf _ _ H) as Hw.
  destruct (inv_peer _ _ (wf_inv _ Hw) p s q) as (_ & Hne & s2 & E2 & Hp2 & _); [done..|]. simplify_eq.
  eapply (safe_smart_enqueue _ _ q p s s'); [|done|by apply Hf]. split; [done|by exists s'|done].
Qed.

Lemma bind_load {A} p s (k : asocket → M A) w : sockets w !! p = Some s → (load p ≫= k) w = k s w.
Proof. intros E. unfold mbind, ST_bind, load. by rewrite E. Qed.

#[export] Instance fuel_local_enqueue n : LocalEnqueue junk (socket_enqueue_fuel junk (S n)).
Proof.
  intros p s data w E Hl. cbn [socket_enqueue_fuel]. rewrite (bind_load p s _ w E). by rewrite Hl.
Qed.

Lemma enqueue_fuel_S n p data :
  socket_enqueue_fuel junk (S n) p data =
  (s ← load p;
   match enqueue_fn s with
   | enqueue_local => local_socket_enqueue junk p data
   | enqueue_remote => remote_socket_enqueue p data
   | enqueue_smart => smart_socket_enqueue junk (socket_enqueue_fuel junk n) p data
   | enqueue_tracker => device_tracker_enqueue junk p data
   end).
Proof. done. Qed.

(** The call through the pointer. *)
Lemma safe_socket_enqueue kind : SafeEnqueue kind (socket_enqueue junk).
Proof.
  intros p s q s' data w H E Hl Hq E' Hk Hd Hroom Hf. unfold socket_enqueue, ENQUEUE_FUEL.
  rewrite enqueue_fuel_S. safe_go. rewrite Hk. destruct kind.
  - by apply (local_safe_enqueue p s q s').
  - by apply (remote_safe_enqueue p s q s').
  - by apply (smart_safe_enqueue (socket_enqueue_fuel junk 1) p s q s').
  - by apply (tracker_safe_enqueue p s q s').
Qed.

#[export] Instance socket_local_enqueue : LocalEnqueue junk (socket_enqueue junk).
Proof. apply fuel_local_enqueue. Qed.
End kinds.

(** ** Reading from a client *)

(** Nothing the client of [p] may still deliver is a request to avoid. *)
Definition requests_fine (p : nat) (w : world) : Prop :=
  ∀ s q s' i o got, sockets w !! p = Some s → peer s = Some q → sockets w !! q = Some s' → is_smart s' →
    fds w !! fd s = Some (i, o) → got `prefix_of` arrived i →
    request_fine (smart_socket_data s' ++ got) = true.

(** What a socket queues is what counts. *)
Lemma queued_store p s s' w :
  sockets w !! p = Some s → packet_queue s' = packet_queue s →
  queued (w <| sockets ::= <[p := s']> |>) = queued w.
Proof.
  intros E Hq. unfold queued. rec_simpl.
  set (g := λ x : nat * asocket, u64 (IOVector.chain_length_ (packet_queue x.2))).
  assert (∀ l l', l ≡ₚ l' → foldr Z.add 0 (g <$> l) = foldr Z.add 0 (g <$> l')) as Hperm.
  { intros l l' Hl. induction Hl; cbn; lia. }
  pose proof (map_to_list_insert (delete p (sockets w)) p s' (lookup_delete_eq _ _)) as P1.
  pose proof (map_to_list_insert (delete p (sockets w)) p s (lookup_delete_eq _ _)) as P2.
  rewrite insert_delete_eq in P1. rewrite insert_delete_id in P2 by done.
  rewrite (Hperm _ _ P1), (Hperm _ _ P2). cbn [foldr fmap list_fmap]. unfold g. cbn [snd]. by rewrite Hq.
Qed.

Section events.
Context (junk : nat → byte) `{HE : !Env}.

(** Handing [data] to the peer, with the accounting of delayed acknowledgements. *)
Lemma safe_hand_over p s q s' data w :
  server_ok w → sockets w !! p = Some s → is_local s → peer s = Some q → sockets w !! q = Some s' →
  Block.wf data → queued w + Block.size_ data < 2 ^ 63 →
  (is_smart s' → request_fine (smart_socket_data s' ++ Block.content data) = true) →
  safe (hand_over junk p (available_send_bytes s) q data) (λ b w', server_ok w' ∧ (b = true → is_Some (sockets w' !! p))) w.
Proof.
  intros H E Hl Hq E' Hd Hroom Hf. pose proof (sv_wf _ _ H) as Hw.
  destruct (inv_peer _ _ (wf_inv _ Hw) p s q) as (_ & Hne & _); [done..|].
  unfold hand_over. apply safe_wp_bind, wp_mono with (Q := λ _ w1, server_ok w1 ∧ sockets w1 !! q = Some s' ∧
    queued w1 = queued w ∧ ∃ s1, sockets w1 !! p = Some s1 ∧ is_local s1 ∧ peer s1 = Some q).
  { destruct (available_send_bytes s) as [n|]; wp_go; [|by eauto 10]. split_and!.
    - eapply (evolves_server None); [exact H| | |done].
      + eapply wf_store_local; try done. apply (local_ok_acked s). eapply inv_local_ok; [apply Hw|done..].
      + apply evolves_sockets; [done..|]. intros t _ U a sa. rec_simpl.
        intros [[<- <-]|[_ Ea]]%lookup_insert_Some Hca; [by apply (U p s)|by eapply U].
    - rec_simpl. by rewrite lookup_insert_ne.
    - by eapply queued_store.
    - eexists. split; [apply lookup_insert_eq|]. done. }
  intros [] w1 (H1 & Eq1 & Hq1 & s1 & E1 & Hl1 & Hp1).
  eapply safe_bind, safe_mono; [apply (safe_socket_enqueue junk (enqueue_fn s') p s1 q s'); try done; lia|].
  intros r w2 [H2 Hlive]. destruct (Z.ltb_spec r 0); safe_go; [done|]. destruct Hlive as (s2 & E2 & Hl2); [done|].
  destruct (0 <? r); safe_go; [|by eauto].
  assert (wp (fdevent_del_read p) (λ _ w', server_ok w' ∧ is_Some (sockets w' !! p)) w2) as Hdel.
  { eapply wp_mono; [apply (wp_evolves None); [apply keeps_fdevent_set|by eapply wp_del_read; [apply H2|..]]|].
    intros [] w3 [(Hw3 & s3 & E3 & _) Hev]. split; [by eapply evolves_server|eauto]. }
  apply safe_wp_bind, wp_mono with (Q := λ _ w', server_ok w' ∧ is_Some (sockets w' !! p)).
  { destruct (available_send_bytes s2) as [n|]; [destruct (n <=? 0)|]; [done| |done]. wp_go. eauto. }
  intros [] w3 [? ?]. safe_go. done.
Qed.

Lemma safe_flush_outgoing p s w :
  server_ok w → sockets w !! p = Some s → is_local s → closing s = false → requests_fine p w →
  safe (local_socket_flush_outgoing junk p) (λ _ w', server_ok w') w.
Proof.
  intros H E Hl Hc Hf. unfold local_socket_flush_outgoing. pose proof (sv_wf _ _ H) as Hw.
  apply safe_wp_bind. eapply (wp_get_max_payload None); [apply Hw|done..|apply (server_limits _ _ H)|]. intros m Hm. safe_go.
  apply safe_bind, safe_read_data; [done|]. intros b avail eof w1 got Ht Hav H0 Hroom Hb.
  assert (∀ q s', peer s = Some q → sockets w !! q = Some s' → is_smart s' → got ≠ [] →
    request_fine (smart_socket_data s' ++ got) = true) as Hfg.
  { intros q s' Hq E' Hs Hg. unfold took in Ht. destruct (fds w !! fd s) as [[i o]|] eqn:Ef; [|by destruct Ht].
    destruct Ht as (i' & _ & Hi). eapply (Hf s q s' i o); try done. by exists (arrived i'). }
  destruct (took_frame _ _ _ _ Ht) as [g ->]. apply (server_fds g) in H. clear Hw Ht.
  set (w1 := w <| fds := g |>) in *. assert (sockets w1 !! p = Some s) as E1 by exact E.
  apply safe_bind, safe_mono with (Q := λ b w', server_ok w' ∧ (b = true → is_Some (sockets w' !! p))).
  - destruct (peer s) as [q|] eqn:Hq; [|safe_go; by eauto].
    destruct (Z.eqb_spec avail m) as [->|Hne]; cbn [negb]; [safe_go; by eauto|].
    destruct (inv_peer _ _ (wf_inv _ (sv_wf _ _ H)) p s q) as (_ & _ & s' & E' & _); [done..|].
    assert (got ≠ []) as Hgot by (intros ->; cbn in *; lia).
    destruct Hb as (b' & Eb & Hbw & Hbc & Hbs); [done|].
    eapply safe_wp_bind, wp_lift; [exact Eb|]. eapply (safe_hand_over p s q s'); try done.
    + change (queued w1) with (queued w). lia.
    + rewrite Hbc. intros Hs. by eapply Hfg.
  - intros go w2 [H2 Hlive]. destruct go; cbn [negb]; [|by safe_go].
    destruct eof; [|by safe_go]. destruct (Hlive eq_refl) as [s1 E2].
    apply safe_wp_bind. eapply wp_mono; [by eapply wp_close_server|]. intros _ w3 [? _]. by safe_go.
Qed.

(** Writing does not change what the client may still deliver. *)
Lemma requests_flush p s r w w' :
  sockets w !! p = Some s → is_local s → flush_in p s r w w' → r ≠ Destroyed → requests_fine p w → requests_fine p w'.
Proof.
  intros E Hl Hf Hr Hq. destruct (fi_live _ _ _ _ _ Hf Hr) as (d & v & err & e' & _ & [_ Hw] & Hs & _).
  intros s1 q s' i o got. rewrite Hs. rewrite lookup_insert_eq. intros [= <-] Hp.
  intros [[-> <-]|[_ E']]%lookup_insert_Some Hsm Hfd Hg; [unfold is_local, is_smart in *; cbn in *; congruence|].
  cbn in Hp, Hfd. destruct (fds w !! fd s) as [[i0 o0]|] eqn:Ef; [|by destruct Hw; congruence].
  destruct Hw as (o' & Ef' & _). rewrite Ef' in Hfd. injection Hfd as <- <-. by eapply Hq.
Qed.

(** The handler of a descriptor: writing what is queued, then reading. *)
Lemma safe_event_func p s ev_read ev_write w :
  server_ok w → sockets w !! p = Some s → is_local s →
  (ev_read = true → closing s = false ∧ requests_fine p w) →
  safe (local_socket_event_func junk p ev_read ev_write) (λ _ w', server_ok w') w.
Proof.
  intros H E Hl Hrd. unfold local_socket_event_func. safe_go.
  apply safe_wp_bind, wp_mono with (Q := λ alive w1, server_ok w1 ∧ (alive = true →
    ∃ s1, sockets w1 !! p = Some s1 ∧ is_local s1 ∧ closing s1 = closing s ∧ (requests_fine p w → requests_fine p w1))).
  - destruct ev_write; wp_go; [|split; [done|]; intros _; by exists s].
    eapply wp_mono; [apply (wp_evolves None); [apply keeps_flush_incoming|]|].
    { apply (wp_flush_incoming junk p s); [by apply wf_force; [apply H|..]|done..]. }
    intros r w1 [Hf Hev]. wp_go. split; [eapply evolves_server; [done|apply Hf|done..]|]. intros Halive.
    assert (r ≠ Destroyed) as Hr by (by destruct r).
    destruct (fi_live _ _ _ _ _ Hf Hr) as (d & v & err & e' & _ & _ & Hs & _).
    exists ((queue_set s v err) <| fde := Some e' |>). rewrite Hs at 1. rewrite lookup_insert_eq.
    split_and!; try done. by eapply requests_flush.
  - intros alive w1 [H1 Hlive]. destruct alive; cbn [andb]; [|by safe_go].
    destruct ev_read; [|by safe_go]. destruct (Hrd eq_refl) as [Hc Hq].
    destruct Hlive as (s1 & E1 & Hl1 & Hc1 & Hq1); [done|].
    eapply safe_bind, safe_mono; [eapply safe_flush_outgoing; eauto; congruence|]. intros b w2 H2. by safe_go.
Qed.
End events.
