(* ===== verification/HandlePacket.v ===== *)
(** * Packets from a device: [handle_packet] of [adb/adb.cpp]

    With what brings packets to it and ends a connection:
    [atransport::HandleRead] and [HandleError], [transport_destroy]. *)

From S2P Require Import Prelude State CString LibBase Types AdbIO Packets Transport HostService.
From S2P Require Import SocketSpec Env Sockets Listeners HostRequest SmartSockets.
Local Open Scope Z_scope.
Local Open Scope record_scope.

Section handle_packet.
Context (junk : nat → byte) `{!Env}.

Abbreviation enqueue := (socket_enqueue junk).

(** ** [services.cpp] *)

(** [service_to_fd] on the host: only socket specifications are served. *)
Definition service_to_fd (name after : bytes) : outcome (option (instream * outstream)) :=
  if is_socket_spec name then
    r ← connect_destination name after 0;
    Ret (match r with inl _ => None | inr d => network (d_endpoint d) end)
  else Ret None.

(** ** [sockets.cpp] *)
Definition create_local_service_socket (name after : bytes) (t : Z) : M (option nat) :=
  d ← lift (service_to_fd name after);
  match d with
  | None => mret None
  | Some d =>
      p ← socket_on d;
      _ ← store p (λ s, s <| transport := Some t |>);
      mret (Some p)
  end.

(** ** [client/auth.cpp] *)

(** The thread that performs the handshake, run to its end. *)
Definition adb_auth_tls_handshake (a : atransport) : outcome atransport :=
  '(key, a) ← (match Key a with
               | Some k => Ret (k, a)
               | None =>
                   '(key, a) ← NextKey private_keys a;
                   match key with Some k => Ret (k, a) | None => Abort end
               end);
  Ret (if DoTlsHandshake key a then a else Kick a).

(** ** [adb.cpp] *)

Definition handle_new_connection (t : Z) (p : apacket) : M unit :=
  _ ← handle_offline junk enqueue t;
  _ ← on_transport t (λ a, Ret (update_version a (arg0 (msg p)) (arg1 (msg p))));
  _ ← on_transport t (parse_banner env (Block.content (payload p)));
  _ ← update_transports junk enqueue;
  on_transport t (λ a, Ret (handle_online a)).

(** [client/auth.cpp]: the next key signs the token; when they are used up, the
    user is asked to accept the public key. *)
Definition send_auth_response (token : bytes) (t : Z) : M unit :=
  a ← load_transport t;
  '(key, a) ← lift (NextKey private_keys a);
  _ ← on_transport t (λ _, Ret a);
  match key with
  | None =>
      _ ← set_connection_state junk enqueue t kCsUnauthorized;
      _ ← on_transport t (λ a, Ret (SetConnectionEstablished a true));
      on_transport t (send_auth_publickey junk userkey)
  | Some k =>
      let result := adb_auth_sign k token in
      if bool_decide (result = []) then mret tt
      else on_transport t (λ a, p ← make_packet junk A_AUTH ADB_AUTH_SIGNATURE 0 result; send_packet p a)
  end.

Definition handle_auth (t : Z) (p : apacket) : M unit :=
  a ← load_transport t;
  if use_tls a then mret tt
  else if arg0 (msg p) =? ADB_AUTH_TOKEN then
    _ ← (if bool_decide (connection_state_ a = kCsAuthorizing) then mret tt
         else set_connection_state junk enqueue t kCsAuthorizing);
    send_auth_response (Block.content (payload p)) t
  else
    _ ← set_connection_state junk enqueue t kCsOffline;
    handle_offline junk enqueue t.

Definition handle_open (t : Z) (p : apacket) : M unit :=
  a ← load_transport t;
  let m := msg p in
  if negb (online a) || (arg0 m =? 0) then mret tt
  else
    let send_bytes := u32 (arg1 m) in
    if negb (Bool.eqb (SupportsDelayedAck a) (negb (send_bytes =? 0))) then
      on_transport t (send_close junk 0 (arg0 m))
    else
      let address := StripTrailingNulls (Block.content (payload p)) in
      target ← lift (c_str_of_buffer (default [] (Block.data_ (payload p))));
      _ ← lift (check (IsReverseConfigured a target));
      r ← create_local_service_socket address
            (drop (length address) (default [] (Block.data_ (payload p)))) t;
      match r with
      | None => on_transport t (send_close junk 0 (arg0 m))
      | Some s =>
          _ ← attach_remote s (arg0 m) t;
          so ← load s;
          _ ← (if SupportsDelayedAck a then
                 _ ← store s (λ s, s <| available_send_bytes := Some send_bytes |>);
                 on_transport t (λ a, send_ready junk (sid so) (arg0 m) a INITIAL_DELAYED_ACK_BYTES)
               else on_transport t (λ a, send_ready junk (sid so) (arg0 m) a 0));
          socket_ready junk enqueue s
      end.

Definition handle_okay (t : Z) (p : apacket) : M unit :=
  a ← load_transport t;
  let m := msg p in
  if online a && negb (arg0 m =? 0) && negb (arg1 m =? 0) then
    r ← find_local_socket (arg1 m) 0;
    match r with
    | None => on_transport t (send_close junk (arg1 m) (arg0 m))
    | Some s =>
        let size := Block.size_ (payload p) in
        if negb (size =? 4) && negb (size =? 0) then mret tt
        else
          let acked_bytes := if size =? 4 then s32 <$> le32_dec (Block.content (payload p)) else None in
          so ← load s;
          match peer so with
          | None =>
              _ ← attach_remote s (arg0 m) t;
              _ ← local_socket_ack junk enqueue s acked_bytes;
              socket_ready junk enqueue s
          | Some q =>
              qo ← load q;
              if sid qo =? arg0 m then local_socket_ack junk enqueue s acked_bytes else mret tt
          end
    end
  else mret tt.

Definition handle_close (t : Z) (p : apacket) : M unit :=
  a ← load_transport t;
  let m := msg p in
  if online a && negb (arg1 m =? 0) then
    r ← find_local_socket (arg1 m) (arg0 m);
    match r with
    | None => mret tt
    | Some s =>
        so ← load s;
        foreign ← (match peer so with
                   | Some q =>
                       if arg0 m =? 0 then qo ← load q; mret (bool_decide (transport qo ≠ Some t))
                       else mret false
                   | None => mret false
                   end);
        if (foreign : bool) then mret tt else socket_close junk s
    end
  else mret tt.

Definition handle_write (t : Z) (p : apacket) : M unit :=
  a ← load_transport t;
  let m := msg p in
  if online a && negb (arg0 m =? 0) && negb (arg1 m =? 0) then
    r ← find_local_socket (arg1 m) (arg0 m);
    match r with
    | None => mret tt
    | Some s =>
        _ ← socket_enqueue junk s (payload p); mret tt
    end
  else mret tt.

Definition handle_packet (p : apacket) (t : Z) : M unit :=
  _ ← lift (check (Block.size_ (payload p) =? data_length (msg p)));
  let c := command (msg p) in
  if c =? A_CNXN then handle_new_connection t p
  else if c =? A_STLS then
    on_transport t (λ a, a ← send_tls_request junk (a <| use_tls := true |>); adb_auth_tls_handshake a)
  else if c =? A_AUTH then handle_auth t p
  else if c =? A_OPEN then handle_open t p
  else if c =? A_OKAY then handle_okay t p
  else if c =? A_CLSE then handle_close t p
  else if c =? A_WRTE then handle_write t p
  else mret tt.

(** ** [transport.cpp] *)

(** [HandleRead]: the packet reaches [handle_packet] when its header is sound;
    the task runs on the main thread, when the transport may be gone. *)
Definition handle_read (p : apacket) (t : Z) : M bool :=
  a ← load_transport t;
  if HandleRead a p then _ ← handle_packet p t; mret true else mret false.

(** [transport_destroy]: whether the transport waits for a reconnection; the
    removal runs from the queue of the main thread. *)
Definition transport_destroy (t : Z) : M bool :=
  _ ← on_transport t (λ a, Ret (a <| stops ::= S |>));
  a ← load_transport t;
  if IsTcpDevice a && negb (kicked_ a) then
    _ ← on_transport t (λ a, Ret (ResetKeys a)); mret true
  else mret false.

(** The task [HandleError] posts. *)
Definition handle_error (t : Z) : M bool := _ ← handle_offline junk enqueue t; transport_destroy t.
End handle_packet.
