(* ===== verification/HandlePacketFacts.v ===== *)
(** * Facts about packet handling: [handle_packet] preserves the invariant of
    the server, whatever the device sends within the protocol *)

From S2P Require Import Prelude State CString CStringFacts LibBase LibBaseFacts Types TypesFacts.
From S2P Require Import AdbIO AdbIOFacts Packets PacketsFacts Nonblocking Transport.
From S2P Require Import TransportFacts HostService SocketSpec SocketSpecFacts Env Sockets SocketsWp SocketsInv.
From S2P Require Import SocketsIO SocketsSafe SocketsFrame TrackersFacts Listeners ServerInv ListenersFacts.
From S2P Require Import LifecycleFacts HostRequest HostRequestFacts SmartSockets SmartSocketsFacts.
From S2P Require Import EventsFacts HandlePacket.
Local Open Scope Z_scope.
Local Open Scope record_scope.

(** ** The banner *)

(** What the banner leaves alone; the names it sets are free of NUL. *)
Record banner_like (a a' : atransport) : Prop := {
  bl_id : id a' = id a;
  bl_online : online a' = online a;
  bl_max : max_payload a' = max_payload a;
  bl_disconnects : disconnects_ a' = disconnects_ a;
  bl_names : quals_ok a → quals_ok a'
}.

#[export] Instance banner_like_preorder : PreOrder banner_like.
Proof.
  split; [by intros a; constructor|]. intros a b c [] []. constructor; [congruence..|by auto].
Qed.

Lemma split_ref_subset ds s p b : p ∈ split_ref ds s → b ∈ p → b ∈ s.
Proof.
  revert p. induction s as [|c s IH]; intros p; cbn.
  - intros ->%list_elem_of_singleton. done.
  - case_bool_decide.
    + intros [->|Hp]%elem_of_cons Hb; [by apply not_elem_of_nil in Hb|]. right. by eapply IH.
    + destruct (split_ref ds s) as [|q qs].
      * intros ->%list_elem_of_singleton Hb%list_elem_of_singleton. subst. by left.
      * intros [->|Hp]%elem_of_cons Hb; [|right; eapply IH; [by right|done]].
        apply elem_of_cons in Hb as [->|Hb]; [by left|]. right. eapply IH; [by left|done].
Qed.

Lemma StringToFeatureSet_total s : ∃ fs, StringToFeatureSet s = Ret fs.
Proof. unfold StringToFeatureSet. case_bool_decide; [eauto|]. rewrite Split_ref by done. eauto. Qed.

Lemma SetFeatures_total env a s : ∃ a', SetFeatures env a s = Ret a' ∧ banner_like a a'.
Proof. unfold SetFeatures. destruct (StringToFeatureSet_total s) as [fs ->]. mstep. by eexists. Qed.

Lemma banner_props_total env ps : ∀ a,
  Forall (λ p, NUL ∉ p) ps → ∃ a', banner_props env a ps = Ret a' ∧ banner_like a a'.
Proof.
  induction ps as [|p ps IH]; intros a; cbn [banner_props]; [by eexists|].
  intros [Hp Hps]%Forall_cons.
  assert (∃ a', banner_prop env a p = Ret a' ∧ banner_like a a') as (a' & -> & Ha).
  { unfold banner_prop. case_bool_decide; [by eexists|]. rewrite Split_ref by done. mstep.
    pose proof (split_ref_subset (str "=") p) as Hsub. destruct (split_ref _ p) as [|k [|v [|]]]; try (by eexists).
    assert (NUL ∉ v) as Hv by (intros Hin; apply Hp; eapply Hsub; [right; by left|done]).
    repeat case_bool_decide; [..|apply SetFeatures_total|]; eexists; (split; [done|]);
      constructor; try done; intros [? ?]; by split. }
  mstep. destruct (IH a' Hps) as (b & -> & Hb). eexists. split; [done|]. by etrans.
Qed.

Lemma banner_state_online ty : banner_state ty ≠ kCsOffline.
Proof. unfold banner_state. by repeat case_bool_decide. Qed.

Lemma parse_banner_total env banner a :
  NUL ∉ banner →
  ∃ a', parse_banner env banner a = Ret a' ∧ banner_like a a' ∧ connection_state_ a' ≠ kCsOffline.
Proof.
  intros Hn. unfold parse_banner. rewrite Split_ref by done. mstep.
  pose proof (split_ref_subset (str ":") banner) as Hsub.
  destruct (split_ref_cons (str ":") banner) as (p & ps & Eps). rewrite Eps in *.
  destruct (SetFeatures_total env a []) as (a1 & -> & H1). mstep.
  assert (∃ a2, match (p :: ps) !! 2%nat with
                | Some props => ps ← Split props (str ";"); banner_props env a1 ps
                | None => Ret a1
                end = Ret a2 ∧ banner_like a1 a2) as (a2 & -> & H2).
  { destruct ((p :: ps) !! 2%nat) as [props|] eqn:E; [|by eexists]. rewrite Split_ref by done. mstep.
    apply banner_props_total, Forall_forall. intros x Hx Hin. apply Hn.
    eapply Hsub; [by eapply list_elem_of_lookup_2|]. by eapply split_ref_subset. }
  mstep. cbn. eexists. split_and!; [done| |apply banner_state_online].
  destruct H1 as [? ? ? ? N1], H2 as [? ? ? ? N2]. constructor; cbn; [congruence..|]. intros Hq. exact (N2 (N1 Hq)).
Qed.

Lemma returns_publickey junk userkey : returns tlike (send_auth_publickey junk userkey).
Proof.
  intros a. unfold send_auth_publickey. case_bool_decide; [done|]. destruct (_ <=? _); [done|].
  apply returns_made.
Qed.

Lemma returns_tls junk `{HE : !Env} :
  returns tlike (λ a, a ← send_tls_request junk (a <| use_tls := true |>); adb_auth_tls_handshake a).
Proof.
  intros a. pose proof (returns_made junk A_STLS A_STLS_VERSION 0 [] (a <| use_tls := true |>)) as H.
  cbv beta in H. unfold send_tls_request. destruct (mbind _ _) as [a1| | |]; mstep; [|done..].
  assert (∀ k b, tlike a1 b → tlike a (if DoTlsHandshake k b then b else Kick b)) as Hk.
  { intros k b Hb. transitivity b; [|destruct (DoTlsHandshake k b); [done|apply tlike_kick]].
    transitivity a1; [|done]. by destruct H; constructor. }
  unfold adb_auth_tls_handshake. destruct (Key a1); mstep; [by apply Hk|]. unfold NextKey.
  destruct (keys_ a1) as [|k ks]; mstep.
  - destruct (negb _); mstep; [|done]. destruct (Key _); mstep; [|done]. by apply Hk.
  - destruct (Key _); mstep; [|done]. by apply Hk.
Qed.

Lemma NextKey_like keys a :
  match NextKey keys a with Ret (_, a') => tlike a a' | Abort => True | _ => False end.
Proof. unfold NextKey. destruct (keys_ a); mstep; [destruct (negb _); mstep|]; done. Qed.

(** ** Finding sockets *)

Lemma wp_find_in w l lid pid :
  inv None w → (∀ p, p ∈ l → is_Some (sockets w !! p)) →
  wp (find_in l lid pid)
     (λ r w', w' = w ∧ match r with
        | Some p => p ∈ l ∧ ∃ s, sockets w !! p = Some s ∧ sid s = lid ∧
            (pid = 0 ∨ ∃ q s', peer s = Some q ∧ sockets w !! q = Some s' ∧ sid s' = pid)
        | None => True
        end) w.
Proof.
  intros H. induction l as [|p l IH]; intros Hl; cbn [find_in]; [by wp_go|].
  destruct (Hl p) as [s E]; [by left|]. wp_go.
  destruct (Z.eqb_spec (sid s) lid) as [Hid|Hid]; cbn [negb].
  2:{ eapply wp_mono; [apply IH; intros; apply Hl; by right|].
      intros [a|] w' [-> Ha]; [|done]. split; [done|]. destruct Ha as [? ?]. split; [by right|done]. }
  destruct (Z.eqb_spec pid 0) as [Hp|Hp]; wp_go.
  { split; [done|]. split; [by left|]. eauto. }
  destruct (peer s) as [q|] eqn:Hq; wp_go; [|done].
  destruct (inv_peer _ _ H p s q) as (_ & _ & s' & E' & _); [done..|]. wp_go. split; [done|].
  destruct (Z.eqb_spec (sid s') pid); [|done]. split; [by left|]. exists s. eauto 10.
Qed.

(** A socket that [find_local_socket] returns is a live, open local socket with
    that id, whose peer has the given id when one was given. *)
Lemma wp_find_local_socket w lid pid :
  wf w → wp (find_local_socket lid pid)
     (λ r w', w' = w ∧ match r with
        | Some p => ∃ s, sockets w !! p = Some s ∧ is_local s ∧ closing s = false ∧ sid s = lid ∧
            (pid = 0 ∨ ∃ q s', peer s = Some q ∧ sockets w !! q = Some s' ∧ sid s' = pid)
        | None => True
        end) w.
Proof.
  intros [H _]. unfold find_local_socket. wp_go. eapply wp_mono; [apply wp_find_in; [done|]|].
  { intros p (s & E & _)%(inv_list _ _ H). eauto. }
  intros [p|] w' [-> Hp]; [|done]. split; [done|]. destruct Hp as [Hin (s & E & ? & ?)].
  apply (inv_list _ _ H) in Hin as (s2 & E2 & ? & ?). simplify_eq. eauto 10.
Qed.

Section handlers.
Context (junk : nat → byte) `{HE : !Env}.
Local Abbreviation enqueue := (socket_enqueue junk).

(** The invariant holds afterwards and the transport still exists. *)
Definition handled (t : Z) (w' : world) : Prop := server_ok w' ∧ is_Some (transports w' !! t).

(** A change of the transport that does not take it offline. *)
Lemma wp_change t a a' f w :
  server_ok w → transports w !! t = Some a → f a = Ret a' → disconnects_ a' = disconnects_ a →
  quiet None w t a' → (connection_state_ a' = kCsOffline → connection_state_ a = kCsOffline) →
  wp (on_transport t f) (λ _ w', server_ok w' ∧ transports w' !! t = Some a') w.
Proof.
  intros H E Ef Hd Hq Hs. eapply wp_on_transport; [done..|]. split; [by eapply server_set_transport|].
  rec_simpl. apply lookup_insert_eq.
Qed.

Lemma quiet_tlike y w t a a' : tlike a a' → quiet y w t a → quiet y w t a'.
Proof.
  intros [Ei Es Eo Em [Ep Ed] _] [H1 H2 H3 H4]. constructor; [congruence|by rewrite Em|by rewrite Ep, Ed|].
  by rewrite Es, Eo.
Qed.

Lemma wp_change_tlike t a a' f w :
  server_ok w → transports w !! t = Some a → f a = Ret a' → tlike a a' →
  wp (on_transport t f) (λ _ w', server_ok w' ∧ transports w' !! t = Some a') w.
Proof.
  intros H E Ef Ht. apply (wp_change t a); try done; [apply Ht|eapply quiet_tlike, H; done|].
  by rewrite (tl_state _ _ Ht).
Qed.

Lemma safe_transport t f w :
  server_ok w → is_Some (transports w !! t) → returns tlike f → safe (on_transport t f) (λ _ w', handled t w') w.
Proof.
  intros H E Hf. eapply safe_mono; [by apply (safe_tlike None)|]. by intros [] w' (? & _ & ? & _).
Qed.

(** ** CNXN *)

Lemma safe_new_connection t a p w :
  server_ok w → transports w !! t = Some a → 0 ≤ arg1 (msg p) → NUL ∉ Block.content (payload p) →
  safe (handle_new_connection junk t p) (λ _ w', handled t w') w.
Proof.
  intros H E Hp Hn. unfold handle_new_connection.
  eapply safe_bind, safe_mono; [by eapply safe_handle_offline; [exact _|..]|].
  intros [] w1 [H1 _ (a1 & E1 & Hoff & _) _]. destruct (sv_quiet _ _ H1 t a1 E1) as [Q1 Q2 Q3 Q4].
  set (a2 := update_version a1 (arg0 (msg p)) (arg1 (msg p))). apply safe_wp_bind.
  eapply wp_mono; [apply (wp_change t a1 a2); try done|].
  { constructor; try done. cbn. unfold MAX_PAYLOAD. lia. }
  intros [] w2 [H2 E2].
  destruct (parse_banner_total env (Block.content (payload p)) a2 Hn) as (a3 & E3 & [B1 B2 B3 B4 B5] & Hst).
  apply safe_wp_bind. eapply wp_mono; [apply (wp_change t a2 a3); try done|].
  { destruct (sv_quiet _ _ H2 t a2 E2) as [R1 R2 R3 _]. constructor; [congruence|by rewrite B3|by apply B5|done]. }
  intros [] w3 [H3 Ew3]. eapply safe_bind, safe_mono; [apply safe_update_transports; [exact _|apply H3..]|].
  intros [] w4 Hn4. destruct (evolves_lookup _ _ _ _ _ (nt_evolves _ _ Hn4) Ew3) as (a4 & E4 & Ht4).
  pose proof (notified_server _ _ _ H3 Hn4) as H4. apply wp_safe.
  assert (connection_state_ (handle_online a4) ≠ kCsOffline) as Hst4.
  { unfold handle_online, SetConnectionEstablished. destruct (established_ _); cbn; by rewrite (tl_state _ _ Ht4). }
  eapply wp_mono; [apply (wp_change t a4 (handle_online a4)); try done|].
  { unfold handle_online, SetConnectionEstablished. by destruct (established_ _). }
  { destruct (sv_quiet _ _ H4 t a4 E4). unfold handle_online, SetConnectionEstablished in *.
    destruct (established_ _); by constructor. }
  intros [] w5 [? ?]. split; eauto.
Qed.

(** ** AUTH *)

Lemma safe_auth_response token t w :
  server_ok w → is_Some (transports w !! t) →
  safe (send_auth_response junk token t) (λ _ w', handled t w') w.
Proof.
  intros H [a E]. unfold send_auth_response. safe_go. pose proof (NextKey_like private_keys a) as Hk.
  destruct (NextKey private_keys a) as [[key a1]| | |]; [|done..]. eapply safe_wp_bind, wp_lift; [done|].
  apply safe_wp_bind. eapply wp_mono; [by apply (wp_change_tlike t a a1)|]. intros [] w1 [H1 E1].
  destruct key as [k|].
  - case_bool_decide; [safe_go; by split; eauto|]. apply safe_transport; [done|by eauto|apply returns_made].
  - eapply safe_bind, safe_mono; [by eapply safe_set_live; [exact _|..]|]. intros [] w2 [H2 Hn2].
    assert (is_Some (transports w2 !! t)) as E2.
    { eapply evolves_alive; [apply Hn2|]. rec_simpl. rewrite lookup_insert_eq. eauto. }
    eapply safe_bind, safe_mono; [apply safe_transport; [done..|]|].
    { intros b. unfold SetConnectionEstablished. by destruct (established_ b). }
    intros [] w3 [H3 E3]. apply safe_transport; [done..|apply returns_publickey].
Qed.

Lemma safe_auth t a p w :
  server_ok w → transports w !! t = Some a → arg0 (msg p) = ADB_AUTH_TOKEN →
  safe (handle_auth junk t p) (λ _ w', handled t w') w.
Proof.
  intros H E Hp. unfold handle_auth. safe_go. destruct (use_tls a); [safe_go; by split; eauto|].
  rewrite Hp, Z.eqb_refl. apply safe_bind, safe_mono with (Q := λ _ w', handled t w').
  { case_bool_decide; [safe_go; by split; eauto|].
    eapply safe_mono; [by eapply safe_set_live; [exact _|..]|]. intros [] w2 [H2 Hn2]. split; [done|].
    eapply evolves_alive; [apply Hn2|]. rec_simpl. rewrite lookup_insert_eq. eauto. }
  intros [] w1 [H1 E1]. by apply safe_auth_response.
Qed.

(** ** CLSE and WRTE *)

Lemma safe_close t a p w :
  server_ok w → transports w !! t = Some a → safe (handle_close junk t p) (λ _ w', handled t w') w.
Proof.
  intros Hs E. pose proof (sv_wf _ _ Hs) as H. assert (handled t w) as Hh by (by split; eauto).
  unfold handle_close. safe_go. destruct (_ && _); [|by safe_go].
  apply safe_wp_bind. eapply wp_mono; [by apply wp_find_local_socket|].
  intros [s|] w' [-> Hs']; [|by safe_go]. destruct Hs' as (so & Es & Hl & Hc & _). safe_go.
  apply safe_wp_bind, wp_mono with (Q := λ _ w1, w1 = w).
  { destruct (peer so) as [q|] eqn:Hq; [|by wp_go]. destruct (_ =? _); [|by wp_go].
    destruct (inv_peer _ _ (wf_inv _ H) s so q) as (_ & _ & s' & E' & _); [done..|]. by wp_go. }
  intros foreign w1 ->. destruct foreign; [by safe_go|]. apply wp_safe.
  eapply wp_mono; [apply (wp_evolves None); [apply keeps_close|by eapply wp_socket_close]|].
  intros [] w' [[Hw _] Hev]. split; [by eapply evolves_server|]. eapply evolves_alive; [done|by eauto].
Qed.

Lemma safe_write t a p w :
  server_ok w → transports w !! t = Some a → Block.wf (payload p) →
  queued w + Block.size_ (payload p) < 2 ^ 63 →
  safe (handle_write junk t p) (λ _ w', handled t w') w.
Proof.
  intros Hs E Hd Hroom. pose proof (sv_wf _ _ Hs) as H. assert (handled t w) as Hh by (by split; eauto).
  unfold handle_write. safe_go. destruct (_ && _); [|by safe_go].
  apply safe_wp_bind. eapply wp_mono; [by apply wp_find_local_socket|].
  intros [s|] w' [-> Hs']; [|by safe_go]. destruct Hs' as (so & Es & Hl & Hc & _).
  apply safe_bind. unfold safe. rewrite (local_enqueue (junk := junk) s so _ w Es Hl).
  assert (local_ok so) as Hok by (eapply inv_local_ok; [apply H|done..]). pose proof (queued_elem w s so Es Hok) as Hle.
  eapply (safe_mono (local_socket_enqueue junk s (payload p))); [apply wp_safe, (wp_evolves None); [apply keeps_local_enqueue|]|].
  { eapply wp_local_enqueue; try done. lia. }
  intros r w' [(fr & _ & Hf) Hev]. apply wp_ret. split; [eapply evolves_server; [done|apply Hf|done..]|].
  eapply evolves_alive; [done|by eauto].
Qed.

(** ** OKAY *)

(** The socket [p] is open; nothing but sockets bound to [x] was added since [w]. *)
Record carried (x : option Z) (p : nat) (w w' : world) : Prop := {
  ca_wf : wf w';
  ca_evolves : evolves x w w';
  ca_open : ∃ s, sockets w' !! p = Some s ∧ is_local s ∧ closing s = false
}.

Lemma wp_carried_ready x p w w1 :
  carried x p w w1 → wp (socket_ready junk enqueue p) (λ _ w', carried x p w w') w1.
Proof.
  intros [H Hev (s & E & Hl & Hc)]. eapply wp_mono; [by eapply wp_local_ready|]. intros [] w' [Hw Hr].
  split; [done| |by eapply made_ready_live]. etrans; [done|]. by eapply made_ready_evolves.
Qed.

Lemma wp_carried_ack x p acked w w1 :
  carried x p w w1 → wp (local_socket_ack junk enqueue p acked) (λ _ w', carried x p w w') w1.
Proof.
  intros [H Hev (s & E & Hl & Hc)]. unfold local_socket_ack. wp_go.
  assert (carried x p w w1) as H1 by (split; eauto).
  destruct (available_send_bytes s) as [n|], acked as [k|]; wp_go; [|done|done|by apply wp_carried_ready].
  set (s1 := s <| available_send_bytes := Some (n + k) |>).
  assert (carried x p w (w1 <| sockets ::= <[p := s1]> |>)) as H2.
  { split.
    - eapply wf_store_local; try done. apply (local_ok_acked s). eapply inv_local_ok; [apply H|done..].
    - etrans; [done|]. apply evolves_sockets; [done..|]. intros t _ U a sa. rec_simpl.
      intros [[<- <-]|[_ Ea]]%lookup_insert_Some Hca; [by apply (U p s)|by eapply U].
    - exists s1. rec_simpl. by rewrite lookup_insert_eq. }
  destruct (0 <? n + k); [by apply wp_carried_ready|by wp_go].
Qed.

Lemma keeps_attach_remote p rid t : keeps (Some t) (attach_remote p rid t).
Proof.
  unfold attach_remote, create_remote_socket. keeps_go. apply keeps_new. by intros t' [= ->].
Qed.

(** An online transport is not offline. *)
Lemma online_state t a w t' a' :
  server_ok w → transports w !! t = Some a → online a = true → Some t = Some t' → transports w !! t' = Some a' →
  connection_state_ a' ≠ kCsOffline.
Proof.
  intros H E Ho [= <-] E' Hoff. simplify_eq. destruct (qu_offline _ _ _ _ (sv_quiet _ _ H t a E)); congruence.
Qed.

Lemma carried_handled t a p w w' :
  server_ok w → transports w !! t = Some a → online a = true → carried (Some t) p w w' → handled t w'.
Proof.
  intros H E Ho [Hw Hev _]. split; [|eapply evolves_alive; [done|by eauto]].
  eapply evolves_server; [done..|]. intros t' a' Ht E' _. by eapply (online_state t a).
Qed.

(** The local socket [s] of an OPEN or OKAY packet gets a remote peer on [t]. *)
Lemma wp_attach s so rid t a w (Q : nat → world → Prop) :
  wf w → sockets w !! s = Some so → is_local so → closing so = false → peer so = None →
  transports w !! t = Some a → rid ≠ 0 →
  (∀ q so' w1, wf w1 → sockets w1 !! s = Some so' → so' = so <| peer := Some q |> →
     is_Some (transports w1 !! t) → Q q w1) →
  wp (attach_remote s rid t) Q w.
Proof.
  intros H Es Hl Hc Hp E Hr HQ. eapply wp_attach_remote; [apply H|done|done|].
  eapply HQ; [by eapply wf_add_remote; eauto| |done|rec_simpl; eauto].
  unfold add_remote, add_peer. rec_simpl.
  rewrite lookup_insert_ne by (pose proof (inv_fresh _ _ (wf_inv _ H) s so Es); lia).
  apply lookup_insert_eq.
Qed.

Lemma wp_carried_attach s so rid t w w1 :
  carried (Some t) s w w1 → sockets w1 !! s = Some so → peer so = None → is_Some (transports w1 !! t) → rid ≠ 0 →
  wp (attach_remote s rid t) (λ _ w', carried (Some t) s w w' ∧ is_Some (transports w' !! t)) w1.
Proof.
  intros [H Hev (so' & Es & Hl & Hc)] E Hp [a Ea] Hr. rewrite E in Es. injection Es as <-.
  eapply wp_mono; [apply (wp_evolves (Some t)); [apply keeps_attach_remote|]|].
  { eapply (wp_attach s so rid t a w1 (λ _ w', wf w' ∧ ∃ s2, sockets w' !! s = Some s2 ∧ is_local s2 ∧ closing s2 = false)); try done.
    intros q so' w2 H2 E2 -> _. split; [done|]. by eexists. }
  intros q w2 [(H2 & Hs2) Hev2]. split; [split; [done|by etrans|done]|]. eapply evolves_alive; [done|by eauto].
Qed.

Lemma safe_okay t a p w :
  server_ok w → transports w !! t = Some a → safe (handle_okay junk t p) (λ _ w', handled t w') w.
Proof.
  intros Hs E. assert (handled t w) as Hh by (by split; eauto). unfold handle_okay. safe_go.
  destruct (online a && negb (arg0 (msg p) =? 0) && negb (arg1 (msg p) =? 0)) eqn:Hcond; [|by safe_go].
  apply andb_true_iff in Hcond as [[Ho Hr%negb_true_iff%Z.eqb_neq]%andb_true_iff _].
  pose proof (sv_wf _ _ Hs) as H. apply safe_wp_bind. eapply wp_mono; [by apply wp_find_local_socket|].
  intros [s|] w' [-> Hso]; [|apply safe_transport; [done|by eauto|apply returns_close]].
  destruct Hso as (so & Es & Hl & Hc & _). destruct (_ && _); [by safe_go|]. safe_go.
  generalize (if Block.size_ (payload p) =? 4 then s32 <$> le32_dec (Block.content (payload p)) else None) as acked.
  assert (carried (Some t) s w w) as H0 by (split; eauto; done).
  intros acked. destruct (peer so) as [q|] eqn:Hq.
  - destruct (inv_peer _ _ (wf_inv _ H) s so q) as (_ & _ & s' & E' & _); [done..|]. safe_go.
    destruct (_ =? _); [|by safe_go]. apply wp_safe.
    eapply wp_mono; [by apply wp_carried_ack|]. intros [] w'. by apply (carried_handled t a s w).
  - apply safe_wp_bind. eapply wp_mono; [by eapply wp_carried_attach; eauto|]. intros q w1 [H1 _].
    apply safe_wp_bind. eapply wp_mono; [by apply wp_carried_ack|]. intros [] w2 H2. apply wp_safe.
    eapply wp_mono; [by apply wp_carried_ready|]. intros [] w3. by apply (carried_handled t a s w).
Qed.

(** ** OPEN *)

Lemma StripTrailingNulls_prefix s : ∃ k, StripTrailingNulls s ++ k = s.
Proof.
  unfold StripTrailingNulls. assert (∀ l, ∃ k, l = k ++ strip_leading_nulls l) as H.
  { induction l as [|b l [k IH]]; [by exists []|]. cbn. case_bool_decide; [|by exists []].
    exists (b :: k). cbn. by rewrite <- IH. }
  destruct (H (reverse s)) as [k E]. exists (reverse k). rewrite <- reverse_app, <- E. apply reverse_involutive.
Qed.

(** The address and what follows it in memory are the payload's array. *)
Lemma open_address b : Block.wf b →
  let data := default [] (Block.data_ b) in
  let address := StripTrailingNulls (Block.content b) in
  address ++ drop (length address) data = data.
Proof.
  intros Hb. cbv zeta. destruct (StripTrailingNulls_prefix (Block.content b)) as [k E].
  unfold Block.content in *. destruct (Block.data_ b) as [d|]; cbn [default] in *.
  2:{ destruct (StripTrailingNulls []); done. }
  set (address := StripTrailingNulls _) in *. clearbody address.
  assert (d = address ++ k ++ zdrop (Block.size_ b) d) as Hd by (by rewrite app_assoc, E, ztake_zdrop).
  generalize dependent (k ++ zdrop (Block.size_ b) d). intros r ->. unfold Datatypes.id. by rewrite drop_app_length.
Qed.

Lemma keeps_service_socket address after t :
  keeps (Some t) (create_local_service_socket address after t).
Proof.
  unfold create_local_service_socket. keeps_go; [apply keeps_socket_on|apply keeps_bind_transport].
Qed.

Lemma safe_service_socket address after t w :
  server_ok w → is_Some (transports w !! t) → NUL ∈ address ++ after →
  safe (create_local_service_socket address after t)
    (λ r w', is_Some (transports w' !! t) ∧ match r with
       | Some p => carried (Some t) p w w' ∧ ∃ s, sockets w' !! p = Some s ∧ peer s = None
       | None => w' = w
       end) w.
Proof.
  intros H Ht Hn. pose proof (keeps_service_socket address after t) as Hk.
  eapply safe_mono; [apply (safe_evolves _ _ (λ r w', is_Some (transports w' !! t) ∧ match r with
       | Some p => wf w' ∧ ∃ s, sockets w' !! p = Some s ∧ is_local s ∧ closing s = false ∧ peer s = None
       | None => w' = w
       end) w Hk)|].
  2:{ intros [p|] w' [[Et Hr] Hev]; (split; [done|]); [|done].
      destruct Hr as (Hw & s & E & Hl & Hc & Hp). split; [split; eauto; done|eauto]. }
  clear Hk. unfold create_local_service_socket.
  assert (∃ d, service_to_fd address after = Ret d) as [d Ed].
  { unfold service_to_fd. destruct (is_socket_spec address); [|eauto].
    destruct (connect_destination_total address after 0 Hn) as [r ->]. mstep. eauto. }
  eapply safe_wp_bind, wp_lift; [done|]. destruct d as [d|]; [|by safe_go].
  eapply safe_bind, safe_mono; [by apply safe_new_socket; apply H|].
  intros p w1 [Hw1 _ Ht1 _ (s & E & Hl & Hc & Hp & _) _]. safe_go. rewrite <- Ht1 in Ht. split; [exact Ht|].
  split; [by apply wf_bind_transport|]. eexists. split; [apply lookup_insert_eq|done].
Qed.

Lemma safe_carried_send x p t f w w1 :
  carried x p w w1 → is_Some (transports w1 !! t) → returns tlike f →
  safe (on_transport t f) (λ _ w', carried x p w w') w1.
Proof.
  intros [H Hev Ho] Et Hf. eapply safe_mono; [apply (safe_evolves x)|].
  - apply keeps_on_transport, returns_sends, Hf.
  - by eapply safe_send.
  - intros [] w2 [[Hw Hs] Hev2]. split; [done|by etrans|by rewrite Hs].
Qed.

Lemma safe_open t a p w :
  server_ok w → transports w !! t = Some a → Block.wf (payload p) →
  NUL ∈ default [] (Block.data_ (payload p)) →
  safe (handle_open junk t p) (λ _ w', handled t w') w.
Proof.
  intros Hs E Hb Hn. unfold handle_open. safe_go.
  destruct (negb (online a) || (arg0 (msg p) =? 0)) eqn:Hcond; [safe_go; by split; eauto|].
  apply orb_false_iff in Hcond as [Ho%negb_false_iff Hr%Z.eqb_neq].
  destruct (negb _). { apply safe_transport; [done|by eauto|apply returns_close]. }
  rewrite c_str_of_buffer_ok by done. eapply safe_wp_bind, wp_lift; [done|].
  apply safe_bind, safe_check. intros _. cbv zeta.
  apply safe_bind. eapply safe_mono; [apply safe_service_socket; [done|by eauto|by rewrite open_address]|].
  intros [s|] w1 [Et Hso]; [|subst w1; apply safe_transport; [done..|apply returns_close]].
  destruct Hso as (H1 & so & Es & Hp). apply safe_wp_bind.
  eapply wp_mono; [by eapply wp_carried_attach|]. intros q w2 [H2 Et2].
  destruct (ca_open _ _ _ _ H2) as (s2 & Es2 & Hl2 & Hc2). safe_go.
  apply safe_bind, safe_mono with (Q := λ _ w', carried (Some t) s w w').
  2:{ intros [] w3 H3. apply wp_safe. eapply wp_mono; [by apply wp_carried_ready|].
      intros [] w4. by apply (carried_handled t a s w). }
  destruct (SupportsDelayedAck a); [|apply safe_carried_send; [done..|apply returns_ready]].
  safe_go. apply safe_carried_send; [|done|apply returns_ready]. destruct H2 as [Hw2 Hev2 _]. split.
  - eapply wf_store_local; try done. apply (local_ok_acked s2). eapply inv_local_ok; [apply Hw2|done..].
  - etrans; [done|]. apply evolves_sockets; [done..|]. intros t' _ U b sb. rec_simpl.
    intros [[<- <-]|[_ Eb]]%lookup_insert_Some Hcb; [by apply (U s s2)|by eapply U].
  - eexists. split; [apply lookup_insert_eq|]. done.
Qed.

(** ** The whole dispatcher *)

(** What a packet must satisfy: a payload as the connections deliver it, with
    room for it; no NUL in a banner; no AUTH packet other than a token; the
    address of an OPEN packet terminated. *)
Record packet_ok (p : apacket) (w : world) : Prop := {
  pk_payload : Block.wf (payload p);
  pk_room : queued w + Block.size_ (payload p) < 2 ^ 63;
  pk_arg1 : 0 ≤ arg1 (msg p);
  pk_banner : command (msg p) = A_CNXN → NUL ∉ Block.content (payload p);
  pk_auth : command (msg p) = A_AUTH → arg0 (msg p) = ADB_AUTH_TOKEN;
  pk_open : command (msg p) = A_OPEN → NUL ∈ default [] (Block.data_ (payload p))
}.

Lemma safe_packet t a p w :
  server_ok w → transports w !! t = Some a → packet_ok p w →
  safe (handle_packet junk p t) (λ _ w', handled t w') w.
Proof.
  intros H E [Hb Hroom Ha1 Hba Hau Hop]. unfold handle_packet. apply safe_bind, safe_check. intros _. cbv zeta.
  destruct (Z.eqb_spec (command (msg p)) A_CNXN); [by eapply safe_new_connection; auto|].
  destruct (_ =? A_STLS); [apply safe_transport; [done|by eauto|apply returns_tls]|].
  destruct (Z.eqb_spec (command (msg p)) A_AUTH); [by eapply safe_auth; auto|].
  destruct (Z.eqb_spec (command (msg p)) A_OPEN); [by eapply safe_open; auto|].
  destruct (_ =? A_OKAY); [by eapply safe_okay|].
  destruct (_ =? A_CLSE); [by eapply safe_close|].
  destruct (_ =? A_WRTE); [by eapply safe_write|].
  safe_go. by split; eauto.
Qed.

Lemma safe_read t a p w :
  server_ok w → transports w !! t = Some a → (HandleRead a p = true → packet_ok p w) →
  safe (handle_read junk p t) (λ _ w', handled t w') w.
Proof.
  intros H E Hp. unfold handle_read. safe_go. destruct (HandleRead a p); [|safe_go; by split; eauto].
  eapply safe_bind, safe_mono; [by eapply safe_packet; auto|]. intros [] w' Hh. by safe_go.
Qed.

(** A disconnect: the transport is offline, and whatever becomes of it, no
    socket uses it. *)
Lemma safe_handle_error t a w :
  server_ok w → transports w !! t = Some a →
  safe (handle_error junk t) (λ _ w', handled t w' ∧ unused t w' ∧
    ∀ a', transports w' !! t = Some a' → connection_state_ a' = kCsOffline) w.
Proof.
  intros H E. unfold handle_error. eapply safe_bind, safe_mono; [by eapply safe_handle_offline; [exact _|..]|].
  intros [] w1 [H1 Hu (a1 & E1 & Hoff & _) _]. unfold transport_destroy. apply safe_wp_bind.
  eapply wp_mono; [by apply (wp_change_tlike t a1 (a1 <| stops ::= S |>)); [..|constructor]|].
  intros [] w2 [H2 E2].
  assert (∀ w' a', server_ok w' → transports w' !! t = Some a' → connection_state_ a' = kCsOffline →
    handled t w' ∧ unused t w' ∧ ∀ a', transports w' !! t = Some a' → connection_state_ a' = kCsOffline) as Hdone.
  { intros w' a' H' E' Ho'. split_and!; [by split; eauto| |intros; by simplify_eq].
    by destruct (qu_offline _ _ _ _ (sv_quiet _ _ H' t a' E')). }
  safe_go. destruct (_ && _); [|safe_go; by eapply Hdone]. apply safe_wp_bind.
  eapply wp_mono; [by eapply (wp_change_tlike t); [..|constructor]|]. intros [] w3 [H3 E3]. safe_go. by eapply Hdone.
Qed.
End handlers.
