(* ===== verification/Server.v ===== *)
(** * The server: what its main thread runs

    Everything that changes sockets, transports and listeners runs on one
    thread, in handlers of descriptors and in tasks posted to it: packets and
    errors of the connections, clients' sockets, listeners, devices that come
    and go.  A server that was started is in a state reached by a sequence of
    such events, in any order. *)

From S2P Require Import Prelude State CString LibBase Types AdbIO Packets Transport HostService.
From S2P Require Import SocketSpec Env Sockets Listeners HostRequest SmartSockets HandlePacket.
Local Open Scope Z_scope.
Local Open Scope record_scope.

Inductive event :=
| ERead (t : Z) (p : apacket)                          (* a packet of a connection *)
| EError (t : Z)                                       (* a connection failed or was closed *)
| ERegister (t : Z)                                    (* a transport is started *)
| EUnregister (t : Z)                                  (* the last reference to it is gone *)
| EUsb (serial devpath : bytes) (writeable : bool)     (* a USB device appears *)
| ETcp (serial : bytes) (port : Z) (local use_tls : bool)   (* a TCP connection is made *)
| EKick (t : Z) (reset : bool)
| EClient (conn : option (instream * outstream))       (* a connection to the server's port *)
| EForward (l : alistener) (conn : option (instream * outstream))   (* to a forwarded one *)
| ESocket (p : nat) (ev_read ev_write : bool)          (* the descriptor of a local socket *)
| ELinger (n : Z) (read timeout expired : bool)        (* of one in [deferred_close] *)
| EEnable.                                             (* the server accepts clients *)

Section server.
Context (junk : nat → byte) `{HE : !Env}.

Definition server_step (e : event) : M unit :=
  match e with
  | ERead t p => _ ← handle_read junk p t; mret tt
  | EError t => _ ← handle_error junk t; mret tt
  | ERegister t => fdevent_register_transport junk (socket_enqueue junk) t
  | EUnregister t => fdevent_unregister_transport junk (socket_enqueue junk) t
  | EUsb serial devpath writeable => _ ← register_usb_transport serial devpath writeable; mret tt
  | ETcp serial port local use_tls => _ ← register_socket_transport serial port local use_tls; mret tt
  | EKick t reset => kick_transport t reset
  | EClient conn => ss_listener_event_func junk (socket_enqueue junk) conn
  | EForward l conn => listener_event_func junk l conn
  | ESocket p ev_read ev_write => local_socket_event_func junk p ev_read ev_write
  | ELinger n read timeout expired => deferred_close_event n read timeout expired
  | EEnable => enable_server_sockets
  end.

Fixpoint server_run (es : list event) : M unit :=
  match es with
  | [] => mret tt
  | e :: es => _ ← server_step e; server_run es
  end.

Definition empty_world (f : gmap Z (instream * outstream)) (n : Z) : world :=
  World ∅ 0 1 [] [] f n [] ∅ [] [] [] [] 0 false 1 ∅.

(** [adb_server_main]: the listener for clients, not accepting yet. *)
Definition server_boot (socket_spec : bytes) : M unit :=
  '(st, _, _) ← install_listener socket_spec kSmartSocketConnectTo None false true;
  match st with INSTALL_STATUS_OK => mret tt | _ => lift Abort end.
End server.
