(* ===== verification/ServerFacts.v ===== *)
(** * Facts about the server: no sequence of events makes it go wrong *)

From S2P Require Import Prelude State CString CStringFacts LibBase LibBaseFacts Types TypesFacts.
From S2P Require Import AdbIO AdbIOFacts Packets PacketsFacts Nonblocking Transport.
From S2P Require Import TransportFacts HostService SocketSpec SocketSpecFacts Env Sockets SocketsWp SocketsInv.
From S2P Require Import SocketsIO SocketsSafe SocketsFrame TrackersFacts Listeners ServerInv ListenersFacts.
From S2P Require Import LifecycleFacts HostRequest HostRequestFacts SmartSockets SmartSocketsFacts.
From S2P Require Import EventsFacts HandlePacket HandlePacketFacts Server.
Local Open Scope Z_scope.
Local Open Scope record_scope.

(** ** Descriptors in [deferred_close] *)

Lemma adb_read_drains i len :
  0 < len ≤ MAX_RW_COUNT →
  match adb_read i len with
  | (ReadBytes [], _) => True
  | (ReadBytes _, i') => (drain_fuel i' < drain_fuel i)%nat
  | (ReadError _, _) => True
  end.
Proof.
  intros Hl. destruct i as [|[bs|e] i]; cbn -[Z.of_nat Z.min]; [done| |done]. rewrite Z.min_l by lia.
  destruct (Z.ltb_spec len (zlen bs)) as [Hlt|Hge].
  - destruct (ztake len bs) eqn:E; [done|]. unfold drain_fuel. cbn -[Z.of_nat].
    pose proof (zlen_zdrop len bs ltac:(lia)). lia.
  - destruct (ztake len bs) eqn:E; [done|]. unfold drain_fuel. cbn. lia.
Qed.

Lemma wp_drain n fuel : ∀ w,
  (drain_fuel (default [] (fst <$> fds w !! n)) ≤ fuel)%nat →
  wp (drain fuel n) (λ _ w', ∃ g, w' = w <| fds := g |>) w.
Proof.
  induction fuel as [|fuel IH]; intros w Hf; [unfold drain_fuel in Hf; lia|]. cbn [drain]. apply wp_bind.
  unfold wp, fd_read. destruct (fds w !! n) as [[i o]|] eqn:E; [|exists (fds w); by destruct w].
  cbn in Hf. pose proof (adb_read_drains i 8192 ltac:(unfold MAX_RW_COUNT; lia)) as Hd.
  destruct (adb_read i 8192) as [r i'] eqn:Er. set (w1 := w <| fds ::= <[n := (i', o)]> |>).
  assert (∃ g, w1 = w <| fds := g |>) as Hw1 by (exists (<[n := (i', o)]> (fds w)); by destruct w).
  destruct r as [[|b bs]|e]; [by apply wp_ret| |by apply wp_ret]. eapply wp_mono; [apply (IH w1)|].
  - unfold w1. rec_simpl. rewrite lookup_insert_eq. cbn. unfold Datatypes.id in *. lia.
  - intros x w' [g ->]. destruct Hw1 as [g' ->]. by exists g.
Qed.

Lemma wp_deferred_close n read timeout expired w :
  server_ok w → wp (deferred_close_event n read timeout expired) (λ _ w', server_ok w') w.
Proof.
  intros H. unfold deferred_close_event. apply wp_bind, wp_mono with (Q := λ _ w', ∃ g, w' = w <| fds := g |>).
  { destruct read; wp_go; [|exists (fds w); by destruct w].
    eapply wp_mono; [by apply wp_drain|]. intros r w' Hw. by wp_go. }
  intros wait w' [g ->]. apply (server_fds g) in H. destruct wait; wp_go; [done|].
  eapply (evolves_server None); [exact H| |by apply evolves_sockets|done].
  destruct (sv_wf _ _ H) as [[] Hp]. by split; [constructor|].
Qed.

(** ** Starting *)

Lemma server_enable w :
  server_ok w →
  server_ok (w <| listener_list ::= fmap (λ l, if isSmartSocket l then l <| l_read := true |> else l) |>).
Proof.
  intros H. set (f := λ l : alistener, if isSmartSocket l then l <| l_read := true |> else l).
  assert (∀ l, l_ptr (f l) = l_ptr l ∧ l_smart (f l) = l_smart l ∧ isSmartSocket (f l) = isSmartSocket l ∧
    l_transport (f l) = l_transport l) as Hf.
  { intros l. unfold f. destruct (isSmartSocket l) eqn:El; split_and!; done || exact El. }
  assert (l_ptr <$> (f <$> listener_list w) = l_ptr <$> listener_list w) as Hptr.
  { rewrite <- list_fmap_compose. apply list_fmap_ext. intros i l _. cbn. by destruct (Hf l). }
  apply (server_listeners None w); try done; rec_simpl.
  - by apply (wf_listeners (f <$> listener_list w) w (sv_wf _ _ H)).
  - intros t. destruct (transports w !! t); constructor. apply tnear_refl.
  - intros x (l & -> & Hin)%list_elem_of_fmap. destruct (Hf l) as (-> & -> & -> & ->).
    destruct (sv_listeners _ _ H l Hin) as [? ? ?]. done.
  - rewrite Hptr. apply H.
  - intros t a E. destruct (sv_disconnects _ _ H t a E) as [Hn Hd]. split; [done|]. intros d. rewrite Hd. split.
    + intros (l & Hin & Hp & Ht). exists (f l). destruct (Hf l) as (-> & _ & _ & ->).
      split_and!; [by apply list_elem_of_fmap_2|done..].
    + intros (x & (l & -> & Hin)%list_elem_of_fmap & Hp & Ht). exists l. destruct (Hf l) as (E1 & _ & _ & E2).
      split_and!; [done|congruence..].
Qed.

Lemma server_empty f n : server_ok (empty_world f n).
Proof.
  split; cbn; try done.
  - assert (empty_world f n = init_world ∅ f n) as ->; [|apply wf_init].
    unfold init_world. by rewrite map_to_list_empty.
  - by intros t [].
  - intros t [?%not_elem_of_nil|?%not_elem_of_nil]; done.
  - by intros l ?%not_elem_of_nil.
  - constructor.
Qed.

Lemma safe_boot `{HE : !Env} spec f n :
  safe (server_boot spec) (λ _ w', server_ok w') (empty_world f n).
Proof.
  unfold server_boot, install_listener, socket_spec_listen.
  destruct (listen_destination_total gListenAll spec [NUL]) as [r Er]; [apply elem_of_app; right; by left|].
  pose proof (server_empty f n) as H0. apply safe_bind. safe_go. cbn [listener_list empty_world extract].
  eapply safe_wp_bind, wp_lift; [by rewrite Er|]. destruct (match r with inl e => _ | inr l => _ end) as [e|port]; [done|].
  safe_go. set (l := Listener _ _ _ _ _ _ _).
  apply (server_listeners None (empty_world f n)); try done.
  - destruct (sv_wf _ _ H0) as [[] ?]. by split; [constructor|].
  - intros t. cbn. rewrite lookup_empty. constructor.
  - cbn. intros x ->%list_elem_of_singleton. split_and!; [cbn; lia|done..].
  - cbn. apply NoDup_singleton.
Qed.

(** ** Events that can happen *)

(** Of a descriptor: reading only while the server is interested in it, and no
    request to avoid.  Of a transport: its object is alive; the packets of a
    connection are as [packet_ok] says; the last event finds it offline, with no
    reference left. *)
Definition event_ok (e : event) (w : world) : Prop :=
  match e with
  | ERead t p => ∃ a, transports w !! t = Some a ∧ (HandleRead a p = true → packet_ok p w)
  | EError t | ERegister t => is_Some (transports w !! t)
  | EUnregister t =>
      (∃ a, transports w !! t = Some a ∧ connection_state_ a = kCsOffline) ∧ t ∉ pending_list w
  | EForward l _ => l ∈ listener_list w ∧ isSmartSocket l = false
  | ESocket p ev_read _ => ∃ s e, sockets w !! p = Some s ∧ is_local s ∧ fde s = Some e ∧
      (ev_read = true → FDE_READ e = true ∧ requests_fine p w)
  | _ => True
  end.

Section server.
Context (junk : nat → byte) `{HE : !Env}.

Inductive reach : world → Prop :=
| reach_boot spec f n w : server_boot spec (empty_world f n) = Ret (tt, w) → reach w
| reach_step w e w' : reach w → event_ok e w → server_step junk e w = Ret (tt, w') → reach w'.

Lemma safe_unit {A} (m : M A) (P : world → Prop) w :
  safe m (λ _ w', P w') w → safe (_ ← m; mret tt) (λ _ w', P w') w.
Proof. intros H. eapply safe_bind, safe_mono; [exact H|]. intros a w' H'. by safe_go. Qed.

Lemma safe_server_step e w :
  server_ok w → event_ok e w → safe (server_step junk e) (λ _ w', server_ok w') w.
Proof.
  intros H He. destruct e; cbn [server_step event_ok] in *.
  - destruct He as (a & E & Hp). apply safe_unit. eapply safe_mono; [by eapply safe_read|]. by intros b w' [? _].
  - destruct He as [a E]. apply safe_unit. eapply safe_mono; [by eapply safe_handle_error|]. by intros b w' [[? _] _].
  - by apply safe_register; [exact _|..].
  - destruct He as ((a & E & Ho) & Hp). by eapply safe_unregister; [exact _|..].
  - apply safe_unit, wp_safe. eapply wp_mono; [by apply wp_register_usb|]. by intros t w' [? _].
  - apply safe_unit, wp_safe. eapply wp_mono; [by apply wp_register_socket|]. by intros t w' [? _].
  - eapply safe_mono; [by apply safe_kick_transport|]. by intros [] w' [? _].
  - by apply safe_ss_listener_event.
  - destruct He as [Hl Hs]. by apply safe_listener_event.
  - destruct He as (s & e & E & Hl & Hf & Hr). eapply safe_event_func; [done..|]. intros Hrd.
    destruct (Hr Hrd) as [Hi ?]. split; [|done].
    destruct (lo_fde s) as (e' & He' & _ & Hcl); [eapply inv_local_ok; [apply H|done..]|]. simplify_eq.
    destruct (closing s); [|done]. destruct Hcl; [done|congruence].
  - by apply wp_safe, wp_deferred_close.
  - apply wp_safe, wp_modify, server_enable, H.
Qed.

Lemma reach_server_ok w : reach w → server_ok w.
Proof.
  induction 1 as [spec f n w E|w e w' _ IH He E].
  - pose proof (safe_boot spec f n) as H. unfold safe in H. by rewrite E in H.
  - pose proof (safe_server_step e w IH He) as H. unfold safe in H. by rewrite E in H.
Qed.
End server.

(** ** Examples *)

(** No proper prefix of what is still to come is a request to avoid either. *)
Definition requests_fineb (p : nat) (w : world) : bool :=
  match sockets w !! p with
  | Some s =>
      match peer s ≫= λ q, sockets w !! q, fds w !! fd s with
      | Some s', Some (i, _) =>
          forallb (λ k, request_fine (smart_socket_data s' ++ take k (arrived i))) (seq 0 (S (length (arrived i))))
      | _, _ => true
      end
  | None => true
  end.

Lemma requests_fineb_ok p w : requests_fineb p w = true → requests_fine p w.
Proof.
  unfold requests_fineb. intros H s q s' i o got E Hq E' _ Ef [k Hk]. rewrite E, Hq in H. cbn [mbind option_bind] in H.
  rewrite E', Ef in H.
  rewrite forallb_forall in H. specialize (H (length got)). rewrite Hk, take_app_length in H. apply H.
  apply in_seq. rewrite length_app. lia.
Qed.

Definition packet_okb (p : apacket) (w : world) : bool :=
  let b := payload p in
  match Block.data_ b with
  | None => (Block.capacity_ b =? 0) && (Block.size_ b =? 0)
  | Some d => (zlen d =? Block.capacity_ b) && (0 <? Block.capacity_ b) &&
              (0 <=? Block.size_ b) && (Block.size_ b <=? Block.capacity_ b)
  end &&
  (queued w + Block.size_ b <? 2 ^ 63) && (0 <=? arg1 (msg p)) &&
  bool_decide (command (msg p) = A_CNXN → NUL ∉ Block.content b) &&
  bool_decide (command (msg p) = A_AUTH → arg0 (msg p) = ADB_AUTH_TOKEN) &&
  bool_decide (command (msg p) = A_OPEN → NUL ∈ default [] (Block.data_ b)).

(** [event_ok], as far as the examples need it. *)
Definition event_okb (e : event) (w : world) : bool :=
  match e with
  | ERead t p => bool_decide (is_Some (transports w !! t)) && packet_okb p w
  | EError t | ERegister t => bool_decide (is_Some (transports w !! t))
  | EUnregister _ | EForward _ _ => false
  | ESocket p ev_read _ =>
      match sockets w !! p with
      | Some s =>
          match fde s with
          | Some e => bool_decide (is_local s) && (negb ev_read || FDE_READ e && requests_fineb p w)
          | None => false
          end
      | None => false
      end
  | _ => true
  end.

Lemma event_okb_ok e w : event_okb e w = true → event_ok e w.
Proof.
  destruct e as [t p| | | | | | | | |p r x| |]; cbn [event_okb event_ok]; try done.
  - intros [[a E]%bool_decide_eq_true H]%andb_prop. exists a. split; [done|]. intros _. unfold packet_okb in H.
    rewrite !andb_true_iff, !bool_decide_eq_true, Z.ltb_lt, Z.leb_le in H.
    destruct H as [[[[[H1 H2] H3] H4] H5] H6]. split; try done. unfold Block.wf.
    destruct (Block.data_ (payload p)); rewrite !andb_true_iff in H1; lia.
  - by intros H%bool_decide_eq_true.
  - by intros H%bool_decide_eq_true.
  - destruct (sockets w !! p) as [s|] eqn:E; [|done]. destruct (fde s) as [e|] eqn:Ef; [|done].
    intros [Hl%bool_decide_eq_true Hr]%andb_prop. exists s, e. split_and!; try done. intros ->.
    apply andb_prop in Hr as [? ?]. split; [done|]. by apply requests_fineb_ok.
Qed.

(** A run that can happen, when every event of it can. *)
Fixpoint server_run_ok (junk : nat → byte) `{HE : !Env} (es : list event) (w : world) : option world :=
  match es with
  | [] => Some w
  | e :: es =>
      if event_okb e w then match server_step junk e w with Ret (_, w') => server_run_ok junk es w' | _ => None end
      else None
  end.

Lemma server_run_reach (junk : nat → byte) `{HE : !Env} es w w' :
  reach junk w → server_run_ok junk es w = Some w' → reach junk w'.
Proof.
  revert w. induction es as [|e es IH]; cbn; intros w Hw E; [by simplify_eq|].
  destruct (event_okb e w) eqn:He; [|done]. destruct (server_step junk e w) as [[[] w1]| | |] eqn:Es; [|done..].
  apply (IH w1); [|done]. eapply reach_step; [exact Hw|by apply event_okb_ok|exact Es].
Qed.

Definition sample_env : Env := {|
  env_texts := {| no_perm_short := str "no permissions"; no_perm_long := str "no permissions";
                  transportListToProto := λ _ _, [] |};
  env := false; ADB_VENDOR_KEYS := None; adb_device_banner := str "host"; g_reject_kill_server := false;
  gListenAll := false; usb_devices_start_detached := false; is_libusb_enabled := true;
  attach_connection := λ _, None; detach_connection := λ _, None; network := λ _, None;
  bind_socket := λ l, inr (match l with
    | AnyTcp port | LoopbackListener port _ => if port =? 0 then 6000 else port | _ => 0 end);
  emulator_connect := λ _, false; service_thread := λ _, None;
  private_keys := [7%nat; 9%nat]; adb_auth_sign := λ k t, t; userkey := str "key"; DoTlsHandshake := λ _ _, true;
  server_status := []
|}.

Definition world_of {A} (r : outcome (A * world)) : world :=
  match r with Ret (_, w) => w | _ => empty_world ∅ 3 end.

Section sample.
Let junk : nat → byte := λ _, NUL.
#[local] Existing Instance sample_env.

(** A started server, and one that a device and a client have come to. *)
Definition sample_booted : world := world_of (server_boot (str "tcp:5037") (empty_world ∅ 3)).

Definition sample_events : list event :=
  [EUsb (str "0123") (str "usb:1-1") true; ERegister 1;
   EClient (Some ([Data (str "000chost:version")], Out [] []))].

Lemma booted_reach : reach junk sample_booted.
Proof. apply (reach_boot junk (str "tcp:5037") ∅ 3). by vm_compute. Qed.

Definition run_of (es : list event) : world := default sample_booted (server_run_ok junk es sample_booted).

Lemma run_of_reach es : reach junk (run_of es).
Proof.
  unfold run_of. destruct (server_run_ok junk es sample_booted) as [w|] eqn:E; [|exact booted_reach].
  eapply server_run_reach; [exact booted_reach|exact E].
Qed.

Definition sample_world : world := run_of sample_events.

Lemma sample_reach : reach junk sample_world.
Proof. apply run_of_reach. Qed.
End sample.

(** ** The theorems *)




