(* ===== verification/ServerProps.v ===== *)
(** * What the server guarantees to its clients and devices, and where it fails

    On top of safety: who is told of a change of transports, what a disconnect
    leaves behind, what becomes of a client's data, of forwards and of keys; and
    executions that show what goes wrong. *)

From S2P Require Import Prelude State CString CStringFacts LibBase LibBaseFacts Types TypesFacts.
From S2P Require Import AdbIO AdbIOFacts Packets PacketsFacts Nonblocking Transport.
From S2P Require Import TransportFacts HostService SocketSpec SocketSpecFacts Env Sockets SocketsWp SocketsInv.
From S2P Require Import SocketsIO SocketsSafe SocketsFrame SocketsCorrect TrackersFacts Listeners ServerInv ListenersFacts.
From S2P Require Import LifecycleFacts HostRequest HostRequestFacts SmartSockets SmartSocketsFacts.
From S2P Require Import EventsFacts HandlePacket HandlePacketFacts Server ServerFacts.
Local Open Scope Z_scope.
Local Open Scope record_scope.

(** ** Device trackers *)

(** C6: When a transport appears, changes state or goes away, the client of
    every device tracker is sent the list of transports in the form it asked for,
    framed by its length, after everything it was sent before; no other client
    receives anything. *)
Theorem update_transports_correct (junk : nat → byte) `{HT : !Texts} enqueue `{!LocalEnqueue junk enqueue} as_ w :
  wf w → listed w → fds_distinct w → loaded w as_ →
  update_transports junk enqueue w = Abort ∨
  ∃ w', update_transports junk enqueue w = Ret (tt, w') ∧
    (∀ p s tr q c, sockets w !! p = Some s → tracker s = Some tr → is_tracker s → peer s = Some q →
       sockets w !! q = Some c →
       ∃ c', sockets w' !! q = Some c' ∧
         client_stream c' w' = (λ d, d ++ tracker_frame (list_transports (output_type tr) as_)) <$> client_stream c w) ∧
    (∀ q c, sockets w !! q = Some c → is_local c → untracked w c →
       sockets w' !! q = Some c ∧ client_stream c w' = client_stream c w).
Proof.
  intros H Hw Hfd Has. assert (safe (update_transports junk enqueue) (λ _ w',
    (∀ p, p ∈ device_tracker_list w → tells as_ w w' p) ∧ spares (device_tracker_list w) w w') w) as Hs.
  { unfold update_transports. apply safe_wp_bind, wp_update_status; [done|]. intros b. safe_go.
    eapply safe_mono; [apply (safe_notify_tells junk enqueue as_); try done|by intros [] w'].
    - apply (notified_ready b w H).
    - apply (inv_tracker_nodup _ _ (wf_inv _ H)).
    - intros p. apply (inv_trackers _ _ (wf_inv _ H)). }
  unfold safe in Hs. destruct (update_transports junk enqueue w) as [[[] w']| | |]; [|by left|done..]. right.
  exists w'. split; [done|]. destruct Hs as [Ht Hsp]. split.
  - intros p s tr q c E Htr His Hq Ec. apply (Ht p) with (s := s); try done.
    apply (inv_trackers _ _ (wf_inv _ H)). eauto.
  - intros q c Ec Hl Hu. destruct (Hsp q c Ec Hl) as [E' Ef].
    + intros p Hp Hpc. apply (inv_trackers _ _ (wf_inv _ H)) in Hp as (s & E & Hs). by apply (Hu p s).
    + split; [done|]. by apply stream_fds.
Qed.

(** ** Disconnects *)


(** ** Data of a client *)

(** A WRTE packet with the data, between these sockets. *)
Record wrte (local remote : Z) (data : bytes) (pk : apacket) : Prop := {
  wr_command : command (msg pk) = A_WRTE;
  wr_ids : arg0 (msg pk) = local ∧ arg1 (msg pk) = remote;
  wr_payload : Block.content (payload pk) = data;
  wr_length : data_length (msg pk) = zlen data
}.

(** The packets [out] carry the data: one of them, or none when there is none. *)
Definition carries (local remote : Z) (data : bytes) (out : list apacket) : Prop :=
  data = [] ∧ out = [] ∨ ∃ pk, out = [pk] ∧ wrte local remote data pk.

(** Of what the client [s] had sent, [i], the bytes [got] were taken and passed
    on; [r] tells whether the socket is still open. *)
Definition forwarded (s s' : asocket) (t : Z) (a : atransport) (i : instream) (o : outstream) (r : bool) (w' : world) :
    Prop :=
  ∃ got i' a' out rest, arrived i = got ++ arrived i' ∧ zlen got ≤ max_payload a ∧
    transports w' !! t = Some a' ∧ sent a' = sent a ++ out ++ rest ∧ carries (sid s) (sid s') got out ∧
    (r = true → rest = [] ∧ fds w' !! fd s = Some (i', o)).

Section outgoing.
Context (junk : nat → byte) `{HE : !Env}.

Lemma wp_hand_over_remote p s q s' t a data w :
  server_ok w → sockets w !! p = Some s → is_local s → peer s = Some q → sockets w !! q = Some s' →
  enqueue_fn s' = enqueue_remote → transport s' = Some t → transports w !! t = Some a → writable a = true →
  Block.wf data → Block.size_ data ≤ MAX_PAYLOAD → Block.size_ data = zlen (Block.content data) →
  wp (hand_over junk p (available_send_bytes s) q data)
    (λ b w', b = true ∧ fds w' = fds w ∧ ∃ a' pk, transports w' !! t = Some a' ∧ sent a' = sent a ++ [pk] ∧
       wrte (sid s) (sid s') (Block.content data) pk) w.
Proof.
  intros H E Hl Hq E' Hk Ht Ea Hwr Hd Hsz Hlen. pose proof (sv_wf _ _ H) as Hw.
  destruct (inv_peer _ _ (wf_inv _ Hw) p s q) as (_ & Hne & s2 & E2 & Hp2 & _); [done..|]. simplify_eq.
  unfold hand_over. apply wp_bind, wp_mono with (Q := λ _ w1, wf w1 ∧ transports w1 = transports w ∧ fds w1 = fds w ∧
    sockets w1 !! q = Some s' ∧ ∃ s1, sockets w1 !! p = Some s1 ∧ is_local s1 ∧ sid s1 = sid s).
  { destruct (available_send_bytes s) as [n|]; wp_go; [|by eauto 10]. split_and!; try done.
    - eapply wf_store_local; try done. apply (local_ok_acked s). eapply inv_local_ok; [apply Hw|done..].
    - rec_simpl. by rewrite lookup_insert_ne.
    - eexists. split; [apply lookup_insert_eq|]. done. }
  intros [] w1 (H1 & T1 & F1 & Eq1 & s1 & E1 & Hl1 & Hid1). apply wp_bind. unfold socket_enqueue, ENQUEUE_FUEL.
  rewrite enqueue_fuel_S. wp_go. rewrite Hk.
  assert (remote_ok s') as Hro by (eapply inv_remote_ok; [apply H1|done..]).
  eapply wp_mono; [by apply (wp_remote_enqueue q s' p s1)|]. cbv beta. rewrite (proj2 (Z.ltb_ge _ _)) by done.
  intros r w2 [-> (t' & a0 & a' & Ht' & Ea0 & _ & -> & Hsent)]. rewrite T1 in Ea0. simplify_eq. rewrite Hwr in Hsent.
  destruct Hsent as (pk & Hs & Hc & H0 & H1' & Hp & Hln). change (1 <? 0) with false. change (0 <? 1) with true. cbv iota.
  assert (local_ok s1) as Hok by (eapply inv_local_ok; [apply H1|done..]). destruct (lo_fde _ Hok) as (e & He & _).
  wp_go. apply wp_mono with (Q := λ _ w3, transports w3 = <[t := a']> (transports w1) ∧ fds w3 = fds w1).
  { unfold fdevent_del_read. destruct (available_send_bytes s1) as [n|]; [destruct (n <=? 0); [|by wp_go]|];
      by eapply wp_fdevent_set. }
  intros [] w3 [T3 F3]. wp_go. split_and!; [done|congruence|]. exists a', pk. rewrite T3, lookup_insert_eq.
  split_and!; [done..|]. split; [done|split; congruence|by rewrite Hp|congruence].
Qed.

(** The limit is the smaller one of both ends. *)
Lemma wp_max_remote p s q s' t a w Q :
  server_ok w → sockets w !! p = Some s → peer s = Some q → sockets w !! q = Some s' → transport s' = Some t →
  transports w !! t = Some a → (∀ m, 0 ≤ m ≤ MAX_PAYLOAD → m ≤ max_payload a → Q m w) → wp (get_max_payload p) Q w.
Proof.
  intros H E Hq E' Ht Ea HQ. pose proof (wf_inv _ (sv_wf _ _ H)) as Hi. unfold get_max_payload. wp_go.
  assert (closing s = false) as Hc by (apply (peer_not_closing w p s Hi E); eauto).
  apply wp_mono with (Q := λ m w', w' = w ∧ 0 ≤ m ≤ MAX_PAYLOAD).
  { destruct (transport s) as [t'|] eqn:Ht'; wp_go; [|done].
    destruct (inv_transport _ _ Hi p s t') as [a' Ea']; [done..|]. pose proof (server_limits _ _ H t' a' Ea').
    wp_go. split; [done|]. unfold MAX_PAYLOAD in *. lia. }
  intros m w' [-> Hm]. rewrite Hq. wp_go. rewrite Ht. wp_go. pose proof (server_limits _ _ H t a Ea). apply HQ; lia.
Qed.
End outgoing.


(** The only open socket with the id is found. *)
Lemma wp_find_unique w l p s q s' :
  (∀ x, x ∈ l → ∃ y, sockets w !! x = Some y ∧ (sid y = sid s → x = p)) → p ∈ l →
  sockets w !! p = Some s → peer s = Some q → sockets w !! q = Some s' → sid s' ≠ 0 →
  wp (find_in l (sid s) (sid s')) (λ r w', r = Some p ∧ w' = w) w.
Proof.
  intros Hl Hp E Hq E' Hid. induction l as [|x l IH]; [by apply elem_of_nil in Hp|]. cbn [find_in].
  destruct (Hl x) as (y & Ey & Hy); [by left|]. wp_go. destruct (Z.eqb_spec (sid y) (sid s)) as [Hs|Hs]; cbn [negb].
  - assert (x = p) as -> by auto. simplify_eq. rewrite (proj2 (Z.eqb_neq _ _) Hid), Hq. wp_go.
    by rewrite Z.eqb_refl.
  - apply IH; [intros z Hz; apply Hl; by right|]. apply elem_of_cons in Hp as [->|Hp]; [congruence|done].
Qed.

(** C5: Data that a device sends to a connected client is added at the end of
    what the client receives, unchanged and once; no other socket is affected.
    Ids of open sockets are distinct, as they are counted. *)
Theorem device_data_delivered (junk : nat → byte) `{HE : !Env} p s q s' t a pk w :
  server_ok w → transports w !! t = Some a → online a = true →
  sockets w !! p = Some s → is_local s → closing s = false → peer s = Some q → sockets w !! q = Some s' →
  sid s ≠ 0 → sid s' ≠ 0 → (∀ x y, x ∈ local_socket_list w → sockets w !! x = Some y → sid y = sid s → x = p) →
  wrte (sid s') (sid s) (Block.content (payload pk)) pk → Block.wf (payload pk) →
  queued w + Block.size_ (payload pk) < 2 ^ 63 →
  ∃ w' s2, handle_packet junk pk t w = Ret (tt, w') ∧ sockets w' !! p = Some s2 ∧
    client_stream s2 w' = (λ d, d ++ Block.content (payload pk)) <$> client_stream s w ∧
    (∀ x, x ≠ p → sockets w' !! x = sockets w !! x).
Proof.
  intros H Et Hon E Hl Hc Hq E' Hid Hid' Hu [Hcmd [Ha0 Ha1] _ Hlen] Hb Hroom. pose proof (sv_wf _ _ H) as Hw.
  destruct (local_enqueue_stream junk p s (payload pk) w) as (r & w' & s2 & Er & _ & Es2 & Hs2 & Hsame & _); [done..|].
  exists w', s2. split; [|done].
  assert (wp (handle_packet junk pk t) (λ _ w1, w1 = w') w) as Hr; [|by apply wp_run in Hr as ([] & ? & ? & ->)].
  unfold handle_packet. rewrite Hcmd, Hlen, block_content_len, (Z.eqb_refl (Block.size_ _)) by done.
  eapply wp_bind, wp_lift; [reflexivity|].
  change (wp (handle_write junk t pk) (λ _ w1, w1 = w') w). unfold handle_write. wp_go.
  rewrite Hon, Ha0, Ha1, !(proj2 (Z.eqb_neq _ _)) by done. cbn [negb andb]. apply wp_bind. unfold find_local_socket. wp_go.
  eapply wp_mono; [apply (wp_find_unique w _ p s q s'); try done|].
  - intros x Hx. destruct (proj1 (inv_list _ _ (wf_inv _ Hw) x) Hx) as (y & Ey & _). eauto.
  - apply (inv_list _ _ (wf_inv _ Hw)). eauto.
  - intros r0 w0 [-> ->]. apply wp_bind, wp_run. exists r, w'.
    rewrite (local_enqueue (junk := junk) p s _ w E Hl). split; [done|]. by wp_go.
Qed.

(** ** Forwards *)

Lemma extract_last f l x : Forall (λ y, f y = false) l → f x = true → extract f (l ++ [x]) = Some (x, l).
Proof. intros Hl Hx. induction Hl as [|y l Hy _ IH]; cbn; [by rewrite Hx|]. by rewrite Hy, IH. Qed.

Lemma remove_added (d : nat) l : d ∉ l → filter (λ x, x ≠ d) (l ++ [d]) = l.
Proof.
  intros Hd. rewrite filter_app, filter_all, filter_cons_False; [by rewrite app_nil_r|naive_solver|].
  intros x Hx ->. by apply Hd.
Qed.

Lemma disconnect_removed a d : d ∉ disconnects_ a → RemoveDisconnect (AddDisconnect a d) d = a.
Proof.
  intros Hd. trans (a <| disconnects_ := filter (λ x, x ≠ d) (disconnects_ a ++ [d]) |>); [by destruct a|].
  rewrite remove_added by done. by destruct a.
Qed.

(** C27: A forward that is added and then removed by the name it was given leaves
    the listeners, the transports and what they run on a disconnect as they were;
    in between it is the last listener, bound to its device, under the name asked
    for, or under that of the port that was assigned. *)
Theorem forward_roundtrip `{HE : !Env} name target t a no_rebind disabled resolved w :
  let name' := if resolved =? 0 then name else str "tcp:" ++ print_d resolved in
  server_ok w → transports w !! t = Some a →
  name ∉ local_name <$> listener_list w → name' ∉ local_name <$> listener_list w →
  socket_spec_listen name = Ret (inr resolved) →
  ∃ l w1 w2, install_listener name target (Some t) no_rebind disabled w = Ret ((INSTALL_STATUS_OK, resolved, []), w1) ∧
    listener_list w1 = listener_list w ++ [l] ∧
    local_name l = name' ∧ connect_to l = target ∧ l_transport l = Some t ∧
    remove_listener name' w1 = Ret (INSTALL_STATUS_OK, w2) ∧
    listener_list w2 = listener_list w ∧ transports w2 = transports w ∧ sockets w2 = sockets w.
Proof.
  intros name' H Et Hn Hn' Er.
  assert (∀ n, n ∉ local_name <$> listener_list w →
    Forall (λ l, bool_decide (local_name l = n) = false) (listener_list w)) as Hno.
  { intros n Hin. apply Forall_forall. intros l Hl. apply bool_decide_eq_false. intros <-.
    apply Hin. by apply list_elem_of_fmap_2. }
  assert (next_listener w ∉ disconnects_ a) as Hd.
  { intros (l & Hl & Hp & _)%(sv_disconnects _ _ H t a Et). pose proof (lk_ptr _ _ _ (sv_listeners _ _ H l Hl)). lia. }
  set (l := Listener (next_listener w) (next_fd w) (bool_decide (target = kSmartSocketConnectTo)) (negb disabled)
              name' target (Some t)).
  set (w1 := w <| next_listener := S (next_listener w) |> <| next_fd := next_fd w + 1 |>
               <| transports ::= <[t := AddDisconnect a (next_listener w)]> |> <| listener_list ::= λ ls, ls ++ [l] |>).
  assert (wp (install_listener name target (Some t) no_rebind disabled)
    (λ r w', r = (INSTALL_STATUS_OK, resolved, []) ∧ w' = w1) w) as Hi.
  { unfold install_listener. wp_go. pose proof (extract_spec (λ l, bool_decide (local_name l = name)) (listener_list w)) as He.
    destruct (extract _ _) as [[x rest]|].
    { destruct He as (l1 & l2 & El & _ & Hx & _). exfalso. apply bool_decide_eq_true in Hx. apply Hn. rewrite <- Hx, El.
      apply list_elem_of_fmap_2, elem_of_app. right. by left. }
    eapply wp_bind, wp_lift; [exact Er|]. cbv beta iota. wp_go. eapply wp_on_transport; [exact Et|done|]. by wp_go. }
  apply wp_run in Hi as (? & ? & Hi & -> & ->). exists l, w1.
  assert (wp (remove_listener name') (λ r w', r = INSTALL_STATUS_OK ∧ listener_list w' = listener_list w ∧
    transports w' = transports w ∧ sockets w' = sockets w) w1) as Hrm.
  { unfold remove_listener. wp_go. change (listener_list w1) with (listener_list w ++ [l]).
    rewrite extract_last by (auto using bool_decide_eq_true_2). wp_go. unfold destroy_listener. cbn [l_transport l].
    eapply wp_on_transport; [apply lookup_insert_eq|done|]. wp_go. split_and!; try done. rec_simpl.
    change (transports w1) with (<[t := AddDisconnect a (next_listener w)]> (transports w)).
    rewrite insert_insert_eq. apply insert_id. rewrite Et. f_equal. symmetry. by apply disconnect_removed. }
  apply wp_run in Hrm as (? & w2 & Hrm & -> & Hl & Ht & Hs). by exists w2.
Qed.

#[local] Existing Instance sample_env.

(** A client that asked for the devices. *)
Definition tracking_events : list event :=
  sample_events ++ [EClient (Some ([Data (str "0012host:track-devices"); Fault EAGAIN], Out [] [])); ESocket 2 true false].
Definition tracking_world : world := run_of tracking_events.

Lemma tracking_reach : reach (λ _, NUL) tracking_world.
Proof. apply run_of_reach. Qed.

(** A decidable form of [fds_distinct]. *)
Lemma fds_distinct_list w :
  NoDup (fd ∘ snd <$> filter (λ x, is_local x.2) (map_to_list (sockets w))) → fds_distinct w.
Proof.
  intros H p s q s' E E' Hl Hl' Hfd. apply elem_of_map_to_list in E, E'.
  assert (∀ a sa, (a, sa) ∈ map_to_list (sockets w) → is_local sa →
    ∃ i, filter (λ x, is_local x.2) (map_to_list (sockets w)) !! i = Some (a, sa)) as Hi.
  { intros a sa Ea Hla. apply list_elem_of_lookup, list_elem_of_filter. done. }
  destruct (Hi p s E Hl) as [i Ei], (Hi q s' E' Hl') as [j Ej].
  assert (i = j) as ->; [|congruence].
  eapply (NoDup_lookup _ i j (fd s)); [exact H|..]; rewrite list_lookup_fmap.
  - by rewrite Ei.
  - rewrite Ej. cbn. congruence.
Qed.

(** A client that tracks the devices is sent the list again. *)
Lemma update_transports_correct_witness :
  ∃ w', update_transports (λ _, NUL) (socket_enqueue (λ _, NUL)) tracking_world = Ret (tt, w') ∧
    ∃ c', sockets w' !! 2%nat = Some c' ∧
      client_stream c' w' = Some (str "OKAY000d0123" ++ [Zbyte 9] ++ str "offline" ++ [Zbyte 10]
                                  ++ str "000d0123" ++ [Zbyte 9] ++ str "offline" ++ [Zbyte 10]).
Proof.
  pose proof (reach_server_ok _ _ tracking_reach) as H.
  destruct (update_transports_correct (λ _, NUL) (socket_enqueue (λ _, NUL))
    (option_list (transports tracking_world !! 1)) tracking_world) as [E|(w' & E & Ht & _)].
  - apply H.
  - apply H.
  - apply fds_distinct_list. by_decide.
  - vm_compute. repeat constructor.
  - assert (match update_transports (λ _, NUL) (socket_enqueue (λ _, NUL)) tracking_world with
            | Abort => false | _ => true end = true) as Hr by (vm_compute; reflexivity).
    rewrite E in Hr. discriminate.
  - exists w'. split; [exact E|].
    destruct (Ht 4%nat (default (fresh_tracker SHORT_TEXT) (sockets tracking_world !! 4%nat)) (Tracker false SHORT_TEXT) 2%nat
      (default (fresh_tracker SHORT_TEXT) (sockets tracking_world !! 2%nat))) as (c' & E' & Hc); [by vm_compute..|].
    exists c'. split; [exact E'|]. refine (eq_trans Hc _). vm_compute. reflexivity.
Defined.


(** A device connects; a client opens a shell on it, which the device accepts,
    and has typed something. *)
Definition packet (cmd a0 a1 : Z) (d : bytes) : apacket :=
  APacket (AMessage cmd a0 a1 (zlen d) 0 (Z.lxor cmd 4294967295)) (Block.mk (Some d) (zlen d) (zlen d)).

Definition okay_packet (a0 a1 : Z) : apacket :=
  APacket (AMessage A_OKAY a0 a1 0 0 (Z.lxor A_OKAY 4294967295)) (Block.mk None 0 0).

Definition session_events : list event :=
  [EUsb (str "0123") (str "usb:1-1") true; ERegister 1;
   ERead 1 (packet A_CNXN 16777217 4096 (str "device::ro.product.name=x;ro.product.model=y;ro.product.device=z"));
   EClient (Some ([Data (str "0012host:transport-any"); Fault EAGAIN; Data (str "0008shell:ls"); Fault EAGAIN;
                   Data (str "abc"); Fault EAGAIN], Out [] []));
   ESocket 0 true false; ESocket 0 true false; ERead 1 (okay_packet 77 1)].
Definition session_world : world := run_of session_events.

Lemma session_ok : server_ok session_world.
Proof. exact (reach_server_ok _ _ (run_of_reach session_events)). Qed.

(** The client's socket, the device's and the device. *)
Lemma session_sockets : ∃ s s' a,
  sockets session_world !! 0%nat = Some s ∧ sockets session_world !! 2%nat = Some s' ∧
  transports session_world !! 1 = Some a ∧
  is_local s ∧ closing s = false ∧ peer s = Some 2%nat ∧ fd s = 4 ∧ sid s = 1 ∧
  enqueue_fn s' = enqueue_remote ∧ transport s' = Some 1 ∧ sid s' = 77 ∧
  writable a = true ∧ online a = true ∧ length (sent a) = 2%nat ∧ client_stream s session_world = Some (str "OKAYOKAY").
Proof. eexists _, _, _. vm_compute. repeat split. Qed.


(** What the shell prints reaches the client. *)
Lemma device_data_delivered_witness :
  ∃ w' s2, handle_packet (λ _, NUL) (packet A_WRTE 77 1 (str "hello")) 1 session_world = Ret (tt, w') ∧
    sockets w' !! 0%nat = Some s2 ∧ client_stream s2 w' = Some (str "OKAYOKAYhello").
Proof.
  destruct session_sockets as (s & s' & a & E0 & E2 & Ea & Hl & Hc & Hp & Hf & H0 & Hk & Ht & H2 & Hw & Ho & Hn & Hs).
  destruct (device_data_delivered (λ _, NUL) 0 s 2 s' 1 a (packet A_WRTE 77 1 (str "hello")) session_world
    session_ok Ea Ho E0 Hl Hc Hp E2) as (w' & s2 & E & Es & Hd & _).
  - rewrite H0. discriminate.
  - rewrite H2. discriminate.
  - assert (local_socket_list session_world = [0%nat]) as -> by (vm_compute; reflexivity).
    intros x y Hx _ _. apply list_elem_of_singleton in Hx. exact Hx.
  - rewrite H0, H2. split; [reflexivity|split; reflexivity|reflexivity|reflexivity].
  - vm_compute. repeat split; discriminate.
  - vm_compute. reflexivity.
  - exists w', s2. split; [exact E|]. split; [exact Es|]. rewrite Hd, Hs. reflexivity.
Defined.

(** A port is assigned to "tcp:0" and forwarded. *)
Lemma forward_roundtrip_witness :
  ∃ w1 w2, install_listener (str "tcp:0") (str "tcp:80") (Some 1) false false session_world
             = Ret ((INSTALL_STATUS_OK, 6000, []), w1) ∧
    remove_listener (str "tcp:6000") w1 = Ret (INSTALL_STATUS_OK, w2) ∧ listener_list w2 = listener_list session_world.
Proof.
  destruct session_sockets as (s & s' & a & _ & _ & Ea & _).
  assert (local_name <$> listener_list session_world = [str "tcp:5037"]) as Hl by (vm_compute; reflexivity).
  destruct (forward_roundtrip (str "tcp:0") (str "tcp:80") 1 a false false 6000 session_world session_ok Ea)
    as (l & w1 & w2 & E1 & _ & _ & _ & _ & E2 & El & _).
  - rewrite Hl. by_decide.
  - rewrite Hl. by_decide.
  - vm_compute. reflexivity.
  - exists w1, w2. split; [exact E1|]. split; [exact E2|exact El].
Defined.

(** ** What goes wrong *)


(** A client that removes the forward of the port the server listens on
    removes the server's own listener: it is told that this went well, and no
    client is accepted any more. *)
Theorem killforward_smartsocket :
  ∃ w, server_run (λ _, NUL)
      [EEnable; EClient (Some ([Data (str "0019host:killforward:tcp:5037"); Fault EAGAIN], Out [] []));
       ESocket 3 true false] session_world = Ret (tt, w) ∧
    isSmartSocket <$> listener_list session_world = [true] ∧ listener_list w = [] ∧
    o_written ∘ snd <$> fds w !! 5 = Some (str "OKAYOKAY").
Proof. eexists _. split; [vm_compute; reflexivity|]. vm_compute. repeat split. Qed.
