(* ===== verification/Client.v ===== *)
(** * The client's end of the protocol: [adb/client/adb_client.cpp]

    A client connects to the server, asks for a service and reads the answer.
    Its state is what [adb_client.cpp] keeps in static variables, and the
    descriptors: those it had at the start and the connections it has opened.  What happens
    outside (whether the server can be reached, whether it can be started) is
    given by scripts. *)

From S2P Require Import Prelude State CString LibBase AdbIO Transport SocketSpec HostRequest.
Local Open Scope Z_scope.
Local Open Scope record_scope.

Record client := Client {
  __adb_transport : TransportType;
  __adb_serial : option bytes;
  __adb_transport_id : Z;
  __adb_server_socket_spec : bytes;
  __adb_client_one_device : option bytes;
  version_check : option (bytes + unit);          (* of [std::call_once] *)
  feature_set : option (list bytes);
  adb_argv0 : bytes;
  network_script : list (bytes + (instream * outstream));   (* what connecting gives *)
  launch_script : list bool;                      (* whether starting a server fails *)
  launched : list (bytes * option bytes);         (* the servers started *)
  sessions : list (instream * outstream)          (* the descriptors *)
}.

#[global] Instance eta_client : Eta client :=
  rd_pure Client <%> __adb_transport <%> __adb_serial <%> __adb_transport_id
    <%> __adb_server_socket_spec <%> __adb_client_one_device <%> version_check <%> feature_set
    <%> adb_argv0 <%> network_script <%> launch_script <%> launched <%> sessions.
#[global] Instance upd_adb_transport : Update __adb_transport. Proof. mk_update. Defined.
#[global] Instance upd_adb_serial : Update __adb_serial. Proof. mk_update. Defined.
#[global] Instance upd_adb_transport_id : Update __adb_transport_id. Proof. mk_update. Defined.
#[global] Instance upd_version_check : Update version_check. Proof. mk_update. Defined.
#[global] Instance upd_feature_set : Update feature_set. Proof. mk_update. Defined.
#[global] Instance upd_adb_argv0 : Update adb_argv0. Proof. mk_update. Defined.
#[global] Instance upd_network_script : Update network_script. Proof. mk_update. Defined.
#[global] Instance upd_launch_script : Update launch_script. Proof. mk_update. Defined.
#[global] Instance upd_launched : Update launched. Proof. mk_update. Defined.
#[global] Instance upd_sessions : Update sessions. Proof. mk_update. Defined.

(** What the client depends on: the text of [errno], the vendor's configuration,
    the installation of another version. *)
Class ClientEnv := {
  perror_str : bytes → bytes;
  is_one_device_mandatory : bool;
  adb_get_android_dir_path : bytes;
  read_file : bytes → option bytes;
  execve : bytes → bool                           (* whether the program was replaced *)
}.

Section client.
Context `{!ClientEnv}.
Local Abbreviation C := (ST client).

(** ** Descriptors *)

Definition on_read {A} (fd : nat) (f : instream → outcome (A * instream)) : C A := λ c,
  '(i, o) ← deref (sessions c !! fd);
  '(r, i) ← f i;
  Ret (r, c <| sessions ::= <[fd := (i, o)]> |>).

Definition on_write {A} (fd : nat) (f : outstream → outcome (A * outstream)) : C A := λ c,
  '(i, o) ← deref (sessions c !! fd);
  '(r, o) ← f o;
  Ret (r, c <| sessions ::= <[fd := (i, o)]> |>).

Definition read_exactly (fd : nat) (len : Z) : C (bool * bytes) :=
  on_read fd (λ i, '(ok, buf, i) ← ReadFdExactly i len; Ret ((ok, buf), i)).

Definition send_protocol_string (fd : nat) (s : bytes) : C bool := on_write fd (λ o, SendProtocolString o s).

(** [ReadProtocolString(fd, s, error)] *)
Definition read_protocol_string (fd : nat) : C (bytes + bytes) :=
  r ← on_read fd ReadProtocolString;
  mret (match r with
        | ProtoString s => inr s
        | ProtoNoLength => inl (perror_str (str "protocol fault (couldn't read status length)"))
        | ProtoNoMessage => inl (perror_str (str "protocol fault (couldn't read status message)"))
        end).

Definition read_orderly_shutdown (fd : nat) : C unit :=
  on_read fd (λ i, '(_, _, i) ← ReadOrderlyShutdown i; Ret (tt, i)).

(** [socket_spec_connect(&fd, spec, nullptr, nullptr, &reason)] *)
Definition socket_spec_connect (spec : bytes) : C (bytes + nat) :=
  d ← lift (connect_destination spec [NUL] 0);
  match d with
  | inl reason => mret (inl reason)
  | inr _ =>
      n ← get network_script;
      _ ← modify (λ c, c <| network_script ::= tail |>);
      match n with
      | [] => mret (inl [])
      | inl reason :: _ => mret (inl reason)
      | inr d :: _ =>
          l ← get sessions;
          _ ← modify (λ c, c <| sessions := l ++ [d] |>);
          mret (inr (length l))
      end
  end.

(** [launch_server(...)], true when it fails *)
Definition launch_server (spec : bytes) (one_device : option bytes) : C bool :=
  l ← get launch_script;
  _ ← modify (λ c, c <| launch_script ::= tail |> <| launched ::= λ l, l ++ [(spec, one_device)] |>);
  mret (default true (head l)).

(** ** Status and connection *)

(** A two-digit hexadecimal byte; [char] is signed. *)
Definition print_02x (b : byte) : bytes :=
  print_0x 2 (u32 (if byteZ b <? 128 then byteZ b else byteZ b - 256)).

(** The error, if any. *)
Definition adb_status (fd : nat) : C (bytes + unit) :=
  '(ok, buf) ← read_exactly fd 4;
  if negb ok then mret (inl (perror_str (str "protocol fault (couldn't read status)")))
  else if bool_decide (buf = str "OKAY") then mret (inr tt)
  else if negb (bool_decide (buf = str "FAIL")) then
    mret (inl (str "protocol fault (status " ++ Join (print_02x <$> buf) (Zbyte 32) ++ str "?!)"))
  else
    r ← read_protocol_string fd;
    mret (match r with inr reason => inl reason | inl error => inl error end).

Definition switch_request (c : client) : option bytes :=
  if negb (__adb_transport_id c =? 0) then Some (str "host:transport-id:" ++ print_d (__adb_transport_id c))
  else match __adb_serial c with
       | Some serial => Some (str "host:tport:serial:" ++ serial)
       | None =>
           match __adb_transport c with
           | kTransportUsb => Some (str "host:tport:usb")
           | kTransportLocal => Some (str "host:tport:local")
           | kTransportAny => Some (str "host:tport:any")
           | kTransportHost => None
           end
       end.

Definition le64_val (bs : bytes) : option Z :=
  lo ← le32_dec (take 4 bs); hi ← le32_dec (drop 4 bs); Some (lo + 2 ^ 32 * hi).

(** The id of the transport. *)
Definition switch_socket_transport (fd : nat) : C (bytes + Z) :=
  c ← get (λ c, c);
  match switch_request c with
  | None => mret (inr 0)
  | Some service =>
      ok ← send_protocol_string fd service;
      if negb ok then mret (inl (perror_str (str "write failure during connection")))
      else
        status ← adb_status fd;
        match status with
        | inl error => mret (inl error)
        | inr _ =>
            if negb (__adb_transport_id c =? 0) then mret (inr (__adb_transport_id c))
            else
              '(ok, buf) ← read_exactly fd 8;
              if negb ok then mret (inl (str "failed to read transport id from server"))
              else id ← lift (deref (le64_val buf)); mret (inr id)
        end
  end.

Inductive connect_result :=
| Connected (fd : nat) (transport : option Z)
| Refused (error : bytes)                          (* -1 *)
| NotRunning (error : bytes).                      (* -2 *)

Definition _adb_connect (service : bytes) (force_switch : bool) : C connect_result :=
  if bool_decide (service = []) || (MAX_PAYLOAD <? zlen service) then
    mret (Refused (str "bad service name length (" ++ print_d (zlen service) ++ str ")"))
  else
    spec ← get __adb_server_socket_spec;
    r ← socket_spec_connect spec;
    match r with
    | inl reason => mret (NotRunning (str "cannot connect to daemon at " ++ spec ++ str ": " ++ c_str reason))
    | inr fd =>
        switched ← (if negb (starts_with service (str "host")) || force_switch then
                      r ← switch_socket_transport fd;
                      mret (match r with inl e => inl e | inr t => inr (Some t) end)
                    else mret (inr None));
        match switched with
        | inl error => mret (Refused error)
        | inr t =>
            ok ← send_protocol_string fd service;
            if negb ok then mret (Refused (perror_str (str "write failure during connection")))
            else
              status ← adb_status fd;
              mret (match status with inl error => Refused error | inr _ => Connected fd t end)
        end
    end.

(** ** The version of the server *)

Definition adb_kill_server : C bool :=
  spec ← get __adb_server_socket_spec;
  r ← socket_spec_connect spec;
  match r with
  | inl _ => mret true
  | inr fd =>
      ok ← send_protocol_string fd (str "host:kill");
      if negb ok then mret false
      else
        '(ok, buf) ← read_exactly fd 4;
        if negb ok then mret false
        else if bool_decide (buf = str "FAIL") then _ ← read_protocol_string fd; mret false
        else _ ← read_orderly_shutdown fd; mret true
  end.

(** [start_server:] *)
Definition start_server : C (bytes + unit) :=
  c ← get (λ c, c);
  let one_device := match __adb_client_one_device c with
                    | Some d => Some d
                    | None => if is_one_device_mandatory then __adb_serial c else None
                    end in
  failed ← launch_server (__adb_server_socket_spec c) one_device;
  mret (if (failed : bool) then inl (str "cannot connect to daemon") else inr tt).

Definition adb_get_server_executable_path (spec : bytes) : outcome (option bytes) :=
  r ← parse_tcp_socket_spec spec [NUL];
  Ret (match r with
       | TcpSpec _ port _ => Some (adb_get_android_dir_path ++ str "/adb." ++ print_d port)
       | TcpError _ => None
       end).

Definition adb_reexeced := str "adb (re-execed)".

(** Runs the program of a newer server instead of this one, once; [execve] does
    not return when it works. *)
Definition reexec (spec : bytes) : C unit :=
  argv0 ← get adb_argv0;
  if bool_decide (argv0 = adb_reexeced) then mret tt
  else
    _ ← modify (λ c, c <| adb_argv0 := adb_reexeced |>);
    path ← lift (adb_get_server_executable_path spec);
    match path ≫= read_file with
    | Some program => if execve program then lift Abort else mret tt
    | None => mret tt
    end.

(** [sscanf(s, "%04x", &version)] *)
Definition sscanf_04x (s : bytes) : option Z :=
  let r := strtoull (take 4 (skip_space s)) 16 in if st_conv r then Some (s32 (st_val r)) else None.

(** The version a running server reports; 0 when it is too old to know. *)
Definition server_version (r : connect_result) : C (bytes + Z) :=
  match r with
  | Connected fd _ =>
      r ← read_protocol_string fd;
      match r with
      | inl error => mret (inl error)
      | inr version_string =>
          _ ← read_orderly_shutdown fd;
          mret (match sscanf_04x (c_str version_string) with
                | Some version => inr version
                | None => inl (str "cannot parse version string: " ++ c_str version_string)
                end)
      end
  | Refused error | NotRunning error =>
      mret (if bool_decide (error = str "unknown host service") then inr 0 else inl error)
  end.

Definition check_server_version : C (bytes + unit) :=
  r ← _adb_connect (str "host:version") false;
  spec ← get __adb_server_socket_spec;
  local ← lift (is_local_socket_spec spec [NUL]);
  match r with
  | NotRunning error => if negb local then mret (inl error) else start_server
  | _ =>
      v ← server_version r;
      match v with
      | inl error => mret (inl error)
      | inr version =>
          if version =? ADB_SERVER_VERSION then mret (inr tt)
          else
            _ ← (if (ADB_SERVER_VERSION <? version) && local then reexec spec else mret tt);
            _ ← adb_kill_server;
            start_server
      end
  end.

Definition adb_check_server_version : C (bytes + unit) :=
  done ← get version_check;
  match done with
  | Some r => mret r
  | None =>
      r ← check_server_version;
      _ ← modify (λ c, c <| version_check := Some r |>);
      mret r
  end.

(** ** Requests *)

Definition adb_connect (service : bytes) (force_switch_device : bool) : C connect_result :=
  v ← adb_check_server_version;
  match v with
  | inl error => mret (Refused error)
  | inr _ =>
      if bool_decide (service = str "host:start-server") then mret (Connected 0 None)
      else _adb_connect service force_switch_device
  end.

Definition adb_command (service : bytes) : C (bytes + unit) :=
  r ← adb_connect service false;
  match r with
  | Refused error | NotRunning error => mret (inl error)
  | Connected fd _ =>
      status ← adb_status fd;
      match status with
      | inl error => mret (inl error)
      | inr _ => _ ← read_orderly_shutdown fd; mret (inr tt)
      end
  end.

Definition adb_query (service : bytes) (force_switch_device : bool) : C (bytes + bytes) :=
  r ← adb_connect service force_switch_device;
  match r with
  | Refused error | NotRunning error => mret (inl error)
  | Connected fd _ =>
      r ← read_protocol_string fd;
      match r with
      | inl error => mret (inl error)
      | inr result => _ ← read_orderly_shutdown fd; mret (inr result)
      end
  end.

(** The strings are printed with ["%s"]. *)
Definition format_host_command (c : client) (command : bytes) : bytes :=
  if negb (__adb_transport_id c =? 0) then
    str "host-transport-id:" ++ print_d (__adb_transport_id c) ++ str ":" ++ command
  else match __adb_serial c with
       | Some serial => str "host-serial:" ++ serial ++ str ":" ++ command
       | None =>
           (match __adb_transport c with
            | kTransportUsb => str "host-usb"
            | kTransportLocal => str "host-local"
            | _ => str "host"
            end) ++ str ":" ++ command
       end.

Definition adb_get_feature_set : C (bytes + list bytes) :=
  known ← get feature_set;
  match known with
  | Some features => mret (inr features)
  | None =>
      c ← get (λ c, c);
      r ← adb_query (format_host_command c (str "features")) false;
      match r with
      | inl error => mret (inl error)
      | inr result =>
          features ← lift (StringToFeatureSet result);
          _ ← modify (λ c, c <| feature_set := Some features |>);
          mret (inr features)
      end
  end.

Definition adb_set_transport (type : TransportType) (serial : option bytes) (transport_id : Z) : C unit :=
  modify (λ c, c <| __adb_transport := type |> <| __adb_serial := serial |> <| __adb_transport_id := transport_id |>).
End client.
