(* ===== verification/ClientFacts.v ===== *)
(** * Facts about the client: what it asks and what it makes of the answer *)

From S2P Require Import Prelude State CString CStringFacts LibBase LibBaseFacts AdbIO AdbIOFacts Transport SocketSpec.
From S2P Require Import HostRequest Client.
Local Open Scope Z_scope.
Local Open Scope record_scope.

(** The answer to a request: OKAY and a text, or FAIL and the reason. *)
Definition reply (a : bytes + bytes) : bytes :=
  match a with
  | inr text => str "OKAY" ++ frame_string text
  | inl reason => str "FAIL" ++ frame_string reason
  end.

Definition reply_fits (a : bytes + bytes) : Prop :=
  match a with inr s | inl s => zlen s < 2 ^ 16 end.

(** The next connection to the server will be this one. *)
Record reaches (c : client) (i : instream) (o : outstream) : Prop := {
  re_spec : ∃ d, connect_destination (__adb_server_socket_spec c) [NUL] 0 = Ret (inr d);
  re_script : ∃ r, network_script c = inr (i, o) :: r
}.

(** [c'] is [c] after a connection, now [(i, o)], was used. *)
Record used (c c' : client) (i : instream) (o : outstream) : Prop := {
  us_sessions : sessions c' = sessions c ++ [(i, o)];
  us_script : network_script c' = tail (network_script c);
  us_spec : __adb_server_socket_spec c' = __adb_server_socket_spec c;
  us_launch : launched c' = launched c ∧ launch_script c' = launch_script c;
  us_check : version_check c' = version_check c;
  us_device : __adb_serial c' = __adb_serial c ∧ __adb_transport_id c' = __adb_transport_id c ∧
    __adb_transport c' = __adb_transport c ∧ __adb_client_one_device c' = __adb_client_one_device c;
  us_argv : adb_argv0 c' = adb_argv0 c
}.

Section client.
Context `{HC : !ClientEnv}.

Lemma wp_on_read {A} fd (f : instream → outcome (A * instream)) c c0 i o i' r Q :
  used c0 c i o → fd = length (sessions c0) → f i = Ret (r, i') →
  (∀ c', used c0 c' i' o → Q r c') → wp (on_read fd f) Q c.
Proof.
  intros [U1 U2 U3 U4 U5 U6 U7] -> E H. unfold wp, on_read. rewrite U1, list_lookup_middle by done. mstep.
  rewrite E. mstep. apply H. split; try done. destruct c. cbn in *. rewrite U1.
  by rewrite insert_app_r_alt, Nat.sub_diag by done.
Qed.

Lemma wp_on_write {A} fd (f : outstream → outcome (A * outstream)) c c0 i o o' r Q :
  used c0 c i o → fd = length (sessions c0) → f o = Ret (r, o') →
  (∀ c', used c0 c' i o' → Q r c') → wp (on_write fd f) Q c.
Proof.
  intros [U1 U2 U3 U4 U5 U6 U7] -> E H. unfold wp, on_write. rewrite U1, list_lookup_middle by done. mstep.
  rewrite E. mstep. apply H. split; try done. destruct c. cbn in *. rewrite U1.
  by rewrite insert_app_r_alt, Nat.sub_diag by done.
Qed.

Lemma wp_spec_connect spec c i o Q :
  reaches c i o → spec = __adb_server_socket_spec c →
  (∀ c', used c c' i o → Q (inr (length (sessions c))) c') → wp (socket_spec_connect spec) Q c.
Proof.
  intros [[d Hd] [r Hr]] -> H. unfold socket_spec_connect. st_go. eapply wp_lift; [exact Hd|]. cbv beta iota. st_go. rewrite Hr. st_go.
  apply H. by destruct c.
Qed.

Lemma wp_fd_send_string c0 c fd i o s Q :
  used c0 c i o → fd = length (sessions c0) → accepts o → zlen s ≤ MAX_PAYLOAD - 4 →
  (∀ c' o', used c0 c' i o' → accepts o' → o_written o' = o_written o ++ frame_string s → Q true c') →
  wp (send_protocol_string fd s) Q c.
Proof.
  intros U Hf Ho Hs H. destruct (send_string_accepts o s Ho Hs) as (o' & E & Hw & Ho').
  eapply wp_on_write; [done..|]. intros c' U'. by eapply H.
Qed.

Lemma wp_fd_read_exactly c0 c fd i o bs rest Q :
  used c0 c i o → fd = length (sessions c0) → blocking i → zlen bs < 2 ^ 64 → stream_data i = bs ++ rest →
  (∀ c' i', used c0 c' i' o → blocking i' → stream_data i' = rest → Q (true, bs) c') →
  wp (read_exactly fd (zlen bs)) Q c.
Proof.
  intros U Hf Hb Hl Hd H. destruct (read_bytes i bs rest) as (i' & E & D & B); [done..|].
  eapply wp_on_read; [done..| |]; [rewrite E; reflexivity|]. intros c' U'. by eapply H.
Qed.

Lemma wp_read_string c0 c fd i o s rest Q :
  used c0 c i o → fd = length (sessions c0) → blocking i → zlen s < 2 ^ 16 →
  stream_data i = frame_string s ++ rest →
  (∀ c' i', used c0 c' i' o → blocking i' → stream_data i' = rest → Q (inr s) c') →
  wp (read_protocol_string fd) Q c.
Proof.
  intros U Hf Hb Hl Hd H. destruct (read_string i s rest) as (i' & E & D & B); [done..|].
  unfold read_protocol_string. st_go. eapply wp_on_read; [done..|]. intros c' U'. st_go. by eapply H.
Qed.

Lemma wp_orderly c0 c fd i o Q :
  used c0 c i o → fd = length (sessions c0) → blocking i →
  (∀ c' i', used c0 c' i' o → Q tt c') → wp (read_orderly_shutdown fd) Q c.
Proof.
  intros U Hf Hb H. destruct (orderly_shutdown i Hb) as (ok & shut & i' & E).
  eapply wp_on_read; [done..| |]; [rewrite E; reflexivity|]. intros c' U'. by eapply H.
Qed.

Lemma wp_status_okay c0 c fd i o rest Q :
  used c0 c i o → fd = length (sessions c0) → blocking i → stream_data i = str "OKAY" ++ rest →
  (∀ c' i', used c0 c' i' o → blocking i' → stream_data i' = rest → Q (inr tt) c') →
  wp (adb_status fd) Q c.
Proof.
  intros U Hf Hb Hd H. unfold adb_status. st_go.
  change 4 with (zlen (str "OKAY")). eapply wp_fd_read_exactly; [done..|]. intros c' i' U' Hb' Hd'. cbn [negb].
  rewrite bool_decide_true by done. st_go. by eapply H.
Qed.

Lemma wp_status_fail c0 c fd i o reason rest Q :
  used c0 c i o → fd = length (sessions c0) → blocking i → zlen reason < 2 ^ 16 →
  stream_data i = str "FAIL" ++ frame_string reason ++ rest →
  (∀ c' i', used c0 c' i' o → blocking i' → stream_data i' = rest → Q (inl reason) c') →
  wp (adb_status fd) Q c.
Proof.
  intros U Hf Hb Hl Hd H. unfold adb_status. st_go.
  change 4 with (zlen (str "FAIL")). eapply wp_fd_read_exactly; [done..|]. intros c' i' U' Hb' Hd'. cbn [negb].
  rewrite bool_decide_false, bool_decide_true by done. cbn [negb]. st_go.
  eapply wp_read_string; [done..|]. intros c2 i2 U2 Hb2 Hd2. st_go. by eapply H.
Qed.

(** A service of the server itself. *)
Definition host_service (service : bytes) : Prop :=
  starts_with service (str "host") = true ∧ zlen service ≤ MAX_PAYLOAD - 4.

Lemma wp_connect c i o service Q :
  reaches c i o → accepts o → host_service service →
  (∀ c' o', used c c' i o' → o_written o' = o_written o ++ frame_string service →
    wp (status ← adb_status (length (sessions c));
        mret (match status with inl e => Refused e | inr _ => Connected (length (sessions c)) None end)) Q c') →
  wp (_adb_connect service false) Q c.
Proof.
  intros Hr Ho [Hs Hl] H. unfold _adb_connect.
  rewrite bool_decide_false by (by intros ->). rewrite (proj2 (Z.ltb_ge _ _)) by lia. cbn [orb]. st_go.
  eapply wp_spec_connect; [done..|]. intros c1 U1. rewrite Hs. cbn [negb orb]. st_go.
  eapply wp_fd_send_string; [done..|]. intros c2 o' U2 Ho' Hw. cbn [negb]. by apply (H c2 o').
Qed.

(** A query of a client that knows the server's version. *)
Lemma wp_query c i o service a rest :
  version_check c = Some (inr tt) → reaches c i o → accepts o → blocking i → reply_fits a →
  host_service service → service ≠ str "host:start-server" → stream_data i = reply a ++ rest →
  wp (adb_query service false)
    (λ r c', r = a ∧ ∃ i' o', used c c' i' o' ∧ o_written o' = o_written o ++ frame_string service) c.
Proof.
  intros Hv Hr Ho Hb Hf Hs Hn Hd. unfold adb_query, adb_connect, adb_check_server_version. st_go. rewrite Hv. st_go.
  rewrite bool_decide_false by done. eapply wp_connect; [done..|]. intros c' o' U Hw. st_go.
  destruct a as [reason|text]; cbn [reply] in Hd; rewrite <- app_assoc in Hd.
  - eapply wp_status_fail; [done..|]. intros c2 i2 U2 _ _. st_go. split; [done|]. eauto.
  - eapply wp_status_okay; [done..|]. intros c2 i2 U2 Hb2 Hd2. st_go. eapply wp_read_string; [done..|].
    intros c3 i3 U3 Hb3 Hd3. st_go. eapply wp_orderly; [done..|]. intros c4 i4 U4. st_go. split; [done|]. eauto.
Qed.

(** ** The version of the server *)

Lemma used_trans c0 c1 i o c2 i2 o2 :
  used c0 c1 i o → used c1 c2 i2 o2 → sessions c2 = sessions c0 ++ [(i, o); (i2, o2)].
Proof. intros U1 U2. by rewrite (us_sessions _ _ _ _ U2), (us_sessions _ _ _ _ U1), <- app_assoc. Qed.

Lemma wp_kill c i o rest Q :
  reaches c i o → accepts o → blocking i → stream_data i = str "OKAY" ++ rest →
  (∀ r c' i' o', used c c' i' o' → o_written o' = o_written o ++ frame_string (str "host:kill") → Q r c') →
  wp adb_kill_server Q c.
Proof.
  intros Hr Ho Hb Hd H. unfold adb_kill_server. st_go. eapply wp_spec_connect; [done..|]. intros c1 U1. st_go.
  eapply wp_fd_send_string; [done..|]. intros c2 o' U2 Ho' Hw. cbn [negb]. st_go.
  change 4 with (zlen (str "OKAY")). eapply wp_fd_read_exactly; [done..|]. intros c3 i3 U3 Hb3 _. cbn [negb].
  rewrite bool_decide_false by done. st_go. eapply wp_orderly; [done..|]. intros c4 i4 U4. st_go. by eapply H.
Qed.

Lemma sscanf_version v : 0 ≤ v < 2 ^ 16 → sscanf_04x (c_str (print_0x 4 v)) = Some v.
Proof.
  intros Hv. unfold sscanf_04x. destruct (print_0x_val 4 v) as (_ & Hf & Hne); [lia|].
  assert (length (print_0x 4 v) = 4%nat) as Hl by (apply length_print_0x; lia).
  rewrite c_str_print_0x by lia. assert (skip_space (print_0x 4 v) = print_0x 4 v) as ->.
  { rewrite <- (app_nil_r (print_0x 4 v)). by rewrite (skip_space_digits 16). }
  rewrite take_ge, strtoull_04x by lia. cbn [st_conv st_val]. f_equal. unfold s32. rewrite u32_small by lia. by zbool.
Qed.

Definition one_device (c : client) : option bytes :=
  match __adb_client_one_device c with
  | Some d => Some d
  | None => if is_one_device_mandatory then __adb_serial c else None
  end.

Lemma wp_start_server c Q :
  (∀ c', launched c' = launched c ++ [(__adb_server_socket_spec c, one_device c)] → sessions c' = sessions c →
    Q (if default true (head (launch_script c)) then inl (str "cannot connect to daemon") else inr tt) c') →
  wp start_server Q c.
Proof. intros H. unfold start_server, launch_server. st_go. by apply H. Qed.

(** C33: The client asks a running server for its version, once per process.  A
    server of the same version is used; an older one is asked to end, over a
    second connection, and a new one is started with the device the client was
    told to use; when that fails, so does the check. *)
Theorem version_check_correct c v i o i2 o2 r d local rest rest2 :
  version_check c = None → network_script c = inr (i, o) :: inr (i2, o2) :: r →
  connect_destination (__adb_server_socket_spec c) [NUL] 0 = Ret (inr d) →
  is_local_socket_spec (__adb_server_socket_spec c) [NUL] = Ret local →
  accepts o → accepts o2 → blocking i → blocking i2 →
  0 ≤ v ≤ ADB_SERVER_VERSION → stream_data i = reply (inr (print_0x 4 v)) ++ rest →
  stream_data i2 = str "OKAY" ++ rest2 →
  ∃ res c' s1 i2' o2', adb_check_server_version c = Ret (res, c') ∧
    adb_check_server_version c' = Ret (res, c') ∧
    if v =? ADB_SERVER_VERSION then
      res = inr tt ∧ launched c' = launched c ∧ sessions c' = sessions c ++ [s1]
    else
      res = (if default true (head (launch_script c)) then inl (str "cannot connect to daemon") else inr tt) ∧
      launched c' = launched c ++ [(__adb_server_socket_spec c, one_device c)] ∧
      sessions c' = sessions c ++ [s1; (i2', o2')] ∧
      o_written o2' = o_written o2 ++ frame_string (str "host:kill").
Proof.
  intros Hc Hn Hd Hl Ho Ho2 Hb Hb2 Hv Hi Hi2. unfold ADB_SERVER_VERSION in *.
  assert (wp check_server_version (λ res c', ∃ s1 i2' o2',
    if v =? 41 then res = inr tt ∧ launched c' = launched c ∧ sessions c' = sessions c ++ [s1]
    else res = (if default true (head (launch_script c)) then inl (str "cannot connect to daemon") else inr tt) ∧
      launched c' = launched c ++ [(__adb_server_socket_spec c, one_device c)] ∧
      sessions c' = sessions c ++ [s1; (i2', o2')] ∧
      o_written o2' = o_written o2 ++ frame_string (str "host:kill")) c) as Hw.
  { unfold check_server_version. st_go. eapply wp_connect; [by split; eauto|done|done|]. intros c1 o1 U1 _. st_go.
    cbn [reply] in Hi. rewrite <- app_assoc in Hi.
    eapply wp_status_okay; [done..|]. intros c2 i' U2 Hb' Hi'. st_go. rewrite (us_spec _ _ _ _ U2).
    eapply wp_lift; [exact Hl|]. cbv beta iota. unfold server_version. st_go. eapply wp_read_string; [done..| |exact Hi'|].
    { rewrite length_print_0x; lia. }
    intros c3 i3 U3 Hb3 _. st_go. eapply wp_orderly; [done..|]. intros c4 i4 U4. st_go. rewrite sscanf_version by lia.
    change ADB_SERVER_VERSION with 41.
    destruct (Z.eqb_spec v 41) as [->|Hne].
    { st_go. exists (i4, o1), i, o. split_and!; [done|apply U4|apply U4]. }
    rewrite (proj2 (Z.ltb_ge _ _)) by lia. cbn [andb]. st_go.
    eapply (wp_kill c4 i2 o2); try done.
    { split; [rewrite (us_spec _ _ _ _ U4); eauto|]. rewrite (us_script _ _ _ _ U4), Hn. by eexists. }
    intros b c5 i5 o5 U5 Hk. apply wp_start_server. intros c6 L6 S6. exists (i4, o1), i5, o5.
    rewrite L6, S6, (used_trans _ _ _ _ _ _ _ U4 U5), (proj1 (us_launch _ _ _ _ U5)), (proj1 (us_launch _ _ _ _ U4)).
    rewrite (proj2 (us_launch _ _ _ _ U5)), (proj2 (us_launch _ _ _ _ U4)), (us_spec _ _ _ _ U5), (us_spec _ _ _ _ U4).
    unfold one_device. destruct (us_device _ _ _ _ U5) as (-> & _ & _ & ->), (us_device _ _ _ _ U4) as (-> & _ & _ & ->).
    done. }
  apply wp_run in Hw as (res & c' & E & s1 & i2' & o2' & Hres).
  exists res, (c' <| version_check := Some res |>), s1, i2', o2'. unfold adb_check_server_version.
  unfold mbind, ST_bind, get. rewrite Hc, E. split_and!; [done..|]. by destruct (v =? 41).
Qed.

End client.

Lemma blocking_data pieces : blocking (Data <$> pieces).
Proof. intros (b & E & _)%list_elem_of_fmap. discriminate E. Qed.

(** An environment to evaluate the client in. *)
Definition sample_client_env : ClientEnv := {|
  perror_str := λ s, s ++ str ": error"; is_one_device_mandatory := false; adb_get_android_dir_path := str "/home";
  read_file := λ _, None; execve := λ _, false
|}.

Section sample.
#[local] Existing Instance sample_client_env.

(** A client that finds a server of an older version. *)
Definition old_server_client : client :=
  Client kTransportAny None 0 (str "tcp:5037") None None None []
    [inr ([Data (str "OK"); Data (str "AY00040028")], Out [] []); inr ([Data (str "OKAY")], Out [] [Accept 5])] [false] [] [].

Lemma version_check_correct_witness :
  ∃ c', adb_check_server_version old_server_client = Ret (inr tt, c') ∧ launched c' = [(str "tcp:5037", None)].
Proof.
  destruct (version_check_correct old_server_client 40 [Data (str "OK"); Data (str "AY00040028")] (Out [] [])
    [Data (str "OKAY")] (Out [] [Accept 5]) [] (Dest (LoopbackTcp 5037) None 5037) true [] [])
    as (res & c' & s1 & i2 & o2 & E & _ & Hr); try (vm_compute; reflexivity).
  - intros e He. by apply elem_of_nil in He.
  - intros e [He|He%elem_of_nil]%elem_of_cons; [discriminate He|destruct He].
  - exact (blocking_data [str "OK"; str "AY00040028"]).
  - exact (blocking_data [str "OKAY"]).
  - vm_compute. split; intros H; discriminate H.
  - vm_compute in Hr. destruct Hr as (-> & Hl & _). exists c'. split; [exact E|exact Hl].
Defined.
End sample.
