(* ===== verification/QueryFacts.v ===== *)
(** * A query, from the client to the server and back

    The server's side of the requests that only report something: a client
    connects, its request arrives in any number of pieces, and the answer is
    what the abstract specification [answer] says of the listed transports.
    Together with [ClientFacts] this is the round trip of [adb_query]. *)

From S2P Require Import Prelude State CString CStringFacts LibBase LibBaseFacts Types TypesFacts AdbIO AdbIOFacts Packets.
From S2P Require Import PacketsFacts Transport TransportFacts HostService HostServiceFacts SocketSpec Env Sockets.
From S2P Require Import SocketsWp SocketsInv SocketsIO SocketsSafe SocketsFrame TrackersFacts Listeners ServerInv.
From S2P Require Import LifecycleFacts HostRequest HostRequestFacts SmartSockets SmartSocketsFacts Server ServerFacts.
From S2P Require Import ServerProps Client ClientFacts.
Local Open Scope Z_scope.
Local Open Scope record_scope.

(** ** Reading everything that has arrived *)

(** Exactly the bytes [d] have arrived, in pieces; reading more would block. *)
Definition delivers (i : instream) (d : bytes) : Prop :=
  ∃ pieces, i = (Data <$> pieces) ++ [Fault EAGAIN] ∧ Forall (λ bs, bs ≠ []) pieces ∧ concat pieces = d.

Lemma fill_all fuel n max o : ∀ pieces data avail w b left eof w',
  fill_loop fuel n data max avail w = Ret ((b, left, eof), w') →
  fds w !! n = Some ((Data <$> pieces) ++ [Fault EAGAIN], o) →
  Forall (λ bs, bs ≠ []) pieces → zlen (concat pieces) < avail ≤ MAX_RW_COUNT →
  eof = false ∧ fds w' !! n = Some ([], o).
Proof.
  induction fuel as [|fuel IH]; intros pieces data avail w b left eof w' E Ei Hne Ha;
    cbn [fill_loop] in E; rewrite (proj2 (Z.ltb_lt _ _)) in E by lia; [done|].
  unfold mbind, ST_bind, fd_read in E. rewrite Ei in E. destruct pieces as [|bs pieces]; cbn in E.
  - injection E as <- <- <- <-. rec_norm. split; [done|]. by rewrite lookup_insert_eq.
  - cbn in Ha. rewrite length_app in Ha. rewrite Z.min_l, ztake_all in E by lia.
    rewrite (proj2 (Z.ltb_ge _ _)) in E by lia. apply Forall_cons in Hne as [Hb Hne].
    destruct bs as [|b0 bs]; [done|]. remember (b0 :: bs) as bs' eqn:Ebs. clear Hb. cbn in E.
    destruct (Block.write_at data (max - avail) bs') as [data'| | |]; [|done..]. cbn in E.
    eapply (IH pieces) in E; [done| |done|lia]. rec_norm. by rewrite lookup_insert_eq.
Qed.

Lemma arrived_pieces pieces : arrived ((Data <$> pieces) ++ [Fault EAGAIN]) = concat pieces.
Proof.
  unfold arrived. rewrite fmap_app, concat_app. cbn. rewrite !app_nil_r. f_equal.
  rewrite <- list_fmap_compose. by apply list_fmap_id.
Qed.

Lemma wp_read_all junk n max i o d Q w :
  0 < max ≤ MAX_PAYLOAD → queued w + max < 2 ^ 63 → fds w !! n = Some (i, o) → delivers i d → zlen d < max →
  (∀ b, (d ≠ [] → ∃ b', Block.resize junk b (zlen d) = Ret b' ∧ Block.wf b' ∧ Block.content b' = d ∧
                        Block.size_ b' = zlen d) →
    Q (b, max - zlen d, false) (w <| fds ::= <[n := ([], o)]> |>)) →
  wp (read_data junk n max) Q w.
Proof.
  intros Hm Hq Ei (pieces & -> & Hne & <-) Hd HQ.
  assert (wp (read_data junk n max) (λ r w', r.2 = false ∧ fds w' !! n = Some ([], o)) w) as Hrun.
  { unfold read_data, resize_block. wp_go. apply (wp_lift _ tt); [by rewrite (proj2 (Z.ltb_lt _ _))|]. wp_go.
    apply (wp_lift _ (Block.mk (Some (Block.new_array junk max)) max max)).
    { unfold Block.resize, Block.allocate. cbn. zbool. done. }
    wp_go. pose proof (zlen_new_array junk max ltac:(lia)) as Hl.
    destruct (proj1 (wp_run _ _ _) (wp_fill_loop n max (fill_fuel n w) (Block.new_array junk max) max w Hl
      ltac:(lia) ltac:(lia) ltac:(right; unfold fill_fuel; lia))) as ([[b left] eof] & w' & E & _).
    apply wp_run. exists (b, left, eof), w'. split; [done|]. unfold MAX_PAYLOAD in Hm.
    eapply fill_all in E; [exact E|done..|]. unfold MAX_RW_COUNT. lia. }
  eapply wp_mono; [eapply (wp_safe_and _ _ (λ r w', r.2 = false → fds w' !! n = Some ([], o) → Q r w'))|].
  { exact Hrun. }
  - apply safe_read_data; [lia|]. intros b avail eof w' got Ht -> _ _ Hb. cbn. intros -> Ei'.
    unfold took in Ht. rewrite Ei in Ht. destruct Ht as (i' & -> & Ha). revert Ei'. rec_norm.
    rewrite lookup_insert_eq. intros [= ->]. rewrite arrived_pieces in Ha. cbn in Ha. rewrite app_nil_r in Ha. subst got.
    apply HQ. intros Hg. destruct (Hb Hg) as (b' & Eb & Hb'). exists b'. split; [|done]. rewrite <- Eb. f_equal. lia.
  - intros r w' [[H1 H2] H3]. auto.
Qed.

(** ** The length of a request *)

Lemma unhex_digit_base b :
  is_base_digit 16 b = true →
  unhex_digit b = Some (default 0 (base_digit 16 b)) ∧ 0 ≤ default 0 (base_digit 16 b) < 16.
Proof. destruct b; vm_compute; intros H; try discriminate H; split_and!; done. Qed.

Lemma unhex_loop_val rest : ∀ ds n,
  Forall (λ b, is_base_digit 16 b = true) ds → 0 ≤ n → (n + 1) * 16 ^ zlen ds ≤ 2 ^ 32 →
  unhex_loop n (ds ++ rest) (length ds) = Ret (fold_left (λ acc b, acc * 16 + default 0 (base_digit 16 b)) ds n).
Proof.
  induction ds as [|b ds IH]; intros n Hd Hn Hb; [by destruct rest|].
  apply Forall_cons in Hd as [Hb1 Hd]. destruct (unhex_digit_base b Hb1) as [E Hr]. cbn [app unhex_loop length fold_left].
  rewrite E. cbn [length] in Hb. rewrite Nat2Z.inj_succ, Z.pow_succ_r in Hb by lia.
  assert (1 ≤ 16 ^ zlen ds) by (apply (Z.pow_le_mono_r 16 0); lia).
  rewrite Z.shiftl_mul_pow2 by lia. change (2 ^ 4) with 16. rewrite u32_small by nia.
  assert (Z.lor (n * 16) (default 0 (base_digit 16 b)) = n * 16 + default 0 (base_digit 16 b)) as ->.
  { rewrite <- Z.add_lor_land. replace (Z.land _ _) with 0; [lia|]. symmetry. apply Z.bits_inj'. intros j Hj.
    rewrite Z.land_spec, Z.bits_0. change 16 with (2 ^ 4) at 1. rewrite <- Z.shiftl_mul_pow2, Z.shiftl_spec by lia.
    destruct (Z.ltb_spec j 4); [by rewrite Z.testbit_neg_r by lia|].
    apply andb_false_intro2. apply Z.testbit_false; [lia|]. rewrite Z.div_small; [done|]. split; [lia|].
    apply Z.lt_le_trans with (2 ^ 4); [lia|apply Z.pow_le_mono_r; lia]. }
  apply IH; [done|lia|nia].
Qed.

Lemma unhex_print v rest : 0 ≤ v < 2 ^ 16 → unhex (print_0x 4 v ++ rest) 4 = Ret v.
Proof.
  intros Hv. destruct (print_0x_val 4 v) as (Hd & Hf & _); [lia|].
  assert (length (print_0x 4 v) = 4%nat) as Hl by (apply length_print_0x; lia).
  pose proof (unhex_loop_val rest (print_0x 4 v) 0 Hf) as E. rewrite Hl in E. unfold unhex.
  rewrite E by lia. by f_equal.
Qed.

(** ** A client that has connected *)

Section server.
Context (junk : nat → byte) `{HE : !Env}.

Definition client_socket (k : Z) (q : nat) (n : Z) : asocket :=
  Socket k false false (Some q) enqueue_local ready_local false close_local None (Some (Fdevent true false)) n
    IOVector.empty_vec None [] None.

(** The client [p] with the smart socket [q] is gone; its descriptor [n] lingers. *)
Record dismissed (p q : nat) (n : Z) (w w' : world) : Prop := {
  di_sockets : sockets w' = delete q (delete p (sockets w));
  di_fds : fds w' = fds w;
  di_lingering : lingering w' = lingering w ++ [n];
  di_transports : transports w' = transports w;
  di_list : transport_list w' = transport_list w
}.

Lemma wp_dismiss p q k n sq w :
  p ≠ q → sockets w !! p = Some (client_socket k q n) → sockets w !! q = Some sq →
  close_fn sq = close_smart → peer sq = Some p →
  wp (socket_close junk q) (λ _ w', dismissed p q n w w') w.
Proof.
  intros Hne Ep Eq Hc Hp. unfold socket_close, CLOSE_FUEL. cbn [socket_close_fuel]. wp_go. rewrite Hc.
  unfold smart_socket_close. wp_go. rewrite Hp. wp_go.
  eapply wp_load; [apply lookup_insert_eq|]. cbn [close_fn client_socket]. rec_simpl. cbn [client_socket close_fn].
  unfold local_socket_close. wp_go. eapply wp_load; [apply lookup_insert_eq|]. rec_simpl. wp_go.
  unfold local_socket_finish. wp_go. eapply wp_load; [apply lookup_insert_eq|]. rec_simpl.
  cbn [client_socket closing has_write_error packet_queue]. change (IOVector.empty IOVector.empty_vec) with true; cbn [orb].
  unfold local_socket_destroy, deferred_close, remove_socket. wp_go.
  eapply wp_load; [apply lookup_insert_eq|]. wp_go. apply (wp_lift _ (Fdevent true false)); [done|]. wp_go.
  eapply wp_delete; [apply lookup_insert_eq|]. wp_go.
  eapply wp_store; [rec_simpl; by rewrite lookup_delete_ne, lookup_insert_ne|]. wp_go.
  eapply wp_delete; [apply lookup_insert_eq|]. constructor; rec_simpl; try done.
  by rewrite delete_insert_eq, delete_insert_eq.
Qed.

(** ** The answers *)

(** What is reported about one transport. *)
Definition report_text (cmd : bytes) : option (atransport → bytes) :=
  if bool_decide (cmd = str "features") then Some (λ a, FeatureSetToString (features_ a))
  else if bool_decide (cmd = str "get-serialno") then Some (λ a, or_unknown (serial a))
  else if bool_decide (cmd = str "get-devpath") then Some (λ a, or_unknown (devpath a))
  else if bool_decide (cmd = str "get-state") then Some (λ a, to_string no_perm_short (connection_state_ a))
  else None.

(** What is reported about the server. *)
Definition server_text (as_ : list atransport) (cmd : bytes) : option bytes :=
  if bool_decide (cmd = str "version") then Some (print_0x 4 ADB_SERVER_VERSION)
  else if bool_decide (cmd = str "devices") then Some (list_transports SHORT_TEXT as_)
  else if bool_decide (cmd = str "devices-l") then Some (list_transports LONG_TEXT as_)
  else if bool_decide (cmd = str "server-status") then Some server_status
  else if bool_decide (cmd = str "host-features") then
    Some (FeatureSetToString (supported_features env
      ++ (if is_libusb_enabled then [kFeatureLibusb] else []) ++ [kFeaturePushSync]))
  else None.

(** The answer to the command [cmd] about the transport [q] of the listed ones. *)
Definition answer (as_ : list atransport) (q : query) (cmd : bytes) : option (bytes + bytes) :=
  match server_text as_ cmd with
  | Some text => Some (inr text)
  | None =>
      text ← report_text cmd;
      match acquire_one_transport no_perm_long ADB_VENDOR_KEYS as_ q false with
      | Ret (Some a, _, _) => Some (inr (text a))
      | Ret (None, _, error) => Some (inl error)
      | _ => None
      end
  end.

(** The transports of the list, found under their ids. *)
Definition known (w : world) (as_ : list atransport) : Prop :=
  loaded w as_ ∧ ∀ a, a ∈ as_ → transports w !! id a = Some a ∧ quals_ok a.

Definition put (n : Z) (i : instream) (o : outstream) (w : world) : world := w <| fds ::= <[n := (i, o)]> |>.

Lemma wp_fd_put {A} n (d : A) f i o a o' w Q :
  fds w !! n = Some (i, o) → f o = Ret (a, o') → Q a (put n i o' w) → wp (fd_out n d f) Q w.
Proof. intros E Ef H. apply wp_fd_out_eq. rewrite E. eauto. Qed.

Lemma put_put n i o i' o' w : put n i o (put n i' o' w) = put n i o w.
Proof. unfold put. rec_norm. by rewrite insert_insert_eq. Qed.

Lemma lookup_put n i o w : fds (put n i o w) !! n = Some (i, o).
Proof. apply lookup_insert_eq. Qed.

Lemma wp_okay_string n text i o w Q :
  fds w !! n = Some (i, o) → accepts o → zlen text < 2 ^ 16 →
  (∀ o', accepts o' → o_written o' = o_written o ++ reply (inr text) → Q tt (put n i o' w)) →
  wp (send_okay_string n text) Q w.
Proof.
  intros E Ho Hl H. unfold send_okay_string, send_okay, send_string. wp_go.
  destruct (write_accepts o (str "OKAY") Ho) as (o1 & E1 & W1 & A1).
  destruct (send_string_accepts o1 text A1) as (o2 & E2 & W2 & A2); [unfold MAX_PAYLOAD; lia|].
  eapply wp_fd_put; [done|exact E1|]. wp_go. eapply wp_fd_put; [apply lookup_put|exact E2|]. wp_go.
  rewrite put_put. apply H; [done|]. by rewrite W2, W1, <- app_assoc.
Qed.

Lemma wp_fail_string n reason i o w Q :
  fds w !! n = Some (i, o) → accepts o → zlen reason < 2 ^ 16 →
  (∀ o', accepts o' → o_written o' = o_written o ++ reply (inl reason) → Q tt (put n i o' w)) →
  wp (send_fail n reason) Q w.
Proof.
  intros E Ho Hl H. unfold send_fail. wp_go.
  destruct (write_accepts o (str "FAIL") Ho) as (o1 & E1 & W1 & A1).
  destruct (send_string_accepts o1 reason A1) as (o2 & E2 & W2 & A2); [unfold MAX_PAYLOAD; lia|].
  eapply wp_fd_put; [done|unfold SendFail; rewrite E1; mstep; exact E2|]. wp_go.
  apply H; [done|]. by rewrite W2, W1, <- app_assoc.
Qed.

Lemma wp_listed_known as_ w Q : known w as_ → Q as_ w → wp listed_transports Q w.
Proof.
  intros [Hl _] HQ. unfold listed_transports. wp_go. revert Hl. unfold loaded. generalize (transport_list w).
  intros l Hl. revert Q HQ. induction Hl as [|t a l as_ E Hl IH]; intros Q HQ; cbn [load_all]; wp_go; [done|].
  apply IH. by wp_go.
Qed.

Lemma wp_report s so q n text i o as_ a w Q :
  sockets w !! s = Some so → transport so = None → known w as_ → serial_fine q →
  fds w !! n = Some (i, o) → accepts o → reply_fits a →
  match acquire_one_transport no_perm_long ADB_VENDOR_KEYS as_ q false with
  | Ret (Some a, _, _) => Some (inr (text a))
  | Ret (None, _, error) => Some (inl error)
  | _ => None
  end = Some a →
  (∀ o', accepts o' → o_written o' = o_written o ++ reply a → Q tt (put n i o' w)) →
  wp (report s q n text) Q w.
Proof.
  intros Es Ht Hk Hq E Ho Hf Ha H. unfold report, chosen_transport. wp_go. rewrite Ht. unfold acquire. wp_go.
  eapply wp_listed_known; [done|].
  destruct (acquire_one_transport_total no_perm_long ADB_VENDOR_KEYS as_ q false Hq) as (r & amb & e & Er & Hr).
  { apply Forall_forall. intros x Hx. by apply Hk. }
  rewrite Er in Ha. wp_go. eapply wp_lift; [exact Er|]. wp_go. destruct r as [x|]; injection Ha as <-; cbn [fmap option_fmap option_map].
  - destruct (Hr x eq_refl) as [Hx _]. destruct (proj2 Hk x Hx) as [Ex _]. wp_go. by eapply wp_okay_string.
  - by eapply wp_fail_string.
Qed.

(** Decides which of the services a literal name is. *)
Ltac literal_service :=
  repeat match goal with
  | |- context [bool_decide (str ?a = str ?b)] =>
      let v := eval vm_compute in (bool_decide (str a = str b)) in change (bool_decide (str a = str b)) with v
  | |- context [starts_with (str ?a) (str ?b)] =>
      let v := eval vm_compute in (starts_with (str a) (str b)) in change (starts_with (str a) (str b)) with v
  end; cbv beta iota delta [orb].

Lemma answer_cases as_ q cmd a :
  answer as_ q cmd = Some a →
  (∃ text, server_text as_ cmd = Some text ∧ a = inr text) ∨
  (∃ text, report_text cmd = Some text ∧
    match acquire_one_transport no_perm_long ADB_VENDOR_KEYS as_ q false with
    | Ret (Some a, _, _) => Some (inr (text a))
    | Ret (None, _, error) => Some (inl error)
    | _ => None
    end = Some a).
Proof.
  unfold answer. destruct (server_text as_ cmd) as [text|]; [intros [= <-]; eauto|].
  destruct (report_text cmd) as [text|]; [|done]. cbn. eauto.
Qed.

Context (enqueue : nat → Block.t → M Z).

Lemma wp_host_request s so q n cmd i o as_ a w Q :
  sockets w !! s = Some so → transport so = None → known w as_ → serial_fine q →
  fds w !! n = Some (i, o) → accepts o → reply_fits a → answer as_ q cmd = Some a →
  (∀ o', accepts o' → o_written o' = o_written o ++ reply a → Q Handled (put n i o' w)) →
  wp (handle_host_request junk enqueue cmd (q_type q) (q_serial q) (q_transport_id q) n s) Q w.
Proof.
  intros Es Ht Hk Hq E Ho Hf [(text & Htext & ->)|(text & Htext & Ha)]%answer_cases H.
  - unfold server_text in Htext. repeat case_bool_decide; subst; try done; injection Htext as <-;
      unfold handle_host_request; cbv zeta; literal_service; wp_go;
      try (unfold transports_text; wp_go; eapply wp_listed_known; [done|]; wp_go);
      eapply wp_okay_string; try done; intros o' Ho' Hw; wp_go; by apply H.
  - unfold report_text in Htext. repeat case_bool_decide; subst; try done; injection Htext as <-;
      unfold handle_host_request; cbv zeta; literal_service; wp_go; destruct q;
      eapply wp_report; try done; intros o' Ho' Hw; wp_go; by apply H.
Qed.

(** The client [p] has been answered [a] and is gone. *)
Record answered (p q : nat) (n : Z) (o : outstream) (a : bytes + bytes) (w w' : world) : Prop := {
  an_sockets : sockets w' = delete q (delete p (sockets w));
  an_fds : ∃ i o', o_written o' = o_written o ++ reply a ∧ fds w' = <[n := (i, o')]> (fds w);
  an_transports : transports w' = transports w ∧ transport_list w' = transport_list w
}.

(** The query a request stands for. *)
Definition request_query (ty : TransportType) (serial_ : bytes) (transport_id : Z) : query :=
  Query ty (if bool_decide (serial_ = []) then None else Some (c_str serial_)) transport_id.

Lemma request_query_fine ty serial_ transport_id : serial_fine (request_query ty serial_ transport_id).
Proof. intros s. cbn. case_bool_decide; [done|]. intros [= <-]. apply c_str_no_nul. Qed.

Lemma answer_nonempty as_ q a : answer as_ q [] ≠ Some a.
Proof. done. Qed.

Lemma wp_smart_service p q k n sq ty serial_ transport_id cmd as_ a i o w :
  p ≠ q → sockets w !! p = Some (client_socket k q n) → sockets w !! q = Some sq →
  close_fn sq = close_smart → peer sq = Some p → transport sq = None →
  fds w !! n = Some (i, o) → accepts o → known w as_ →
  answer as_ (request_query ty serial_ transport_id) cmd = Some a → reply_fits a →
  wp (smart_host_service junk enqueue q ty serial_ transport_id cmd) (λ r w', r = -1 ∧ answered p q n o a w w') w.
Proof.
  intros Hne Ep Eq Hc Hp Ht En Ho Hk Ha Hf. unfold smart_host_service. wp_go.
  apply (wp_lift _ p); [by rewrite Hp|]. wp_go.
  apply (wp_host_request q sq (request_query ty serial_ transport_id) n cmd i o as_ a); try done.
  { apply request_query_fine. }
  intros o' Ho' Hw. unfold smart_fail. wp_go. eapply wp_mono; [eapply (wp_dismiss p q k n sq); done|].
  intros [] w' [D1 D2 _ D4 D5]. wp_go. split; [done|]. constructor; [done| |done].
  by exists i, o'.
Qed.

Lemma wp_smart_query p q k n req ty serial_ transport_id cmd as_ a data i o w :
  p ≠ q → sockets w !! p = Some (client_socket k q n) → sockets w !! q = Some (fresh_smart p) →
  fds w !! n = Some (i, o) → accepts o → known w as_ → Block.content data = frame_string req →
  0 < zlen req < 2 ^ 16 → parse_request req = Ret (SmartService ty serial_ transport_id cmd) →
  answer as_ (request_query ty serial_ transport_id) cmd = Some a → reply_fits a →
  wp (smart_socket_enqueue junk enqueue q data) (λ r w', r = -1 ∧ answered p q n o a w w') w.
Proof.
  intros Hne Ep Eq En Ho Hk Hd Hl Hp Ha Hf. unfold smart_socket_enqueue. wp_go.
  eapply wp_load; [apply lookup_insert_eq|]. rec_simpl. cbn [fresh_smart smart_socket_data]. rewrite Hd. cbn [app].
  assert (zlen (frame_string req) = zlen req + 4) as Hlen.
  { unfold frame_string. rewrite length_app, length_print_0x; lia. }
  rewrite (proj2 (Z.ltb_ge _ _)) by lia. wp_go. eapply wp_lift; [apply unhex_print; lia|].
  rewrite (proj2 (Z.eqb_neq _ _)), (proj2 (Z.ltb_ge _ _)) by (unfold MAX_PAYLOAD; lia). cbn [orb].
  rewrite (proj2 (Z.ltb_ge _ _)) by lia. wp_go. eapply wp_store; [apply lookup_insert_eq|].
  rewrite (list_insert_ge (frame_string req)) by lia.
  assert (drop 4 (frame_string req) = req) as ->.
  { unfold frame_string. rewrite drop_app_length' by (rewrite length_print_0x; lia). done. }
  wp_go. eapply wp_lift; [exact Hp|]. cbv beta iota. rewrite bool_decide_false by (by intros ->; eapply answer_nonempty).
  eapply wp_mono; [eapply (wp_smart_service p q k n); [done| |apply lookup_insert_eq|done..]|].
  { rec_simpl. by rewrite !lookup_insert_ne. }
  intros r w' [-> [A1 A2 A3]]. split; [done|]. constructor; [|done..]. revert A1. rec_simpl. intros ->.
  by rewrite (delete_insert_ne _ p q), delete_insert_eq, (delete_insert_ne _ p q), delete_insert_eq by done.
Qed.
End server.

(** ** The two events of a query *)

Section events.
Context (junk : nat → byte) `{HE : !Env}.

(** The request arrives. *)
Lemma wp_query_event p q k n req ty serial_ transport_id cmd as_ a i o w :
  p ≠ q → sockets w !! p = Some (client_socket k q n) → sockets w !! q = Some (fresh_smart p) →
  fds w !! n = Some (i, o) → accepts o → known w as_ → queued w + MAX_PAYLOAD < 2 ^ 63 →
  delivers i (frame_string req) → 0 < zlen req < 2 ^ 16 →
  parse_request req = Ret (SmartService ty serial_ transport_id cmd) →
  answer as_ (request_query ty serial_ transport_id) cmd = Some a → reply_fits a →
  wp (local_socket_event_func junk p true false) (λ _ w', answered p q n o a w w') w.
Proof.
  intros Hne Ep Eq En Ho Hk Hq Hi Hl Hp Ha Hf. unfold local_socket_event_func. wp_go. cbn [andb]. wp_go.
  unfold local_socket_flush_outgoing, get_max_payload. wp_go. cbn [client_socket transport peer]. wp_go.
  cbn [fresh_smart transport]. wp_go. cbn [client_socket fd peer available_send_bytes].
  assert (zlen (frame_string req) = zlen req + 4) as Hlen.
  { unfold frame_string. rewrite length_app, length_print_0x; lia. }
  assert (frame_string req ≠ []) as Hn by (intros E; rewrite E in Hlen; cbn in Hlen; lia).
  eapply wp_read_all; [unfold MAX_PAYLOAD; lia|done..|unfold MAX_PAYLOAD; lia|]. intros b Hb.
  destruct (Hb Hn) as (b' & Eb & _ & Hc & _). rewrite (proj2 (Z.eqb_neq _ _)) by (unfold MAX_PAYLOAD; lia).
  cbn [negb]. wp_go. replace (MAX_PAYLOAD - (MAX_PAYLOAD - zlen (frame_string req))) with (zlen (frame_string req)) by lia.
  eapply wp_lift; [exact Eb|]. unfold hand_over. wp_go. unfold socket_enqueue, ENQUEUE_FUEL. cbn [socket_enqueue_fuel].
  wp_go. cbn [fresh_smart enqueue_fn].
  eapply wp_mono; [eapply (wp_smart_query junk _ p q k n req); try done; apply lookup_insert_eq|].
  intros r w' [-> [A1 A2 A3]]. cbn [Z.ltb]. wp_go. constructor; [done| |done].
  destruct A2 as (i' & o' & Hw & Hfd). exists i', o'. split; [done|]. rewrite Hfd. rec_simpl. by rewrite insert_insert_eq.
Qed.

(** A client connects. *)
Record connected (i : instream) (o : outstream) (w w' : world) : Prop := {
  cn_client : sockets w' !! next_socket w = Some (client_socket (local_socket_next_id w) (S (next_socket w)) (next_fd w));
  cn_smart : sockets w' !! S (next_socket w) = Some (fresh_smart (next_socket w));
  cn_others : delete (S (next_socket w)) (delete (next_socket w) (sockets w')) = sockets w;
  cn_fds : fds w' = <[next_fd w := (i, o)]> (fds w);
  cn_transports : transports w' = transports w ∧ transport_list w' = transport_list w
}.

Lemma wp_client_event enqueue i o w :
  wf w → 0 ≤ local_socket_next_id w < 2 ^ 32 - 1 →
  wp (ss_listener_event_func junk enqueue (Some (i, o))) (λ _ w', connected i o w w') w.
Proof.
  intros H Hid. pose proof (fresh_not_in _ _ (wf_inv _ H)) as Hf.
  assert (sockets w !! S (next_socket w) = None) as Hf'.
  { apply eq_None_not_Some. intros [s E]. pose proof (inv_fresh _ _ (wf_inv _ H) _ _ E). lia. }
  unfold ss_listener_event_func, socket_on. wp_go. unfold wp at 1, new_fd.
  set (w1 := w <| fds ::= <[next_fd w := (i, o)]> |> <| next_fd := next_fd w + 1 |>).
  assert (wf w1) as H1 by (apply (wf_fds (<[next_fd w := (i, o)]> (fds w))) in H; by destruct H as [[]]).
  apply wp_create_local_socket; [done|]. pose proof (wf_add_local (local_socket_next_id w1) (next_fd w) w1 H1) as H2.
  eapply wp_connect_smart; [apply H2|apply lookup_insert_eq|].
  unfold socket_ready. wp_go. eapply wp_load.
  { unfold add_peer. rec_simpl. rewrite lookup_insert_ne by (cbn; lia). apply lookup_insert_eq. }
  rec_simpl. cbn [fresh_local ready_fn]. unfold local_socket_ready, fdevent_add_read. eapply wp_fdevent_set.
  { unfold add_peer. rec_simpl. rewrite lookup_insert_ne by (cbn; lia). apply lookup_insert_eq. }
  { done. }
  unfold add_peer, add_local, w1. constructor; rec_simpl; try done.
  - by rewrite lookup_insert_eq.
  - by rewrite lookup_insert_ne, lookup_insert_eq by lia.
  - rewrite delete_insert_eq, (delete_insert_ne _ (next_socket w)), (delete_insert_eq (delete _ _)) by lia.
    by rewrite delete_insert_eq, delete_insert_eq, !delete_id by (by rewrite ?lookup_delete_ne by lia).
Qed.
End events.

(** ** The request of the client *)

(** The transport a client selected on its command line. *)
Definition client_query (c : client) : query :=
  if negb (__adb_transport_id c =? 0) then Query kTransportAny None (__adb_transport_id c)
  else match __adb_serial c with
       | Some serial_ => Query kTransportAny (Some serial_) 0
       | None => Query (match __adb_transport c with kTransportHost => kTransportAny | t => t end) None 0
       end.

(** A serial the server finds in a request: a name, or a host with a port. *)
Definition askable (serial_ : bytes) : Prop :=
  (NUL ∉ serial_) ∧
  (plain_serial serial_ ∨
   (∃ host port, serial_ = host ++ colon :: port ∧ plain_serial host ∧ forallb isdigit port = true)).

Definition selection_ok (c : client) : Prop :=
  0 ≤ __adb_transport_id c < 2 ^ 64 ∧ ∀ serial_, __adb_serial c = Some serial_ → askable serial_.

Lemma from_chars_print n rest :
  0 ≤ n < 2 ^ 64 → (∀ b r, rest = b :: r → is_base_digit 10 b = false) →
  from_chars (2 ^ 64 - 1) (print_u n ++ rest) = Some (n, rest).
Proof.
  intros Hn Hr. destruct (print_base_spec 10 n) as (Hv & Hf & Hne); [lia..|]. unfold from_chars, print_u.
  rewrite span_app by done. rewrite bool_decide_false by done. rewrite Hv. by rewrite (proj2 (Z.ltb_ge _ _)) by lia.
Qed.

Lemma consume_own_prefix p s : ConsumePrefix (p ++ s) p = Some s.
Proof.
  unfold ConsumePrefix, StartsWith, substr. rewrite drop_0, take_app_length, bool_decide_true by done.
  by rewrite drop_app_length.
Qed.

(** A command without a colon is no port. *)
Lemma no_colon_not_port cmd : colon ∉ cmd → not_port cmd.
Proof.
  intros H. unfold not_port. destruct (find_char cmd colon 0) as [i|] eqn:E; [|done].
  destruct H. destruct (find_char_first _ _ _ E) as [-> _]. apply elem_of_app. right. by left.
Qed.

(** The server understands what the client asks for. *)
Lemma request_understood c cmd :
  selection_ok c → cmd ≠ [] → colon ∉ cmd →
  ∃ ty serial_ transport_id, parse_request (format_host_command c cmd) = Ret (SmartService ty serial_ transport_id cmd) ∧
    request_query ty serial_ transport_id = client_query c.
Proof.
  intros [Hid Hs] Hne Hc. unfold format_host_command, client_query. destruct (Z.eqb_spec (__adb_transport_id c) 0) as [->|Hz]; cbn [negb].
  - destruct (__adb_serial c) as [serial_|].
    + destruct (Hs serial_ eq_refl) as [Hn Hp]. exists kTransportAny, serial_, 0.
      assert (parse_host_service (serial_ ++ colon :: cmd) = Ret (Some (serial_, cmd)) ∧ serial_ ≠ []) as [E Hsn].
      { destruct Hp as [Hp|(host & port & -> & Hp & Hd)].
        - split; [by apply parse_serial, no_colon_not_port|apply Hp].
        - rewrite <- app_assoc. split; [by apply parse_serial_port|]. intros [-> _]%app_eq_nil. by apply (ps_nonempty _ Hp). }
      split; [|unfold request_query; by rewrite bool_decide_false, c_str_id].
      unfold parse_request. rewrite consume_own_prefix. change (str ":" ++ cmd) with (colon :: cmd). rewrite E. done.
    + exists (match __adb_transport c with kTransportHost => kTransportAny | t => t end), [], 0.
      split; [|done]. by destruct (__adb_transport c).
  - exists kTransportAny, [], (__adb_transport_id c). split; [|done].
    unfold parse_request. rewrite consume_own_prefix. unfold print_d. rewrite (proj2 (Z.ltb_ge _ _)) by lia.
    change (ConsumePrefix _ (str "host-serial:")) with (@None bytes). cbv iota. unfold ParseUint_rest.
    rewrite from_chars_print; [|done|by intros b r [= <- _]]. by rewrite consume_own_prefix.
Qed.

(** What a command that only reports looks like. *)
Lemma answer_command `{HE : !Env} as_ q cmd a :
  answer as_ q cmd = Some a →
  cmd ≠ [] ∧ (colon ∉ cmd) ∧ cmd ≠ str "start-server" ∧ emulator_fine cmd = true.
Proof.
  intros [(text & H & _)|(text & H & _)]%answer_cases; unfold server_text, report_text in H;
    repeat case_bool_decide; try discriminate H; subst; split_and!; by_decide.
Qed.

Lemma format_host c cmd :
  cmd ≠ str "start-server" → zlen (format_host_command c cmd) < 2 ^ 16 →
  host_service (format_host_command c cmd) ∧ format_host_command c cmd ≠ str "host:start-server".
Proof.
  intros Hc Hl. split; [split; [|unfold MAX_PAYLOAD; lia]|]; unfold format_host_command;
    destruct (negb _); [done| |done|]; destruct (__adb_serial c); [done| |done|]; destruct (__adb_transport c); try done;
    by intros [= ?].
Qed.

(** ** What has arrived of a request *)

Lemma request_fine_prefix req got ty serial_ transport_id cmd :
  0 < zlen req < 2 ^ 16 → parse_request req = Ret (SmartService ty serial_ transport_id cmd) →
  emulator_fine cmd = true → got `prefix_of` frame_string req → request_fine got = true.
Proof.
  intros Hl Hp He [r Hr]. unfold request_fine. destruct (Z.ltb_spec (zlen got) 4) as [|H4]; [done|].
  assert (length (print_0x 4 (zlen req)) = 4%nat) as Hx by (apply length_print_0x; lia).
  assert (got = print_0x 4 (zlen req) ++ drop 4 got) as ->.
  { rewrite <- (take_drop 4 got) at 1. f_equal. unfold frame_string in Hr. apply (f_equal (take 4)) in Hr.
    rewrite take_app_length' in Hr by lia. by rewrite take_app_le in Hr by lia. }
  set (g := drop 4 got) in *. rewrite unhex_print by lia. rewrite length_app, Hx.
  rewrite (proj2 (Z.eqb_neq _ _)), (proj2 (Z.ltb_ge _ _)) by (unfold MAX_PAYLOAD; lia). cbn [orb].
  destruct (Z.ltb_spec (Z.of_nat (4 + length g)) (zlen req + 4)) as [|Hg]; [done|].
  assert (g = req) as ->.
  { unfold frame_string in Hr. apply (f_equal (drop 4)) in Hr. rewrite drop_app_length', drop_app_le in Hr by lia. fold g in Hr.
    assert (r = []) as ->; [|by rewrite app_nil_r in Hr]. apply nil_length_inv.
    pose proof (f_equal length Hr) as E. rewrite length_app in E. lia. }
  rewrite list_insert_ge by (rewrite length_app; lia). rewrite drop_app_length' by lia. by rewrite Hp.
Qed.

Lemma queued_insert (m : gmap nat asocket) p s :
  m !! p = None →
  foldr Z.add 0 ((λ x, u64 (IOVector.chain_length_ (packet_queue x.2))) <$> map_to_list (<[p := s]> m)) =
  u64 (IOVector.chain_length_ (packet_queue s)) +
  foldr Z.add 0 ((λ x, u64 (IOVector.chain_length_ (packet_queue x.2))) <$> map_to_list m).
Proof.
  intros E. set (f := λ x : nat * asocket, u64 (IOVector.chain_length_ (packet_queue x.2))).
  change (u64 _) with (f (p, s)). change (f (p, s) + _) with (foldr Z.add 0 (f <$> (p, s) :: map_to_list m)).
  apply foldr_permutation_proper; [apply _|apply _|intros; lia|]. by rewrite map_to_list_insert.
Qed.

Section conversation.
Context (junk : nat → byte) `{HE : !Env}.

Lemma queued_connected i o w w' : wf w → connected i o w w' → queued w' = queued w.
Proof.
  intros H [C1 C2 C3 _ _]. pose proof (fresh_not_in _ _ (wf_inv _ H)) as Hf.
  assert (sockets w !! S (next_socket w) = None) as Hf'.
  { apply eq_None_not_Some. intros [s E]. pose proof (inv_fresh _ _ (wf_inv _ H) _ _ E). lia. }
  assert (sockets w' = <[next_socket w := client_socket (local_socket_next_id w) (S (next_socket w)) (next_fd w)]>
    (<[S (next_socket w) := fresh_smart (next_socket w)]> (sockets w))) as E.
  { rewrite <- C3. rewrite insert_delete_id by (by rewrite lookup_delete_ne by lia). by rewrite insert_delete_id. }
  unfold queued. rewrite E, queued_insert, queued_insert by (by rewrite ?lookup_insert_ne by lia). done.
Qed.

Lemma server_ok_known w as_ : server_ok w → loaded w as_ → known w as_.
Proof. intros H Hl. split; [done|]. intros a Ha. by eapply listed_lookup. Qed.

(** The server's half: one client, from its connection to its answer. *)
Lemma server_answers w as_ i req ty serial_ transport_id cmd a :
  reach junk w → loaded w as_ → local_socket_next_id w < 2 ^ 32 - 1 → queued w + MAX_PAYLOAD < 2 ^ 63 →
  delivers i (frame_string req) → 0 < zlen req < 2 ^ 16 →
  parse_request req = Ret (SmartService ty serial_ transport_id cmd) →
  answer as_ (request_query ty serial_ transport_id) cmd = Some a → reply_fits a →
  ∃ w' i' o', server_run junk [EClient (Some (i, Out [] [])); ESocket (next_socket w) true false] w = Ret (tt, w') ∧
    reach junk w' ∧ sockets w' = sockets w ∧ transports w' = transports w ∧ transport_list w' = transport_list w ∧
    fds w' !! next_fd w = Some (i', o') ∧ o_written o' = reply a.
Proof.
  intros Hr Hl Hid Hq Hi Hreq Hp Ha Hf. pose proof (reach_server_ok junk w Hr) as H.
  pose proof (sv_wf _ _ H) as Hw. destruct (server_ok_known w as_ H Hl) as [_ Hk].
  destruct (proj1 (wp_run _ _ _) (wp_client_event junk (socket_enqueue junk) i (Out [] []) w Hw
    ltac:(pose proof (sv_ids _ _ H); lia))) as ([] & w1 & E1 & C). pose proof (queued_connected _ _ _ _ Hw C) as Hq1.
  destruct C as [C1 C2 C3 C4 [C5 C6]].
  assert (reach junk w1) as Hr1 by (by eapply (reach_step junk w (EClient (Some (i, Out [] []))))).
  assert (wp (server_step junk (ESocket (next_socket w) true false))
    (λ _ w', answered (next_socket w) (S (next_socket w)) (next_fd w) (Out [] []) a w1 w') w1) as Hstep.
  { cbn [server_step]. eapply (wp_query_event junk _ _ _ _ req); [lia|done|done|..]; try done.
    - rewrite C4. apply lookup_insert_eq.
    - intros e He. by apply elem_of_nil in He.
    - split; [unfold loaded; by rewrite C5, C6|]. by rewrite C5.
    - by rewrite Hq1. }
  apply wp_run in Hstep as ([] & w2 & E2 & [A1 (i' & o' & Hw' & A2) [A3 A4]]).
  exists w2, i', o'. split_and!.
  - unfold server_run. unfold mbind, ST_bind. cbn [server_step] in *. rewrite E1, E2. done.
  - eapply (reach_step junk w1); [done| |exact E2]. eexists _, _. split_and!; [exact C1|done..|]. intros _. split; [done|].
    intros s q s' i0 o0 got Es Hpeer Es' Hsm Efd Hgot. rewrite C1 in Es. injection Es as <-. injection Hpeer as <-.
    rewrite C2 in Es'. injection Es' as <-. cbn [client_socket fd] in Efd. rewrite C4, lookup_insert_eq in Efd. injection Efd as <- <-.
    destruct Hi as (pieces & -> & _ & Hd). rewrite arrived_pieces, Hd in Hgot. cbn [fresh_smart smart_socket_data app].
    eapply request_fine_prefix; [done|done| |done]. by eapply answer_command.
  - by rewrite A1, C3.
  - by rewrite A3, C5.
  - by rewrite A4, C6.
  - rewrite A2. apply lookup_insert_eq.
  - done.
Qed.
End conversation.


(** A client that was told to use the device 0123 asks for its state, while
    another client has a shell on it. *)
Section sample.
#[local] Existing Instance sample_env.
#[local] Existing Instance sample_client_env.

Definition asking_client : client :=
  Client kTransportAny (Some (str "0123")) 0 (str "tcp:5037") None (Some (inr tt)) None []
    [inr ([Data (str "OKAY"); Data (str "0006dev"); Data (str "ice")], Out [] [Accept 3])] [] [] [].

Lemma session_state : ∃ as_, loaded session_world as_ ∧
  answer as_ (client_query asking_client) (str "get-state") = Some (inr (str "device")).
Proof. exists (omap (λ t, transports session_world !! t) (transport_list session_world)). vm_compute. by repeat constructor. Qed.

End sample.
