(* ===== verification/Errno.v ===== *)
(** * Error numbers on the wire: [adb/sysdeps/errno.cpp]

    The numbers of a host are a parameter: only on Linux are they those of the
    protocol. *)

From S2P Require Import Prelude.
Local Open Scope Z_scope.

(** The names of [ERRNO_VALUES], which have a number in the protocol. *)
Inductive wire_errno :=
| EACCES | EEXIST | EFAULT | EFBIG | EINTR | EINVAL | EIO | EISDIR | ELOOP | EMFILE | ENAMETOOLONG | ENFILE | ENOENT
| ENOMEM | ENOSPC | ENOTDIR | EOVERFLOW | EPERM | EROFS | ETXTBSY.

#[global] Instance wire_errno_eq_dec : EqDecision wire_errno.
Proof. solve_decision. Defined.

Definition wire_value (e : wire_errno) : Z :=
  match e with
  | EACCES => 13 | EEXIST => 17 | EFAULT => 14 | EFBIG => 27 | EINTR => 4 | EINVAL => 22 | EIO => 5 | EISDIR => 21
  | ELOOP => 40 | EMFILE => 24 | ENAMETOOLONG => 36 | ENFILE => 23 | ENOENT => 2 | ENOMEM => 12 | ENOSPC => 28
  | ENOTDIR => 20 | EOVERFLOW => 75 | EPERM => 1 | EROFS => 30 | ETXTBSY => 26
  end.

Definition ERRNO_VALUES : list wire_errno :=
  [EACCES; EEXIST; EFAULT; EFBIG; EINTR; EINVAL; EIO; EISDIR; ELOOP; EMFILE; ENAMETOOLONG; ENFILE; ENOENT; ENOMEM;
   ENOSPC; ENOTDIR; EOVERFLOW; EPERM; EROFS; ETXTBSY].

(** The numbers [<errno.h>] gives the names on the host. *)
Class HostErrno := host_value : wire_errno → Z.

Section errno.
Context `{!HostErrno}.

(** [std::unordered_map::insert] keeps the first value of a key. *)
Fixpoint map_find (l : list wire_errno) (key value : wire_errno → Z) (n : Z) : option Z :=
  match l with
  | [] => None
  | e :: l => if n =? key e then Some (value e) else map_find l key value n
  end.

Definition host_to_wire (n : Z) : option Z := map_find ERRNO_VALUES host_value wire_value n.
Definition wire_to_host (n : Z) : option Z := map_find ERRNO_VALUES wire_value host_value n.

Definition errno_to_wire (error : Z) : Z :=
  match host_to_wire error with None => 5 | Some v => v end.

(** It searches [host_to_wire], too. *)
Definition errno_from_wire (error : Z) : Z :=
  match host_to_wire error with None => host_value EIO | Some v => v end.
End errno.

(** ** Facts *)

Definition distinct (key : wire_errno → Z) : Prop := ∀ e1 e2, key e1 = key e2 → e1 = e2.

Lemma map_find_key l key value e :
  distinct key → e ∈ l → map_find l key value (key e) = Some (value e).
Proof.
  intros Hd. induction l as [|e' l IH]; intros Hin; [by apply elem_of_nil in Hin|]. cbn.
  destruct (Z.eqb_spec (key e) (key e')) as [E|E]; [by rewrite (Hd _ _ E)|].
  apply IH. apply elem_of_cons in Hin as [->|]; done.
Qed.

Lemma map_find_none l key value n : (∀ e, n ≠ key e) → map_find l key value n = None.
Proof.
  intros H. induction l as [|e l IH]; [done|]. cbn. by rewrite (proj2 (Z.eqb_neq _ _) (H e)).
Qed.

Lemma wire_distinct : distinct wire_value.
Proof. intros [] []; by intros [=]. Qed.

Lemma errno_listed e : e ∈ ERRNO_VALUES.
Proof. destruct e; by_decide. Qed.

(** An error of a file operation on the device keeps its meaning on a host
    that numbers errors like the protocol (Linux does).  On another host the
    client looks the number of the protocol up among the numbers of the host:
    whatever is not one of these becomes [EIO], although the inverse table,
    which has the answer, exists. *)
Theorem errno_roundtrip (device host : HostErrno) e :
  distinct (@host_value device) →
  let wire := @errno_to_wire device (@host_value device e) in
  wire = wire_value e ∧
  ((∀ e, @host_value host e = wire_value e) → @errno_from_wire host wire = @host_value host e) ∧
  ((∀ e', @host_value host e' ≠ wire_value e) → @errno_from_wire host wire = @host_value host EIO) ∧
  @wire_to_host host wire = Some (@host_value host e).
Proof.
  intros Hd. assert (@errno_to_wire device (@host_value device e) = wire_value e) as E.
  { unfold errno_to_wire, host_to_wire. by rewrite (map_find_key _ _ _ e Hd (errno_listed e)). }
  cbv zeta. rewrite E. split_and!; [done|..].
  - intros Hl. unfold errno_from_wire, host_to_wire. rewrite <- (Hl e).
    rewrite map_find_key; [by rewrite Hl| |apply errno_listed]. intros e1 e2. rewrite !Hl. apply wire_distinct.
  - intros Hn. unfold errno_from_wire, host_to_wire. by rewrite map_find_none by (intros e' H; by apply (Hn e')).
  - unfold wire_to_host. apply map_find_key; [apply wire_distinct|apply errno_listed].
Qed.

Definition linux_errno : HostErrno := wire_value.

(** A host with numbers of its own for the errors Linux numbers above 34. *)
Definition bsd_errno : HostErrno := λ e,
  match e with ELOOP => 62 | ENAMETOOLONG => 63 | EOVERFLOW => 84 | e => wire_value e end.

Lemma errno_roundtrip_witness :
  @errno_from_wire bsd_errno (@errno_to_wire linux_errno 40) = 5 ∧
  @errno_from_wire linux_errno (@errno_to_wire linux_errno 40) = 40.
Proof.
  destruct (errno_roundtrip linux_errno bsd_errno ELOOP wire_distinct) as (_ & _ & H & _).
  destruct (errno_roundtrip linux_errno linux_errno ELOOP wire_distinct) as (_ & H' & _).
  split; [|exact (H' (λ e, eq_refl))].
  apply H. intros []; vm_compute; discriminate.
Defined.
