(* ===== verification/Paths.v ===== *)
(** * Paths and quoting: [libbase/file.cpp], [adb/adb_utils.cpp]

    [Dirname] and [Basename], copied from bionic, and [escape_arg], which quotes
    a word for the shell of the device. *)

From S2P Require Import Prelude CString CStringFacts.
Local Open Scope Z_scope.

Definition slash : byte := Zbyte 47.
Definition MAXPATHLEN : Z := 4096.

(** ** [libbase/file.cpp]

    The loops run backwards over the path: they are written over its reverse,
    whose head is what [endp] points to. *)

(** [while (endp > path && *endp == '/') endp--] *)
Fixpoint strip_slashes (r : bytes) : bytes :=
  match r with
  | c :: (_ :: _) as r' => if bool_decide (c = slash) then strip_slashes r' else r
  | _ => r
  end.

(** [while (endp > path && *endp != '/') endp--] *)
Fixpoint strip_name (r : bytes) : bytes :=
  match r with
  | c :: (_ :: _) as r' => if bool_decide (c = slash) then r else strip_name r'
  | _ => r
  end.

(** A result that does not fit the buffer is the empty string. *)
Definition path_result (s : bytes) : bytes := if MAXPATHLEN <? zlen s + 1 then [] else s.

Definition Dirname (path : bytes) : bytes :=
  if bool_decide (path = []) then str "."
  else
    match strip_name (strip_slashes (reverse path)) with
    | [c] => if bool_decide (c = slash) then str "/" else str "."
    | r => path_result (reverse (strip_slashes (tail r)))
    end.

(** [while (startp > path && *(startp - 1) != '/') startp--] *)
Definition base_name (r : bytes) : bytes := fst (span (λ c, negb (bool_decide (c = slash))) r).

Definition Basename (path : bytes) : bytes :=
  if bool_decide (path = []) then str "."
  else
    let r := strip_slashes (reverse path) in
    if bool_decide (r = [slash]) then str "/" else path_result (reverse (base_name r)).

(** ** [adb_utils.cpp] *)

Definition quote : byte := Zbyte 39.
Definition backslash : byte := Zbyte 92.

(** One turn per quote in [s]. *)
Fixpoint escape_loop (fuel : nat) (s : bytes) (base : nat) (result : bytes) : outcome bytes :=
  match fuel with
  | O => OutOfFuel
  | S fuel =>
      let found := find_char s quote base in
      let result := result ++ substr_upto s base found in
      match found with
      | None => Ret result
      | Some found => escape_loop fuel s (S found) (result ++ [quote; backslash; quote; quote])
      end
  end.

Definition escape_arg (s : bytes) : outcome bytes :=
  r ← escape_loop (S (length s)) s 0 [quote]; Ret (r ++ [quote]).

(** ** Quoting *)

Lemma find_char_split s c base :
  match find_char s c base with
  | Some f => drop base s = substr s base (f - base) ++ c :: drop (S f) s ∧ c ∉ substr s base (f - base)
  | None => c ∉ drop base s
  end.
Proof.
  unfold find_char, find_if. destruct (list_find _ (drop base s)) as [[i b]|] eqn:E; cbn.
  - apply list_find_Some in E as (E & Hb & Hlt). apply bool_decide_eq_true in Hb as ->.
    unfold substr. replace (base + i - base)%nat with i by lia. split.
    + rewrite <- (take_drop_middle _ _ _ E) at 1. by rewrite drop_drop, <- plus_n_Sm.
    + intros Hin. apply list_elem_of_lookup in Hin as [j Hj]. pose proof (lookup_lt_Some _ _ _ Hj) as Hl.
      rewrite length_take in Hl. rewrite lookup_take_lt in Hj by lia.
      apply (Hlt j c Hj); [lia|]. by apply bool_decide_eq_true.
  - apply list_find_None in E. rewrite Forall_forall in E. intros Hin. apply (E c Hin). by apply bool_decide_eq_true.
Qed.

(** What [escape_arg] puts between its quotes. *)
Definition escaped (s : bytes) : bytes :=
  s ≫= λ c, if bool_decide (c = quote) then [quote; backslash; quote; quote] else [c].

Lemma escaped_id s : quote ∉ s → escaped s = s.
Proof.
  induction s as [|c s IH]; [done|]. intros [Hc Hs]%not_elem_of_cons. unfold escaped in *. cbn.
  rewrite bool_decide_false by congruence. cbn. by rewrite IH.
Qed.

Lemma escaped_app s1 s2 : escaped (s1 ++ s2) = escaped s1 ++ escaped s2.
Proof. apply bind_app. Qed.

Lemma escape_loop_spec fuel : ∀ s base result,
  (length s - base < fuel)%nat → escape_loop fuel s base result = Ret (result ++ escaped (drop base s)).
Proof.
  induction fuel as [|fuel IH]; intros s base result Hf; [lia|]. cbn [escape_loop].
  pose proof (find_char_split s quote base) as H. destruct (find_char s quote base) as [f|]; cbn [substr_upto].
  - destruct H as [Hd Hn]. pose proof (f_equal length Hd) as Hl. rewrite length_app, !length_drop in Hl. cbn in Hl.
    rewrite length_drop in Hl. rewrite IH by lia. rewrite Hd, escaped_app, (escaped_id (substr s base (f - base))) by done. f_equal.
    rewrite <- !app_assoc. done.
  - by rewrite escaped_id.
Qed.

(** The rules of the shell for one word made of quoted parts, escaped and plain
    characters; [None] when it is not one word. *)
Fixpoint sh_word (quoted : bool) (s : bytes) : option bytes :=
  match s with
  | [] => if quoted then None else Some []
  | c :: s =>
      if quoted then
        if bool_decide (c = quote) then sh_word false s else cons c <$> sh_word true s
      else if bool_decide (c = quote) then sh_word true s
      else if bool_decide (c = backslash) then
        match s with [] => None | d :: s => cons d <$> sh_word false s end
      else if isdigit c || islower c || isupper c then cons c <$> sh_word false s
      else None
  end.

Lemma sh_word_escaped s rest : sh_word true (escaped s ++ rest) = app s <$> sh_word true rest.
Proof.
  induction s as [|c s IH]; [cbn; by destruct (sh_word true rest)|].
  change (c :: s) with ([c] ++ s). rewrite escaped_app, <- app_assoc.
  unfold escaped at 1. cbn [mbind list_bind app]. case_bool_decide as Hc.
  - subst c. cbn [app]. cbn [sh_word]. rewrite !(bool_decide_true (quote = quote)) by done.
    rewrite bool_decide_false by done. rewrite bool_decide_true by done. rewrite IH. by destruct (sh_word true rest).
  - cbn [app sh_word]. rewrite bool_decide_false by done. rewrite IH. by destruct (sh_word true rest).
Qed.

Lemma escape_arg_spec s : escape_arg s = Ret (quote :: escaped s ++ [quote]).
Proof. unfold escape_arg. rewrite escape_loop_spec by lia. mstep. by rewrite drop_0. Qed.

(** [escape_arg] is safe quoting: whatever the string contains, the shell
    reads the result as one word with exactly that value. *)
Theorem escape_arg_correct s : ∃ r, escape_arg s = Ret r ∧ sh_word false r = Some s.
Proof.
  exists (quote :: escaped s ++ [quote]). split; [apply escape_arg_spec|]. cbn [app sh_word]. rewrite bool_decide_true by done.
  rewrite sh_word_escaped. cbn [sh_word]. rewrite bool_decide_true by done. cbn. by rewrite app_nil_r.
Qed.

(** ** Going up *)

Lemma strip_slashes_suffix (r : bytes) : strip_slashes r `suffix_of` r ∧ (r ≠ [] → strip_slashes r ≠ []).
Proof.
  induction r as [|c r [IH IHn]]; [done|]. destruct r as [|d r]; [done|]. cbn [strip_slashes].
  case_bool_decide; [|done]. split; [by apply suffix_cons_r|intros _; by apply IHn].
Qed.

Lemma strip_name_suffix r : strip_name r `suffix_of` r ∧ (r ≠ [] → strip_name r ≠ []).
Proof.
  induction r as [|c r [IH IHn]]; [done|]. destruct r as [|d r]; [done|]. cbn [strip_name].
  case_bool_decide; [done|]. split; [by apply suffix_cons_r|intros _; by apply IHn].
Qed.

(** A nonempty end of the reverse of a path is the reverse of a beginning. *)
Lemma suffix_reverse_head (r path : bytes) : r `suffix_of` reverse path → r ≠ [] → head (reverse r) = head path.
Proof.
  intros [k Hk] Hr. assert (path = reverse r ++ reverse k) as ->.
  { rewrite <- (reverse_involutive path), Hk. apply reverse_app. }
  destruct (reverse r) eqn:E; [|done]. apply (f_equal reverse) in E. by rewrite reverse_involutive in E.
Qed.

(** The parent of a path is its beginning, or ["."] or ["/"]; only a path like
    these has itself as its parent. *)
Lemma Dirname_cases path :
  path ≠ [] → zlen path < MAXPATHLEN →
  (Dirname path = str "/" ∧ head path = Some slash) ∨ (Dirname path = str "." ∧ head path ≠ Some slash) ∨
  (head (Dirname path) = head path ∧ Dirname path ≠ [] ∧ (length (Dirname path) < length path)%nat).
Proof.
  intros Hne Hl. unfold Dirname. rewrite bool_decide_false by done.
  assert (reverse path ≠ []) as Hr by (intros E; apply (f_equal reverse) in E; by rewrite reverse_involutive in E).
  destruct (strip_slashes_suffix (reverse path)) as [S1 N1]. destruct (strip_name_suffix (strip_slashes (reverse path))) as [S2 N2].
  specialize (N1 Hr). specialize (N2 N1). assert (strip_name (strip_slashes (reverse path)) `suffix_of` reverse path) as S.
  { by etransitivity. }
  destruct (strip_name _) as [|c [|d r]]; [done|..].
  - pose proof (suffix_reverse_head [c] path S ltac:(done)) as Hh. cbn in Hh.
    case_bool_decide as Hc; [left|right; left]; (split; [done|]); rewrite <- Hh; congruence.
  - right. right. cbn [tail]. destruct (strip_slashes_suffix (d :: r)) as [S3 N3].
    assert (strip_slashes (d :: r) `suffix_of` reverse path) as S4.
    { etransitivity; [exact S3|]. etransitivity; [by apply suffix_cons_r|exact S]. }
    specialize (N3 ltac:(done)). pose proof (suffix_length _ _ S3) as L3. pose proof (suffix_length _ _ S) as L.
    rewrite length_reverse in L. cbn [length] in *. unfold path_result. rewrite length_reverse.
    rewrite (proj2 (Z.ltb_ge _ _)) by lia. split_and!.
    + by apply suffix_reverse_head.
    + intros E. apply (f_equal reverse) in E. by rewrite reverse_involutive in E.
    + rewrite length_reverse. lia.
Qed.
