(* ===== verification/CompressionFacts.v ===== *)
(** * Facts about coders

    [transforms] is the contract of a coder with the loops that use it: fed with
    [x] in blocks and finished, it gives [y] in pieces.  The plain coders fulfil
    it with [y = x]; of a library it is the assumption. *)

From S2P Require Import Prelude Types TypesFacts Compression.
Local Open Scope Z_scope.

(** ** The contract *)

(** [idle st i o]: given the input [i] and having put out [o], the coder asks
    for more; [busy st i o f]: it has output left, or ([f]) the input is
    complete.  It puts out at most [SYNC_DATA_MAX] bytes at a time, and asks for
    input after a number of turns that is bounded for the whole input. *)
Record contract (c : Coder) (x y : bytes) (idle : coder_state c → bytes → bytes → Prop)
    (busy : coder_state c → bytes → bytes → bool → Prop) (measure : coder_state c → nat) (bound : nat)
  : Prop := {
  ct_init : idle (coder_init c) [] [];
  ct_append : ∀ st i o b, idle st i o → Block.wf b → Block.size_ b < 2 ^ 62 →
    i ++ Block.content b `prefix_of` x → busy (Append c b st) (i ++ Block.content b) o false;
  ct_finish : ∀ st o, idle st x o → ∃ st', Finish c st = Ret st' ∧ busy st' x o true;
  ct_code : ∀ st i o f, busy st i o f → ∃ r out st', Code c st = Ret (r, out, st') ∧ zlen out ≤ SYNC_DATA_MAX ∧
    match r with
    | CodeError => False
    | CodeNeedInput => f = false ∧ idle st' i (o ++ out)
    | CodeMoreOutput => busy st' i (o ++ out) f ∧ (measure st' < measure st)%nat
    | CodeDone => f = true ∧ o ++ out = y
    end;
  ct_bound : ∀ st i o f, busy st i o f → (measure st < bound)%nat
}.

Definition transforms (c : Coder) (x y : bytes) : Prop :=
  ∃ idle busy measure bound, contract c x y idle busy measure bound.

(** What a pair of coders is for. *)
Definition lossless (enc dec : Coder) : Prop := ∀ x, ∃ y, transforms enc x y ∧ transforms dec y x.

(** ** Copying *)

Lemma front_ready v :
  IOVector.wf v → IOVector.contents v ≠ [] →
  ∃ p rest, IOVector.front_size v = Ret (zlen p) ∧ IOVector.front_data v = Ret (Some p) ∧ p ≠ [] ∧
    IOVector.contents v = p ++ rest.
Proof.
  intros H Hne. destruct (drop (IOVector.start_index_ v) (IOVector.chain_ v)) as [|b bs] eqn:E.
  { by rewrite IOV.contents_nil in Hne. }
  destruct (IOV.front_of_live _ _ _ E) as [Hb _]. destruct (IOV.contents_split v b bs H E) as [Hc Hl].
  pose proof (IOVector.wf_front _ H) as Hf. rewrite E in Hf. cbn in Hf. pose proof (IOVector.wf_blocks _ H) as Hbs.
  rewrite E in Hbs. apply Forall_cons in Hbs as [[Hw _] _]. pose proof (block_content_len b Hw).
  assert (Block.size_ b < 2 ^ 63) as Hlim.
  { pose proof (IOVector.wf_fits _ H) as Hfit. rewrite (IOVector.wf_length _ H), E, IOV.total_cons in Hfit.
    pose proof (IOV.total_nonneg bs). lia. }
  exists (zdrop (IOVector.begin_offset_ v) (Block.content b)), (concat (Block.content <$> bs)).
  assert (IOVector.chain_ v ≠ []) as Hch by (intros En; by rewrite En, drop_nil in E).
  unfold IOVector.front_size, IOVector.front_data. rewrite !bool_decide_false, Hb by done. mstep.
  rewrite u64_small by lia. split_and!; [f_equal; lia|done| |done]. intros En. rewrite En in Hl. cbn in Hl. lia.
Qed.

Lemma copy_loop_spec fuel : ∀ v got avail,
  IOVector.wf v → 0 ≤ avail < 2 ^ 32 → (length (IOVector.contents v) ≤ fuel)%nat →
  ∃ v', copy_loop fuel v got avail =
      Ret (got ++ ztake avail (IOVector.contents v), v', avail - zlen (ztake avail (IOVector.contents v))) ∧
    IOVector.wf v' ∧ IOVector.contents v' = zdrop avail (IOVector.contents v) ∧
    IOVector.chain_length_ v' ≤ IOVector.chain_length_ v.
Proof.
  induction fuel as [|fuel IH]; intros v got avail H Ha Hf; cbn [copy_loop]; rewrite empty_contents by done.
  all: destruct (Z.ltb_spec 0 avail) as [Hpos|Hz]; cbn [andb].
  all: try (exists v; replace avail with 0 by lia; rewrite ztake_0, zdrop_0, app_nil_r; split_and!; done || lia).
  all: case_bool_decide as Hc; cbn [negb].
  all: try (exists v; rewrite Hc; unfold ztake, zdrop; rewrite drop_nil, take_nil, app_nil_r; cbn; rewrite Z.sub_0_r; split_and!; done || lia).
  { destruct (IOVector.contents v); [done|cbn in Hf; lia]. }
  destruct (front_ready v H Hc) as (p & rest & Es & Ed & Hp & Ec). rewrite Es, Ed. mstep. cbn [deref]. mstep.
  assert (0 < zlen p) as Hp0 by (destruct p; [done|cbn; lia]). remember (Z.min avail (zlen p)) as len eqn:Hlen.
  destruct (drop_front_spec v len H) as (v1 & E1 & H1 & C1 & L1).
  { rewrite Ec, length_app. lia. }
  { lia. }
  rewrite E1. mstep. destruct (IH v1 (got ++ ztake len p) (avail - len) H1) as (v2 & E2 & H2 & C2 & L2).
  { lia. }
  { rewrite C1. unfold zdrop. rewrite length_drop. assert (1 ≤ len) by lia. lia. }
  assert (ztake avail (IOVector.contents v) = ztake len p ++ ztake (avail - len) (IOVector.contents v1)) as Et.
  { rewrite C1, Ec. destruct (Z.le_ge_cases avail (zlen p)).
    - replace len with avail by lia. rewrite Z.sub_diag, ztake_0, app_nil_r. by rewrite ztake_app_le by lia.
    - replace len with (zlen p) by lia. rewrite (ztake_all (zlen p) p) by lia. rewrite ztake_app_ge by lia. f_equal.
      by rewrite zdrop_app_ge, Z.sub_diag, zdrop_0 by lia. }
  exists v2. rewrite E2, Et. rewrite app_assoc, length_app, Nat2Z.inj_add, (zlen_ztake len p) by lia. split_and!; try done.
  - f_equal. f_equal. lia.
  - rewrite C2, C1. rewrite zdrop_zdrop by lia. f_equal. lia.
  - lia.
Qed.

(** ** The plain coders *)

Section null.
Context (junk : nat → byte).

Definition null_idle (s : null_state) (i o : bytes) : Prop :=
  finished_ s = false ∧ IOVector.wf (input_buffer_ s) ∧ IOVector.contents (input_buffer_ s) = [] ∧ o = i.

Definition null_busy (x : bytes) (s : null_state) (i o : bytes) (f : bool) : Prop :=
  finished_ s = f ∧ IOVector.wf (input_buffer_ s) ∧ i = o ++ IOVector.contents (input_buffer_ s) ∧ i `prefix_of` x ∧ (f = true → i = x).

Definition null_measure (s : null_state) : nat := length (IOVector.contents (input_buffer_ s)).

Lemma empty_chain_length v : IOVector.wf v → IOVector.contents v = [] → IOVector.chain_length_ v = 0.
Proof.
  intros H Hc. pose proof (IOVector.wf_length _ H) as Hl. pose proof (IOVector.wf_front _ H) as Hf.
  destruct (drop _ _) as [|b bs] eqn:E; [done|]. destruct (IOV.contents_split v b bs H E) as [Hs Hz].
  rewrite Hc in Hs. symmetry in Hs. apply app_eq_nil in Hs as [Hs _]. rewrite Hs in Hz. cbn in Hf, Hz. lia.
Qed.

(** One turn: at most [SYNC_DATA_MAX] of the bytes held. *)
Lemma null_turn x s i o f :
  null_busy x s i o f →
  ∃ v out, copy_loop (copy_fuel (input_buffer_ s)) (input_buffer_ s) [] SYNC_DATA_MAX =
      Ret (out, v, SYNC_DATA_MAX - zlen out) ∧ zlen out ≤ SYNC_DATA_MAX ∧
    match null_result s v with
    | CodeError => False
    | CodeNeedInput => f = false ∧ null_idle (Null (finished_ s) v) i (o ++ out)
    | CodeMoreOutput => null_busy x (Null (finished_ s) v) i (o ++ out) f ∧
        (null_measure (Null (finished_ s) v) < null_measure s)%nat
    | CodeDone => f = true ∧ o ++ out = x
    end.
Proof.
  intros (Hf & Hw & Hi & Hp & Hx). assert (0 < SYNC_DATA_MAX < 2 ^ 32) as Hm by done. revert Hm. generalize SYNC_DATA_MAX. intros m Hm.
  destruct (copy_loop_spec (copy_fuel (input_buffer_ s)) (input_buffer_ s) [] m Hw) as (v & E & Hv & Cv & _).
  { lia. }
  { unfold copy_fuel. rewrite IOV.size_contents by done. lia. }
  exists v, (ztake m (IOVector.contents (input_buffer_ s))). rewrite E. split; [done|].
  split; [unfold ztake; rewrite length_take; lia|]. unfold null_result. rewrite empty_contents by done.
  pose proof (ztake_zdrop m (IOVector.contents (input_buffer_ s))) as Hsplit. rewrite <- Cv in Hsplit.
  case_bool_decide as Hc.
  - rewrite Hc, app_nil_r in Hsplit. rewrite Hsplit, <- Hi. destruct (finished_ s) eqn:Ef; [split; auto|].
    split; [done|]. unfold null_idle. cbn. done.
  - split; [unfold null_busy; cbn; split_and!; [done|done|by rewrite <- app_assoc, Hsplit|done|done]|].
    unfold null_measure. cbn [input_buffer_]. rewrite Cv. unfold zdrop. rewrite length_drop.
    assert (IOVector.contents (input_buffer_ s) ≠ []) as Hne.
    { intros En. rewrite En in Cv. unfold zdrop in Cv. by rewrite drop_nil in Cv. }
    destruct (IOVector.contents (input_buffer_ s)); [done|]. cbn [length]. lia.
Qed.

Lemma null_steps x s i o b :
  null_idle s i o → Block.wf b → Block.size_ b < 2 ^ 62 → i ++ Block.content b `prefix_of` x →
  null_busy x (null_append b s) (i ++ Block.content b) o false.
Proof.
  intros (Hf & Hw & Hc & ->) Hb Hs Hp. destruct (IOV.append_spec (input_buffer_ s) b Hw Hb) as (Ha & Hca & _).
  { rewrite empty_chain_length by done. lia. }
  unfold null_busy, null_append. cbn. split_and!; [done..| |done|done]. by rewrite Hca, Hc.
Qed.

Lemma null_finishes x s o : null_idle s x o → ∃ s', null_finish s = Ret s' ∧ null_busy x s' x o true.
Proof.
  intros (Hf & Hw & Hc & ->). unfold null_finish. rewrite Hf. eexists. split; [done|].
  unfold null_busy. cbn. split_and!; [done..| |done|done]. by rewrite Hc, app_nil_r.
Qed.

Lemma null_starts : null_idle (Null false IOVector.empty_vec) [] [].
Proof. unfold null_idle. cbn. destruct IOV.contents_empty. done. Qed.

Lemma null_bounded x s i o f : null_busy x s i o f → (null_measure s < S (length x))%nat.
Proof.
  intros (_ & _ & Hi & Hp & _). apply prefix_length in Hp. rewrite Hi, length_app in Hp. unfold null_measure. lia.
Qed.

(** ** The contract of the plain coders *)

Lemma NullDecoder_transforms x : transforms NullDecoder x x.
Proof.
  exists null_idle, (null_busy x), null_measure, (S (length x)). split.
  - apply null_starts.
  - intros st i o b Hi Hb Hs Hp. by apply null_steps.
  - intros st o Hi. by apply null_finishes.
  - intros st i o f Hb. destruct (null_turn x st i o f Hb) as (v & out & E & Hl & H).
    change (Code NullDecoder st) with (NullDecoder_Decode st). unfold NullDecoder_Decode.
    rewrite E. mstep. by eexists _, _, _.
  - intros st i o f Hb. by eapply null_bounded.
Qed.

(** A block of [m] bytes that is filled from the start and cut. *)
Lemma filled_block m out :
  0 < m → zlen out ≤ m →
  ∃ b b1 b2, Block.resize junk (Block.clear Block.default) m = Ret b ∧ Block.size_ b = m ∧
    Block.write_at b 0 out = Ret b1 ∧ Block.size_ b1 = m ∧ Block.resize junk b1 (m - (m - zlen out)) = Ret b2 ∧
    Block.content b2 = out.
Proof.
  intros Hm Hl. pose proof (zlen_new_array junk m ltac:(lia)) as Hn.
  eexists (Block.mk (Some (Block.new_array junk m)) m m), _, _. split.
  { unfold Block.resize, Block.allocate. cbn. zbool. done. }
  split; [done|]. split; [cbn [Block.write_at Block.data_]; rewrite memcpy_fit by lia; done|].
  split; [done|]. split; [unfold Block.resize; cbn [Block.data_ Block.capacity_]; rewrite (proj2 (Z.leb_le _ _)) by lia; done|].
  unfold Block.content. cbn [Block.data_ Block.size_]. rewrite ztake_0. cbn [app].
  rewrite ztake_app_le by lia. by rewrite ztake_all by lia.
Qed.

(** The block a piece of a file is read into. *)
Lemma input_block m bs :
  0 < m → bs ≠ [] → zlen bs ≤ m →
  ∃ b b1 b2, Block.of_size junk m = Ret b ∧ Block.copy_in b bs = Ret b1 ∧ Block.resize junk b1 (zlen bs) = Ret b2 ∧
    Block.wf b2 ∧ Block.content b2 = bs ∧ Block.size_ b2 = zlen bs.
Proof.
  intros Hm Hne Hl. pose proof (zlen_new_array junk m ltac:(lia)) as Hn.
  eexists (Block.mk (Some (Block.new_array junk m)) m m), _, _. split.
  { unfold Block.of_size, Block.allocate. cbn. zbool. done. }
  split; [cbn [Block.copy_in Block.data_]; rewrite memcpy_fit by lia; done|].
  split; [unfold Block.resize; cbn [Block.data_ Block.capacity_]; rewrite (proj2 (Z.leb_le _ _)) by lia; done|].
  rewrite ztake_0. cbn [app]. unfold Block.wf, Block.content. cbn [Block.data_ Block.size_ Block.capacity_].
  rewrite ztake_app_le by lia. rewrite ztake_all by lia. split_and!; [|lia|lia|lia|done|done].
  rewrite length_app, Nat2Z.inj_add, zlen_zdrop by lia. lia.
Qed.

Lemma NullEncoder_transforms x : transforms (NullEncoder junk) x x.
Proof.
  exists null_idle, (null_busy x), null_measure, (S (length x)). split.
  - apply null_starts.
  - intros st i o b Hi Hb Hs Hp. by apply null_steps.
  - intros st o Hi. by apply null_finishes.
  - intros st i o f Hb. destruct (null_turn x st i o f Hb) as (v & out & E & Hl & H).
    change (Code (NullEncoder junk) st) with (NullEncoder_Encode junk st). unfold NullEncoder_Encode.
    destruct (filled_block SYNC_DATA_MAX out ltac:(done) Hl) as (b & b1 & b2 & -> & Hs & Hw & Hs1 & Hr & Hc).
    mstep. rewrite Hs, E. mstep. rewrite Hw. mstep. rewrite Hs1, Hr. mstep. rewrite Hc. by eexists _, _, _.
  - intros st i o f Hb. by eapply null_bounded.
Qed.
End null.

(** ** The coder of a transfer *)

Definition codec_lossless (junk : nat → byte) `{!Codecs} (c : CompressionType) : Prop :=
  match c with CompressAny => False | _ => ∃ e d, encoder_of junk c = Ret e ∧ decoder_of c = Ret d ∧ lossless e d end.

Lemma none_lossless (junk : nat → byte) `{!Codecs} : codec_lossless junk CompressNone.
Proof.
  eexists _, _. split_and!; [done..|]. intros x. exists x. split; [apply NullEncoder_transforms|apply NullDecoder_transforms].
Qed.

(** ** Coders that take any input

    [inv st k]: [k] bytes were given to the coder, so far; what it makes of [k]
    bytes takes less than [steps k] turns.  It may end the process, when it is
    finished twice for example. *)
Record total_coder (c : Coder) (inv : coder_state c → nat → Prop) (measure : coder_state c → nat) (steps : nat → nat) : Prop := {
  tc_init : inv (coder_init c) 0%nat;
  tc_append st k b : inv st k → Block.wf b → Z.of_nat (k + length (Block.content b)) < 2 ^ 62 →
    inv (Append c b st) (k + length (Block.content b))%nat;
  tc_finish st k : inv st k → match Finish c st with Ret st' => inv st' k | Abort => True | _ => False end;
  tc_code st k : inv st k →
    match Code c st with
    | Ret (r, out, st') => inv st' k ∧ (r = CodeMoreOutput → (measure st' < measure st)%nat)
    | Abort => True
    | _ => False
    end;
  tc_steps st k : inv st k → (measure st < steps k)%nat;
  tc_mono k k' : (k ≤ k')%nat → (steps k ≤ steps k')%nat
}.

Definition null_held (s : null_state) (k : nat) : Prop :=
  IOVector.wf (input_buffer_ s) ∧ IOVector.chain_length_ (input_buffer_ s) ≤ Z.of_nat k ∧
  (length (IOVector.contents (input_buffer_ s)) ≤ k)%nat.

Lemma null_code_total s k :
  null_held s k → ∃ r out s', NullDecoder_Decode s = Ret (r, out, s') ∧ null_held s' k ∧
    (r = CodeMoreOutput → (null_measure s' < null_measure s)%nat).
Proof.
  intros (Hw & Hc & Hl). unfold NullDecoder_Decode. assert (0 < SYNC_DATA_MAX < 2 ^ 32) as Hm by done. revert Hm.
  generalize SYNC_DATA_MAX. intros m Hm.
  destruct (copy_loop_spec (copy_fuel (input_buffer_ s)) (input_buffer_ s) [] m Hw) as (v & E & Hv & Cv & Lv).
  { lia. }
  { unfold copy_fuel. rewrite IOV.size_contents by done. lia. }
  rewrite E. eexists _, _, _. split; [reflexivity|]. split.
  - split_and!; [done|cbn; lia|]. cbn [input_buffer_]. rewrite Cv. unfold zdrop. rewrite length_drop. lia.
  - unfold null_result. rewrite empty_contents by done. case_bool_decide as Hn; [by destruct (finished_ s)|]. intros _.
    unfold null_measure. cbn [input_buffer_]. rewrite Cv in *. unfold zdrop in *. rewrite length_drop.
    assert (IOVector.contents (input_buffer_ s) ≠ []) as Hne by (intros En; rewrite En, drop_nil in Hn; done).
    destruct (IOVector.contents (input_buffer_ s)); [done|]. cbn [length]. lia.
Qed.

Lemma NullDecoder_total : total_coder NullDecoder null_held null_measure S.
Proof.
  split; try (intros; lia).
  - split_and!; [apply IOV.contents_empty|done..].
  - intros st k b (Hw & Hc & Hl) Hb Hk. destruct (IOV.append_spec (input_buffer_ st) b Hw Hb) as (Ha & Hca & Hcl).
    { rewrite <- (block_content_len b Hb). lia. }
    split_and!; [done|cbn; rewrite Hcl, <- (block_content_len b Hb); lia|]. cbn. rewrite Hca, length_app. lia.
  - intros st k H. cbn. unfold null_finish. destruct (finished_ st); [done|]. exact H.
  - intros st k H. destruct (null_code_total st k H) as (r & out & s' & E & H1 & H2). cbn [Code NullDecoder]. rewrite E. done.
  - intros st k (_ & _ & Hl). unfold null_measure. lia.
Qed.
