(* ===== verification/SyncProtocol.v ===== *)
(** * The file synchronisation protocol: [adb/file_sync_protocol.h]

    The messages, as the bytes of their packed structures, and what both sides
    use of a file system. *)

From S2P Require Import Prelude CString AdbIO Types Compression Paths.
Local Open Scope Z_scope.

(** ** Identifiers *)

Definition MKID (s : string) : Z := default 0 (le32_dec (str s)).

Definition ID_LSTAT_V1 : Z := MKID "STAT".
Definition ID_STAT_V2 : Z := MKID "STA2".
Definition ID_LSTAT_V2 : Z := MKID "LST2".
Definition ID_LIST_V1 : Z := MKID "LIST".
Definition ID_LIST_V2 : Z := MKID "LIS2".
Definition ID_DENT_V1 : Z := MKID "DENT".
Definition ID_DENT_V2 : Z := MKID "DNT2".
Definition ID_SEND_V1 : Z := MKID "SEND".
Definition ID_SEND_V2 : Z := MKID "SND2".
Definition ID_RECV_V1 : Z := MKID "RECV".
Definition ID_RECV_V2 : Z := MKID "RCV2".
Definition ID_DONE : Z := MKID "DONE".
Definition ID_DATA : Z := MKID "DATA".
Definition ID_OKAY : Z := MKID "OKAY".
Definition ID_FAIL : Z := MKID "FAIL".
Definition ID_QUIT : Z := MKID "QUIT".

Definition kSyncFlagBrotli : Z := 1.
Definition kSyncFlagLZ4 : Z := 2.
Definition kSyncFlagZstd : Z := 4.
Definition kSyncFlagDryRun : Z := 0x80000000.

(** ** Messages *)

(** A field at the given offset of a message that was read as a whole. *)
Definition u32_at (bs : bytes) (off : nat) : Z := default 0 (le32_dec (take 4 (drop off bs))).
Definition u64_at (bs : bytes) (off : nat) : Z := u32_at bs off + 2 ^ 32 * u32_at bs (off + 4).
Definition s64_at (bs : bytes) (off : nat) : Z := let z := u64_at bs off in if z <? 2 ^ 63 then z else z - 2 ^ 64.

(** [SyncRequest], [sync_data] and [sync_status]: an identifier and a length. *)
Definition sync_header (id len : Z) : bytes := le32 id ++ le32 len.
Definition sizeof_header : Z := 8.

(** [struct stat], and the mode bits the code tests *)
Record stat := Stat {
  st_dev : Z; st_ino : Z; st_mode : Z; st_nlink : Z; st_uid : Z; st_gid : Z; st_size : Z;
  st_atime : Z; st_mtime : Z; st_ctime : Z
}.

Definition stat_zero : stat := Stat 0 0 0 0 0 0 0 0 0 0.

Definition S_IFMT : Z := 0xf000.
Definition S_IFDIR : Z := 0x4000.
Definition S_IFREG : Z := 0x8000.
Definition S_IFLNK : Z := 0xa000.
Definition S_IFBLK : Z := 0x6000.
Definition S_IFCHR : Z := 0x2000.
Definition S_ISGID : Z := 0x400.
Definition file_type (mode : Z) : Z := Z.land mode S_IFMT.
Definition S_ISDIR (mode : Z) : bool := file_type mode =? S_IFDIR.
Definition S_ISREG (mode : Z) : bool := file_type mode =? S_IFREG.
Definition S_ISLNK (mode : Z) : bool := file_type mode =? S_IFLNK.
Definition S_ISBLK (mode : Z) : bool := file_type mode =? S_IFBLK.
Definition S_ISCHR (mode : Z) : bool := file_type mode =? S_IFCHR.

(** [sync_stat_v1] *)
Definition stat_v1_bytes (id mode size mtime : Z) : bytes := le32 id ++ le32 mode ++ le32 size ++ le32 mtime.
Definition sizeof_stat_v1 : Z := 16.

(** [sync_stat_v2], and what follows the identifier in [sync_dent_v2] *)
Definition stat_fields (error : Z) (st : stat) : bytes :=
  le32 error ++ le64 (st_dev st) ++ le64 (st_ino st) ++ le32 (st_mode st) ++ le32 (st_nlink st)
  ++ le32 (st_uid st) ++ le32 (st_gid st) ++ le64 (st_size st) ++ le64 (st_atime st) ++ le64 (st_mtime st)
  ++ le64 (st_ctime st).
Definition stat_v2_bytes (id error : Z) (st : stat) : bytes := le32 id ++ stat_fields error st.
Definition sizeof_stat_v2 : Z := 72.

Definition stat_of_v2 (bs : bytes) : stat :=
  Stat (u64_at bs 8) (u64_at bs 16) (u32_at bs 24) (u32_at bs 28) (u32_at bs 32) (u32_at bs 36) (s64_at bs 40)
    (s64_at bs 48) (s64_at bs 56) (s64_at bs 64).

(** [sync_dent_v1] and [sync_dent_v2] *)
Definition dent_v1_bytes (id mode size mtime namelen : Z) : bytes := stat_v1_bytes id mode size mtime ++ le32 namelen.
Definition dent_v2_bytes (id error : Z) (st : stat) (namelen : Z) : bytes := stat_v2_bytes id error st ++ le32 namelen.
Definition sizeof_dent_v1 : Z := 20.
Definition sizeof_dent_v2 : Z := 76.

(** [sync_send_v2] and [sync_recv_v2] *)
Definition send_v2_bytes (mode flags : Z) : bytes := le32 ID_SEND_V2 ++ le32 mode ++ le32 flags.
Definition recv_v2_bytes (flags : Z) : bytes := le32 ID_RECV_V2 ++ le32 flags.
Definition sizeof_send_v2 : Z := 12.
Definition sizeof_recv_v2 : Z := 8.

(** ** Files *)

Inductive open_mode :=
| O_EXCL        (* [O_WRONLY | O_CREAT | O_EXCL] *)
| O_EXISTING    (* [O_WRONLY] *)
| O_TRUNCATE.   (* [creat] *)

(** The system calls.  A file that was opened for writing is what it accepts
    and what it was given, until it is closed.  A call that can fail gives the
    error number. *)
Class Files := {
  fs : Type;
  file : Type;
  path_stat : fs → bytes → Z + stat;
  path_lstat : fs → bytes → Z + stat;
  path_readlink : fs → bytes → Z + bytes;
  path_realpath : fs → bytes → option bytes;
  path_readdir : fs → bytes → Z + list bytes;
  path_open : fs → bytes → Z + instream;
  path_create : open_mode → bytes → Z → fs → (Z + file * outstream) * fs;
  file_close : file → bytes → fs → fs;                (* with what was written to it *)
  file_chown : file → Z → Z → fs → option Z * fs;
  file_chmod : file → Z → fs → fs;
  path_unlink : bytes → fs → fs;
  path_mkdir : bytes → Z → fs → option Z * fs;
  path_chown : bytes → Z → Z → fs → option Z * fs;
  path_chmod : bytes → Z → fs → bool * fs;
  path_symlink : bytes → bytes → fs → option Z * fs;
  path_utime : bytes → Z → fs → bool * fs;
  path_lutimes : bytes → Z → fs → fs;
  path_setxattr : bytes → Z → fs → option Z * fs;         (* the capabilities *)
  path_removexattr : bytes → fs → fs;
  path_restorecon : bytes → fs → fs
}.
