(* ===== verification/SyncService.v ===== *)
(** * The synchronisation service of the device: [adb/daemon/file_sync_service.cpp]

    Stateful code over the connection, the file system and the buffer the
    commands share. *)

From S2P Require Import Prelude State CString LibBase AdbIO Types Compression Paths Errno SyncProtocol.
Local Open Scope Z_scope.

(** The device: whether it is an Android build and one before V, the owners and
    modes the system prescribes, and the texts of errors ([errno_text] where the
    number of the error is not followed). *)
Class Device := {
  android : bool;
  api_before_V : bool;
  adbd_fs_config : bytes → bool → Z → Z * Z * Z * Z;     (* uid, gid, mode, capabilities *)
  strerror : Z → bytes;
  errno_text : bytes
}.

Section service.
Context (junk : nat → byte) `{!Files, !Codecs, !HostErrno, !Device}.

Record service := Service {
  s_in : instream;                              (* the connection *)
  s_out : outstream;
  files : fs;
  opened : option (file * outstream);           (* the file being received *)
  buffer : bytes                                (* [SYNC_DATA_MAX] bytes *)
}.

Abbreviation D := (ST service).

Definition set_in (i : instream) (s : service) := Service i (s_out s) (files s) (opened s) (buffer s).
Definition set_out (o : outstream) (s : service) := Service (s_in s) o (files s) (opened s) (buffer s).
Definition set_files (f : fs) (s : service) := Service (s_in s) (s_out s) f (opened s) (buffer s).
Definition set_opened (x : option (file * outstream)) (s : service) := Service (s_in s) (s_out s) (files s) x (buffer s).
Definition set_buffer (b : bytes) (s : service) := Service (s_in s) (s_out s) (files s) (opened s) b.

(** ** The connection *)

Definition read_exactly (n : Z) : D (bool * bytes) := λ s,
  '(ok, bs, i) ← ReadFdExactly (s_in s) n; Ret ((ok, bs), set_in i s).
Definition write_exactly (bs : bytes) : D bool := λ s,
  '(ok, o) ← WriteFdExactly (s_out s) bs; Ret (ok, set_out o s).

(** [id] and [size] of a [sync_data]; [None] when it cannot be read *)
Definition read_header : D (option (Z * Z)) :=
  '(ok, bs) ← read_exactly sizeof_header;
  mret (if (ok : bool) then Some (u32_at bs 0, u32_at bs 4) else None).

Definition SendSyncFail (reason : bytes) : D bool :=
  ok ← write_exactly (sync_header ID_FAIL (zlen reason));
  if (ok : bool) then write_exactly reason else mret false.

Definition SendSyncFailErrno (reason text : bytes) : D bool := SendSyncFail (reason ++ str ": " ++ text).

(** ** The file system *)

Definition on_files {A} (f : fs → A * fs) : D A := λ s,
  let '(r, g) := f (files s) in Ret (r, set_files g s).
Definition change_files (f : fs → fs) : D unit := on_files (λ g, (tt, f g)).

Definition should_use_fs_config (path : bytes) : bool :=
  if android && api_before_V then negb (StartsWith path (str "/data/")) else true.

(** The error, if any. *)
Definition update_capabilities (path : bytes) (capabilities : Z) : D (option Z) :=
  if android then
    if capabilities =? 0 then _ ← change_files (path_removexattr path); mret None
    else on_files (path_setxattr path capabilities)
  else mret None.

Fixpoint secure_mkdirs_loop (components : list bytes) (partial_path : bytes) : D (option Z) :=
  match components with
  | [] => mret None
  | path_component :: components =>
      if bool_decide (path_component = []) then secure_mkdirs_loop components partial_path
      else
        let partial_path :=
          (if bool_decide (partial_path = []) || negb (bool_decide (last partial_path = Some slash))
           then partial_path ++ [slash] else partial_path) ++ path_component in
        let '(uid, gid, mode, capabilities) :=
          if should_use_fs_config partial_path then adbd_fs_config partial_path true 0x1fd
          else (-1, -1, 0x1fd, 0) in
        r ← on_files (path_mkdir partial_path mode);
        match r with
        | Some error =>
            if error =? host_value EEXIST then secure_mkdirs_loop components partial_path else mret (Some error)
        | None =>
            r ← on_files (path_chown partial_path uid gid);
            match r with
            | Some error => mret (Some error)
            | None =>
                _ ← (if android then change_files (path_restorecon partial_path) else mret tt);
                r ← update_capabilities partial_path capabilities;
                match r with
                | Some error => mret (Some error)
                | None => secure_mkdirs_loop components partial_path
                end
            end
        end
  end.

(** [errno] is what it was when the path is not absolute. *)
Definition secure_mkdirs (path : bytes) (errno : Z) : D (option Z) :=
  if negb (bool_decide (head path = Some slash)) then mret (Some errno)
  else path_components ← lift (Split path (str "/")); secure_mkdirs_loop path_components [].

(** ** Status of files *)

Definition do_lstat_v1 (path : bytes) : D bool :=
  g ← get files;
  let st := match path_lstat g path with inr st => st | inl _ => stat_zero end in
  write_exactly (stat_v1_bytes ID_LSTAT_V1 (st_mode st) (st_size st) (st_mtime st)).

Definition do_stat_v2 (id : Z) (path : bytes) : D bool :=
  g ← get files;
  match (if id =? ID_STAT_V2 then path_stat g path else path_lstat g path) with
  | inl error => write_exactly (stat_v2_bytes id (errno_to_wire error) stat_zero)
  | inr st => write_exactly (stat_v2_bytes id 0 st)
  end.

(** ** Directories *)

(** The message of an entry, if it has one. *)
Definition dent_message (v2 : bool) (g : fs) (path d_name : bytes) : option bytes :=
  match path_lstat g (path ++ str "/" ++ d_name) with
  | inr st =>
      Some (if v2 then dent_v2_bytes ID_DENT_V2 0 st (zlen d_name)
            else dent_v1_bytes ID_DENT_V1 (st_mode st) (st_size st) (st_mtime st) (zlen d_name))
  | inl error => if v2 then Some (dent_v2_bytes ID_DENT_V2 error stat_zero (zlen d_name)) else None
  end.

Fixpoint list_entries (v2 : bool) (path : bytes) (names : list bytes) : D bool :=
  match names with
  | [] => mret true
  | d_name :: names =>
      g ← get files;
      match dent_message v2 g path d_name with
      | None => list_entries v2 path names
      | Some msg =>
          ok ← write_exactly msg;
          ok ← (if (ok : bool) then write_exactly d_name else mret false);
          if (ok : bool) then list_entries v2 path names else mret false
      end
  end.

Definition do_list (v2 : bool) (path : bytes) : D bool :=
  g ← get files;
  ok ← (match path_readdir g path with
        | inr names => list_entries v2 path names
        | inl _ => mret true
        end);
  if negb ok then mret false
  else write_exactly (if v2 then dent_v2_bytes ID_DONE 0 stat_zero 0 else dent_v1_bytes ID_DONE 0 0 0 0).

(** ** Receiving a file *)

(** What is left of the input, for the turns of a loop that reads messages. *)
Definition input_size (i : instream) : nat :=
  sum_list ((λ a, match a with Data bs => length bs | Fault _ => 0%nat end) <$> i).

(** [WriteFdExactly(fd, output)]; nothing is open on a dry run. *)
Definition write_file (output : bytes) : D bool := λ s,
  match opened s with
  | None => Ret (true, s)
  | Some (f, o) => '(ok, o) ← WriteFdExactly o output; Ret (ok, set_opened (Some (f, o)) s)
  end.

Definition close_file : D unit := λ s,
  match opened s with
  | None => Ret (tt, s)
  | Some (f, o) => Ret (tt, set_opened None (set_files (file_close f (o_written o) (files s)) s))
  end.

(** The loops have [turns] turns. *)
Context (turns : nat).

Inductive decoded (c : Coder) := DecodeFailed | DecodeDone | DecodeMore (st : coder_state c).
Global Arguments DecodeFailed {c}.
Global Arguments DecodeDone {c}.
Global Arguments DecodeMore {c} st.

(** The output of the decoder, until it needs input. *)
Fixpoint decode_loop (fuel : nat) (c : Coder) (st : coder_state c) : D (decoded c) :=
  match fuel with
  | O => λ _, OutOfFuel
  | S fuel =>
      '(result, output, st) ← lift (Code c st);
      match result with
      | CodeError => _ ← SendSyncFail (str "decompress failed"); mret DecodeFailed
      | _ =>
          ok ← write_file output;
          if negb ok then _ ← SendSyncFailErrno (str "write failed") errno_text; mret DecodeFailed
          else
            match result with
            | CodeNeedInput => mret (DecodeMore st)
            | CodeMoreOutput => decode_loop fuel c st
            | _ => mret DecodeDone
            end
      end
  end.

(** The timestamp, when the file is complete. *)
Fixpoint file_data_loop (fuel : nat) (c : Coder) (st : coder_state c) (timestamp : Z) : D (option Z) :=
  match fuel with
  | O => λ _, OutOfFuel
  | S fuel =>
      m ← read_header;
      match m with
      | None => mret None
      | Some (id, size) =>
          r ← (if id =? ID_DONE then st ← lift (Finish c st); mret (Some (st, size))
               else if id =? ID_DATA then
                 block ← lift (Block.of_size junk size);
                 '(ok, bs) ← read_exactly size;
                 if negb ok then mret None
                 else block ← lift (Block.copy_in block bs); mret (Some (Append c block st, timestamp))
               else _ ← SendSyncFail (str "invalid data message"); mret None);
          match r with
          | None => mret None
          | Some (st, timestamp) =>
              r ← decode_loop turns c st;
              match r with
              | DecodeFailed => mret None
              | DecodeDone => mret (Some timestamp)
              | DecodeMore st => file_data_loop fuel c st timestamp
              end
          end
      end
  end.

(** It owns the file, which is closed when it returns. *)
Definition handle_send_file_data (compression : CompressionType) : D (option Z) :=
  decoder ← lift (decoder_of compression);
  r ← file_data_loop turns decoder (coder_init decoder) 0;
  _ ← close_file;
  mret r.

(** The opening of [handle_send_file]; the error, if any. *)
Definition open_file (path : bytes) (mode : Z) : D (option Z) :=
  let create m : D (option Z) := λ s,
    match path_create m path mode (files s) with
    | (inr f, g) => Ret (None, set_opened (Some f) (set_files g s))
    | (inl e, g) => Ret (Some e, set_files g s)
    end in
  r ← create O_EXCL;
  r ← (match r with
       | Some e =>
           if e =? host_value ENOENT then
             r ← secure_mkdirs (Dirname path) e;
             match r with
             | Some e => _ ← SendSyncFailErrno (str "secure_mkdirs() failed") (strerror e); mret (inl tt)
             | None => r ← create O_EXCL; mret (inr r)
             end
           else mret (inr (Some e))
       | None => mret (inr None)
       end);
  match r with
  | inl _ => mret (Some 0)
  | inr r =>
      r ← (match r with
           | Some e => if e =? host_value EEXIST then create O_EXISTING else mret (Some e)
           | None => mret None
           end);
      match r with
      | Some e => _ ← SendSyncFailErrno (str "couldn't create file") (strerror e); mret (Some e)
      | None => mret None
      end
  end.

(** The owner and the mode; false when the owner cannot be set. *)
Definition own_file (path : bytes) (uid gid mode : Z) : D bool :=
  o ← get opened;
  match o with
  | None => mret true
  | Some (f, _) =>
      r ← on_files (file_chown f uid gid);
      g ← get files;
      let refused :=
        match r with
        | None => false
        | Some _ =>
            match path_realpath g path with
            | None => true
            | Some real_path =>
                match path_lstat g (Dirname real_path) with
                | inl _ => true
                | inr st => S_ISDIR (st_mode st) && (Z.land (st_mode st) S_ISGID =? 0)
                end
            end
        end in
      if refused then
        _ ← SendSyncFailErrno (str "fchown() failed uid: " ++ print_d uid ++ str " gid: " ++ print_d gid) errno_text;
        mret false
      else
        _ ← (if android then change_files (path_restorecon path) else mret tt);
        _ ← change_files (file_chmod f mode);
        mret true
  end.

(** After a failure: what the client still sends is read and dropped. *)
Fixpoint skip_data (fuel : nat) : D unit :=
  match fuel with
  | O => λ _, OutOfFuel
  | S fuel =>
      m ← read_header;
      match m with
      | None => mret tt
      | Some (id, size) =>
          b ← get buffer;
          if negb (id =? ID_DATA) || (zlen b <? size) then mret tt
          else
            '(ok, bs) ← read_exactly size;
            _ ← modify (λ s, set_buffer (bs ++ drop (length bs) (buffer s)) s);
            if (ok : bool) then skip_data fuel else mret tt
      end
  end.

(** [fail:] *)
Definition send_file_failed (path : bytes) (do_unlink : bool) : D (option Z) :=
  fuel ← get (λ s, S (input_size (s_in s)));
  _ ← skip_data fuel;
  _ ← (if do_unlink then change_files (path_unlink path) else mret tt);
  _ ← close_file;
  mret None.

(** The timestamp of the file. *)
Definition handle_send_file (path : bytes) (uid gid capabilities mode : Z) (compression : CompressionType)
    (dry_run do_unlink : bool) : D (option Z) :=
  ready ← (if dry_run then mret true
           else
             r ← open_file path mode;
             match r with Some _ => mret false | None => own_file path uid gid mode end);
  if negb ready then send_file_failed path do_unlink
  else
    r ← handle_send_file_data compression;
    match r with
    | None => send_file_failed path do_unlink
    | Some timestamp =>
        r ← update_capabilities path capabilities;
        match r with
        | Some e =>
            _ ← SendSyncFailErrno (str "update_capabilities failed") (strerror e);
            send_file_failed path do_unlink
        | None =>
            ok ← write_exactly (sync_header ID_OKAY 0);
            mret (if (ok : bool) then Some timestamp else None)
        end
    end.

(** ** Receiving a link *)

(** The target is used as a C string in the shared buffer. *)
Definition make_link (path : bytes) : D bool :=
  b ← get buffer;
  target ← lift (c_str_of_buffer b);
  g ← get files;
  let same := match path_readlink g path with inr buf_link => bool_decide (buf_link = target) | inl _ => false end in
  if (same : bool) then mret true
  else
    _ ← change_files (path_unlink path);
    ret ← on_files (path_symlink target path);
    ret ← (match ret with
           | Some e =>
               if e =? host_value ENOENT then
                 r ← secure_mkdirs (Dirname path) e;
                 match r with
                 | Some e => _ ← SendSyncFailErrno (str "secure_mkdirs failed") (strerror e); mret None
                 | None => r ← on_files (path_symlink target path); mret (Some r)
                 end
               else mret (Some (Some e))
           | None => mret (Some None)
           end);
    match ret with
    | None => mret false
    | Some (Some e) => _ ← SendSyncFailErrno (str "symlink failed") (strerror e); mret false
    | Some None => mret true
    end.

Definition handle_send_link (path : bytes) (dry_run : bool) : D (option Z) :=
  m ← read_header;
  match m with
  | None => mret None
  | Some (id, len) =>
      b ← get buffer;
      if negb (id =? ID_DATA) then _ ← SendSyncFail (str "invalid data message: expected ID_DATA"); mret None
      else if zlen b <? len then _ ← SendSyncFail (str "oversize data message"); mret None
      else
        '(ok, bs) ← read_exactly len;
        _ ← modify (λ s, set_buffer (bs ++ drop (length bs) (buffer s)) s);
        if negb ok then mret None
        else
          made ← (if dry_run then mret true else make_link path);
          if negb made then mret None
          else
            m ← read_header;
            match m with
            | None => mret None
            | Some (id, timestamp) =>
                if id =? ID_DONE then
                  ok ← write_exactly (sync_header ID_OKAY 0);
                  mret (if (ok : bool) then Some timestamp else None)
                else _ ← SendSyncFail (str "invalid data message: expected ID_DONE"); mret None
            end
  end.

(** ** The commands *)

(** The permissions of the user are given to the group and to others. *)
Definition file_mode (mode : Z) : Z :=
  let mode := Z.land mode 0x1ff in
  let mode := Z.lor mode (Z.land (Z.shiftr mode 3) 0x38) in
  Z.lor mode (Z.land (Z.shiftr mode 3) 0x07).

Definition send_impl (path : bytes) (mode : Z) (compression : CompressionType) (dry_run : bool) : D bool :=
  g ← get files;
  let do_unlink :=
    negb dry_run &&
    match path_lstat g path with
    | inl _ => true
    | inr st => S_ISREG (st_mode st) || (S_ISLNK (st_mode st) && negb (S_ISLNK mode))
    end in
  _ ← (if do_unlink then change_files (path_unlink path) else mret tt);
  result ← (if S_ISLNK mode then handle_send_link path dry_run
            else
              let mode := file_mode mode in
              let '(uid, gid, mode, capabilities) :=
                if negb dry_run && should_use_fs_config path then adbd_fs_config path false mode
                else (-1, -1, mode, 0) in
              handle_send_file path uid gid capabilities mode compression dry_run do_unlink);
  match result with
  | None => mret false
  | Some timestamp => _ ← change_files (path_lutimes path timestamp); mret true
  end.

(** [strtoul(s, nullptr, 0)] *)
Definition strtoul_0 (s : bytes) : strto_result :=
  let s1 := skip_space s in
  let s2 := match s1 with
            | b :: r => if bool_decide (b = Zbyte 45) || bool_decide (b = Zbyte 43) then r else s1
            | [] => s1
            end in
  strtoull s (match s2 with
              | z :: x :: d :: _ =>
                  if bool_decide (z = Zbyte 48) then
                    if (bool_decide (x = Zbyte 120) || bool_decide (x = Zbyte 88)) && is_base_digit 16 d then 16 else 8
                  else 10
              | z :: _ => if bool_decide (z = Zbyte 48) then 8 else 10
              | [] => 10
              end).

Definition comma : byte := Zbyte 44.

Definition do_send_v1 (spec : bytes) : D bool :=
  match rfind_sub spec [comma] with
  | None => _ ← SendSyncFail (str "missing , in ID_SEND_V1"); mret false
  | Some i =>
      let r := strtoul_0 (c_str (drop (S i) spec)) in
      if st_range r then _ ← SendSyncFail (str "bad mode"); mret false
      else send_impl (take i spec) (u32 (st_val r)) CompressNone false
  end.

(** The compression the flags ask for, or why they are refused; [known] are the
    other flags. *)
Definition compression_of_flags (flags known : Z) : bytes + CompressionType :=
  let brotli := negb (Z.land flags kSyncFlagBrotli =? 0) in
  let lz4 := negb (Z.land flags kSyncFlagLZ4 =? 0) in
  let zstd := negb (Z.land flags kSyncFlagZstd =? 0) in
  let rest := Z.land flags (Z.lnot (Z.lor known (Z.lor kSyncFlagBrotli (Z.lor kSyncFlagLZ4 kSyncFlagZstd)))) in
  if (brotli && lz4) || (brotli && zstd) || (lz4 && zstd) then
    inl (str "multiple compression flags received: " ++ print_d (s32 flags))
  else if negb (rest =? 0) then inl (str "unknown flags: " ++ print_d (s32 rest))
  else inr (if brotli then CompressBrotli else if lz4 then CompressLZ4 else if zstd then CompressZstd else CompressNone).

Definition do_send_v2 (path : bytes) : D bool :=
  '(ok, msg) ← read_exactly sizeof_send_v2;
  if negb ok then mret false
  else
    let flags := u32_at msg 8 in
    match compression_of_flags flags kSyncFlagDryRun with
    | inl reason => _ ← SendSyncFail reason; mret false
    | inr compression => send_impl path (u32_at msg 4) compression (negb (Z.land flags kSyncFlagDryRun =? 0))
    end.

(** ** Sending a file *)

Inductive encoded (c : Coder) := EncodeFailed | EncodeDone | EncodeMore (st : coder_state c).
Global Arguments EncodeFailed {c}.
Global Arguments EncodeDone {c}.
Global Arguments EncodeMore {c} st.

Fixpoint encode_loop (fuel : nat) (c : Coder) (st : coder_state c) : D (encoded c) :=
  match fuel with
  | O => λ _, OutOfFuel
  | S fuel =>
      '(result, output, st) ← lift (Code c st);
      match result with
      | CodeError => _ ← SendSyncFailErrno (str "compress failed") errno_text; mret EncodeFailed
      | _ =>
          ok ← (if bool_decide (output = []) then mret true
                else
                  ok ← write_exactly (sync_header ID_DATA (zlen output));
                  if (ok : bool) then write_exactly output else mret false);
          if negb ok then mret EncodeFailed
          else
            match result with
            | CodeNeedInput => mret (EncodeMore st)
            | CodeMoreOutput => encode_loop fuel c st
            | _ => mret EncodeDone
            end
      end
  end.

Fixpoint recv_loop (fuel : nat) (c : Coder) (st : coder_state c) (fd : instream) : D bool :=
  match fuel with
  | O => λ _, OutOfFuel
  | S fuel =>
      input ← lift (Block.of_size junk SYNC_DATA_MAX);
      match adb_read fd SYNC_DATA_MAX with
      | (ReadError _, _) => _ ← SendSyncFailErrno (str "read failed") errno_text; mret false
      | (ReadBytes bs, fd) =>
          st ← (if bool_decide (bs = []) then lift (Finish c st)
                else
                  input ← lift (Block.copy_in input bs);
                  input ← lift (Block.resize junk input (zlen bs));
                  mret (Append c input st));
          r ← encode_loop turns c st;
          match r with
          | EncodeFailed => mret false
          | EncodeDone => write_exactly (sync_header ID_DONE 0)
          | EncodeMore st => recv_loop fuel c st fd
          end
      end
  end.

Definition recv_impl (path : bytes) (compression : CompressionType) : D bool :=
  g ← get files;
  match path_open g path with
  | inl e => _ ← SendSyncFailErrno (str "open failed") (strerror e); mret false
  | inr fd =>
      encoder ← lift (encoder_of junk compression);
      recv_loop turns encoder (coder_init encoder) fd
  end.

Definition do_recv_v2 (path : bytes) : D bool :=
  '(ok, msg) ← read_exactly sizeof_recv_v2;
  if negb ok then mret false
  else
    match compression_of_flags (u32_at msg 4) 0 with
    | inl reason => _ ← SendSyncFail reason; mret false
    | inr compression => recv_impl path compression
    end.

(** ** Requests *)

(** Whether to go on.  [name] is a C string. *)
Definition handle_sync_command : D bool :=
  m ← read_header;
  match m with
  | None => _ ← SendSyncFail (str "command read failure"); mret false
  | Some (id, path_length) =>
      if 1024 <? path_length then _ ← SendSyncFail (str "path too long"); mret false
      else
        '(ok, name) ← read_exactly path_length;
        if negb ok then _ ← SendSyncFail (str "filename read failure"); mret false
        else
          let name := c_str name in
          if id =? ID_LSTAT_V1 then do_lstat_v1 name
          else if (id =? ID_LSTAT_V2) || (id =? ID_STAT_V2) then do_stat_v2 id name
          else if id =? ID_LIST_V1 then do_list false name
          else if id =? ID_LIST_V2 then do_list true name
          else if id =? ID_SEND_V1 then do_send_v1 name
          else if id =? ID_SEND_V2 then do_send_v2 name
          else if id =? ID_RECV_V1 then recv_impl name CompressNone
          else if id =? ID_RECV_V2 then do_recv_v2 name
          else if id =? ID_QUIT then mret false
          else _ ← SendSyncFail (str "unknown command " ++ print_0x 8 id); mret false
  end.

(** [while (handle_sync_command(...))]: every turn reads a request. *)
Fixpoint file_sync_service (fuel : nat) : D unit :=
  match fuel with
  | O => λ _, OutOfFuel
  | S fuel => go_on ← handle_sync_command; if (go_on : bool) then file_sync_service fuel else mret tt
  end.
End service.
