(* ===== verification/SyncClient.v ===== *)
(** * The synchronisation client: [adb/client/file_sync_client.cpp]

    The class [SyncConnection] and the transfers of single files.  Ending the
    process ([_exit], [LOG(FATAL)]) is [Abort].  Progress reports, which depend
    on the time, are not modelled; what is reported about failures is. *)

From S2P Require Import Prelude State CString LibBase AdbIO Types Compression Paths Errno SyncProtocol SyncService.
Local Open Scope Z_scope.
Local Open Scope record_scope.

(** The calls of [Error] and [Warning], with their arguments, what [Println]
    says would be done, and the commands that are sent to a shell. *)
Inductive sync_error :=
| PathTooLong (len : Z)
| NoDryRun
| SendRequestFailed (path : bytes)
| CannotStat (lpath : bytes)
| OpeningFailed (lpath : bytes)
| ReadingFailed (lpath : bytes)
| CompressingFailed (lpath : bytes)
| CopyFailed (from to msg : bytes)
| CopyFailedNoReason (from to : bytes)
| AckReadFailed (eof : bool)
| OkayWithLength (len : Z)
| UnexpectedResponse (id : Z)
| TooLongMessage (len : Z)
| ReadlinkFailed (lpath : bytes)
| CannotCreate (lpath : bytes)
| SizeTooLarge (size : Z)
| CannotWrite (lpath : bytes)
| UnexpectedDone
| DecompressFailed
| CannotOpenDir (lpath : bytes)
| CannotLstat (path : bytes)
| SkippingSpecial (path : bytes) (mode : Z)
| EscapedTooLong (path : bytes)
| LstatNotSent
| WouldPush (lpath rpath : bytes)
| StatFailedForPush (dst : bytes)
| NotADirectory (dst : bytes)
| AccessFailed (dst : bytes)
| CannotStatSource (src : bytes)
| LinkStatFailed (path : bytes)
| CannotCreateDir (lpath : bytes)
| CannotCreateTarget (dst : bytes)
| RemoteMissing (src : bytes)
| RemoteStatFailed (src : bytes)
| ShellCommand (cmd : bytes).

(** What the features of the device allow. *)
Record sync_features := Features {
  have_stat_v2_ : bool; have_ls_v2_ : bool; have_sendrecv_v2_ : bool; have_sendrecv_v2_brotli_ : bool;
  have_sendrecv_v2_lz4_ : bool; have_sendrecv_v2_zstd_ : bool; have_sendrecv_v2_dry_run_send_ : bool;
  have_fixed_push_mkdir : bool; have_shell_v2 : bool
}.

(** The counters of a [TransferLedger], 64 bits each *)
Record ledger := Ledger { files_transferred : Z; files_skipped : Z; bytes_transferred : Z; bytes_expected : Z }.

Definition ledger_zero : ledger := Ledger 0 0 0 0.

(** The numbers of the errors the client itself compares with, which are not of
    the protocol; [io_errno] is that of a failed write. *)
Class ClientErrno := { ENOTSUP : Z; ENOPROTOOPT : Z; io_errno : Z }.

Section client.
Context (junk : nat → byte) `{!Files, !Codecs, !HostErrno, !ClientErrno} (features : sync_features).

Record sync_conn := Conn {
  c_in : instream;                                        (* the connection *)
  c_out : outstream;
  local : fs;
  downloaded : option (file * outstream);                 (* the local file being written *)
  deferred_acknowledgements_ : list (bytes * bytes);
  acknowledgement_buffer_ : bytes;
  polls : list bool;                                      (* whether [adb_poll] finds data *)
  current_ledger_ : ledger;
  global_ledger_ : ledger;
  errors : list sync_error
}.

#[global] Instance eta_sync_conn : Eta sync_conn :=
  rd_pure Conn <%> c_in <%> c_out <%> local <%> downloaded <%> deferred_acknowledgements_
    <%> acknowledgement_buffer_ <%> polls <%> current_ledger_ <%> global_ledger_ <%> errors.
#[global] Instance upd_c_in : Update c_in. Proof. mk_update. Defined.
#[global] Instance upd_c_out : Update c_out. Proof. mk_update. Defined.
#[global] Instance upd_local : Update local. Proof. mk_update. Defined.
#[global] Instance upd_downloaded : Update downloaded. Proof. mk_update. Defined.
#[global] Instance upd_deferred : Update deferred_acknowledgements_. Proof. mk_update. Defined.
#[global] Instance upd_ack_buffer : Update acknowledgement_buffer_. Proof. mk_update. Defined.
#[global] Instance upd_polls : Update polls. Proof. mk_update. Defined.
#[global] Instance upd_current_ledger : Update current_ledger_. Proof. mk_update. Defined.
#[global] Instance upd_global_ledger : Update global_ledger_. Proof. mk_update. Defined.
#[global] Instance upd_errors : Update errors. Proof. mk_update. Defined.

Local Abbreviation C := (ST sync_conn).

(** ** The connection *)

Definition Error (e : sync_error) : C unit := modify (λ c, c <| errors ::= λ l, l ++ [e] |>).

Definition conn_read (n : Z) : C (bool * bytes) := λ c,
  '(ok, bs, i) ← ReadFdExactly (c_in c) n; Ret ((ok, bs), c <| c_in := i |>).
Definition conn_write (bs : bytes) : C bool := λ c,
  '(ok, o) ← WriteFdExactly (c_out c) bs; Ret (ok, c <| c_out := o |>).

(** The process ends when a write fails; before, it reports a reason the device
    may have sent. *)
Definition WriteOrDie (data : bytes) : C unit :=
  ok ← conn_write data; if (ok : bool) then mret tt else lift Abort.

Definition ResolveCompressionType (compression : CompressionType) : CompressionType :=
  match compression with
  | CompressAny =>
      if have_sendrecv_v2_zstd_ features then CompressZstd
      else if have_sendrecv_v2_lz4_ features then CompressLZ4
      else if have_sendrecv_v2_brotli_ features then CompressBrotli
      else CompressNone
  | c => c
  end.

(** ** Ledgers *)

Definition add_u64 (a b : Z) : Z := u64 (a + b).

Definition RecordBytesTransferred (bytes : Z) : C unit :=
  let add l := Ledger (files_transferred l) (files_skipped l) (add_u64 (bytes_transferred l) bytes) (bytes_expected l) in
  modify (λ c, c <| current_ledger_ ::= add |> <| global_ledger_ ::= add |>).
Definition RecordFilesTransferred (files : Z) : C unit :=
  let add l := Ledger (add_u64 (files_transferred l) files) (files_skipped l) (bytes_transferred l) (bytes_expected l) in
  modify (λ c, c <| current_ledger_ ::= add |> <| global_ledger_ ::= add |>).
Definition RecordFilesSkipped (files : Z) : C unit :=
  let add l := Ledger (files_transferred l) (add_u64 (files_skipped l) files) (bytes_transferred l) (bytes_expected l) in
  modify (λ c, c <| current_ledger_ ::= add |> <| global_ledger_ ::= add |>).
Definition RecordFileSent (from to : bytes) : C unit :=
  _ ← RecordFilesTransferred 1;
  modify (λ c, c <| deferred_acknowledgements_ ::= λ l, l ++ [(from, to)] |>).
Definition NewTransfer : C unit := modify (λ c, c <| current_ledger_ := ledger_zero |>).

(** ** Requests; the error number, if any *)

Definition SendRequest (id : Z) (path : bytes) : C (option Z) :=
  if 1024 <? zlen path then
    _ ← Error (PathTooLong (zlen path)); mret (Some (host_value ENAMETOOLONG))
  else
    ok ← conn_write (sync_header id (zlen path) ++ path);
    mret (if (ok : bool) then None else Some io_errno).

Definition compression_flag (compression : CompressionType) : outcome Z :=
  match compression with
  | CompressNone => Ret 0
  | CompressBrotli => Ret kSyncFlagBrotli
  | CompressLZ4 => Ret kSyncFlagLZ4
  | CompressZstd => Ret kSyncFlagZstd
  | CompressAny => Abort
  end.

Definition SendSend2 (path : bytes) (mode : Z) (compression : CompressionType) (dry_run : bool) : C bool :=
  if 1024 <? zlen path then _ ← Error (PathTooLong (zlen path)); mret false
  else
    flags ← lift (compression_flag compression);
    let flags := if dry_run then Z.lor flags kSyncFlagDryRun else flags in
    conn_write (sync_header ID_SEND_V2 (zlen path) ++ path ++ send_v2_bytes mode flags).

Definition SendRecv2 (path : bytes) (compression : CompressionType) : C bool :=
  if 1024 <? zlen path then _ ← Error (PathTooLong (zlen path)); mret false
  else
    flags ← lift (compression_flag compression);
    conn_write (sync_header ID_RECV_V2 (zlen path) ++ path ++ recv_v2_bytes flags).

(** ** Status of remote files *)

Definition SendStat (path : bytes) : C (option Z) :=
  if negb (have_stat_v2_ features) then mret (Some ENOTSUP) else SendRequest ID_STAT_V2 path.

Definition SendLstat (path : bytes) : C (option Z) :=
  SendRequest (if have_stat_v2_ features then ID_LSTAT_V2 else ID_LSTAT_V1) path.

Definition FinishStat : C (Z + stat) :=
  if have_stat_v2_ features then
    '(ok, msg) ← conn_read sizeof_stat_v2;
    if negb ok then lift Abort
    else if negb (u32_at msg 0 =? ID_LSTAT_V2) && negb (u32_at msg 0 =? ID_STAT_V2) then lift Abort
    else if negb (u32_at msg 4 =? 0) then mret (inl (errno_from_wire (s32 (u32_at msg 4))))
    else mret (inr (stat_of_v2 msg))
  else
    '(ok, msg) ← conn_read sizeof_stat_v1;
    if negb ok then lift Abort
    else if negb (u32_at msg 0 =? ID_LSTAT_V1) then lift Abort
    else
      let mode := u32_at msg 4 in
      let size := u32_at msg 8 in
      let mtime := u32_at msg 12 in
      if (mode =? 0) && (size =? 0) && (mtime =? 0) then mret (inl ENOPROTOOPT)
      else mret (inr (Stat 0 0 mode 0 0 0 size 0 mtime mtime)).

Definition sync_stat (path : bytes) : C (Z + stat) :=
  r ← SendStat path; match r with Some e => mret (inl e) | None => FinishStat end.
Definition sync_lstat (path : bytes) : C (Z + stat) :=
  r ← SendLstat path; match r with Some e => mret (inl e) | None => FinishStat end.

Definition set_mode (st : stat) (mode size : Z) : stat :=
  Stat (st_dev st) (st_ino st) mode (st_nlink st) (st_uid st) (st_gid st) size (st_atime st) (st_mtime st) (st_ctime st).

(** Devices without the second version say what a link leads to when they are
    asked for the path with a slash. *)
Definition sync_stat_fallback (path : bytes) : C (Z + stat) :=
  r ← sync_stat path;
  match r with
  | inr st => mret (inr st)
  | inl errno =>
      if negb (errno =? ENOTSUP) then mret (inl errno)
      else
        r ← sync_lstat path;
        match r with
        | inl errno => mret (inl errno)
        | inr st =>
            if S_ISLNK (st_mode st) then
              let mode := Z.land (st_mode st) (Z.lnot S_IFMT) in
              r ← sync_lstat (path ++ [slash]);
              mret (inr (set_mode st (Z.lor mode (match r with inr _ => S_IFDIR | inl _ => S_IFREG end)) 0))
            else mret (inr st)
        end
  end.

(** ** Listing a remote directory *)

(** The entries the callback is called with, and whether the listing is complete. *)
Record dent := Dent { d_mode : Z; d_size : Z; d_time : Z; d_name : bytes }.

Definition SendLs (path : bytes) : C (option Z) :=
  SendRequest (if have_ls_v2_ features then ID_LIST_V2 else ID_LIST_V1) path.

Fixpoint ls_loop (fuel : nat) (v2 : bool) (entries : list dent) : C (bool * list dent) :=
  match fuel with
  | O => λ _, OutOfFuel
  | S fuel =>
      '(ok, msg) ← conn_read (if v2 then sizeof_dent_v2 else sizeof_dent_v1);
      if negb ok then mret (false, entries)
      else if u32_at msg 0 =? ID_DONE then mret (true, entries)
      else if negb (u32_at msg 0 =? (if v2 then ID_DENT_V2 else ID_DENT_V1)) then mret (false, entries)
      else
        let len := u32_at msg (if v2 then 72 else 16) in
        if 255 <? len then mret (false, entries)
        else
          '(ok, buf) ← conn_read len;
          let name := c_str buf in
          if negb ok then mret (false, entries)
          else if bool_decide (slash ∈ name) then mret (false, entries)
          else
            let entry :=
              if v2 then Dent (u32_at msg 24) (u64_at msg 40) (u64_at msg 56) name
              else Dent (u32_at msg 4) (u32_at msg 8) (u32_at msg 12) name in
            ls_loop fuel v2 (entries ++ [entry])
  end.

Definition FinishLs : C (bool * list dent) :=
  fuel ← get (λ c, S (input_size (c_in c)));
  ls_loop fuel (have_ls_v2_ features) [].

Definition sync_ls (path : bytes) : C (bool * list dent) :=
  r ← SendLs path; match r with Some _ => mret (false, []) | None => FinishLs end.

(** ** Sending files *)

(** The loops of the coders have [turns] turns. *)
Context (turns : nat).

(** The output of the encoder, until it needs input; [None] after an error. *)
Fixpoint send_encoded (fuel : nat) (c : Coder) (st : coder_state c) : C (encoded c) :=
  match fuel with
  | O => λ _, OutOfFuel
  | S fuel =>
      '(result, output, st) ← lift (Code c st);
      match result with
      | CodeError => mret EncodeFailed
      | _ =>
          _ ← (if bool_decide (output = []) then mret tt
               else WriteOrDie (sync_header ID_DATA (zlen output) ++ output));
          match result with
          | CodeNeedInput => mret (EncodeMore st)
          | CodeMoreOutput => send_encoded fuel c st
          | _ => mret EncodeDone
          end
      end
  end.

Fixpoint send_loop (fuel : nat) (lpath : bytes) (c : Coder) (st : coder_state c) (lfd : instream) : C bool :=
  match fuel with
  | O => λ _, OutOfFuel
  | S fuel =>
      input ← lift (Block.of_size junk SYNC_DATA_MAX);
      match adb_read lfd SYNC_DATA_MAX with
      | (ReadError _, _) => _ ← Error (ReadingFailed lpath); mret false
      | (ReadBytes bs, lfd) =>
          st ← (if bool_decide (bs = []) then lift (Finish c st)
                else
                  input ← lift (Block.copy_in input bs);
                  input ← lift (Block.resize junk input (zlen bs));
                  _ ← RecordBytesTransferred (zlen bs);
                  mret (Append c input st));
          r ← send_encoded turns c st;
          match r with
          | EncodeFailed => _ ← Error (CompressingFailed lpath); mret false
          | EncodeDone => mret true
          | EncodeMore st => send_loop fuel lpath c st lfd
          end
      end
  end.

(** The end of a file: [ID_DONE] with the modification time. *)
Definition send_done (lpath rpath : bytes) (mtime : Z) : C bool :=
  _ ← RecordFileSent lpath rpath; _ ← WriteOrDie (sync_header ID_DONE mtime); mret true.

(** [stat] and [adb_open] of the local file *)
Definition open_local (lpath : bytes) : C (option instream) :=
  g ← get local;
  match path_stat g lpath with
  | inl _ => _ ← Error (CannotStat lpath); mret None
  | inr _ =>
      match path_open g lpath with
      | inl _ => _ ← Error (OpeningFailed lpath); mret None
      | inr lfd => mret (Some lfd)
      end
  end.

Definition path_and_mode (path : bytes) (mode : Z) : bytes := c_str path ++ str "," ++ print_d (s32 mode).

Fixpoint legacy_loop (fuel : nat) (lpath : bytes) (lfd : instream) : C bool :=
  match fuel with
  | O => λ _, OutOfFuel
  | S fuel =>
      match adb_read lfd SYNC_DATA_MAX with
      | (ReadError _, _) => _ ← Error (ReadingFailed lpath); mret false
      | (ReadBytes [], _) => mret true
      | (ReadBytes bs, lfd) =>
          _ ← WriteOrDie (sync_header ID_DATA (zlen bs) ++ bs);
          _ ← RecordBytesTransferred (zlen bs);
          legacy_loop fuel lpath lfd
      end
  end.

Definition SendLargeFileLegacy (path : bytes) (mode : Z) (lpath rpath : bytes) (mtime : Z) : C bool :=
  r ← SendRequest ID_SEND_V1 (path_and_mode path mode);
  match r with
  | Some _ => _ ← Error (SendRequestFailed (path_and_mode path mode)); mret false
  | None =>
      lfd ← open_local lpath;
      match lfd with
      | None => mret false
      | Some lfd =>
          ok ← legacy_loop turns lpath lfd;
          if negb ok then mret false else send_done lpath rpath mtime
      end
  end.

Definition SendLargeFile (path : bytes) (mode : Z) (lpath rpath : bytes) (mtime : Z)
    (compression : CompressionType) (dry_run : bool) : C bool :=
  if dry_run && negb (have_sendrecv_v2_dry_run_send_ features) then _ ← Error NoDryRun; mret false
  else if negb (have_sendrecv_v2_ features) then SendLargeFileLegacy path mode lpath rpath mtime
  else
    let compression := ResolveCompressionType compression in
    ok ← SendSend2 path mode compression dry_run;
    if negb ok then _ ← Error (SendRequestFailed path); mret false
    else
      lfd ← open_local lpath;
      match lfd with
      | None => mret false
      | Some lfd =>
          encoder ← lift (encoder_of junk compression);
          ok ← send_loop turns lpath encoder (coder_init encoder) lfd;
          if negb ok then mret false else send_done lpath rpath mtime
      end.

(** Request, data and end in a single write. *)
Definition SendSmallFile (path : bytes) (mode : Z) (lpath rpath : bytes) (mtime : Z) (data : bytes) (dry_run : bool)
  : C bool :=
  if dry_run then SendLargeFile path mode lpath rpath mtime CompressNone dry_run
  else
    let spec := path_and_mode path mode in
    if 1024 <? zlen spec then _ ← Error (PathTooLong (zlen spec)); mret false
    else
      _ ← WriteOrDie (sync_header ID_SEND_V1 (zlen spec) ++ spec ++ sync_header ID_DATA (zlen data) ++ data
                      ++ sync_header ID_DONE mtime);
      _ ← RecordFileSent lpath rpath;
      _ ← RecordBytesTransferred (zlen data);
      mret true.

(** ** Acknowledgements *)

Inductive ReadStatus := ReadSuccess | ReadFailure | ReadTryLater.

(** [adb_poll] with no time to wait *)
Definition poll : C bool := λ c,
  match polls c with
  | [] => Ret (true, c)
  | ready :: rest => Ret (ready, c <| polls := rest |>)
  end.

(** A turn of the loop; [again] is the next one. *)
Definition read_until_turn (again : C ReadStatus) (should_block : bool) (amount : Z) : C ReadStatus :=
  buf ← get acknowledgement_buffer_;
  if zlen buf <? amount then
    ready ← (if should_block then mret true else poll);
    if negb ready then mret ReadTryLater
    else
      i ← get c_in;
      match adb_read i (amount - zlen buf) with
      | (ReadError _, i) =>
          _ ← modify (λ c, c <| c_in := i |>); _ ← Error (AckReadFailed false); mret ReadFailure
      | (ReadBytes [], i) =>
          _ ← modify (λ c, c <| c_in := i |>); _ ← Error (AckReadFailed true); mret ReadFailure
      | (ReadBytes bs, i) =>
          _ ← modify (λ c, c <| c_in := i |> <| acknowledgement_buffer_ ::= λ b, b ++ bs |>);
          if negb should_block && (zlen (buf ++ bs) <? amount) then mret ReadTryLater else again
      end
  else mret ReadSuccess.

(** Every turn reads at least one byte. *)
Fixpoint read_until_amount (fuel : nat) (should_block : bool) (amount : Z) : C ReadStatus :=
  read_until_turn
    (match fuel with O => λ _, OutOfFuel | S fuel => read_until_amount fuel should_block amount end) should_block amount.

Definition clear_ack_buffer : C unit := modify (λ c, c <| acknowledgement_buffer_ := [] |>).
Definition CopyDone : C unit := modify (λ c, c <| deferred_acknowledgements_ ::= tail |>).

Definition ReportDeferredCopyFailure (msg : bytes) : C unit :=
  l ← get deferred_acknowledgements_;
  '(from, to) ← lift (deref (head l));
  _ ← Error (CopyFailed (c_str from) (c_str to) (c_str msg));
  modify (λ c, c <| deferred_acknowledgements_ ::= tail |>).

Definition max_deferred_acks : nat := 128.

Definition acks_turn (again : C bool) (read_all : bool) : C bool :=
  deferred ← get deferred_acknowledgements_;
  if bool_decide (deferred = []) then mret true
  else
    let should_block := read_all || bool_decide (max_deferred_acks ≤ length deferred)%nat in
    r ← read_until_amount (Z.to_nat sizeof_header) should_block sizeof_header;
    match r with
    | ReadTryLater => mret true
    | ReadFailure => mret false
    | ReadSuccess =>
        hdr ← get acknowledgement_buffer_;
        let id := u32_at hdr 0 in
        let msglen := u32_at hdr 4 in
        if id =? ID_OKAY then
          _ ← clear_ack_buffer;
          if negb (msglen =? 0) then _ ← Error (OkayWithLength msglen); mret false
          else _ ← CopyDone; again
        else if negb (id =? ID_FAIL) then _ ← Error (UnexpectedResponse id); mret false
        else if SYNC_DATA_MAX <? msglen then _ ← Error (TooLongMessage msglen); mret false
        else
          r ← read_until_amount (Z.to_nat (sizeof_header + msglen)) should_block (sizeof_header + msglen);
          match r with
          | ReadTryLater => mret true
          | ReadFailure => mret false
          | ReadSuccess =>
              buf ← get acknowledgement_buffer_;
              _ ← ReportDeferredCopyFailure (drop 8 buf);
              _ ← clear_ack_buffer;
              mret false
          end
    end.

(** Every turn takes an acknowledgement. *)
Fixpoint acks_loop (fuel : nat) (read_all : bool) : C bool :=
  acks_turn (match fuel with O => λ _, OutOfFuel | S fuel => acks_loop fuel read_all end) read_all.

Definition ReadAcknowledgements (read_all : bool) : C bool :=
  fuel ← get (λ c, length (deferred_acknowledgements_ c)); acks_loop fuel read_all.

(** ** [sync_send] *)

(** [ReadFdToString]: everything up to the end, [None] after an error *)
Fixpoint read_all_loop (fuel : nat) (i : instream) (content : bytes) : outcome (option bytes) :=
  match fuel with
  | O => OutOfFuel
  | S fuel =>
      match adb_read i 4096 with
      | (ReadError _, _) => Ret None
      | (ReadBytes [], _) => Ret (Some content)
      | (ReadBytes bs, i) => read_all_loop fuel i (content ++ bs)
      end
  end.

Definition ReadFileToString (g : fs) (path : bytes) : outcome (option bytes) :=
  match path_open g path with
  | inl _ => Ret None
  | inr i => read_all_loop (S (input_size i)) i []
  end.

Definition PATH_MAX : Z := 4096.

Definition sync_send (lpath rpath : bytes) (mtime mode : Z) (sync : bool) (compression : CompressionType) (dry_run : bool)
  : C bool :=
  skip ← (if sync then
            r ← sync_lstat rpath;
            mret (match r with inr st => st_mtime st =? u32 mtime | inl _ => false end)
          else mret false);
  if (skip : bool) then _ ← RecordFilesSkipped 1; mret true
  else
    g ← get local;
    if S_ISLNK mode then
      match path_readlink g lpath with
      | inl _ => _ ← Error (ReadlinkFailed lpath); mret false
      | inr target =>
          ok ← SendSmallFile rpath mode lpath rpath mtime (ztake (PATH_MAX - 1) target ++ [NUL]) dry_run;
          if negb ok then mret false else ReadAcknowledgements sync
      end
    else
      match path_stat g lpath with
      | inl _ => _ ← Error (CannotStat lpath); mret false
      | inr st =>
          ok ← (if st_size st <? SYNC_DATA_MAX then
                  data ← lift (ReadFileToString g lpath);
                  match data with
                  | None => _ ← Error (ReadingFailed lpath); mret false
                  | Some data => SendSmallFile rpath mode lpath rpath mtime data dry_run
                  end
                else SendLargeFile rpath mode lpath rpath mtime compression dry_run);
          if negb ok then mret false else ReadAcknowledgements sync
      end.

(** ** [sync_recv] *)

Definition on_local {A} (f : fs → A * fs) : C A := λ c,
  let '(r, g) := f (local c) in Ret (r, c <| local := g |>).
Definition unlink_local (lpath : bytes) : C unit := on_local (λ g, (tt, path_unlink lpath g)).

(** [adb_creat] *)
Definition create_local (lpath : bytes) : C bool := λ c,
  match path_create O_TRUNCATE lpath 0x1a4 (local c) with
  | (inr f, g) => Ret (true, c <| local := g |> <| downloaded := Some f |>)
  | (inl _, g) => Ret (false, c <| local := g |>)
  end.

Definition write_local (bs : bytes) : C bool := λ c,
  '(f, o) ← deref (downloaded c);
  '(ok, o) ← WriteFdExactly o bs;
  Ret (ok, c <| downloaded := Some (f, o) |>).

Definition close_local : C unit := λ c,
  match downloaded c with
  | None => Ret (tt, c)
  | Some (f, o) => Ret (tt, c <| local ::= file_close f (o_written o) |> <| downloaded := None |>)
  end.

(** [None] after [ReportCopyFailure]; false, when the message cannot be read. *)
Definition ReportCopyFailure (from to : bytes) (msglen : Z) : C unit :=
  '(ok, buf) ← conn_read msglen;
  Error (if (ok : bool) then CopyFailed from to (c_str buf) else CopyFailedNoReason from to).

Definition recv_header : C (option (Z * Z)) :=
  '(ok, msg) ← conn_read sizeof_header;
  mret (if (ok : bool) then Some (u32_at msg 0, u32_at msg 4) else None).

(** The data of a message, unless it is too long or cannot be read; the local
    file is removed then. *)
Definition recv_data (lpath : bytes) (size : Z) : C (option bytes) :=
  if SYNC_DATA_MAX <? size then _ ← Error (SizeTooLarge size); _ ← unlink_local lpath; mret None
  else
    '(ok, bs) ← conn_read size;
    if negb ok then _ ← unlink_local lpath; mret None else mret (Some bs).

Fixpoint recv_v1_loop (fuel : nat) (rpath lpath : bytes) : C bool :=
  match fuel with
  | O => λ _, OutOfFuel
  | S fuel =>
      m ← recv_header;
      match m with
      | None => _ ← unlink_local lpath; mret false
      | Some (id, size) =>
          if id =? ID_DONE then mret true
          else if negb (id =? ID_DATA) then
            _ ← unlink_local lpath; _ ← ReportCopyFailure rpath lpath size; mret false
          else
            d ← recv_data lpath size;
            match d with
            | None => mret false
            | Some bs =>
                ok ← write_local bs;
                if negb ok then _ ← Error (CannotWrite lpath); _ ← unlink_local lpath; mret false
                else _ ← RecordBytesTransferred size; recv_v1_loop fuel rpath lpath
            end
      end
  end.

(** The request was sent; the local file is replaced. *)
Definition receive_file (lpath : bytes) (receive : C bool) : C bool :=
  _ ← unlink_local lpath;
  ok ← create_local lpath;
  if negb ok then _ ← Error (CannotCreate lpath); mret false
  else
    ok ← receive;
    _ ← (if (ok : bool) then RecordFilesTransferred 1 else mret tt);
    _ ← close_local;
    mret ok.

Definition sync_recv_v1 (rpath lpath : bytes) : C bool :=
  r ← SendRequest ID_RECV_V1 rpath;
  match r with
  | Some _ => mret false
  | None => fuel ← get (λ c, S (input_size (c_in c))); receive_file lpath (recv_v1_loop fuel rpath lpath)
  end.

Fixpoint write_decoded (fuel : nat) (lpath : bytes) (c : Coder) (st : coder_state c) : C (decoded c) :=
  match fuel with
  | O => λ _, OutOfFuel
  | S fuel =>
      '(result, output, st) ← lift (Code c st);
      match result with
      | CodeError => _ ← Error DecompressFailed; _ ← unlink_local lpath; mret DecodeFailed
      | _ =>
          ok ← (if bool_decide (output = []) then mret true else write_local output);
          if negb ok then _ ← Error (CannotWrite lpath); _ ← unlink_local lpath; mret DecodeFailed
          else
            _ ← RecordBytesTransferred (zlen output);
            match result with
            | CodeNeedInput => mret (DecodeMore st)
            | CodeMoreOutput => write_decoded fuel lpath c st
            | _ => mret DecodeDone
            end
      end
  end.

Fixpoint recv_v2_loop (fuel : nat) (rpath lpath : bytes) (c : Coder) (st : coder_state c) : C bool :=
  match fuel with
  | O => λ _, OutOfFuel
  | S fuel =>
      m ← recv_header;
      match m with
      | None => _ ← unlink_local lpath; mret false
      | Some (id, size) =>
          st ← (if id =? ID_DONE then st ← lift (Finish c st); mret (Some st)
                else if negb (id =? ID_DATA) then
                  _ ← unlink_local lpath; _ ← ReportCopyFailure rpath lpath size; mret None
                else
                  d ← recv_data lpath size;
                  match d with
                  | None => mret None
                  | Some bs => block ← lift (Block.of_range junk bs); mret (Some (Append c block st))
                  end);
          match st with
          | None => mret false
          | Some st =>
              r ← write_decoded turns lpath c st;
              match r with
              | DecodeFailed => mret false
              | DecodeDone => mret true
              | DecodeMore st => recv_v2_loop fuel rpath lpath c st
              end
          end
      end
  end.

Definition sync_recv_v2 (rpath lpath : bytes) (compression : CompressionType) : C bool :=
  let compression := ResolveCompressionType compression in
  ok ← SendRecv2 rpath compression;
  if negb ok then mret false
  else
    decoder ← lift (decoder_of compression);
    receive_file lpath (recv_v2_loop turns rpath lpath decoder (coder_init decoder)).

Definition sync_recv (rpath lpath : bytes) (compression : CompressionType) : C bool :=
  if have_sendrecv_v2_ features then sync_recv_v2 rpath lpath compression else sync_recv_v1 rpath lpath.
End client.
