(* ===== verification/SyncSample.v ===== *)
(** * A file system in memory

    An instance of the system calls, with which the theorems about the
    synchronisation of files are evaluated. *)

From S2P Require Import Prelude State CString LibBase AdbIO Types Compression Paths Errno SyncProtocol SyncService SyncClient.
Local Open Scope Z_scope.

Record node := Node { n_stat : stat; n_data : bytes }.
Definition tree := list (bytes * node).

Definition node_at (g : tree) (p : bytes) : option node := snd <$> List.find (λ x, bool_decide (x.1 = p)) g.
Definition without (p : bytes) (g : tree) : tree := filter (λ x, x.1 ≠ p) g.
Definition change (p : bytes) (f : node → node) (g : tree) : tree :=
  (λ x, if bool_decide (x.1 = p) then (x.1, f x.2) else x) <$> g.

Definition fresh_stat (mode size mtime : Z) : stat := Stat 0 0 mode 1 0 0 size 0 mtime mtime.
Definition with_mode (mode : Z) (n : node) : node :=
  Node (fresh_stat (Z.lor (file_type (st_mode (n_stat n))) (Z.land mode 0xfff)) (st_size (n_stat n)) (st_mtime (n_stat n))) (n_data n).
Definition with_time (mtime : Z) (n : node) : node :=
  Node (fresh_stat (st_mode (n_stat n)) (st_size (n_stat n)) mtime) (n_data n).
Definition with_owner (uid gid : Z) (n : node) : node :=
  let st := n_stat n in
  Node (Stat (st_dev st) (st_ino st) (st_mode st) (st_nlink st) uid gid (st_size st) (st_atime st) (st_mtime st) (st_ctime st)) (n_data n).
Definition with_data (d : bytes) (n : node) : node :=
  let st := n_stat n in
  Node (Stat (st_dev st) (st_ino st) (st_mode st) (st_nlink st) (st_uid st) (st_gid st) (zlen d) (st_atime st) (st_mtime st) (st_ctime st)) d.

(** The names of the entries of a directory *)
Definition child (dir p : bytes) : option bytes :=
  let prefix := dir ++ [slash] in
  if bool_decide (take (length prefix) p = prefix) then
    let name := drop (length prefix) p in
    if bool_decide (slash ∈ name) || bool_decide (name = []) then None else Some name
  else None.

(** A directory may be written with a slash at its end. *)
Definition unslash (p : bytes) : bytes :=
  match reverse p with
  | c :: (_ :: _) as r => if bool_decide (c = slash) then reverse r else p
  | _ => p
  end.

Definition node_stat (g : tree) (p : bytes) : Z + stat :=
  match node_at g (unslash p) with Some n => inr (n_stat n) | None => inl 2 end.

Definition memory_files : Files := {|
  fs := tree;
  file := bytes;
  path_stat := node_stat;
  path_lstat := node_stat;
  path_readlink g p := match node_at g p with Some n => if S_ISLNK (st_mode (n_stat n)) then inr (n_data n) else inl 22 | None => inl 2 end;
  path_realpath g p := (λ _, p) <$> node_at g p;
  path_readdir g p :=
    match node_at g (unslash p) with
    | Some n => if S_ISDIR (st_mode (n_stat n)) then inr (omap (λ x, child (unslash p) x.1) g) else inl 20
    | None => inl 2
    end;
  path_open g p := match node_at g p with
    | Some n => inr (if bool_decide (n_data n = []) then [] else [Data (n_data n)]) | None => inl 2 end;
  path_create how p mode g :=
    let new := (inr (p, Out [] []), (p, Node (fresh_stat (Z.lor S_IFREG (Z.land mode 0xfff)) 0 0) []) :: without p g) in
    match how, node_at g p with
    | O_EXCL, Some _ => (inl 17, g)
    | O_EXISTING, None => (inl 2, g)
    | O_EXISTING, Some n => (inr (p, Out [] []), g)
    | _, _ => new
    end;
  file_close p d g := change p (with_data d) g;
  file_chown p uid gid g := (None, change p (with_owner uid gid) g);
  file_chmod p mode g := change p (with_mode mode) g;
  path_unlink p g := without p g;
  path_mkdir p mode g := match node_at g (unslash p) with
    | Some _ => (Some 17, g)
    | None => (None, (unslash p, Node (fresh_stat (Z.lor S_IFDIR (Z.land mode 0xfff)) 0 0) []) :: g) end;
  path_chown p uid gid g := (None, change p (with_owner uid gid) g);
  path_chmod p mode g := (true, change p (with_mode mode) g);
  path_symlink target p g := (None, (p, Node (fresh_stat S_IFLNK (zlen target) 0) target) :: g);
  path_utime p mtime g := (true, change p (with_time mtime) g);
  path_lutimes p mtime g := change p (with_time mtime) g;
  path_setxattr p caps g := (None, g);
  path_removexattr p g := g;
  path_restorecon p g := g
|}.

Definition no_junk (_ : nat) : byte := NUL.

(** A device that gives the files to [root], and copies what is compressed. *)
Definition sample_device : Device := {|
  android := true; api_before_V := false; adbd_fs_config _ _ mode := (0, 0, mode, 0);
  strerror _ := str "error"; errno_text := str "error"
|}.

Definition copying_codecs (junk : nat → byte) : Codecs := {|
  BrotliEncoder := NullEncoder junk; LZ4Encoder := NullEncoder junk; ZstdEncoder := NullEncoder junk;
  BrotliDecoder := NullDecoder; LZ4Decoder := NullDecoder; ZstdDecoder := NullDecoder
|}.

Definition sample_errno : ClientErrno := {| ENOTSUP := 95; ENOPROTOOPT := 92; io_errno := 5 |}.
Definition all_features : sync_features := Features true true true true true true true true true.

Definition regular (mode size mtime : Z) : stat := fresh_stat (Z.lor S_IFREG mode) size mtime.
Definition sample_file (data : bytes) : node := Node (regular 0x1a4 (zlen data) 7) data.
Definition sample_dir : node := Node (fresh_stat (Z.lor S_IFDIR 0x1ed) 0 5) [].
