(* ===== verification/SyncFacts.v ===== *)
(** * Facts about file synchronisation: the wire

    What the two ends agree on: the layout of messages, and that a message
    written to a connection is the message read from it. *)

From S2P Require Import Prelude State CString CStringFacts LibBase LibBaseFacts AdbIO AdbIOFacts Types TypesFacts.
From S2P Require Import Compression CompressionFacts.
From S2P Require Import Paths Errno SyncProtocol SyncService SyncClient.
Local Open Scope Z_scope.
Local Open Scope record_scope.

(** ** Fields *)

Lemma u32_at_app pre z post : u32_at (pre ++ le32 z ++ post) (length pre) = u32 z.
Proof.
  unfold u32_at. rewrite drop_app_length. replace (take 4 (le32 z ++ post)) with (le32 z) by done.
  by rewrite le32_dec_le32.
Qed.

Lemma u64_at_app pre z post : u64_at (pre ++ le64 z ++ post) (length pre) = u64 z.
Proof.
  unfold u64_at, le64. rewrite <- app_assoc, u32_at_app.
  pose proof (u32_at_app (pre ++ le32 z) (z / 2 ^ 32) post) as E. rewrite length_app in E. cbn [length le32] in E.
  rewrite <- app_assoc in E. rewrite E. unfold u32, u64. Z.div_mod_to_equations. lia.
Qed.

Lemma sync_header_fields id len :
  zlen (sync_header id len) = sizeof_header ∧ u32_at (sync_header id len) 0 = u32 id ∧ u32_at (sync_header id len) 4 = u32 len.
Proof.
  split_and!; [done|apply (u32_at_app [] id (le32 len))|].
  pose proof (u32_at_app (le32 id) len []) as E. by rewrite app_nil_r in E.
Qed.

(** ** The data of a file *)

(** The messages that carry the pieces of a file. *)
Definition wire_data (pieces : list bytes) : bytes :=
  concat ((λ d, sync_header ID_DATA (zlen d) ++ d) <$> pieces).

Definition piece_ok (d : bytes) : Prop := zlen d ≤ SYNC_DATA_MAX.
Definition piece_fits (d : bytes) : Prop := zlen d < 2 ^ 32.

Lemma pieces_fit pieces : Forall piece_ok pieces → Forall piece_fits pieces.
Proof. intros H. eapply Forall_impl; [exact H|]. intros d. unfold piece_ok, piece_fits, SYNC_DATA_MAX. lia. Qed.

Lemma wire_data_app p1 p2 : wire_data (p1 ++ p2) = wire_data p1 ++ wire_data p2.
Proof. unfold wire_data. by rewrite fmap_app, concat_app. Qed.

Lemma wire_data_cons d pieces : wire_data (d :: pieces) = sync_header ID_DATA (zlen d) ++ d ++ wire_data pieces.
Proof. unfold wire_data. cbn [fmap list_fmap concat]. by rewrite <- app_assoc. Qed.

(** ** The path and the mode of a file *)

(** A printed number has no leading zero. *)
Lemma print_u_head n ds : 0 < n → print_u n ≠ Zbyte 48 :: ds.
Proof.
  intros Hn E. destruct (print_base_spec 10 n) as (Hv & _ & _); [lia..|]. unfold print_u in E. rewrite E in Hv.
  change (Zbyte 48 :: ds) with (replicate 1 (Zbyte 48) ++ ds) in Hv. rewrite digits_val_zeros in Hv by lia. pose proof (digits_val_bound 10 ds ltac:(lia)) as Hb.
  destruct ds as [|d ds]; [cbn in Hv; lia|].
  pose proof (length_print_base_le 10 n (length (d :: ds)) ltac:(lia) ltac:(lia) ltac:(cbn; lia)) as Hl.
  rewrite E in Hl. cbn in Hl. lia.
Qed.

Lemma strtoul_0_print n : 0 < n < 2 ^ 31 → strtoul_0 (print_u n) = StrTo n [] false true.
Proof.
  intros Hn. destruct (print_base_spec 10 n) as (Hv & Hf & Hne); [lia..|]. unfold strtoul_0.
  assert (skip_space (print_u n) = print_u n) as ->.
  { rewrite <- (app_nil_r (print_u n)). by rewrite (skip_space_digits 10). }
  pose proof (print_u_head n) as Hz. unfold print_u in *. destruct (print_base 10 n) as [|b ds] eqn:E; [done|].
  assert (b ≠ Zbyte 48) as Hb by (intros ->; apply (Hz ds); [lia|done]). pose proof (Forall_inv Hf) as Hd. cbn in Hd.
  rewrite !(bool_decide_false (b = _)); [|by intros ->..]. cbn [orb].
  assert (match b :: ds with
          | z :: x :: d :: _ =>
              if bool_decide (z = Zbyte 48) then
                if (bool_decide (x = Zbyte 120) || bool_decide (x = Zbyte 88)) && is_base_digit 16 d then 16 else 8
              else 10
          | z :: _ => if bool_decide (z = Zbyte 48) then 8 else 10
          | [] => 10
          end = 10) as ->.
  { rewrite bool_decide_false by done. by destruct ds as [|? [|? ?]]. }
  rewrite <- (app_nil_r (b :: ds)). unfold strtoull. rewrite strto_scan_digits; [|by left|done|done|done|done].
  rewrite Hv. zbool. done.
Qed.

Lemma print_u_no b n : 0 ≤ n → is_base_digit 10 b = false → b ∉ print_u n.
Proof.
  intros Hn Hb Hin. destruct (print_base_spec 10 n) as (_ & Hf & _); [lia..|]. rewrite Forall_forall in Hf.
  by rewrite (Hf b Hin) in Hb.
Qed.

Lemma rfind_last s1 c s2 : c ∉ s2 → rfind_sub (s1 ++ c :: s2) [c] = Some (length s1).
Proof.
  intros Hc. apply rfind_sub_intro.
  - rewrite length_app. lia.
  - rewrite drop_app_length. unfold starts_with. by rewrite bool_decide_true.
  - intros j [Hj _]. apply not_true_is_false. intros E. apply starts_with_inv in E. apply Hc.
    replace j with (length s1 + S (j - S (length s1)))%nat in E by lia. rewrite drop_app_add in E. cbn in E.
    assert (c ∈ drop (j - S (length s1)) s2) as Hin by (rewrite E; left).
    rewrite <- (take_drop (j - S (length s1)) s2). apply elem_of_app. by right.
Qed.

(** The mode of a file that is no link. *)
Definition plain_mode (mode : Z) : Prop := 0 < mode < 2 ^ 31 ∧ S_ISLNK mode = false.

(** ** The device reads and writes *)

Section service.
Context (junk : nat → byte) `{HF : !Files, HC : !Codecs, HH : !HostErrno, HD : !Device}.
Implicit Type s : service.

Lemma wp_read_exactly s bs rest n Q :
  blocking (s_in s) → stream_data (s_in s) = bs ++ rest → n = zlen bs → zlen bs < 2 ^ 64 →
  (∀ i, blocking i → stream_data i = rest → Q (true, bs) (set_in i s)) → wp (read_exactly n) Q s.
Proof.
  intros Hb Hd -> Hl H. destruct (read_bytes (s_in s) bs rest) as (i & E & D & B); [done..|].
  unfold wp, read_exactly. rewrite E. mstep. by apply H.
Qed.

Lemma wp_read_header s id size rest Q :
  blocking (s_in s) → stream_data (s_in s) = sync_header id size ++ rest → 0 ≤ id < 2 ^ 32 → 0 ≤ size < 2 ^ 32 →
  (∀ i, blocking i → stream_data i = rest → Q (Some (id, size)) (set_in i s)) → wp read_header Q s.
Proof.
  intros Hb Hd Hi Hs H. unfold read_header. st_go. destruct (sync_header_fields id size) as (Hl & H0 & H4).
  eapply wp_read_exactly; [done|done|done|by rewrite Hl|]. intros i Bi Di. st_go. rewrite H0, H4, !u32_small by done.
  by apply H.
Qed.

Lemma wp_write_exactly s bs Q :
  accepts (s_out s) →
  (∀ o, accepts o → o_written o = o_written (s_out s) ++ bs → Q true (set_out o s)) → wp (write_exactly bs) Q s.
Proof.
  intros Ha H. destruct (write_accepts (s_out s) bs Ha) as (o & E & W & A). unfold wp, write_exactly. rewrite E. mstep.
  by apply H.
Qed.

Lemma wp_write_file s f o bs Q :
  opened s = Some (f, o) → accepts o →
  (∀ o', accepts o' → o_written o' = o_written o ++ bs → Q true (set_opened (Some (f, o')) s)) → wp (write_file bs) Q s.
Proof.
  intros Ho Ha H. destruct (write_accepts o bs Ha) as (o' & E & W & A). unfold wp, write_file. rewrite Ho, E. mstep.
  by apply H.
Qed.

(** ** The device receives a file *)

Section receive.
Context (c : Coder) (y x : bytes) (idle : coder_state c → bytes → bytes → Prop)
  (busy : coder_state c → bytes → bytes → bool → Prop) (measure : coder_state c → nat) (bound : nat)
  (HT : contract c y x idle busy measure bound).

Lemma wp_decode_loop fuel : ∀ st i o fl s f of_ Q,
  (measure st < fuel)%nat → busy st i o fl → opened s = Some (f, of_) → accepts of_ →
  (∀ r of' out, accepts of' → o_written of' = o_written of_ ++ out →
     match r with
     | DecodeFailed => False
     | DecodeDone => fl = true ∧ o ++ out = x
     | DecodeMore st' => fl = false ∧ idle st' i (o ++ out)
     end → Q r (set_opened (Some (f, of')) s)) →
  wp (decode_loop fuel c st) Q s.
Proof.
  induction fuel as [|fuel IH]; intros st i o fl s f of_ Q Hm Hb Ho Ha HQ; [lia|]. cbn [decode_loop].
  destruct (ct_code _ _ _ _ _ _ _ HT st i o fl Hb) as (r & out & st' & E & _ & Hr).
  st_go. eapply wp_lift; [exact E|]. cbv beta iota.
  destruct r; [done|..]; st_go; (eapply wp_write_file; [done..|]; intros of' Ha' Hw; cbn [negb]).
  - st_go. destruct Hr as [-> Hx]. by apply (HQ DecodeDone of' out).
  - st_go. by apply (HQ (DecodeMore st') of' out).
  - destruct Hr as [Hb' Hlt]. eapply (IH st' i (o ++ out) fl); [lia|done|done|done|].
    intros r of2 out2 Ha2 Hw2 Hr2. apply (HQ r of2 (out ++ out2)); [done| |].
    + by rewrite Hw2, Hw, app_assoc.
    + rewrite app_assoc. exact Hr2.
Qed.

Lemma wp_file_data_loop turns pieces : ∀ fuel st i o s f of_ ts mtime rest Q,
  idle st i o → i ++ concat pieces = y → Forall piece_fits pieces → (length pieces < fuel)%nat → (bound ≤ turns)%nat →
  blocking (s_in s) → stream_data (s_in s) = wire_data pieces ++ sync_header ID_DONE mtime ++ rest →
  0 ≤ mtime < 2 ^ 32 → opened s = Some (f, of_) → accepts of_ →
  (∀ i' of' out, blocking i' → stream_data i' = rest → accepts of' → o_written of' = o_written of_ ++ out →
     o ++ out = x → Q (Some mtime) (set_opened (Some (f, of')) (set_in i' s))) →
  wp (file_data_loop junk turns fuel c st ts) Q s.
Proof.
  induction pieces as [|d pieces IH]; intros fuel st i o s f of_ ts mtime rest Q Hi Hy Hp Hf Ht Hb Hd Hm Ho Ha HQ;
    (destruct fuel as [|fuel]; [cbn in Hf; lia|]); cbn [file_data_loop]; st_go.
  - rewrite app_nil_r in Hy. subst i. eapply wp_read_header; [done|exact Hd|done|done|]. intros i' Bi Di. cbv beta iota.
    rewrite Z.eqb_refl. destruct (ct_finish _ _ _ _ _ _ _ HT st o Hi) as (st' & Ef & Hbusy). st_go.
    eapply wp_lift; [exact Ef|]. st_go. eapply wp_decode_loop; [|exact Hbusy|done|done|].
    { pose proof (ct_bound _ _ _ _ _ _ _ HT _ _ _ _ Hbusy). lia. }
    intros r of' out Ha' Hw Hr. destruct r as [| |st2]; [done| |by destruct Hr]. destruct Hr as [_ Hx]. st_go.
    by eapply HQ.
  - apply Forall_cons in Hp as [Hpd Hp]. unfold piece_fits in Hpd.
    rewrite wire_data_cons, <- !app_assoc in Hd. eapply wp_read_header; [done|exact Hd|done|lia|].
    intros i' Bi Di. cbv beta iota. change (ID_DATA =? ID_DONE) with false. rewrite Z.eqb_refl. cbv iota. st_go.
    destruct (block_of_range junk d) as (b & Eb & Hw & Hc & Hsz). unfold Block.of_range in Eb.
    destruct (Block.of_size junk (zlen d)) as [b0| | |] eqn:E0; try done. cbn in Eb.
    apply (wp_lift _ b0); [done|]. st_go. eapply wp_read_exactly; [exact Bi|exact Di|done|lia|]. intros i2 Bi2 Di2.
    cbv beta iota. cbn [negb]. st_go. eapply wp_lift; [exact Eb|]. st_go.
    assert (busy (Append c b st) (i ++ d) o false) as Hbusy.
    { rewrite <- Hc. eapply (ct_append _ _ _ _ _ _ _ HT); [done|done| |].
      - lia.
      - rewrite Hc. exists (concat pieces). rewrite <- Hy. cbn. by rewrite app_assoc. }
    eapply wp_decode_loop; [|exact Hbusy|done|done|].
    { pose proof (ct_bound _ _ _ _ _ _ _ HT _ _ _ _ Hbusy). lia. }
    intros r of' out Ha' Hw' Hr. destruct r as [| |st2]; [done|by destruct Hr|]. destruct Hr as [_ Hidle].
    eapply (IH fuel st2 (i ++ d) (o ++ out)); [done| |done|cbn in Hf; lia|done|exact Bi2|exact Di2|done|done|done|].
    { rewrite <- app_assoc. exact Hy. }
    intros i3 of3 out3 Bi3 Di3 Ha3 Hw3 Hx. eapply (HQ i3 of3 (out ++ out3)); [done|done|done| |].
    + by rewrite Hw3, Hw', app_assoc.
    + by rewrite app_assoc.
Qed.
End receive.

(** ** The device stores a file *)

Definition restored (path : bytes) (g : fs) : fs := if android then path_restorecon path g else g.

Definition with_caps (path : bytes) (capabilities : Z) (g : fs) : option Z * fs :=
  if android then
    if capabilities =? 0 then (None, path_removexattr path g) else path_setxattr path capabilities g
  else (None, g).

(** What storing a file means: it is created, given to its owner, written,
    closed, and given its capabilities and its time. *)
Definition store_file (path : bytes) (uid gid mode capabilities mtime : Z) (data : bytes) (g : fs) : option fs :=
  match path_create O_EXCL path mode g with
  | (inr (f, o), g) =>
      match file_chown f uid gid g with
      | (None, g) =>
          match with_caps path capabilities (file_close f (o_written o ++ data) (file_chmod f mode (restored path g))) with
          | (None, g) => Some (path_lutimes path mtime g)
          | _ => None
          end
      | _ => None
      end
  | _ => None
  end.

(** The owner, the mode and the capabilities of a file that is pushed with [mode]. *)
Definition attributes (path : bytes) (mode : Z) : Z * Z * Z * Z :=
  if should_use_fs_config path then adbd_fs_config path false (file_mode mode) else (-1, -1, file_mode mode, 0).

(** A file that is pushed replaces a file or a link of that name. *)
Definition make_room (path : bytes) (mode : Z) (g : fs) : fs :=
  if match path_lstat g path with
     | inl _ => true
     | inr st => S_ISREG (st_mode st) || (S_ISLNK (st_mode st) && negb (S_ISLNK mode))
     end then path_unlink path g else g.

Definition push_file (path : bytes) (mode mtime : Z) (data : bytes) (g : fs) : option fs :=
  let '(uid, gid, mode', capabilities) := attributes path mode in
  store_file path uid gid mode' capabilities mtime data (make_room path mode g).

(** The disk takes what is written to a new file. *)
Definition disk_ok : Prop := ∀ how path mode g f o g', path_create how path mode g = (inr (f, o), g') → accepts o.

Lemma wp_on_files {A} (f : fs → A * fs) r g s Q :
  f (files s) = (r, g) → Q r (set_files g s) → wp (on_files f) Q s.
Proof. intros E H. unfold wp, on_files. by rewrite E. Qed.

Lemma wp_update_capabilities path caps r g s Q :
  with_caps path caps (files s) = (r, g) → Q r (set_files g s) → wp (update_capabilities path caps) Q s.
Proof.
  unfold with_caps, update_capabilities. destruct android.
  - destruct (caps =? 0).
    + intros [= <- <-] H. st_go. eapply wp_on_files; [done|]. by st_go.
    + intros E H. by eapply wp_on_files.
  - intros [= <- <-] H. st_go. by destruct s.
Qed.

Lemma wp_open_file path mode f o g s Q :
  path_create O_EXCL path mode (files s) = (inr (f, o), g) →
  Q None (set_opened (Some (f, o)) (set_files g s)) → wp (open_file path mode) Q s.
Proof. intros E H. unfold open_file. st_go. unfold wp at 1. rewrite E. by st_go. Qed.

Lemma wp_own_file path uid gid mode f o g s Q :
  opened s = Some (f, o) → file_chown f uid gid (files s) = (None, g) →
  Q true (set_files (file_chmod f mode (restored path g)) s) → wp (own_file path uid gid mode) Q s.
Proof.
  intros Ho E H. unfold own_file. st_go. rewrite Ho. st_go. eapply wp_on_files; [exact E|]. st_go.
  revert H. unfold restored. destruct android; intros H; st_go.
  - eapply wp_on_files; [done|]. st_go. eapply wp_on_files; [done|]. by st_go.
  - eapply wp_on_files; [done|]. by st_go.
Qed.

Lemma wp_close_file s f o Q :
  opened s = Some (f, o) → Q tt (set_opened None (set_files (file_close f (o_written o) (files s)) s)) →
  wp close_file Q s.
Proof. intros E H. unfold wp, close_file. by rewrite E. Qed.

(** ** Requests *)

(** The paths a request takes. *)
Definition path_ok (path : bytes) : Prop := (NUL ∉ path) ∧ zlen path ≤ 1024.

Lemma wp_command turns s id name bytes_after Q :
  blocking (s_in s) → stream_data (s_in s) = sync_header id (zlen name) ++ name ++ bytes_after → 0 ≤ id < 2 ^ 32 →
  path_ok name →
  (∀ i, blocking i → stream_data i = bytes_after →
     wp (if id =? ID_LSTAT_V1 then do_lstat_v1 name
         else if (id =? ID_LSTAT_V2) || (id =? ID_STAT_V2) then do_stat_v2 id name
         else if id =? ID_LIST_V1 then do_list false name
         else if id =? ID_LIST_V2 then do_list true name
         else if id =? ID_SEND_V1 then do_send_v1 junk turns name
         else if id =? ID_SEND_V2 then do_send_v2 junk turns name
         else if id =? ID_RECV_V1 then recv_impl junk turns name CompressNone
         else if id =? ID_RECV_V2 then do_recv_v2 junk turns name
         else if id =? ID_QUIT then mret false
         else _ ← SendSyncFail (str "unknown command " ++ print_0x 8 id); mret false) Q (set_in i s)) →
  wp (handle_sync_command junk turns) Q s.
Proof.
  intros Hb Hd Hid [Hn Hl] HQ. unfold handle_sync_command. st_go.
  eapply wp_read_header; [done|exact Hd|done|lia|]. intros i Bi Di. cbv beta iota.
  rewrite (proj2 (Z.ltb_ge _ _)) by lia. st_go. eapply wp_read_exactly; [exact Bi|exact Di|done|lia|].
  intros i2 Bi2 Di2. cbv beta iota. cbn [negb]. rewrite c_str_id by done. by apply HQ.
Qed.

Lemma flags_understood compression flags known :
  compression_flag compression = Ret flags → known = 0 ∨ known = kSyncFlagDryRun →
  compression_of_flags flags known = inr compression ∧ u32 flags = flags ∧ Z.land flags kSyncFlagDryRun = 0.
Proof. destruct compression; intros Hf [-> | ->]; try discriminate Hf; injection Hf as <-; done. Qed.

Lemma send_v2_fields mode flags :
  zlen (send_v2_bytes mode flags) = sizeof_send_v2 ∧ u32_at (send_v2_bytes mode flags) 4 = u32 mode ∧
  u32_at (send_v2_bytes mode flags) 8 = u32 flags.
Proof.
  unfold send_v2_bytes. split_and!; [done|apply (u32_at_app (le32 ID_SEND_V2) mode (le32 flags))|].
  pose proof (u32_at_app (le32 ID_SEND_V2 ++ le32 mode) flags []) as E. by rewrite app_nil_r, <- app_assoc in E.
Qed.

Section push.
Context (compression : CompressionType) (dec : Coder) (y data : bytes) (pieces : list bytes) (mtime : Z) (rest : bytes)
  (idle : coder_state dec → bytes → bytes → Prop) (busy : coder_state dec → bytes → bytes → bool → Prop)
  (measure : coder_state dec → nat) (bound turns : nat).
Context (Hdec : decoder_of compression = Ret dec) (HT : contract dec y data idle busy measure bound)
  (Hy : concat pieces = y) (Hp : Forall piece_fits pieces) (Hm : 0 ≤ mtime < 2 ^ 32) (Hdisk : disk_ok)
  (Hturns : (length pieces < turns)%nat ∧ (bound ≤ turns)%nat).

(** What the device has still to read. *)
Definition incoming s : Prop :=
  blocking (s_in s) ∧ stream_data (s_in s) = wire_data pieces ++ sync_header ID_DONE mtime ++ rest.

Lemma wp_handle_send_file_data s f o Q :
  incoming s → opened s = Some (f, o) → accepts o →
  (∀ i, blocking i → stream_data i = rest →
     Q (Some mtime) (set_opened None (set_files (file_close f (o_written o ++ data) (files s)) (set_in i s)))) →
  wp (handle_send_file_data junk turns compression) Q s.
Proof.
  intros [Hb Hd] Ho Ha HQ. unfold handle_send_file_data. st_go. eapply wp_lift; [exact Hdec|]. st_go.
  destruct Hturns as [Ht1 Ht2].
  eapply (wp_file_data_loop dec y data idle busy measure bound HT turns pieces turns _ [] []); try done.
  { apply (ct_init _ _ _ _ _ _ _ HT). }
  intros i' of' out Bi Di Ha' Hw Hx. cbn [app] in Hx. subst out. st_go. eapply wp_close_file; [done|]. st_go. rewrite Hw. by apply HQ.
Qed.

Lemma wp_handle_send_file path uid gid mode caps do_unlink g s Q :
  incoming s → accepts (s_out s) → store_file path uid gid mode caps mtime data (files s) = Some (path_lutimes path mtime g) →
  (∀ i o g', blocking i → stream_data i = rest → accepts o → o_written o = o_written (s_out s) ++ sync_header ID_OKAY 0 →
     store_file path uid gid mode caps mtime data (files s) = Some (path_lutimes path mtime g') →
     Q (Some mtime) (Service i o g' None (buffer s))) →
  wp (handle_send_file junk turns path uid gid caps mode compression false do_unlink) Q s.
Proof.
  intros Hin Ha Hs HQ. unfold handle_send_file. st_go. pose proof Hs as Hs'. unfold store_file in Hs.
  destruct (path_create O_EXCL path mode (files s)) as [[e|[f o]] g1] eqn:Ec; [done|].
  destruct (file_chown f uid gid g1) as [[e|] g2] eqn:Eo; [done|].
  destruct (with_caps path caps _) as [[e|] g3] eqn:Ecap; [done|]. 
  eapply wp_open_file; [exact Ec|]. eapply wp_own_file; [done|exact Eo|]. cbn [negb]. st_go.
  eapply wp_handle_send_file_data; [exact Hin|done|by eapply Hdisk|]. intros i Bi Di. st_go.
  eapply wp_update_capabilities; [exact Ecap|]. cbv beta iota. st_go. eapply wp_write_exactly; [exact Ha|]. intros o' Ha' Hw. st_go.
  apply (HQ i o' g3); try done. unfold store_file. by rewrite Ec, Eo, Ecap.
Qed.

Lemma store_file_time path uid gid mode caps g g' :
  store_file path uid gid mode caps mtime data g = Some g' → ∃ g0, g' = path_lutimes path mtime g0.
Proof.
  unfold store_file. destruct (path_create _ _ _ _) as [[e|[f o]] g1]; [done|].
  destruct (file_chown _ _ _ _) as [[e|] g2]; [done|]. destruct (with_caps _ _ _) as [[e|] g3]; [done|]. intros [= <-]. eauto.
Qed.

Lemma wp_send_impl path mode g' s Q :
  incoming s → accepts (s_out s) → S_ISLNK mode = false → push_file path mode mtime data (files s) = Some g' →
  (∀ i o, blocking i → stream_data i = rest → accepts o → o_written o = o_written (s_out s) ++ sync_header ID_OKAY 0 →
     Q true (Service i o g' None (buffer s))) →
  wp (send_impl junk turns path mode compression false) Q s.
Proof.
  intros [Hb Hd] Ha Hl Hpush HQ. unfold send_impl. st_go. rewrite Hl. cbn [negb andb].
  apply wp_mono with (Q := λ _ s', s' = set_files (make_room path mode (files s)) s).
  { unfold make_room. rewrite Hl. cbn [negb]. destruct (match path_lstat _ _ with inl _ => _ | inr _ => _ end).
    - by eapply wp_on_files.
    - st_go. by destruct s. }
  intros _ s' ->. unfold push_file in Hpush. unfold attributes in Hpush. st_go.
  destruct (if should_use_fs_config path then _ else _) as [[[uid gid] mode'] caps].
  pose proof (store_file_time _ _ _ _ _ _ _ Hpush) as [g0 ->]. 
  eapply wp_handle_send_file; [by split|done|exact Hpush|]. intros i o g1 Bi Di Ao Hw Hst. cbn [files set_files] in Hst.
  rewrite Hpush in Hst. injection Hst as Hst. cbv beta iota. st_go. eapply wp_on_files; [done|]. st_go. rewrite Hst in HQ. by apply (HQ i o).
Qed.

Lemma wp_receive_v1 s path mode g' Q :
  compression = CompressNone → NUL ∉ path → zlen (path_and_mode path mode) ≤ 1024 → plain_mode mode →
  blocking (s_in s) → accepts (s_out s) →
  stream_data (s_in s) = sync_header ID_SEND_V1 (zlen (path_and_mode path mode)) ++ path_and_mode path mode ++
    wire_data pieces ++ sync_header ID_DONE mtime ++ rest →
  push_file path mode mtime data (files s) = Some g' →
  (∀ i o, blocking i → stream_data i = rest → accepts o → o_written o = o_written (s_out s) ++ sync_header ID_OKAY 0 →
     Q true (Service i o g' None (buffer s))) →
  wp (handle_sync_command junk turns) Q s.
Proof.
  intros Hnone Hn Hl [Hm1 Hm2] Hb Ha Hd Hpush HQ.
  assert (path_and_mode path mode = path ++ comma :: print_u mode) as Hpm.
  { unfold path_and_mode. rewrite c_str_id, s32_small by (done || lia). unfold print_d. by rewrite (proj2 (Z.ltb_ge _ _)) by lia. }
  eapply wp_command; [done|exact Hd|done| |].
  { split; [|done]. rewrite Hpm. rewrite elem_of_app, elem_of_cons. intros [?|[?|Hin]]; [done|done|].
    by eapply print_u_no in Hin; [|lia|]. }
  intros i Bi Di. change (wp (do_send_v1 junk turns (path_and_mode path mode)) Q (set_in i s)). unfold do_send_v1.
  assert (comma ∉ print_u mode) as Hc by (apply print_u_no; [lia|done]).
  rewrite Hpm, rfind_last by done. rewrite take_app_length.
  assert (drop (S (length path)) (path ++ comma :: print_u mode) = print_u mode) as ->.
  { change (comma :: print_u mode) with ([comma] ++ print_u mode).
    by rewrite app_assoc, drop_app_length' by (rewrite length_app; cbn; lia). }
  rewrite c_str_id by (apply print_u_no; [lia|done]). rewrite strtoul_0_print by lia. cbn [st_range st_val].
  rewrite u32_small by lia. rewrite <- Hnone. eapply wp_send_impl; [by split|exact Ha|done|exact Hpush|]. exact HQ.
Qed.

Lemma wp_receive_v2 s path mode flags g' Q :
  compression_flag compression = Ret flags → path_ok path → plain_mode mode → blocking (s_in s) → accepts (s_out s) →
  stream_data (s_in s) = sync_header ID_SEND_V2 (zlen path) ++ path ++ send_v2_bytes mode flags ++
    wire_data pieces ++ sync_header ID_DONE mtime ++ rest →
  push_file path mode mtime data (files s) = Some g' →
  (∀ i o, blocking i → stream_data i = rest → accepts o → o_written o = o_written (s_out s) ++ sync_header ID_OKAY 0 →
     Q true (Service i o g' None (buffer s))) →
  wp (handle_sync_command junk turns) Q s.
Proof.
  intros Hfl Hpath [Hm1 Hm2] Hb Ha Hd Hpush HQ. eapply wp_command; [done|exact Hd|done|done|]. intros i Bi Di.
  change (wp (do_send_v2 junk turns path) Q (set_in i s)). unfold do_send_v2. st_go.
  destruct (send_v2_fields mode flags) as (Hl & H4 & H8).
  eapply wp_read_exactly; [exact Bi|exact Di|done|by rewrite Hl|]. intros i2 Bi2 Di2. cbv beta iota. cbn [negb].
  destruct (flags_understood _ flags kSyncFlagDryRun Hfl ltac:(by right)) as (Hc & Hfl1 & Hfl2).
  rewrite H4, H8, Hfl1, u32_small by lia. rewrite Hc, Hfl2. cbn [Z.eqb negb].
  eapply wp_send_impl; [by split|exact Ha|done|exact Hpush|]. exact HQ.
Qed.
End push.
End service.

(** ** The client sends a file *)

(** A local file with the contents [d], in the pieces in which it is read. *)
Definition file_stream (i : instream) (d : bytes) : Prop :=
  ∃ pieces, i = Data <$> pieces ∧ Forall (λ b, b ≠ []) pieces ∧ concat pieces = d.

Lemma file_stream_read i d n :
  file_stream i d → 0 < n ≤ MAX_RW_COUNT →
  ∃ bs i' d', adb_read i n = (ReadBytes bs, i') ∧ zlen bs ≤ n ∧ d = bs ++ d' ∧ file_stream i' d' ∧ (bs = [] → d = []).
Proof.
  intros (pieces & -> & Hp & <-) Hn. destruct pieces as [|p pieces]; cbn.
  { exists [], [], []. split_and!; [done|cbn; lia|done|by exists []|done]. }
  apply Forall_cons in Hp as [Hne Hp]. rewrite Z.min_l by lia. exists (ztake n p). destruct (Z.ltb_spec n (zlen p)).
  - exists (Data <$> (zdrop n p :: pieces)), (concat (zdrop n p :: pieces)). split_and!; [done| | | |].
    + rewrite zlen_ztake; lia.
    + cbn. by rewrite app_assoc, ztake_zdrop.
    + exists (zdrop n p :: pieces). split_and!; [done| |done]. constructor; [|done]. intros E.
      pose proof (f_equal length E) as El. cbn in El. pose proof (zlen_zdrop n p ltac:(lia)). lia.
    + intros E. pose proof (zlen_ztake n p ltac:(lia)) as El. rewrite E in El. cbn in El. lia.
  - exists (Data <$> pieces), (concat pieces). rewrite ztake_all by lia. split_and!; [done|done|done|by exists pieces|done].
Qed.

Section client.
Context (junk : nat → byte) `{HF : !Files, HC : !Codecs, HH : !HostErrno, HE : !ClientErrno} (features : sync_features).
Implicit Type c : sync_conn.

(** [c'] is [c] after [bs] were written to the connection, up to the ledgers. *)
Record advances c c' (bs : bytes) : Prop := {
  ad_out : accepts (c_out c') ∧ o_written (c_out c') = o_written (c_out c) ++ bs;
  ad_in : c_in c' = c_in c ∧ polls c' = polls c;
  ad_local : local c' = local c ∧ downloaded c' = downloaded c;
  ad_acks : deferred_acknowledgements_ c' = deferred_acknowledgements_ c ∧
    acknowledgement_buffer_ c' = acknowledgement_buffer_ c;
  ad_errors : errors c' = errors c
}.

Lemma advances_refl c : accepts (c_out c) → advances c c [].
Proof. intros H. split; [by rewrite app_nil_r|done..]. Qed.

Lemma advances_trans c1 c2 c3 b1 b2 : advances c1 c2 b1 → advances c2 c3 b2 → advances c1 c3 (b1 ++ b2).
Proof.
  intros [[_ O1] [I1 P1] [L1 W1] [A1 B1] E1] [[A O2] [I2 P2] [L2 W2] [A2 B2] E2].
  split; [split; [done|by rewrite O2, O1, app_assoc]|split; congruence..|congruence].
Qed.

Lemma wp_conn_write c bs Q :
  accepts (c_out c) → (∀ c', advances c c' bs → Q true c') → wp (conn_write bs) Q c.
Proof.
  intros Ha H. destruct (write_accepts (c_out c) bs Ha) as (o & E & W & A). unfold wp, conn_write. rewrite E. mstep.
  apply H. by destruct c.
Qed.

Lemma wp_write_or_die c bs Q :
  accepts (c_out c) → (∀ c', advances c c' bs → Q tt c') → wp (WriteOrDie bs) Q c.
Proof. intros Ha H. unfold WriteOrDie. st_go. apply wp_conn_write; [done|]. intros c' Hc. cbv beta iota. st_go. by apply H. Qed.

Lemma wp_record_bytes c n Q : accepts (c_out c) → (∀ c', advances c c' [] → Q tt c') → wp (RecordBytesTransferred n) Q c.
Proof. intros Ha H. unfold RecordBytesTransferred. st_go. apply H. destruct c. split; try done. cbn. by rewrite app_nil_r. Qed.

Section send.
Context (enc : Coder) (x y : bytes) (idle : coder_state enc → bytes → bytes → Prop)
  (busy : coder_state enc → bytes → bytes → bool → Prop) (measure : coder_state enc → nat) (bound : nat)
  (HT : contract enc x y idle busy measure bound).

Lemma wp_send_encoded fuel : ∀ st i o fl c Q,
  (measure st < fuel)%nat → busy st i o fl → accepts (c_out c) →
  (∀ r c' pieces, advances c c' (wire_data pieces) → Forall piece_ok pieces →
     match r with
     | EncodeFailed => False
     | EncodeDone => fl = true ∧ o ++ concat pieces = y
     | EncodeMore st' => fl = false ∧ idle st' i (o ++ concat pieces)
     end → Q r c') →
  wp (send_encoded fuel enc st) Q c.
Proof.
  induction fuel as [|fuel IH]; intros st i o fl c Q Hm Hb Ha HQ; [lia|]. cbn [send_encoded].
  destruct (ct_code _ _ _ _ _ _ _ HT st i o fl Hb) as (r & out & st' & E & Hl & Hr).
  st_go. eapply wp_lift; [exact E|]. cbv beta iota.
  assert (∀ Q', (∀ c', advances c c' (wire_data (if bool_decide (out = []) then [] else [out])) → Q' tt c') →
    wp (if bool_decide (out = []) then mret tt else WriteOrDie (sync_header ID_DATA (zlen out) ++ out)) Q' c) as Hw.
  { intros Q' H'. case_bool_decide; [st_go; by apply H', advances_refl|]. apply wp_write_or_die; [done|]. intros c' Hc.
    apply H'. rewrite wire_data_cons. unfold wire_data. cbn. by rewrite app_nil_r. }
  assert (Forall piece_ok (if bool_decide (out = []) then [] else [out])) as Hok.
  { case_bool_decide; repeat constructor; done. }
  assert (concat (if bool_decide (out = []) then [] else [out]) = out) as Hcat.
  { case_bool_decide; [by subst|]. cbn. by rewrite app_nil_r. }
  revert Hw Hok Hcat. generalize (if bool_decide (out = []) then [] else [out]). intros ps Hw Hok Hcat.
  destruct r; [done|..]; st_go; (apply Hw; intros c' Hc).
  - st_go. apply (HQ EncodeDone c' ps); [done..|]. rewrite Hcat. done.
  - st_go. apply (HQ (EncodeMore st') c' ps); [done..|]. rewrite Hcat. done.
  - destruct Hr as [Hb' Hlt]. eapply (IH st' i (o ++ out) fl); [lia|done|apply Hc|].
    intros r c2 ps2 Hc2 Hok2 Hr2. apply (HQ r c2 (ps ++ ps2)).
    + rewrite wire_data_app. by eapply advances_trans.
    + by apply Forall_app.
    + rewrite concat_app, Hcat, app_assoc. exact Hr2.
Qed.

Lemma wp_send_loop turns lpath fuel : ∀ st i o lfd d c Q,
  idle st i o → i ++ d = x → file_stream lfd d → (length d < fuel)%nat → (bound ≤ turns)%nat → accepts (c_out c) →
  (∀ c' pieces, advances c c' (wire_data pieces) → Forall piece_ok pieces → o ++ concat pieces = y → Q true c') →
  wp (send_loop junk turns fuel lpath enc st lfd) Q c.
Proof.
  induction fuel as [|fuel IH]; intros st i o lfd d c Q Hi Hx Hs Hf Ht Ha HQ; [lia|]. cbn [send_loop]. st_go.
  destruct (file_stream_read lfd d SYNC_DATA_MAX Hs ltac:(done)) as (bs & lfd' & d' & Er & Hl & Hd & Hs' & Hnil). rewrite Er.
  destruct (bool_decide (bs = [])) eqn:Ebs.
  - apply bool_decide_eq_true in Ebs as ->. assert (d = []) as -> by auto. rewrite app_nil_r in Hx. subst i.
    destruct (Block.of_size junk SYNC_DATA_MAX) as [b| | |] eqn:Eb; try done. apply (wp_lift _ b); [done|]. st_go.
    destruct (ct_finish _ _ _ _ _ _ _ HT st o Hi) as (st' & Ef & Hbusy). eapply wp_lift; [exact Ef|]. st_go.
    eapply wp_send_encoded; [|exact Hbusy|done|].
    { pose proof (ct_bound _ _ _ _ _ _ _ HT _ _ _ _ Hbusy). lia. }
    intros r c' pieces Hc Hok Hr. destruct r as [| |st2]; [done| |by destruct Hr]. st_go. by apply (HQ c' pieces); [..|apply Hr].
  - apply bool_decide_eq_false in Ebs.
    destruct (input_block junk SYNC_DATA_MAX bs ltac:(done) Ebs Hl) as (b & b1 & b2 & -> & E1 & E2 & Hw & Hc & Hsz).
    apply (wp_lift _ b); [done|]. st_go. eapply wp_lift; [exact E1|]. st_go. eapply wp_lift; [exact E2|]. st_go.
    apply wp_record_bytes; [done|]. intros c1 H1. st_go.
    assert (busy (Append enc b2 st) (i ++ bs) o false) as Hbusy.
    { rewrite <- Hc. eapply (ct_append _ _ _ _ _ _ _ HT); [done|done| |].
      - unfold SYNC_DATA_MAX in Hl. lia.
      - rewrite Hc. exists d'. by rewrite <- Hx, Hd, app_assoc. }
    eapply wp_send_encoded; [|exact Hbusy|apply H1|].
    { pose proof (ct_bound _ _ _ _ _ _ _ HT _ _ _ _ Hbusy). lia. }
    intros r c2 ps H2 Hok Hr. destruct r as [| |st2]; [done|by destruct Hr|]. destruct Hr as [_ Hidle].
    eapply (IH st2 (i ++ bs) (o ++ concat ps) lfd' d'); [done| |done| |done|apply H2|].
    { by rewrite <- app_assoc, <- Hd. }
    { rewrite Hd, length_app in Hf. destruct bs; [done|]. cbn in Hf. lia. }
    intros c3 ps3 H3 Hok3 Hy. apply (HQ c3 (ps ++ ps3)).
    + rewrite wire_data_app. eapply advances_trans; [|exact H3]. pose proof (advances_trans _ _ _ _ _ H1 H2) as H. exact H.
    + by apply Forall_app.
    + by rewrite concat_app, app_assoc.
Qed.
End send.

Definition with_ack c (from to : bytes) : list (bytes * bytes) := deferred_acknowledgements_ c ++ [(from, to)].

(** [c'] is [c] after the file was sent in [bs]. *)
Record sends c c' (lpath rpath bs : bytes) : Prop := {
  se_out : accepts (c_out c') ∧ o_written (c_out c') = o_written (c_out c) ++ bs;
  se_in : c_in c' = c_in c ∧ polls c' = polls c;
  se_local : local c' = local c ∧ downloaded c' = downloaded c;
  se_acks : deferred_acknowledgements_ c' = with_ack c lpath rpath ∧ acknowledgement_buffer_ c' = acknowledgement_buffer_ c;
  se_errors : errors c' = errors c
}.

Lemma advances_sends c1 c2 c3 b1 b2 lpath rpath :
  advances c1 c2 b1 → sends c2 c3 lpath rpath b2 → sends c1 c3 lpath rpath (b1 ++ b2).
Proof.
  intros [[_ O1] [I1 P1] [L1 W1] [A1 B1] E1] [[A O2] [I2 P2] [L2 W2] [A2 B2] E2]. unfold with_ack in *.
  split; [split; [done|by rewrite O2, O1, app_assoc]|split; congruence|split; congruence|unfold with_ack; split; congruence|congruence].
Qed.

Lemma sends_advances c1 c2 c3 bs lpath rpath :
  sends c1 c2 lpath rpath bs → advances c2 c3 [] → sends c1 c3 lpath rpath bs.
Proof.
  intros [[_ O1] [I1 P1] [L1 W1] [A1 B1] E1] [[A O2] [I2 P2] [L2 W2] [A2 B2] E2]. rewrite app_nil_r in O2.
  split; [split; [done|congruence]|split; congruence..|congruence].
Qed.

Lemma wp_record_sent c lpath rpath Q :
  accepts (c_out c) → (∀ c', sends c c' lpath rpath [] → Q tt c') → wp (RecordFileSent lpath rpath) Q c.
Proof.
  intros Ha H. unfold RecordFileSent, RecordFilesTransferred. st_go. apply H. destruct c. split; try done. cbn.
  by rewrite app_nil_r.
Qed.

Lemma wp_send_done c lpath rpath mtime Q :
  accepts (c_out c) → (∀ c', sends c c' lpath rpath (sync_header ID_DONE mtime) → Q true c') →
  wp (send_done lpath rpath mtime) Q c.
Proof.
  intros Ha H. unfold send_done. st_go. apply wp_record_sent; [done|]. intros c1 [[A1 O1] [I1 P1] [L1 W1] [K1 B1] E1]. st_go.
  apply wp_write_or_die; [done|]. intros c2 [[A2 O2] [I2 P2] [L2 W2] [K2 B2] E2]. st_go. apply H.
  split; [split; [done|by rewrite O2, O1, app_nil_r]|split; congruence|split; congruence|split; congruence|congruence].
Qed.

(** A local file that can be read. *)
Record readable (g : fs) (lpath : bytes) (st : stat) (lfd : instream) (data : bytes) : Prop := {
  rd_stat : path_stat g lpath = inr st;
  rd_open : path_open g lpath = inr lfd;
  rd_data : file_stream lfd data;
  rd_size : st_size st = zlen data
}.

Lemma wp_open_local c lpath st lfd data Q :
  readable (local c) lpath st lfd data → Q (Some lfd) c → wp (open_local lpath) Q c.
Proof. intros [E1 E2 _ _] H. unfold open_local. st_go. rewrite E1, E2. by st_go. Qed.

Lemma wp_legacy_loop fuel lpath : ∀ lfd d c Q,
  file_stream lfd d → (length d < fuel)%nat → accepts (c_out c) →
  (∀ c' pieces, advances c c' (wire_data pieces) → Forall piece_ok pieces → concat pieces = d → Q true c') →
  wp (legacy_loop fuel lpath lfd) Q c.
Proof.
  induction fuel as [|fuel IH]; intros lfd d c Q Hs Hf Ha HQ; [lia|]. cbn [legacy_loop].
  destruct (file_stream_read lfd d SYNC_DATA_MAX Hs ltac:(done)) as (bs & lfd' & d' & Er & Hl & Hd & Hs' & Hnil). rewrite Er.
  destruct bs as [|b bs].
  { st_go. apply (HQ c []); [by apply advances_refl|done|]. by rewrite Hnil. }
  remember (b :: bs) as p eqn:Ep. st_go. apply wp_write_or_die; [done|]. intros c1 H1. st_go.
  apply wp_record_bytes; [apply H1|]. intros c2 H2. st_go. eapply (IH lfd' d'); [done| |apply H2|].
  { rewrite Hd, length_app in Hf. subst p. cbn in Hf. lia. }
  intros c3 ps H3 Hok Hc. apply (HQ c3 (p :: ps)).
  - rewrite wire_data_cons, app_assoc. eapply advances_trans; [|exact H3].
    pose proof (advances_trans _ _ _ _ _ H1 H2) as H. by rewrite app_nil_r in H.
  - by constructor.
  - cbn. by rewrite Hc, <- Hd.
Qed.
End client.
