(* ===== verification/SyncPush.v ===== *)
(** * Pushing a file

    What [SyncConnection::SendSmallFile], [SendLargeFile] and
    [SendLargeFileLegacy] write, the device's [handle_sync_command] stores; and
    the acknowledgements the client then reads. *)

From S2P Require Import Prelude State CString CStringFacts LibBase LibBaseFacts AdbIO AdbIOFacts Types TypesFacts.
From S2P Require Import Compression CompressionFacts Paths Errno SyncProtocol SyncService SyncClient SyncSample SyncFacts.
Local Open Scope Z_scope.
Local Open Scope record_scope.

Section push.
Context (junk : nat → byte) `{HF : !Files, HC : !Codecs, HH : !HostErrno, HE : !ClientErrno} (features : sync_features).
Implicit Type c : sync_conn.

(** ** What the client writes *)

Lemma wp_send_request c id path Q :
  zlen path ≤ 1024 → accepts (c_out c) → (∀ c', advances c c' (sync_header id (zlen path) ++ path) → Q None c') →
  wp (SendRequest id path) Q c.
Proof.
  intros Hl Ha H. unfold SendRequest. rewrite (proj2 (Z.ltb_ge _ _)) by lia. st_go. apply wp_conn_write; [done|].
  intros c' Hc. cbv beta iota. st_go. by apply H.
Qed.

(** A file in the first version of the request, and in the second one. *)
Definition v1_bytes (path : bytes) (mode mtime : Z) (pieces : list bytes) : bytes :=
  sync_header ID_SEND_V1 (zlen (path_and_mode path mode)) ++ path_and_mode path mode ++ wire_data pieces ++ sync_header ID_DONE mtime.
Definition v2_bytes (path : bytes) (mode flags mtime : Z) (pieces : list bytes) : bytes :=
  sync_header ID_SEND_V2 (zlen path) ++ path ++ send_v2_bytes mode flags ++ wire_data pieces ++ sync_header ID_DONE mtime.

(** The bytes that carry a file, for a device that has the decoders. *)
Inductive carries (path : bytes) (mode mtime : Z) (data : bytes) : bytes → Prop :=
| carries_v1 pieces :
    Forall piece_ok pieces → concat pieces = data → carries path mode mtime data (v1_bytes path mode mtime pieces)
| carries_v2 compression dec flags pieces :
    compression_flag compression = Ret flags → decoder_of compression = Ret dec →
    Forall piece_ok pieces → transforms dec (concat pieces) data →
    carries path mode mtime data (v2_bytes path mode flags mtime pieces).

Section file.
Context (path : bytes) (mode : Z) (lpath rpath : bytes) (mtime : Z) (st : stat) (lfd : instream) (data : bytes).
Context (Hpath : zlen (path_and_mode path mode) ≤ 1024).

Lemma wp_send_legacy turns c Q :
  readable (local c) lpath st lfd data → accepts (c_out c) → (length data < turns)%nat →
  (∀ c' bs, sends c c' lpath rpath bs → carries path mode mtime data bs → Q true c') →
  wp (SendLargeFileLegacy turns path mode lpath rpath mtime) Q c.
Proof.
  intros Hr Ha Ht HQ. unfold SendLargeFileLegacy. st_go. apply wp_send_request; [done..|]. intros c1 H1. cbv beta iota. st_go.
  eapply wp_open_local.
  { rewrite (proj1 (ad_local _ _ _ H1)). exact Hr. }
  cbv beta iota. st_go. eapply wp_legacy_loop; [apply Hr|done|apply H1|]. intros c2 pieces H2 Hok Hc. cbn [negb].
  apply wp_send_done; [apply H2|]. intros c3 H3. eapply (HQ c3 (v1_bytes path mode mtime pieces)).
  - unfold v1_bytes. rewrite (app_assoc (sync_header _ _)). eapply advances_sends; [exact H1|]. by eapply advances_sends.
  - by apply carries_v1.
Qed.

Lemma wp_send_small turns c Q :
  accepts (c_out c) → zlen data ≤ SYNC_DATA_MAX →
  (∀ c' bs, sends c c' lpath rpath bs → carries path mode mtime data bs → Q true c') →
  wp (SendSmallFile junk features turns path mode lpath rpath mtime data false) Q c.
Proof.
  intros Ha Hl HQ. unfold SendSmallFile. rewrite (proj2 (Z.ltb_ge _ _)) by lia. st_go. apply wp_write_or_die; [done|].
  intros c1 H1. st_go. apply wp_record_sent; [apply H1|]. intros c2 H2. st_go. apply wp_record_bytes; [apply H2|].
  intros c3 H3. st_go. eapply (HQ c3 (v1_bytes path mode mtime [data])).
  - eapply sends_advances; [|exact H3]. pose proof (advances_sends _ _ _ _ _ _ _ H1 H2) as H. revert H.
    unfold v1_bytes. rewrite wire_data_cons, (app_nil_r (_ ++ _)). unfold wire_data at 1. cbn [concat fmap list_fmap app]. by rewrite <- !app_assoc.
  - apply carries_v1; [by repeat constructor|]. cbn. by rewrite app_nil_r.
Qed.

Lemma wp_send_v2 any compression flags enc dec y idle busy measure bound turns c Q :
  zlen path ≤ 1024 → compression_flag compression = Ret flags → encoder_of junk compression = Ret enc →
  decoder_of compression = Ret dec → contract enc data y idle busy measure bound → transforms dec y data →
  readable (local c) lpath st lfd data → accepts (c_out c) → (length data < turns)%nat → (bound ≤ turns)%nat →
  have_sendrecv_v2_ features = true → ResolveCompressionType features any = compression →
  (∀ c' bs, sends c c' lpath rpath bs → carries path mode mtime data bs → Q true c') →
  wp (SendLargeFile junk features turns path mode lpath rpath mtime any false) Q c.
Proof.
  intros Hl Hfl He Hd HT Hdec Hr Ha Ht Hb Hv2 Hres HQ. unfold SendLargeFile. rewrite Hv2, Hres. cbn [negb andb]. unfold SendSend2.
  rewrite (proj2 (Z.ltb_ge _ _)) by lia. st_go. eapply wp_lift; [exact Hfl|]. cbv beta iota.
  apply wp_conn_write; [done|]. intros c1 H1. cbn [negb]. st_go. eapply wp_open_local.
  { rewrite (proj1 (ad_local _ _ _ H1)). exact Hr. }
  cbv beta iota. st_go. eapply wp_lift; [exact He|]. st_go.
  eapply (wp_send_loop junk enc data y idle busy measure bound HT turns lpath turns _ [] [] lfd data); try done.
  { apply (ct_init _ _ _ _ _ _ _ HT). }
  { apply Hr. }
  { apply H1. }
  intros c2 pieces H2 Hok Hy. cbn [app] in Hy. cbn [negb]. apply wp_send_done; [apply H2|]. intros c3 H3.
  eapply (HQ c3 (v2_bytes path mode flags mtime pieces)).
  - unfold v2_bytes. rewrite (app_assoc path), (app_assoc (sync_header ID_SEND_V2 _)). eapply advances_sends; [exact H1|].
    by eapply advances_sends.
  - eapply carries_v2; [done..|]. by rewrite Hy.
Qed.

Lemma codec_lossless_inv compression :
  codec_lossless junk compression →
  ∃ flags enc dec, compression_flag compression = Ret flags ∧ encoder_of junk compression = Ret enc ∧
    decoder_of compression = Ret dec ∧ lossless enc dec.
Proof. destruct compression; cbn [codec_lossless]; [|done|..]; intros (e & d & H); eauto. Qed.

(** Any file that can be read is sent, whatever the device understands. *)
Lemma wp_send_large any :
  zlen path ≤ 1024 → codec_lossless junk (ResolveCompressionType features any) →
  ∃ n, ∀ turns c Q, (n ≤ turns)%nat →
  readable (local c) lpath st lfd data → accepts (c_out c) →
  (∀ c' bs, sends c c' lpath rpath bs → carries path mode mtime data bs → Q true c') →
  wp (SendLargeFile junk features turns path mode lpath rpath mtime any false) Q c.
Proof.
  intros Hl Hlossless. destruct (codec_lossless_inv _ Hlossless) as (flags & enc & dec & Hfl & He & Hd & Hboth).
  destruct (Hboth data) as (y & (idle & busy & measure & bound & HT) & Hdec).
  exists (S (length data + bound)). intros turns c Q Ht Hr Ha HQ. destruct (have_sendrecv_v2_ features) eqn:Ev.
  - eapply wp_send_v2; [done..|lia|lia|done|done|done].
  - unfold SendLargeFile. rewrite Ev. cbn [negb andb]. eapply wp_send_legacy; [done..|lia|done].
Qed.
End file.

(** ** [sync_send] *)

Lemma read_all_file fuel : ∀ i d content,
  file_stream i d → (length d < fuel)%nat → read_all_loop fuel i content = Ret (Some (content ++ d)).
Proof.
  induction fuel as [|fuel IH]; intros i d content Hs Hf; [lia|]. cbn [read_all_loop].
  destruct (file_stream_read i d 4096 Hs ltac:(done)) as (bs & i' & d' & Er & _ & Hd & Hs' & Hnil). rewrite Er.
  destruct bs as [|b bs].
  - by rewrite Hnil, app_nil_r.
  - rewrite (IH _ d'); [by rewrite Hd, app_assoc|done|]. rewrite Hd in Hf. cbn in Hf. rewrite length_app in Hf. lia.
Qed.

Lemma file_stream_size i d : file_stream i d → input_size i = length d.
Proof.
  intros (pieces & -> & _ & <-). unfold input_size. induction pieces as [|p pieces IH]; [done|]. cbn.
  rewrite length_app. cbn in IH. by rewrite IH.
Qed.

(** Less than the most files have been sent, and the device has not answered yet. *)
Definition no_news c : Prop :=
  acknowledgement_buffer_ c = [] ∧ (length (deferred_acknowledgements_ c) < max_deferred_acks - 1)%nat ∧
  head (polls c) = Some false.

(** What [sync_send] leaves: the file is sent, and its acknowledgement is still to be read. *)
Record sent c c' (lpath rpath bs : bytes) : Prop := {
  st_out : accepts (c_out c') ∧ o_written (c_out c') = o_written (c_out c) ++ bs;
  st_in : c_in c' = c_in c;
  st_local : local c' = local c;
  st_acks : deferred_acknowledgements_ c' = with_ack c lpath rpath ∧ acknowledgement_buffer_ c' = [];
  st_errors : errors c' = errors c
}.

Lemma wp_poll c b l Q : polls c = b :: l → Q b (c <| polls := l |>) → wp poll Q c.
Proof. intros E H. unfold wp, poll. by rewrite E. Qed.

Lemma read_until_unfold fuel should_block amount :
  read_until_amount fuel should_block amount =
  read_until_turn (match fuel with O => λ _, OutOfFuel | S fuel => read_until_amount fuel should_block amount end)
    should_block amount.
Proof. by destruct fuel. Qed.

Lemma wp_no_news c c' lpath rpath bs Q :
  no_news c → sends c c' lpath rpath bs → (∀ c', sent c c' lpath rpath bs → Q true c') →
  wp (ReadAcknowledgements false) Q c'.
Proof.
  intros (Hb & Hn & Hp) [[A1 O1] [I1 P1] [L1 W1] [K1 B1] E1] H. unfold ReadAcknowledgements. st_go.
  assert (deferred_acknowledgements_ c' ≠ [] ∧ (length (deferred_acknowledgements_ c') < max_deferred_acks)%nat) as [Hne Hlt].
  { rewrite K1. unfold with_ack. rewrite length_app. split; [by destruct (deferred_acknowledgements_ c)|cbn; lia]. }
  destruct (polls c) as [|b l] eqn:Ep; [done|]. injection Hp as ->.
  assert (∀ again, wp (acks_turn again false) Q c') as Hturn; [|destruct (length (deferred_acknowledgements_ c')); apply Hturn].
  intros again. unfold acks_turn. st_go. rewrite bool_decide_false by done. rewrite bool_decide_false by lia. cbn [orb]. st_go.
  rewrite read_until_unfold. unfold read_until_turn at 1. st_go. rewrite B1, Hb.
  change (zlen [] <? sizeof_header) with true. cbv iota. st_go. eapply wp_poll; [exact P1|]. cbn [negb]. st_go.
  apply H. destruct c'. split; try done. by rewrite Hb in B1.
Qed.

Lemma wp_sync_send lpath rpath mtime mode any st lfd data :
  zlen (path_and_mode rpath mode) ≤ 1024 → zlen rpath ≤ 1024 → codec_lossless junk (ResolveCompressionType features any) →
  S_ISLNK mode = false →
  ∃ n, ∀ turns c Q, (n ≤ turns)%nat → readable (local c) lpath st lfd data → accepts (c_out c) → no_news c →
  (∀ c' bs, sent c c' lpath rpath bs → carries rpath mode mtime data bs → Q true c') →
  wp (sync_send junk features turns lpath rpath mtime mode false any false) Q c.
Proof.
  intros Hl Hl' Hc Hlnk. destruct (wp_send_large rpath mode lpath rpath mtime st lfd data Hl any Hl' Hc) as (n & Hn).
  exists n. intros turns c Q Ht Hr Ha Hno HQ. unfold sync_send. st_go. rewrite Hlnk, (rd_stat _ _ _ _ _ Hr).
  assert (∀ c' bs, sends c c' lpath rpath bs → carries rpath mode mtime data bs →
    wp (if negb true then mret false else ReadAcknowledgements false) Q c') as Hfin.
  { intros c' bs Hs Hcar. cbn [negb]. eapply wp_no_news; [done..|]. intros c2 H2. by eapply HQ. }
  st_go. destruct (Z.ltb_spec (st_size st) SYNC_DATA_MAX) as [Hsm|Hbig].
  - st_go. apply (wp_lift _ (Some data)).
    { unfold ReadFileToString. rewrite (rd_open _ _ _ _ _ Hr).
      rewrite (read_all_file _ _ data); [done|apply Hr|]. rewrite (file_stream_size _ data); [lia|apply Hr]. }
    cbv beta iota. eapply wp_send_small; [done|done| |exact Hfin]. rewrite <- (rd_size _ _ _ _ _ Hr). lia.
  - eapply Hn; [done|exact Hr|done|exact Hfin].
Qed.
End push.

(** ** What the device makes of it *)

Section device.
Context (junk : nat → byte) `{HF : !Files, HC : !Codecs, HH : !HostErrno, HD : !Device}.

Lemma receive_carried path mode mtime data bs :
  carries path mode mtime data bs → NUL ∉ path → zlen path ≤ 1024 → zlen (path_and_mode path mode) ≤ 1024 →
  plain_mode mode → 0 ≤ mtime < 2 ^ 32 → disk_ok →
  ∃ n, ∀ turns s rest g' Q, (n ≤ turns)%nat →
  blocking (s_in s) → stream_data (s_in s) = bs ++ rest → accepts (s_out s) →
  push_file path mode mtime data (files s) = Some g' →
  (∀ i o, blocking i → stream_data i = rest → accepts o → o_written o = o_written (s_out s) ++ sync_header ID_OKAY 0 →
     Q true (Service i o g' None (buffer s))) →
  wp (handle_sync_command junk turns) Q s.
Proof.
  intros Hc Hn Hl Hl' Hmode Hm Hdisk. destruct Hc as [pieces Hok Hd|compression dec flags pieces Hfl Hdec Hok HT].
  - destruct (NullDecoder_transforms data) as (idle & busy & measure & bound & HT).
    exists (S (length pieces + bound)). intros turns s rest g' Q Ht Hb Hs Ha Hp HQ.
    eapply (wp_receive_v1 junk CompressNone NullDecoder data data pieces mtime rest); try done.
    + by apply pieces_fit.
    + split; lia.
    + rewrite Hs. unfold v1_bytes. by rewrite <- !app_assoc.
  - destruct HT as (idle & busy & measure & bound & HT).
    exists (S (length pieces + bound)). intros turns s rest g' Q Ht Hb Hs Ha Hp HQ.
    eapply (wp_receive_v2 junk compression dec (concat pieces) data pieces mtime rest); try done.
    + by apply pieces_fit.
    + split; lia.
    + rewrite Hs. unfold v2_bytes. by rewrite <- !app_assoc.
Qed.
End device.

(** ** Acknowledgements *)

(** What the device says about a file. *)
Inductive ack := Okay | Failed (msg : bytes).

Definition ack_bytes (a : ack) : bytes :=
  match a with Okay => sync_header ID_OKAY 0 | Failed msg => sync_header ID_FAIL (zlen msg) ++ msg end.
Definition ack_ok (a : ack) : Prop := match a with Okay => True | Failed msg => zlen msg ≤ SYNC_DATA_MAX end.

(** What is left of the files [q] and of the answers [acks], whether all is
    well, and what is reported: an answer is that of the oldest file, the first
    failure ends the reading, and so does, unless everything is to be read, an
    answer that is not there yet. *)
Inductive settles (read_all : bool) :
  list (bytes * bytes) → list ack → bool → list (bytes * bytes) → list ack → list sync_error → Prop :=
| settles_all acks : settles read_all [] acks true [] acks []
| settles_later q acks : read_all = false → settles read_all q acks true q acks []
| settles_okay file q acks ok q' acks' es :
    settles read_all q acks ok q' acks' es → settles read_all (file :: q) (Okay :: acks) ok q' acks' es
| settles_failed from to q msg acks :
    settles read_all ((from, to) :: q) (Failed msg :: acks) false q acks [CopyFailed (c_str from) (c_str to) (c_str msg)].

Section acks.
Context `{HF : !Files, HC : !Codecs, HH : !HostErrno, HE : !ClientErrno}.
Implicit Type c : sync_conn.

(** The answers that are still to be read, of which the client has a part. *)
Definition pending c (acks : list ack) : Prop :=
  ∃ d, file_stream (c_in c) d ∧ acknowledgement_buffer_ c ++ d = concat (ack_bytes <$> acks) ∧
    match acks with [] => acknowledgement_buffer_ c = [] | a :: _ => acknowledgement_buffer_ c `prefix_of` ack_bytes a end.

(** What reading changes. *)
Definition having (i : instream) (b : bytes) (p : list bool) c : sync_conn :=
  c <| c_in := i |> <| acknowledgement_buffer_ := b |> <| polls := p |>.

Lemma having_same c : having (c_in c) (acknowledgement_buffer_ c) (polls c) c = c.
Proof. by destruct c. Qed.
Lemma having_having i b p i' b' p' c : having i b p (having i' b' p' c) = having i b p c.
Proof. by destruct c. Qed.

Lemma wp_read_until should_block amount fuel : ∀ c d Q,
  file_stream (c_in c) d → amount ≤ zlen (acknowledgement_buffer_ c ++ d) →
  amount ≤ MAX_RW_COUNT → (Z.to_nat (amount - zlen (acknowledgement_buffer_ c)) ≤ fuel)%nat →
  (∀ r i b p d', file_stream i d' → b ++ d' = acknowledgement_buffer_ c ++ d →
     match r with
     | ReadSuccess => zlen b = Z.max amount (zlen (acknowledgement_buffer_ c))
     | ReadTryLater => should_block = false ∧ zlen b < amount
     | ReadFailure => False
     end → Q r (having i b p c)) →
  wp (read_until_amount fuel should_block amount) Q c.
Proof.
  induction fuel as [|fuel IH]; intros c d Q Hs Ha Hm Hf HQ; rewrite read_until_unfold; unfold read_until_turn at 1; st_go;
    (destruct (Z.ltb_spec (zlen (acknowledgement_buffer_ c)) amount) as [Hlt|Hge];
     [|st_go; rewrite <- (having_same c); apply (HQ ReadSuccess _ _ _ d); [done|done|lia]]); [lia|].
  apply wp_bind. apply wp_mono with (Q := λ ready c', ∃ p, c' = having (c_in c) (acknowledgement_buffer_ c) p c ∧
    (ready = false → should_block = false)).
  { destruct should_block; [st_go; exists (polls c); by rewrite having_same|]. unfold wp, poll.
    destruct (polls c) eqn:Ep; [exists []; rewrite <- Ep; by rewrite having_same|]. exists l. by destruct c. }
  intros ready c1 (p & -> & Hready). destruct ready; cbn [negb].
  2: { st_go. apply (HQ ReadTryLater _ _ _ d); [done..|]. auto. }
  st_go. change (c_in (having _ _ _ _)) with (c_in c).
  destruct (file_stream_read (c_in c) d (amount - zlen (acknowledgement_buffer_ c)) Hs) as (bs & i' & d' & Er & Hl & Hd & Hs' & Hnil).
  { lia. }
  rewrite Er. destruct bs as [|b bs].
  { rewrite (Hnil eq_refl), app_nil_r in Ha. lia. }
  remember (b :: bs) as new eqn:En. assert (0 < zlen new) by (subst; cbn; lia).
  st_go. change (_ <| c_in := i' |> <| acknowledgement_buffer_ ::= _ |>) with (having i' (acknowledgement_buffer_ c ++ new) p c).
  assert ((acknowledgement_buffer_ c ++ new) ++ d' = acknowledgement_buffer_ c ++ d) as Hcat by by rewrite <- app_assoc, <- Hd.
  destruct (negb should_block && _) eqn:Estop.
  { apply andb_true_iff in Estop as [Eb El]. apply negb_true_iff in Eb. apply Z.ltb_lt in El. st_go.
    by apply (HQ ReadTryLater _ _ _ d'). }
  eapply (IH _ d'); [exact Hs'| |done| |].
  - change (acknowledgement_buffer_ (having _ ?b _ _)) with b. by rewrite Hcat.
  - change (acknowledgement_buffer_ (having _ ?b _ _)) with b. rewrite length_app. lia.
  - intros r i2 b2 p2 d2 Hs2 Hb2 Hr. rewrite having_having. apply (HQ r i2 b2 p2 d2); [done|..].
    + by rewrite Hb2, <- Hcat.
    + revert Hr. change (acknowledgement_buffer_ (having _ ?b _ _)) with b. rewrite length_app. destruct r; [lia|done..].
Qed.

(** What a call leaves alone. *)
Record reads c c' (es : list sync_error) : Prop := {
  rs_out : c_out c' = c_out c;
  rs_files : local c' = local c ∧ downloaded c' = downloaded c;
  rs_ledgers : current_ledger_ c' = current_ledger_ c ∧ global_ledger_ c' = global_ledger_ c;
  rs_errors : errors c' = errors c ++ es
}.

Lemma header_at id size more :
  0 ≤ id < 2 ^ 32 → 0 ≤ size < 2 ^ 32 →
  u32_at (sync_header id size ++ more) 0 = id ∧ u32_at (sync_header id size ++ more) 4 = size.
Proof.
  intros Hi Hs. unfold sync_header. rewrite <- app_assoc. split.
  - etrans; [apply (u32_at_app [] id)|]. by apply u32_small.
  - etrans; [apply (u32_at_app (le32 id) size)|]. by apply u32_small.
Qed.

(** The bytes of the first answer come before everything else. *)
Lemma pending_prefix (b d m rest : bytes) :
  b ++ d = m ++ rest → zlen b ≤ zlen m → ∃ more, m = b ++ more ∧ d = more ++ rest.
Proof.
  intros E Hl. exists (drop (length b) m).
  assert (m = b ++ drop (length b) m) as Hm.
  { rewrite <- (take_drop (length b) m) at 1. f_equal. apply (f_equal (take (length b))) in E.
    by rewrite take_app_length, take_app_le in E by lia. }
  split; [done|]. apply (app_inv_head b). by rewrite E, app_assoc, <- Hm.
Qed.

Lemma ack_bytes_header a : ∃ id more, ack_bytes a = sync_header id (zlen more) ++ more ∧
  (id, more) = match a with Okay => (ID_OKAY, []) | Failed msg => (ID_FAIL, msg) end.
Proof. destruct a as [|msg]; eexists _, _; split; try done. by rewrite app_nil_r. Qed.

(** Reading an answer up to [amount] bytes of it, whatever part of it is there. *)
Lemma wp_read_ack should_block amount c a acks Q :
  pending c (a :: acks) → ack_ok a → 0 ≤ amount ≤ zlen (ack_bytes a) →
  (∀ i b p, pending (having i b p c) (a :: acks) → should_block = false → Q ReadTryLater (having i b p c)) →
  (∀ i b p, pending (having i b p c) (a :: acks) → amount ≤ zlen b → Q ReadSuccess (having i b p c)) →
  wp (read_until_amount (Z.to_nat amount) should_block amount) Q c.
Proof.
  intros (d & Hs & Hd & Hpre) Hok Ham Hlater Hdone. cbn [fmap list_fmap concat] in Hd. apply prefix_length in Hpre as Hbl.
  assert (amount ≤ MAX_RW_COUNT) as Hmax.
  { assert (zlen (ack_bytes a) ≤ 8 + SYNC_DATA_MAX).
    { destruct a; cbn [ack_bytes]; [done|]. rewrite length_app. cbn in Hok.
      change (length (sync_header ID_FAIL (zlen msg))) with 8%nat. lia. }
    unfold SYNC_DATA_MAX, MAX_RW_COUNT in *. lia. }
  eapply wp_read_until; [exact Hs| |done|lia|].
  { rewrite Hd, length_app. lia. }
  intros r i b p d' Hs' Hb Hr. rewrite Hd in Hb.
  assert (zlen b ≤ zlen (ack_bytes a)) as Hle by (destruct r; [lia|done|lia]).
  destruct (pending_prefix _ _ _ _ Hb Hle) as (more & Hm & Hd').
  assert (pending (having i b p c) (a :: acks)) as Hp.
  { exists d'. split_and!; [done|exact Hb|]. by exists more. }
  destruct r; [apply Hdone; [done|lia]|done|apply Hlater; [done|apply Hr]].
Qed.

Lemma pending_whole c a acks :
  pending c (a :: acks) → zlen (ack_bytes a) ≤ zlen (acknowledgement_buffer_ c) →
  acknowledgement_buffer_ c = ack_bytes a ∧ file_stream (c_in c) (concat (ack_bytes <$> acks)).
Proof.
  intros (d & Hs & Hd & [more Hm]) Hl. rewrite Hm, length_app in Hl. destruct more; [|cbn in Hl; lia].
  rewrite app_nil_r in Hm. split; [done|]. cbn [fmap list_fmap concat] in Hd. rewrite Hm in Hd. apply app_inv_head in Hd. by rewrite <- Hd.
Qed.

Lemma pending_intro c acks :
  file_stream (c_in c) (concat (ack_bytes <$> acks)) → acknowledgement_buffer_ c = [] → pending c acks.
Proof. intros Hs Hb. eexists. rewrite Hb. split_and!; [done..|]. destruct acks; [done|]. apply prefix_nil. Qed.

Lemma pending_header c a acks :
  pending c (a :: acks) → ack_ok a → sizeof_header ≤ zlen (acknowledgement_buffer_ c) →
  match a with
  | Okay => u32_at (acknowledgement_buffer_ c) 0 = ID_OKAY ∧ u32_at (acknowledgement_buffer_ c) 4 = 0
  | Failed msg => u32_at (acknowledgement_buffer_ c) 0 = ID_FAIL ∧ u32_at (acknowledgement_buffer_ c) 4 = zlen msg
  end.
Proof.
  intros (d & _ & _ & [more Hm]) Hok Hl. assert (∃ pre, acknowledgement_buffer_ c = take 8 (ack_bytes a) ++ pre) as [pre ->].
  { exists (drop 8 (acknowledgement_buffer_ c)). rewrite Hm, take_app_le by (unfold sizeof_header in Hl; lia). by rewrite take_drop. }
  destruct a as [|msg].
  - change (take 8 (ack_bytes Okay)) with (sync_header ID_OKAY 0). by apply header_at.
  - change (take 8 (ack_bytes (Failed msg))) with (sync_header ID_FAIL (zlen msg)). cbn in Hok. unfold SYNC_DATA_MAX in Hok.
    apply header_at; [done|lia].
Qed.

Lemma wp_acks_turn read_all again c a acks file q Q :
  deferred_acknowledgements_ c = file :: q → pending c (a :: acks) → ack_ok a →
  (∀ c', reads c c' [] → deferred_acknowledgements_ c' = file :: q → pending c' (a :: acks) → read_all = false → Q true c') →
  (a = Okay → ∀ c', reads c c' [] → deferred_acknowledgements_ c' = q → pending c' acks → wp again Q c') →
  (∀ msg c', a = Failed msg → reads c c' [CopyFailed (c_str file.1) (c_str file.2) (c_str msg)] →
     deferred_acknowledgements_ c' = q → pending c' acks → Q false c') →
  wp (acks_turn again read_all) Q c.
Proof.
  intros Hq Hp Hok Hlater Hokay Hfail. unfold acks_turn. st_go. rewrite Hq, bool_decide_false by done. cbv iota zeta. st_go.
  assert (∀ i b p, reads c (having i b p c) []) as Hreads by (intros; destruct c; split; try done; by rewrite app_nil_r).
  assert (∀ i b p, deferred_acknowledgements_ (having i b p c) = file :: q) as Hdef by done.
  eapply wp_read_ack; [exact Hp|done| |..].
  { destruct (ack_bytes_header a) as (id & more & -> & _). rewrite length_app. change (length (sync_header _ _)) with 8%nat.
    unfold sizeof_header. lia. }
  { intros i b p Hp1 Hb. st_go. apply Hlater; [done..|]. by destruct read_all. }
  intros i b p Hp1 Hl. st_go. pose proof (pending_header _ _ _ Hp1 Hok Hl) as Hh. destruct a as [|msg]; destruct Hh as [-> ->].
  - destruct (pending_whole _ _ _ Hp1 ltac:(done)) as [_ Hs]. change (ID_OKAY =? ID_OKAY) with true. change (0 =? 0) with true. cbn [negb]. unfold clear_ack_buffer, CopyDone. st_go.
    apply Hokay; [done|by destruct c; split; try done; rewrite app_nil_r|by destruct c; cbn in *; rewrite Hq|].
    apply pending_intro; [exact Hs|done].
  - change (ID_FAIL =? ID_OKAY) with false. change (ID_FAIL =? ID_FAIL) with true. cbn [negb]. cbn in Hok.
    rewrite (proj2 (Z.ltb_ge _ _)) by lia. st_go. eapply wp_read_ack; [exact Hp1|done| |..].
    { cbn [ack_bytes]. rewrite length_app. change (length (sync_header _ _)) with 8%nat. unfold sizeof_header. lia. }
    { intros i2 b2 p2 Hp2 Hb. st_go. rewrite having_having in *. apply Hlater; [done..|]. by destruct read_all. }
    intros i2 b2 p2 Hp2 Hl2. rewrite having_having in *. st_go. 
    destruct (pending_whole _ _ _ Hp2) as [Hw Hs].
    { cbn [ack_bytes]. rewrite length_app. change (length (sync_header _ _)) with 8%nat. unfold sizeof_header in Hl2.
      change (acknowledgement_buffer_ (having _ ?b _ _)) with b. lia. }
    rewrite Hw. change (drop 8 (ack_bytes (Failed msg))) with msg. unfold ReportDeferredCopyFailure, clear_ack_buffer, Error. st_go.
    rewrite Hdef. cbn [head deref]. destruct file as [from to]. st_go.
    apply (Hfail msg); [done|by destruct c; split|by destruct c; cbn in *; rewrite Hq|].
    apply pending_intro; [exact Hs|done].
Qed.

Lemma reads_refl c : reads c c [].
Proof. split; [done..|]. by rewrite app_nil_r. Qed.

Lemma reads_trans c1 c2 c3 es : reads c1 c2 [] → reads c2 c3 es → reads c1 c3 es.
Proof. intros [? [? ?] [? ?] E] [? [? ?] [? ?] ?]. rewrite app_nil_r in E. split; [|split|split|]; congruence. Qed.

Lemma acks_unfold fuel read_all :
  acks_loop fuel read_all = acks_turn (match fuel with O => λ _, OutOfFuel | S fuel => acks_loop fuel read_all end) read_all.
Proof. by destruct fuel. Qed.

Lemma wp_acks_loop read_all fuel : ∀ c acks Q,
  (length (deferred_acknowledgements_ c) ≤ fuel)%nat → (length (deferred_acknowledgements_ c) ≤ length acks)%nat →
  pending c acks → Forall ack_ok acks →
  (∀ ok c' acks' es, settles read_all (deferred_acknowledgements_ c) acks ok (deferred_acknowledgements_ c') acks' es →
     pending c' acks' → reads c c' es → Q ok c') →
  wp (acks_loop fuel read_all) Q c.
Proof.
  induction fuel as [|fuel IH]; intros c acks Q Hf Hl Hp Hok HQ; rewrite acks_unfold;
    (destruct (deferred_acknowledgements_ c) as [|file q] eqn:Eq;
     [unfold acks_turn; st_go; rewrite Eq; st_go; apply (HQ true c acks []);
        [rewrite Eq; apply settles_all|exact Hp|apply reads_refl]|cbn [length] in Hf, Hl]); [lia|].
  destruct acks as [|a acks]; [cbn in Hl; lia|]. apply Forall_cons in Hok as [Ha Hok]. cbn [length] in Hl.
  eapply wp_acks_turn; [exact Eq|exact Hp|done|..].
  - intros c' Hr Hq Hp' Hno. apply (HQ true c' (a :: acks) []); [|done..]. rewrite Hq. by constructor.
  - intros -> c' Hr Hq Hp'. eapply (IH _ acks); [rewrite Hq; lia|rewrite Hq; lia|exact Hp'|done|].
    intros ok c2 acks2 es Hset Hp2 Hr2. rewrite Hq in Hset. eapply HQ; [by constructor|done|]. by eapply reads_trans.
  - intros msg c' -> Hr Hq Hp'. eapply (HQ false c' acks); [|done|exact Hr]. rewrite Hq. destruct file. apply settles_failed.
Qed.

(** C16: The acknowledgements of pushed files, whether they are all waited for
    or read as they come: when the device's answers to the files that wait for
    one arrive in any pieces, a part of the first one perhaps read before,
    [ReadAcknowledgements] gives each answer to the oldest file that waits,
    reports the first failure with the names of that file and stops there;
    otherwise it is content when every file has its answer, or when, not
    told to wait, it finds that the next answer is not there yet; no
    byte of an answer is lost between calls. *)
Theorem ReadAcknowledgements_refines read_all c acks :
  (length (deferred_acknowledgements_ c) ≤ length acks)%nat → pending c acks → Forall ack_ok acks →
  ∃ ok c', ReadAcknowledgements read_all c = Ret (ok, c') ∧ ∃ acks' es,
    settles read_all (deferred_acknowledgements_ c) acks ok (deferred_acknowledgements_ c') acks' es ∧
    pending c' acks' ∧ reads c c' es.
Proof.
  intros Hl Hp Hok. apply wp_run. unfold ReadAcknowledgements. st_go. eapply wp_acks_loop; [done..|].
  intros ok c' acks' es H1 H2 H3. by exists acks', es.
Qed.
End acks.

(** Two files were sent; the device could not store the second one. *)
Definition waiting_client : @sync_conn memory_files :=
  @Conn memory_files
    [Data (take 9 (sync_header ID_OKAY 0 ++ sync_header ID_FAIL 4)); Data (drop 9 (sync_header ID_OKAY 0 ++ sync_header ID_FAIL 4) ++ str "full")]
    (Out [] []) [] None [(str "a", str "/d/a"); (str "b", str "/d/b")] [] [] ledger_zero ledger_zero [].

Lemma ReadAcknowledgements_refines_witness :
  ∃ c', @ReadAcknowledgements memory_files true waiting_client = Ret (false, c') ∧
    errors c' = [CopyFailed (str "b") (str "/d/b") (str "full")].
Proof.
  destruct (@ReadAcknowledgements_refines memory_files true waiting_client [Okay; Failed (str "full")])
    as (ok & c' & E & acks & es & Hs & Hp & Hr); [done| |by repeat constructor|].
  - eexists. split_and!; [|reflexivity|apply prefix_nil]. eexists [_; _]. split_and!; [done|by repeat constructor|done].
  - exists c'. inversion Hs as [| |? ? ? ? ? ? ? H|]; subst; [done|]. inversion H; subst; [done|]. split; [exact E|].
    rewrite (rs_errors _ _ _ Hr). done.
Defined.

(** ** The client and the device together *)

(** The client and the device have files, errors and memory of their own, and
    share the coders. *)
Section together.
Context (junk junk' : nat → byte) (FC FD : Files) `{HC : !Codecs} (HH HH' : HostErrno) `{HE : !ClientErrno, HD : !Device}.
Context (features : sync_features).

(** The request can be made: the names fit, and the file is not a link. *)
Record can_push (rpath : bytes) (mode mtime : Z) : Prop := {
  cp_path : NUL ∉ rpath;
  cp_len : zlen (path_and_mode rpath mode) ≤ 1024;
  cp_mode : plain_mode mode;
  cp_time : 0 ≤ mtime < 2 ^ 32
}.

Lemma can_push_len rpath mode mtime : can_push rpath mode mtime → zlen rpath ≤ 1024.
Proof.
  intros [Hn Hl _ _]. revert Hl. unfold path_and_mode. rewrite c_str_id by done. rewrite length_app. lia.
Qed.

End together.

(** The bytes, each in a piece of its own. *)
Definition one_by_one (bs : bytes) : instream := (λ b, Data [b]) <$> bs.

Lemma one_by_one_data bs : stream_data (one_by_one bs) = bs ∧ blocking (one_by_one bs).
Proof.
  split; [by induction bs as [|b bs IH]; cbn; [|f_equal]|]. unfold blocking, one_by_one. rewrite list_elem_of_fmap. by intros (? & ? & ?).
Qed.

Lemma memory_disk_ok : @disk_ok memory_files.
Proof.
  intros how path mode g f o g'. cbn. destruct how, (node_at g path); intros E; inversion E; subst; intros e He; by apply elem_of_nil in He.
Qed.

(** A small file, pushed to a device that has an older one of that name. *)
Definition pushing_client : @sync_conn memory_files :=
  @Conn memory_files [] (Out [] []) [(str "note", sample_file (str "hello"))] None [] [] [false] ledger_zero ledger_zero [].
Definition old_note : bytes * node := (str "/sdcard/note", sample_file (str "an older and longer note")).
Definition new_note : bytes * node := (str "/sdcard/note", Node (Stat 0 0 0x81b6 1 0 0 5 0 9 9) (str "hello")).

