(* ===== verification/SyncPull.v ===== *)
(** * Pulling a file

    What the device's [recv_impl] sends for a request of the client, the client's
    [sync_recv] writes to the local file. *)

From S2P Require Import Prelude State CString CStringFacts LibBase LibBaseFacts AdbIO AdbIOFacts Types TypesFacts.
From S2P Require Import Compression CompressionFacts Paths Errno SyncProtocol SyncService SyncClient SyncSample SyncFacts SyncPush.
Local Open Scope Z_scope.
Local Open Scope record_scope.

(** ** What the device sends *)

Section device.
Context (junk : nat → byte) `{HF : !Files, HC : !Codecs, HH : !HostErrno, HD : !Device}.
Implicit Type s : service.

(** [s'] is [s] after [bs] were written to the connection. *)
Definition writes s s' (bs : bytes) : Prop :=
  ∃ o, s' = set_out o s ∧ accepts o ∧ o_written o = o_written (s_out s) ++ bs.

Lemma writes_refl s : accepts (s_out s) → writes s s [].
Proof. intros H. exists (s_out s). rewrite app_nil_r. by destruct s. Qed.

Lemma writes_trans s1 s2 s3 b1 b2 : writes s1 s2 b1 → writes s2 s3 b2 → writes s1 s3 (b1 ++ b2).
Proof. intros (o1 & -> & A1 & W1) (o2 & -> & A2 & W2). exists o2. cbn in W2. by rewrite W2, W1, app_assoc. Qed.

Lemma writes_accepts s s' bs : writes s s' bs → accepts (s_out s').
Proof. by intros (o & -> & A & _). Qed.

Lemma wp_writes s bs Q : accepts (s_out s) → (∀ s', writes s s' bs → Q true s') → wp (write_exactly bs) Q s.
Proof. intros Ha H. apply wp_write_exactly; [done|]. intros o A W. apply H. by exists o. Qed.

Section encode.
Context (enc : Coder) (x y : bytes) (idle : coder_state enc → bytes → bytes → Prop)
  (busy : coder_state enc → bytes → bytes → bool → Prop) (measure : coder_state enc → nat) (bound : nat)
  (HT : contract enc x y idle busy measure bound).

Lemma wp_encode_loop fuel : ∀ st i o fl s Q,
  (measure st < fuel)%nat → busy st i o fl → accepts (s_out s) →
  (∀ r s' pieces, writes s s' (wire_data pieces) → Forall piece_ok pieces →
     match r with
     | EncodeFailed => False
     | EncodeDone => fl = true ∧ o ++ concat pieces = y
     | EncodeMore st' => fl = false ∧ idle st' i (o ++ concat pieces)
     end → Q r s') →
  wp (encode_loop fuel enc st) Q s.
Proof.
  induction fuel as [|fuel IH]; intros st i o fl s Q Hm Hb Ha HQ; [lia|]. cbn [encode_loop].
  destruct (ct_code _ _ _ _ _ _ _ HT st i o fl Hb) as (r & out & st' & E & Hl & Hr).
  st_go. eapply wp_lift; [exact E|]. cbv beta iota.
  assert (∃ ps, Forall piece_ok ps ∧ concat ps = out ∧ ∀ Q', (∀ s', writes s s' (wire_data ps) → Q' true s') →
    wp (if bool_decide (out = []) then mret true
        else ok ← write_exactly (sync_header ID_DATA (zlen out)); if (ok : bool) then write_exactly out else mret false) Q' s)
    as (ps & Hok & Hcat & Hw).
  { case_bool_decide as Hout.
    - exists []. split_and!; [done|by subst|]. intros Q' H'. st_go. by apply H', writes_refl.
    - exists [out]. split_and!; [by repeat constructor|cbn; by rewrite app_nil_r|]. intros Q' H'. st_go.
      apply wp_writes; [done|]. intros s1 H1. cbv beta iota. apply wp_writes; [by eapply writes_accepts|]. intros s2 H2. apply H'.
      rewrite wire_data_cons. unfold wire_data. cbn [fmap list_fmap concat]. rewrite app_nil_r. by eapply writes_trans. }
  destruct r; [done|..]; st_go; (apply Hw; intros s' Hs; cbn [negb]).
  - st_go. apply (HQ EncodeDone s' ps); [done..|]. by rewrite Hcat.
  - st_go. apply (HQ (EncodeMore st') s' ps); [done..|]. by rewrite Hcat.
  - destruct Hr as [Hb' Hlt]. eapply (IH st' i (o ++ out) fl); [lia|done|by eapply writes_accepts|].
    intros r s2 ps2 Hs2 Hok2 Hr2. apply (HQ r s2 (ps ++ ps2)).
    + rewrite wire_data_app. by eapply writes_trans.
    + by apply Forall_app.
    + rewrite concat_app, Hcat, app_assoc. exact Hr2.
Qed.

Lemma wp_recv_loop turns fuel : ∀ st i o fd d s Q,
  idle st i o → i ++ d = x → file_stream fd d → (length d < fuel)%nat → (bound ≤ turns)%nat → accepts (s_out s) →
  (∀ s' pieces, writes s s' (wire_data pieces ++ sync_header ID_DONE 0) → Forall piece_ok pieces → o ++ concat pieces = y → Q true s') →
  wp (recv_loop junk turns fuel enc st fd) Q s.
Proof.
  induction fuel as [|fuel IH]; intros st i o fd d s Q Hi Hx Hs Hf Ht Ha HQ; [lia|]. cbn [recv_loop]. st_go.
  destruct (file_stream_read fd d SYNC_DATA_MAX Hs ltac:(done)) as (bs & fd' & d' & Er & Hl & Hd & Hs' & Hnil). rewrite Er.
  destruct (bool_decide (bs = [])) eqn:Ebs.
  - apply bool_decide_eq_true in Ebs as ->. assert (d = []) as -> by auto. rewrite app_nil_r in Hx. subst i.
    destruct (Block.of_size junk SYNC_DATA_MAX) as [b| | |] eqn:Eb; try done. apply (wp_lift _ b); [done|]. st_go.
    destruct (ct_finish _ _ _ _ _ _ _ HT st o Hi) as (st' & Ef & Hbusy). eapply wp_lift; [exact Ef|]. st_go.
    eapply wp_encode_loop; [|exact Hbusy|done|].
    { pose proof (ct_bound _ _ _ _ _ _ _ HT _ _ _ _ Hbusy). lia. }
    intros r s' pieces Hc Hok Hr. destruct r as [| |st2]; [done| |by destruct Hr]. cbv beta iota.
    apply wp_writes; [by eapply writes_accepts|]. intros s2 H2. apply (HQ s2 pieces); [by eapply writes_trans|done|apply Hr].
  - apply bool_decide_eq_false in Ebs.
    destruct (input_block junk SYNC_DATA_MAX bs ltac:(done) Ebs Hl) as (b & b1 & b2 & -> & E1 & E2 & Hw & Hc & Hsz).
    apply (wp_lift _ b); [done|]. st_go. eapply wp_lift; [exact E1|]. st_go. eapply wp_lift; [exact E2|]. st_go.
    assert (busy (Append enc b2 st) (i ++ bs) o false) as Hbusy.
    { rewrite <- Hc. eapply (ct_append _ _ _ _ _ _ _ HT); [done|done| |].
      - unfold SYNC_DATA_MAX in Hl. lia.
      - rewrite Hc. exists d'. by rewrite <- Hx, Hd, app_assoc. }
    eapply wp_encode_loop; [|exact Hbusy|exact Ha|].
    { pose proof (ct_bound _ _ _ _ _ _ _ HT _ _ _ _ Hbusy). lia. }
    intros r s2 ps H2 Hok Hr. destruct r as [| |st2]; [done|by destruct Hr|]. destruct Hr as [_ Hidle].
    eapply (IH st2 (i ++ bs) (o ++ concat ps) fd' d'); [done| |done| |done|by eapply writes_accepts|].
    { by rewrite <- app_assoc, <- Hd. }
    { rewrite Hd, length_app in Hf. destruct bs; [done|]. cbn in Hf. lia. }
    intros s3 ps3 H3 Hok3 Hy. apply (HQ s3 (ps ++ ps3)).
    + rewrite wire_data_app, <- app_assoc. by eapply writes_trans.
    + by apply Forall_app.
    + by rewrite concat_app, app_assoc.
Qed.
End encode.

Lemma wp_recv_impl path compression enc y data st fd :
  encoder_of junk compression = Ret enc → transforms enc data y →
  ∃ n, ∀ turns s Q, (n ≤ turns)%nat → readable (files s) path st fd data → accepts (s_out s) →
  (∀ s' pieces, writes s s' (wire_data pieces ++ sync_header ID_DONE 0) → Forall piece_ok pieces → concat pieces = y → Q true s') →
  wp (recv_impl junk turns path compression) Q s.
Proof.
  intros He (idle & busy & measure & bound & HT). exists (S (length data + bound)). intros turns s Q Ht Hr Ha HQ.
  unfold recv_impl. st_go. rewrite (rd_open _ _ _ _ _ Hr). st_go. eapply wp_lift; [exact He|]. st_go.
  eapply (wp_recv_loop enc data y idle busy measure bound HT turns turns _ [] [] fd data); try done.
  { apply (ct_init _ _ _ _ _ _ _ HT). }
  { apply Hr. }
  { lia. }
  { lia. }
Qed.
End device.

(** What the client asks for, and what it then takes for the file. *)
Inductive asks (features : sync_features) (path : bytes) (any : CompressionType) : bytes → CompressionType → Prop :=
| asks_v1 : have_sendrecv_v2_ features = false → asks features path any (sync_header ID_RECV_V1 (zlen path) ++ path) CompressNone
| asks_v2 flags : have_sendrecv_v2_ features = true → compression_flag (ResolveCompressionType features any) = Ret flags →
    asks features path any (sync_header ID_RECV_V2 (zlen path) ++ path ++ recv_v2_bytes flags) (ResolveCompressionType features any).

Section answer.
Context (junk : nat → byte) `{HF : !Files, HC : !Codecs, HH : !HostErrno, HD : !Device}.
Implicit Type s : service.

Lemma recv_v2_fields flags : zlen (recv_v2_bytes flags) = sizeof_recv_v2 ∧ u32_at (recv_v2_bytes flags) 4 = u32 flags.
Proof.
  split; [done|]. pose proof (u32_at_app (le32 ID_RECV_V2) flags []) as E. by rewrite app_nil_r in E.
Qed.

(** The answer of the device is the file, encoded as the client asks. *)
Lemma wp_answer features path any req compression enc y data st fd :
  asks features path any req compression → path_ok path → encoder_of junk compression = Ret enc → transforms enc data y →
  ∃ n, ∀ turns s rest Q, (n ≤ turns)%nat → readable (files s) path st fd data → accepts (s_out s) →
  blocking (s_in s) → stream_data (s_in s) = req ++ rest →
  (∀ i s' pieces, blocking i → stream_data i = rest → writes (set_in i s) s' (wire_data pieces ++ sync_header ID_DONE 0) →
     Forall piece_ok pieces → concat pieces = y → Q true s') →
  wp (handle_sync_command junk turns) Q s.
Proof.
  intros Hreq Hp He Hy. destruct (wp_recv_impl junk path compression enc y data st fd He Hy) as (n & Hn).
  exists n. intros turns s rest Q Ht Hr Ha Hb Hd HQ. destruct Hreq as [Hv|flags Hv Hfl].
  - rewrite <- app_assoc in Hd. eapply wp_command; [done|exact Hd|done|done|]. intros i Bi Di.
    change (wp (recv_impl junk turns path CompressNone) Q (set_in i s)). eapply Hn; [done|exact Hr|done|]. intros s' pieces. by apply HQ.
  - rewrite <- !app_assoc in Hd. eapply wp_command; [done|exact Hd|done|done|]. intros i Bi Di.
    change (wp (do_recv_v2 junk turns path) Q (set_in i s)). unfold do_recv_v2. st_go. destruct (recv_v2_fields flags) as [Hl H4].
    eapply wp_read_exactly; [exact Bi|exact Di|done|by rewrite Hl|]. intros i2 Bi2 Di2. cbv beta iota. cbn [negb].
    destruct (flags_understood _ flags 0 Hfl ltac:(by left)) as (Hc & Hfl1 & _). rewrite H4, Hfl1, Hc.
    eapply Hn; [done|exact Hr|done|]. intros s' pieces Hw. by eapply HQ.
Qed.
End answer.

(** ** What the client makes of it *)

Section client.
Context (junk : nat → byte) `{HF : !Files, HC : !Codecs, HH : !HostErrno, HE : !ClientErrno} (features : sync_features).
Implicit Type c : sync_conn.

(** What receiving leaves alone, besides the connection's input, the file that is written and the ledgers. *)
Record keeps c c' : Prop := {
  kp_out : c_out c' = c_out c;
  kp_local : local c' = local c;
  kp_acks : deferred_acknowledgements_ c' = deferred_acknowledgements_ c ∧
    acknowledgement_buffer_ c' = acknowledgement_buffer_ c ∧ polls c' = polls c;
  kp_errors : errors c' = errors c
}.

Lemma keeps_trans c1 c2 c3 : keeps c1 c2 → keeps c2 c3 → keeps c1 c3.
Proof. intros [? ? (? & ? & ?) ?] [? ? (? & ? & ?) ?]. split; [..|split_and!|]; congruence. Qed.

(** The client has still to read [d], and has written [w] to the local file [f]. *)
Record at_ c (d : bytes) (f : file) (w : bytes) : Prop := {
  at_in : blocking (c_in c) ∧ stream_data (c_in c) = d;
  at_file : ∃ o, downloaded c = Some (f, o) ∧ accepts o ∧ o_written o = w
}.

Lemma wp_at_read c bs rest f w n Q :
  at_ c (bs ++ rest) f w → n = zlen bs → zlen bs < 2 ^ 64 →
  (∀ c', keeps c c' → at_ c' rest f w → Q (true, bs) c') → wp (conn_read n) Q c.
Proof.
  intros [[Hb Hd] (o & Ho & Ha & Hw)] -> Hl H. destruct (read_bytes (c_in c) bs rest) as (i & E & D & B); [done..|].
  unfold wp, conn_read. rewrite E. mstep. apply H; [by destruct c|]. split; [done|]. exists o. by destruct c.
Qed.

Lemma wp_at_header c id size rest f w Q :
  at_ c (sync_header id size ++ rest) f w → 0 ≤ id < 2 ^ 32 → 0 ≤ size < 2 ^ 32 →
  (∀ c', keeps c c' → at_ c' rest f w → Q (Some (id, size)) c') → wp recv_header Q c.
Proof.
  intros Hat Hi Hs H. unfold recv_header. st_go. destruct (sync_header_fields id size) as (Hl & H0 & H4).
  eapply wp_at_read; [exact Hat|done|by rewrite Hl|]. intros c' Hk Hat'. st_go. rewrite H0, H4, !u32_small by done. by apply H.
Qed.

Lemma wp_at_data c lpath d rest f w Q :
  at_ c (d ++ rest) f w → piece_ok d →
  (∀ c', keeps c c' → at_ c' rest f w → Q (Some d) c') → wp (recv_data lpath (zlen d)) Q c.
Proof.
  intros Hat Hd H. unfold recv_data. unfold piece_ok in Hd. rewrite (proj2 (Z.ltb_ge _ _)) by lia. st_go.
  eapply wp_at_read; [exact Hat|done|unfold SYNC_DATA_MAX in Hd; lia|]. intros c' Hk Hat'. cbv beta iota. cbn [negb]. st_go. by apply H.
Qed.

Lemma wp_at_write c bs d f w Q :
  at_ c d f w → (∀ c', keeps c c' → at_ c' d f (w ++ bs) → Q true c') → wp (write_local bs) Q c.
Proof.
  intros [Hi (o & Ho & Ha & Hw)] H. destruct (write_accepts o bs Ha) as (o' & E & W & A). unfold wp, write_local.
  rewrite Ho. mstep. rewrite E. mstep. apply H; [by destruct c|]. split; [by destruct c|]. exists o'. rewrite W, Hw. by destruct c.
Qed.

Lemma wp_at_record c n d f w Q :
  at_ c d f w → (∀ c', keeps c c' → at_ c' d f w → Q tt c') → wp (RecordBytesTransferred n) Q c.
Proof. intros [Hi (o & Ho)] H. unfold RecordBytesTransferred. st_go. apply H; [by destruct c|]. split; [by destruct c|]. exists o. by destruct c. Qed.

Lemma wp_recv_v1_loop rpath lpath pieces : ∀ fuel c rest f w Q,
  at_ c (wire_data pieces ++ sync_header ID_DONE 0 ++ rest) f w → Forall piece_ok pieces → (length pieces < fuel)%nat →
  (∀ c', keeps c c' → at_ c' rest f (w ++ concat pieces) → Q true c') →
  wp (recv_v1_loop fuel rpath lpath) Q c.
Proof.
  induction pieces as [|d pieces IH]; intros fuel c rest f w Q Hat Hok Hf HQ;
    (destruct fuel as [|fuel]; [cbn in Hf; lia|]); cbn [recv_v1_loop]; st_go.
  - eapply wp_at_header; [exact Hat|done|done|]. intros c1 H1 A1. cbv beta iota. rewrite Z.eqb_refl. st_go. apply HQ; [done|].
    cbn. by rewrite app_nil_r.
  - apply Forall_cons in Hok as [Hd Hok]. rewrite wire_data_cons, <- !app_assoc in Hat.
    assert (0 ≤ zlen d < 2 ^ 32) as Hlen by (unfold piece_ok, SYNC_DATA_MAX in Hd; lia).
    eapply wp_at_header; [exact Hat|done|done|]. intros c1 H1 A1. cbv beta iota. change (ID_DATA =? ID_DONE) with false.
    rewrite Z.eqb_refl. cbn [negb]. st_go. eapply wp_at_data; [exact A1|done|]. intros c2 H2 A2. cbv beta iota. st_go.
    eapply wp_at_write; [exact A2|]. intros c3 H3 A3. cbn [negb]. st_go. eapply wp_at_record; [exact A3|]. intros c4 H4 A4. st_go.
    eapply IH; [exact A4|done|cbn in Hf; lia|]. intros c5 H5 A5. apply HQ.
    + eauto using keeps_trans.
    + cbn. by rewrite app_assoc.
Qed.

Section decode.
Context (dec : Coder) (y x : bytes) (idle : coder_state dec → bytes → bytes → Prop)
  (busy : coder_state dec → bytes → bytes → bool → Prop) (measure : coder_state dec → nat) (bound : nat)
  (HT : contract dec y x idle busy measure bound).

Lemma wp_write_decoded lpath fuel : ∀ st i o fl c d f w Q,
  (measure st < fuel)%nat → busy st i o fl → at_ c d f w →
  (∀ r c' out, keeps c c' → at_ c' d f (w ++ out) →
     match r with
     | DecodeFailed => False
     | DecodeDone => fl = true ∧ o ++ out = x
     | DecodeMore st' => fl = false ∧ idle st' i (o ++ out)
     end → Q r c') →
  wp (write_decoded fuel lpath dec st) Q c.
Proof.
  induction fuel as [|fuel IH]; intros st i o fl c d f w Q Hm Hb Hat HQ; [lia|]. cbn [write_decoded].
  destruct (ct_code _ _ _ _ _ _ _ HT st i o fl Hb) as (r & out & st' & E & _ & Hr).
  st_go. eapply wp_lift; [exact E|]. cbv beta iota.
  assert (∀ Q', (∀ c', keeps c c' → at_ c' d f (w ++ out) → Q' true c') →
    wp (if bool_decide (out = []) then mret true else write_local out) Q' c) as Hw.
  { intros Q' H'. case_bool_decide; [|by eapply wp_at_write]. subst out. st_go. apply H'; [by destruct c|]. by rewrite app_nil_r. }
  destruct r; [done|..]; st_go; (apply Hw; intros c1 H1 A1; cbn [negb]; st_go; eapply wp_at_record; [exact A1|]; intros c2 H2 A2).
  - st_go. apply (HQ DecodeDone c2 out); [by eapply keeps_trans|done..].
  - st_go. apply (HQ (DecodeMore st') c2 out); [by eapply keeps_trans|done..].
  - destruct Hr as [Hb' Hlt]. st_go. eapply (IH st' i (o ++ out) fl); [lia|done|exact A2|].
    intros r c3 out2 H3 A3 Hr3. apply (HQ r c3 (out ++ out2)); [eauto using keeps_trans|by rewrite app_assoc|].
    rewrite app_assoc. exact Hr3.
Qed.

Lemma wp_recv_v2_loop turns rpath lpath pieces : ∀ fuel st i o c rest f w Q,
  idle st i o → i ++ concat pieces = y → (bound ≤ turns)%nat →
  at_ c (wire_data pieces ++ sync_header ID_DONE 0 ++ rest) f w → Forall piece_ok pieces → (length pieces < fuel)%nat →
  (∀ c' out, keeps c c' → at_ c' rest f (w ++ out) → o ++ out = x → Q true c') →
  wp (recv_v2_loop junk turns fuel rpath lpath dec st) Q c.
Proof.
  induction pieces as [|d pieces IH]; intros fuel st i o c rest f w Q Hi Hy Ht Hat Hok Hf HQ;
    (destruct fuel as [|fuel]; [cbn in Hf; lia|]); cbn [recv_v2_loop]; st_go.
  - eapply wp_at_header; [exact Hat|done|done|]. intros c1 H1 A1. cbv beta iota. rewrite Z.eqb_refl.
    rewrite app_nil_r in Hy. subst i. destruct (ct_finish _ _ _ _ _ _ _ HT st o Hi) as (st' & Ef & Hbusy). st_go.
    eapply wp_lift; [exact Ef|]. st_go. eapply wp_write_decoded; [|exact Hbusy|exact A1|].
    { pose proof (ct_bound _ _ _ _ _ _ _ HT _ _ _ _ Hbusy). lia. }
    intros r c2 out H2 A2 Hr. destruct r as [| |st2]; [done| |by destruct Hr]. st_go.
    apply (HQ c2 out); [by eapply keeps_trans|done|apply Hr].
  - apply Forall_cons in Hok as [Hd Hok]. rewrite wire_data_cons, <- !app_assoc in Hat.
    assert (0 ≤ zlen d < 2 ^ 32) as Hlen by (unfold piece_ok, SYNC_DATA_MAX in Hd; lia).
    eapply wp_at_header; [exact Hat|done|done|]. intros c1 H1 A1. cbv beta iota. change (ID_DATA =? ID_DONE) with false.
    rewrite Z.eqb_refl. cbn [negb]. st_go. eapply wp_at_data; [exact A1|done|]. intros c2 H2 A2. cbv beta iota. st_go.
    destruct (block_of_range junk d) as (b & Eb & Hw & Hc & Hsz). eapply wp_lift; [exact Eb|]. st_go.
    assert (busy (Append dec b st) (i ++ d) o false) as Hbusy.
    { rewrite <- Hc. eapply (ct_append _ _ _ _ _ _ _ HT); [done|done|lia|].
      rewrite Hc. exists (concat pieces). rewrite <- Hy. cbn. by rewrite app_assoc. }
    eapply wp_write_decoded; [|exact Hbusy|exact A2|].
    { pose proof (ct_bound _ _ _ _ _ _ _ HT _ _ _ _ Hbusy). lia. }
    intros r c3 out H3 A3 Hr. destruct r as [| |st2]; [done|by destruct Hr|]. destruct Hr as [_ Hidle]. cbv beta iota.
    eapply (IH fuel st2 (i ++ d) (o ++ out)); [done| |done|exact A3|done|cbn in Hf; lia|].
    { by rewrite <- app_assoc. }
    intros c4 out4 H4 A4 Hx. apply (HQ c4 (out ++ out4)); [eauto using keeps_trans|by rewrite app_assoc|].
    by rewrite app_assoc.
Qed.
End decode.

(** What receiving a file means: it replaces the local one. *)
Definition pull_file (lpath data : bytes) (g : fs) : option fs :=
  match path_create O_TRUNCATE lpath 0x1a4 (path_unlink lpath g) with
  | (inr (f, o), g) => Some (file_close f (o_written o ++ data) g)
  | _ => None
  end.

(** [c'] is [c] after a file was received: its contents are now [g'], and [rest] is still to be read. *)
Record pulled c c' (req rest : bytes) (g' : fs) : Prop := {
  pd_out : accepts (c_out c') ∧ o_written (c_out c') = o_written (c_out c) ++ req;
  pd_in : blocking (c_in c') ∧ stream_data (c_in c') = rest;
  pd_local : local c' = g' ∧ downloaded c' = None;
  pd_acks : deferred_acknowledgements_ c' = deferred_acknowledgements_ c ∧
    acknowledgement_buffer_ c' = acknowledgement_buffer_ c ∧ polls c' = polls c;
  pd_errors : errors c' = errors c
}.

Lemma wp_receive_file c0 c req lpath data d rest g' receive Q :
  advances c0 c req → blocking (c_in c0) → stream_data (c_in c0) = d → disk_ok → pull_file lpath data (local c0) = Some g' →
  (∀ c f w Q', at_ c d f w → (∀ c', keeps c c' → at_ c' rest f (w ++ data) → Q' true c') → c_in c = c_in c0 → wp receive Q' c) →
  (∀ c', pulled c0 c' req rest g' → Q true c') → wp (receive_file lpath receive) Q c.
Proof.
  intros [[A1 O1] [I1 P1] [L1 W1] [K1 B1] E1] Hb Hd Hdisk Hpull Hrec HQ. unfold pull_file in Hpull. rewrite <- L1 in Hpull.
  destruct (path_create O_TRUNCATE lpath _ _) as [[e|[f o]] g1] eqn:Ec; [done|]. injection Hpull as <-.
  unfold receive_file, unlink_local. st_go. unfold wp at 1, on_local. st_go. unfold wp at 1, create_local.
  change (local (c <| local := ?g |>)) with g. rewrite Ec. cbn [negb]. st_go.
  eapply (Hrec _ f (o_written o)); [split; [cbn; by rewrite I1|]| |done].
  { exists o. split_and!; [done|by eapply Hdisk|done]. }
  intros c2 [K2 L2 (D2 & B2 & P2) E2] [[Bi Di] (o2 & Ho2 & Ha2 & Hw2)]. cbv beta iota. st_go. unfold RecordFilesTransferred. st_go.
  unfold wp at 1, close_local. change (downloaded (c2 <| current_ledger_ ::= ?h |> <| global_ledger_ ::= ?h2 |>)) with (downloaded c2).
  rewrite Ho2. st_go. apply HQ. cbn in K2, L2, D2, B2, P2, E2. split; cbn.
  - rewrite K2. by rewrite O1.
  - done.
  - by rewrite L2, Hw2.
  - split_and!; congruence.
  - congruence.
Qed.

Lemma stream_data_size i : (length (stream_data i) ≤ input_size i)%nat.
Proof.
  induction i as [|[[|b bs]|e] i IH]; [cbn; lia..| |cbn; lia]. change (input_size (Data (b :: bs) :: i)) with (length (b :: bs) + input_size i)%nat.
  cbn [stream_data]. rewrite length_app. lia.
Qed.

Lemma wire_data_size pieces : (length pieces ≤ length (wire_data pieces))%nat.
Proof.
  induction pieces as [|d pieces IH]; [done|]. rewrite wire_data_cons, !length_app. change (length (sync_header _ _)) with 8%nat. cbn. lia.
Qed.

Lemma wp_sync_recv rpath lpath any req compression dec pieces data :
  asks features rpath any req compression → zlen rpath ≤ 1024 → decoder_of compression = Ret dec →
  transforms dec (concat pieces) data → (compression = CompressNone → concat pieces = data) → Forall piece_ok pieces → disk_ok →
  ∃ n, ∀ turns c rest g' Q, (n ≤ turns)%nat → accepts (c_out c) → blocking (c_in c) →
  stream_data (c_in c) = wire_data pieces ++ sync_header ID_DONE 0 ++ rest → pull_file lpath data (local c) = Some g' →
  (∀ c', pulled c c' req rest g' → Q true c') →
  wp (sync_recv junk features turns rpath lpath any) Q c.
Proof.
  intros Hask Hl Hdec (idle & busy & measure & bound & HT) Hnone Hok Hdisk. exists (S (length pieces + bound)).
  intros turns c rest g' Q Ht Ha Hb Hd Hpull HQ. unfold sync_recv. destruct Hask as [Hv|flags Hv Hfl]; rewrite Hv.
  - unfold sync_recv_v1. st_go. apply wp_send_request; [done..|]. intros c1 H1. cbv beta iota. st_go.
    eapply (wp_receive_file c c1 _ lpath data); [done..| |exact HQ]. intros c2 f w Q' Hat HQ' Hin.
    eapply wp_recv_v1_loop; [exact Hat|done| |by rewrite Hnone].
    rewrite (proj1 (ad_in _ _ _ H1)). pose proof (stream_data_size (c_in c)) as Hs. pose proof (wire_data_size pieces).
    rewrite Hd, length_app in Hs. lia.
  - unfold sync_recv_v2, SendRecv2. rewrite (proj2 (Z.ltb_ge _ _)) by lia. st_go. eapply wp_lift; [exact Hfl|]. cbv beta iota.
    apply wp_conn_write; [done|]. intros c1 H1. cbn [negb]. st_go. eapply wp_lift; [exact Hdec|]. st_go.
    eapply (wp_receive_file c c1 _ lpath data); [done..| |exact HQ]. intros c2 f w Q' Hat HQ' Hin.
    eapply (wp_recv_v2_loop dec (concat pieces) data idle busy measure bound HT); [apply (ct_init _ _ _ _ _ _ _ HT)|done|lia|exact Hat|done|lia|].
    intros c3 out H3 A3 Hx. cbn [app] in Hx. subst out. by apply HQ'.
Qed.
End client.

(** ** The client and the device together *)

Section together.
Context (junk junk' : nat → byte) (FC FD : Files) `{HC : !Codecs} (HH HH' : HostErrno) `{HE : !ClientErrno, HD : !Device}.
Context (features : sync_features).

(** The decoder undoes the encoder; a device without the second version does not encode. *)
Definition pull_codec (compression : CompressionType) : Prop :=
  have_sendrecv_v2_ features = true → codec_lossless junk' (ResolveCompressionType features compression).

(** The request of the client, and coders for the answer. *)
Lemma pull_request rpath any data :
  pull_codec any → ∃ req compression enc dec y, asks features rpath any req compression ∧
    encoder_of junk' compression = Ret enc ∧ decoder_of compression = Ret dec ∧ transforms enc data y ∧ transforms dec y data ∧
    (compression = CompressNone → y = data).
Proof.
  intros Hcod.
  assert (∃ enc dec, encoder_of junk' CompressNone = Ret enc ∧ decoder_of CompressNone = Ret dec ∧ transforms enc data data ∧
    transforms dec data data) as (enc & dec & He & Hd & T1 & T2).
  { eexists _, _. split_and!; [done..|apply NullEncoder_transforms|apply NullDecoder_transforms]. }
  destruct (have_sendrecv_v2_ features) eqn:Ev.
  2: { eexists _, CompressNone, enc, dec, data. split_and!; [by apply asks_v1|done..]. }
  destruct (codec_lossless_inv junk' _ (Hcod Ev)) as (flags & enc' & dec' & Hfl & He' & Hd' & Hboth).
  destruct (decide (ResolveCompressionType features any = CompressNone)) as [Hnone|Hsome].
  - eexists _, _, enc, dec, data. split_and!; [by apply (asks_v2 _ _ _ flags)|by rewrite Hnone..|done|done|done].
  - destruct (Hboth data) as (y & T3 & T4). eexists _, _, enc', dec', y. split_and!; [by apply (asks_v2 _ _ _ flags)|done..].
Qed.

End together.

(** A file of two lines, to a client that has another one of that name; the
    device understands the second version. *)
Definition remote_log : bytes * node := (str "/sdcard/log", sample_file (str "one, two")).
Definition old_log : bytes * node := (str "log", sample_file (str "zero")).
Definition new_log : bytes * node := (str "log", Node (Stat 0 0 0x81a4 1 0 0 8 0 0 0) (str "one, two")).

Definition asked_device (req : bytes) : @service memory_files :=
  @Service memory_files (one_by_one req) (Out [] []) [remote_log] None [].
Definition pulling_client (answer : bytes) : @sync_conn memory_files :=
  @Conn memory_files (one_by_one answer) (Out [] []) [old_log] None [] [] [] ledger_zero ledger_zero [].

