(* ===== verification/SyncListing.v ===== *)
(** * Status and directories of the device

    What [do_stat_v2] and [do_list] send, the client's [FinishStat] and
    [FinishLs] understand; and what [FinishLs] makes of anything else. *)

From S2P Require Import Prelude State CString CStringFacts LibBase LibBaseFacts AdbIO AdbIOFacts Types TypesFacts.
From S2P Require Import Compression CompressionFacts Paths Errno SyncProtocol SyncService SyncClient SyncSample SyncFacts SyncPush SyncPull.
Local Open Scope Z_scope.
Local Open Scope record_scope.

(** ** Fields of the messages *)

Lemma s64_at_app pre z post : - 2 ^ 63 ≤ z < 2 ^ 63 → s64_at (pre ++ le64 z ++ post) (length pre) = z.
Proof.
  intros Hz. unfold s64_at. rewrite u64_at_app. unfold u64. case_match eqn:E; revert E; rewrite ?Z.ltb_lt, ?Z.ltb_ge; Z.div_mod_to_equations; lia.
Qed.

(** The fields of a [struct stat] fit those of the message. *)
Definition stat_ok (st : stat) : Prop :=
  (0 ≤ st_dev st < 2 ^ 64 ∧ 0 ≤ st_ino st < 2 ^ 64) ∧
  (0 ≤ st_mode st < 2 ^ 32 ∧ 0 ≤ st_nlink st < 2 ^ 32 ∧ 0 ≤ st_uid st < 2 ^ 32 ∧ 0 ≤ st_gid st < 2 ^ 32) ∧
  (- 2 ^ 63 ≤ st_size st < 2 ^ 63 ∧ - 2 ^ 63 ≤ st_atime st < 2 ^ 63 ∧ - 2 ^ 63 ≤ st_mtime st < 2 ^ 63 ∧ - 2 ^ 63 ≤ st_ctime st < 2 ^ 63).

Lemma u32_at_field z post : 0 ≤ z < 2 ^ 32 → u32_at (le32 z ++ post) 0 = z.
Proof. intros Hz. etrans; [apply (u32_at_app [] z post)|]. by apply u32_small. Qed.
Lemma u64_at_field z post : 0 ≤ z < 2 ^ 64 → u64_at (le64 z ++ post) 0 = z.
Proof. intros Hz. etrans; [apply (u64_at_app [] z post)|]. by apply u64_small. Qed.
Lemma s64_at_field z post : - 2 ^ 63 ≤ z < 2 ^ 63 → s64_at (le64 z ++ post) 0 = z.
Proof. apply (s64_at_app [] z post). Qed.

(** A field of a message that is given by its fields *)
Ltac at_field :=
  lazymatch goal with
  | |- u32_at ?m ?k = ?z => by apply (u32_at_field z (drop (k + 4) m))
  | |- u64_at ?m ?k = ?z => by apply (u64_at_field z (drop (k + 8) m))
  | |- s64_at ?m ?k = ?z => by apply (s64_at_field z (drop (k + 8) m))
  end.

Lemma stat_v2_fields id error st more :
  let msg := stat_v2_bytes id error st ++ more in
  u32_at msg 0 = u32 id ∧ u32_at msg 4 = u32 error ∧ (stat_ok st → stat_of_v2 msg = st) ∧ drop 72 msg = more.
Proof.
  cbv zeta. unfold stat_v2_bytes, stat_fields. rewrite <- !app_assoc. split_and!.
  - apply (u32_at_app [] id).
  - apply (u32_at_app (le32 id) error).
  - intros ((H1 & H2) & (H3 & H4 & H5 & H6) & H7 & H8 & H9 & H10). unfold stat_of_v2. destruct st as [dev ino mode nlink uid gid size atime mtime ctime].
    f_equal; at_field.
  - reflexivity.
Qed.

Lemma stat_v1_fields id mode size mtime more :
  let msg := stat_v1_bytes id mode size mtime ++ more in
  u32_at msg 0 = u32 id ∧ u32_at msg 4 = u32 mode ∧ u32_at msg 8 = u32 size ∧ u32_at msg 12 = u32 mtime.
Proof.
  cbv zeta. unfold stat_v1_bytes. rewrite <- !app_assoc. split_and!.
  - apply (u32_at_app [] id).
  - apply (u32_at_app (le32 id) mode).
  - apply (u32_at_app (le32 id ++ le32 mode) size).
  - apply (u32_at_app (le32 id ++ le32 mode ++ le32 size) mtime).
Qed.

(** ** The status of a file *)

Section read.
Context `{HF : !Files}.
Implicit Type c : sync_conn.

(** [c'] is [c] after [req] was written and an answer was read, before [rest]. *)
Record asked c c' (req rest : bytes) : Prop := {
  as_out : accepts (c_out c') ∧ o_written (c_out c') = o_written (c_out c) ++ req;
  as_in : blocking (c_in c') ∧ stream_data (c_in c') = rest;
  as_local : local c' = local c ∧ downloaded c' = downloaded c;
  as_acks : deferred_acknowledgements_ c' = deferred_acknowledgements_ c ∧
    acknowledgement_buffer_ c' = acknowledgement_buffer_ c ∧ polls c' = polls c;
  as_errors : errors c' = errors c
}.

Lemma advances_asked c c' req : advances c c' req → blocking (c_in c) → asked c c' req (stream_data (c_in c)).
Proof. intros [H1 [H2 H3] H4 [H5 H6] H7] Hb. split; [done|by rewrite H2|done|done|done]. Qed.

Lemma wp_asked_read c0 c req bs rest n Q :
  asked c0 c req (bs ++ rest) → n = zlen bs → zlen bs < 2 ^ 64 →
  (∀ c', asked c0 c' req rest → Q (true, bs) c') → wp (conn_read n) Q c.
Proof.
  intros [H1 [Hb Hd] H3 H4 H5] -> Hl H. destruct (read_bytes (c_in c) bs rest) as (i & E & D & B); [done..|].
  unfold wp, conn_read. rewrite E. mstep. apply H. by destruct c.
Qed.
End read.

Lemma map_find_value l key value n v : map_find l key value n = Some v → ∃ e, v = value e.
Proof. induction l as [|e l IH]; [done|]. cbn. case_match; [|done]. intros [= <-]. by exists e. Qed.

(** An error is sent as a number of the protocol, none of which is 0. *)
Lemma errno_to_wire_range `{!HostErrno} e : 0 < errno_to_wire e < 2 ^ 31.
Proof.
  unfold errno_to_wire. destruct (host_to_wire e) as [v|] eqn:E; [|done]. apply map_find_value in E as [e' ->]. by destruct e'.
Qed.

(** What the client is told about a file: everything but the number of an
    error, in the second version; the mode and parts of the size and the time in the
    first, where nothing tells a missing file from one that has none of these. *)
Definition understood (HH' HH : HostErrno) `{!ClientErrno} (v2 : bool) (r : Z + stat) : Z + stat :=
  if v2 then match r with inr st => inr st | inl e => inl (@errno_from_wire HH (@errno_to_wire HH' e)) end
  else
    let st := match r with inr st => st | inl _ => stat_zero end in
    if (u32 (st_mode st) =? 0) && (u32 (st_size st) =? 0) && (u32 (st_mtime st) =? 0) then inl ENOPROTOOPT
    else inr (Stat 0 0 (u32 (st_mode st)) 0 0 0 (u32 (st_size st)) 0 (u32 (st_mtime st)) (u32 (st_mtime st))).

Section stat.
Context (junk : nat → byte) (FC FD : Files) `{HC : !Codecs} (HH HH' : HostErrno) `{HE : !ClientErrno, HD : !Device}.
Context (features : sync_features).

Definition stat_id (follow : bool) : Z :=
  if have_stat_v2_ features then if follow then ID_STAT_V2 else ID_LSTAT_V2 else ID_LSTAT_V1.

(** The status as the device finds it; the first version does not follow links. *)
Definition device_stat (follow : bool) (g : @fs FD) (path : bytes) : Z + stat :=
  if follow then @path_stat FD g path else @path_lstat FD g path.

Definition stat_answer (follow : bool) (r : Z + stat) : bytes :=
  if have_stat_v2_ features then
    match r with
    | inr st => stat_v2_bytes (stat_id follow) 0 st
    | inl e => stat_v2_bytes (stat_id follow) (@errno_to_wire HH' e) stat_zero
    end
  else let st := match r with inr st => st | inl _ => stat_zero end in
    stat_v1_bytes ID_LSTAT_V1 (st_mode st) (st_size st) (st_mtime st).

Lemma wp_stat_answer turns follow path (s : @service FD) rest Q :
  (follow = true → have_stat_v2_ features = true) → path_ok path → accepts (s_out s) → blocking (s_in s) →
  stream_data (s_in s) = sync_header (stat_id follow) (zlen path) ++ path ++ rest →
  (∀ i s', blocking i → stream_data i = rest → writes (set_in i s) s' (stat_answer follow (device_stat follow (files s) path)) → Q true s') →
  wp (@handle_sync_command junk FD HC HH' HD turns) Q s.
Proof.
  intros Hfol Hp Ha Hb Hd HQ. eapply wp_command; [done|exact Hd|by unfold stat_id; destruct (have_stat_v2_ features), follow|done|].
  intros i Bi Di. specialize (HQ i). unfold stat_answer, device_stat, stat_id in *. destruct (have_stat_v2_ features) eqn:Ev.
  - assert (wp (@do_stat_v2 FD HH' (if follow then ID_STAT_V2 else ID_LSTAT_V2) path) Q (set_in i s)) as H; [|by destruct follow].
    unfold do_stat_v2. st_go. change (files (set_in i s)) with (files s).
    assert (((if follow then ID_STAT_V2 else ID_LSTAT_V2) =? ID_STAT_V2) = follow) as -> by by destruct follow.
    destruct (if follow then path_stat (files s) path else path_lstat (files s) path); (eapply wp_writes; [done|]; intros s' Hs; by apply HQ).
  - destruct follow; [by specialize (Hfol eq_refl)|]. change (wp (@do_lstat_v1 FD path) Q (set_in i s)). unfold do_lstat_v1. st_go.
    eapply wp_writes; [done|]. intros s' Hs. by apply HQ.
Qed.

Lemma wp_finish_stat follow r (c0 c : @sync_conn FC) req rest Q :
  match r with inr st => stat_ok st | inl _ => True end →
  asked c0 c req (stat_answer follow r ++ rest) →
  (∀ c', asked c0 c' req rest → Q (understood HH' HH (have_stat_v2_ features) r) c') →
  wp (@FinishStat FC HH HE features) Q c.
Proof.
  intros Hok Has HQ. unfold FinishStat, stat_answer, understood in *. destruct (have_stat_v2_ features) eqn:Ev.
  - assert (∃ error st, match r with
        | inr st => stat_v2_bytes (stat_id follow) 0 st
        | inl e => stat_v2_bytes (stat_id follow) (@errno_to_wire HH' e) stat_zero
        end = stat_v2_bytes (stat_id follow) error st ∧ 0 ≤ error < 2 ^ 31 ∧ stat_ok st ∧
        match r with inr st => inr st | inl e => inl (@errno_from_wire HH (@errno_to_wire HH' e)) end =
        if error =? 0 then inr st else inl (@errno_from_wire HH error)) as (error & st & Em & He & Hst & Er).
    { destruct r as [e|st]; [|by exists 0, st]. pose proof (errno_to_wire_range (H := HH') e) as Hw. exists (@errno_to_wire HH' e), stat_zero.
      split_and!; [done|lia|lia|done|]. by rewrite (proj2 (Z.eqb_neq _ _)) by lia. }
    rewrite Em in Has. rewrite Er in HQ. st_go. eapply wp_asked_read; [exact Has|done|done|]. intros c' Hc. cbv beta iota. cbn [negb].
    destruct (stat_v2_fields (stat_id follow) error st []) as (F0 & F4 & Fs & _). rewrite app_nil_r in F0, F4, Fs.
    rewrite F0, F4, Fs, !u32_small, s32_small by (done || lia || (unfold stat_id; rewrite Ev; by destruct follow)).
    assert (negb (stat_id follow =? ID_LSTAT_V2) && negb (stat_id follow =? ID_STAT_V2) = false) as ->
      by (unfold stat_id; rewrite Ev; by destruct follow).
    specialize (HQ c' Hc). destruct (error =? 0); cbn [negb]; st_go; exact HQ.
  - set (st := match r with inr st => st | inl _ => stat_zero end) in *. st_go.
    eapply wp_asked_read; [exact Has|done|done|]. intros c' Hc. cbv beta iota. cbn [negb].
    destruct (stat_v1_fields ID_LSTAT_V1 (st_mode st) (st_size st) (st_mtime st) []) as (F0 & F4 & F8 & F12).
    rewrite app_nil_r in F0, F4, F8, F12. rewrite F0, F4, F8, F12. change (u32 ID_LSTAT_V1 =? ID_LSTAT_V1) with true. cbn [negb].
    specialize (HQ c' Hc). destruct (_ && _); st_go; exact HQ.
Qed.

(** [sync_stat] and [sync_lstat] *)
Definition client_stat (follow : bool) (path : bytes) : ST (@sync_conn FC) (Z + stat) :=
  if follow then @sync_stat FC HH HE features path else @sync_lstat FC HH HE features path.

Lemma wp_client_stat follow path r (c : @sync_conn FC) rest Q :
  (follow = true → have_stat_v2_ features = true) → zlen path ≤ 1024 → accepts (c_out c) → blocking (c_in c) →
  match r with inr st => stat_ok st | inl _ => True end → stream_data (c_in c) = stat_answer follow r ++ rest →
  (∀ c', asked c c' (sync_header (stat_id follow) (zlen path) ++ path) rest → Q (understood HH' HH (have_stat_v2_ features) r) c') →
  wp (client_stat follow path) Q c.
Proof.
  intros Hfol Hl Ha Hb Hok Hd HQ.
  assert (wp (r ← @SendRequest FC HH HE (stat_id follow) path; match r with Some e => mret (inl e) | None => @FinishStat FC HH HE features end) Q c) as H.
  { st_go. apply wp_send_request; [done..|]. intros c1 H1. cbv beta iota. eapply wp_finish_stat; [exact Hok| |exact HQ].
    rewrite <- Hd. by apply advances_asked. }
  unfold client_stat, stat_id, sync_stat, sync_lstat, SendStat, SendLstat in *. destruct follow; [|exact H]. rewrite (Hfol eq_refl) in *. exact H.
Qed.

(** The status of a file of the device: the request [sync_stat] or [sync_lstat]
    writes is answered by the device, and from the answer, in whatever pieces it
    comes, the client gets exactly what the system call gave on the device, the number
    of an error translated twice; from a device without the second version of the
    request it gets the mode and 32 bits of the size and of the time. *)
Theorem stat_roundtrip turns follow path (s : @service FD) rest' :
  (follow = true → have_stat_v2_ features = true) → path_ok path →
  match device_stat follow (files s) path with inr st => stat_ok st | inl _ => True end →
  accepts (s_out s) → blocking (s_in s) →
  stream_data (s_in s) = sync_header (stat_id follow) (zlen path) ++ path ++ rest' →
  ∃ s' answer, @handle_sync_command junk FD HC HH' HD turns s = Ret (true, s') ∧ files s' = files s ∧
    stream_data (s_in s') = rest' ∧ o_written (s_out s') = o_written (s_out s) ++ answer ∧
  ∀ (c : @sync_conn FC) rest, accepts (c_out c) → blocking (c_in c) → stream_data (c_in c) = answer ++ rest →
  ∃ c', client_stat follow path c = Ret (understood HH' HH (have_stat_v2_ features) (device_stat follow (files s) path), c') ∧
    asked c c' (sync_header (stat_id follow) (zlen path) ++ path) rest.
Proof.
  intros Hfol Hp Hok Ha Hb Hs.
  destruct (proj1 (wp_run _ (λ ok s', ok = true ∧ ∃ i, stream_data i = rest' ∧
      writes (set_in i s) s' (stat_answer follow (device_stat follow (files s) path))) _)
    (wp_stat_answer turns follow path s rest' _ Hfol Hp Ha Hb Hs
      (λ i s' H1 H2 H3, conj eq_refl (ex_intro _ i (conj H2 H3))))) as (ok & s' & E & -> & i & Di & (o & -> & Ao & Wo)).
  eexists _, _. split_and!; [exact E|done|exact Di|exact Wo|]. intros c rest Hac Hbc Hd.
  destruct (proj1 (wp_run _ (λ r c', r = understood HH' HH (have_stat_v2_ features) (device_stat follow (files s) path) ∧
      asked c c' (sync_header (stat_id follow) (zlen path) ++ path) rest) _)
    (wp_client_stat follow path _ c rest _ Hfol (proj2 Hp) Hac Hbc Hok Hd (λ c' H, conj eq_refl H))) as (r & c' & E' & -> & H).
  by exists c'.
Qed.
End stat.

(** ** Directories *)

Lemma u32_at_word z post : u32_at (le32 z ++ post) 0 = u32 z.
Proof. apply (u32_at_app [] z post). Qed.
Lemma u64_at_word z post : u64_at (le64 z ++ post) 0 = u64 z.
Proof. apply (u64_at_app [] z post). Qed.

Ltac at_word :=
  lazymatch goal with
  | |- u32_at ?m ?k = u32 ?z => apply (u32_at_word z (drop (k + 4) m))
  | |- u64_at ?m ?k = u64 ?z => apply (u64_at_word z (drop (k + 8) m))
  end.

Lemma dent_v2_fields id error st len :
  let msg := dent_v2_bytes id error st len in
  zlen msg = sizeof_dent_v2 ∧ u32_at msg 0 = u32 id ∧ u32_at msg 24 = u32 (st_mode st) ∧
  u64_at msg 40 = u64 (st_size st) ∧ u64_at msg 56 = u64 (st_mtime st) ∧ u32_at msg 72 = u32 len.
Proof.
  cbv zeta. unfold dent_v2_bytes, stat_v2_bytes, stat_fields. rewrite <- !app_assoc. destruct st as [dev ino mode nlink uid gid size atime mtime ctime].
  split_and!; [reflexivity|at_word..].
Qed.

Lemma dent_v1_fields id mode size mtime len :
  let msg := dent_v1_bytes id mode size mtime len in
  zlen msg = sizeof_dent_v1 ∧ u32_at msg 0 = u32 id ∧ u32_at msg 4 = u32 mode ∧ u32_at msg 8 = u32 size ∧ u32_at msg 12 = u32 mtime ∧
  u32_at msg 16 = u32 len.
Proof.
  cbv zeta. destruct (stat_v1_fields id mode size mtime (le32 len)) as (F0 & F4 & F8 & F12). unfold dent_v1_bytes.
  split_and!; [done..|]. apply (u32_at_word len []).
Qed.

(** What the client is told about an entry. *)
Definition entry_of (v2 : bool) (r : Z + stat) (name : bytes) : option dent :=
  match r with
  | inr st =>
      Some (if v2 then Dent (u32 (st_mode st)) (u64 (st_size st)) (u64 (st_mtime st)) name
            else Dent (u32 (st_mode st)) (u32 (st_size st)) (u32 (st_mtime st)) name)
  | inl _ => if v2 then Some (Dent 0 0 0 name) else None
  end.

(** A name as the file system has them. *)
Definition name_ok (name : bytes) : Prop := (slash ∉ name) ∧ (NUL ∉ name) ∧ zlen name ≤ 255.

Section list.
Context `{HF : !Files}.

Definition listing (v2 : bool) (g : fs) (path : bytes) : list dent :=
  match path_readdir g path with
  | inr names => omap (λ name, entry_of v2 (path_lstat g (path ++ str "/" ++ name)) name) names
  | inl _ => []
  end.

(** The message and the name of an entry *)
Definition entry_bytes (v2 : bool) (g : fs) (path name : bytes) : bytes :=
  match dent_message v2 g path name with Some msg => msg ++ name | None => [] end.
Definition last_bytes (v2 : bool) : bytes := if v2 then dent_v2_bytes ID_DONE 0 stat_zero 0 else dent_v1_bytes ID_DONE 0 0 0 0.

Lemma wp_list_entries v2 path names : ∀ s Q,
  accepts (s_out s) → (∀ s', writes s s' (concat (entry_bytes v2 (files s) path <$> names)) → Q true s') →
  wp (list_entries v2 path names) Q s.
Proof.
  induction names as [|name names IH]; intros s Q Ha HQ; cbn [list_entries].
  { st_go. by apply HQ, writes_refl. }
  st_go. cbn [fmap list_fmap concat] in HQ. unfold entry_bytes at 1 in HQ. destruct (dent_message v2 (files s) path name) as [msg|].
  2: { apply IH; [done|]. exact HQ. }
  st_go. apply wp_writes; [done|]. intros s1 H1. cbv beta iota. st_go. apply wp_writes; [by eapply writes_accepts|]. intros s2 H2. cbv beta iota.
  apply IH; [by eapply writes_accepts|]. intros s3 H3. apply HQ. rewrite <- app_assoc. eapply writes_trans; [exact H1|].
  eapply writes_trans; [exact H2|]. revert H3. destruct H2 as (o2 & -> & _), H1 as (o1 & -> & _). done.
Qed.

Lemma wp_do_list v2 path s Q :
  accepts (s_out s) →
  (∀ s', writes s s' (match path_readdir (files s) path with
                      | inr names => concat (entry_bytes v2 (files s) path <$> names)
                      | inl _ => [] end ++ last_bytes v2) → Q true s') →
  wp (do_list v2 path) Q s.
Proof.
  intros Ha HQ. unfold do_list. st_go. destruct (path_readdir (files s) path) as [e|names].
  - st_go. cbn [negb]. by apply wp_writes.
  - apply wp_list_entries; [done|]. intros s1 H1. cbn [negb]. apply wp_writes; [by eapply writes_accepts|]. intros s2 H2. apply HQ.
    by eapply writes_trans.
Qed.
End list.

(** ** The client reads a listing *)

Section client.
Context (FC FD : Files).
Implicit Type c : @sync_conn FC.

Lemma dent_message_fields v2 g path name msg :
  dent_message v2 g path name = Some msg → name_ok name →
  ∃ e, entry_of v2 (path_lstat g (path ++ str "/" ++ name)) name = Some e ∧
    zlen msg = (if v2 then sizeof_dent_v2 else sizeof_dent_v1) ∧ u32_at msg 0 = (if v2 then ID_DENT_V2 else ID_DENT_V1) ∧
    u32_at msg (if v2 then 72 else 16) = zlen name ∧
    e = if v2 then Dent (u32_at msg 24) (u64_at msg 40) (u64_at msg 56) name
        else Dent (u32_at msg 4) (u32_at msg 8) (u32_at msg 12) name.
Proof.
  intros E (_ & _ & Hl). unfold dent_message, entry_of in *. assert (u32 (zlen name) = zlen name) as Hn by (apply u32_small; lia).
  destruct v2.
  - assert (∃ error st, msg = dent_v2_bytes ID_DENT_V2 error st (zlen name) ∧
      match path_lstat g (path ++ str "/" ++ name) with
      | inr st => Some (Dent (u32 (st_mode st)) (u64 (st_size st)) (u64 (st_mtime st)) name)
      | inl _ => Some (Dent 0 0 0 name)
      end = Some (Dent (u32 (st_mode st)) (u64 (st_size st)) (u64 (st_mtime st)) name)) as (error & st & -> & ->).
    { destruct (path_lstat _ _) as [e|st]; injection E as <-; [by exists e, stat_zero|by exists 0, st]. }
    destruct (dent_v2_fields ID_DENT_V2 error st (zlen name)) as (F & F0 & F24 & F40 & F56 & F72).
    eexists. rewrite F0, F24, F40, F56, F72, Hn. done.
  - destruct (path_lstat _ _) as [e|st]; [done|]. injection E as <-.
    destruct (dent_v1_fields ID_DENT_V1 (st_mode st) (st_size st) (st_mtime st) (zlen name)) as (F & F0 & F4 & F8 & F12 & F16).
    eexists. rewrite F0, F4, F8, F12, F16, Hn. done.
Qed.

Lemma wp_ls_loop v2 g path names : ∀ fuel c0 c req rest entries Q,
  Forall name_ok names → (length (concat (entry_bytes v2 g path <$> names)) < fuel)%nat →
  asked c0 c req (concat (entry_bytes v2 g path <$> names) ++ last_bytes v2 ++ rest) →
  (∀ c', asked c0 c' req rest →
     Q (true, entries ++ omap (λ name, entry_of v2 (path_lstat g (path ++ str "/" ++ name)) name) names) c') →
  wp (@ls_loop FC fuel v2 entries) Q c.
Proof.
  induction names as [|name names IH]; intros fuel c0 c req rest entries Q Hn Hf Has HQ.
  - destruct fuel as [|fuel]; [cbn in Hf; lia|]. cbn [ls_loop]. st_go. cbn [fmap list_fmap concat app] in Has. eapply wp_asked_read; [exact Has|by destruct v2|by destruct v2|].
    intros c' Hc. cbv beta iota. cbn [negb]. assert ((u32_at (last_bytes v2) 0 =? ID_DONE) = true) as -> by by destruct v2.
    st_go. specialize (HQ c' Hc). cbn [omap list_omap] in HQ. by rewrite app_nil_r in HQ.
  - apply Forall_cons in Hn as [Hname Hn]. cbn [fmap list_fmap concat] in Has, Hf. unfold entry_bytes at 1 in Has. unfold entry_bytes at 1 in Hf.
    destruct (dent_message v2 g path name) as [msg|] eqn:Em.
    + destruct fuel as [|fuel]; [lia|]. destruct (dent_message_fields _ _ _ _ _ Em Hname) as (e & Ee & Fl & F0 & Flen & Fe). cbn [ls_loop]. st_go.
      rewrite <- !app_assoc in Has. eapply wp_asked_read; [exact Has|done|by rewrite Fl; destruct v2|].
      intros c1 H1. cbv beta iota. cbn [negb]. rewrite F0, Flen. assert (((if v2 then ID_DENT_V2 else ID_DENT_V1) =? ID_DONE) = false) as -> by by destruct v2.
      rewrite Z.eqb_refl. cbn [negb]. destruct Hname as (Hsl & Hnul & Hlen). rewrite (proj2 (Z.ltb_ge _ _)) by lia. st_go.
      eapply wp_asked_read; [exact H1|done|lia|]. intros c2 H2. cbv beta iota. cbn [negb]. rewrite c_str_id by done.
      rewrite bool_decide_false by done. rewrite <- Fe. eapply IH; [done| |exact H2|].
      { rewrite !length_app in Hf. assert (0 < zlen msg) by (rewrite Fl; by destruct v2). lia. }
      intros c3 H3.
      specialize (HQ c3 H3). cbn [omap list_omap] in HQ. rewrite Ee in HQ. by rewrite <- app_assoc.
    + cbn [app] in Has. eapply IH; [done|exact Hf|exact Has|]. intros c3 H3. specialize (HQ c3 H3). cbn [omap list_omap] in HQ.
      assert (entry_of v2 (path_lstat g (path ++ str "/" ++ name)) name = None) as E0; [|by rewrite E0 in HQ].
      revert Em. unfold dent_message, entry_of. destruct (path_lstat _ _), v2; done.
Qed.
End client.

Section directory.
Context (junk : nat → byte) (FC FD : Files) `{HC : !Codecs} (HH HH' : HostErrno) `{HE : !ClientErrno, HD : !Device}.
Context (features : sync_features).

Definition list_id : Z := if have_ls_v2_ features then ID_LIST_V2 else ID_LIST_V1.

(** C26: Listing a directory of the device: the request [sync_ls] writes is
    answered by the device, and from the answer, in whatever pieces it comes, the client
    gets an entry, with its name and what [lstat] said of it, for every
    entry of the directory, in the order of the directory; the first version
    leaves out what has no status.  A directory that cannot be opened looks
    empty. *)
Theorem list_roundtrip turns path (s : @service FD) rest' :
  path_ok path → match @path_readdir FD (files s) path with inr names => Forall name_ok names | inl _ => True end →
  accepts (s_out s) → blocking (s_in s) → stream_data (s_in s) = sync_header list_id (zlen path) ++ path ++ rest' →
  ∃ s' answer, @handle_sync_command junk FD HC HH' HD turns s = Ret (true, s') ∧ files s' = files s ∧
    stream_data (s_in s') = rest' ∧ o_written (s_out s') = o_written (s_out s) ++ answer ∧
  ∀ (c : @sync_conn FC) rest, accepts (c_out c) → blocking (c_in c) → stream_data (c_in c) = answer ++ rest →
  ∃ c', @sync_ls FC HH HE features path c = Ret ((true, @listing FD (have_ls_v2_ features) (files s) path), c') ∧
    asked c c' (sync_header list_id (zlen path) ++ path) rest.
Proof.
  intros Hp Hnames Ha Hb Hs. set (v2 := have_ls_v2_ features) in *.
  set (ents := match @path_readdir FD (files s) path with inr names => concat (@entry_bytes FD v2 (files s) path <$> names) | inl _ => [] end).
  destruct (proj1 (wp_run (@handle_sync_command junk FD HC HH' HD turns) (λ ok s', ok = true ∧ ∃ i, stream_data i = rest' ∧
      writes (set_in i s) s' (ents ++ last_bytes v2)) s)) as (ok & s' & E & -> & i & Di & (o & -> & Ao & Wo)).
  { eapply wp_command; [done|exact Hs|by unfold list_id; fold v2; destruct v2|done|]. intros i Bi Di.
    assert (wp (@do_list FD v2 path) (λ ok s', ok = true ∧ ∃ i, stream_data i = rest' ∧ writes (set_in i s) s' (ents ++ last_bytes v2)) (set_in i s)) as H.
    { apply wp_do_list; [done|]. intros s' Hs'. split; [done|]. by exists i. }
    unfold list_id. fold v2. by destruct v2. }
  eexists _, _. split_and!; [exact E|done|exact Di|exact Wo|]. intros c rest Hac Hbc Hd.
  destruct (proj1 (wp_run (@sync_ls FC HH HE features path) (λ r c', r = (true, @listing FD v2 (files s) path) ∧
    asked c c' (sync_header list_id (zlen path) ++ path) rest) c)) as (r & c' & E' & -> & H); [|by exists c'].
  unfold sync_ls, SendLs. st_go. apply wp_send_request; [apply Hp|done|]. intros c1 H1. cbv beta iota. unfold FinishLs. st_go. fold v2.
  assert (asked c c1 (sync_header list_id (zlen path) ++ path) (ents ++ last_bytes v2 ++ rest)) as Has.
  { rewrite app_assoc, <- Hd. by apply advances_asked. }
  pose proof (stream_data_size (c_in c1)) as Hsz. rewrite (proj1 (ad_in _ _ _ H1)), Hd, <- app_assoc, length_app in Hsz.
  rewrite (proj1 (ad_in _ _ _ H1)). unfold listing, ents in *. destruct (@path_readdir FD (files s) path) as [e|names].
  - eapply (wp_ls_loop FC FD v2 (files s) path []); [done|cbn; lia|exact Has|done].
  - eapply (wp_ls_loop FC FD v2 (files s) path names); [done|lia|exact Has|done].
Qed.
End directory.

(** ** Whatever the device sends *)

Lemma u32_at_range bs off : 0 ≤ u32_at bs off < 2 ^ 32.
Proof. unfold u32_at. destruct (take 4 (drop off bs)) as [|b0 [|b1 [|b2 [|b3 [|]]]]]; try done. apply le32_val_bound. Qed.

Lemma c_str_length s : (length (c_str s) ≤ length s)%nat.
Proof. induction s as [|b s IH]; [done|]. cbn. case_bool_decide; cbn; lia. Qed.

Lemma input_size_cons a i :
  input_size (a :: i) = (match a with Data bs => length bs | Fault _ => 0%nat end + input_size i)%nat.
Proof. done. Qed.

Lemma adb_read_size fd n :
  0 < n → match adb_read fd n with
  | (ReadBytes bs, fd') => (length bs + input_size fd' ≤ input_size fd)%nat
  | (ReadError _, fd') => (input_size fd' ≤ input_size fd)%nat
  end.
Proof.
  intros Hn. destruct fd as [|[bs|e] fd]; cbn [adb_read]; rewrite ?input_size_cons; [done| |lia].
  destruct (Z.ltb_spec (Z.min n MAX_RW_COUNT) (zlen bs)).
  - rewrite input_size_cons, Nat.add_assoc, <- length_app, ztake_zdrop. lia.
  - unfold ztake. rewrite length_take. lia.
Qed.

Lemma read_loop_size fuel : ∀ fd got len ok b i,
  0 ≤ len < 2 ^ 64 → read_loop fuel fd got len = Ret (ok, b, i) → (length b + input_size i ≤ length got + input_size fd)%nat.
Proof.
  induction fuel as [|fuel IH]; intros fd got len ok b i Hl; cbn [read_loop]; destruct (Z.ltb_spec 0 len) as [Hp|Hp].
  1: done. 1,3: by intros [= <- <- <-].
  pose proof (adb_read_size fd len Hp) as Hr. pose proof (adb_read_stream fd len Hp) as Hs. destruct (adb_read fd len) as [[bs|e] fd'].
  - destruct (Z.ltb_spec 0 (zlen bs)) as [Hb|Hb]; [|intros [= <- <- <-]; lia]. intros E. apply IH in E; [|apply u64_bound].
    rewrite length_app in E. lia.
  - intros [= <- <- <-]. lia.
Qed.

Section any.
Context `{HF : !Files}.
Implicit Type c : sync_conn.

Definition unread c : nat := input_size (c_in c).

(** [c'] is [c] after more of the input was read. *)
Definition consumed c c' : Prop := ∃ i, c' = c <| c_in := i |> ∧ (input_size i ≤ unread c)%nat.

Lemma consumed_refl c : consumed c c.
Proof. exists (c_in c). split; [by destruct c|done]. Qed.
Lemma consumed_trans c1 c2 c3 : consumed c1 c2 → consumed c2 c3 → consumed c1 c3.
Proof. intros (i & -> & H) (i' & -> & H'). exists i'. split; [by destruct c1|]. unfold unread in *. change (c_in (c1 <| c_in := i |>)) with i in H'. lia. Qed.
Lemma consumed_unread c c' : consumed c c' → (unread c' ≤ unread c)%nat.
Proof. by intros (i & -> & H). Qed.

(** Reading always returns; when it succeeds the bytes are gone. *)
Lemma wp_read_any c n Q :
  0 ≤ n < 2 ^ 64 →
  (∀ ok bs c', consumed c c' → (ok = true → zlen bs = n ∧ Z.of_nat (unread c') + n ≤ Z.of_nat (unread c)) → Q (ok, bs) c') →
  wp (conn_read n) Q c.
Proof.
  intros Hn H. destruct (read_exactly_spec (c_in c) n Hn) as (i & E & Hi). unfold wp, conn_read. rewrite E. mstep.
  unfold ReadFdExactly in E. apply read_loop_size in E; [|done]. cbn [length] in E. apply H.
  - exists i. split; [done|unfold unread; lia].
  - intros Hl%Z.leb_le. assert (zlen (ztake n (stream_data (c_in c))) = n) as Hz by (rewrite zlen_ztake; lia). split; [done|].
    unfold unread. change (c_in (c <| c_in := i |>)) with i. lia.
Qed.

Lemma wp_ls_any v2 fuel : ∀ entries c Q,
  (unread c < fuel)%nat →
  (∀ ok es c', consumed c c' → Forall (λ d, name_ok (d_name d)) es → (ok = true → (unread c' < unread c)%nat) → Q (ok, entries ++ es) c') →
  wp (ls_loop fuel v2 entries) Q c.
Proof.
  induction fuel as [|fuel IH]; intros entries c Q Hf HQ; [lia|]. cbn [ls_loop]. st_go.
  assert (∀ c', consumed c c' → Q (false, entries) c') as Hno.
  { intros c' Hc. rewrite <- (app_nil_r entries). by apply HQ. }
  apply wp_read_any; [by destruct v2|]. intros ok msg c1 H1 O1. cbv beta iota. destruct ok; cbn [negb]; [|st_go; by apply Hno].
  destruct (O1 eq_refl) as [_ L1]. destruct (u32_at msg 0 =? ID_DONE).
  { st_go. rewrite <- (app_nil_r entries). apply HQ; [done..|]. intros _. destruct v2; unfold sizeof_dent_v2, sizeof_dent_v1 in L1; lia. }
  destruct (negb (u32_at msg 0 =? _)); [st_go; by apply Hno|]. destruct (Z.ltb_spec 255 (u32_at msg (if v2 then 72 else 16))) as [|Hlen]; [st_go; by apply Hno|].
  st_go. apply wp_read_any; [pose proof (u32_at_range msg (if v2 then 72 else 16)); lia|]. intros ok buf c2 H2 O2. cbv beta iota. assert (consumed c c2) as Hc2 by by eapply consumed_trans.
  destruct ok; cbn [negb]; [|st_go; by apply Hno]. destruct (O2 eq_refl) as [L2 U2]. case_bool_decide as Hsl; [st_go; by apply Hno|].
  assert (unread c2 < unread c)%nat as Hlt.
  { apply consumed_unread in H2. destruct v2; unfold sizeof_dent_v2, sizeof_dent_v1 in L1; lia. }
  eapply IH; [lia|].
  intros ok es c3 H3 Hes O3. rewrite <- app_assoc. apply HQ; [by eapply consumed_trans| |].
  - constructor; [|done]. pose proof (c_str_length buf). destruct v2; (split_and!; [done|apply c_str_no_nul|cbn; lia]).
  - intros Hok. specialize (O3 Hok). lia.
Qed.

(** A listing, whatever the device sends and in whatever pieces: [FinishLs]
    returns, having touched nothing but the connection, and no name it passes on has a
    slash or a zero byte in it or is longer than a file name can be, so that none
    leads out of the directory it is put in but [..], which [IsDotOrDotDot] is for. *)
Theorem FinishLs_safe features c :
  ∃ ok entries c', FinishLs features c = Ret ((ok, entries), c') ∧ Forall (λ d, name_ok (d_name d)) entries ∧ consumed c c'.
Proof.
  destruct (proj1 (wp_run (FinishLs features) (λ r c', Forall (λ d, name_ok (d_name d)) r.2 ∧ consumed c c') c)) as ([ok entries] & c' & E & H).
  { unfold FinishLs. st_go. apply wp_ls_any; [unfold unread; lia|]. by intros. }
  by exists ok, entries, c'.
Qed.
End any.

(** A device with a file and a directory, asked about them *)
Definition device_tree : tree :=
  [(str "/sdcard", sample_dir); (str "/sdcard/a", sample_file (str "hello")); (str "/sdcard/b", sample_dir)].
Definition device_asked (id : Z) (path : bytes) : @service memory_files :=
  @Service memory_files (one_by_one (sync_header id (zlen path) ++ path)) (Out [] []) device_tree None [].
Definition client_told (answer : bytes) : @sync_conn memory_files :=
  @Conn memory_files (one_by_one answer) (Out [] []) [] None [] [] [] ledger_zero ledger_zero [].

Lemma stat_roundtrip_witness :
  ∃ s' answer, @handle_sync_command no_junk memory_files (copying_codecs no_junk) linux_errno sample_device 10
      (device_asked ID_LSTAT_V2 (str "/sdcard/a")) = Ret (true, s') ∧ o_written (s_out s') = answer ∧
    ∃ c', @sync_lstat memory_files bsd_errno sample_errno all_features (str "/sdcard/a") (client_told answer) =
      Ret (inr (regular 0x1a4 5 7), c').
Proof.
  destruct (one_by_one_data (sync_header ID_LSTAT_V2 (zlen (str "/sdcard/a")) ++ str "/sdcard/a")) as [Hd Hb].
  destruct (stat_roundtrip no_junk memory_files memory_files (HC := copying_codecs no_junk) bsd_errno linux_errno (HE := sample_errno)
    (HD := sample_device) all_features 10 false (str "/sdcard/a") (device_asked ID_LSTAT_V2 (str "/sdcard/a")) [])
    as (s' & answer & E & _ & _ & Ho & H).
  - done.
  - split; [|done]. vm_compute. intros H. repeat (apply elem_of_cons in H as [H|H]; [discriminate H|]). by apply elem_of_nil in H.
  - vm_compute. repeat split; intros [=].
  - intros e He. by apply elem_of_nil in He.
  - exact Hb.
  - exact Hd.
  - exists s', answer. split_and!; [exact E|exact Ho|]. destruct (one_by_one_data answer) as [Hd' Hb'].
    destruct (H (client_told answer) []) as (c' & E' & _); [intros e He; apply elem_of_nil in He; destruct He|exact Hb'|rewrite app_nil_r; exact Hd'|].
    exists c'. exact E'.
Defined.

Lemma list_roundtrip_witness :
  ∃ s' answer, @handle_sync_command no_junk memory_files (copying_codecs no_junk) linux_errno sample_device 10
      (device_asked ID_LIST_V2 (str "/sdcard")) = Ret (true, s') ∧ o_written (s_out s') = answer ∧
    ∃ c', @sync_ls memory_files linux_errno sample_errno all_features (str "/sdcard") (client_told answer) =
      Ret ((true, [Dent 0x81a4 5 7 (str "a"); Dent 0x41ed 0 5 (str "b")]), c').
Proof.
  destruct (one_by_one_data (sync_header ID_LIST_V2 (zlen (str "/sdcard")) ++ str "/sdcard")) as [Hd Hb].
  destruct (list_roundtrip no_junk memory_files memory_files (HC := copying_codecs no_junk) linux_errno linux_errno (HE := sample_errno)
    (HD := sample_device) all_features 10 (str "/sdcard") (device_asked ID_LIST_V2 (str "/sdcard")) [])
    as (s' & answer & E & _ & _ & Ho & H).
  - split; [|done]. vm_compute. intros H. repeat (apply elem_of_cons in H as [H|H]; [discriminate H|]). by apply elem_of_nil in H.
  - change (Forall name_ok [str "a"; str "b"]).
    apply Forall_cons_2; [|apply Forall_cons_2; [|apply Forall_nil_2]];
      (split_and!; [intros H; apply list_elem_of_singleton in H; discriminate H..|by vm_compute]).
  - intros e He. by apply elem_of_nil in He.
  - exact Hb.
  - exact Hd.
  - exists s', answer. split_and!; [exact E|exact Ho|]. destruct (one_by_one_data answer) as [Hd' Hb'].
    destruct (H (client_told answer) []) as (c' & E' & _); [intros e He; apply elem_of_nil in He; destruct He|exact Hb'|rewrite app_nil_r; exact Hd'|].
    exists c'. exact E'.
Defined.
