(* ===== verification/SyncDirs.v ===== *)
(** * Copying directories: [adb/client/file_sync_client.cpp], [adb/adb_utils.cpp]

    The lists of the files to copy, and [do_sync_push], [do_sync_pull] and
    [do_sync_sync] on a connection that is established.  The separator of local
    paths is that of POSIX. *)

From S2P Require Import Prelude State CString LibBase AdbIO Types Compression Paths Errno SyncProtocol SyncService SyncClient.
Local Open Scope Z_scope.
Local Open Scope record_scope.

(** [std::string::back] *)
Definition back (s : bytes) : outcome byte := match last s with Some c => Ret c | None => UB end.

(** The string with a slash at its end *)
Definition with_slash (s : bytes) : outcome bytes :=
  c ← back s; Ret (if bool_decide (c = slash) then s else s ++ [slash]).

Definition ensure_trailing_separators (local_path remote_path : bytes) : outcome (bytes * bytes) :=
  l ← with_slash local_path; r ← with_slash remote_path; Ret (l, r).

Definition should_pull_file (mode : Z) : bool := S_ISREG mode || S_ISBLK mode || S_ISCHR mode.
Definition should_push_file (mode : Z) : bool := S_ISREG mode || S_ISLNK mode.

Record copyinfo := CopyInfo { lpath : bytes; rpath : bytes; time : Z; mode : Z; size : Z; skip : bool }.

(** The constructor of [copyinfo] *)
Definition new_copyinfo (local_path remote_path name : bytes) (mode : Z) : outcome copyinfo :=
  '(l, r) ← ensure_trailing_separators local_path remote_path;
  '(l, r) ← (if S_ISDIR mode then ensure_trailing_separators (l ++ name) (r ++ name) else Ret (l ++ name, r ++ name));
  Ret (CopyInfo l r 0 mode 0 false).

Definition with_details (ci : copyinfo) (time size : Z) (skip : bool) : copyinfo :=
  CopyInfo (lpath ci) (rpath ci) time (mode ci) size skip.

Definition dot : byte := Zbyte 46.

Definition IsDotOrDotDot (name : bytes) : bool :=
  bool_decide (name = [dot]) || bool_decide (name = [dot; dot]).

Definition is_root_dir (path : bytes) : bool := forallb (λ c, bool_decide (c = slash)) path.

(** [for (path = rpath; !is_root_dir(path); path = Dirname(path))] *)
Fixpoint parents_loop (fuel : nat) (path : bytes) (directory_list : list bytes) : outcome (list bytes) :=
  if is_root_dir path then Ret directory_list
  else match fuel with O => OutOfFuel | S fuel => parents_loop fuel (Dirname path) (directory_list ++ [path]) end.

Section dirs.
Context (junk : nat → byte) `{!Files, !Codecs, !HostErrno, !ClientErrno} (features : sync_features) (turns : nat).
Local Abbreviation C := (ST sync_conn).

(** ** [mkdirs] of [adb_utils.cpp]; the error of [stat] and [mkdir] is not returned *)

Definition directory_exists (g : fs) (path : bytes) : bool :=
  match path_stat g path with inr st => S_ISDIR (st_mode st) | inl _ => false end.

Fixpoint mkdirs (fuel : nat) (path : bytes) (g : fs) : outcome (bool * fs) :=
  if directory_exists g path then Ret (true, g)
  else
    let parent := Dirname path in
    if bool_decide (parent = path) then Ret (false, g)
    else
      match fuel with
      | O => OutOfFuel
      | S fuel =>
          '(ok, g) ← mkdirs fuel parent g;
          if negb ok then Ret (false, g)
          else
            match path_mkdir path 0x1fd g with
            | (Some _, g) => Ret (directory_exists g path, g)
            | (None, g) => Ret (true, g)
            end
      end.

(** ** Pushing *)

(** An entry of a local directory, for the lists of directories and of files. *)
Definition local_entry (dir_lpath dir_rpath name : bytes) (dirlist file_list : list copyinfo)
  : C (list copyinfo * list copyinfo) :=
  if IsDotOrDotDot name then mret (dirlist, file_list)
  else
    g ← get local;
    match path_lstat g (dir_lpath ++ name) with
    | inl _ => _ ← Error (CannotLstat (dir_lpath ++ name)); mret (dirlist, file_list)
    | inr st =>
        ci ← lift (new_copyinfo dir_lpath dir_rpath name (st_mode st));
        if S_ISDIR (st_mode st) then mret (dirlist ++ [ci], file_list)
        else
          _ ← (if should_push_file (st_mode st) then mret tt else Error (SkippingSpecial dir_lpath (st_mode st)));
          mret (dirlist, file_list ++ [with_details ci (st_mtime st) (u64 (st_size st)) (negb (should_push_file (st_mode st)))])
    end.

Fixpoint local_entries (dir_lpath dir_rpath : bytes) (names : list bytes) (dirlist file_list : list copyinfo)
  : C (list copyinfo * list copyinfo) :=
  match names with
  | [] => mret (dirlist, file_list)
  | name :: names =>
      '(dirlist, file_list) ← local_entry dir_lpath dir_rpath name dirlist file_list;
      local_entries dir_lpath dir_rpath names dirlist file_list
  end.

(** The lists of the files and of the remote directories; [again] is for a
    directory in it. *)
Definition lists : Type := list copyinfo * list bytes.

Fixpoint local_subdirs (again : bytes → bytes → lists → C (bool * lists)) (dirlist : list copyinfo) (l : lists) : C lists :=
  match dirlist with
  | [] => mret l
  | ci :: dirlist =>
      '(_, l) ← again (lpath ci) (rpath ci) (l.1, l.2 ++ [rpath ci]);
      local_subdirs again dirlist l
  end.

Definition local_turn (again : bytes → bytes → lists → C (bool * lists)) (dir_lpath dir_rpath : bytes) (l : lists) : C (bool * lists) :=
  g ← get local;
  match path_readdir g dir_lpath with
  | inl _ => _ ← Error (CannotOpenDir dir_lpath); mret (false, l)
  | inr names =>
      '(dirlist, file_list) ← local_entries dir_lpath dir_rpath names [] l.1;
      l ← local_subdirs again dirlist (file_list, l.2);
      mret (true, l)
  end.

(** [depth] bounds how deep the directories are nested. *)
Fixpoint local_build_list (depth : nat) (dir_lpath dir_rpath : bytes) (l : lists) : C (bool * lists) :=
  local_turn (match depth with O => λ _ _ _ _, OutOfFuel | S depth => local_build_list depth end) dir_lpath dir_rpath l.

Definition send_shell_command (cmd : bytes) : C unit := Error (ShellCommand cmd).

(** The workaround for devices that do not create directories; false when a path is too long. *)
Fixpoint mkdir_loop (directory_list : list bytes) (cmd : bytes) : C (option bytes) :=
  match directory_list with
  | [] => mret (Some cmd)
  | dir :: directory_list =>
      escaped_path ← lift (escape_arg dir);
      if 16384 <? zlen escaped_path then _ ← Error (EscapedTooLong escaped_path); mret None
      else
        cmd ← (if 32768 <? zlen cmd + zlen escaped_path then _ ← send_shell_command cmd; mret (str "mkdir") else mret cmd);
        mkdir_loop directory_list (cmd ++ str " " ++ escaped_path)
  end.

Definition mkdir_remote (directory_list : list bytes) : C bool :=
  if negb (have_fixed_push_mkdir features) && have_shell_v2 features then
    cmd ← mkdir_loop directory_list (str "mkdir");
    match cmd with
    | None => mret false
    | Some cmd => _ ← (if bool_decide (cmd = str "mkdir") then mret tt else send_shell_command cmd); mret true
    end
  else mret true.

(** The requests are all sent before the first answer is read. *)
Fixpoint send_lstats (file_list : list copyinfo) : C bool :=
  match file_list with
  | [] => mret true
  | ci :: file_list =>
      r ← SendLstat features (rpath ci);
      match r with
      | Some _ => _ ← Error LstatNotSent; mret false
      | None => send_lstats file_list
      end
  end.

Fixpoint finish_stats (file_list : list copyinfo) : C (list copyinfo) :=
  match file_list with
  | [] => mret []
  | ci :: file_list =>
      r ← FinishStat features;
      file_list ← finish_stats file_list;
      mret (match r with
            | inr st => if (u64 (st_size st) =? size ci) && (st_mtime st =? time ci) then with_details ci (time ci) (size ci) true else ci
            | inl _ => ci
            end :: file_list)
  end.

Definition check_times (file_list : list copyinfo) : C (option (list copyinfo)) :=
  ok ← send_lstats file_list;
  if negb ok then mret None else l ← finish_stats file_list; mret (Some l).

Definition SetExpectedTotalBytes (expected : Z) : C unit :=
  modify (λ c, c <| current_ledger_ ::= λ l, Ledger (files_transferred l) (files_skipped l) (bytes_transferred l) expected |>).

Definition ComputeExpectedTotalBytes (file_list : list copyinfo) : C unit :=
  SetExpectedTotalBytes (foldl (λ n ci, if skip ci then n else add_u64 n (size ci)) 0 file_list).

Fixpoint push_files (file_list : list copyinfo) (list_only : bool) (compression : CompressionType) (dry_run : bool) : C bool :=
  match file_list with
  | [] => mret true
  | ci :: file_list =>
      if skip ci then push_files file_list list_only compression dry_run
      else
        ok ← (if list_only then _ ← Error (WouldPush (lpath ci) (rpath ci)); mret true
              else sync_send junk features turns (lpath ci) (rpath ci) (time ci) (mode ci) false compression dry_run);
        if (ok : bool) then push_files file_list list_only compression dry_run else mret false
  end.

Definition skipped (file_list : list copyinfo) : Z := zlen (filter (λ ci, skip ci = true) file_list).

Definition copy_local_dir_remote (local_path remote_path : bytes) (check_timestamps list_only : bool)
    (compression : CompressionType) (dry_run : bool) : C bool :=
  _ ← NewTransfer;
  '(l, r) ← lift (ensure_trailing_separators local_path remote_path);
  parents ← lift (parents_loop turns r []);
  '(ok, (file_list, directory_list)) ← local_build_list turns l r ([], reverse parents);
  if negb ok then mret false
  else
    ok ← mkdir_remote directory_list;
    if negb ok then mret false
    else
      file_list ← (if check_timestamps then check_times file_list else mret (Some file_list));
      match file_list with
      | None => mret false
      | Some file_list =>
          _ ← ComputeExpectedTotalBytes file_list;
          ok ← push_files file_list list_only compression dry_run;
          if negb ok then mret false
          else _ ← RecordFilesSkipped (skipped file_list); ReadAcknowledgements true
      end.

(** What is known about the target of [do_sync_push] and [do_sync_pull]; [None] after an error. *)
Definition check_target (dst : bytes) (srcs : list bytes) (dst_exists dst_isdir : bool) : C bool :=
  if dst_isdir then mret true
  else if (1 <? length srcs)%nat then _ ← Error (NotADirectory dst); mret false
  else
    c ← lift (back dst);                                  (* [dst[strlen(dst) - 1]] *)
    if bool_decide (c = slash) && dst_exists then _ ← Error (AccessFailed dst); mret false else mret true.

(** The target directory with the name of the source in it *)
Definition child_of (dst src : bytes) : outcome bytes := d ← with_slash dst; Ret (d ++ Basename src).

(** One of the sources; [None] when everything ends. *)
Definition push_source (src_path dst : bytes) (dst_exists dst_isdir sync : bool) (compression : CompressionType) (dry_run : bool)
  : C (option bool) :=
  g ← get local;
  match path_stat g src_path with
  | inl _ => _ ← Error (CannotStatSource src_path); mret (Some false)
  | inr st =>
      if S_ISDIR (st_mode st) then
        if dst_exists && negb dst_isdir then _ ← Error (NotADirectory dst); mret None
        else
          dst_dir ← lift (if dst_exists then child_of dst src_path else Ret dst);
          ok ← copy_local_dir_remote src_path dst_dir sync false compression dry_run;
          mret (Some ok)
      else if negb (should_push_file (st_mode st)) then _ ← Error (SkippingSpecial src_path (st_mode st)); mret (Some true)
      else
        dst_path ← lift (if dst_isdir then child_of dst src_path else Ret dst);
        _ ← NewTransfer;
        _ ← SetExpectedTotalBytes (u64 (st_size st));
        ok ← sync_send junk features turns src_path dst_path (u32 (st_mtime st)) (st_mode st) sync compression dry_run;
        mret (Some ok)
  end.

Fixpoint push_sources (srcs : list bytes) (dst : bytes) (dst_exists dst_isdir sync : bool) (compression : CompressionType)
    (dry_run success : bool) : C (option bool) :=
  match srcs with
  | [] => mret (Some success)
  | src_path :: srcs =>
      ok ← push_source src_path dst dst_exists dst_isdir sync compression dry_run;
      match ok with
      | None => mret None
      | Some ok => push_sources srcs dst dst_exists dst_isdir sync compression dry_run (success && ok)
      end
  end.

Definition do_sync_push (srcs : list bytes) (dst : bytes) (sync : bool) (compression : CompressionType) (dry_run : bool) : C bool :=
  r ← sync_stat_fallback features dst;
  let known := match r with
               | inr st => Some (true, S_ISDIR (st_mode st))
               | inl errno => if (errno =? host_value ENOENT) || (errno =? ENOPROTOOPT) then Some (false, false) else None
               end in
  match known with
  | None => _ ← Error (StatFailedForPush dst); mret false
  | Some (dst_exists, dst_isdir) =>
      ok ← check_target dst srcs dst_exists dst_isdir;
      if negb ok then mret false
      else
        success ← push_sources srcs dst dst_exists dst_isdir sync compression dry_run true;
        match success with
        | None => mret false
        | Some success => ok ← ReadAcknowledgements true; mret (success && ok)
        end
  end.

Definition do_sync_sync (local_path remote_path : bytes) (list_only : bool) (compression : CompressionType) (dry_run : bool) : C bool :=
  copy_local_dir_remote local_path remote_path true list_only compression dry_run.

(** ** Pulling *)

(** The lists of directories, links and files *)
Record remote_lists := Lists { dirs : list copyinfo; links : list copyinfo; plain : list copyinfo }.

(** The callback of [sync_ls] *)
Definition remote_entry (dir_rpath dir_lpath : bytes) (d : dent) (l : remote_lists) : C remote_lists :=
  if IsDotOrDotDot (d_name d) then mret l
  else
    ci ← lift (new_copyinfo dir_lpath dir_rpath (d_name d) (d_mode d));
    if S_ISDIR (d_mode d) then mret (Lists (dirs l ++ [ci]) (links l) (plain l))
    else if S_ISLNK (d_mode d) then mret (Lists (dirs l) (links l ++ [ci]) (plain l))
    else
      _ ← (if should_pull_file (mode ci) then mret tt else Error (SkippingSpecial (rpath ci) (mode ci)));
      mret (Lists (dirs l) (links l) (plain l ++ [with_details ci (d_time d) (d_size d) (negb (should_pull_file (mode ci)))])).

Fixpoint remote_entries (dir_rpath dir_lpath : bytes) (ds : list dent) (l : remote_lists) : C remote_lists :=
  match ds with
  | [] => mret l
  | d :: ds => l ← remote_entry dir_rpath dir_lpath d l; remote_entries dir_rpath dir_lpath ds l
  end.

(** What the links lead to *)
Fixpoint remote_links (linklist : list copyinfo) (dirlist file_list : list copyinfo) : C (list copyinfo * list copyinfo) :=
  match linklist with
  | [] => mret (dirlist, file_list)
  | link_ci :: linklist =>
      r ← sync_stat_fallback features (rpath link_ci);
      match r with
      | inl _ => _ ← Error (LinkStatFailed (rpath link_ci)); remote_links linklist dirlist file_list
      | inr st =>
          if S_ISDIR (st_mode st) then remote_links linklist (dirlist ++ [link_ci]) file_list
          else remote_links linklist dirlist (file_list ++ [link_ci])
      end
  end.

(** [dirlist] is emptied from its end. *)
Fixpoint remote_subdirs (again : bytes → bytes → list copyinfo → C (bool * list copyinfo)) (stack file_list : list copyinfo)
  : C (bool * list copyinfo) :=
  match stack with
  | [] => mret (true, file_list)
  | current :: stack =>
      '(ok, file_list) ← again (rpath current) (lpath current) file_list;
      if negb ok then mret (false, file_list) else remote_subdirs again stack file_list
  end.

Definition remote_turn (again : bytes → bytes → list copyinfo → C (bool * list copyinfo)) (dir_rpath dir_lpath : bytes)
    (file_list : list copyinfo) : C (bool * list copyinfo) :=
  ci ← lift (new_copyinfo (Dirname dir_lpath) (Dirname dir_rpath) (Basename dir_lpath) S_IFDIR);
  '(ok, entries) ← sync_ls features dir_rpath;
  l ← remote_entries dir_rpath dir_lpath entries (Lists [] [] (file_list ++ [ci]));
  if negb ok then mret (false, plain l)
  else
    '(dirlist, file_list) ← remote_links (links l) (dirs l) (plain l);
    remote_subdirs again (reverse dirlist) file_list.

(** Every listing is read from the connection. *)
Fixpoint remote_build_list (fuel : nat) (dir_rpath dir_lpath : bytes) (file_list : list copyinfo) : C (bool * list copyinfo) :=
  remote_turn (match fuel with O => λ _ _ _ _, OutOfFuel | S fuel => remote_build_list fuel end) dir_rpath dir_lpath file_list.

Context (umask : Z).

Definition set_time_and_mode (path : bytes) (time mode : Z) : C bool :=
  r1 ← on_local (path_utime path time);
  r2 ← on_local (path_chmod path (Z.land mode (Z.lnot umask)));
  mret (r1 && r2).

Definition mkdirs_local (path : bytes) : C bool := λ c,
  '(ok, g) ← mkdirs (length path) path (local c); Ret (ok, c <| local := g |>).

Fixpoint pull_files (file_list : list copyinfo) (copy_attrs : bool) (compression : CompressionType) : C bool :=
  match file_list with
  | [] => mret true
  | ci :: file_list =>
      if skip ci then pull_files file_list copy_attrs compression
      else if S_ISDIR (mode ci) then
        ok ← mkdirs_local (lpath ci);
        if negb ok then _ ← Error (CannotCreateDir (lpath ci)); mret false
        else pull_files file_list copy_attrs compression
      else
        ok ← sync_recv junk features turns (rpath ci) (lpath ci) compression;
        if negb ok then mret false
        else
          ok ← (if copy_attrs then set_time_and_mode (lpath ci) (time ci) (mode ci) else mret true);
          if negb ok then mret false else pull_files file_list copy_attrs compression
  end.

Definition copy_remote_dir_local (remote_path local_path : bytes) (copy_attrs : bool) (compression : CompressionType) : C bool :=
  _ ← NewTransfer;
  '(l, r) ← lift (ensure_trailing_separators local_path remote_path);
  fuel ← get (λ c, input_size (c_in c));
  '(ok, file_list) ← remote_build_list fuel r l [];
  if negb ok then mret false
  else
    _ ← ComputeExpectedTotalBytes file_list;
    ok ← pull_files file_list copy_attrs compression;
    if negb ok then mret false else _ ← RecordFilesSkipped (skipped file_list); mret true.

(** One of the sources; [None] when everything ends. *)
Definition pull_source (src_path dst : bytes) (dst_exists dst_isdir copy_attrs : bool) (compression : CompressionType) : C (option bool) :=
  r ← sync_stat_fallback features src_path;
  match r with
  | inl errno =>
      _ ← Error (if errno =? ENOPROTOOPT then RemoteMissing src_path else RemoteStatFailed src_path); mret (Some false)
  | inr src_st =>
      if S_ISDIR (st_mode src_st) then
        if dst_exists && negb dst_isdir then _ ← Error (NotADirectory dst); mret None
        else
          dst_dir ← lift (if dst_exists then child_of dst src_path else Ret dst);
          ok ← copy_remote_dir_local src_path dst_dir copy_attrs compression;
          mret (Some ok)
      else if negb (should_pull_file (st_mode src_st)) then
        _ ← Error (SkippingSpecial src_path (st_mode src_st)); mret (Some true)
      else
        let dst_path := if dst_isdir then dst ++ [slash] ++ Basename src_path else dst in
        _ ← NewTransfer;
        _ ← SetExpectedTotalBytes (u64 (st_size src_st));
        ok ← sync_recv junk features turns src_path dst_path compression;
        if negb ok then mret (Some false)
        else
          ok ← (if copy_attrs then set_time_and_mode dst_path (st_mtime src_st) (st_mode src_st) else mret true);
          mret (Some ok)
  end.

Fixpoint pull_sources (srcs : list bytes) (dst : bytes) (dst_exists dst_isdir copy_attrs : bool) (compression : CompressionType)
    (success : bool) : C (option bool) :=
  match srcs with
  | [] => mret (Some success)
  | src_path :: srcs =>
      ok ← pull_source src_path dst dst_exists dst_isdir copy_attrs compression;
      match ok with
      | None => mret None
      | Some ok => pull_sources srcs dst dst_exists dst_isdir copy_attrs compression (success && ok)
      end
  end.

Definition do_sync_pull (srcs : list bytes) (dst : bytes) (copy_attrs : bool) (compression : CompressionType) : C bool :=
  g ← get local;
  let r := path_stat g dst in
  let failed := match r with
                | inr _ => None
                | inl errno =>
                    if bool_decide (length srcs = 1%nat) && (errno =? host_value ENOENT) then
                      match path_stat g (Dirname dst) with inr _ => None | inl _ => Some (CannotCreateTarget dst) end
                    else Some (AccessFailed dst)
                end in
  match failed with
  | Some e => _ ← Error e; mret false
  | None =>
      let dst_exists := match r with inr _ => true | inl _ => false end in
      let dst_isdir := match r with inr st => S_ISDIR (st_mode st) | inl _ => false end in
      ok ← check_target dst srcs dst_exists dst_isdir;
      if negb ok then mret false
      else
        success ← pull_sources srcs dst dst_exists dst_isdir copy_attrs compression true;
        mret (match success with Some success => success | None => false end)
  end.
End dirs.
