(* ===== verification/SyncDirsFacts.v ===== *)
(** * Copying directories: facts

    Where the paths of the copied files are, and what can happen to the local
    files whatever the device answers. *)

From S2P Require Import Prelude State CString CStringFacts LibBase LibBaseFacts AdbIO AdbIOFacts Types TypesFacts.
From S2P Require Import Compression CompressionFacts Paths Errno SyncProtocol SyncService SyncClient SyncSample SyncFacts SyncPush SyncPull SyncListing SyncDirs.
Local Open Scope Z_scope.
Local Open Scope record_scope.

(** ** The components of a path *)

(** The parts between slashes *)
Fixpoint parts (cur p : bytes) : list bytes :=
  match p with
  | [] => [cur]
  | c :: p => if bool_decide (c = slash) then cur :: parts [] p else parts (cur ++ [c]) p
  end.

Definition named (c : bytes) : Prop := c ≠ [] ∧ c ≠ [dot].
#[global] Instance named_dec c : Decision (named c) := _.

(** What a path names, from where it starts *)
Definition components (p : bytes) : list bytes := filter named (parts [] p).
Definition absolute (p : bytes) : Prop := head p = Some slash.

Lemma parts_slash p q : ∀ cur, parts cur (p ++ slash :: q) = parts cur p ++ parts [] q.
Proof. induction p as [|c p IH]; intros cur; cbn; [by rewrite bool_decide_true|]. case_bool_decide; by rewrite IH. Qed.

Lemma components_slash p q : components (p ++ slash :: q) = components p ++ components q.
Proof. unfold components. by rewrite parts_slash, filter_app. Qed.

Lemma components_end p : components (p ++ [slash]) = components p.
Proof. rewrite components_slash. by rewrite app_nil_r. Qed.

Lemma parts_name name : ∀ cur, slash ∉ name → parts cur name = [cur ++ name].
Proof.
  induction name as [|c name IH]; intros cur Hn; cbn; [by rewrite app_nil_r|]. apply not_elem_of_cons in Hn as [Hc Hn].
  rewrite bool_decide_false by congruence. by rewrite IH, <- app_assoc.
Qed.

Lemma components_name name : slash ∉ name → components name = filter named [name].
Proof. intros H. unfold components. by rewrite parts_name. Qed.

(** [d] ends in a slash. *)
Definition ends_slash (d : bytes) : Prop := ∃ d', d = d' ++ [slash].

Lemma components_app d p : ends_slash d → components (d ++ p) = components d ++ components p.
Proof. intros [d' ->]. rewrite <- app_assoc. cbn. by rewrite components_slash, components_end. Qed.

(** ** [Dirname] and [Basename] *)

Lemma strip_slashes_components r : components (reverse (strip_slashes r)) = components (reverse r).
Proof.
  induction r as [|c r IH]; [done|]. destruct r as [|d r]; [done|].
  change (strip_slashes (c :: d :: r)) with (if bool_decide (c = slash) then strip_slashes (d :: r) else c :: d :: r).
  case_bool_decide; [|done]. subst c. by rewrite IH, (reverse_cons (d :: r) slash), components_end.
Qed.

Lemma strip_name_cases r :
  r ≠ [] → (base_name r = r ∧ ∃ c, strip_name r = [c] ∧ c ≠ slash) ∨ (∃ r', strip_name r = slash :: r' ∧ r = base_name r ++ slash :: r').
Proof.
  induction r as [|c r IH]; [done|]. intros _. destruct (decide (c = slash)) as [->|Hc].
  - right. exists r. split; [destruct r; [done|]; cbn; by rewrite bool_decide_true|]. unfold base_name. cbn. by rewrite bool_decide_true.
  - assert (base_name (c :: r) = c :: base_name r) as Hb.
    { unfold base_name. cbn. rewrite bool_decide_false by done. cbn. by destruct (span _ r). }
    destruct r as [|d r]; [left; rewrite Hb; split; [done|by exists c]|].
    assert (strip_name (c :: d :: r) = strip_name (d :: r)) as Hs by (cbn [strip_name]; by rewrite bool_decide_false).
    destruct (IH ltac:(done)) as [(E1 & E2)|(r' & E1 & E2)]; [left|right].
    + rewrite Hb, Hs, E1. done.
    + exists r'. rewrite Hb, Hs. split; [done|]. cbn. by f_equal.
Qed.

Lemma path_result_small s : zlen s < MAXPATHLEN → path_result s = s.
Proof. intros H. unfold path_result. by rewrite (proj2 (Z.ltb_ge _ _)) by lia. Qed.

(** [r] is the reverse of the path, without the slashes at its end. *)
Lemma Dirname_Basename_cases path :
  path ≠ [] → zlen path < MAXPATHLEN →
  ∃ r, components path = components (reverse r) ∧ (length r ≤ length path)%nat ∧
    (Dirname path = str "." ∧ Basename path = reverse r ∨ r = [slash] ∧ Dirname path = str "/" ∧ Basename path = str "/" ∨
     ∃ r', reverse r = reverse r' ++ slash :: Basename path ∧
       (r' = [] ∧ Dirname path = str "/" ∨ Dirname path = reverse (strip_slashes r'))).
Proof.
  intros Hne Hl. assert (reverse path ≠ []) as Hr by (intros E; apply (f_equal reverse) in E; by rewrite reverse_involutive in E).
  unfold Dirname, Basename. rewrite !(bool_decide_false (path = [])) by done.
  destruct (strip_slashes_suffix (reverse path)) as [S1 N1]. specialize (N1 Hr). apply suffix_length in S1. rewrite length_reverse in S1.
  exists (strip_slashes (reverse path)). rewrite strip_slashes_components, reverse_involutive. do 2 (split; [done|]).
  revert N1 S1. generalize (strip_slashes (reverse path)). intros r Hn Hlen.
  destruct (strip_name_cases r Hn) as [(E1 & c & E2 & Hc)|(r' & E1 & E2)].
  - left. rewrite E1, E2. rewrite bool_decide_false by done. rewrite bool_decide_false.
    + by rewrite path_result_small by (rewrite length_reverse; lia).
    + intros ->. cbn in E2. injection E2 as <-. done.
  - right. rewrite E1. destruct (decide (r = [slash])) as [->|Hs].
    { left. unfold strip_name in E1. injection E1 as <-. done. }
    right. exists r'. rewrite (bool_decide_false (r = [slash])) by done.
    assert ((length (base_name r) + length r' < length r)%nat) as Hbl.
    { apply (f_equal length) in E2. rewrite length_app in E2. cbn in E2. lia. }
    rewrite path_result_small by (rewrite length_reverse; lia). split; [rewrite E2 at 1; by rewrite reverse_app, reverse_cons, <- app_assoc|].
    destruct r' as [|d r']; [left; by rewrite bool_decide_true|right]. cbn [tail].
    destruct (strip_slashes_suffix (d :: r')) as [S2 _]. apply suffix_length in S2.
    by rewrite path_result_small by (rewrite length_reverse; lia).
Qed.

(** A path is its parent and its last component. *)
Lemma Dirname_Basename_components path :
  path ≠ [] → zlen path < MAXPATHLEN → components (Dirname path) ++ components (Basename path) = components path.
Proof.
  intros Hne Hl. destruct (Dirname_Basename_cases path Hne Hl) as (r & -> & _ & [[-> ->]|[(-> & -> & ->)|(r' & -> & Hd)]]); [done..|].
  rewrite components_slash. f_equal. destruct Hd as [[-> ->]| ->]; [done|]. apply strip_slashes_components.
Qed.

Lemma Dirname_Basename_length path :
  path ≠ [] → zlen path < MAXPATHLEN → (length (Dirname path) + length (Basename path) ≤ S (length path))%nat.
Proof.
  intros Hne Hl. destruct (Dirname_Basename_cases path Hne Hl) as (r & _ & Hlen & [[-> ->]|[(-> & -> & ->)|(r' & E & Hd)]]).
  - rewrite length_reverse. cbn. lia.
  - cbn in *. lia.
  - apply (f_equal length) in E. rewrite length_reverse, length_app, length_reverse in E. cbn in E.
    destruct Hd as [[-> ->]| ->]; [cbn in *; lia|]. rewrite length_reverse.
    destruct (strip_slashes_suffix r') as [S2 _]. apply suffix_length in S2. lia.
Qed.

Lemma Dirname_absolute path : path ≠ [] → zlen path < MAXPATHLEN → absolute (Dirname path) ↔ absolute path.
Proof.
  intros Hne Hl. unfold absolute. destruct (Dirname_cases path Hne Hl) as [[-> H]|[[-> H]|(H & _)]]; [by rewrite H| |by rewrite H].
  split; [done|]. by intros ?.
Qed.

Lemma Dirname_length path : path ≠ [] → zlen path < MAXPATHLEN → Dirname path ≠ [] ∧ (length (Dirname path) ≤ length path)%nat.
Proof.
  intros Hne Hl. assert (1 ≤ length path)%nat by (destruct path; [done|cbn; lia]).
  destruct (Dirname_cases path Hne Hl) as [[-> H']|[[-> H']|(_ & H1 & H2)]]; [done..|]. split; [done|lia].
Qed.

(** ** The paths of an entry *)

(** The relative path [rel], as a directory *)
Definition slashed (rel : bytes) : bytes :=
  if bool_decide (rel = []) || bool_decide (last rel = Some slash) then rel else rel ++ [slash].

(** The relative path of an entry of the directory [rel] *)
Definition child_rel (rel name : bytes) (isdir : bool) : bytes :=
  if isdir then slashed (slashed rel ++ name) else slashed rel ++ name.

Definition dotdot : bytes := [dot; dot].

(** A relative path that does not lead up *)
Definition inward (rel : bytes) : Prop := dotdot ∉ components rel.

Lemma slashed_cases rel : slashed rel = [] ∧ rel = [] ∨ ends_slash (slashed rel).
Proof.
  destruct (decide (rel = [])) as [->|Hr]; [by left|]. right. unfold slashed. rewrite (bool_decide_false (rel = [])) by done. cbn [orb].
  case_bool_decide as E; [|by exists rel]. apply last_Some in E as [d ->]. by exists d.
Qed.

Lemma slashed_components rel : components (slashed rel) = components rel.
Proof. unfold slashed. destruct (_ || _); [done|]. apply components_end. Qed.

Lemma slashed_length rel : (length (slashed rel) ≤ S (length rel))%nat.
Proof. unfold slashed. destruct (_ || _); [lia|]. rewrite length_app. cbn. lia. Qed.

Lemma child_components rel name isdir : components (child_rel rel name isdir) = components rel ++ components name.
Proof.
  assert (components (slashed rel ++ name) = components rel ++ components name) as H.
  { destruct (slashed_cases rel) as [[-> ->]|Hs]; [done|]. by rewrite components_app, slashed_components. }
  unfold child_rel. destruct isdir; [by rewrite slashed_components|done].
Qed.

Lemma child_length rel name isdir : (length (child_rel rel name isdir) ≤ length rel + length name + 2)%nat.
Proof.
  pose proof (slashed_length rel). pose proof (slashed_length (slashed rel ++ name)) as H'. unfold child_rel.
  destruct isdir; rewrite length_app in *; lia.
Qed.

(** What [FinishLs] and [IsDotOrDotDot] let through *)
Definition harmless (name : bytes) : Prop := (slash ∉ name) ∧ name ≠ dotdot.

Lemma child_inward rel name isdir : inward rel → harmless name → inward (child_rel rel name isdir).
Proof.
  intros Hr [Hs Hd]. unfold inward. rewrite child_components, (components_name name) by done. rewrite elem_of_app. intros [H|H]; [done|].
  apply list_elem_of_filter in H as [_ H]. apply list_elem_of_singleton in H. by apply Hd.
Qed.

Lemma with_slash_app d rel : ends_slash d → with_slash (d ++ rel) = Ret (d ++ slashed rel).
Proof.
  intros [d' ->]. unfold with_slash, back, slashed. destruct rel as [|b rel _] using rev_ind.
  - rewrite app_nil_r, last_snoc. mstep. cbn. by rewrite !app_nil_r.
  - rewrite app_assoc, !last_snoc. mstep. rewrite (bool_decide_false (rel ++ [b] = [])) by by destruct rel. cbn [orb].
    rewrite (bool_decide_ext (Some b = Some slash) (b = slash)) by (split; congruence). case_bool_decide; by rewrite <- !app_assoc.
Qed.

Lemma new_copyinfo_rel l r rel name mode :
  ends_slash l → ends_slash r →
  new_copyinfo (l ++ rel) (r ++ rel) name mode =
  Ret (CopyInfo (l ++ child_rel rel name (S_ISDIR mode)) (r ++ child_rel rel name (S_ISDIR mode)) 0 mode 0 false).
Proof.
  intros Hl Hr. unfold new_copyinfo, ensure_trailing_separators, child_rel. rewrite !with_slash_app by done. mstep.
  destruct (S_ISDIR mode); [|by rewrite <- !app_assoc]. rewrite <- !app_assoc, !with_slash_app by done. done.
Qed.

(** ** Where a path is *)

(** [p] is the directory [root] or in it. *)
Definition under (root p : bytes) : Prop :=
  (absolute p ↔ absolute root) ∧ ∃ b, components p = components root ++ b ∧ (dotdot ∉ b).
(** ... or a directory it is in. *)
Definition near (root p : bytes) : Prop := under root p ∨ ((absolute p ↔ absolute root) ∧ components p `prefix_of` components root).

Lemma under_rel root rel : ends_slash root → inward rel → under root (root ++ rel).
Proof.
  intros Hs Hr. split; [|exists (components rel); by rewrite components_app]. destruct Hs as [d ->]. unfold absolute. by destruct d.
Qed.

(** The parent of a path *)
Lemma near_Dirname root p : near root p → p ≠ [] → zlen p < MAXPATHLEN → near root (Dirname p).
Proof.
  intros Hn Hne Hl. pose proof (Dirname_Basename_components p Hne Hl) as Hc. pose proof (Dirname_absolute p Hne Hl) as Ha.
  destruct Hn as [[Hap (b & Hb & Hd)]|[Hap Hp]].
  - rewrite Hb in Hc. destruct (prefix_weak_total (components (Dirname p)) (components root) (components root ++ b)) as [H|[b' H]].
    + rewrite <- Hc. by apply prefix_app_r.
    + by apply prefix_app_r.
    + right. split; [by rewrite Ha|done].
    + left. split; [by rewrite Ha|]. exists b'. split; [done|]. rewrite H, <- app_assoc in Hc. apply app_inv_head in Hc.
      intros Hin. apply Hd. rewrite <- Hc. apply elem_of_app. by left.
  - right. split; [by rewrite Ha|]. etransitivity; [|exact Hp]. rewrite <- Hc. by apply prefix_app_r.
Qed.

Lemma with_slash_nonempty d : d ≠ [] → with_slash d = Ret (slashed d) ∧ slashed d ≠ [] ∧ head (slashed d) = head d.
Proof.
  intros Hd. destruct (last d) as [c|] eqn:E; [|by apply last_None in E]. apply last_Some in E as [d' ->].
  assert (with_slash (d' ++ [c]) = Ret (slashed (d' ++ [c]))) as ->.
  { unfold with_slash, back, slashed. rewrite last_snoc. mstep. rewrite (bool_decide_false (d' ++ [c] = [])) by done. cbn [orb].
    by rewrite (bool_decide_ext (Some c = Some slash) (c = slash)) by (split; congruence). }
  split; [done|]. unfold slashed. destruct (_ || _); by destruct d'.
Qed.

(** The entry for a directory itself *)
Lemma self_entry root d r :
  under root d → d ≠ [] → zlen d < MAXPATHLEN → r ≠ [] → zlen r < MAXPATHLEN →
  ∃ ci, new_copyinfo (Dirname d) (Dirname r) (Basename d) S_IFDIR = Ret ci ∧
    under root (lpath ci) ∧ mode ci = S_IFDIR ∧ lpath ci ≠ [] ∧ zlen (lpath ci) ≤ zlen d + 3.
Proof.
  intros [Ha (b & Hb & Hd)] Hne Hl Hrne Hrl. destruct (Dirname_length d Hne Hl) as [Dd _]. destruct (Dirname_length r Hrne Hrl) as [Dr _].
  destruct (with_slash_nonempty _ Dd) as (E1 & N1 & H1). destruct (with_slash_nonempty _ Dr) as (E2 & N2 & _).
  destruct (with_slash_nonempty (slashed (Dirname d) ++ Basename d)) as (E3 & N3 & H3); [by destruct (slashed (Dirname d))|].
  destruct (with_slash_nonempty (slashed (Dirname r) ++ Basename d)) as (E4 & N4 & H4); [by destruct (slashed (Dirname r))|].
  eexists. unfold new_copyinfo, ensure_trailing_separators. rewrite E1, E2. mstep. change (S_ISDIR S_IFDIR) with true. cbv iota.
  rewrite E3, E4. mstep. split; [reflexivity|]. cbn [lpath mode].
  change (slashed (slashed (Dirname d) ++ Basename d)) with (child_rel (Dirname d) (Basename d) true) in *. split_and!; [|done|done|].
  - split; [|exists b; by rewrite child_components, Dirname_Basename_components].
    rewrite <- Ha, <- (Dirname_absolute d Hne Hl). unfold absolute. rewrite H3, <- H1. by destruct (slashed (Dirname d)).
  - pose proof (child_length (Dirname d) (Basename d) true). pose proof (Dirname_Basename_length d Hne Hl). lia.
Qed.

(** ** The list of the files to pull *)

Ltac sf_step :=
  lazymatch goal with
  | |- safe (mret _) _ _ => apply wp_safe, wp_ret
  | |- safe (mbind _ _) _ _ => apply safe_bind
  | |- safe (get _) _ _ => apply wp_safe, wp_get
  | |- safe (modify _) _ _ => apply wp_safe, wp_modify
  end; cbv beta.
Ltac sf_go := repeat sf_step.

Section remote.
Context (junk : nat → byte) `{HF : !Files, HC : !Codecs, HH : !HostErrno, HE : !ClientErrno} (features : sync_features).
Implicit Type c : sync_conn.

(** Local files are as they were. *)
Record moves c c' : Prop := {
  mv_local : local c' = local c ∧ downloaded c' = downloaded c;
  mv_unread : (unread c' ≤ unread c)%nat
}.

Lemma moves_refl c : moves c c.
Proof. done. Qed.
Lemma moves_trans c1 c2 c3 : moves c1 c2 → moves c2 c3 → moves c1 c3.
Proof. intros [[? ?] ?] [[? ?] ?]. split; [split; congruence|lia]. Qed.
Lemma consumed_moves c c' : consumed c c' → moves c c'.
Proof. intros (i & -> & H). by split. Qed.

Lemma safe_error c e Q : (∀ c', moves c c' → Q tt c') → safe (Error e) Q c.
Proof. intros H. unfold Error. sf_go. by apply H. Qed.

Lemma safe_conn_write c bs Q : (∀ ok c', moves c c' → Q ok c') → safe (conn_write bs) Q c.
Proof.
  intros H. destruct (write_exactly_spec (c_out c) bs) as (ok & o & sent & E & _). unfold safe, conn_write. rewrite E. mstep. by apply H.
Qed.

Lemma safe_send_request c id path Q : (∀ r c', moves c c' → (r = None → zlen path ≤ 1024) → Q r c') → safe (SendRequest id path) Q c.
Proof.
  intros H. unfold SendRequest. destruct (Z.ltb_spec 1024 (zlen path)); sf_go.
  - apply safe_error. intros c' Hc. sf_go. by apply H.
  - apply safe_conn_write. intros ok c' Hc. sf_go. by apply H.
Qed.

Lemma safe_read_any c n Q : 0 ≤ n < 2 ^ 64 → (∀ ok bs c', moves c c' → Q (ok, bs) c') → safe (conn_read n) Q c.
Proof. intros Hn H. apply wp_safe, wp_read_any; [done|]. intros ok bs c' Hc _. by apply H, consumed_moves. Qed.

Lemma safe_finish_stat c Q : (∀ r c', moves c c' → Q r c') → safe (FinishStat features) Q c.
Proof.
  intros H. unfold FinishStat. destruct (have_stat_v2_ features); sf_go; (apply safe_read_any; [done|]); intros ok bs c' Hc; cbv beta iota;
    (destruct ok; cbn [negb]; [|done]); (destruct (negb _ && _) || destruct (negb _)); try done; destruct (_ && _) || destruct (negb _); sf_go; by apply H.
Qed.

Lemma safe_stat_of c (send : ST sync_conn (option Z)) Q :
  (∀ Q', (∀ r c', moves c c' → Q' r c') → safe send Q' c) → (∀ r c', moves c c' → Q r c') →
  safe (r ← send; match r with Some e => mret (inl e) | None => FinishStat features end) Q c.
Proof.
  intros Hs H. sf_go. apply Hs. intros r c1 H1. cbv beta. destruct r; sf_go; [by apply H|]. apply safe_finish_stat. intros r c2 H2.
  apply H. by eapply moves_trans.
Qed.

Lemma safe_lstat c path Q : (∀ r c', moves c c' → Q r c') → safe (sync_lstat features path) Q c.
Proof. apply safe_stat_of. intros Q' H. apply safe_send_request. intros r c' Hc _. by apply H. Qed.

Lemma safe_stat_fallback c path Q : (∀ r c', moves c c' → Q r c') → safe (sync_stat_fallback features path) Q c.
Proof.
  intros H. unfold sync_stat_fallback. sf_go. apply safe_stat_of.
  { intros Q' H'. unfold SendStat. destruct (negb _); [sf_go; by apply H'|]. apply safe_send_request. intros r c' Hc _. by apply H'. }
  intros r c1 H1. destruct r as [e|st]; [|sf_go; by apply H]. destruct (negb _); sf_go; [by apply H|]. apply safe_lstat.
  intros r c2 H2. destruct r as [e'|st]; [sf_go; apply H; by eapply moves_trans|]. destruct (S_ISLNK _); sf_go; [|apply H; by eapply moves_trans].
  apply safe_lstat. intros r c3 H3. sf_go. apply H. eauto using moves_trans.
Qed.

Lemma safe_ls c path Q :
  (∀ ok es c', moves c c' → Forall (λ d, name_ok (d_name d)) es → (es ≠ [] ∨ ok = true → zlen path ≤ 1024) →
     (ok = true → (unread c' < unread c)%nat) → Q (ok, es) c') → safe (sync_ls features path) Q c.
Proof.
  intros H. unfold sync_ls, SendLs. sf_go. apply safe_send_request. intros r c1 H1 Hl. cbv beta. destruct r as [e|].
  { sf_go. apply H; [done|constructor|by intros [|]|done]. }
  unfold FinishLs. sf_go. apply wp_safe. apply wp_ls_any; [unfold unread; lia|]. intros ok es c2 H2 Hes Hu. cbn [app].
  apply H; [eapply moves_trans; [done|by apply consumed_moves]|done|by intros _; apply Hl|]. intros Hok. specialize (Hu Hok).
  pose proof (mv_unread _ _ H1). lia.
Qed.

Section root.
Context (L R : bytes) (HL : ends_slash L) (HR : ends_slash R) (HLl : zlen L ≤ 2500) (HRl : zlen R ≤ 2500).

(** What is at the same place on both sides. *)
Definition sub (ci : copyinfo) : Prop :=
  ∃ rel, lpath ci = L ++ rel ∧ rpath ci = R ++ rel ∧ inward rel ∧ (length rel ≤ 1281)%nat.

(** An entry of the list: a directory to be made, or a file to be copied from
    its place in the remote directory to the same place in the local one. *)
Definition pull_entry (ci : copyinfo) : Prop :=
  under L (lpath ci) ∧ lpath ci ≠ [] ∧ zlen (lpath ci) < MAXPATHLEN ∧
  (S_ISDIR (mode ci) = true ∨ ∃ rel, lpath ci = L ++ rel ∧ rpath ci = R ++ rel ∧ inward rel).

Lemma root_nonempty d rel : ends_slash d → d ++ rel ≠ [].
Proof. intros [d' ->]. by destruct d'. Qed.

Lemma sub_pull_entry ci : sub ci → pull_entry ci.
Proof.
  intros (rel & E1 & E2 & Hin & Hl). split_and!.
  - rewrite E1. by apply under_rel.
  - rewrite E1. by apply root_nonempty.
  - rewrite E1, length_app. unfold MAXPATHLEN. lia.
  - right. eauto.
Qed.

Definition lists_ok (l : remote_lists) : Prop := Forall sub (dirs l) ∧ Forall sub (links l) ∧ Forall pull_entry (plain l).

Lemma safe_remote_entry rel d l c Q :
  inward rel → zlen (R ++ rel) ≤ 1024 → name_ok (d_name d) → lists_ok l →
  (∀ l' c', moves c c' → lists_ok l' → Q l' c') → safe (remote_entry (R ++ rel) (L ++ rel) d l) Q c.
Proof.
  intros Hin Hlen (Hs & _ & Hn) (H1 & H2 & H3) HQ. unfold remote_entry. destruct (IsDotOrDotDot (d_name d)) eqn:Edot; sf_go; [by apply HQ|].
  apply orb_false_iff in Edot as [_ Edot]. apply bool_decide_eq_false in Edot. rewrite new_copyinfo_rel by done.
  set (ci := CopyInfo _ _ _ _ _ _).
  assert (sub ci) as Hci.
  { exists (child_rel rel (d_name d) (S_ISDIR (d_mode d))). split_and!; [done..|by apply child_inward|].
    pose proof (child_length rel (d_name d) (S_ISDIR (d_mode d))). rewrite length_app in Hlen. lia. }
  apply wp_safe, (wp_lift _ ci); [done|].
  assert (∀ t n b, pull_entry (with_details ci t n b)) as Hfile by (intros; apply (sub_pull_entry ci Hci)).
  destruct (S_ISDIR (d_mode d)) eqn:Ed; [sf_go; apply HQ; [done|]; split_and!; [by apply Forall_app_2; [|constructor]|done..]|].
  destruct (S_ISLNK (d_mode d)); [sf_go; apply HQ; [done|]; split_and!; [done|by apply Forall_app_2; [|constructor]|done]|].
  sf_go. apply safe_mono with (Q := λ _ c', moves c c').
  { destruct (should_pull_file (mode ci)); [by sf_go|]. by apply safe_error. }
  intros _ c' Hc. sf_go. apply HQ; [done|]. split_and!; [done..|]. by apply Forall_app_2; [|constructor].
Qed.

Lemma safe_remote_entries rel ds : ∀ l c Q,
  inward rel → (ds ≠ [] → zlen (R ++ rel) ≤ 1024) → Forall (λ d, name_ok (d_name d)) ds → lists_ok l →
  (∀ l' c', moves c c' → lists_ok l' → Q l' c') → safe (remote_entries (R ++ rel) (L ++ rel) ds l) Q c.
Proof.
  induction ds as [|d ds IH]; intros l c Q Hin Hlen Hds Hl HQ; cbn [remote_entries]; [sf_go; by apply HQ|].
  apply Forall_cons in Hds as [Hd Hds]. sf_go. apply safe_remote_entry; [done|by apply Hlen|done..|]. intros l1 c1 H1 Hl1.
  apply IH; [done|by intros _; apply Hlen|done..|]. intros l2 c2 H2 Hl2. apply HQ; [by eapply moves_trans|done].
Qed.

Lemma safe_remote_links ls : ∀ ds fl c Q,
  Forall sub ls → Forall sub ds → Forall pull_entry fl →
  (∀ ds' fl' c', moves c c' → Forall sub ds' → Forall pull_entry fl' → Q (ds', fl') c') →
  safe (remote_links features ls ds fl) Q c.
Proof.
  induction ls as [|ci ls IH]; intros ds fl c Q Hls Hds Hfl HQ; cbn [remote_links]; [sf_go; by apply HQ|].
  apply Forall_cons in Hls as [Hci Hls]. sf_go. apply safe_stat_fallback. intros r c1 H1.
  assert (∀ c2 ds' fl', moves c1 c2 → Forall sub ds' → Forall pull_entry fl' → safe (remote_links features ls ds' fl') Q c2) as Hgo.
  { intros c2 ds' fl' H2 Hds' Hfl'. apply IH; [done..|]. intros ds2 fl2 c3 H3. apply HQ. eauto using moves_trans. }
  destruct r as [e|st]; sf_go.
  - apply safe_error. intros c2 H2. by apply Hgo.
  - destruct (S_ISDIR (st_mode st)); apply Hgo; try done; (apply Forall_app_2; [done|by constructor; [|done]; try apply sub_pull_entry]).
Qed.

Lemma safe_remote_subdirs again n stack : ∀ fl c Q,
  Forall sub stack → Forall pull_entry fl → (unread c ≤ n)%nat →
  (∀ rel fl c Q, inward rel → (length rel ≤ 1281)%nat → Forall pull_entry fl → (unread c ≤ n)%nat →
     (∀ ok fl' c', moves c c' → Forall pull_entry fl' → Q (ok, fl') c') → safe (again (R ++ rel) (L ++ rel) fl) Q c) →
  (∀ ok fl' c', moves c c' → Forall pull_entry fl' → Q (ok, fl') c') →
  safe (remote_subdirs again stack fl) Q c.
Proof.
  induction stack as [|ci stack IH]; intros fl c Q Hst Hfl Hu Hagain HQ; cbn [remote_subdirs]; [sf_go; by apply HQ|].
  apply Forall_cons in Hst as [(rel & E1 & E2 & Hin & Hlen) Hst]. sf_go. rewrite E1, E2. apply Hagain; [done..|]. intros ok fl1 c1 H1 Hfl1.
  cbv beta iota. destruct ok; cbn [negb]; [|sf_go; by apply HQ]. pose proof (mv_unread _ _ H1).
  apply IH; [done|done|lia|done|]. intros ok fl2 c2 H2 Hfl2. apply HQ; [by eapply moves_trans|done].
Qed.

Lemma remote_build_unfold fuel rp lp fl :
  remote_build_list features fuel rp lp fl =
  remote_turn features (match fuel with O => λ _ _ _ _, OutOfFuel | S fuel => remote_build_list features fuel end) rp lp fl.
Proof. by destruct fuel. Qed.

Lemma safe_remote_build_list fuel : ∀ rel fl c Q,
  inward rel → (length rel ≤ 1281)%nat → Forall pull_entry fl → (unread c ≤ fuel)%nat →
  (∀ ok fl' c', moves c c' → Forall pull_entry fl' → Q (ok, fl') c') →
  safe (remote_build_list features fuel (R ++ rel) (L ++ rel) fl) Q c.
Proof.
  induction fuel as [|fuel IH]; intros rel fl c Q Hin Hlen Hfl Hu HQ; rewrite remote_build_unfold; unfold remote_turn at 1; sf_go;
    (destruct (self_entry L (L ++ rel) (R ++ rel)) as (ci & Eci & Uci & Mci & Nci & Lci);
      [by apply under_rel|by apply root_nonempty|rewrite length_app; unfold MAXPATHLEN; lia|by apply root_nonempty|
       rewrite length_app; unfold MAXPATHLEN; lia|]);
    (rewrite Eci; apply wp_safe, (wp_lift _ ci); [done|]); cbv beta; sf_go; apply safe_ls; intros ok es c1 H1 Hes Hl1 Hu1; cbv beta iota; sf_go;
    (apply safe_remote_entries; [done|intros Hne; apply Hl1; by left|done| |];
      [split_and!; [done..|]; apply Forall_app_2; [done|constructor; [|done]]; split_and!; [done..|rewrite length_app in Lci; unfold MAXPATHLEN; lia|left; by rewrite Mci]|]);
    intros l c2 H2 (Hd & Hln & Hpl); (destruct ok; cbn [negb]; [|sf_go; apply HQ; [by eapply moves_trans|done]]);
    specialize (Hu1 eq_refl); [lia|].
  sf_go. apply safe_remote_links; [done..|]. intros ds fl2 c3 H3 Hds Hfl2. cbv beta iota.
  pose proof (mv_unread _ _ H2). pose proof (mv_unread _ _ H3).
  apply (safe_remote_subdirs _ fuel); [by apply Forall_reverse|done|lia|exact IH|]. intros ok fl3 c4 H4 Hfl3. apply HQ; [eauto using moves_trans|done].
Qed.
End root.

(** ** What can happen to the local files *)

(** [P g g'] allows that [g] becomes [g']: it allows everything the client does
    to files in [root], and that directories [root] is in are made. *)
Record confined (root : bytes) (P : fs → fs → Prop) : Prop := {
  cf_refl g : P g g;
  cf_trans g1 g2 g3 : P g1 g2 → P g2 g3 → P g1 g3;
  cf_unlink p g : under root p → P g (path_unlink p g);
  cf_create p m g r g' : under root p → path_create O_TRUNCATE p m g = (r, g') →
    P g g' ∧ match r with inr (f, _) => ∀ d g, P g (file_close f d g) | inl _ => True end;
  cf_utime p t g : under root p → P g (path_utime p t g).2;
  cf_chmod p m g : under root p → P g (path_chmod p m g).2;
  cf_mkdir p m g : near root p → P g (path_mkdir p m g).2
}.

Section confined.
Context (root : bytes) (P : fs → fs → Prop) (HP : confined root P).

Lemma mkdirs_confined fuel : ∀ p g,
  near root p → p ≠ [] → zlen p < MAXPATHLEN → (length p ≤ fuel)%nat ∨ Dirname p = p →
  ∃ ok g', mkdirs fuel p g = Ret (ok, g') ∧ P g g'.
Proof.
  induction fuel as [|fuel IH]; intros p g Hn Hne Hl Hf; cbn [mkdirs]; (destruct (directory_exists g p); [by eexists _, _; split; [|apply HP]|]);
    (case_bool_decide as Hd; [by eexists _, _; split; [|apply HP]|]).
  { destruct Hf as [Hf|Hf]; [|done]. destruct p; [done|cbn in Hf; lia]. }
  destruct Hf as [Hf|Hf]; [|done]. destruct (Dirname_length p Hne Hl) as [Nd Ld].
  destruct (IH (Dirname p) g) as (ok & g1 & E & HPg); [by apply near_Dirname|done|lia| |].
  { destruct (Dirname_cases p Hne Hl) as [[-> _]|[[-> _]|(_ & _ & ?)]]; [by right|by right|left; lia]. }
  rewrite E. mstep. destruct ok; cbn [negb]; [|by eauto]. pose proof (cf_mkdir _ _ HP p 0x1fd g1 Hn) as Hm.
  destruct (path_mkdir p 0x1fd g1) as [[e|] g2]; eexists _, _; (split; [done|]); by eapply cf_trans.
Qed.

(** The client after [c0], at rest or receiving a file. *)
Record inside c0 c : Prop := {
  in_local : P (local c0) (local c);
  in_unread : (unread c ≤ unread c0)%nat
}.
Record receiving c0 c : Prop := {
  rv_inside : inside c0 c;
  rv_file : ∃ f o, downloaded c = Some (f, o) ∧ ∀ d g, P g (file_close f d g)
}.

Lemma inside_refl c : inside c c.
Proof. split; [apply HP|done]. Qed.
Lemma inside_moves c0 c c' : inside c0 c → moves c c' → inside c0 c'.
Proof. intros [H1 H2] [[E _] Hu]. split; [by rewrite E|lia]. Qed.
Lemma receiving_moves c0 c c' : receiving c0 c → moves c c' → receiving c0 c'.
Proof. intros [H1 H2] Hm. split; [by eapply inside_moves|]. destruct Hm as [[_ E] _]. by rewrite E. Qed.

Lemma safe_unlink c0 c p Q :
  under root p → receiving c0 c → (∀ c', receiving c0 c' → unread c' = unread c → Q tt c') → safe (unlink_local p) Q c.
Proof.
  intros Hu [[H1 H2] H3] HQ. unfold safe, unlink_local, on_local. apply HQ; [|done]. split; [split; [|exact H2]|exact H3].
  eapply cf_trans; [exact HP|exact H1|]. by apply HP.
Qed.

Lemma safe_write_local c0 c bs Q :
  receiving c0 c → (∀ ok c', receiving c0 c' → unread c' = unread c → Q ok c') → safe (write_local bs) Q c.
Proof.
  intros [H1 (f & o & E & Hf)] HQ. unfold safe, write_local. rewrite E. mstep. destruct (write_exactly_spec o bs) as (ok & o' & sent & Ew & _).
  rewrite Ew. mstep. apply HQ; [|done]. split; [by destruct H1|]. by exists f, o'.
Qed.

Lemma safe_record c0 c n Q :
  receiving c0 c → (∀ c', receiving c0 c' → unread c' = unread c → Q tt c') → safe (RecordBytesTransferred n) Q c.
Proof. intros H HQ. unfold RecordBytesTransferred. sf_go. apply HQ; [|done]. by eapply receiving_moves. Qed.

Lemma safe_recv_header c0 c Q :
  receiving c0 c →
  (∀ m c', receiving c0 c' → match m with Some (_, size) => 0 ≤ size < 2 ^ 32 ∧ (unread c' < unread c)%nat | None => True end → Q m c') →
  safe recv_header Q c.
Proof.
  intros H HQ. unfold recv_header. sf_go. apply wp_safe, wp_read_any; [done|]. intros ok bs c' Hc Hok. cbv beta iota. sf_go.
  apply HQ; [by eapply receiving_moves, consumed_moves|]. destruct ok; [|done]. destruct (Hok eq_refl) as [_ Hu].
  split; [apply u32_at_range|unfold sizeof_header in Hu; lia].
Qed.

Lemma safe_recv_data c0 c lp n Q :
  under root lp → receiving c0 c → 0 ≤ n < 2 ^ 32 →
  (∀ d c', receiving c0 c' → match d with Some bs => zlen bs = n ∧ (length bs + unread c' ≤ unread c)%nat | None => True end → Q d c') →
  safe (recv_data lp n) Q c.
Proof.
  intros Hu H Hn HQ. unfold recv_data. destruct (SYNC_DATA_MAX <? n); sf_go.
  { apply safe_error. intros c1 H1. sf_go. eapply safe_unlink; [done|by eapply receiving_moves|]. intros c2 H2 _. sf_go. by apply HQ. }
  apply wp_safe, wp_read_any; [lia|]. intros ok bs c1 H1 Hok. cbv beta iota. destruct ok; cbn [negb]; sf_go.
  - destruct (Hok eq_refl) as [Hz Hr]. apply HQ; [by eapply receiving_moves, consumed_moves|]. split; [done|lia].
  - eapply safe_unlink; [done|by eapply receiving_moves, consumed_moves|]. intros c2 H2 _. sf_go. by apply HQ.
Qed.

Lemma safe_copy_failure c0 c rp lp n Q :
  receiving c0 c → 0 ≤ n < 2 ^ 32 → (∀ c', receiving c0 c' → Q tt c') → safe (ReportCopyFailure rp lp n) Q c.
Proof.
  intros H Hn HQ. unfold ReportCopyFailure. sf_go. apply safe_read_any; [lia|]. intros ok bs c1 H1. cbv beta iota.
  apply safe_error. intros c2 H2. apply HQ. eauto using receiving_moves.
Qed.

Lemma safe_recv_v1_loop c0 rp lp fuel : ∀ c Q,
  under root lp → receiving c0 c → (unread c < fuel)%nat → (∀ ok c', receiving c0 c' → Q ok c') → safe (recv_v1_loop fuel rp lp) Q c.
Proof.
  induction fuel as [|fuel IH]; intros c Q Hu Hr Hf HQ; [lia|]. cbn [recv_v1_loop]. sf_go. eapply safe_recv_header; [exact Hr|].
  intros m c1 H1 Hm. destruct m as [[id n]|]; cycle 1.
  { sf_go. eapply safe_unlink; [done|exact H1|]. intros c2 H2 _. sf_go. by apply HQ. }
  destruct Hm as [Hn Hlt]. destruct (id =? ID_DONE); [sf_go; by apply HQ|]. destruct (negb _); sf_go.
  { eapply safe_unlink; [done|exact H1|]. intros c2 H2 _. sf_go. eapply safe_copy_failure; [exact H2|done|]. intros c3 H3. sf_go. by apply HQ. }
  eapply safe_recv_data; [done|exact H1|done|]. intros d c2 H2 Hd. destruct d as [bs|]; [|sf_go; by apply HQ]. destruct Hd as [_ Hd]. sf_go.
  eapply safe_write_local; [exact H2|]. intros ok c3 H3 U3. destruct ok; cbn [negb]; sf_go.
  - eapply safe_record; [exact H3|]. intros c4 H4 U4. apply IH; [done|done|lia|done].
  - apply safe_error. intros c4 H4. sf_go. eapply safe_unlink; [done|by eapply receiving_moves|]. intros c5 H5 _. sf_go. by apply HQ.
Qed.

Section decoder.
Context (dec : Coder) (inv : coder_state dec → nat → Prop) (measure : coder_state dec → nat) (steps : nat → nat).
Context (HT : total_coder dec inv measure steps).

Lemma safe_write_decoded c0 lp fuel : ∀ st k c Q,
  under root lp → receiving c0 c → inv st k → (measure st < fuel)%nat →
  (∀ r c', receiving c0 c' → (unread c' ≤ unread c)%nat → match r with DecodeMore st' => inv st' k | _ => True end → Q r c') →
  safe (write_decoded fuel lp dec st) Q c.
Proof.
  induction fuel as [|fuel IH]; intros st k c Q Hu Hr Hi Hm HQ; [lia|]. cbn [write_decoded]. sf_go.
  pose proof (tc_code _ _ _ _ HT st k Hi) as Hc. destruct (Code dec st) as [[[r out] st']| | |] eqn:E; [|done..]. destruct Hc as [Hi' Hlt].
  apply wp_safe, (wp_lift _ (r, out, st')); [done|]. cbv beta iota.
  assert (∀ (k : bool → ST sync_conn (decoded dec)), (∀ ok c', receiving c0 c' → unread c' = unread c → safe (k ok) Q c') →
    safe (ok ← (if bool_decide (out = []) then mret true else write_local out); k ok) Q c) as Hw.
  { intros kk Hk. sf_go. case_bool_decide; [sf_go; by apply Hk|]. eapply safe_write_local; [exact Hr|]. intros ok c' Hc Uc. by apply Hk. }
  destruct r.
  { sf_go. apply safe_error. intros c1 H1. sf_go. eapply safe_unlink; [done|by eapply receiving_moves|]. intros c2 H2 U2. sf_go.
    apply (HQ DecodeFailed); [done|rewrite U2; by apply mv_unread|done]. }
  all: apply Hw; intros ok c1 H1 U1; (destruct ok; cbn [negb]; sf_go;
    [|apply safe_error; intros c2 H2; sf_go; eapply safe_unlink; [done|by eapply receiving_moves|]; intros c3 H3 U3; sf_go;
     apply (HQ DecodeFailed); [done|apply mv_unread in H2; lia|done]]);
    (eapply safe_record; [exact H1|]; intros c2 H2 U2).
  - sf_go. apply (HQ DecodeDone); [done|lia|done].
  - sf_go. apply (HQ (DecodeMore st')); [done|lia|done].
  - eapply IH; [done|exact H2|done|specialize (Hlt eq_refl); lia|]. intros r c3 H3 U3. apply HQ; [done|lia].
Qed.

Lemma safe_recv_v2_loop c0 rp lp N turns fuel : ∀ st k c Q,
  under root lp → receiving c0 c → inv st k → (k + unread c ≤ N)%nat → Z.of_nat N < 2 ^ 62 → (steps N ≤ turns)%nat → (unread c < fuel)%nat →
  (∀ ok c', receiving c0 c' → Q ok c') → safe (recv_v2_loop junk turns fuel rp lp dec st) Q c.
Proof.
  induction fuel as [|fuel IH]; intros st k c Q Hu Hr Hi HN HN2 Hs Hf HQ; [lia|]. cbn [recv_v2_loop]. sf_go.
  eapply safe_recv_header; [exact Hr|]. intros m c1 H1 Hm. destruct m as [[id n]|]; cycle 1.
  { sf_go. eapply safe_unlink; [done|exact H1|]. intros c2 H2 _. sf_go. by apply HQ. }
  destruct Hm as [Hn Hlt].
  assert (∀ st' k' c2, receiving c0 c2 → inv st' k' → (k' + unread c2 ≤ N)%nat → (unread c2 < unread c)%nat →
    safe (write_decoded turns lp dec st') (λ r, safe match r with DecodeFailed => mret false | DecodeDone => mret true
      | DecodeMore st => recv_v2_loop junk turns fuel rp lp dec st end Q) c2) as Hgo.
  { intros st' k' c2 H2 Hi2 HN' Hlt2. pose proof (tc_steps _ _ _ _ HT st' k' Hi2). pose proof (tc_mono _ _ _ _ HT k' N ltac:(lia)).
    eapply (safe_write_decoded c0 lp turns st' k'); [done|exact H2|done|lia|]. intros r c3 H3 U3 Hr3.
    destruct r as [| |st3]; [sf_go; by apply HQ..|]. apply (IH st3 k'); try done; lia. }
  destruct (id =? ID_DONE).
  { sf_go. pose proof (tc_finish _ _ _ _ HT st k Hi) as Hfin. destruct (Finish dec st) as [st'| | |] eqn:Ef; [|done..].
    apply wp_safe, (wp_lift _ st'); [done|]. cbv beta. sf_go. apply (Hgo st' k); [done..|lia|lia]. }
  destruct (negb _); sf_go.
  { eapply safe_unlink; [done|exact H1|]. intros c2 H2 _. sf_go. eapply safe_copy_failure; [exact H2|done|]. intros c3 H3. sf_go. by apply HQ. }
  eapply safe_recv_data; [done|exact H1|done|]. intros d c2 H2 Hd. destruct d as [bs|]; [|sf_go; by apply HQ]. destruct Hd as [Hz Hd]. sf_go.
  destruct (block_of_range junk bs) as (b & Eb & Hw & Hc & Hsz). apply wp_safe, (wp_lift _ b); [done|]. cbv beta. sf_go.
  rewrite <- Hc in Hd. apply (Hgo (Append dec b st) (k + length (Block.content b))%nat); [done| |lia|lia].
  apply (tc_append _ _ _ _ HT); [done|done|lia].
Qed.
End decoder.

(** The decoder of a transfer takes any [N] bytes in the turns it is given. *)
Definition decodes (compression : CompressionType) (N turns : nat) : Prop :=
  match decoder_of compression with
  | Ret dec => ∃ inv measure steps, total_coder dec inv measure steps ∧ (steps N ≤ turns)%nat
  | Abort => True
  | _ => False
  end.

Lemma safe_receive_file c0 c lp receive Q :
  under root lp → inside c0 c →
  (∀ c Q', receiving c0 c → (∀ ok c', receiving c0 c' → Q' ok c') → safe receive Q' c) →
  (∀ ok c', inside c0 c' → Q ok c') → safe (receive_file lp receive) Q c.
Proof.
  intros Hu [H1 H2] Hrec HQ. unfold receive_file, unlink_local. sf_go. unfold safe at 1, on_local. sf_go. unfold safe at 1, create_local.
  change (local (c <| local := ?g |>)) with g. destruct (path_create O_TRUNCATE lp 0x1a4 (path_unlink lp (local c))) as [[e|[f o]] g1] eqn:E;
    destruct (cf_create _ _ HP _ _ _ _ _ Hu E) as [Hp Hf];
    assert (P (local c0) g1) as Hg by (eapply cf_trans; [exact HP|exact H1|]; eapply cf_trans; [exact HP|exact (cf_unlink _ _ HP lp _ Hu)|exact Hp]); cbn [negb].
  { sf_go. apply safe_error. intros c2 [[E2 _] U2]. sf_go. apply HQ. split; [rewrite E2; exact Hg|]. etransitivity; [exact U2|exact H2]. }
  sf_go. apply Hrec; [split; [by split|by exists f, o]|]. intros ok c2 H3.
  assert (∀ Q', (∀ c', receiving c0 c' → Q' tt c') → safe (if ok then RecordFilesTransferred 1 else mret tt) Q' c2) as Hrf.
  { intros Q' HQ'. destruct ok; [unfold RecordFilesTransferred|]; sf_go; apply HQ'; [by eapply receiving_moves|done]. }
  sf_go. apply Hrf. intros c3 [[H4 U4] (f' & o' & Ed & Hf')]. cbv beta. sf_go. unfold safe at 1, close_local. rewrite Ed. sf_go. apply HQ.
  split; [|exact U4]. eapply cf_trans; [exact HP|exact H4|]. apply Hf'.
Qed.

Lemma safe_sync_recv c0 c rp lp any turns N Q :
  under root lp → inside c0 c → (unread c ≤ N)%nat → Z.of_nat N < 2 ^ 62 → (N < turns)%nat →
  decodes (ResolveCompressionType features any) N turns →
  (∀ ok c', inside c0 c' → Q ok c') → safe (sync_recv junk features turns rp lp any) Q c.
Proof.
  intros Hu Hi HN HN2 Ht Hdec HQ. unfold sync_recv. destruct (have_sendrecv_v2_ features).
  - unfold sync_recv_v2, SendRecv2. assert (∀ c1, moves c c1 → safe (decoder ← lift (decoder_of (ResolveCompressionType features any));
      receive_file lp (recv_v2_loop junk turns turns rp lp decoder (coder_init decoder))) Q c1) as Hgo.
    { intros c1 H1. sf_go. unfold decodes in Hdec. destruct (decoder_of _) as [dec| | |]; [|done..].
      destruct Hdec as (inv & measure & steps & HT & Hs). apply wp_safe, (wp_lift _ dec); [done|]. cbv beta.
      apply (safe_receive_file c1); [done| | |].
      - split; [apply HP|done].
      - intros c2 Q' H2 HQ'. pose proof (mv_unread _ _ H1). pose proof (in_unread _ _ (rv_inside _ _ H2)).
        eapply (safe_recv_v2_loop dec inv measure steps HT c1 rp lp N turns turns _ 0%nat); [done|exact H2|apply HT|lia|done|done|lia|done].
      - intros ok c2 [P2 U2]. apply HQ. destruct (inside_moves _ _ _ Hi H1) as [P1 U1]. split; [by eapply cf_trans|lia]. }
    sf_go. destruct (1024 <? zlen rp); sf_go.
    + apply safe_error. intros c1 H1. sf_go. cbn [negb]. sf_go. apply HQ. by eapply inside_moves.
    + destruct (compression_flag _) as [fl| | |] eqn:Ef; [|done|by destruct (ResolveCompressionType features any)..].
      apply wp_safe, (wp_lift _ fl); [done|]. cbv beta. apply safe_conn_write. intros ok c1 H1. destruct ok; cbn [negb]; [by apply Hgo|].
      sf_go. apply HQ. by eapply inside_moves.
  - unfold sync_recv_v1. sf_go. apply safe_send_request. intros r c1 H1 _. destruct r; sf_go; [apply HQ; by eapply inside_moves|].
    apply (safe_receive_file c1); [done|split; [apply HP|done]| |].
    + intros c2 Q' H2 HQ'. eapply safe_recv_v1_loop; [done|exact H2| |done]. pose proof (in_unread _ _ (rv_inside _ _ H2)). unfold unread in *. lia.
    + intros ok c2 [P2 U2]. apply HQ. destruct (inside_moves _ _ _ Hi H1) as [P1 U1]. split; [by eapply cf_trans|lia].
Qed.

Lemma safe_set_time_and_mode c0 c umask p t m Q :
  under root p → inside c0 c → (∀ ok c', inside c0 c' → Q ok c') → safe (set_time_and_mode umask p t m) Q c.
Proof.
  intros Hu [H1 H2] HQ. unfold set_time_and_mode. sf_go. unfold safe at 1, on_local. pose proof (cf_utime _ _ HP p t (local c) Hu) as Pt.
  destruct (path_utime p t (local c)) as [r1 g1]. sf_go. unfold safe at 1, on_local. change (local (c <| local := g1 |>)) with g1.
  pose proof (cf_chmod _ _ HP p (Z.land m (Z.lnot umask)) g1 Hu) as Pm. destruct (path_chmod p _ g1) as [r2 g2]. sf_go. apply HQ.
  split; [|exact H2]. eapply cf_trans; [exact HP|exact H1|]. by eapply cf_trans.
Qed.

Lemma safe_pull_files c0 R umask any turns N copy_attrs fl : ∀ c Q,
  Forall (pull_entry root R) fl → inside c0 c → (unread c0 ≤ N)%nat → Z.of_nat N < 2 ^ 62 → (N < turns)%nat →
  decodes (ResolveCompressionType features any) N turns →
  (∀ ok c', inside c0 c' → Q ok c') → safe (pull_files junk features turns umask fl copy_attrs any) Q c.
Proof.
  induction fl as [|ci fl IH]; intros c Q Hfl Hi HN HN2 Ht Hd HQ; cbn [pull_files]; [sf_go; by apply HQ|].
  apply Forall_cons in Hfl as [(Hu & Hne & Hlen & _) Hfl]. destruct (skip ci); [by apply IH|].
  assert (∀ c', inside c0 c' → safe (pull_files junk features turns umask fl copy_attrs any) Q c') as Hgo by (intros; by apply IH).
  destruct (S_ISDIR (mode ci)); sf_go.
  - destruct (mkdirs_confined (length (lpath ci)) (lpath ci) (local c)) as (ok & g' & E & HPg); [by left|done|done|by left|].
    unfold safe at 1, mkdirs_local. rewrite E. mstep. assert (inside c0 (c <| local := g' |>)) as Hi'.
    { destruct Hi as [H1 H2]. split; [by eapply cf_trans|exact H2]. }
    destruct ok; cbn [negb]; [by apply Hgo|]. sf_go. apply safe_error. intros c2 H2. sf_go. apply HQ. by eapply inside_moves.
  - eapply safe_sync_recv; [done|exact Hi| |exact HN2|exact Ht|exact Hd|].
    { pose proof (in_unread _ _ Hi). lia. }
    intros ok c2 H2. destruct ok; cbn [negb]; sf_go; [|by apply HQ].
    assert (∀ Q', (∀ ok c', inside c0 c' → Q' ok c') → safe (if copy_attrs then set_time_and_mode umask (lpath ci) (time ci) (mode ci) else mret true) Q' c2) as Ha.
    { intros Q' HQ'. destruct copy_attrs; [by eapply safe_set_time_and_mode|]. sf_go. by apply HQ'. }
    apply Ha. intros ok c3 H3. destruct ok; cbn [negb]; [by apply Hgo|]. sf_go. by apply HQ.
Qed.
End confined.

Lemma slashed_ends d : d ≠ [] → ends_slash (slashed d).
Proof. intros H. destruct (slashed_cases d) as [[_ ?]|?]; done. Qed.

Lemma safe_copy_remote_dir P turns umask rp lp copy_attrs any c :
  confined (slashed lp) P → rp ≠ [] → lp ≠ [] → zlen rp < 2500 → zlen lp < 2500 →
  Z.of_nat (unread c) < 2 ^ 62 → (unread c < turns)%nat → decodes (ResolveCompressionType features any) (unread c) turns →
  safe (copy_remote_dir_local junk features turns umask rp lp copy_attrs any) (λ _ c', P (local c) (local c')) c.
Proof.
  intros HP Hr Hl Hrl Hll HN Ht Hd. unfold copy_remote_dir_local, NewTransfer. sf_go. unfold ensure_trailing_separators.
  destruct (with_slash_nonempty lp Hl) as [El _]. destruct (with_slash_nonempty rp Hr) as [Er _]. rewrite El, Er. mstep.
  apply wp_safe, (wp_lift _ (slashed lp, slashed rp)); [done|]. cbv beta iota. sf_go.
  pose proof (slashed_length lp). pose proof (slashed_length rp). set (c1 := c <| current_ledger_ := ledger_zero |>).
  rewrite <- (app_nil_r (slashed rp)), <- (app_nil_r (slashed lp)).
  apply safe_remote_build_list; [by apply slashed_ends|by apply slashed_ends|lia|lia|by apply not_elem_of_nil|cbn; lia|constructor|done|].
  intros ok fl c2 H2 Hfl. cbv beta iota. assert (inside P c c2) as Hi by (eapply (inside_moves P c c c2); [by apply (inside_refl _ _ HP)|]; eapply moves_trans; [|exact H2]; by split).
  destruct ok; cbn [negb]; sf_go; [|apply Hi]. unfold ComputeExpectedTotalBytes, SetExpectedTotalBytes. sf_go.
  eapply (safe_pull_files (slashed lp) P HP c (slashed rp) umask any turns (unread c)); [exact Hfl| |done|done|done|done|].
  { eapply inside_moves; [exact Hi|done]. }
  intros ok c3 H3. destruct ok; cbn [negb]; sf_go; [|apply H3]. unfold RecordFilesSkipped. sf_go. apply H3.
Qed.

End remote.

(** Files in memory, of which only those near [root] may change *)
Definition elsewhere (root : bytes) (g g' : tree) : Prop := ∀ q, ¬ near root q → node_at g' q = node_at g q.

Lemma node_at_cons p n g q : node_at ((p, n) :: g) q = if bool_decide (p = q) then Some n else node_at g q.
Proof. unfold node_at. cbn. by case_bool_decide. Qed.

Lemma node_at_change p f g q : p ≠ q → node_at (change p f g) q = node_at g q.
Proof.
  intros Hpq. induction g as [|[r n] g IH]; [done|].
  change (change p f ((r, n) :: g)) with ((if bool_decide (r = p) then (r, f n) else (r, n)) :: change p f g).
  case_bool_decide; rewrite !node_at_cons, IH; [subst; by rewrite !bool_decide_false|done].
Qed.

Lemma node_at_without p g q : p ≠ q → node_at (without p g) q = node_at g q.
Proof.
  intros Hpq. induction g as [|[r n] g IH]; [done|].
  change (without p ((r, n) :: g)) with (if decide (r ≠ p) then (r, n) :: without p g else without p g). case_decide as Hr; rewrite !node_at_cons.
  - by rewrite IH.
  - rewrite IH. subst r. by rewrite bool_decide_false.
Qed.

Lemma near_unslash root p : near root p → near root (unslash p).
Proof.
  unfold unslash. destruct (reverse p) as [|c [|d r]] eqn:E; [done..|]. case_bool_decide as Hc; [|done]. subst c.
  assert (p = reverse (d :: r) ++ [slash]) as ->.
  { rewrite <- (reverse_involutive p), E. by rewrite (reverse_cons (d :: r)). }
  unfold near, under, absolute. rewrite components_end. assert (head (reverse (d :: r) ++ [slash]) = head (reverse (d :: r))) as ->; [|done].
  rewrite reverse_cons. by destruct (reverse r).
Qed.

Lemma elsewhere_confined root : @confined memory_files root (elsewhere root).
Proof.
  assert (∀ p q, near root p → ¬ near root q → p ≠ q) as Hne by (intros p q H1 H2 ->; done).
  assert (∀ p q, under root p → ¬ near root q → p ≠ q) as Hun by (intros p q H1; apply Hne; by left).
  split.
  - by intros g q _.
  - intros g1 g2 g3 H1 H2 q Hq. by rewrite H2, H1.
  - intros p g Hp q Hq. cbn. apply node_at_without. by apply Hun.
  - intros p m g r g' Hp. cbn. intros [= <- <-]. split.
    + intros q Hq. rewrite node_at_cons, bool_decide_false by by apply Hun. apply node_at_without. by apply Hun.
    + intros d g2 q Hq. apply node_at_change. by apply Hun.
  - intros p t g Hp q Hq. cbn. apply node_at_change. by apply Hun.
  - intros p m g Hp q Hq. cbn. apply node_at_change. by apply Hun.
  - intros p m g Hp q Hq. cbn. destruct (node_at g (unslash p)); [done|]. cbn [snd].
    rewrite node_at_cons, bool_decide_false by (apply Hne; [by apply near_unslash|done]). done.
Qed.

(** A device that lists the directory above, a file and nothing else. *)
Definition hostile_listing : bytes :=
  dent_v2_bytes ID_DENT_V2 0 (fresh_stat (Z.lor S_IFDIR 0x1ed) 0 5) 2 ++ dotdot ++
  dent_v2_bytes ID_DENT_V2 0 (regular 0x1a4 3 5) 1 ++ str "x" ++ dent_v2_bytes ID_DONE 0 stat_zero 0 ++
  sync_header ID_DATA 3 ++ str "abc" ++ sync_header ID_DONE 0.
Definition passwd : bytes * node := (str "/etc/passwd", sample_file (str "root")).
Definition hostile_client : @sync_conn memory_files :=
  @Conn memory_files (one_by_one hostile_listing) (Out [] []) [passwd] None [] [] [] ledger_zero ledger_zero [].

