(* ===== verification/SyncDirsProps.v ===== *)
(** * Copying directories: what is pushed, and two ways it goes wrong

    The files [local_build_list] finds, the commands that make the directories,
    the loop over the parents of the remote directory, and what is left of
    the connection when a file cannot be created. *)

From S2P Require Import Prelude State CString CStringFacts LibBase LibBaseFacts AdbIO AdbIOFacts Types TypesFacts.
From S2P Require Import Compression CompressionFacts Paths Errno SyncProtocol SyncService SyncClient SyncSample SyncFacts SyncPush SyncPull SyncListing SyncDirs SyncDirsFacts.
Local Open Scope Z_scope.
Local Open Scope record_scope.

(** ** The parents of the remote directory *)

(** [path], and what [Dirname] makes of it again and again, before the root. *)
Inductive parents : bytes → list bytes → Prop :=
| parents_root path : is_root_dir path = true → parents path []
| parents_up path l : is_root_dir path = false → parents (Dirname path) l → parents path (path :: l).

Lemma parents_loop_spec path l : parents path l → ∀ fuel acc,
  parents_loop fuel path acc = if (length l <=? fuel)%nat then Ret (acc ++ l) else OutOfFuel.
Proof.
  induction 1 as [path H|path l H _ IH]; intros fuel acc; (destruct fuel as [|fuel]; cbn [parents_loop]; rewrite H; cbn [length]).
  - by rewrite app_nil_r.
  - by rewrite app_nil_r.
  - done.
  - rewrite IH, <- app_assoc. done.
Qed.

Lemma parents_absolute n : ∀ path, (length path ≤ n)%nat → absolute path → zlen path < MAXPATHLEN →
  ∃ l, parents path l ∧ (length l < length path)%nat.
Proof.
  induction n as [|n IH]; intros path Hn Ha Hl; [by destruct path; [|cbn in Hn; lia]|].
  assert (path ≠ []) as Hne by by destruct path. assert (1 ≤ length path)%nat by (destruct path; [done|cbn; lia]).
  destruct (is_root_dir path) eqn:Er; [exists []; split; [by constructor|cbn; lia]|].
  destruct (Dirname_cases path Hne Hl) as [[Ed _]|[[Ed Hno]|(Hh & Hdn & Hlt)]].
  - exists [path]. split; [apply parents_up; [done|]; rewrite Ed; by constructor|]. destruct path as [|b [|b' path]]; [done| |cbn; lia].
    injection Ha as ->. done.
  - done.
  - destruct (IH (Dirname path)) as (l & Hp & Hll); [lia|unfold absolute; by rewrite Hh|lia|].
    exists (path :: l). split; [by apply parents_up|cbn; lia].
Qed.

Lemma parents_relative fuel : ∀ path acc,
  path ≠ [] → head path ≠ Some slash → zlen path < MAXPATHLEN → parents_loop fuel path acc = OutOfFuel.
Proof.
  induction fuel as [|fuel IH]; intros path acc Hne Hh Hl; cbn [parents_loop];
    (assert (is_root_dir path = false) as -> by (destruct path as [|b path]; [done|]; cbn; by rewrite bool_decide_false by (intros ->; done))); [done|].
  destruct (Dirname_cases path Hne Hl) as [[_ Ha]|[[Ed _]|(Hd & Hdn & Hlt)]]; [done| |].
  - rewrite Ed. by apply IH.
  - apply IH; [done|by rewrite Hd|lia].
Qed.

(** The remote directories [copy_local_dir_remote] collects before it pushes:
    for an absolute path the loop ends and finds the path and the directories it is
    in, without the root; for a relative one, which every other part of a push
    takes, it never ends, since [Dirname] of ["."] is ["."]. *)
Theorem parents_loop_correct path :
  path ≠ [] → zlen path < MAXPATHLEN →
  (absolute path → ∃ l, parents path l ∧ ∀ fuel, (length path ≤ fuel)%nat → parents_loop fuel path [] = Ret l) ∧
  (¬ absolute path → ∀ fuel, parents_loop fuel path [] = OutOfFuel).
Proof.
  intros Hne Hl. split.
  - intros Ha. destruct (parents_absolute (length path) path ltac:(done) Ha Hl) as (l & Hp & Hll). exists l. split; [done|].
    intros fuel Hf. rewrite (parents_loop_spec path l Hp). by rewrite (proj2 (Nat.leb_le _ _)) by lia.
  - intros Ha fuel. by apply parents_relative.
Qed.

Lemma parents_loop_correct_witness :
  parents_loop 12 (str "/sdcard/a/b/") [] = Ret [str "/sdcard/a/b/"; str "/sdcard/a"; str "/sdcard"] ∧
  ∀ fuel, parents_loop fuel (str "sdcard/a/") [] = OutOfFuel.
Proof.
  destruct (parents_loop_correct (str "/sdcard/a/b/") ltac:(done) ltac:(done)) as [H _].
  destruct (parents_loop_correct (str "sdcard/a/") ltac:(done) ltac:(done)) as [_ H'].
  destruct (H eq_refl) as (l & _ & E). split; [|by apply H']. rewrite (E 12%nat ltac:(done)).
  rewrite <- (E 12%nat ltac:(done)). reflexivity.
Defined.

(** ** The files of a local directory *)

Section push.
Context `{HF : !Files, HC : !Codecs, HH : !HostErrno, HE : !ClientErrno}.
Context (L R : bytes) (HL : ends_slash L) (HR : ends_slash R) (g : fs).
Implicit Type c : sync_conn.

(** The entry [name] of the directory [rel], and its status *)
Definition entry_in (rel name : bytes) (st : stat) : Prop :=
  ∃ names, path_readdir g (L ++ rel) = inr names ∧ name ∈ names ∧ IsDotOrDotDot name = false ∧
    path_lstat g (L ++ rel ++ name) = inr st.

(** A file, from its place in the local directory to the same place in the remote one *)
Definition file_info (rel name : bytes) (st : stat) : copyinfo :=
  CopyInfo (L ++ child_rel rel name false) (R ++ child_rel rel name false) (st_mtime st) (st_mode st) (u64 (st_size st))
    (negb (should_push_file (st_mode st))).

(** What is to be pushed: everything in the directory [rel], at any depth, that is no directory. *)
Inductive pushed (rel : bytes) : copyinfo → Prop :=
| pushed_here name st : entry_in rel name st → S_ISDIR (st_mode st) = false → pushed rel (file_info rel name st)
| pushed_below name st ci :
    entry_in rel name st → S_ISDIR (st_mode st) = true → pushed (child_rel rel name true) ci → pushed rel ci.

(** Directories are nested at most [n] deep. *)
Fixpoint shallow (n : nat) (rel : bytes) : Prop :=
  ∀ name st, entry_in rel name st → S_ISDIR (st_mode st) = true → match n with O => False | S n => shallow n (child_rel rel name true) end.

(** Nothing but what is reported changes. *)
Record same c c' : Prop := {
  sm_files : local c' = local c ∧ downloaded c' = downloaded c;
  sm_conn : c_in c' = c_in c ∧ c_out c' = c_out c
}.

Lemma same_trans c1 c2 c3 : same c1 c2 → same c2 c3 → same c1 c3.
Proof. intros [[? ?] [? ?]] [[? ?] [? ?]]. split; split; congruence. Qed.

(** A directory is written with its slash. *)
Definition dir_rel (rel : bytes) : Prop := rel = [] ∨ ends_slash rel.

Lemma dir_rel_slashed rel : dir_rel rel → slashed rel = rel.
Proof. intros [->|[d ->]]; [done|]. unfold slashed. rewrite last_snoc. rewrite (bool_decide_true (Some slash = Some slash)) by done. by rewrite orb_true_r. Qed.

Lemma dir_rel_child rel name : dir_rel (child_rel rel name true).
Proof. unfold child_rel. destruct (slashed_cases (slashed rel ++ name)) as [[-> _]|?]; [by left|by right]. Qed.

(** What an entry adds to the lists. *)
Definition entry_lists (rel name : bytes) : list copyinfo * list copyinfo :=
  if IsDotOrDotDot name then ([], [])
  else match path_lstat g (L ++ rel ++ name) with
       | inl _ => ([], [])
       | inr st =>
           if S_ISDIR (st_mode st) then
             ([CopyInfo (L ++ child_rel rel name true) (R ++ child_rel rel name true) 0 (st_mode st) 0 false], [])
           else ([], [file_info rel name st])
       end.

Lemma wp_local_entry rel name ds fl c Q :
  local c = g →
  (∀ c', same c c' → Q (ds ++ (entry_lists rel name).1, fl ++ (entry_lists rel name).2) c') →
  wp (local_entry (L ++ rel) (R ++ rel) name ds fl) Q c.
Proof.
  intros Hg HQ. unfold local_entry, entry_lists in *. destruct (IsDotOrDotDot name); [st_go; rewrite !app_nil_r in HQ; by apply HQ|].
  st_go. rewrite Hg, <- app_assoc. destruct (path_lstat g (L ++ rel ++ name)) as [e|st].
  { unfold Error. st_go. rewrite !app_nil_r in HQ. by apply HQ. }
  st_go. rewrite new_copyinfo_rel by done. eapply wp_lift; [done|]. cbv beta. destruct (S_ISDIR (st_mode st)); [st_go; rewrite app_nil_r in HQ; by apply HQ|].
  rewrite app_nil_r in HQ. st_go. destruct (should_push_file (st_mode st)) eqn:Es; [|unfold Error]; st_go;
    unfold with_details; cbn [lpath rpath mode negb]; unfold file_info in HQ; rewrite Es in HQ; by apply HQ.
Qed.

Definition all_dirs (rel : bytes) (names : list bytes) : list copyinfo := names ≫= λ name, (entry_lists rel name).1.
Definition all_files (rel : bytes) (names : list bytes) : list copyinfo := names ≫= λ name, (entry_lists rel name).2.

Lemma wp_local_entries rel names : ∀ ds fl c Q,
  local c = g → (∀ c', same c c' → Q (ds ++ all_dirs rel names, fl ++ all_files rel names) c') →
  wp (local_entries (L ++ rel) (R ++ rel) names ds fl) Q c.
Proof.
  induction names as [|name names IH]; intros ds fl c Q Hg HQ; cbn [local_entries]; st_go.
  { cbn in HQ. rewrite !app_nil_r in HQ. by apply HQ. }
  apply wp_local_entry; [done|]. intros c1 H1. cbv beta iota. apply IH; [by rewrite (proj1 (sm_files _ _ H1))|]. intros c2 H2.
  rewrite <- !app_assoc. apply HQ. by eapply same_trans.
Qed.

Definition dir_info (rel name : bytes) (st : stat) : copyinfo :=
  CopyInfo (L ++ child_rel rel name true) (R ++ child_rel rel name true) 0 (st_mode st) 0 false.

Lemma elem_of_entries rel names ci :
  path_readdir g (L ++ rel) = inr names →
  (ci ∈ all_files rel names ↔ ∃ name st, entry_in rel name st ∧ S_ISDIR (st_mode st) = false ∧ ci = file_info rel name st) ∧
  (ci ∈ all_dirs rel names ↔ ∃ name st, entry_in rel name st ∧ S_ISDIR (st_mode st) = true ∧ ci = dir_info rel name st).
Proof.
  intros Hn. unfold all_files, all_dirs. rewrite !list_elem_of_bind. unfold entry_lists, entry_in, dir_info. split.
  - split.
    + intros (name & Hci & Hin). destruct (IsDotOrDotDot name) eqn:Ed; [by apply elem_of_nil in Hci|].
      destruct (path_lstat _ _) as [e|st] eqn:El; [by apply elem_of_nil in Hci|]. destruct (S_ISDIR (st_mode st)) eqn:Es; [by apply elem_of_nil in Hci|].
      apply list_elem_of_singleton in Hci as ->. exists name, st. split_and!; [|done..]. by exists names.
    + intros (name & st & (names' & En & Hin & Ed & El) & Es & ->). rewrite Hn in En. injection En as <-. exists name.
      rewrite Ed, El, Es. split; [apply list_elem_of_here|done].
  - split.
    + intros (name & Hci & Hin). destruct (IsDotOrDotDot name) eqn:Ed; [by apply elem_of_nil in Hci|].
      destruct (path_lstat _ _) as [e|st] eqn:El; [by apply elem_of_nil in Hci|]. destruct (S_ISDIR (st_mode st)) eqn:Es; [|by apply elem_of_nil in Hci].
      apply list_elem_of_singleton in Hci as ->. exists name, st. split_and!; [|done..]. by exists names.
    + intros (name & st & (names' & En & Hin & Ed & El) & Es & ->). rewrite Hn in En. injection En as <-. exists name.
      rewrite Ed, El, Es. split; [apply list_elem_of_here|done].
Qed.

(** The lists [l'] are [l] and what was found in some directories. *)
Definition adds (l l' : lists) (found : copyinfo → Prop) : Prop :=
  ∃ new ds, l' = (l.1 ++ new, l.2 ++ ds) ∧ ∀ ci, ci ∈ new ↔ found ci.

Lemma wp_local_subdirs (again : bytes → bytes → lists → ST sync_conn (bool * lists)) rels : ∀ l c Q,
  local c = g →
  (∀ rel l c Q, rel ∈ rels → local c = g → (∀ ok l' c', same c c' → adds l l' (pushed rel) → Q (ok, l') c') → wp (again (L ++ rel) (R ++ rel) l) Q c) →
  ∀ dirlist, Forall2 (λ ci rel, lpath ci = L ++ rel ∧ rpath ci = R ++ rel) dirlist rels →
  (∀ l' c', same c c' → adds l l' (λ ci, ∃ rel, rel ∈ rels ∧ pushed rel ci) → Q l' c') →
  wp (local_subdirs again dirlist l) Q c.
Proof.
  induction rels as [|rel rels IH]; intros l c Q Hg Hagain dirlist Hdl HQ.
  - apply Forall2_nil_inv_r in Hdl as ->. cbn. apply HQ; [done|]. exists [], []. rewrite !app_nil_r. split; [by destruct l|].
    intros ci. split; [by intros ?%elem_of_nil|]. intros (rel & Hin & _). by apply elem_of_nil in Hin.
  - apply Forall2_cons_inv_r in Hdl as (ci0 & dl & (E1 & E2) & Hdl & ->). cbn [local_subdirs]. st_go. rewrite E1, E2.
    apply Hagain; [apply list_elem_of_here|done|]. intros ok l1 c1 H1 (new1 & ds1 & El1 & N1). cbv beta iota.
    eapply IH; [by rewrite (proj1 (sm_files _ _ H1))|intros rel' l2 c2 Q2 Hin; apply Hagain; by apply list_elem_of_further|exact Hdl|].
    intros l2 c2 H2 (new2 & ds2 & El2 & N2). apply HQ; [by eapply same_trans|]. exists (new1 ++ new2), ([R ++ rel] ++ ds1 ++ ds2).
    split; [rewrite El2, El1; cbn [fst snd]; by rewrite <- !app_assoc|]. intros ci. rewrite elem_of_app, N1, N2. split.
    + intros [H|(rel' & Hin & H)]; [exists rel; split; [apply list_elem_of_here|done]|exists rel'; split; [by apply list_elem_of_further|done]].
    + intros (rel' & Hin & H). apply elem_of_cons in Hin as [->|Hin]; [by left|right; eauto].
Qed.

Lemma local_build_unfold n lp rp l :
  local_build_list n lp rp l = local_turn (match n with O => λ _ _ _ _, OutOfFuel | S n => local_build_list n end) lp rp l.
Proof. by destruct n. Qed.

(** The directories of a directory, as paths *)
Definition sub_rels (rel : bytes) (names : list bytes) : list bytes :=
  names ≫= λ name, match (entry_lists rel name).1 with [] => [] | _ => [child_rel rel name true] end.

Lemma sub_rels_dirs rel names : Forall2 (λ ci rel, lpath ci = L ++ rel ∧ rpath ci = R ++ rel) (all_dirs rel names) (sub_rels rel names).
Proof.
  induction names as [|name names IH]; [constructor|]. unfold all_dirs, sub_rels in *. cbn. apply Forall2_app; [|exact IH].
  unfold entry_lists. destruct (IsDotOrDotDot name); [constructor|]. destruct (path_lstat _ _) as [e|st]; [constructor|].
  destruct (S_ISDIR (st_mode st)); cbn; by repeat constructor.
Qed.

Lemma elem_of_sub_rels rel names r :
  path_readdir g (L ++ rel) = inr names →
  r ∈ sub_rels rel names ↔ ∃ name st, entry_in rel name st ∧ S_ISDIR (st_mode st) = true ∧ r = child_rel rel name true.
Proof.
  intros Hn. unfold sub_rels. rewrite list_elem_of_bind. unfold entry_lists, entry_in. split.
  - intros (name & Hr & Hin). destruct (IsDotOrDotDot name) eqn:Ed; [by apply elem_of_nil in Hr|].
    destruct (path_lstat _ _) as [e|st] eqn:El; [by apply elem_of_nil in Hr|]. destruct (S_ISDIR (st_mode st)) eqn:Es; [|by apply elem_of_nil in Hr].
    apply list_elem_of_singleton in Hr as ->. exists name, st. split_and!; [|done..]. by exists names.
  - intros (name & st & (names' & En & Hin & Ed & El) & Es & ->). rewrite Hn in En. injection En as <-. exists name.
    rewrite Ed, El, Es. split; [apply list_elem_of_here|done].
Qed.

Lemma pushed_inv rel names ci :
  path_readdir g (L ++ rel) = inr names →
  pushed rel ci ↔ ci ∈ all_files rel names ∨ ∃ r, r ∈ sub_rels rel names ∧ pushed r ci.
Proof.
  intros Hn. rewrite (proj1 (elem_of_entries rel names ci Hn)). split.
  - intros [name st He Hd|name st ci' He Hd Hp]; [left; eauto|right]. exists (child_rel rel name true). split; [|done].
    apply elem_of_sub_rels; [done|]. eauto.
  - intros [(name & st & He & Hd & ->)|(r & Hr & Hp)]; [by apply pushed_here|].
    apply elem_of_sub_rels in Hr as (name & st & He & Hd & ->); [|done]. by eapply pushed_below.
Qed.

Lemma wp_local_build_list n : ∀ rel l c Q,
  local c = g → shallow n rel →
  (∀ ok l' c', same c c' → adds l l' (pushed rel) → ok = match path_readdir g (L ++ rel) with inr _ => true | inl _ => false end → Q (ok, l') c') →
  wp (local_build_list n (L ++ rel) (R ++ rel) l) Q c.
Proof.
  induction n as [|n IH]; intros rel l c Q Hg Hsh HQ; rewrite local_build_unfold; unfold local_turn at 1; st_go; rewrite Hg;
    (destruct (path_readdir g (L ++ rel)) as [e|names] eqn:En;
     [unfold Error; st_go; apply HQ; [done| |done]; exists [], []; rewrite !app_nil_r; split; [by destruct l|];
      intros ci; split; [by intros ?%elem_of_nil|]; intros [? ? (? & E & _)|? ? ? (? & E & _)]; congruence|]);
    st_go; (apply wp_local_entries; [done|]); intros c1 H1; cbv beta iota; st_go;
    (eapply (wp_local_subdirs _ (sub_rels rel names)); [by rewrite (proj1 (sm_files _ _ H1))| |apply sub_rels_dirs|]);
    try (intros l2 c2 H2 (new & ds & El & N); st_go; apply HQ; [by eapply same_trans| |done];
      exists (all_files rel names ++ new), ds; split; [rewrite El; cbn [fst snd]; by rewrite <- app_assoc|];
      intros ci; rewrite elem_of_app, N; by rewrite (pushed_inv rel names)).
  - intros r l2 c2 Q2 Hr _ _. apply elem_of_sub_rels in Hr as (name & st & He & Hd & _); [|done]. by destruct (Hsh name st He Hd).
  - intros r l2 c2 Q2 Hr Hg2 HQ2. apply elem_of_sub_rels in Hr as (name & st & He & Hd & ->); [|done].
    apply IH; [done|by apply (Hsh name st He Hd)|]. intros ok l' c' Hs Ha _. by apply HQ2.
Qed.

(** C28: The files [local_build_list] collects are exactly those in the local
    directory, at any depth, that are no directories, each with the remote name
    at the same place below the remote directory, its own time, mode and size, and marked
    to be skipped if it is neither a file nor a link; nothing is sent, and the
    collecting ends when the directories do. *)
Theorem local_build_list_correct n ds c :
  local c = g → shallow n [] →
  ∃ ok fl dl c', local_build_list n L R ([], ds) c = Ret ((ok, (fl, ds ++ dl)), c') ∧ same c c' ∧
    ok = (match path_readdir g L with inr _ => true | inl _ => false end) ∧ ∀ ci, ci ∈ fl ↔ pushed [] ci.
Proof.
  intros Hg Hsh. destruct (proj1 (wp_run (local_build_list n (L ++ []) (R ++ []) ([], ds)) (λ r c', same c c' ∧
    adds ([], ds) r.2 (pushed []) ∧ r.1 = match path_readdir g (L ++ []) with inr _ => true | inl _ => false end) c))
    as ([ok l] & c' & E & Hs & (fl & dl & El & N) & Hok).
  { apply wp_local_build_list; [done..|]. by intros. }
  rewrite (app_nil_r L) in E, Hok. rewrite (app_nil_r R) in E. cbn in El, Hok. subst l. by exists ok, fl, dl, c'.
Qed.
End push.

(** A directory with a file and, in a directory of its own, a link. *)
Definition sample_tree : tree :=
  [(str "src", sample_dir); (str "src/a", sample_file (str "A")); (str "src/d", sample_dir);
   (str "src/d/b", Node (fresh_stat (Z.lor S_IFLNK 0x1ff) 1 5) (str "a"))].
Definition listing_client : @sync_conn memory_files :=
  @Conn memory_files [] (Out [] []) sample_tree None [] [] [] ledger_zero ledger_zero [].

Lemma local_build_list_correct_witness :
  ∃ fl c', @local_build_list memory_files 1 (str "src/") (str "/dst/") ([], []) listing_client =
    Ret ((true, (fl, [str "/dst/d/"])), c') ∧
    @file_info (str "src/") (str "/dst/") (str "d/") (str "b") (fresh_stat (Z.lor S_IFLNK 0x1ff) 1 5) ∈ fl.
Proof.
  assert (@shallow memory_files (str "src/") sample_tree 1 []) as Hsh.
  { intros name st (names & En & Hin & Hdot & El) Hd name2 st2 (names2 & En2 & Hin2 & Hdot2 & El2) Hd2. vm_compute in En. injection En as <-.
    apply elem_of_cons in Hin as [->|Hin]; [vm_compute in El; injection El as <-; discriminate Hd|].
    apply elem_of_cons in Hin as [->|Hin]; [|by apply elem_of_nil in Hin]. vm_compute in En2. injection En2 as <-.
    apply elem_of_cons in Hin2 as [->|Hin2]; [|by apply elem_of_nil in Hin2]. vm_compute in El2. injection El2 as <-. discriminate Hd2. }
  destruct (@local_build_list_correct memory_files (str "src/") (str "/dst/") ltac:(by exists (str "src")) ltac:(by exists (str "/dst"))
    sample_tree 1 [] listing_client eq_refl Hsh) as (ok & fl & dl & c' & E & _ & Hok & N).
  exists fl, c'. split.
  - rewrite E. rewrite Hok. apply (f_equal (λ r, match r with Ret ((_, (_, d)), _) => d | _ => [] end)) in E. vm_compute in E. subst dl. reflexivity.
  - apply N. eapply pushed_below.
    + exists [str "a"; str "d"]. split_and!; [reflexivity|apply list_elem_of_further, list_elem_of_here|reflexivity|reflexivity].
    + reflexivity.
    + apply pushed_here; [|reflexivity]. exists [str "b"]. split_and!; [reflexivity|apply list_elem_of_here|reflexivity|reflexivity].
Defined.

(** ** The commands that make directories *)

Definition space : byte := Zbyte 32.

(** The rules of the shell for a command of quoted and plain words; [word] is
    the one that is being read. *)
Fixpoint sh_words (quoted : bool) (word : option bytes) (s : bytes) : option (list bytes) :=
  let w := default [] word in
  match s with
  | [] => if quoted then None else Some (match word with Some w => [w] | None => [] end)
  | c :: s =>
      if quoted then if bool_decide (c = quote) then sh_words false (Some w) s else sh_words true (Some (w ++ [c])) s
      else if bool_decide (c = space) then
        match word with Some w => cons w <$> sh_words false None s | None => sh_words false None s end
      else if bool_decide (c = quote) then sh_words true (Some w) s
      else if bool_decide (c = backslash) then match s with [] => None | d :: s => sh_words false (Some (w ++ [d])) s end
      else if isdigit c || islower c || isupper c then sh_words false (Some (w ++ [c])) s
      else None
  end.

Lemma sh_words_quoted s rest : ∀ w, sh_words true (Some w) (escaped s ++ quote :: rest) = sh_words false (Some (w ++ s)) rest.
Proof.
  induction s as [|c s IH]; intros w.
  { cbn [escaped mbind list_bind app sh_words default]. rewrite bool_decide_true by done. by rewrite app_nil_r. }
  change (c :: s) with ([c] ++ s). rewrite escaped_app, <- app_assoc. unfold escaped at 1. cbn [mbind list_bind app]. case_bool_decide as Hc.
  - subst c. cbn [app]. do 4 (cbn [sh_words default]; rewrite ?(bool_decide_true (quote = quote)) by done;
      rewrite ?(bool_decide_false (backslash = _)) by done; rewrite ?(bool_decide_true (backslash = backslash)) by done; rewrite ?(bool_decide_false (quote = space)) by done).
    unfold id. rewrite IH. by rewrite <- app_assoc.
  - cbn [app sh_words default]. rewrite bool_decide_false by done. unfold id. rewrite IH. by rewrite <- app_assoc.
Qed.

Definition quoted_arg (d : bytes) : bytes := quote :: escaped d ++ [quote].
Definition mkdir_cmd (ds : list bytes) : bytes := str "mkdir" ++ concat ((λ d, space :: quoted_arg d) <$> ds).

Lemma sh_words_args ds : ∀ w, sh_words false (Some w) (concat ((λ d, space :: quoted_arg d) <$> ds)) = Some (w :: ds).
Proof.
  induction ds as [|d ds IH]; intros w; [done|]. cbn [fmap list_fmap concat]. unfold quoted_arg at 1. cbn [app sh_words]. rewrite bool_decide_true by done.
  rewrite (bool_decide_false (quote = space)), (bool_decide_true (quote = quote)) by done. change (default [] None) with (@nil byte).
  rewrite <- app_assoc. cbn [app]. rewrite sh_words_quoted. cbn [app]. by rewrite IH.
Qed.

(** A command makes exactly its directories. *)
Lemma sh_words_mkdir ds : sh_words false None (mkdir_cmd ds) = Some (str "mkdir" :: ds).
Proof. unfold mkdir_cmd. apply (sh_words_args ds (str "mkdir")). Qed.

Section mkdir.
Context `{HF : !Files} (features : sync_features).
Implicit Type c : sync_conn.

(** [c'] is [c] after [cmds] were sent to a shell. *)
Definition commanded c c' (cmds : list bytes) : Prop := c' = c <| errors ::= λ l, l ++ (ShellCommand <$> cmds) |>.

Lemma commanded_trans c1 c2 c3 l1 l2 : commanded c1 c2 l1 → commanded c2 c3 l2 → commanded c1 c3 (l1 ++ l2).
Proof.
  intros -> ->. unfold commanded. rewrite fmap_app.
  change (c1 <| errors := (errors c1 ++ (ShellCommand <$> l1)) ++ (ShellCommand <$> l2) |> =
    c1 <| errors := errors c1 ++ (ShellCommand <$> l1) ++ (ShellCommand <$> l2) |>).
  by rewrite app_assoc.
Qed.

Lemma commanded_nil c : commanded c c [].
Proof. unfold commanded. change (c = c <| errors := errors c ++ [] |>). rewrite app_nil_r. by destruct c. Qed.

Definition short (d : bytes) : Prop := zlen (quoted_arg d) ≤ 16384.

(** A command the device gets, and the directories it makes *)
Definition makes (cmd : bytes) (ds : list bytes) : Prop :=
  sh_words false None cmd = Some (str "mkdir" :: ds) ∧ ds ≠ [] ∧ zlen cmd ≤ 32769.

Lemma mkdir_cmd_snoc ds d : mkdir_cmd (ds ++ [d]) = mkdir_cmd ds ++ str " " ++ quoted_arg d.
Proof. unfold mkdir_cmd. rewrite fmap_app, concat_app. cbn [fmap list_fmap concat]. by rewrite app_nil_r, app_assoc. Qed.

Lemma wp_mkdir_loop dirs : ∀ ds c Q,
  Forall short dirs → zlen (mkdir_cmd ds) ≤ 32769 →
  (∀ last cmds groups c', Forall2 makes cmds groups → concat groups ++ last = ds ++ dirs → (last = [] → ds = [] ∧ dirs = []) →
     zlen (mkdir_cmd last) ≤ 32769 → commanded c c' cmds → Q (Some (mkdir_cmd last)) c') →
  wp (mkdir_loop dirs (mkdir_cmd ds)) Q c.
Proof.
  induction dirs as [|d dirs IH]; intros ds c Q Hs Hl HQ; cbn [mkdir_loop]; st_go.
  { apply (HQ ds [] []); [constructor|by rewrite app_nil_r|done|done|apply commanded_nil]. }
  apply Forall_cons in Hs as [Hd Hs]. eapply wp_lift; [apply escape_arg_spec|]. cbv beta. fold (quoted_arg d). unfold short in Hd.
  rewrite (proj2 (Z.ltb_ge _ _)) by lia. assert (zlen (quoted_arg d) + 5 ≤ 32768) as Hd' by lia.
  assert (∀ x, zlen (x ++ str " " ++ quoted_arg d) = zlen x + 1 + zlen (quoted_arg d)) as Hlen.
  { intros x. rewrite !length_app. cbn [length str]. change (length (str " ")) with 1%nat. lia. }
  destruct (Z.ltb_spec 32768 (zlen (mkdir_cmd ds) + zlen (quoted_arg d))) as [Hbig|Hfit].
  - unfold send_shell_command, Error. st_go. change (str "mkdir") with (mkdir_cmd []). rewrite <- (mkdir_cmd_snoc [] d). cbn [app].
    eapply IH; [done|change (mkdir_cmd [d]) with (mkdir_cmd ([] ++ [d])); rewrite mkdir_cmd_snoc, Hlen; change (zlen (mkdir_cmd [])) with 5; lia|].
    intros last cmds groups c' Hm Hc Hlast Hll Hcmd. apply (HQ last (mkdir_cmd ds :: cmds) (ds :: groups)).
    + constructor; [|done]. split_and!; [apply sh_words_mkdir| |lia]. intros ->. change (zlen (mkdir_cmd [])) with 5 in Hbig. lia.
    + cbn. rewrite <- app_assoc, Hc. done.
    + intros Hnil. by destruct (Hlast Hnil).
    + done.
    + eapply (commanded_trans c _ c' [mkdir_cmd ds] cmds); [|exact Hcmd]. done.
  - st_go. rewrite <- mkdir_cmd_snoc. eapply IH; [done|rewrite mkdir_cmd_snoc, Hlen; lia|].
    intros last cmds groups c' Hm Hc Hlast Hll Hcmd. apply (HQ last cmds groups); [done| |intros Hnil; by destruct (Hlast Hnil) as [? ?]; destruct ds|done..].
    rewrite Hc, <- app_assoc. done.
Qed.

(** The workaround for devices that do not make directories: the commands
    that are sent to the shell of the device are, as the shell reads them, [mkdir] with
    some directories, no command is longer than the limit, and together they
    make all the directories of the list, in its order, whatever characters are in
    their names. *)
Theorem mkdir_remote_correct dirs c :
  have_fixed_push_mkdir features = false → have_shell_v2 features = true → Forall short dirs →
  ∃ c' cmds groups, mkdir_remote features dirs c = Ret (true, c') ∧ commanded c c' cmds ∧ Forall2 makes cmds groups ∧ concat groups = dirs.
Proof.
  intros H1 H2 Hs. destruct (proj1 (wp_run (mkdir_remote features dirs) (λ ok c', ok = true ∧ ∃ cmds groups, commanded c c' cmds ∧
    Forall2 makes cmds groups ∧ concat groups = dirs) c)) as (ok & c' & E & -> & cmds & groups & H); [|by exists c', cmds, groups].
  unfold mkdir_remote. rewrite H1, H2. cbn [negb andb]. st_go. change (str "mkdir") with (mkdir_cmd []).
  apply wp_mkdir_loop; [done..|]. intros last cmds groups c1 Hm Hc Hlast Hl Hcmd. cbv beta iota. rewrite app_nil_l in Hc. st_go.
  destruct last as [|d last].
  - rewrite bool_decide_true by done. st_go. split; [done|]. exists cmds, groups. rewrite app_nil_r in Hc. done.
  - rewrite bool_decide_false. 2: { intros E. apply (f_equal length) in E. revert E. unfold mkdir_cmd. cbn [fmap list_fmap concat app]. rewrite length_app. cbn. lia. }
    unfold send_shell_command, Error. st_go. split; [done|]. exists (cmds ++ [mkdir_cmd (d :: last)]), (groups ++ [d :: last]). split_and!.
    + by eapply commanded_trans.
    + apply Forall2_app; [done|]. constructor; [|constructor]. split_and!; [apply sh_words_mkdir|done|done].
    + rewrite concat_app. cbn [concat]. by rewrite app_nil_r.
Qed.
End mkdir.

Lemma mkdir_remote_correct_witness :
  ∃ c' cmds groups, @mkdir_remote memory_files (Features true true true true true true true false true)
      [str "/a b"; str "/it's"] listing_client = Ret (true, c') ∧
    Forall2 makes cmds groups ∧ concat groups = [str "/a b"; str "/it's"].
Proof.
  destruct (@mkdir_remote_correct memory_files (Features true true true true true true true false true) [str "/a b"; str "/it's"]
    listing_client eq_refl eq_refl) as (c' & cmds & groups & E & _ & H1 & H2).
  - repeat constructor; by vm_compute.
  - by exists c', cmds, groups.
Defined.

(** ** A local file that cannot be created *)

Section desync.
Context (junk : nat → byte) `{HF : !Files, HC : !Codecs, HH : !HostErrno, HE : !ClientErrno} (features : sync_features) (turns : nat) (umask : Z).
Context (Hv2 : have_stat_v2_ features = true).
Implicit Type c : sync_conn.

(** The client can write, and has [d] still to read. *)
Definition faces c (d : bytes) : Prop := accepts (c_out c) ∧ blocking (c_in c) ∧ stream_data (c_in c) = d.

Lemma wp_source_stat path st c rest Q :
  zlen path ≤ 1024 → stat_ok st → faces c (stat_v2_bytes ID_STAT_V2 0 st ++ rest) →
  (∀ c', faces c' rest → local c' = local c → Q (inr st) c') → wp (sync_stat_fallback features path) Q c.
Proof.
  intros Hl Hst (Ha & Hb & Hd) HQ. unfold sync_stat_fallback, sync_stat, SendStat. rewrite Hv2. cbn [negb]. st_go.
  apply wp_send_request; [done..|]. intros c1 H1. cbv beta iota. unfold FinishStat. rewrite Hv2. st_go.
  eapply (wp_asked_read c c1 _ (stat_v2_bytes ID_STAT_V2 0 st) rest); [rewrite <- Hd; by apply advances_asked|done|done|].
  intros c2 [[A2 _] [B2 D2] [L2 _] _ _]. cbv beta iota. cbn [negb].
  destruct (stat_v2_fields ID_STAT_V2 0 st []) as (F0 & F4 & Fs & _). rewrite app_nil_r in F0, F4, Fs. rewrite F0, F4, Fs by done.
  cbn [andb negb]. change (u32 0 =? 0) with true. change (u32 ID_STAT_V2 =? ID_LSTAT_V2) with false. change (u32 ID_STAT_V2 =? ID_STAT_V2) with true.
  cbn [andb negb]. st_go. by apply HQ.
Qed.

Lemma wp_recv_not_created rp lp any e g c d Q :
  zlen rp ≤ 1024 → (∃ fl dec, compression_flag (ResolveCompressionType features any) = Ret fl ∧ decoder_of (ResolveCompressionType features any) = Ret dec) →
  path_create O_TRUNCATE lp 0x1a4 (path_unlink lp (local c)) = (inl e, g) → faces c d →
  (∀ c', faces c' d → local c' = g → Q false c') → wp (sync_recv junk features turns rp lp any) Q c.
Proof.
  intros Hl (fl & dec & Hfl & Hdec) Hc (Ha & Hb & Hd) HQ.
  assert (∀ (receive : ST sync_conn bool) req c1, advances c c1 req → wp (receive_file lp receive) Q c1) as Hgo.
  { intros receive req c1 [[A1 _] [I1 _] [L1 _] _ _]. unfold receive_file, unlink_local. st_go. unfold wp at 1, on_local. st_go.
    unfold wp at 1, create_local. change (local (c1 <| local := ?x |>)) with x. rewrite L1, Hc. cbn [negb]. st_go. unfold Error. st_go.
    apply HQ; [|done]. unfold faces. change (accepts (c_out c1) ∧ blocking (c_in c1) ∧ stream_data (c_in c1) = d). by rewrite I1. }
  unfold sync_recv. destruct (have_sendrecv_v2_ features).
  - unfold sync_recv_v2, SendRecv2. rewrite (proj2 (Z.ltb_ge _ _)) by lia. st_go. eapply wp_lift; [exact Hfl|]. cbv beta.
    apply wp_conn_write; [done|]. intros c1 H1. cbn [negb]. st_go. eapply wp_lift; [exact Hdec|]. cbv beta. by eapply Hgo.
  - unfold sync_recv_v1. st_go. apply wp_send_request; [done..|]. intros c1 H1. cbv beta iota. st_go. by eapply Hgo.
Qed.

(** Data of a file where the answer to the next request is expected *)
Lemma next_stat_aborts path n rest c :
  zlen path ≤ 1024 → faces c (sync_header ID_DATA n ++ rest) → sync_stat_fallback features path c = Abort.
Proof.
  intros Hl (Ha & Hb & Hd). unfold sync_stat_fallback. apply bind_abort. unfold sync_stat, SendStat. rewrite Hv2. cbn [negb].
  destruct (proj1 (wp_run (SendRequest ID_STAT_V2 path) (λ r c', r = None ∧ c_in c' = c_in c) c)) as (r & c1 & E & -> & I1).
  { apply wp_send_request; [done..|]. intros c' Hc. split; [done|apply Hc]. }
  rewrite (bind_then _ _ _ _ _ E). unfold FinishStat. rewrite Hv2.
  destruct (read_exactly_spec (c_in c1) sizeof_stat_v2) as (i & Er & _); [done|].
  erewrite bind_then; [|unfold conn_read; rewrite Er; reflexivity]. cbv beta iota.
  destruct (Z.leb_spec sizeof_stat_v2 (zlen (stream_data (c_in c1)))); [|done]. cbn [negb].
  assert (∃ more, ztake sizeof_stat_v2 (stream_data (c_in c1)) = le32 ID_DATA ++ more) as [more ->].
  { exists (le32 n ++ take 64 rest). by rewrite I1, Hd. }
  by rewrite u32_at_word.
Qed.

(** Pulling several files when one of them cannot be created (in a directory that
    may not be written to, say): [sync_recv] gives up without reading the file the
    device is sending, the next file is asked for all the same, and the data of the
    first file is taken for the answer, which ends the client. *)
Theorem pull_not_created_desync src1 src2 dst copy_attrs any st n rest e g c success :
  zlen src1 ≤ 1024 → zlen src2 ≤ 1024 → stat_ok st → should_pull_file (st_mode st) = true → S_ISDIR (st_mode st) = false →
  (∃ fl dec, compression_flag (ResolveCompressionType features any) = Ret fl ∧ decoder_of (ResolveCompressionType features any) = Ret dec) →
  path_create O_TRUNCATE (dst ++ [slash] ++ Basename src1) 0x1a4 (path_unlink (dst ++ [slash] ++ Basename src1) (local c)) = (inl e, g) →
  faces c (stat_v2_bytes ID_STAT_V2 0 st ++ sync_header ID_DATA n ++ rest) →
  pull_sources junk features turns umask [src1; src2] dst true true copy_attrs any success c = Abort.
Proof.
  intros Hl1 Hl2 Hst Hpull Hdir Hcod Hc Hf. cbn [pull_sources].
  destruct (proj1 (wp_run (pull_source junk features turns umask src1 dst true true copy_attrs any)
    (λ r c', r = Some false ∧ faces c' (sync_header ID_DATA n ++ rest)) c)) as (r & c1 & E & -> & H1).
  - unfold pull_source. st_go. eapply wp_source_stat; [done|exact Hst|exact Hf|]. intros c1 H1 L1. cbv beta iota. rewrite Hdir, Hpull. cbn [negb].
    unfold NewTransfer, SetExpectedTotalBytes. st_go. eapply wp_recv_not_created; [done|done| |exact H1|]; [cbn; by rewrite L1|].
    intros c2 H2 _. cbn [negb]. st_go. done.
  - rewrite (bind_then _ _ _ _ _ E). cbv beta iota. apply bind_abort. unfold pull_source. apply bind_abort. by eapply next_stat_aborts.
Qed.
End desync.

(** Files in memory, of which none can be created *)
Definition readonly_files : Files := {|
  fs := tree; file := bytes; path_stat := node_stat; path_lstat := node_stat; path_readlink := @path_readlink memory_files;
  path_realpath := @path_realpath memory_files; path_readdir := @path_readdir memory_files; path_open := @path_open memory_files;
  path_create _ _ _ g := (inl 13, g); file_close := @file_close memory_files; file_chown := @file_chown memory_files;
  file_chmod := @file_chmod memory_files; path_unlink _ g := g; path_mkdir _ _ g := (Some 13, g); path_chown _ _ _ g := (Some 13, g);
  path_chmod _ _ g := (false, g); path_symlink _ _ g := (Some 13, g); path_utime _ _ g := (false, g); path_lutimes _ _ g := g;
  path_setxattr _ _ g := (Some 13, g); path_removexattr _ g := g; path_restorecon _ g := g
|}.

Definition unlucky_client : @sync_conn readonly_files :=
  @Conn readonly_files (one_by_one (stat_v2_bytes ID_STAT_V2 0 (regular 0x1a4 2 7) ++ sync_header ID_DATA 2 ++ str "hi"))
    (Out [] []) [(str "out", sample_dir)] None [] [] [] ledger_zero ledger_zero [].

Lemma pull_not_created_desync_witness :
  @pull_sources no_junk readonly_files (copying_codecs no_junk) linux_errno sample_errno all_features 100 18
    [str "/sdcard/a"; str "/sdcard/b"] (str "out") true true false CompressNone true unlucky_client = Abort.
Proof.
  destruct (one_by_one_data (stat_v2_bytes ID_STAT_V2 0 (regular 0x1a4 2 7) ++ sync_header ID_DATA 2 ++ str "hi")) as [Hd Hb].
  apply (@pull_not_created_desync no_junk readonly_files (copying_codecs no_junk) linux_errno sample_errno all_features 100 18 eq_refl
    (str "/sdcard/a") (str "/sdcard/b") (str "out") false CompressNone (regular 0x1a4 2 7) 2 (str "hi") 13 [(str "out", sample_dir)] unlucky_client true).
  - by vm_compute.
  - by vm_compute.
  - vm_compute. repeat split; intros [=].
  - reflexivity.
  - reflexivity.
  - by eexists _, _.
  - reflexivity.
  - split_and!; [|exact Hb|exact Hd]. intros e He. by apply elem_of_nil in He.
Defined.
