(* ===== verification/Fdevent.v ===== *)
(** * The event loop: [adb/fdevent/fdevent.cpp], [fdevent_epoll.cpp]

    The server's main thread waits for its descriptors with [epoll], invokes the
    callback of one that is ready, and runs the functions other threads have queued for
    it.  A step of the model is what a thread does between two points where
    another one may come in between: the looper waits, invokes a callback, or takes
    one function off the queue; another thread adds a function to the queue, and
    later writes to the [eventfd] that interrupts the wait.

    The kernel's part is what its manual says: the table of registrations, which
    of them a wait may report, the counter of the [eventfd].  What a callback does
    is a list of operations, given with the step; times are in nanoseconds. *)

From stdpp Require Import gmap.
From S2P Require Import Prelude State.
Local Open Scope Z_scope.
Local Open Scope record_scope.

Module FD.

Definition FDE_READ : Z := 1.
Definition FDE_WRITE : Z := 2.
Definition FDE_ERROR : Z := 4.
Definition FDE_TIMEOUT : Z := 8.

Definition EPOLLIN : Z := 1.
Definition EPOLLOUT : Z := 4.
Definition EPOLLERR : Z := 8.
Definition EPOLLHUP : Z := 16.
Definition EPOLLRDHUP : Z := 0x2000.

(** [events & flag], as a condition *)
Definition has (events flag : Z) : bool := negb (Z.land events flag =? 0).

Definition u16 (z : Z) : Z := z mod 2 ^ 16.
(** [events & ~flags], 32 bits wide *)
Definition without (events flags : Z) : Z := Z.land (u32 events) (u32 (Z.lnot flags)).

Inductive callback := fdevent_interrupt | user_callback (n : nat).

Record fdevent := Fdevent {
  id : Z;
  fd : Z;
  state : Z;
  timeout : option Z;                       (* milliseconds *)
  last_active : Z;
  func : callback
}.
#[global] Instance eta_fde : Eta fdevent :=
  rd_pure Fdevent <%> id <%> fd <%> state <%> timeout <%> last_active <%> func.
#[global] Instance upd_fde_state : Update state. Proof. mk_update. Defined.
#[global] Instance upd_fde_timeout : Update timeout. Proof. mk_update. Defined.
#[global] Instance upd_fde_last_active : Update last_active. Proof. mk_update. Defined.

Definition ms : Z := 1000000.

(** Where the looper is: not started, at the head of the loop, in [epoll_wait],
    before the next function of the queue, gone. *)
Inductive place := Before | Top | Waiting | Flushing | Exited.

(** What the looper has done. *)
Inductive action := Invoked (id events : Z) | Ran (fn : nat).

Record loop := Loop_ {
  installed_fdevents_ : list (Z * nat);     (* the descriptors, ascending, with the addresses of the nodes *)
  nodes : gmap nat fdevent;
  fdevent_set_ : gset nat;
  fdevent_id_ : Z;
  run_queue_ : list nat;
  looper_thread_id_ : option Z;
  terminate_loop_ : bool;
  registered : gmap Z (Z * nat);            (* of the kernel: events and [data.ptr] *)
  eventfd : Z;
  at_ : place;
  epoll_events_size : Z;                    (* of [epoll_events] and [fde_events] *)
  fde_events_capacity : Z;
  interrupting : nat;                       (* threads about to call [Interrupt] *)
  queued : list nat;                        (* all the functions that were ever queued *)
  done_ : list action
}.

#[global] Instance eta_loop : Eta loop :=
  rd_pure Loop_ <%> installed_fdevents_ <%> nodes <%> fdevent_set_ <%> fdevent_id_ <%> run_queue_
    <%> looper_thread_id_ <%> terminate_loop_ <%> registered <%> eventfd <%> at_ <%> epoll_events_size
    <%> fde_events_capacity <%> interrupting <%> queued <%> done_.
#[global] Instance upd_installed : Update installed_fdevents_. Proof. mk_update. Defined.
#[global] Instance upd_nodes : Update nodes. Proof. mk_update. Defined.
#[global] Instance upd_set : Update fdevent_set_. Proof. mk_update. Defined.
#[global] Instance upd_id : Update fdevent_id_. Proof. mk_update. Defined.
#[global] Instance upd_queue : Update run_queue_. Proof. mk_update. Defined.
#[global] Instance upd_looper : Update looper_thread_id_. Proof. mk_update. Defined.
#[global] Instance upd_terminate : Update terminate_loop_. Proof. mk_update. Defined.
#[global] Instance upd_registered : Update registered. Proof. mk_update. Defined.
#[global] Instance upd_eventfd : Update eventfd. Proof. mk_update. Defined.
#[global] Instance upd_at : Update at_. Proof. mk_update. Defined.
#[global] Instance upd_epoll_size : Update epoll_events_size. Proof. mk_update. Defined.
#[global] Instance upd_capacity : Update fde_events_capacity. Proof. mk_update. Defined.
#[global] Instance upd_interrupting : Update interrupting. Proof. mk_update. Defined.
#[global] Instance upd_queued : Update queued. Proof. mk_update. Defined.
#[global] Instance upd_done : Update done_. Proof. mk_update. Defined.

(** Whether the kernel can wait for a descriptor; not so for a file, say. *)
Class Pollable := pollable : Z → bool.

Section loop.
Context `{!Pollable}.
Local Abbreviation F := (ST loop).

(** ** The map of descriptors *)

Fixpoint find_fd (m : list (Z * nat)) (k : Z) : option nat :=
  match m with
  | [] => None
  | (k', p) :: m => if k' =? k then Some p else find_fd m k
  end.
Fixpoint emplace (m : list (Z * nat)) (k : Z) (p : nat) : list (Z * nat) :=
  match m with
  | [] => [(k, p)]
  | (k', p') :: m' => if k <? k' then (k, p) :: m else (k', p') :: emplace m' k p
  end.
Fixpoint erase (m : list (Z * nat)) (k : Z) : list (Z * nat) :=
  match m with
  | [] => []
  | (k', p) :: m => if k' =? k then m else (k', p) :: erase m k
  end.

Definition fde_of (p : nat) : F fdevent := s ← get nodes; lift (deref (s !! p)).
Definition change (p : nat) (f : fdevent → fdevent) : F unit :=
  e ← fde_of p; modify (λ l, l <| nodes ::= <[p := f e]> |>).

Definition CheckLooperThread (self : Z) : F unit :=
  t ← get looper_thread_id_;
  match t with Some t => lift (check (t =? self)) | None => mret tt end.

(** ** Registration with [epoll] *)

Definition calculate_epoll_event (e : fdevent) : Z :=
  let events := 0 in
  let events := if has (state e) FDE_READ then Z.lor events EPOLLIN else events in
  let events := if has (state e) FDE_WRITE then Z.lor events EPOLLOUT else events in
  let events := if has (state e) FDE_ERROR then Z.lor events EPOLLERR else events in
  Z.lor events EPOLLRDHUP.

Definition Register (p : nat) : F unit :=
  e ← fde_of p; r ← get registered;
  match r !! fd e with
  | Some _ => lift Abort
  | None =>
      _ ← lift (check (pollable (fd e)));
      modify (λ l, l <| registered ::= <[fd e := (calculate_epoll_event e, p)]> |>)
  end.

Definition Unregister (p : nat) : F unit :=
  e ← fde_of p; r ← get registered;
  match r !! fd e with
  | None => lift Abort
  | Some _ => modify (λ l, l <| registered ::= delete (fd e) |>)
  end.

Definition Set_ (p : nat) (events : Z) : F unit :=
  e ← fde_of p;
  let previous_state := state e in
  _ ← change p (λ e, e <| state := u16 events |>);
  if without previous_state FDE_TIMEOUT =? without events FDE_TIMEOUT then mret tt
  else
    e ← fde_of p; r ← get registered;
    match r !! fd e with
    | None => lift Abort
    | Some _ => modify (λ l, l <| registered ::= <[fd e := (calculate_epoll_event e, p)]> |>)
    end.

Definition Add (p : nat) (events : Z) : F unit :=
  _ ← lift (check (negb (has events FDE_TIMEOUT)));
  e ← fde_of p; Set_ p (Z.lor (state e) events).

Definition Del (p : nat) (events : Z) : F unit :=
  _ ← lift (check (negb (has events FDE_TIMEOUT)));
  e ← fde_of p; Set_ p (without (state e) events).

(** ** Creation and destruction

    [p] is the address the allocator gives to the node of the map: one that is not
    in use. *)
Definition Create (self : Z) (p : nat) (fd : Z) (func : callback) : F unit :=
  _ ← CheckLooperThread self;
  _ ← lift (check (0 <=? fd));
  m ← get installed_fdevents_;
  match find_fd m fd with
  | Some _ => lift Abort
  | None =>
      _ ← modify (λ l, l <| installed_fdevents_ ::= λ m, emplace m fd p |>
                         <| nodes ::= <[p := Fdevent (fdevent_id_ l) fd 0 None 0 func]> |>
                         <| fdevent_id_ ::= λ i, u64 (i + 1) |>
                         <| fdevent_set_ ::= λ s, {[p]} ∪ s |>);
      Register p
  end.

Definition Destroy (self : Z) (p : option nat) : F (option Z) :=
  _ ← CheckLooperThread self;
  match p with
  | None => mret None
  | Some p =>
      _ ← Unregister p;
      e ← fde_of p;
      m ← get installed_fdevents_;
      match find_fd m (fd e) with
      | None => lift Abort
      | Some q =>
          _ ← modify (λ l, l <| installed_fdevents_ ::= λ m, erase m (fd e) |> <| nodes ::= delete q |>);
          s ← get fdevent_set_;
          _ ← lift (check (bool_decide (p ∈ s)));
          _ ← modify (λ l, l <| fdevent_set_ ::= λ s, s ∖ {[p]} |>);
          mret (Some (fd e))
      end
  end.

(** [now] is what the clock says. *)
Definition SetTimeout (self : Z) (p : nat) (t : option Z) (now : Z) : F unit :=
  _ ← CheckLooperThread self;
  change p (λ e, e <| timeout := t |> <| last_active := now |>).

(** ** The queue of functions *)

(** One is added to the counter of the [eventfd], which is not blocking. *)
Definition Interrupt : F unit :=
  n ← get eventfd;
  if n + 1 <? 2 ^ 64 - 1 then modify (λ l, l <| eventfd := n + 1 |>) else lift Abort.

Definition push_back (fn : nat) : F unit :=
  modify (λ l, l <| run_queue_ ::= λ q, q ++ [fn] |> <| queued ::= λ q, q ++ [fn] |>).

Definition Run (fn : nat) : F unit := _ ← push_back fn; Interrupt.

Definition TerminateLoop : F unit := _ ← modify (λ l, l <| terminate_loop_ := true |>); Interrupt.

(** ** What a callback may do *)

Inductive op :=
| OpCreate (p : nat) (fd : Z) (n : nat)
| OpDestroy (p : nat)
| OpSet (p : nat) (events : Z)
| OpAdd (p : nat) (events : Z)
| OpDel (p : nat) (events : Z)
| OpSetTimeout (p : nat) (t : option Z) (now : Z)
| OpRun (fn : nat)
| OpTerminate.

(** The allocator does not give an address that is in use: a list of operations in which it
    does is none that happens. *)
Definition exec (self : Z) (o : op) : F unit :=
  match o with
  | OpCreate p fd n =>
      s ← get nodes;
      if bool_decide (is_Some (s !! p)) then lift UB else Create self p fd (user_callback n)
  | OpDestroy p => _ ← Destroy self (Some p); mret tt
  | OpSet p events => Set_ p events
  | OpAdd p events => Add p events
  | OpDel p events => Del p events
  | OpSetTimeout p t now => SetTimeout self p t now
  | OpRun fn => Run fn
  | OpTerminate => TerminateLoop
  end.

Fixpoint exec_all (self : Z) (os : list op) : F unit :=
  match os with
  | [] => mret tt
  | o :: os => _ ← exec self o; exec_all self os
  end.

(** ** A turn of the loop *)

(** [duration_cast] rounds towards zero. *)
Definition time_left (now : Z) (e : fdevent) : option Z :=
  match timeout e with
  | None => None
  | Some t => Some (Z.max 0 (Z.quot (last_active e + t * ms - now) ms))
  end.

Fixpoint poll_duration (now : Z) (m : list (Z * nat)) (result : option Z) : F (option Z) :=
  match m with
  | [] => mret result
  | (_, p) :: m =>
      e ← fde_of p;
      poll_duration now m
        (match time_left now e, result with
         | None, _ => result
         | Some t, None => Some t
         | Some t, Some r => Some (Z.min r t)
         end)
  end.

Definition CalculatePollDuration (self now : Z) : F (option Z) :=
  _ ← CheckLooperThread self; m ← get installed_fdevents_; poll_duration now m None.

(** [std::vector<fdevent_event> fde_events]: when it grows beyond its capacity its
    elements move, and pointers to them, which carry the number of the
    allocation, are dangling. *)
Record vec := Vec { items : list (nat * Z); capacity : Z; moved : nat }.
Definition emplace_back (x : nat * Z) (v : vec) : vec :=
  if zlen (items v) <? capacity v then Vec (items v ++ [x]) (capacity v) (moved v)
  else Vec (items v ++ [x]) (Z.max (2 * capacity v) (zlen (items v) + 1)) (S (moved v)).

Abbreviation event_map := (gmap nat (nat * nat)).
Definition events_at (v : vec) (r : nat * nat) : outcome Z :=
  if (fst r =? moved v)%nat then e ← deref (items v !! snd r); Ret (snd e) else UB.

(** The events of a report; an error counts as something to read. *)
Definition polled_events (mask : Z) : Z :=
  let events := 0 in
  let events := if has mask EPOLLIN then Z.lor events FDE_READ else events in
  let events := if has mask EPOLLOUT then Z.lor events FDE_WRITE else events in
  if has mask (Z.lor (Z.lor EPOLLERR EPOLLHUP) EPOLLRDHUP) then Z.lor events (Z.lor FDE_READ FDE_ERROR) else events.

Fixpoint collect (reported : list (nat * Z)) (post_poll : Z) (v : vec) (em : event_map) : F (vec * event_map) :=
  match reported with
  | [] => mret (v, em)
  | (p, mask) :: reported =>
      e ← fde_of p;
      _ ← lift (check (negb (has mask EPOLLIN) || has (state e) FDE_READ));
      _ ← lift (check (negb (has mask EPOLLOUT) || has (state e) FDE_WRITE));
      let v := emplace_back (p, polled_events mask) v in
      _ ← change p (λ e, e <| last_active := post_poll |>);
      collect reported post_poll v (<[p := (moved v, (length (items v) - 1)%nat)]> em)
  end.

Definition timed_out (post_poll : Z) (e : fdevent) : bool :=
  match timeout e with Some t => last_active e + t * ms <? post_poll | None => false end.

Fixpoint expire (m : list (Z * nat)) (post_poll : Z) (v : vec) (em : event_map) : F vec :=
  match m with
  | [] => mret v
  | (_, p) :: m =>
      events ← lift (match em !! p with None => Ret 0 | Some r => events_at v r end);
      e ← fde_of p;
      v ← (if (events =? 0) && timed_out post_poll e then
             _ ← change p (λ e, e <| last_active := post_poll |>);
             mret (emplace_back (p, FDE_TIMEOUT) v)
           else mret v);
      expire m post_poll v em
  end.

(** The event [HandleEvents] invokes: the first one whose [fdevent] still exists. *)
Fixpoint first_installed (events : list (nat * Z)) (s : gset nat) : option (nat * Z) :=
  match events with
  | [] => None
  | (p, ev) :: events => if bool_decide (p ∈ s) then Some (p, ev) else first_installed events s
  end.

(** Reading the [eventfd], which is not blocking, fails when it is zero. *)
Definition interrupt_callback : F unit :=
  n ← get eventfd; if n =? 0 then lift Abort else modify (λ l, l <| eventfd := 0 |>).

(** What is known of a wait: an attempt that a signal interrupted, or what it
    reports and the time after it. *)
Inductive wait := Interrupted (now : Z) | Reported (now : Z) (events : list (nat * Z)) (post_poll : Z).

(** From the return of [epoll_wait] to the callback that is invoked, if any. *)
Definition gather (reported : list (nat * Z)) (post_poll : Z) : F (option (nat * Z)) :=
  m ← get installed_fdevents_;
  cap ← get fde_events_capacity;
  '(v, em) ← collect reported post_poll (Vec [] (Z.max cap (zlen m)) 0) ∅;
  v ← expire m post_poll v em;
  _ ← modify (λ l, l <| fde_events_capacity := capacity v |>);
  s ← get fdevent_set_;
  mret (first_installed (items v) s).

(** The callback executes [ops], if it is one of the program's. *)
Definition invoke_fde (self : Z) (p : nat) (events : Z) (ops : list op) : F unit :=
  e ← fde_of p;
  _ ← modify (λ l, l <| done_ ::= λ d, d ++ [Invoked (id e) events] |>);
  match func e with
  | fdevent_interrupt => interrupt_callback
  | user_callback _ => exec_all self ops
  end.

(** ** The steps of all threads *)

Inductive event :=
| EOps (self : Z) (ops : list op)           (* before the loop is started *)
| EStart (self : Z)
| ETop                                      (* the head of the loop *)
| EWait (w : wait) (ops : list op)
| EFlush (ops : list op)                    (* the next function of the queue *)
| EPush (fn : nat)                          (* [Run] in another thread, its two parts *)
| ETerminate                                (* [TerminateLoop] likewise *)
| EInterrupt.

Definition goto (a : place) : F unit := modify (λ l, l <| at_ := a |>).

Definition place_eqb (a b : place) : bool :=
  match a, b with
  | Before, Before | Top, Top | Waiting, Waiting | Flushing, Flushing | Exited, Exited => true
  | _, _ => false
  end.

(** Whether a step can be taken where the looper is. *)
Definition enabled (e : event) (l : loop) : bool :=
  match e with
  | EOps _ _ | EStart _ => place_eqb (at_ l) Before
  | ETop => place_eqb (at_ l) Top
  | EWait _ _ => place_eqb (at_ l) Waiting
  | EFlush _ => place_eqb (at_ l) Flushing
  | EPush _ | ETerminate => true
  | EInterrupt => (0 <? interrupting l)%nat
  end.

Definition looper : F Z := t ← get looper_thread_id_; lift (deref t).

(** One turn of the loop of [FlushRunQueue]: the function taken off the queue executes [ops]. *)
Definition FlushRunQueue (ops : list op) : F unit :=
  q ← get run_queue_;
  match q with
  | [] => goto Top
  | fn :: q =>
      self ← looper;
      _ ← modify (λ l, l <| run_queue_ := q |> <| done_ ::= λ d, d ++ [Ran fn] |>);
      exec_all self ops
  end.

Definition step (e : event) : F unit :=
  match e with
  | EOps self ops => exec_all self ops
  | EStart self => _ ← modify (λ l, l <| looper_thread_id_ := Some self |>); goto Top
  | ETop =>
      stop ← get terminate_loop_;
      if (stop : bool) then _ ← modify (λ l, l <| looper_thread_id_ := None |>); goto Exited
      else
        _ ← modify (λ l, l <| epoll_events_size ::= λ n, Z.max n (zlen (installed_fdevents_ l)) |>);
        goto Waiting
  | EWait w ops =>
      self ← looper;
      match w with
      | Interrupted now => _ ← CalculatePollDuration self now; mret tt
      | Reported now reported post_poll =>
          _ ← CalculatePollDuration self now;
          first ← gather reported post_poll;
          _ ← (match first with Some (p, events) => invoke_fde self p events ops | None => mret tt end);
          goto Flushing
      end
  | EFlush ops => FlushRunQueue ops
  | EPush fn => _ ← push_back fn; modify (λ l, l <| interrupting ::= S |>)
  | ETerminate => modify (λ l, l <| terminate_loop_ := true |> <| interrupting ::= S |>)
  | EInterrupt => _ ← modify (λ l, l <| interrupting ::= Nat.pred |>); Interrupt
  end.

(** The constructor: the [eventfd] is registered like any descriptor. *)
Definition fdevent_context_epoll (self : Z) (p : nat) (fd : Z) : F unit :=
  _ ← Create self p fd fdevent_interrupt; Add p FDE_READ.

Definition empty_loop : loop :=
  Loop_ [] ∅ ∅ 0 [] None false ∅ 0 Before 0 0 0 [] [].

(** The destructor destroys [interrupt_fde_], which nothing ever sets. *)
Definition destroy_context (self : Z) : F unit := _ ← Destroy self None; mret tt.

Definition InstalledCount (l : loop) : Z := zlen (installed_fdevents_ l) - 1.
End loop.
End FD.
