(* ===== verification/FdeventFacts.v ===== *)
(** * Facts about the event loop

    The invariant of [Fdevent]: the map, the set and the kernel's table describe
    the same [fdevent]s, and the queue of functions is never forgotten.  The
    theorems at the end say what follows, whatever the kernel reports: a turn
    delivers the first event that is due, functions queued by other threads are run
    once, in order and without delay, and timeouts may starve. *)

From stdpp Require Import gmap sorting.
From S2P Require Import Prelude State Fdevent.
Import FD.
Local Open Scope Z_scope.
Local Open Scope record_scope.

(** ** Flags *)

Lemma has_bit x k : 0 ≤ k → has x (2 ^ k) = Z.testbit x k.
Proof.
  intros Hk. unfold has. destruct (Z.testbit x k) eqn:E.
  - destruct (Z.eqb_spec (Z.land x (2 ^ k)) 0) as [E'|]; [|done]. exfalso.
    assert (Z.testbit (Z.land x (2 ^ k)) k = true) as H by by rewrite Z.land_spec, E, Z.pow2_bits_true.
    by rewrite E', Z.bits_0 in H.
  - replace (Z.land x (2 ^ k)) with 0; [done|]. apply Z.bits_inj'. intros n Hn.
    rewrite Z.land_spec, Z.bits_0, Z.pow2_bits_eqb by done. destruct (Z.eqb_spec k n) as [->|]; [by rewrite E|by rewrite andb_false_r].
Qed.

Lemma has_read x : has x FDE_READ = Z.testbit x 0. Proof. by apply (has_bit x 0). Qed.
Lemma has_write x : has x FDE_WRITE = Z.testbit x 1. Proof. by apply (has_bit x 1). Qed.
Lemma has_error x : has x FDE_ERROR = Z.testbit x 2. Proof. by apply (has_bit x 2). Qed.
Lemma has_in x : has x EPOLLIN = Z.testbit x 0. Proof. by apply (has_bit x 0). Qed.
Lemma has_out x : has x EPOLLOUT = Z.testbit x 2. Proof. by apply (has_bit x 2). Qed.

Lemma testbit_u16 x k : 0 ≤ k < 16 → Z.testbit (u16 x) k = Z.testbit x k.
Proof. intros Hk. unfold u16. by rewrite Z.mod_pow2_bits_low by lia. Qed.

Lemma testbit_without x k : 0 ≤ k < 3 → Z.testbit (without x FDE_TIMEOUT) k = Z.testbit x k.
Proof.
  intros Hk. unfold without. rewrite Z.land_spec. unfold u32. rewrite !Z.mod_pow2_bits_low by lia.
  replace (Z.testbit (Z.lnot FDE_TIMEOUT) k) with true; [by rewrite andb_true_r|].
  assert (k = 0 ∨ k = 1 ∨ k = 2) as [-> | [-> | ->]] by lia; done.
Qed.

(** The mask [calculate_epoll_event] gives to the kernel. *)
Definition interest (r w e : bool) : Z :=
  Z.lor (Z.lor (Z.lor (if r then EPOLLIN else 0) (if w then EPOLLOUT else 0)) (if e then EPOLLERR else 0)) EPOLLRDHUP.

Lemma calculate_interest e :
  calculate_epoll_event e = interest (Z.testbit (state e) 0) (Z.testbit (state e) 1) (Z.testbit (state e) 2).
Proof.
  unfold calculate_epoll_event. rewrite has_read, has_write, has_error.
  by destruct (Z.testbit (state e) 0), (Z.testbit (state e) 1), (Z.testbit (state e) 2).
Qed.

(** What the kernel may report of a registration. *)
Definition may_report (m mask : Z) : Prop :=
  0 < mask ∧ Z.land mask (Z.lnot (Z.lor m (Z.lor EPOLLERR EPOLLHUP))) = 0.

Lemma may_report_bit m mask k :
  may_report m mask → 0 ≤ k → Z.testbit mask k = true → Z.testbit (Z.lor m (Z.lor EPOLLERR EPOLLHUP)) k = true.
Proof.
  intros [_ H] Hk Hb. apply (f_equal (λ z, Z.testbit z k)) in H.
  rewrite Z.land_spec, Z.lnot_spec, Z.bits_0, Hb in H by done. by destruct (Z.testbit (Z.lor m _) k).
Qed.

Lemma interest_bits r w e k :
  0 ≤ k → Z.testbit (Z.lor (interest r w e) (Z.lor EPOLLERR EPOLLHUP)) k = true →
  (k = 0 ∧ r = true) ∨ (k = 2 ∧ w = true) ∨ k = 3 ∨ k = 4 ∨ k = 13.
Proof.
  intros Hk H. destruct (decide (k < 14)) as [Hl|Hl].
  - assert (k ∈ [0;1;2;3;4;5;6;7;8;9;10;11;12;13]) as Hin.
    { rewrite !elem_of_cons, elem_of_nil. lia. }
    revert H. rewrite !elem_of_cons, elem_of_nil in Hin. destruct r, w, e;
      destruct_or? Hin; try done; subst k; vm_compute; intros H; (discriminate || tauto).
  - exfalso. revert H. rewrite Z.bits_above_log2; [done|destruct r, w, e; done|].
    assert (Z.log2 (Z.lor (interest r w e) (Z.lor EPOLLERR EPOLLHUP)) = 13) as -> by (by destruct r, w, e). lia.
Qed.

Lemma may_report_read e mask :
  may_report (calculate_epoll_event e) mask → negb (has mask EPOLLIN) || has (state e) FDE_READ = true.
Proof.
  intros H. rewrite has_in, has_read. destruct (Z.testbit mask 0) eqn:E; [|done]. cbn.
  apply (may_report_bit _ _ 0 H ltac:(lia)) in E. rewrite calculate_interest in E.
  apply interest_bits in E as [[_ ?]|[[? _]|?]]; [done|lia..].
Qed.

Lemma may_report_write e mask :
  may_report (calculate_epoll_event e) mask → negb (has mask EPOLLOUT) || has (state e) FDE_WRITE = true.
Proof.
  intros H. rewrite has_out, has_write. destruct (Z.testbit mask 2) eqn:E; [|done]. cbn.
  apply (may_report_bit _ _ 2 H ltac:(lia)) in E. rewrite calculate_interest in E.
  apply interest_bits in E as [[? _]|[[_ ?]|?]]; [lia|done|lia|lia].
Qed.

Lemma has_hangup mask : has mask (Z.lor (Z.lor EPOLLERR EPOLLHUP) EPOLLRDHUP) = false →
  Z.testbit mask 3 = false ∧ Z.testbit mask 4 = false ∧ Z.testbit mask 13 = false.
Proof.
  unfold has. destruct (Z.eqb_spec (Z.land mask (Z.lor (Z.lor EPOLLERR EPOLLHUP) EPOLLRDHUP)) 0) as [H|]; [|done]. intros _.
  assert (∀ k, Z.testbit (Z.lor (Z.lor EPOLLERR EPOLLHUP) EPOLLRDHUP) k = true → Z.testbit mask k = false) as Hk.
  { intros k Hb. apply (f_equal (λ z, Z.testbit z k)) in H. rewrite Z.land_spec, Z.bits_0, Hb, andb_true_r in H. done. }
  split_and!; by apply Hk.
Qed.

Lemma polled_events_nonzero e mask : may_report (calculate_epoll_event e) mask → polled_events mask ≠ 0.
Proof.
  intros H. unfold polled_events. destruct (has mask EPOLLIN) eqn:E1, (has mask EPOLLOUT) eqn:E2,
    (has mask (Z.lor (Z.lor EPOLLERR EPOLLHUP) EPOLLRDHUP)) eqn:E3; try done. exfalso.
  rewrite has_in in E1. rewrite has_out in E2. apply has_hangup in E3 as (E3 & E4 & E5).
  destruct H as [Hpos Hsub]. assert (mask = 0); [|lia]. apply Z.bits_inj'. intros k Hk. rewrite Z.bits_0.
  destruct (Z.testbit mask k) eqn:Ek; [|done].
  pose proof (may_report_bit _ _ k (conj Hpos Hsub) Hk Ek) as Hb. rewrite calculate_interest in Hb.
  apply interest_bits in Hb as [[-> _]|[[-> _]|[-> | [-> | ->]]]]; congruence.
Qed.

(** Interest that differs in [FDE_TIMEOUT] alone is the same to the kernel. *)
Lemma calculate_timeout_only e events :
  without (state e) FDE_TIMEOUT = without events FDE_TIMEOUT →
  calculate_epoll_event (e <| state := u16 events |>) = calculate_epoll_event e.
Proof.
  intros H. rewrite !calculate_interest. change (state (e <| state := u16 events |>)) with (u16 events).
  rewrite !testbit_u16 by lia.
  rewrite <- (testbit_without events 0), <- (testbit_without events 1), <- (testbit_without events 2), <- H by lia.
  by rewrite !testbit_without by lia.
Qed.

(** ** The map *)

Section map.
Implicit Types m : list (Z * nat).

Lemma find_emplace m k p k' : find_fd m k = None →
  find_fd (emplace m k p) k' = if k =? k' then Some p else find_fd m k'.
Proof.
  induction m as [|[k1 p1] m IH]; cbn [find_fd emplace]; [done|].
  destruct (Z.eqb_spec k1 k) as [->|Hne]; [done|]. intros H.
  destruct (Z.ltb_spec k k1); cbn [find_fd]; [done|]. rewrite IH by done.
  destruct (Z.eqb_spec k1 k'), (Z.eqb_spec k k'); congruence.
Qed.

Lemma find_Some m k p : find_fd m k = Some p → (k, p) ∈ m.
Proof.
  induction m as [|[k1 p1] m IH]; cbn; [done|]. rewrite elem_of_cons. destruct (Z.eqb_spec k1 k) as [->|]; [|tauto].
  intros [= ->]. by left.
Qed.

Lemma find_None m k : find_fd m k = None → k ∉ m.*1.
Proof.
  induction m as [|[k1 p1] m IH]; cbn; [set_solver|]. destruct (Z.eqb_spec k1 k); [done|]. intros H%IH. set_solver.
Qed.

Lemma elem_of_find m k p : NoDup m.*1 → (k, p) ∈ m → find_fd m k = Some p.
Proof.
  induction m as [|[k1 p1] m IH]; cbn; [by intros _ ?%elem_of_nil|]. intros [Hn Hd]%NoDup_cons [[= <- <-]|Hin]%elem_of_cons.
  - by rewrite Z.eqb_refl.
  - destruct (Z.eqb_spec k1 k) as [->|]; [|by apply IH]. exfalso. apply Hn. apply list_elem_of_fmap. by exists (k, p).
Qed.

Lemma emplace_perm m k p : emplace m k p ≡ₚ (k, p) :: m.
Proof.
  induction m as [|[k1 p1] m IH]; cbn; [done|]. destruct (k <? k1); [done|]. rewrite IH. apply Permutation_swap.
Qed.

Lemma erase_perm m k p : find_fd m k = Some p → m ≡ₚ (k, p) :: erase m k.
Proof.
  induction m as [|[k1 p1] m IH]; cbn; [done|]. destruct (Z.eqb_spec k1 k) as [->|]; [by intros [= ->]|].
  intros H%IH. by rewrite Permutation_swap, <- H.
Qed.

Lemma find_erase m k p k' : NoDup m.*1 → find_fd m k = Some p →
  find_fd (erase m k) k' = if k =? k' then None else find_fd m k'.
Proof.
  induction m as [|[k1 p1] m IH]; cbn [find_fd erase fmap list_fmap fst]; [done|]. intros [Hn Hd]%NoDup_cons.
  destruct (Z.eqb_spec k1 k) as [->|].
  - intros [= ->]. destruct (Z.eqb_spec k k') as [Ek|]; [|done].
    destruct (find_fd m k') eqn:E; [|done]. destruct Hn. rewrite <- Ek in E. apply find_Some in E. apply list_elem_of_fmap. by exists (k, n).
  - intros H. cbn [find_fd]. rewrite IH by done. destruct (Z.eqb_spec k1 k'), (Z.eqb_spec k k'); congruence.
Qed.

(** Ascending descriptors *)
Definition ascending m : Prop := StronglySorted Z.lt m.*1.

Lemma ascending_emplace m k p : ascending m → find_fd m k = None → ascending (emplace m k p).
Proof.
  unfold ascending. induction m as [|[k1 p1] m IH]; cbn [emplace find_fd fmap list_fmap fst]; [by repeat constructor|].
  intros Hs Hf. destruct (Z.eqb_spec k1 k) as [->|]; [done|]. pose proof Hs as [Hs1 Hall]%StronglySorted_inv.
  destruct (Z.ltb_spec k k1).
  - cbn. constructor; [done|]. constructor; [done|]. eapply Forall_impl; [exact Hall|]. cbn. lia.
  - cbn. constructor; [by apply IH|].
    assert ((emplace m k p).*1 ≡ₚ k :: m.*1) as -> by (by rewrite emplace_perm). constructor; [lia|done].
Qed.

Lemma ascending_erase m k : ascending m → ascending (erase m k).
Proof.
  unfold ascending. induction m as [|[k1 p1] m IH]; cbn; [done|]. intros [Hs Hall]%StronglySorted_inv.
  destruct (k1 =? k); [done|]. cbn. constructor; [by apply IH|].
  rewrite Forall_forall in Hall |- *. intros x Hx. apply Hall. clear -Hx.
  induction m as [|[k2 p2] m IH]; cbn in *; [done|]. destruct (k2 =? k); [by right|].
  cbn in Hx. apply elem_of_cons in Hx as [->|Hx]; [by left|]. right. by apply IH.
Qed.

Lemma ascending_NoDup m : ascending m → NoDup m.*1.
Proof.
  unfold ascending. induction m.*1 as [|k l IH]; [by constructor|]. intros [Hs Hall]%StronglySorted_inv.
  constructor; [|by apply IH]. intros Hin. rewrite Forall_forall in Hall. specialize (Hall _ Hin). lia.
Qed.
End map.

(** ** The tables *)

(** The map, the nodes, the set and the kernel's table are about the same
    [fdevent]s, and the kernel waits for what their states say. *)
Record tables (m : list (Z * nat)) (n : gmap nat fdevent) (s : gset nat) (r : gmap Z (Z * nat)) : Prop := {
  t_asc : ascending m;
  t_fds : ∀ k p, (k, p) ∈ m ↔ ∃ e, n !! p = Some e ∧ fd e = k;
  t_set : s = dom n;
  t_reg : ∀ k mask p, r !! k = Some (mask, p) ↔ ∃ e, n !! p = Some e ∧ fd e = k ∧ mask = calculate_epoll_event e
}.

Lemma tables_find m n s r k p : tables m n s r → find_fd m k = Some p ↔ ∃ e, n !! p = Some e ∧ fd e = k.
Proof.
  intros H. rewrite <- (t_fds _ _ _ _ H). split; [apply find_Some|].
  apply elem_of_find, ascending_NoDup, (t_asc _ _ _ _ H).
Qed.

Lemma tables_inj m n s r p q e e' : tables m n s r → n !! p = Some e → n !! q = Some e' → fd e = fd e' → p = q.
Proof.
  intros H Hp Hq Hf. assert (find_fd m (fd e) = Some p) as H1 by (apply (tables_find _ _ _ _ _ _ H); eauto).
  assert (find_fd m (fd e) = Some q) as H2 by (apply (tables_find _ _ _ _ _ _ H); eauto). congruence.
Qed.

Lemma tables_registered m n s r p e : tables m n s r → n !! p = Some e → r !! fd e = Some (calculate_epoll_event e, p).
Proof. intros H Hp. apply (t_reg _ _ _ _ H). eauto. Qed.

Lemma tables_update m n s r p e e' :
  tables m n s r → n !! p = Some e → fd e' = fd e →
  tables m (<[p := e']> n) s (<[fd e := (calculate_epoll_event e', p)]> r).
Proof.
  intros H Hp Hf. pose proof H as [Ha Hm Hs Hr]. constructor; [done| | |].
  - intros k q. rewrite Hm. destruct (decide (p = q)) as [->|Hne].
    + rewrite lookup_insert_eq. split; intros (e1 & E1 & <-); naive_solver.
    + by rewrite lookup_insert_ne.
  - rewrite dom_insert_lookup_L; [done|by exists e].
  - intros k mask q. destruct (decide (fd e = k)) as [<-|Hk].
    + rewrite lookup_insert_eq. split.
      * intros [= <- <-]. exists e'. by rewrite lookup_insert_eq.
      * intros (e1 & E1 & Hf1 & ->). destruct (decide (p = q)) as [->|Hne].
        -- rewrite lookup_insert_eq in E1. by injection E1 as <-.
        -- rewrite lookup_insert_ne in E1 by done. destruct Hne. by eapply tables_inj.
    + rewrite lookup_insert_ne by done. rewrite Hr. destruct (decide (p = q)) as [->|Hne].
      * rewrite lookup_insert_eq. split; intros (e1 & E1 & Hf1 & ?); naive_solver congruence.
      * by rewrite lookup_insert_ne.
Qed.

(** A change the kernel does not see. *)
Lemma tables_touch m n s r p e e' :
  tables m n s r → n !! p = Some e → fd e' = fd e → calculate_epoll_event e' = calculate_epoll_event e →
  tables m (<[p := e']> n) s r.
Proof.
  intros H Hp Hf Hc. rewrite <- (insert_id r (fd e) (calculate_epoll_event e', p)); [by eapply tables_update|].
  rewrite Hc. by eapply tables_registered.
Qed.

Lemma tables_create m n s r p e :
  tables m n s r → n !! p = None → find_fd m (fd e) = None →
  tables (emplace m (fd e) p) (<[p := e]> n) ({[p]} ∪ s) (<[fd e := (calculate_epoll_event e, p)]> r).
Proof.
  intros H Hp Hf. pose proof H as [Ha Hm Hs Hr]. constructor.
  - by apply ascending_emplace.
  - intros k q. rewrite emplace_perm, elem_of_cons, Hm. destruct (decide (p = q)) as [->|Hne].
    + rewrite lookup_insert_eq, Hp. split; [|intros (e1 & [= <-] & <-); by left].
      intros [[= ->]|(e1 & ? & ?)]; [eauto|done].
    + rewrite lookup_insert_ne by done. split; [|by right]. by intros [[= -> ->]|?].
  - rewrite dom_insert_L. by rewrite Hs.
  - intros k mask q. destruct (decide (fd e = k)) as [<-|Hk].
    + rewrite lookup_insert_eq. split.
      * intros [= <- <-]. exists e. by rewrite lookup_insert_eq.
      * intros (e1 & E1 & Hf1 & ->). destruct (decide (p = q)) as [->|Hne].
        -- rewrite lookup_insert_eq in E1. by injection E1 as <-.
        -- rewrite lookup_insert_ne in E1 by done.
           assert (find_fd m (fd e) = Some q) as Hq by (apply (tables_find _ _ _ _ _ _ H); eauto). congruence.
    + rewrite lookup_insert_ne by done. rewrite Hr. destruct (decide (p = q)) as [->|Hne].
      * rewrite lookup_insert_eq, Hp. split; intros (e1 & E1 & Hf1 & ?); naive_solver congruence.
      * by rewrite lookup_insert_ne.
Qed.

Lemma tables_destroy m n s r p e :
  tables m n s r → n !! p = Some e →
  find_fd m (fd e) = Some p ∧ tables (erase m (fd e)) (delete p n) (s ∖ {[p]}) (delete (fd e) r).
Proof.
  intros H Hp. pose proof H as [Ha Hm Hs Hr].
  assert (find_fd m (fd e) = Some p) as Hf by (apply (tables_find _ _ _ _ _ _ H); eauto). split; [done|].
  assert (∀ k q, (k, q) ∈ erase m (fd e) ↔ (k, q) ∈ m ∧ q ≠ p) as Hin.
  { intros k q. pose proof (erase_perm m (fd e) p Hf) as Hperm. pose proof (ascending_NoDup _ Ha) as Hnd.
    assert (fd e ∉ (erase m (fd e)).*1) as Hn.
    { assert (m.*1 ≡ₚ fd e :: (erase m (fd e)).*1) as Hp1 by exact (fmap_Permutation fst _ _ Hperm).
      rewrite Hp1 in Hnd. by apply NoDup_cons in Hnd as [? _]. }
    assert ((k, q) ∈ m ↔ (k, q) = (fd e, p) ∨ (k, q) ∈ erase m (fd e)) as -> by (rewrite <- elem_of_cons; by apply elem_of_Permutation_proper).
    split; [|by intros [[[= -> ->]|Hq] Hne]]. intros Hq. split; [by right|]. intros ->.
    assert ((k, p) ∈ m) as (e1 & E1 & <-)%Hm by (apply (elem_of_Permutation_proper _ _ _ Hperm); by right).
    apply Hn. apply list_elem_of_fmap. exists (fd e1, p). split; [|done]. cbn. congruence. }
  constructor.
  - by apply ascending_erase.
  - intros k q. rewrite Hin, Hm. destruct (decide (p = q)) as [->|Hne].
    + rewrite lookup_delete_eq. naive_solver.
    + rewrite lookup_delete_ne by done. naive_solver.
  - rewrite dom_delete_L. by rewrite Hs.
  - intros k mask q. destruct (decide (fd e = k)) as [<-|Hk].
    + rewrite lookup_delete_eq. split; [done|]. intros (e1 & E1 & Hf1 & ->). destruct (decide (p = q)) as [->|Hne].
      * by rewrite lookup_delete_eq in E1.
      * rewrite lookup_delete_ne in E1 by done. destruct Hne. by eapply tables_inj.
    + rewrite lookup_delete_ne by done. rewrite Hr. destruct (decide (p = q)) as [->|Hne].
      * rewrite lookup_delete_eq. naive_solver congruence.
      * by rewrite lookup_delete_ne.
Qed.

(** ** The operations *)

(** [p0] is the [fdevent] of the [eventfd]: the only one with its callback,
    always waited for, and without a timeout. *)
Record core (p0 : nat) (l : loop) : Prop := {
  c_tables : tables (installed_fdevents_ l) (nodes l) (fdevent_set_ l) (registered l);
  c_interrupt : ∃ e, nodes l !! p0 = Some e ∧ func e = fdevent_interrupt ∧ timeout e = None;
  c_only : ∀ p e, nodes l !! p = Some e → func e = fdevent_interrupt → p = p0;
  c_eventfd : 0 ≤ eventfd l
}.

(** Operations of callbacks leave the loop where it is; they may add to the
    queue, and then the [eventfd] is readable. *)
Record leaves (l l' : loop) : Prop := {
  l_at : at_ l' = at_ l;
  l_looper : looper_thread_id_ l' = looper_thread_id_ l;
  l_interrupting : interrupting l' = interrupting l;
  l_done : done_ l' = done_ l;
  l_queue : ∃ fns, run_queue_ l' = run_queue_ l ++ fns ∧ queued l' = queued l ++ fns ∧ (fns ≠ [] → 0 < eventfd l');
  l_eventfd : eventfd l ≤ eventfd l'
}.

Lemma leaves_refl l : leaves l l.
Proof. constructor; try done. exists []. by rewrite !app_nil_r. Qed.

Lemma leaves_trans l1 l2 l3 : leaves l1 l2 → leaves l2 l3 → leaves l1 l3.
Proof.
  intros [? ? ? ? (f1 & Q1 & R1 & E1) L1] [? ? ? ? (f2 & Q2 & R2 & E2) L2]. constructor; try congruence; [|lia].
  exists (f1 ++ f2). rewrite Q2, Q1, R2, R1, <- !app_assoc. split_and!; [done..|].
  intros Hne. destruct f2 as [|f f2]; [|by apply E2]. rewrite app_nil_r in Hne. specialize (E1 Hne). lia.
Qed.

(** An operation that changes the tables alone. *)
Lemma leaves_tables l l' :
  at_ l' = at_ l → looper_thread_id_ l' = looper_thread_id_ l → interrupting l' = interrupting l → done_ l' = done_ l →
  run_queue_ l' = run_queue_ l → queued l' = queued l → eventfd l' = eventfd l → leaves l l'.
Proof. intros ? ? ? ? Hq Hq' He. constructor; [done..| |lia]. exists []. by rewrite Hq, Hq', !app_nil_r. Qed.

(** The operation is not about the [fdevent] of the [eventfd]. *)
Definition avoids (p0 : nat) (o : op) : Prop :=
  match o with
  | OpDestroy p | OpSet p _ | OpAdd p _ | OpDel p _ | OpSetTimeout p _ _ => p ≠ p0
  | _ => True
  end.

Section ops.
Context `{HPoll : !Pollable}.
Implicit Types (l : loop) (p : nat).

Lemma partial_fde_of p Q l : (∀ e, nodes l !! p = Some e → Q e l) → partial (fde_of p) Q l.
Proof. intros H. unfold fde_of. pt_go. apply partial_lift. intros e He%deref_ret. by apply H. Qed.

Lemma partial_check b Q l : (b = true → Q tt l) → partial (lift (check b)) Q l.
Proof. intros H. apply partial_lift. intros [] E%check_ret. by apply H. Qed.

Lemma partial_abort {A} (Q : A → loop → Prop) l : partial (lift Abort) Q l.
Proof. done. Qed.

Lemma partial_looper self Q l : Q tt l → partial (CheckLooperThread self) Q l.
Proof. intros H. unfold CheckLooperThread. pt_go. destruct (looper_thread_id_ l); [by apply partial_check|by pt_go]. Qed.

(** A node that is not that of the [eventfd] changes. *)
Lemma core_node p0 l l' p e e' :
  core p0 l → p ≠ p0 → nodes l !! p = Some e → func e' = func e →
  nodes l' = <[p := e']> (nodes l) → eventfd l ≤ eventfd l' →
  tables (installed_fdevents_ l') (<[p := e']> (nodes l)) (fdevent_set_ l') (registered l') → core p0 l'.
Proof.
  intros [Ht (e0 & H0 & H1) Ho He] Hne Hp Hf Hn Hev Ht'. constructor; rewrite ?Hn; [exact Ht'|..|lia].
  - exists e0. rewrite lookup_insert_ne by done. done.
  - intros q e1. destruct (decide (p = q)) as [->|Hq]; [|rewrite lookup_insert_ne by done; apply Ho].
    rewrite lookup_insert_eq. intros [= <-]. rewrite Hf. by apply Ho.
Qed.

Definition tables_of l : Prop := tables (installed_fdevents_ l) (nodes l) (fdevent_set_ l) (registered l).

Lemma partial_Set_tables p events l Q :
  tables_of l →
  (∀ e l', nodes l !! p = Some e → nodes l' = <[p := e <| state := u16 events |>]> (nodes l) → tables_of l' → leaves l l' → Q tt l') →
  partial (Set_ p events) Q l.
Proof.
  intros Ht HQ. unfold Set_, change. pt_go. apply partial_fde_of. intros e He. pt_go. apply partial_fde_of. intros e1 He1.
  rewrite He in He1. injection He1 as <-. pt_go. set (e' := e <| state := u16 events |>).
  destruct (Z.eqb_spec (without (state e) FDE_TIMEOUT) (without events FDE_TIMEOUT)) as [E|E].
  - pt_go. apply (HQ e); [done|done| |by apply leaves_tables].
    exact (tables_touch _ _ _ _ p e e' Ht He eq_refl (calculate_timeout_only e events E)).
  - pt_go. apply partial_fde_of. cbn. intros e2. rewrite lookup_insert_eq. intros [= <-]. pt_go. cbn.
    destruct (registered l !! fd e); [|apply partial_abort]. pt_go. apply (HQ e); [done|done| |by apply leaves_tables].
    exact (tables_update _ _ _ _ p e e' Ht He eq_refl).
Qed.

Lemma partial_Set p0 l p events :
  core p0 l → p ≠ p0 → partial (Set_ p events) (λ _ l', core p0 l' ∧ leaves l l') l.
Proof.
  intros Hc Hne. apply partial_Set_tables; [apply Hc|]. intros e l' He Hn Ht Hl. split; [|done].
  eapply (core_node p0 l _ p e _ Hc Hne He); [|exact Hn|apply Hl|rewrite <- Hn; exact Ht]. done.
Qed.

Lemma partial_Create_tables self p k f l Q :
  tables_of l → nodes l !! p = None →
  (∀ l', nodes l' = <[p := Fdevent (fdevent_id_ l) k 0 None 0 f]> (nodes l) → tables_of l' → leaves l l' → Q tt l') →
  partial (Create self p k f) Q l.
Proof.
  intros Ht Hp HQ. unfold Create. pt_go. apply partial_looper. pt_go. apply partial_check. intros _. pt_go.
  destruct (find_fd (installed_fdevents_ l) k) eqn:Ef; [apply partial_abort|]. pt_go. unfold Register. pt_go.
  apply partial_fde_of. cbn. intros e. rewrite lookup_insert_eq. intros [= <-]. pt_go. cbn [fd].
  destruct (registered _ !! k); [apply partial_abort|]. pt_go. apply partial_check. intros _. pt_go.
  apply HQ; [done| |by apply leaves_tables]. set (e := Fdevent _ k 0 None 0 _). exact (tables_create _ _ _ _ p e Ht Hp Ef).
Qed.

Lemma partial_Create p0 l self p k n :
  core p0 l → nodes l !! p = None → partial (Create self p k (user_callback n)) (λ _ l', core p0 l' ∧ leaves l l') l.
Proof.
  intros Hc Hp. apply partial_Create_tables; [apply Hc|done|]. intros l' Hn Ht' Hl. split; [|done].
  destruct Hc as [Ht (e0 & H0 & H1) Ho He]. constructor; [exact Ht'|rewrite Hn..|]; [| |pose proof (l_eventfd _ _ Hl); lia].
  - exists e0. rewrite lookup_insert_ne; [done|congruence].
  - intros q e1. destruct (decide (p = q)) as [->|Hq]; [|rewrite lookup_insert_ne by done; apply Ho].
    rewrite lookup_insert_eq. by intros [= <-].
Qed.

Lemma partial_Destroy p0 l self p :
  core p0 l → p ≠ p0 → partial (Destroy self (Some p)) (λ _ l', core p0 l' ∧ leaves l l') l.
Proof.
  intros [Ht (e0 & H0 & H1) Ho He] Hne. unfold Destroy, Unregister. pt_go. apply partial_looper. pt_go.
  apply partial_fde_of. intros e Hp. pt_go. destruct (registered l !! fd e); [|apply partial_abort]. pt_go.
  apply partial_fde_of. cbn. intros e1. rewrite Hp. intros [= <-]. pt_go. cbn.
  destruct (tables_destroy _ _ _ _ p e Ht Hp) as [-> Ht']. pt_go. apply partial_check. intros _. pt_go.
  split; [constructor; [exact Ht'|..|done]|].
  - exists e0. cbn. rewrite lookup_delete_ne; [done|congruence].
  - intros q e1. cbn. intros [? Hq]%lookup_delete_Some. by apply Ho.
  - by apply leaves_tables.
Qed.

Lemma partial_Interrupt p0 l : core p0 l → partial Interrupt (λ _ l', core p0 l' ∧ leaves l l' ∧ 0 < eventfd l') l.
Proof.
  intros [Ht Hi Ho He]. unfold Interrupt. pt_go. destruct (eventfd l + 1 <? 2 ^ 64 - 1); [|apply partial_abort]. pt_go.
  split_and!; [by constructor; [..|cbn; lia]| |cbn; lia]. constructor; try done; [|cbn; lia]. exists []. by rewrite !app_nil_r.
Qed.

Lemma partial_exec p0 l self o :
  core p0 l → avoids p0 o → partial (exec self o) (λ _ l', core p0 l' ∧ leaves l l') l.
Proof.
  intros Hc Ha. destruct o as [p k n|p|p ev|p ev|p ev|p t now|fn|]; cbn [exec avoids] in *.
  - pt_go. case_bool_decide as Hs; [done|]. apply partial_Create; [done|]. by apply eq_None_not_Some.
  - pt_go. eapply partial_mono; [by apply partial_Destroy|]. by intros.
  - by apply partial_Set.
  - unfold Add. pt_go. apply partial_check. intros _. pt_go. apply partial_fde_of. intros e _. by apply partial_Set.
  - unfold Del. pt_go. apply partial_check. intros _. pt_go. apply partial_fde_of. intros e _. by apply partial_Set.
  - unfold SetTimeout, change. pt_go. apply partial_looper. pt_go. apply partial_fde_of. intros e He. pt_go.
    set (e' := e <| timeout := t |> <| last_active := now |>).
    pose proof (tables_touch _ _ _ _ p e e' (c_tables _ _ Hc) He eq_refl eq_refl) as Ht.
    split; [by eapply (core_node p0 l _ p e e'); [exact Hc|exact Ha|exact He| | |cbn; lia|exact Ht]|].
    by apply leaves_tables.
  - unfold Run, push_back. pt_go. destruct Hc as [Ht Hi Ho He].
    eapply partial_mono; [apply (partial_Interrupt p0); by constructor|]. cbn. intros [] l' (Hc & [A1 A2 A3 A4 (fns & A5 & A6 & A7) A8] & Hpos).
    split; [done|]. cbn in *. constructor; try done. exists ([fn] ++ fns). by rewrite A5, A6, <- !app_assoc.
  - unfold TerminateLoop. pt_go. destruct Hc as [Ht Hi Ho He].
    eapply partial_mono; [apply (partial_Interrupt p0); by constructor|]. cbn. intros [] l' (Hc & [A1 A2 A3 A4 A5 A6] & Hpos).
    by split; [|constructor].
Qed.

Lemma partial_exec_all p0 self ops : ∀ l,
  core p0 l → Forall (avoids p0) ops → partial (exec_all self ops) (λ _ l', core p0 l' ∧ leaves l l') l.
Proof.
  induction ops as [|o ops IH]; intros l Hc Ha; cbn [exec_all].
  - pt_go. split; [done|apply leaves_refl].
  - apply Forall_cons in Ha as [Ho Ha]. pt_go. eapply partial_mono; [by apply partial_exec|]. cbv beta. intros [] l1 [Hc1 Hl1].
    eapply partial_mono; [by apply IH|]. cbv beta. intros [] l2 [Hc2 Hl2]. split; [done|]. by eapply leaves_trans.
Qed.
End ops.

(** ** What a wait delivers *)

(** What the kernel may report of a wait: registrations, each at most once, with
    events that were asked for (errors and hang-ups always are); of the
    [eventfd] that it is readable, if it is. *)
Record reported_ok (p0 : nat) (l : loop) (reported : list (nat * Z)) : Prop := {
  r_size : zlen reported ≤ epoll_events_size l;
  r_once : NoDup reported.*1;
  r_masks : ∀ p mask, (p, mask) ∈ reported → ∃ k m, registered l !! k = Some (m, p) ∧ may_report m mask;
  r_eventfd : ∀ mask, (p0, mask) ∈ reported → mask = EPOLLIN ∧ 0 < eventfd l
}.

Definition set_active (post : Z) (e : fdevent) : fdevent := e <| last_active := post |>.

(** The [fdevent]s, other than those reported, whose time is over. *)
Definition late (n : gmap nat fdevent) (post : Z) (reported : list nat) (m : list (Z * nat)) : list nat :=
  omap (λ '(_, p), if bool_decide (p ∈ reported) then None
                   else e ← n !! p; if timed_out post e then Some p else None) m.

(** The events of a turn: those reported, in the order of the kernel, then the
    timeouts of others, by descriptor. *)
Definition due (l : loop) (reported : list (nat * Z)) (post : Z) : list (nat * Z) :=
  (prod_map (λ p, p) polled_events <$> reported)
    ++ ((λ p, (p, FDE_TIMEOUT)) <$> late (nodes l) post reported.*1 (installed_fdevents_ l)).

Definition touch (post : Z) (ps : list nat) (n : gmap nat fdevent) : gmap nat fdevent :=
  foldl (λ n p, alter (set_active post) p n) n ps.

Lemma touch_lookup post ps n p :
  touch post ps n !! p = (if bool_decide (p ∈ ps) then set_active post <$> n !! p else n !! p).
Proof.
  revert n. induction ps as [|q ps IH]; intros n; [by rewrite bool_decide_false by (by intros ?%elem_of_nil)|].
  change (touch post (q :: ps) n) with (touch post ps (alter (set_active post) q n)). rewrite IH. destruct (decide (q = p)) as [->|Hne].
  - rewrite lookup_alter_eq, (bool_decide_true (p ∈ p :: ps)) by by left.
    case_bool_decide; [|done]. by destruct (n !! p).
  - rewrite lookup_alter_ne by done. rewrite (bool_decide_ext (p ∈ q :: ps) (p ∈ ps)); [done|].
    rewrite elem_of_cons. naive_solver.
Qed.

Lemma prod_map_fst (l : list (nat * Z)) : (prod_map (λ p, p) polled_events <$> l).*1 = l.*1.
Proof. rewrite <- list_fmap_compose. by apply list_fmap_ext. Qed.

Lemma timeouts_fst (ps : list nat) : ((λ p, (p, FDE_TIMEOUT)) <$> ps).*1 = ps.
Proof. induction ps as [|p ps IH]; [done|]. cbn. by f_equal. Qed.

(** The references of [event_map] into the vector: to the events of their
    [fdevent]s, which are in [base]. *)
Definition refers (v : vec) (em : gmap nat (nat * nat)) (base : list (nat * Z)) : Prop :=
  ∀ p, match em !! p with
       | Some r => fst r = moved v ∧ ∃ ev, items v !! snd r = Some (p, ev) ∧ (p, ev) ∈ base
       | None => p ∉ base.*1
       end.

Lemma emplace_back_fits x v : zlen (items v) < capacity v → emplace_back x v = Vec (items v ++ [x]) (capacity v) (moved v).
Proof. intros H. unfold emplace_back. by rewrite (proj2 (Z.ltb_lt _ _)). Qed.

Lemma wp_fde_of p e Q (l : loop) : nodes l !! p = Some e → Q e l → wp (fde_of p) Q l.
Proof. intros He HQ. unfold fde_of. st_go. by eapply wp_lift; [rewrite He|]. Qed.

Lemma wp_change_active p e post Q (l : loop) : nodes l !! p = Some e →
  Q tt (l <| nodes := alter (set_active post) p (nodes l) |>) → wp (change p (λ e, e <| last_active := post |>)) Q l.
Proof.
  intros He HQ. unfold change. st_go. eapply wp_fde_of; [done|]. st_go.
  assert (alter (set_active post) p (nodes l) = <[p := set_active post e]> (nodes l)) as E.
  { apply map_eq. intros q. destruct (decide (p = q)) as [->|].
    - by rewrite lookup_alter_eq, lookup_insert_eq, He.
    - by rewrite lookup_alter_ne, lookup_insert_ne. }
  rewrite E in HQ. exact HQ.
Qed.

Lemma wp_collect post reported : ∀ v em l Q,
  NoDup ((items v).*1 ++ reported.*1) → zlen (items v) + zlen reported ≤ capacity v → refers v em (items v) →
  (∀ p mask, (p, mask) ∈ reported → ∃ e, nodes l !! p = Some e ∧ may_report (calculate_epoll_event e) mask) →
  (∀ em', let its := items v ++ (prod_map (λ p, p) polled_events <$> reported) in
    refers (Vec its (capacity v) (moved v)) em' its →
    Q (Vec its (capacity v) (moved v), em') (l <| nodes := touch post reported.*1 (nodes l) |>)) →
  wp (collect reported post v em) Q l.
Proof.
  induction reported as [|[p mask] reported IH]; intros v em l Q Hnd Hcap Href Hrep HQ; cbn [collect].
  - st_go. specialize (HQ em). rewrite app_nil_r in HQ. destruct v, l. by apply HQ.
  - destruct (Hrep p mask ltac:(by left)) as (e & He & Hm). st_go. eapply wp_fde_of; [done|]. st_go.
    eapply wp_lift; [by rewrite (may_report_read _ _ Hm)|]. st_go. eapply wp_lift; [by rewrite (may_report_write _ _ Hm)|]. st_go.
    rewrite emplace_back_fits by (cbn [length] in Hcap; lia). eapply wp_change_active; [done|].
    cbn [moved items]. rewrite length_app. cbn [length]. replace (length (items v) + 1 - 1)%nat with (length (items v)) by lia.
    apply IH; cbn [items moved capacity].
    + rewrite fmap_app, <- app_assoc. exact Hnd.
    + rewrite length_app. cbn [length] in *. lia.
    + intros q. destruct (decide (p = q)) as [->|Hne].
      * rewrite lookup_insert_eq. split; [done|]. exists (polled_events mask).
        cbn [items snd]. rewrite lookup_app_r, Nat.sub_diag by lia. split; [done|]. apply elem_of_app. right. by left.
      * rewrite lookup_insert_ne by done. specialize (Href q). destruct (em !! q) as [r|].
        -- destruct Href as (Hr & ev & Hi & Hin). split; [done|]. exists ev. split; [by apply lookup_app_l_Some|].
           apply elem_of_app. by left.
        -- rewrite fmap_app, not_elem_of_app. split; [done|]. cbn. rewrite elem_of_cons, elem_of_nil. naive_solver.
    + intros q mask' Hq. destruct (Hrep q mask' ltac:(by right)) as (e1 & He1 & Hm1). exists e1. split; [|done]. cbn.
      rewrite lookup_alter_ne; [done|]. intros ->. apply NoDup_app in Hnd as (_ & _ & Hnd). cbn in Hnd.
      apply NoDup_cons in Hnd as [Hn _]. apply Hn, list_elem_of_fmap. by exists (q, mask').
    + intros em' Hr. specialize (HQ em'). rewrite <- app_assoc in Hr |- *. by apply HQ.
Qed.

Lemma late_cons n post ps k p m :
  late n post ps ((k, p) :: m) =
  (if bool_decide (p ∈ ps) then [] else match n !! p with Some e => if timed_out post e then [p] else [] | None => [] end)
    ++ late n post ps m.
Proof. unfold late. cbn. case_bool_decide; [done|]. destruct (n !! p) as [e|]; [|done]. cbn. by destruct (timed_out post e). Qed.

Lemma late_alter n post ps m p f : p ∉ m.*2 → late (alter f p n) post ps m = late n post ps m.
Proof.
  induction m as [|[k q] m IH]; [done|]. cbn [fmap list_fmap snd]. intros [Hne Hn]%not_elem_of_cons.
  rewrite !late_cons, IH by done. by rewrite lookup_alter_ne by done.
Qed.

Lemma late_elem n post ps m p : p ∈ late n post ps m → p ∈ m.*2 ∧ (p ∉ ps) ∧ is_Some (n !! p).
Proof.
  unfold late. rewrite list_elem_of_omap. intros ([k q] & Hin & H). case_bool_decide; [done|].
  destruct (n !! q) as [e|] eqn:E; [|done]. cbn in H. destruct (timed_out post e); [|done]. injection H as <-.
  split_and!; [|done|by rewrite E]. apply list_elem_of_fmap. by exists (k, q).
Qed.

Lemma wp_expire post base m : ∀ v em l Q,
  NoDup m.*2 → (∀ k p, (k, p) ∈ m → is_Some (nodes l !! p)) → refers v em base → (∀ p ev, (p, ev) ∈ base → ev ≠ 0) →
  zlen (items v) + zlen (filter (λ p, p ∉ base.*1) m.*2) ≤ capacity v →
  (let ps := late (nodes l) post base.*1 m in
   Q (Vec (items v ++ ((λ p, (p, FDE_TIMEOUT)) <$> ps)) (capacity v) (moved v)) (l <| nodes := touch post ps (nodes l) |>)) →
  wp (expire m post v em) Q l.
Proof.
  induction m as [|[k p] m IH]; intros v em l Q Hnd Hn Href Hev Hcap HQ; cbn [expire].
  - st_go. cbn in HQ. rewrite app_nil_r in HQ. destruct v, l. exact HQ.
  - cbn [fmap list_fmap snd] in Hnd, Hcap. apply NoDup_cons in Hnd as [Hp Hnd].
    destruct (Hn k p ltac:(by left)) as [e He]. st_go. rewrite late_cons, He in HQ.
    pose proof (Href p) as Hrp. destruct (em !! p) as [r|] eqn:Er.
    + destruct Hrp as (Hr & ev & Hi & Hin). eapply wp_lift.
      { unfold events_at. rewrite (proj2 (Nat.eqb_eq _ _) Hr), Hi. reflexivity. }
      assert (p ∈ base.*1) as Hb by (apply list_elem_of_fmap; by exists (p, ev)).
      st_go. eapply wp_fde_of; [done|]. st_go. cbn [snd]. rewrite (proj2 (Z.eqb_neq _ _)) by by eapply Hev. cbn [andb]. st_go.
      rewrite bool_decide_true in HQ by done. rewrite filter_cons_False in Hcap by (intros H; by apply H).
      by apply IH; [|intros k' q Hq; eapply Hn; by right| | | |].
    + eapply wp_lift; [done|]. st_go. eapply wp_fde_of; [done|]. st_go. rewrite Z.eqb_refl. cbn [andb].
      rewrite bool_decide_false in HQ by done. rewrite filter_cons_True in Hcap by done. cbn [length] in Hcap.
      destruct (timed_out post e) eqn:Et; st_go.
      * eapply wp_change_active; [done|]. st_go. rewrite emplace_back_fits by lia. apply IH; cbn [items capacity moved].
        -- done.
        -- intros k' q Hq. cbn. destruct (Hn k' q ltac:(by right)) as [e' He']. destruct (decide (p = q)) as [->|].
           ++ rewrite lookup_alter_eq, He'. by eexists.
           ++ by rewrite lookup_alter_ne, He' by done.
        -- intros q. specialize (Href q). destruct (em !! q) as [r|]; [|done]. destruct Href as (Hr & ev & Hi & Hin).
           split; [done|]. exists ev. split; [by apply lookup_app_l_Some|done].
        -- done.
        -- rewrite length_app. cbn [length]. lia.
        -- cbn [nodes]. cbv zeta. change (nodes (l <| nodes := alter (set_active post) p (nodes l) |>)) with (alter (set_active post) p (nodes l)).
           rewrite late_alter by done. rewrite <- app_assoc. exact HQ.
      * apply IH; [done|intros k' q Hq; eapply Hn; by right|done|done|lia|exact HQ].
Qed.

(** The vector has room for all the events of a turn. *)
Lemma room (base ps : list nat) : NoDup base → NoDup ps → base ⊆ ps →
  (length base + length (filter (λ p, p ∉ base) ps) = length ps)%nat.
Proof.
  intros Hb Hp Hsub. rewrite <- length_app. apply Permutation_length, NoDup_Permutation; [|done|].
  - apply NoDup_app. split_and!; [done| |by apply NoDup_filter]. intros x Hx. rewrite list_elem_of_filter. tauto.
  - intros x. rewrite elem_of_app, list_elem_of_filter. destruct (decide (x ∈ base)); [|tauto]. split; [auto|tauto].
Qed.

Lemma first_installed_head events s : (∀ p ev, (p, ev) ∈ events → p ∈ s) → first_installed events s = head events.
Proof.
  destruct events as [|[p ev] events]; [done|]. intros H. cbn. rewrite bool_decide_true; [done|]. eapply H. by left.
Qed.

Lemma late_touch n post ps m qs : (∀ q, q ∈ qs → q ∈ ps) → late (touch post qs n) post ps m = late n post ps m.
Proof.
  intros H. induction m as [|[k p] m IH]; [done|]. rewrite !late_cons, IH. case_bool_decide as Hp; [done|].
  rewrite touch_lookup, bool_decide_false; [done|]. intros Hq. by apply Hp, H.
Qed.

Lemma installed_NoDup m n s r : tables m n s r → NoDup m.*2.
Proof.
  intros [Ha Hm _ _]. apply ascending_NoDup in Ha. revert Ha.
  assert (∀ k k' p, (k, p) ∈ m → (k', p) ∈ m → k = k') as Hi by (intros k k' p (e & E1 & <-)%Hm (e' & E2 & <-)%Hm; congruence).
  clear Hm. induction m as [|[k p] m IH]; cbn; [by constructor|]. intros [Hk Hnd]%NoDup_cons. apply NoDup_cons. split.
  - intros ([k' p'] & -> & Hin)%list_elem_of_fmap. apply Hk, list_elem_of_fmap. exists (k', p'). split; [|done]. cbn in *.
    eapply Hi; [by left|by right].
  - apply IH; [|done]. intros k1 k2 q H1 H2. eapply Hi; by right.
Qed.

Lemma due_installed p0 l reported post p ev :
  core p0 l → reported_ok p0 l reported → (p, ev) ∈ due l reported post → is_Some (nodes l !! p).
Proof.
  intros Hc [_ _ Hm _]. unfold due. rewrite elem_of_app, !list_elem_of_fmap. intros [([q mask] & [= -> ->] & Hin)|(q & [= -> ->] & Hin)].
  - destruct (Hm _ _ Hin) as (k & m & (e & He & _)%(t_reg _ _ _ _ (c_tables _ _ Hc)) & _). by exists e.
  - by apply late_elem in Hin as (_ & _ & ?).
Qed.

Lemma wp_gather p0 l reported post Q :
  core p0 l → reported_ok p0 l reported →
  Q (head (due l reported post))
    (l <| nodes := touch post (due l reported post).*1 (nodes l) |>
       <| fde_events_capacity := Z.max (fde_events_capacity l) (zlen (installed_fdevents_ l)) |>) →
  wp (gather reported post) Q l.
Proof.
  intros Hc Hr HQ. pose proof (c_tables _ _ Hc) as Ht. pose proof Hr as [_ Hnd Hmask _]. unfold gather. st_go.
  set (base := prod_map (λ p, p) polled_events <$> reported). set (m := installed_fdevents_ l) in *.
  assert (∀ p mask, (p, mask) ∈ reported → ∃ e, nodes l !! p = Some e ∧ may_report (calculate_epoll_event e) mask) as Hrep.
  { intros p mask Hin. destruct (Hmask _ _ Hin) as (k & mk & (e & He & _ & ->)%(t_reg _ _ _ _ Ht) & Hm). eauto. }
  assert (base.*1 = reported.*1) as Hbase by apply prod_map_fst.
  assert (reported.*1 ⊆ m.*2) as Hsub.
  { intros p ([q mask] & -> & Hin)%list_elem_of_fmap. destruct (Hrep _ _ Hin) as (e & He & _).
    apply list_elem_of_fmap. exists (fd e, q). split; [done|]. apply (t_fds _ _ _ _ Ht). eauto. }
  pose proof (room _ _ Hnd (installed_NoDup _ _ _ _ Ht) Hsub) as Hroom. rewrite !length_fmap in Hroom.
  apply wp_collect; cbn [items capacity moved].
  - done.
  - cbn [length]. fold m. lia.
  - intros p. rewrite lookup_empty. apply not_elem_of_nil.
  - exact Hrep.
  - intros em Href. cbn [app] in Href |- *. fold base in Href |- *. st_go.
    apply (wp_expire post base); cbn [items capacity moved].
    + by eapply installed_NoDup.
    + intros k p (e & He & _)%(t_fds _ _ _ _ Ht). cbn. rewrite touch_lookup, He. by case_bool_decide; eexists.
    + done.
    + intros p ev ([q mask] & [= -> ->] & Hin)%list_elem_of_fmap. destruct (Hrep _ _ Hin) as (e & _ & Hm). by eapply polled_events_nonzero.
    + rewrite Hbase. subst base. rewrite length_fmap. fold m. lia.
    + cbv zeta. change (nodes (l <| nodes := touch post reported.*1 (nodes l) |>)) with (touch post reported.*1 (nodes l)).
      rewrite Hbase, late_touch by done. st_go. fold m in HQ |- *.
      change (base ++ ((λ p, (p, FDE_TIMEOUT)) <$> late (nodes l) post reported.*1 m)) with (due l reported post).
      rewrite first_installed_head.
      * assert (touch post (due l reported post).*1 (nodes l) = touch post (late (nodes l) post reported.*1 m) (touch post reported.*1 (nodes l))) as E.
        { unfold due. fold base. rewrite fmap_app, Hbase, timeouts_fst.
          unfold touch. by rewrite foldl_app. }
        rewrite E in HQ. exact HQ.
      * intros p ev Hin. apply (due_installed p0) in Hin; [|done..]. cbn. rewrite (t_set _ _ _ _ Ht). by apply elem_of_dom.
Qed.

(** ** The steps *)

(** The wait ends no later than any timeout. *)
Lemma wp_poll_duration now m : ∀ result (l : loop) Q,
  (∀ k p, (k, p) ∈ m → is_Some (nodes l !! p)) →
  (∀ d, (∀ r, result = Some r → ∃ d', d = Some d' ∧ d' ≤ r) →
    (∀ k p e t, (k, p) ∈ m → nodes l !! p = Some e → time_left now e = Some t → ∃ d', d = Some d' ∧ d' ≤ t) → Q d l) →
  wp (poll_duration now m result) Q l.
Proof.
  induction m as [|[k p] m IH]; intros result l Q Hn HQ; cbn [poll_duration].
  - st_go. apply HQ; [by intros r ->; exists r|]. by intros ? ? ? ? ?%elem_of_nil.
  - destruct (Hn k p ltac:(by left)) as [e He]. st_go. eapply wp_fde_of; [done|]. apply IH; [intros k' q Hq; eapply Hn; by right|].
    intros d Hd Hm. apply HQ.
    + intros r ->. destruct (time_left now e) as [t|]; [|by apply Hd]. destruct (Hd _ eq_refl) as (d' & -> & Hl). exists d'. split; [done|lia].
    + intros k' q e' t [[= -> ->]|Hin]%elem_of_cons He' Ht; [|by eapply Hm]. rewrite He in He'. injection He' as <-. rewrite Ht in Hd.
      destruct result as [r|]; destruct (Hd _ eq_refl) as (d' & -> & Hl); exists d'; (split; [done|lia]).
Qed.

Lemma wp_CalculatePollDuration p0 self now (l : loop) Q :
  core p0 l → looper_thread_id_ l = Some self →
  (∀ d, (∀ p e t, nodes l !! p = Some e → time_left now e = Some t → ∃ d', d = Some d' ∧ d' ≤ t) → Q d l) →
  wp (CalculatePollDuration self now) Q l.
Proof.
  intros Hc Hl HQ. pose proof (c_tables _ _ Hc) as Ht. unfold CalculatePollDuration, CheckLooperThread. st_go. rewrite Hl.
  eapply wp_lift; [by rewrite Z.eqb_refl|]. st_go. apply wp_poll_duration.
  - intros k p (e & He & _)%(t_fds _ _ _ _ Ht). by exists e.
  - intros d _ Hd. apply HQ. intros p e t He. eapply (Hd (fd e)); [|done]. apply (t_fds _ _ _ _ Ht). eauto.
Qed.

(** The functions the looper has run *)
Definition ran (d : list action) : list nat := omap (λ a, match a with Ran fn => Some fn | _ => None end) d.

Record inv (p0 : nat) (l : loop) : Prop := {
  i_core : core p0 l;
  i_looper : at_ l ≠ Before → at_ l ≠ Exited → is_Some (looper_thread_id_ l);
  i_size : at_ l = Waiting → zlen (installed_fdevents_ l) ≤ epoll_events_size l;
  i_wake : at_ l ≠ Flushing → run_queue_ l ≠ [] → 0 < eventfd l ∨ (0 < interrupting l)%nat;
  i_fifo : queued l = ran (done_ l) ++ run_queue_ l
}.

(** What may happen next: callbacks leave the [fdevent] of the [eventfd] alone,
    and the kernel reports what it may. *)
Definition event_ok (p0 : nat) (l : loop) (e : event) : Prop :=
  match e with
  | EOps _ ops | EFlush ops | EWait (Interrupted _) ops => Forall (avoids p0) ops
  | EWait (Reported _ reported _) ops => Forall (avoids p0) ops ∧ reported_ok p0 l reported
  | _ => True
  end.

Lemma tables_touched m n s r post ps : tables m n s r → tables m (touch post ps n) s r.
Proof.
  revert n. induction ps as [|p ps IH]; intros n H; [done|]. change (touch post (p :: ps) n) with (touch post ps (alter (set_active post) p n)).
  apply IH. destruct (n !! p) as [e|] eqn:E.
  - replace (alter (set_active post) p n) with (<[p := set_active post e]> n); [by eapply tables_touch|].
    apply map_eq. intros q. destruct (decide (p = q)) as [->|]; [by rewrite lookup_alter_eq, lookup_insert_eq, E|].
    by rewrite lookup_alter_ne, lookup_insert_ne.
  - replace (alter (set_active post) p n) with n; [done|]. apply map_eq. intros q.
    destruct (decide (p = q)) as [->|]; [by rewrite lookup_alter_eq, E|by rewrite lookup_alter_ne].
Qed.

Lemma core_touched p0 l cap post ps :
  core p0 l → core p0 (l <| nodes := touch post ps (nodes l) |> <| fde_events_capacity := cap |>).
Proof.
  intros [Ht (e & He & Hf & Hto) Ho Hev]. constructor; [by apply tables_touched|..|done].
  - exists (if bool_decide (p0 ∈ ps) then set_active post e else e). cbn. rewrite touch_lookup, He. by case_bool_decide.
  - intros p e'. cbn. rewrite touch_lookup. case_bool_decide; [|apply Ho]. destruct (nodes l !! p) as [e1|] eqn:E; [|done].
    intros [= <-]. by apply (Ho p e1).
Qed.

Section steps.
Context `{HPoll : !Pollable}.
Implicit Types l : loop.

(** The loop when a callback is invoked *)
Definition woken (l : loop) (reported : list (nat * Z)) (post : Z) : loop :=
  l <| nodes := touch post (due l reported post).*1 (nodes l) |>
    <| fde_events_capacity := Z.max (fde_events_capacity l) (zlen (installed_fdevents_ l)) |>.

Lemma step_wait p0 self l now reported post ops :
  core p0 l → looper_thread_id_ l = Some self → reported_ok p0 l reported →
  step (EWait (Reported now reported post) ops) l =
  (_ ← (match head (due l reported post) with Some (p, ev) => invoke_fde self p ev ops | None => mret tt end); goto Flushing)
    (woken l reported post).
Proof.
  intros Hc Hl Hr. cbn [step].
  destruct (proj1 (wp_run looper (λ a l', a = self ∧ l' = l) l)) as (? & ? & E & -> & ->).
  { unfold looper. st_go. by eapply wp_lift; [rewrite Hl|]. }
  rewrite (bind_then _ _ _ _ _ E).
  destruct (proj1 (wp_run (CalculatePollDuration self now) (λ _ l', l' = l) l)) as (d & ? & E1 & ->); [by eapply wp_CalculatePollDuration|].
  rewrite (bind_then _ _ _ _ _ E1).
  destruct (proj1 (wp_run (gather reported post) (λ a l', a = head (due l reported post) ∧ l' = woken l reported post) l))
    as (? & ? & E2 & -> & ->); [by eapply wp_gather|].
  by rewrite (bind_then _ _ _ _ _ E2).
Qed.

(** The callback of the [eventfd] finds it readable. *)
Lemma due_interrupt p0 l reported post ev :
  core p0 l → reported_ok p0 l reported → (p0, ev) ∈ due l reported post → 0 < eventfd l.
Proof.
  intros Hc Hr. destruct (c_interrupt _ _ Hc) as (e & He & _ & Hto). unfold due. rewrite elem_of_app, !list_elem_of_fmap.
  intros [([q mask] & [= <- ->] & Hin)|(q & [= <- ->] & Hin)].
  - by apply (r_eventfd _ _ _ Hr) in Hin as [_ ?].
  - exfalso. revert Hin. unfold late. rewrite list_elem_of_omap. intros ([k q] & _ & H). case_bool_decide; [done|].
    destruct (nodes l !! q) as [e'|] eqn:E; [|done]. cbn in H. destruct (timed_out post e') eqn:Et; [|done]. injection H as ->.
    rewrite He in E. injection E as <-. unfold timed_out in Et. by rewrite Hto in Et.
Qed.

Lemma inv_wait p0 l now reported post ops :
  inv p0 l → at_ l = Waiting → reported_ok p0 l reported → Forall (avoids p0) ops →
  partial (step (EWait (Reported now reported post) ops)) (λ _ l', inv p0 l') l.
Proof.
  intros [Hc Hlo _ _ Hq] Hat Hr Ha. destruct (Hlo ltac:(by rewrite Hat) ltac:(by rewrite Hat)) as [self Hs].
  unfold partial. rewrite (step_wait p0 self) by done.
  set (l1 := woken l reported post). assert (core p0 l1) as Hc1 by by apply core_touched.
  match goal with |- match ?m l1 with _ => _ end => change (partial m (λ _ l', inv p0 l') l1) end.
  assert (queued l1 = ran (done_ l1) ++ run_queue_ l1) as Hq1 by done.
  assert (is_Some (looper_thread_id_ l1)) as Hs1 by (by exists self). clearbody l1.
  pt_go. apply (partial_mono _ (λ _ l2, core p0 l2 ∧ is_Some (looper_thread_id_ l2) ∧ queued l2 = ran (done_ l2) ++ run_queue_ l2)).
  - destruct (head (due l reported post)) as [[p ev]|] eqn:Eh; [|by pt_go]. unfold invoke_fde. pt_go. apply partial_fde_of. intros e He. pt_go.
    set (l2 := l1 <| done_ ::= _ |>).
    assert (core p0 l2) as Hc2 by (by destruct Hc1).
    assert (queued l2 = ran (done_ l2) ++ run_queue_ l2) as Hq2.
    { cbn. unfold ran. rewrite omap_app. cbn. by rewrite app_nil_r. }
    destruct (func e).
    + unfold interrupt_callback. pt_go. destruct (eventfd l2 =? 0); [apply partial_abort|]. pt_go.
      split_and!; [by destruct Hc2|done|done].
    + eapply partial_mono; [by apply partial_exec_all|]. cbv beta. intros [] l3 [Hc3 [A1 A2 A3 A4 (fns & A5 & A6 & _) A7]].
      split_and!; [done|by rewrite A2|]. by rewrite A4, A5, A6, Hq2, app_assoc.
  - intros [] l2 (Hc2 & Hs2 & Hq2). unfold goto. pt_go. constructor; [by destruct Hc2|done..].
Qed.

Lemma inv_flush p0 l ops :
  inv p0 l → at_ l = Flushing → Forall (avoids p0) ops → partial (step (EFlush ops)) (λ _ l', inv p0 l') l.
Proof.
  intros [Hc Hlo _ _ Hq] Hat Ha. destruct (Hlo ltac:(by rewrite Hat) ltac:(by rewrite Hat)) as [self Hs]. cbn [step]. unfold FlushRunQueue. pt_go.
  destruct (run_queue_ l) as [|fn q] eqn:E.
  - unfold goto. pt_go. constructor; cbn; [by destruct Hc|done|done|by rewrite E|by rewrite E].
  - pt_go. unfold looper. pt_go. apply partial_lift. rewrite Hs. intros ? [= <-]. pt_go. set (l1 := l <| run_queue_ := q |> <| done_ ::= _ |>).
    assert (core p0 l1) as Hc1 by (by destruct Hc).
    eapply partial_mono; [by apply partial_exec_all|]. cbv beta. intros [] l2 [Hc2 [A1 A2 A3 A4 (fns & A5 & A6 & _) A7]].
    constructor; [done|by rewrite A2; cbn; rewrite Hs|by rewrite A1; cbn; rewrite Hat|by rewrite A1; cbn; rewrite Hat|].
    rewrite A4, A5, A6. cbn. unfold ran in *. rewrite omap_app, Hq. cbn. by rewrite <- !app_assoc.
Qed.

Lemma inv_step p0 l e :
  inv p0 l → enabled e l = true → event_ok p0 l e → partial (step e) (λ _ l', inv p0 l') l.
Proof.
  intros Hi He Hok. assert (∀ a, place_eqb (at_ l) a = true → at_ l = a) as Hat by (intros a; by destruct (at_ l), a).
  destruct e as [self ops|self| |[now|now reported post] ops|ops|fn| |]; cbn [enabled event_ok] in He, Hok.
  - apply Hat in He. destruct Hi as [Hc Hlo Hsz Hw Hq]. cbn [step]. eapply partial_mono; [by apply partial_exec_all|].
    cbv beta. intros [] l2 [Hc2 [A1 A2 A3 A4 (fns & A5 & A6 & A7) A8]]. constructor; rewrite ?A1, ?A2, ?A3, ?A4, ?A5, ?A6.
    + done.
    + done.
    + by rewrite He.
    + intros _ Hne. destruct fns as [|f fns]; [|left; by apply A7]. rewrite app_nil_r in Hne.
      destruct (Hw ltac:(by rewrite He) Hne); [left; lia|by right].
    + by rewrite Hq, app_assoc.
  - apply Hat in He. destruct Hi as [Hc Hlo Hsz Hw Hq]. cbn [step]. unfold goto. pt_go.
    constructor; cbn; [by destruct Hc|done|done|intros _; apply Hw; by rewrite He|done].
  - apply Hat in He. destruct Hi as [Hc Hlo Hsz Hw Hq]. cbn [step]. unfold goto. pt_go. destruct (terminate_loop_ l); pt_go.
    + constructor; cbn; [by destruct Hc|done|done|intros _; apply Hw; by rewrite He|done].
    + constructor; cbn; [by destruct Hc|intros _ _; apply Hlo; by rewrite He|intros _; lia|intros _; apply Hw; by rewrite He|done].
  - cbn [step]. pt_go. unfold looper. pt_go. apply partial_lift. intros self Hs%deref_ret. pt_go.
    apply wp_partial. eapply wp_CalculatePollDuration; [apply Hi|done|]. intros d _. by st_go.
  - destruct Hok. apply Hat in He. by apply inv_wait.
  - apply Hat in He. by apply inv_flush.
  - destruct Hi as [Hc Hlo Hsz Hw Hq]. cbn [step]. unfold push_back. pt_go.
    constructor; cbn; [by destruct Hc|done|done|intros _ _; right; lia|by rewrite Hq, app_assoc].
  - destruct Hi as [Hc Hlo Hsz Hw Hq]. cbn [step]. pt_go.
    constructor; cbn; [by destruct Hc|done|done|intros _ _; right; lia|done].
  - destruct Hi as [Hc Hlo Hsz Hw Hq]. cbn [step]. unfold Interrupt. pt_go. cbn.
    destruct (eventfd l + 1 <? 2 ^ 64 - 1); [|apply partial_abort]. pt_go. pose proof (c_eventfd _ _ Hc).
    constructor; cbn; [destruct Hc; constructor; cbn; [done..|lia]|done|done|intros _ _; left; lia|done].
Qed.

(** The states of the loop after the constructor *)
Inductive reach (p0 : nat) : loop → Prop :=
| reach_start self k l : fdevent_context_epoll self p0 k empty_loop = Ret (tt, l) → reach p0 l
| reach_step l e l' : reach p0 l → enabled e l = true → event_ok p0 l e → step e l = Ret (tt, l') → reach p0 l'.

Lemma start_inv p0 self k l : fdevent_context_epoll self p0 k empty_loop = Ret (tt, l) → inv p0 l.
Proof.
  apply (partial_run _ (λ _ l, inv p0 l)). unfold fdevent_context_epoll, Add. pt_go. apply partial_Create_tables.
  { constructor.
    - apply SSorted_nil.
    - intros k' p. split; [by intros ?%elem_of_nil|]. cbn. intros (e & He & _). by rewrite lookup_empty in He.
    - cbn. symmetry. apply dom_empty_L.
    - intros k' mask p. cbn. rewrite lookup_empty. split; [done|]. intros (e & He & _). by rewrite lookup_empty in He. }
  { apply lookup_empty. }
  intros l1 Hn1 Ht1 L1. pt_go. apply partial_check. intros _. pt_go. apply partial_fde_of. intros e He.
  apply partial_Set_tables; [done|]. intros e' l2 He' Hn2 Ht2 L2. rewrite Hn1, lookup_insert_eq in He'. injection He' as <-.
  pose proof (leaves_trans _ _ _ L1 L2) as [A1 A2 A3 A4 (fns & A5 & A6 & A7) A8]. cbn in *. rewrite Hn1, insert_insert_eq in Hn2.
  constructor; [constructor; [exact Ht2|rewrite Hn2..|exact A8]|by rewrite A1..| |].
  - eexists. by rewrite lookup_insert_eq.
  - intros p e2. destruct (decide (p0 = p)) as [->|]; [done|]. by rewrite lookup_insert_ne, lookup_empty by done.
  - intros _. rewrite A5. intros Hne. left. by apply A7.
  - by rewrite A4, A5, A6.
Qed.
End steps.

(** ** What the event loop does *)

Section props.
Context `{HPoll : !Pollable}.
Implicit Types l : loop.

Lemma reach_inv p0 l : reach p0 l → inv p0 l.
Proof.
  induction 1 as [self k l H|l e l' _ IH He Hok Hs]; [by eapply start_inv|].
  eapply (partial_run _ (λ _ l', inv p0 l')); [by apply inv_step|done].
Qed.

Lemma reach_core p0 l : reach p0 l → core p0 l.
Proof. intros H. apply (i_core _ _ (reach_inv _ _ H)). Qed.

Lemma woken_node l reported post p e : nodes l !! p = Some e →
  ∃ e', nodes (woken l reported post) !! p = Some e' ∧ id e' = id e ∧ func e' = func e.
Proof. intros He. cbn. rewrite touch_lookup, He. case_bool_decide; [by exists (set_active post e)|by exists e]. Qed.


(** C20: The queue of functions for the looper thread, however the threads
    interleave: the functions the loop has run, with those that are still in the
    queue, are exactly those that were queued, in order, each once; and whenever the
    loop is about to wait, or waits, with a function in the queue, the
    descriptor that ends the wait is readable, or the thread that queued the
    function is about to make it so. *)
Theorem run_queue_served p0 l :
  reach p0 l →
  queued l = ran (done_ l) ++ run_queue_ l ∧
  (at_ l = Top ∨ at_ l = Waiting → run_queue_ l ≠ [] → 0 < eventfd l ∨ (0 < interrupting l)%nat).
Proof.
  intros H%reach_inv. split; [apply H|]. intros Hat Hne. apply (i_wake _ _ H); [|done]. by destruct Hat as [-> | ->].
Qed.

(** ** Timeouts *)

Lemma late_intro n post ps m k p e :
  (k, p) ∈ m → p ∉ ps → n !! p = Some e → timed_out post e = true → p ∈ late n post ps m.
Proof.
  intros Hin Hp He Ht. unfold late. apply list_elem_of_omap. exists (k, p). split; [done|].
  rewrite bool_decide_false, He by done. cbn. by rewrite Ht.
Qed.

(** The first timeout that is served is that of the lowest descriptor. *)
Lemma late_first n post m k p e :
  ascending m → (k, p) ∈ m → n !! p = Some e → timed_out post e = true →
  (∀ k' r g, (k', r) ∈ m → k' < k → n !! r = Some g → timed_out post g = false) →
  ∃ rest, late n post [] m = p :: rest.
Proof.
  unfold ascending. induction m as [|[k1 r] m IH]; [by intros _ ?%elem_of_nil|]. cbn [fmap list_fmap fst].
  intros [Hs Hall]%StronglySorted_inv [[= <- <-]|Hin]%elem_of_cons He Ht Hlow; rewrite late_cons, bool_decide_false by apply not_elem_of_nil.
  - rewrite He, Ht. by eexists.
  - destruct IH as [rest E]; [done..|intros k' r' g H'; eapply Hlow; by right|]. rewrite E.
    assert (k1 < k) as Hlt. { rewrite Forall_forall in Hall. apply Hall, list_elem_of_fmap. by exists (k, p). }
    destruct (n !! r) as [g|] eqn:Eg; [|by eexists]. rewrite (Hlow k1 r g) by (done || by left). by eexists.
Qed.

Fixpoint run (es : list event) (l : loop) : outcome loop :=
  match es with
  | [] => Ret l
  | e :: es => if enabled e l then '(_, l) ← step e l; run es l else Abort
  end.

Lemma loop_run_app es1 es2 l : run (es1 ++ es2) l = (l ← run es1 l; run es2 l).
Proof.
  revert l. induction es1 as [|e es1 IH]; intros l; cbn; [done|]. destruct (enabled e l); [|done].
  destruct (step e l) as [[u l1]| | |]; [|done..]. cbn. apply IH.
Qed.

(** A wait that ends, at a time, with nothing to report, and a callback that
    does nothing. *)
Definition quiet (post : Z) : list event := [EWait (Reported post [] post) []; EFlush []; ETop].

(** Each time comes after what waited for [t] milliseconds since the one before. *)
Fixpoint spaced (t a : Z) (posts : list Z) : Prop :=
  match posts with [] => True | post :: posts => a + t * ms < post ∧ spaced t post posts end.

(** Two [fdevent]s with the same timeout and last active at the same time, the one
    with the lowest descriptor of all that have a timeout. *)
Record together (l : loop) (p q : nat) (e f : fdevent) (t a : Z) : Prop := {
  g_at : at_ l = Waiting;
  g_queue : run_queue_ l = [];
  g_go : terminate_loop_ l = false;
  g_p : nodes l !! p = Some e;
  g_q : nodes l !! q = Some f;
  g_tp : timeout e = Some t;
  g_tq : timeout f = Some t;
  g_ap : last_active e = a;
  g_aq : last_active f = a;
  g_fds : fd e < fd f;
  g_low : ∀ r g, nodes l !! r = Some g → fd g < fd e → timeout g = None
}.

Lemma timed_out_after e t post : timeout e = Some t → last_active e + t * ms < post → timed_out post e = true.
Proof. unfold timed_out. intros -> H. by apply Z.ltb_lt. Qed.

Lemma quiet_turn p0 l p q e f t a post :
  inv p0 l → together l p q e f t a → a + t * ms < post →
  ∃ l', run (quiet post) l = Ret l' ∧ inv p0 l' ∧ done_ l' = done_ l ++ [Invoked (id e) FDE_TIMEOUT] ∧
    together l' p q (set_active post e) (set_active post f) t post.
Proof.
  intros Hi G Hpost. pose proof (i_core _ _ Hi) as Hc. pose proof (c_tables _ _ Hc) as Ht. destruct G as [Gat Gq Ggo Gp Gqq Gtp Gtq Gap Gaq Gf Glow].
  destruct (i_looper _ _ Hi ltac:(by rewrite Gat) ltac:(by rewrite Gat)) as [self Hs].
  assert (reported_ok p0 l []) as Hr.
  { constructor; [|constructor|by intros ? ? ?%elem_of_nil|by intros ? ?%elem_of_nil].
    pose proof (i_size _ _ Hi Gat). cbn. lia. }
  assert (∀ r g, nodes l !! r = Some g → (fd g, r) ∈ installed_fdevents_ l) as Hinst by (intros r g Hg; apply (t_fds _ _ _ _ Ht); eauto).
  destruct (late_first (nodes l) post (installed_fdevents_ l) (fd e) p e) as [rest El]; [apply Ht|by apply Hinst|done| | |].
  { eapply timed_out_after; [done|lia]. }
  { intros k r g (g' & Hg' & <-)%(t_fds _ _ _ _ Ht) Hlt Hg. rewrite Hg in Hg'. injection Hg' as <-. unfold timed_out. by rewrite (Glow r g). }
  assert (q ∈ late (nodes l) post [] (installed_fdevents_ l)) as Hq.
  { eapply (late_intro _ _ _ _ (fd f)); [by apply Hinst|apply not_elem_of_nil|done|]. eapply timed_out_after; [done|lia]. }
  assert (p ≠ p0) as Hp0.
  { intros ->. destruct (c_interrupt _ _ Hc) as (e0 & He0 & _ & Hto). congruence. }
  assert ((due l [] post).*1 = late (nodes l) post [] (installed_fdevents_ l)) as Edue by apply timeouts_fst.
  destruct (woken_node l [] post p e Gp) as (e' & He' & Hid & Hfunc).
  set (l1 := woken l [] post) in *.
  assert (step (EWait (Reported post [] post) []) l = Ret (tt, l1 <| done_ ::= λ d, d ++ [Invoked (id e) FDE_TIMEOUT] |> <| at_ := Flushing |>)) as Ew.
  { rewrite (step_wait p0 self) by done. fold l1.
    change (due l [] post) with ((λ p, (p, FDE_TIMEOUT)) <$> late (nodes l) post [] (installed_fdevents_ l)). rewrite El. cbn [head fmap list_fmap]. unfold invoke_fde.
    assert (fde_of p l1 = Ret (e', l1)) as Ef by (unfold fde_of, mbind, ST_bind, get, lift; by rewrite He').
    unfold mbind at 1, ST_bind at 1. rewrite (bind_then _ _ _ _ _ Ef). cbn. rewrite Hid, Hfunc.
    destruct (func e) eqn:E; [|done]. destruct Hp0. by apply (c_only _ _ Hc p e). }
  set (l2 := l1 <| done_ ::= _ |> <| at_ := Flushing |>) in Ew.
  assert (inv p0 l2) as Hi2.
  { eapply (partial_run _ (λ _ l', inv p0 l')); [|exact Ew]. apply inv_step; [done|cbn; by rewrite Gat|by split]. }
  assert (step (EFlush []) l2 = Ret (tt, l2 <| at_ := Top |>)) as Ef.
  { cbn. unfold FlushRunQueue, mbind, ST_bind, get. cbn. by rewrite Gq. }
  assert (inv p0 (l2 <| at_ := Top |>)) as Hi3.
  { eapply (partial_run _ (λ _ l', inv p0 l')); [|exact Ef]. apply inv_step; [done|done|constructor]. }
  assert (∃ l4, step ETop (l2 <| at_ := Top |>) = Ret (tt, l4) ∧ at_ l4 = Waiting ∧ run_queue_ l4 = [] ∧ terminate_loop_ l4 = false ∧
    nodes l4 = nodes l1 ∧ done_ l4 = done_ l2) as (l4 & Et & A1 & A2 & A3 & A4 & A5).
  { eexists. split; [cbn; unfold mbind, ST_bind, get; cbn; by rewrite Ggo|]. done. }
  exists l4. split_and!.
  - cbn [run quiet]. cbn [enabled]. rewrite Gat. cbn [place_eqb]. rewrite Ew. mstep. cbn [place_eqb at_]. rewrite Ef. mstep. cbn [place_eqb at_]. by rewrite Et.
  - eapply (partial_run _ (λ _ l', inv p0 l')); [|exact Et]. by apply inv_step.
  - by rewrite A5.
  - assert (∀ r, nodes l4 !! r = if bool_decide (r ∈ late (nodes l) post [] (installed_fdevents_ l)) then set_active post <$> nodes l !! r else nodes l !! r) as Hn.
    { intros r. rewrite A4. subst l1. unfold woken. cbn [nodes]. rewrite Edue. apply touch_lookup. }
    constructor; [done..| | |done|done|done|done|done|].
    + rewrite Hn, Gp, bool_decide_true; [done|]. rewrite El. by left.
    + rewrite Hn, Gqq, bool_decide_true by done. done.
    + intros r g. rewrite Hn. case_bool_decide; [|apply Glow]. destruct (nodes l !! r) as [g'|] eqn:Eg; [|done]. intros [= <-]. exact (Glow r g' Eg).
Qed.

(** Timeouts may starve: of two [fdevent]s with the same timeout, started at the
    same time, whose descriptors stay quiet, only the one with the lower
    descriptor is ever told, however long the loop runs, although the time
    of the other one is over just as often; each time its clock is
    restarted as if it had been told ([HandleEvents] stops after the first event
    it delivers). *)
Theorem timeout_starves p0 l p q e f t a posts :
  reach p0 l → together l p q e f t a → spaced t a posts →
  ∃ l', run (concat (quiet <$> posts)) l = Ret l' ∧
    done_ l' = done_ l ++ ((λ _, Invoked (id e) FDE_TIMEOUT) <$> posts) ∧
    nodes l' !! q = Some (set_active (default a (last posts)) f).
Proof.
  intros Hr%reach_inv. revert l e f a Hr. induction posts as [|post posts IH]; intros l e f a Hi G Hs.
  - exists l. cbn. rewrite app_nil_r. split_and!; [done..|]. rewrite (g_q _ _ _ _ _ _ _ G). f_equal. rewrite <- (g_aq _ _ _ _ _ _ _ G).
    by destruct f.
  - destruct Hs as [Hs1 Hs]. destruct (quiet_turn _ _ _ _ _ _ _ _ _ Hi G Hs1) as (l1 & E1 & Hi1 & D1 & G1).
    destruct (IH l1 _ _ _ Hi1 G1 Hs) as (l' & E & D & N). exists l'. change (concat (quiet <$> post :: posts)) with (quiet post ++ concat (quiet <$> posts)).
    rewrite loop_run_app, E1. mstep. split_and!; [done| |].
    + rewrite D, D1, <- app_assoc. done.
    + rewrite N, last_cons. by destruct (last posts).
Qed.
End props.

(** ** Examples *)

(** The [eventfd] is descriptor 3; descriptors 5 and 6 are waited for, for a second. *)
Definition any_pollable : Pollable := λ _, true.
Definition sample_ops : list op :=
  [OpCreate 1 5 0; OpAdd 1 FDE_READ; OpSetTimeout 1 (Some 1000) 0; OpCreate 2 6 0; OpAdd 2 FDE_READ; OpSetTimeout 2 (Some 1000) 0].

Definition sample_start : loop :=
  match @fdevent_context_epoll any_pollable 1 0 3 empty_loop with Ret (_, l) => l | _ => empty_loop end.
Definition sample_loop (es : list event) : loop :=
  match @run any_pollable ([EOps 1 sample_ops; EStart 1; ETop] ++ es) sample_start with Ret l => l | _ => empty_loop end.

Lemma reach_run `{HPoll : !Pollable} p0 es : ∀ l l',
  reach p0 l → Forall (λ e, ∀ l, event_ok p0 l e) es → run es l = Ret l' → reach p0 l'.
Proof.
  induction es as [|e es IH]; intros l l' Hr Hok; cbn [run]; [by intros [= <-]|]. apply Forall_cons in Hok as [He Hok].
  destruct (enabled e l) eqn:En; [|done]. destruct (step e l) as [[[] l1]| | |] eqn:Es; [|done..]. mstep. intros E.
  eapply IH; [|done|exact E]. by eapply reach_step.
Qed.

Lemma loop_sample_reach : @reach any_pollable 0 (sample_loop []).
Proof.
  eapply (reach_run 0 ([EOps 1 sample_ops; EStart 1; ETop] ++ []) sample_start).
  - apply (reach_start 0 1 3). vm_compute. reflexivity.
  - repeat first [apply Forall_cons; split | apply Forall_nil; exact I | intros ?; cbn]; done.
  - vm_compute. reflexivity.
Qed.

Lemma sample_reported : reported_ok 0 (sample_loop []) [(1%nat, EPOLLIN)].
Proof.
  constructor.
  - vm_compute. discriminate.
  - apply NoDup_singleton.
  - intros p mask [[= -> ->]|?%elem_of_nil]%elem_of_cons; [|done]. exists 5, (interest true false false).
    split; [vm_compute; reflexivity|]. by split.
  - by intros mask [[= ->]|?%elem_of_nil]%elem_of_cons.
Qed.


(** A function is queued while the loop waits. *)
Lemma run_queue_served_witness :
  queued (sample_loop [EPush 7]) = [7%nat] ∧ (0 < eventfd (sample_loop [EPush 7]) ∨ (0 < interrupting (sample_loop [EPush 7]))%nat).
Proof.
  assert (@reach any_pollable 0 (sample_loop [EPush 7])) as Hr.
  { eapply reach_step with (e := EPush 7); [exact loop_sample_reach|done|done|vm_compute; reflexivity]. }
  destruct (@run_queue_served any_pollable 0 (sample_loop [EPush 7]) Hr) as [H1 H2].
  split; [rewrite H1; vm_compute; reflexivity|]. apply H2; [right; vm_compute; reflexivity|]. vm_compute. discriminate.
Defined.

Lemma timeout_starves_witness :
  ∃ l', @run any_pollable (concat (quiet <$> [1000000001; 2000000002; 3000000003])) (sample_loop []) = Ret l' ∧
    done_ l' = [Invoked 1 FDE_TIMEOUT; Invoked 1 FDE_TIMEOUT; Invoked 1 FDE_TIMEOUT].
Proof.
  destruct (@timeout_starves any_pollable 0 (sample_loop []) 1 2 (Fdevent 1 5 1 (Some 1000) 0 (user_callback 0))
    (Fdevent 2 6 1 (Some 1000) 0 (user_callback 0)) 1000 0 [1000000001; 2000000002; 3000000003] loop_sample_reach) as (l' & E & D & _).
  - constructor; try (vm_compute; reflexivity).
    intros r g Hg Hlt. assert (g ∈ (map_to_list (nodes (sample_loop []))).*2) as Hin.
    { apply list_elem_of_fmap. exists (r, g). split; [done|]. by apply elem_of_map_to_list. }
    match type of Hin with _ ∈ ?x => let v := eval vm_compute in x in replace x with v in Hin by (vm_compute; reflexivity) end.
    rewrite !elem_of_cons, elem_of_nil in Hin. by destruct Hin as [-> | [-> | [-> | []]]].
  - repeat split.
  - exists l'. split; [exact E|]. rewrite D. vm_compute. reflexivity.
Defined.
