(* ===== verification/Reconnect.v ===== *)
(** * Reconnection of transports: class [ReconnectHandler] of [adb/transport.cpp]

    When the connection to a device over TCP breaks, the server's main thread hands
    the transport to a thread of its own, which tries to connect again, some times,
    and has the main thread register or remove the transport in the end.

    A step of the model is a critical section of [reconnect_mutex_], the result of a
    connection attempt, or a notification of the condition variable.  A waiting thread
    may also wake up for no reason, as condition variables allow.  Times are in
    milliseconds. *)

From stdpp Require Import gmap.
From S2P Require Import Prelude.
Local Open Scope Z_scope.
Local Open Scope record_scope.

Module RH.

Record attempt := Attempt { transport : nat; reconnect_time : Z; attempts_left : Z }.

Definition kDefaultTimeout : Z := 3000.
Definition kMaxAttempts : Z := 20.

(** [operator<]; transports are compared by address. *)
Definition before (a b : attempt) : bool :=
  if reconnect_time a =? reconnect_time b then (transport a <? transport b)%nat
  else reconnect_time a <? reconnect_time b.

(** [std::set<ReconnectAttempt>]: an element equivalent to one that is there is
    not inserted. *)
Fixpoint emplace (a : attempt) (q : list attempt) : list attempt :=
  match q with
  | [] => [a]
  | b :: q' => if before a b then a :: q else if before b a then b :: emplace a q' else q
  end.

Inductive ReconnectResult := Retry | Success | AbortAttempt.

(** What the main thread is asked to do, by [fdevent_run_on_looper]. *)
Inductive request := Register (t : nat) | Remove (t : nat).
Definition subject (r : request) : nat := match r with Register t | Remove t => t end.

(** Where the thread is: not started, about to take the mutex at the head of the
    loop, waiting until some time, awake again, in [Reconnect], gone. *)
Inductive thread := NotStarted | AtTop | Asleep (until : option Z) | Awake | Reconnecting (a : attempt) | Gone.

(** Where the main thread is in [Stop]: not called, [running_] cleared,
    notified and joining, returned. *)
Inductive stopper := NoStop | Flagged | Joining | Stopped.

Record handler := Handler {
  running_ : bool;
  reconnect_queue_ : list attempt;
  handler_thread_ : thread;
  stop_ : stopper;
  kicked_ : gset nat;                 (* the transports that were kicked *)
  notifying : nat;                    (* calls about to do [notify_one] *)
  requests : list request;
  accepted : list nat;                (* the transports [TrackTransport] has taken *)
  tries : Z                           (* calls of [Reconnect] *)
}.
#[global] Instance eta_handler : Eta handler :=
  rd_pure Handler <%> running_ <%> reconnect_queue_ <%> handler_thread_ <%> stop_ <%> kicked_ <%> notifying
    <%> requests <%> accepted <%> tries.
#[global] Instance upd_running : Update running_. Proof. mk_update. Defined.
#[global] Instance upd_queue : Update reconnect_queue_. Proof. mk_update. Defined.
#[global] Instance upd_thread : Update handler_thread_. Proof. mk_update. Defined.
#[global] Instance upd_stop : Update stop_. Proof. mk_update. Defined.
#[global] Instance upd_kicked : Update kicked_. Proof. mk_update. Defined.
#[global] Instance upd_notifying : Update notifying. Proof. mk_update. Defined.
#[global] Instance upd_requests : Update requests. Proof. mk_update. Defined.
#[global] Instance upd_accepted : Update accepted. Proof. mk_update. Defined.
#[global] Instance upd_tries : Update tries. Proof. mk_update. Defined.

Definition new_handler : handler := Handler true [] NotStarted NoStop ∅ 0 [] [] 0.

Definition register_transport (t : nat) (h : handler) : handler := h <| requests ::= λ r, r ++ [Register t] |>.
Definition remove_transport (t : nat) (h : handler) : handler := h <| requests ::= λ r, r ++ [Remove t] |>.

Definition notify_one (h : handler) : handler :=
  match handler_thread_ h with Asleep _ => h <| handler_thread_ := Awake |> | _ => h end.

(** ** The main thread *)

Definition Start (h : handler) : option handler :=
  match handler_thread_ h, stop_ h with
  | NotStarted, NoStop => Some (h <| handler_thread_ := AtTop |>)
  | _, _ => None
  end.

Definition TrackTransport (t : nat) (now : Z) (h : handler) : handler :=
  if negb (running_ h) then h
  else h <| reconnect_queue_ ::= emplace (Attempt t (now + 250) kMaxAttempts) |>
         <| accepted ::= λ l, l ++ [t] |> <| notifying ::= S |>.

Definition CheckForKicked (h : handler) : handler := notify_one h.

(** [atransport::Kick] sets the flag; [CheckForKicked] follows. *)
Definition Kick (t : nat) (h : handler) : handler := h <| kicked_ ::= λ k, {[t]} ∪ k |> <| notifying ::= S |>.

Fixpoint drain (q : list attempt) (h : handler) : handler :=
  match q with
  | [] => h <| reconnect_queue_ := [] |>
  | a :: q => drain q (remove_transport (transport a) h)
  end.

(** [Stop], up to the next point where it waits or another thread may run; a
    thread that was never started cannot be joined. *)
Definition Stop (h : handler) : option handler :=
  match stop_ h, handler_thread_ h with
  | NoStop, NotStarted => None
  | NoStop, _ => Some (h <| running_ := false |> <| stop_ := Flagged |>)
  | Flagged, _ => Some (notify_one (h <| stop_ := Joining |>))
  | Joining, Gone => Some (drain (reconnect_queue_ h) (h <| stop_ := Stopped |>))
  | _, _ => None
  end.

(** ** The thread *)

(** The head of [Run]: the mutex is released by the wait. *)
Definition fall_asleep (h : handler) : handler :=
  h <| handler_thread_ := Asleep (match reconnect_queue_ h with a :: _ => Some (reconnect_time a) | [] => None end) |>.

(** The scan for kicked transports. *)
Fixpoint scan (q : list attempt) (h : handler) : handler :=
  match q with
  | [] => h <| reconnect_queue_ := [] |>
  | a :: q =>
      if bool_decide (transport a ∈ kicked_ h) then scan q (remove_transport (transport a) h)
      else (scan q h) <| reconnect_queue_ ::= cons a |>
  end.

(** From the wait to the end of the critical section. *)
Definition awake (now : Z) (h : handler) : handler :=
  if negb (running_ h) then h <| handler_thread_ := Gone |>
  else
    let h := scan (reconnect_queue_ h) h in
    match reconnect_queue_ h with
    | [] => h <| handler_thread_ := AtTop |>
    | a :: q =>
        if now <? reconnect_time a then h <| handler_thread_ := AtTop |>
        else h <| reconnect_queue_ := q |> <| handler_thread_ := Reconnecting a |> <| tries ::= Z.succ |>
    end.

Definition finish (a : attempt) (r : ReconnectResult) (now : Z) (h : handler) : handler :=
  (match r with
   | Retry =>
       if attempts_left a =? 0 then remove_transport (transport a) h
       else h <| reconnect_queue_ ::= emplace (Attempt (transport a) (now + kDefaultTimeout) (u64 (attempts_left a - 1))) |>
   | Success => register_transport (transport a) h
   | AbortAttempt => remove_transport (transport a) h
   end) <| handler_thread_ := AtTop |>.

(** ** Steps *)

Inductive event :=
| EStart
| ETrack (t : nat) (now : Z)
| EKick (t : nat)
| ENotify                             (* the [notify_one] of a call *)
| EStop
| ESleep
| ETimeout (now : Z)                  (* the wait is over *)
| ESpurious
| EAwake (now : Z)
| EResult (r : ReconnectResult) (now : Z).

Definition is_stopping (h : handler) : bool := match stop_ h with Flagged | Joining => true | _ => false end.

(** [None] when the step cannot be taken.  The main thread, which tracks
    transports, is inside [Stop] while that runs. *)
Definition step (e : event) (h : handler) : option handler :=
  match e with
  | EStart => Start h
  | ETrack t now => if is_stopping h then None else Some (TrackTransport t now h)
  | EKick t => Some (Kick t h)
  | ENotify => match notifying h with O => None | S n => Some (CheckForKicked (h <| notifying := n |>)) end
  | EStop => Stop h
  | ESleep => match handler_thread_ h with AtTop => Some (fall_asleep h) | _ => None end
  | ETimeout now =>
      match handler_thread_ h with
      | Asleep (Some t) => if now <? t then None else Some (h <| handler_thread_ := Awake |>)
      | _ => None
      end
  | ESpurious => match handler_thread_ h with Asleep _ => Some (h <| handler_thread_ := Awake |>) | _ => None end
  | EAwake now => match handler_thread_ h with Awake => Some (awake now h) | _ => None end
  | EResult r now => match handler_thread_ h with Reconnecting a => Some (finish a r now h) | _ => None end
  end.

Fixpoint run (es : list event) (h : handler) : option handler :=
  match es with [] => Some h | e :: es => match step e h with Some h => run es h | None => None end end.
End RH.
