(* ===== verification/ReconnectFacts.v ===== *)
(** * Facts about the reconnection of transports

    The queue as a sorted list without duplicates, the loops as filters, and the
    invariant of every interleaving.  The theorems at the end say what follows: no
    transport is lost or handled twice; the number of attempts is bounded; kicked
    transports are given up and the earliest attempt comes first; and [Stop] may
    wait for ever. *)

From stdpp Require Import gmap sorting.
From S2P Require Import Prelude Reconnect.
Import RH.
Local Open Scope Z_scope.
Local Open Scope record_scope.

Implicit Types (h : handler) (a b : attempt) (q : list attempt).

(** ** The queue *)

Lemma before_total a b : transport a ≠ transport b → before a b = false → before b a = true.
Proof.
  intros Hne. unfold before. rewrite (Z.eqb_sym (reconnect_time b)). destruct (Z.eqb_spec (reconnect_time a) (reconnect_time b)) as [E|E].
  - intros H%Nat.ltb_ge. apply Nat.ltb_lt. lia.
  - intros H%Z.ltb_ge. apply Z.ltb_lt. lia.
Qed.

Lemma before_time a b : before a b = true → reconnect_time a ≤ reconnect_time b.
Proof. unfold before. destruct (Z.eqb_spec (reconnect_time a) (reconnect_time b)); [lia|]. intros H%Z.ltb_lt. lia. Qed.

Lemma queue_perm a q : transport a ∉ transport <$> q → emplace a q ≡ₚ a :: q.
Proof.
  induction q as [|b q IH]; cbn; [done|]. intros [Hne Hn]%not_elem_of_cons. destruct (before a b) eqn:E; [done|].
  rewrite (before_total a b) by done. rewrite IH by done. apply Permutation_swap.
Qed.

(** By time *)
Definition by_time q : Prop := StronglySorted (λ a b, reconnect_time a ≤ reconnect_time b) q.

Lemma by_time_emplace a q : by_time q → by_time (emplace a q).
Proof.
  unfold by_time. induction q as [|b q IH]; cbn; intros Hs; [by repeat constructor|].
  pose proof Hs as [Hs1 Hall]%StronglySorted_inv. destruct (before a b) eqn:E.
  - apply before_time in E. constructor; [done|]. constructor; [done|]. eapply Forall_impl; [exact Hall|]. cbn. lia.
  - destruct (before b a) eqn:E'; [|done]. constructor; [by apply IH|]. apply before_time in E'.
    clear -Hall E'. induction q as [|c q IH]; cbn; [by constructor|]. apply Forall_cons in Hall as [Hc Hall].
    destruct (before a c); [by repeat constructor|]. destruct (before c a); [|by constructor]. constructor; [done|by apply IH].
Qed.

Lemma by_time_filter (P : attempt → Prop) `{!∀ a, Decision (P a)} q : by_time q → by_time (filter P q).
Proof.
  unfold by_time. induction q as [|a q IH]; [done|]. intros [Hs Hall]%StronglySorted_inv. rewrite filter_cons.
  destruct (decide (P a)); [|by apply IH]. constructor; [by apply IH|]. rewrite Forall_forall in Hall |- *.
  intros x [_ Hx]%list_elem_of_filter. by apply Hall.
Qed.

(** ** The loops *)

Lemma drain_spec q h : drain q h = h <| requests := requests h ++ (Remove <$> (transport <$> q)) |> <| reconnect_queue_ := [] |>.
Proof.
  revert h. induction q as [|a q IH]; intros h; cbn [drain].
  - destruct h. cbn. by rewrite app_nil_r.
  - rewrite IH. unfold remove_transport. destruct h. cbn. by rewrite <- app_assoc.
Qed.

Lemma scan_spec q h :
  scan q h = h <| requests := requests h ++ (Remove <$> (transport <$> filter (λ a, transport a ∈ kicked_ h) q)) |>
               <| reconnect_queue_ := filter (λ a, transport a ∉ kicked_ h) q |>.
Proof.
  revert h. induction q as [|a q IH]; intros h; cbn [scan].
  - destruct h. cbn. by rewrite app_nil_r.
  - rewrite !filter_cons. case_bool_decide as Hk.
    + rewrite (decide_True (P := transport a ∈ kicked_ h)) by done. rewrite (decide_False (P := transport a ∉ kicked_ h)) by (intros H; by apply H).
      rewrite IH. unfold remove_transport. destruct h. cbn. by rewrite <- app_assoc.
    + rewrite (decide_False (P := transport a ∈ kicked_ h)) by done. rewrite (decide_True (P := transport a ∉ kicked_ h)) by done. rewrite IH. by destruct h.
Qed.

Lemma split_kicked (k : gset nat) q : q ≡ₚ filter (λ a, transport a ∉ k) q ++ filter (λ a, transport a ∈ k) q.
Proof.
  induction q as [|a q IH]; [done|]. rewrite !filter_cons. destruct (decide (transport a ∈ k)) as [Hk|Hk].
  - rewrite (decide_False (P := transport a ∉ k)) by (intros H; by apply H). rewrite <- Permutation_middle. by constructor.
  - rewrite (decide_True (P := transport a ∉ k)) by done. cbn. by constructor.
Qed.

(** ** The invariant *)

Definition in_hand h : list attempt := match handler_thread_ h with Reconnecting a => [a] | _ => [] end.
Definition pending h : list nat := (transport <$> reconnect_queue_ h) ++ (transport <$> in_hand h).

(** The attempts that are left for a queue *)
Definition sum_left q : Z := foldr (λ a n, attempts_left a + 1 + n) 0 q.
#[local] Arguments sum_left : simpl never.
Lemma sum_left_cons a q : sum_left (a :: q) = attempts_left a + 1 + sum_left q.
Proof. done. Qed.

Definition budget h : Z := sum_left (reconnect_queue_ h) + foldr (λ a n, attempts_left a + n) 0 (in_hand h).

Record inv h : Prop := {
  v_conserved : accepted h ≡ₚ pending h ++ (subject <$> requests h);
  v_once : NoDup (pending h);
  v_sorted : by_time (reconnect_queue_ h);
  v_left : Forall (λ a, 0 ≤ attempts_left a ≤ kMaxAttempts) (reconnect_queue_ h ++ in_hand h);
  v_tries : tries h + budget h ≤ (kMaxAttempts + 1) * zlen (accepted h);
  v_stop : stop_ h ≠ NoStop → running_ h = false;
  v_gone : handler_thread_ h = Gone → running_ h = false;
  v_stopped : stop_ h = Stopped → handler_thread_ h = Gone ∧ reconnect_queue_ h = [];
  v_started : handler_thread_ h = NotStarted → stop_ h = NoStop
}.

(** A transport is not handed over while it is being reconnected. *)
Definition event_ok h (e : event) : Prop := match e with ETrack t _ => t ∉ pending h | _ => True end.

Inductive reach : handler → Prop :=
| reach_new : reach new_handler
| reach_step h e h' : reach h → event_ok h e → step e h = Some h' → reach h'.

Lemma sum_left_perm q q' : q ≡ₚ q' → sum_left q = sum_left q'.
Proof. unfold sum_left. induction 1; cbn [foldr]; lia. Qed.

Lemma sum_left_app q q' : sum_left (q ++ q') = sum_left q + sum_left q'.
Proof. unfold sum_left. induction q as [|a q IH]; cbn [app foldr]; [lia|]. rewrite IH. lia. Qed.

Lemma sum_left_nonneg q : Forall (λ a, 0 ≤ attempts_left a ≤ kMaxAttempts) q → 0 ≤ sum_left q.
Proof. unfold sum_left. induction 1; cbn [foldr]; lia. Qed.

(** A step that concerns the thread alone, away from an attempt *)
Lemma inv_thread h th :
  inv h → in_hand h = [] → (∀ a, th ≠ Reconnecting a) → th ≠ Gone → th ≠ NotStarted → handler_thread_ h ≠ Gone →
  inv (h <| handler_thread_ := th |>).
Proof.
  intros [A1 A2 A3 A4 A5 A6 A7 A8 A9] Hh Hr Hg Hn Hng.
  assert (in_hand (h <| handler_thread_ := th |>) = []) as E by (unfold in_hand; cbn; by destruct th; try destruct (Hr a)).
  constructor; unfold pending, budget in *; rewrite ?E, ?Hh in *; cbn in *; try done. intros Hs. by destruct (A8 Hs).
Qed.

Lemma inv_notify h : inv h → inv (notify_one h).
Proof.
  intros H. unfold notify_one. destruct (handler_thread_ h) eqn:E; try done. apply inv_thread; rewrite ?E; try done. unfold in_hand. by rewrite E.
Qed.

(** Only ghost and bookkeeping fields change. *)
Lemma inv_fields h h' :
  inv h → reconnect_queue_ h' = reconnect_queue_ h → handler_thread_ h' = handler_thread_ h → requests h' = requests h →
  accepted h' = accepted h → tries h' = tries h → running_ h' = running_ h → stop_ h' = stop_ h → inv h'.
Proof.
  intros [A1 A2 A3 A4 A5 A6 A7 A8 A9] E1 E2 E3 E4 E5 E6 E7.
  constructor; unfold pending, budget, in_hand in *; rewrite ?E1, ?E2, ?E3, ?E4, ?E5, ?E6, ?E7; done.
Qed.

Lemma inv_track h t now : inv h → is_stopping h = false → t ∉ pending h → inv (TrackTransport t now h).
Proof.
  intros Hi Hns Ht. unfold TrackTransport. destruct (running_ h) eqn:Er; [|done]. cbn [negb]. pose proof Hi as [A1 A2 A3 A4 A5 A6 A7 A8 A9].
  set (a := Attempt t (now + 250) kMaxAttempts). set (h' := h <| reconnect_queue_ ::= _ |> <| accepted ::= _ |> <| notifying ::= _ |>).
  assert (emplace a (reconnect_queue_ h) ≡ₚ a :: reconnect_queue_ h) as Hp.
  { apply queue_perm. intros H. apply Ht. unfold pending. apply elem_of_app. by left. }
  assert (pending h' ≡ₚ t :: pending h) as Hpend by (unfold pending, in_hand; cbn; by rewrite Hp).
  constructor.
  - rewrite Hpend. cbn. rewrite A1. apply Permutation_app_comm.
  - rewrite Hpend. by constructor.
  - by apply by_time_emplace.
  - cbn. rewrite Hp. constructor; [done|exact A4].
  - cbn. rewrite length_app. unfold budget, in_hand in *. cbn. rewrite (sum_left_perm _ _ Hp), sum_left_cons. unfold kMaxAttempts in *. cbn. lia.
  - intros Hs. by rewrite (A6 Hs) in Er.
  - intros Hg. by rewrite (A7 Hg) in Er.
  - cbn. intros Hs. assert (stop_ h ≠ NoStop) as Hne by by rewrite Hs. by rewrite (A6 Hne) in Er.
  - exact A9.
Qed.

Lemma inv_stop h h' : inv h → Stop h = Some h' → inv h'.
Proof.
  intros Hi. unfold Stop. pose proof Hi as [A1 A2 A3 A4 A5 A6 A7 A8 A9]. destruct (stop_ h) eqn:Es.
  - assert (handler_thread_ h ≠ NotStarted → inv (h <| running_ := false |> <| stop_ := Flagged |>)) as H.
    { intros Hn. constructor; cbn; try done. }
    destruct (handler_thread_ h); [done|intros [= <-]; by apply H..].
  - intros [= <-]. apply inv_notify. constructor; cbn; try done; [intros _; by apply A6|]. intros Hn. by specialize (A9 Hn).
  - destruct (handler_thread_ h) eqn:Et; try done. intros [= <-]. rewrite drain_spec.
    unfold pending, budget, in_hand in *. rewrite Et in *. cbn in *.
    constructor; unfold pending, budget, in_hand; cbn; rewrite ?Et; cbn.
    + rewrite A1, fmap_app, app_nil_r. rewrite <- (list_fmap_compose Remove subject). rewrite list_fmap_id. apply Permutation_app_comm.
    + constructor.
    + constructor.
    + constructor.
    + rewrite app_nil_r in A4. pose proof (sum_left_nonneg _ A4). change (sum_left []) with 0. lia.
    + intros _. by apply A7.
    + done.
    + done.
    + done.
  - done.
Qed.

Lemma budget_nonneg h : Forall (λ a, 0 ≤ attempts_left a ≤ kMaxAttempts) (reconnect_queue_ h ++ in_hand h) → 0 ≤ budget h.
Proof.
  intros [Hq%sum_left_nonneg Hh]%Forall_app. unfold budget. revert Hh. induction 1; cbn [foldr]; lia.
Qed.

Lemma inv_awake h now : inv h → handler_thread_ h = Awake → inv (awake now h).
Proof.
  intros Hi Et. pose proof Hi as [A1 A2 A3 A4 A5 A6 A7 A8 A9]. unfold awake. destruct (running_ h) eqn:Er; cbn [negb].
  2: { constructor; unfold pending, budget, in_hand in *; rewrite ?Et in *; cbn in *; try done. intros Hs. by destruct (A8 Hs). }
  rewrite scan_spec. set (live := filter (λ a, transport a ∉ kicked_ h) (reconnect_queue_ h)).
  set (dead := filter (λ a, transport a ∈ kicked_ h) (reconnect_queue_ h)).
  pose proof (split_kicked (kicked_ h) (reconnect_queue_ h)) as Hsplit. fold live dead in Hsplit.
  assert (by_time live) as Hlive by by apply by_time_filter.
  unfold pending, budget, in_hand in A1, A2, A4, A5. rewrite Et in *. cbn [fmap list_fmap app foldr] in A1, A2, A4, A5. rewrite app_nil_r in A1, A2, A4.
  rewrite Hsplit in A1, A2, A4. rewrite (sum_left_perm _ _ Hsplit), sum_left_app in A5. rewrite fmap_app in A1, A2.
  apply NoDup_app in A2 as (A2 & _ & _). apply Forall_app in A4 as [A4 A4'].
  pose proof (sum_left_nonneg _ A4') as Hdead.
  assert (accepted h ≡ₚ (transport <$> live) ++ (subject <$> requests h ++ (Remove <$> (transport <$> dead)))) as Hacc.
  { rewrite A1, (fmap_app subject), <- (list_fmap_compose Remove subject), list_fmap_id, <- !app_assoc. f_equiv. apply Permutation_app_comm. }
  assert (stop_ h = NoStop) as Es.
  { destruct (stop_ h) eqn:Es; [done|exfalso..]; by specialize (A6 ltac:(done)). }
  destruct live as [|a q] eqn:El; cbn [reconnect_queue_].
  - constructor; unfold pending, budget, in_hand; cbn; rewrite ?app_nil_r; try done; [|by rewrite Es]. change (sum_left []) with 0 in *. lia.
  - match goal with |- context [reconnect_queue_ ?h1] => change (reconnect_queue_ h1) with (a :: q) end. cbn match.
    destruct (now <? reconnect_time a).
    + constructor; unfold pending, budget, in_hand; cbn [reconnect_queue_ handler_thread_ fmap list_fmap app foldr]; cbn -[sum_left];
        rewrite ?app_nil_r; try done; [unfold kMaxAttempts in *; lia|by rewrite Es].
    + cbn [fmap list_fmap] in A2, Hacc. apply NoDup_cons in A2 as [Hn A2]. apply Forall_cons in A4 as [Ha A4].
      apply StronglySorted_inv in Hlive as [Hq _]. rewrite sum_left_cons in A5.
      constructor; unfold pending, budget, in_hand; cbn; try done.
      * rewrite Hacc. rewrite <- (Permutation_middle _ []), app_nil_r. done.
      * apply NoDup_app. split_and!; [done| |apply NoDup_singleton]. intros x Hx ->%list_elem_of_singleton. done.
      * apply Forall_app. split; [done|]. by apply Forall_singleton.
      * lia.
      * by rewrite Es.
Qed.

Lemma inv_finish h a r now : inv h → handler_thread_ h = Reconnecting a → inv (finish a r now h).
Proof.
  intros Hi Et. pose proof Hi as [A1 A2 A3 A4 A5 A6 A7 A8 A9].
  unfold pending, budget, in_hand in A1, A2, A4, A5. rewrite Et in *. cbn [fmap list_fmap foldr] in A1, A2, A4, A5.
  apply NoDup_app in A2 as (A2 & A2' & _). apply Forall_app in A4 as [A4 Ha]. apply Forall_cons in Ha as [Ha _].
  assert (stop_ h ≠ Stopped) as Hns by (intros Hs; by destruct (A8 Hs)).
  assert (∀ req, subject req = transport a → inv (h <| requests ::= λ l, l ++ [req] |> <| handler_thread_ := AtTop |>)) as Hend.
  { intros req Hreq. constructor; unfold pending, budget, in_hand; cbn; rewrite ?app_nil_r; try done; [|lia].
    rewrite A1, fmap_app. cbn. rewrite Hreq, <- app_assoc. f_equiv. apply Permutation_app_comm. }
  unfold finish. destruct r; [|by apply Hend|by apply Hend].
  destruct (Z.eqb_spec (attempts_left a) 0) as [E0|E0]; [by apply Hend|].
  set (b := Attempt (transport a) (now + kDefaultTimeout) (u64 (attempts_left a - 1))).
  assert (emplace b (reconnect_queue_ h) ≡ₚ b :: reconnect_queue_ h) as Hp.
  { apply queue_perm. cbn. intros H. apply (A2' _ H). by left. }
  assert (attempts_left b = attempts_left a - 1) as Eb by (cbn; apply u64_small; unfold kMaxAttempts in Ha; lia).
  constructor; unfold pending, budget, in_hand; cbn; rewrite ?app_nil_r; try done.
  - rewrite Hp, A1. cbn. rewrite <- (Permutation_middle _ []), app_nil_r. done.
  - rewrite Hp. cbn. constructor; [|done]. intros H. apply (A2' _ H). by left.
  - by apply by_time_emplace.
  - rewrite Hp. constructor; [rewrite Eb; lia|done].
  - rewrite (sum_left_perm _ _ Hp), sum_left_cons, Eb. lia.
Qed.

Lemma rh_step h e h' : inv h → event_ok h e → step e h = Some h' → inv h'.
Proof.
  intros Hi Hok. destruct e as [|t now|t| | | |now| |now|r now]; cbn [step event_ok] in *.
  - unfold Start. destruct (handler_thread_ h) eqn:E; try done. destruct (stop_ h) eqn:Es; [|done..]. intros [= <-].
    apply inv_thread; rewrite ?E; try done. unfold in_hand. by rewrite E.
  - destruct (is_stopping h) eqn:E; [done|]. intros [= <-]. by apply inv_track.
  - intros [= <-]. by eapply inv_fields.
  - destruct (notifying h) as [|n]; [done|]. intros [= <-]. apply inv_notify. by eapply inv_fields.
  - by apply inv_stop.
  - destruct (handler_thread_ h) eqn:E; try done. intros [= <-]. unfold fall_asleep.
    apply inv_thread; rewrite ?E; try done. unfold in_hand. by rewrite E.
  - destruct (handler_thread_ h) as [| |[t|]| | |] eqn:E; try done. destruct (now <? t); [done|]. intros [= <-].
    apply inv_thread; rewrite ?E; try done. unfold in_hand. by rewrite E.
  - destruct (handler_thread_ h) eqn:E; try done. intros [= <-].
    apply inv_thread; rewrite ?E; try done. unfold in_hand. by rewrite E.
  - destruct (handler_thread_ h) eqn:E; try done. intros [= <-]. by apply inv_awake.
  - destruct (handler_thread_ h) eqn:E; try done. intros [= <-]. by apply inv_finish.
Qed.

Lemma rh_inv h : reach h → inv h.
Proof.
  induction 1 as [|h e h' _ IH Hok Hs]; [|by eapply rh_step].
  constructor; cbn; try done; constructor.
Qed.

(** A run of permitted events stays among the reachable states. *)
Fixpoint permitted (es : list event) h : bool :=
  match es with
  | [] => true
  | e :: es =>
      match e with ETrack t _ => negb (bool_decide (t ∈ pending h)) | _ => true end
      && match step e h with Some h' => permitted es h' | None => false end
  end.

Lemma reach_permitted es h : reach h → permitted es h = true → ∃ h', run es h = Some h' ∧ reach h'.
Proof.
  revert h. induction es as [|e es IH]; intros h Hr; cbn; [eauto|]. intros [He Hs]%andb_true_iff.
  destruct (step e h) as [h'|] eqn:E; [|done]. apply IH; [|done]. eapply reach_step; [exact Hr| |exact E].
  destruct e; try done. cbn. apply negb_true_iff in He. by apply bool_decide_eq_false in He.
Qed.

(** ** What the reconnection of transports guarantees *)

(** A device at 7 breaks; the thread takes it after its pause. *)
Definition sample_events : list event := [EStart; ESleep; ETrack 7 0; ENotify; EAwake 0; ESleep; ETimeout 250].
Definition sample : handler := default new_handler (run sample_events new_handler).

Lemma reach_sample es : permitted es new_handler = true → reach (default new_handler (run es new_handler)).
Proof. intros H. by destruct (reach_permitted es new_handler reach_new H) as (h & -> & Hr). Qed.

(** C19: No transport is lost or handled twice: in every interleaving of the main
    thread, the reconnecting thread and the kicks, the transports that
    [TrackTransport] has taken are those in the queue or in the thread's hands, each
    once, together with those the main thread was asked to register or to remove, as
    often as they were taken; once [Stop] has returned, every one has been answered
    for. *)
Theorem reconnect_conserves h :
  reach h →
  accepted h ≡ₚ pending h ++ (subject <$> requests h) ∧ NoDup (pending h) ∧
  (stop_ h = Stopped → pending h = [] ∧ accepted h ≡ₚ (subject <$> requests h)).
Proof.
  intros [A1 A2 _ _ _ _ _ A8 _]%rh_inv. split_and!; [done..|]. intros Hs. destruct (A8 Hs) as [Et Eq].
  assert (pending h = []) as Ep by (unfold pending, in_hand; by rewrite Et, Eq). split; [done|]. by rewrite A1, Ep.
Qed.

Lemma reconnect_conserves_witness :
  let h := default new_handler (run [EStart; ETrack 7 0; ETrack 8 1; EStop; ESleep; EStop; EAwake 2; EStop] new_handler) in
  stop_ h = Stopped ∧ pending h = [] ∧ accepted h ≡ₚ (subject <$> requests h).
Proof.
  intros h. assert (reach h) as Hr by (apply reach_sample; vm_compute; reflexivity).
  destruct (reconnect_conserves h Hr) as (_ & _ & H). split; [vm_compute; reflexivity|]. apply H. vm_compute. reflexivity.
Defined.

(** C35: The attempts are bounded: in every interleaving the thread has called
    [Reconnect] at most [kMaxAttempts + 1] times for each time a transport was handed
    over, and [attempts_left] never wraps around below zero. *)
Theorem reconnect_bounded h :
  reach h →
  tries h ≤ (kMaxAttempts + 1) * zlen (accepted h) ∧
  Forall (λ a, 0 ≤ attempts_left a ≤ kMaxAttempts) (reconnect_queue_ h ++ in_hand h).
Proof.
  intros [_ _ _ A4 A5 _ _ _ _]%rh_inv. split; [|done]. pose proof (budget_nonneg h A4). lia.
Qed.

Lemma reconnect_bounded_witness :
  reach sample ∧ tries sample ≤ 21 * 1.
Proof.
  assert (reach sample) as Hr by (apply reach_sample; vm_compute; reflexivity). split; [exact Hr|].
  exact (proj1 (reconnect_bounded sample Hr)).
Defined.

(** The queue once the kicked transports are out of it *)
Definition live h : list attempt := filter (λ a, transport a ∉ kicked_ h) (reconnect_queue_ h).

Lemma awake_spec now h :
  running_ h = true →
  awake now h =
    (let h1 := h <| requests := requests h ++ (Remove <$> (transport <$> filter (λ a, transport a ∈ kicked_ h) (reconnect_queue_ h))) |>
                 <| reconnect_queue_ := live h |> in
     match live h with
     | [] => h1 <| handler_thread_ := AtTop |>
     | a :: q => if now <? reconnect_time a then h1 <| handler_thread_ := AtTop |>
                 else h1 <| reconnect_queue_ := q |> <| handler_thread_ := Reconnecting a |> <| tries ::= Z.succ |>
     end).
Proof. intros Hr. unfold awake. rewrite Hr. cbn [negb]. rewrite scan_spec. done. Qed.

(** A turn of the thread, woken while the handler runs: every kicked transport of
    the queue is removed; then either no attempt is due and the queue keeps the
    others, or exactly one attempt leaves the queue to be made, which was not kicked,
    is due, and has the earliest time of all. *)
Theorem reconnect_turn_correct h now h' :
  reach h → handler_thread_ h = Awake → running_ h = true → step (EAwake now) h = Some h' →
  requests h' = requests h ++ (Remove <$> (transport <$> filter (λ a, transport a ∈ kicked_ h) (reconnect_queue_ h))) ∧
  match handler_thread_ h' with
  | Reconnecting a =>
      a :: reconnect_queue_ h' = live h ∧ (transport a ∉ kicked_ h) ∧ reconnect_time a ≤ now ∧
      Forall (λ b, reconnect_time a ≤ reconnect_time b) (live h)
  | AtTop => reconnect_queue_ h' = live h ∧ Forall (λ b, now < reconnect_time b) (live h)
  | _ => False
  end.
Proof.
  intros [_ _ A3 _ _ _ _ _ _]%rh_inv Et Hr. cbn [step]. rewrite Et, awake_spec by done. intros [= <-].
  assert (by_time (live h)) as Hs by by apply by_time_filter.
  assert (Forall (λ a, transport a ∉ kicked_ h) (live h)) as Hk.
  { apply Forall_forall. intros a Ha. by apply list_elem_of_filter in Ha as [? _]. }
  destruct (live h) as [|a q] eqn:El; [by repeat split|].
  apply StronglySorted_inv in Hs as [_ Hs]. apply Forall_cons in Hk as [Hk _].
  destruct (Z.ltb_spec now (reconnect_time a)); (split; [done|]); cbn.
  - split; [done|]. constructor; [done|]. eapply Forall_impl; [exact Hs|]. cbn. lia.
  - split_and!; [done..|]. constructor; [lia|done].
Qed.

(** Two devices break, the second is disconnected by the user. *)
Definition sample_turn : handler :=
  default new_handler (run [EStart; ESleep; ETrack 7 0; ENotify; EAwake 0; ETrack 8 5; ESleep; EKick 8; ETimeout 300] new_handler).

Lemma reconnect_turn_correct_witness :
  ∃ h', step (EAwake 300) sample_turn = Some h' ∧ handler_thread_ h' = Reconnecting (Attempt 7 250 20) ∧ requests h' = [Remove 8] ∧
    Forall (λ b, 250 ≤ reconnect_time b) (live sample_turn).
Proof.
  assert (reach sample_turn) as Hr by (apply reach_sample; vm_compute; reflexivity).
  eexists. split; [vm_compute; reflexivity|].
  pose proof (reconnect_turn_correct sample_turn 300 _ Hr eq_refl eq_refl eq_refl) as [H1 H2].
  split; [reflexivity|]. split; [reflexivity|]. apply H2.
Defined.

(** The thread waits with nobody left to wake it: of the steps, only the spurious
    wake-up and the kick of some transport by another thread can be taken. *)
Definition stuck h : Prop :=
  stop_ h = Joining ∧ ∀ e h', step e h = Some h' → e = ESpurious ∨ ∃ t, e = EKick t.

(** C39: [Stop] can wait for ever: the thread waits on the condition variable without
    testing [running_] first, so when [Stop] is called during the last connection
    attempt its notification is lost.  Whatever the attempt gives, if the queue is
    empty after it the thread goes to sleep for ever and [Stop] stays in [join].  Were
    the thread asleep at the call, [Stop] would return and the queue be drained. *)
Theorem reconnect_stop_hangs h a r now :
  stop_ h = NoStop → notifying h = O → reconnect_queue_ h = [] →
  (handler_thread_ h = Reconnecting a → (r = Retry → attempts_left a = 0) →
   ∃ h', run [EStop; EStop; EResult r now; ESleep] h = Some h' ∧ stuck h') ∧
  (∀ until, handler_thread_ h = Asleep until →
   ∃ h', run [EStop; EStop; EAwake now; EStop] h = Some h' ∧ stop_ h' = Stopped).
Proof.
  destruct h as [rn q th st k n rq ac tr]. cbn. intros -> -> ->. split.
  - intros -> Hr.
    assert (∃ rq', finish a r now (Handler false [] (Reconnecting a) Joining k 0 rq ac tr) =
                   Handler false [] AtTop Joining k 0 (rq ++ rq') ac tr) as [rq' E].
    { unfold finish. destruct r; cbn; [rewrite Hr by done; cbn|..]; eauto. }
    exists (Handler false [] (Asleep None) Joining k 0 (rq ++ rq') ac tr). split.
    + transitivity (Some (fall_asleep (finish a r now (Handler false [] (Reconnecting a) Joining k 0 rq ac tr)))).
      * destruct r; cbn; reflexivity.
      * rewrite E. reflexivity.
    + split; [reflexivity|]. intros e h'. destruct e; cbn; try done; eauto.
  - intros ot ->. eexists. split; reflexivity.
Qed.

Definition sample_last : handler := default new_handler (run (sample_events ++ [EAwake 250]) new_handler).

Lemma reconnect_stop_hangs_witness :
  reach sample_last ∧ ∃ h', run [EStop; EStop; EResult Success 251; ESleep] sample_last = Some h' ∧ stuck h'.
Proof.
  split; [apply reach_sample; vm_compute; reflexivity|].
  assert (handler_thread_ sample_last = Reconnecting (Attempt 7 250 20)) as Et by (vm_compute; reflexivity).
  destruct (reconnect_stop_hangs sample_last (Attempt 7 250 20) Success 251) as [H _]; [vm_compute; reflexivity..|].
  apply H; [exact Et|discriminate].
Defined.
