(* ===== verification/IncrementalUtils.v ===== *)
(** * Files of an incremental installation: [adb/client/incremental_utils.cpp]

    The size of the tree of hashes of a file, the headers of its signature file, and
    which blocks of an APK to send first.  A file is its contents; reading it may
    fail at some offsets. *)

From S2P Require Import Prelude CString LibBase.
Local Open Scope Z_scope.

Module IU.

Definition kBlockSize : Z := 4096.
Definition kDigestSize : Z := 32.
Definition kMaxSignatureSize : Z := 8096.
Definition IDSIG : bytes := str ".idsig".

Definition s16 (z : Z) : Z := let w := z mod 2 ^ 16 in if w <? 2 ^ 15 then w else w - 2 ^ 16.

(** ** Reading files *)

Record handle := Handle { contents : bytes; faulty : Z → bool }.

Definition adb_pread (h : handle) (len off : Z) : option bytes :=
  if (off <? 0) || faulty h off then None else Some (ztake len (zdrop off (contents h))).

(** A little-endian integer of [n] bytes. *)
Definition le_val (bs : bytes) : Z := foldr (λ b v, byteZ b + 256 * v) 0 bs.
Definition signed (n v : Z) : Z := if v <? 2 ^ (8 * n - 1) then v else v - 2 ^ (8 * n).

(** [valueAt<T>] for a signed [T] of [n] bytes: all ones when it cannot be read. *)
Definition valueAt (n : Z) (h : handle) (offset : Z) : Z :=
  match adb_pread h n offset with
  | Some bs => if zlen bs =? n then signed n (le_val bs) else -1
  | None => -1
  end.

(** A file that is read sequentially: the handle and the position. *)
Abbreviation cursor := (handle * Z)%type.

(** [ReadFdExactly(fd, buf, len)] on a file *)
Definition read_file (len : Z) (c : cursor) : option bytes * cursor :=
  let (h, pos) := c in
  match adb_pread h len pos with
  | None => (None, c)
  | Some bs => (if zlen bs =? len then Some bs else None, (h, pos + zlen bs))
  end.

Definition read_int32 (c : cursor) : Z * cursor :=
  let (r, c) := read_file 4 c in
  (match r with Some bs => signed 4 (le_val bs) | None => -1 end, c).

(** [adb_lseek(fd, n, SEEK_CUR)] *)
Definition seek_cur (n : Z) (c : cursor) : Z * cursor :=
  let (h, pos) := c in
  if pos + n <? 0 then (-1, c) else (pos + n, (h, pos + n)).

Definition skip_int (c : cursor) : Z * cursor := let (r, c) := seek_cur 4 c in (s32 r, c).

Definition skip_bytes_with_size (c : cursor) : Z * cursor :=
  let (le_size, c) := read_int32 c in
  if le_size <? 0 then (-1, c)
  else let (r, c) := seek_cur le_size c in (s32 r, c).

Definition append_int (c : cursor) (bs : bytes) : bytes * cursor :=
  let (v, c) := read_int32 c in (bs ++ le32 v, c).

(** The bytes that are there when the read fails half-way are zero after [resize],
    so the ones that were read, and zeros. *)
Definition append_bytes_with_size (c : cursor) (bs : bytes) (bytes_left : Z) : option (bytes * Z) * cursor :=
  let (le_size, c) := read_int32 c in
  if le_size <? 0 then (None, c)
  else if bytes_left <? le_size then (None, c)
  else if le_size =? 0 then (Some (bs, bytes_left), c)
  else
    let got := match adb_pread (fst c) le_size (snd c) with Some b => b | None => [] end in
    let (_, c) := read_file le_size c in
    (Some (bs ++ le32 le_size ++ got ++ replicate (Z.to_nat (le_size - zlen got)) (Zbyte 0), bytes_left - le_size), c).

(** The signature, empty when it is not valid, and the size of the tree. *)
Definition read_id_sig_headers (c : cursor) : (bytes * Z) * cursor :=
  let (signature, c) := append_int c [] in
  let max_size := kMaxSignatureSize - 4 in
  let (r, c) := append_bytes_with_size c signature max_size in
  match r with
  | None => (([], 0), c)
  | Some (signature, max_size) =>
      let (r, c) := append_bytes_with_size c signature max_size in
      match r with
      | None => (([], 0), c)
      | Some (signature, _) => let (tree_size, c) := read_int32 c in ((signature, tree_size), c)
      end
  end.

(** The offset and the size of the tree.  The offset is added to a [size_t]. *)
Definition skip_id_sig_headers (c : cursor) : (Z * Z) * cursor :=
  let (_, c) := skip_int c in
  let (_, c) := skip_bytes_with_size c in
  let (offset, c) := skip_bytes_with_size c in
  let (tree_size, c) := read_int32 c in
  ((offset + 4, tree_size), c).

(** ** The tree of hashes *)

Fixpoint verity_loop (fuel : nat) (hash_block_count total : Z) : outcome Z :=
  if 1 <? hash_block_count then
    match fuel with
    | O => OutOfFuel
    | S fuel =>
        let hash_per_block := kBlockSize / kDigestSize in
        let hash_block_count := (hash_block_count + hash_per_block - 1) / hash_per_block in
        verity_loop fuel hash_block_count (total + hash_block_count)
    end
  else Ret total.

(** Each turn divides the count by 128. *)
Definition VERITY_FUEL : nat := 10.

Definition verity_tree_blocks_for_file (fileSize : Z) : outcome Z :=
  if fileSize =? 0 then Ret 0
  else verity_loop VERITY_FUEL (1 + Z.quot (fileSize - 1) kBlockSize) 0.

Definition verity_tree_size_for_file (fileSize : Z) : outcome Z :=
  n ← verity_tree_blocks_for_file fileSize; Ret (n * kBlockSize).

(** ** The blocks that come first *)

Definition offsetToBlockIndex (offset : Z) : Z := s32 (Z.shiftr (Z.land offset (Z.lnot (kBlockSize - 1))) 12).

(** [start], [start + 1], ...: [count] numbers *)
Fixpoint iota (start : Z) (count : nat) : list Z :=
  match count with O => [] | S count => start :: iota (start + 1) count end.

Definition appendBlocks (start count : Z) (blocks : list Z) : outcome (list Z) :=
  if count =? 1 then Ret (blocks ++ [start])
  else if count <? 0 then UB
  else Ret (blocks ++ iota start (Z.to_nat count)).

Fixpoint unduplicate_loop (uniques : gset Z) (v : list Z) : list Z :=
  match v with
  | [] => []
  | t :: v => if bool_decide (t ∈ uniques) then unduplicate_loop uniques v else t :: unduplicate_loop ({[t]} ∪ uniques) v
  end.
Definition unduplicate (v : list Z) : list Z := unduplicate_loop ∅ v.

(** The loop of [CentralDirOffset]; [commentLen] has 16 bits. *)
Fixpoint eocd_loop (turns : nat) (h : handle) (fileSize commentLen : Z) : outcome Z :=
  if commentLen <? fileSize then
    match turns with
    | O => OutOfFuel
    | S turns =>
        let offset := fileSize - 22 - commentLen in
        if (valueAt 4 h offset =? 0x06054b50) && (valueAt 2 h (offset + 20) =? commentLen) then Ret offset
        else eocd_loop turns h fileSize (s16 (commentLen + 1))
    end
  else Ret (-1).

Definition CentralDirOffset (turns : nat) (h : handle) (fileSize : Z) : outcome Z :=
  eocdOffset ← eocd_loop turns h fileSize 0;
  if eocdOffset <? 0 then Ret (-1)
  else Ret (eocdOffset - valueAt 4 h (eocdOffset + 12)).

Definition APK_SIG_BLOCK_MAGIC_HI : Z := 0x3234206b636f6c42.
Definition APK_SIG_BLOCK_MAGIC_LO : Z := 0x20676953204b5041.

Definition SignerBlockOffset (turns : nat) (h : handle) (fileSize : Z) : outcome Z :=
  cdOffset ← CentralDirOffset turns h fileSize;
  if cdOffset <? 0 then Ret (-1)
  else if (cdOffset <? 32) || negb (valueAt 8 h (cdOffset - 16) =? APK_SIG_BLOCK_MAGIC_LO)
          || negb (valueAt 8 h (cdOffset - 8) =? APK_SIG_BLOCK_MAGIC_HI) then Ret (-1)
  else
    let signerSizeInFooter := valueAt 4 h (cdOffset - 24) in
    let signerBlockOffset := cdOffset - signerSizeInFooter - 8 in
    if signerBlockOffset <? 0 then Ret (-1)
    else if negb (signerSizeInFooter =? valueAt 4 h signerBlockOffset) then Ret (-1)
    else Ret signerBlockOffset.

Definition ZipPriorityBlocks (signerBlockOffset fileSize : Z) : outcome (list Z) :=
  let signerBlockIndex := offsetToBlockIndex signerBlockOffset in
  let lastBlockIndex := offsetToBlockIndex fileSize in
  let numPriorityBlocks := lastBlockIndex - signerBlockIndex + 1 in
  let kNumBlocksInEocdSearch := 64 * 1024 / kBlockSize + 1 in
  blocks ← (if kNumBlocksInEocdSearch <? numPriorityBlocks then
              b ← appendBlocks (lastBlockIndex - kNumBlocksInEocdSearch + 1) kNumBlocksInEocdSearch [];
              appendBlocks signerBlockIndex (numPriorityBlocks - kNumBlocksInEocdSearch) b
            else appendBlocks signerBlockIndex numPriorityBlocks []);
  appendBlocks 0 1 blocks.

(** What the archive library says of an entry; [stored] when it is not compressed. *)
Record zip_entry := ZipEntry {
  entry_name : bytes; entry_offset : Z; stored : bool; uncompressed_length : Z; compressed_length : Z; has_data_descriptor : bool
}.
(** The entries of an archive in the order of iteration, if it can be opened. *)
Class ZipArchive := zip_entries : handle → Z → option (list zip_entry).

Definition matcher (name : bytes) : bool :=
  (StartsWith name (str "lib/") && EndsWith name (str ".so"))
  || existsb (λ i, bool_decide (i = name)) [str "resources.arsc"; str "AndroidManifest.xml"; str "classes.dex"].

Section blocks.
Context `{!ZipArchive}.

Fixpoint entries_loop (es : list zip_entry) (blocks : list Z) : outcome (list Z) :=
  match es with
  | [] => Ret blocks
  | e :: es =>
      blocks ← (if bool_decide (entry_name e = str "classes.dex") then
                  appendBlocks (offsetToBlockIndex (entry_offset e)) 2 blocks
                else
                  let entryEndOffset := entry_offset e + (if stored e then uncompressed_length e else compressed_length e)
                                        + (if has_data_descriptor e then 16 else 0) in
                  let startBlockIndex := offsetToBlockIndex (entry_offset e) in
                  appendBlocks startBlockIndex (offsetToBlockIndex entryEndOffset - startBlockIndex + 1) blocks);
      entries_loop es blocks
  end.

Definition InstallationPriorityBlocks (h : handle) (fileSize : Z) : outcome (list Z) :=
  match zip_entries h fileSize with
  | None => Ret []
  | Some es => entries_loop (filter (λ e, matcher (entry_name e)) es) []
  end.

Definition PriorityBlocksForFile (turns : nat) (filepath : bytes) (h : handle) (fileSize : Z) : outcome (list Z) :=
  if negb (EndsWithIgnoreCase filepath (str ".apk")) then Ret []
  else
    signerOffset ← SignerBlockOffset turns h fileSize;
    if signerOffset <? 0 then Ret []
    else
      priorityBlocks ← ZipPriorityBlocks signerOffset fileSize;
      installationPriorityBlocks ← InstallationPriorityBlocks h fileSize;
      Ret (unduplicate (priorityBlocks ++ installationPriorityBlocks)).
End blocks.
End IU.
