(* ===== verification/IncrementalServer.v ===== *)
(** * Serving the blocks of an incremental installation: [adb/client/incremental_server.cpp]

    The device asks for blocks of the files it is installing, on a connection on
    which it also prints text.  The server answers with data blocks, each preceded
    by what is needed of the tree of hashes, and sends the rest of the files in the
    meantime.  What it counts for the log is left out. *)

From S2P Require Import Prelude State CString LibBase AdbIO IncrementalUtils.
Import IU.
Local Open Scope Z_scope.
Local Open Scope record_scope.

Module IS.

Definition kHashesPerBlock : Z := kBlockSize / kDigestSize.
(** [kBlockSize * 0.95], as an integer *)
Definition kCompressedSizeMax : Z := kBlockSize * 95 / 100.
(** [LZ4_COMPRESSBOUND(kBlockSize)] *)
Definition kCompressBound : Z := Z.max kBlockSize (kBlockSize + kBlockSize / 255 + 16).
Definition kReadBufferSize : Z := 128 * 1024.
Definition kChunkFlushSize : Z := 31 * kBlockSize.
Definition kPendingSize : Z := kChunkFlushSize + 2 * kBlockSize.
Definition kPrefetchBlocksPerIteration : Z := 128.

Definition kTypeData : Z := 0.
Definition kTypeHash : Z := 1.
Definition kCompressionNone : Z := 0.
Definition kCompressionLZ4 : Z := 1.

Definition INCR : Z := 0x494e4352.
Definition SERVING_COMPLETE : Z := 0.
Definition BLOCK_MISSING : Z := 1.
Definition PREFETCH : Z := 2.
Definition DESTROY : Z := 3.

Definition roundDownToBlockOffset (val : Z) : Z := Z.land val (Z.lnot (kBlockSize - 1)).
Definition roundUpToBlockOffset (val : Z) : Z := roundDownToBlockOffset (val + kBlockSize - 1).
Definition numBytesToNumBlocks (n : Z) : Z := s32 (Z.quot (roundUpToBlockOffset n) kBlockSize).
Definition blockIndexToOffset (blockIdx : Z) : Z := blockIdx * kBlockSize.

(** ** Messages *)

Definition be16 (z : Z) : bytes := [Zbyte (z / 2 ^ 8); Zbyte z].
Definition be32 (z : Z) : bytes := [Zbyte (z / 2 ^ 24); Zbyte (z / 2 ^ 16); Zbyte (z / 2 ^ 8); Zbyte z].
(** The big-endian integer of some bytes, unsigned. *)
Definition be_val (bs : bytes) : Z := le_val (rev bs).

Record RequestCommand := Command { request_type : Z; req_file_id : Z; block_idx : Z }.

(** The 8 bytes of a request. *)
Definition decode_command (bs : bytes) : RequestCommand :=
  Command (signed 2 (be_val (take 2 bs))) (signed 2 (be_val (take 2 (drop 2 bs)))) (signed 4 (be_val (take 4 (drop 4 bs)))).

(** [ResponseHeader], 10 bytes *)
Definition ResponseHeader (file_id block_type compression_type idx block_size : Z) : bytes :=
  be16 file_id ++ [Zbyte block_type; Zbyte compression_type] ++ be32 idx ++ be16 block_size.

(** ** Files *)

Record File := MkFile {
  filepath : bytes;
  id : Z;
  size : Z;
  fd_ : handle;
  priority_blocks_ : list Z;
  tree_fd_ : option handle;
  tree_offset_ : Z;
  sentBlocks : list bool;
  sentBlocksCount : Z;
  sentTreeBlocks : list bool
}.
#[global] Instance eta_File : Eta File :=
  rd_pure MkFile <%> filepath <%> id <%> size <%> fd_ <%> priority_blocks_ <%> tree_fd_ <%> tree_offset_
    <%> sentBlocks <%> sentBlocksCount <%> sentTreeBlocks.
#[global] Instance upd_sentBlocks : Update sentBlocks. Proof. mk_update. Defined.
#[global] Instance upd_sentBlocksCount : Update sentBlocksCount. Proof. mk_update. Defined.
#[global] Instance upd_sentTreeBlocks : Update sentTreeBlocks. Proof. mk_update. Defined.

(** The constructor; [resize] throws for a negative size. *)
Definition new_File `{!ZipArchive} (turns : nat) (filepath : bytes) (id size : Z) (fd : handle) (tree_offset : Z) (tree_fd : option handle)
  : outcome File :=
  let n := numBytesToNumBlocks size in
  _ ← check (0 <=? n);
  t ← verity_tree_blocks_for_file size;
  p ← PriorityBlocksForFile turns filepath fd size;
  Ret (MkFile filepath id size fd p tree_fd tree_offset (replicate (Z.to_nat n) false) 0 (replicate (Z.to_nat t) false)).

Definition ReadDataBlock (f : File) (idx : Z) : option bytes := adb_pread (fd_ f) kBlockSize (blockIndexToOffset idx).
Definition ReadTreeBlock (f : File) (idx : Z) : option bytes :=
  match tree_fd_ f with
  | Some h => adb_pread h kBlockSize (tree_offset_ f + blockIndexToOffset idx)
  | None => None
  end.
Definition hasTree (f : File) : bool := match tree_fd_ f with Some _ => true | None => false end.

(** ** The server *)

Record PrefetchState := Prefetch { file : nat; overallIndex : Z; overallEnd : Z; priorityIndex : Z }.
#[global] Instance eta_Prefetch : Eta PrefetchState :=
  rd_pure Prefetch <%> file <%> overallIndex <%> overallEnd <%> priorityIndex.
#[global] Instance upd_overallIndex : Update overallIndex. Proof. mk_update. Defined.
#[global] Instance upd_priorityIndex : Update priorityIndex. Proof. mk_update. Defined.

(** What [adb_poll] finds; the end of the script is the end of the connection. *)
Inductive input := PollFails | NothingYet | Readable (a : arrival).

Record server := Server {
  adb_in : list input;
  adb_out : outstream;
  output_fd_ : outstream;
  files_ : list File;
  buffer_ : bytes;
  prefetches_ : list PrefetchState;
  pending : bytes;                    (* of [pendingBlocksBuffer_], from the chunk header to [pendingBlocks_] *)
  servingComplete_ : bool
}.
#[global] Instance eta_server : Eta server :=
  rd_pure Server <%> adb_in <%> adb_out <%> output_fd_ <%> files_ <%> buffer_ <%> prefetches_ <%> pending <%> servingComplete_.
#[global] Instance upd_adb_in : Update adb_in. Proof. mk_update. Defined.
#[global] Instance upd_adb_out : Update adb_out. Proof. mk_update. Defined.
#[global] Instance upd_output_fd : Update output_fd_. Proof. mk_update. Defined.
#[global] Instance upd_files : Update files_. Proof. mk_update. Defined.
#[global] Instance upd_buffer : Update buffer_. Proof. mk_update. Defined.
#[global] Instance upd_prefetches : Update prefetches_. Proof. mk_update. Defined.
#[global] Instance upd_pending : Update pending. Proof. mk_update. Defined.
#[global] Instance upd_servingComplete : Update servingComplete_. Proof. mk_update. Defined.

(** [LZ4_compress_default] into [kCompressBound] bytes: nothing when it fails. *)
Class LZ4 := LZ4_compress_default : bytes → bytes.

Section server.
Context `{!LZ4}.
Local Abbreviation I := (ST server).

Definition write_adb (bs : bytes) : I bool := λ s,
  '(ok, o) ← WriteFdExactly (adb_out s) bs; Ret (ok, s <| adb_out := o |>).
Definition write_output (bs : bytes) : I unit := λ s,
  '(_, o) ← WriteFdExactly (output_fd_ s) bs; Ret (tt, s <| output_fd_ := o |>).

(** An element of a vector. *)
Definition at_index {A} (l : list A) (i : Z) : outcome A := if i <? 0 then UB else deref (l !! Z.to_nat i).
Definition file_at (fileId : Z) : I File := l ← get files_; lift (at_index l fileId).
Definition set_file (fileId : Z) (f : File → File) : I unit :=
  modify (λ s, s <| files_ ::= alter f (Z.to_nat fileId) |>).

(** *** Requests *)

(** How far the search for the magic number gets, and whether it was found. *)
Fixpoint find_magic (b : bytes) : nat * bool :=
  match b with
  | [] => (0%nat, false)
  | _ :: b' =>
      if (4 <? length b)%nat then
        if be_val (take 4 b) =? INCR then (0%nat, true)
        else let (n, found) := find_magic b' in (S n, found)
      else (0%nat, false)
  end.

Inductive skipped := Closed | NoRequest | Request (command : bytes).

Fixpoint SkipToRequest (fuel : nat) (blocking : bool) : I skipped :=
  match fuel with
  | O => lift OutOfFuel
  | S fuel =>
      b ← get buffer_;
      let (bcur, magic_found) := find_magic b in
      _ ← (if (0 <? bcur)%nat then
             _ ← write_output (take bcur b); modify (λ s, s <| buffer_ ::= drop bcur |>)
           else mret tt);
      b ← get buffer_;
      if magic_found && (8 + 4 <=? zlen b) then
        _ ← modify (λ s, s <| buffer_ ::= drop 12 |>); mret (Request (take 8 (drop 4 b)))
      else
        i ← get adb_in;
        match i with
        | PollFails :: i => _ ← modify (λ s, s <| adb_in := i |>); _ ← write_output b; mret Closed
        | NothingYet :: i =>
            _ ← modify (λ s, s <| adb_in := i |>);
            _ ← write_output b;
            complete ← get servingComplete_;
            if blocking && complete then mret Closed else mret NoRequest
        | _ =>
            let arrivals := match i with Readable a :: _ => [a] | _ => [] end in
            match adb_read arrivals (kReadBufferSize - zlen b) with
            | (ReadBytes (x :: bs), rest) =>
                _ ← modify (λ s, s <| buffer_ := b ++ x :: bs |> <| adb_in := (Readable <$> rest) ++ tail i |>);
                SkipToRequest fuel blocking
            | (_, rest) =>
                let b := b ++ replicate (Z.to_nat (kReadBufferSize - zlen b)) (Zbyte 0) in
                _ ← modify (λ s, s <| buffer_ := b |> <| adb_in := (Readable <$> rest) ++ tail i |>);
                _ ← write_output b;
                mret Closed
            end
        end
  end.

(** Every turn reads at least one byte. *)
Definition input_size (i : input) : nat := match i with Readable (Data bs) => S (length bs) | _ => 1%nat end.
Definition script_size (l : list input) : nat := sum_list (input_size <$> l).

Definition ReadRequest (blocking : bool) : I (option RequestCommand) :=
  i ← get adb_in;
  r ← SkipToRequest (S (script_size i)) blocking;
  mret (match r with
        | Closed => Some (Command DESTROY 0 0)
        | NoRequest => None
        | Request bs => Some (decode_command bs)
        end).

(** *** Blocks *)

Definition Flush : I unit :=
  p ← get pending;
  if zlen p =? 0 then mret tt
  else _ ← write_adb (be32 (zlen p) ++ p); modify (λ s, s <| pending := [] |>).

Definition Send (data : bytes) (flush : bool) : I unit :=
  p ← get pending;
  if kPendingSize <? 4 + zlen p + zlen data then lift UB
  else
    _ ← modify (λ s, s <| pending := p ++ data |>);
    if flush || (kChunkFlushSize <? 4 + zlen (p ++ data)) then Flush else mret tt.

Definition SendTreeBlock (fileId blockIdx : Z) : I bool :=
  f ← file_at fileId;
  match ReadTreeBlock f blockIdx with
  | None | Some [] => mret false
  | Some data =>
      _ ← Send (ResponseHeader fileId kTypeHash kCompressionNone blockIdx (s16 (zlen data)) ++ data) false;
      mret true
  end.

Definition mark_tree (fileId idx : Z) : I unit :=
  set_file fileId (λ f, f <| sentTreeBlocks ::= <[Z.to_nat idx := true]> |>).

(** The nodes above the leaves, from [i] on. *)
Fixpoint send_inner (n : nat) (fileId i : Z) : I bool :=
  match n with
  | O => mret true
  | S n =>
      ok ← SendTreeBlock fileId i;
      if negb ok then mret false else _ ← mark_tree fileId i; send_inner n fileId (i + 1)
  end.

Definition SendTreeBlocksForDataBlock (fileId blockIdx : Z) : I bool :=
  f ← file_at fileId;
  if negb (hasTree f) then mret true
  else
    let data_block_count := numBytesToNumBlocks (size f) in
    let total_nodes_count := s32 (zlen (sentTreeBlocks f)) in
    let leaf_nodes_count := Z.quot (data_block_count + kHashesPerBlock - 1) kHashesPerBlock in
    let leaf_nodes_offset := total_nodes_count - leaf_nodes_count in
    let leaf_idx := leaf_nodes_offset + Z.quot blockIdx kHashesPerBlock in
    sent ← lift (at_index (sentTreeBlocks f) leaf_idx);
    if (sent : bool) then mret true
    else
      ok ← SendTreeBlock fileId leaf_idx;
      if negb ok then mret false
      else
        _ ← mark_tree fileId leaf_idx;
        f ← file_at fileId;
        if leaf_nodes_offset =? 0 then mret true
        else
          root ← lift (at_index (sentTreeBlocks f) 0);
          if (root : bool) then mret true
          else send_inner (Z.to_nat leaf_nodes_offset) fileId 0.

Inductive SendResult := Sent | Skipped | SendError.

Definition SendDataBlock (fileId blockIdx : Z) (flush : bool) : I SendResult :=
  f ← file_at fileId;
  if zlen (sentBlocks f) <=? blockIdx then mret Skipped
  else
    sent ← lift (at_index (sentBlocks f) blockIdx);
    if (sent : bool) then mret Skipped
    else
      ok ← SendTreeBlocksForDataBlock fileId blockIdx;
      if negb ok then mret SendError
      else
        match ReadDataBlock f blockIdx with
        | None => mret SendError
        | Some raw =>
            let compressed := LZ4_compress_default raw in
            let compressedSize := s16 (zlen compressed) in
            let use := (0 <? compressedSize) && (compressedSize <? kCompressedSizeMax) in
            let data := if use then compressed else raw in
            _ ← set_file fileId (λ f, f <| sentBlocks ::= <[Z.to_nat blockIdx := true]> |> <| sentBlocksCount ::= Z.succ |>);
            _ ← Send (ResponseHeader fileId kTypeData (if use then kCompressionLZ4 else kCompressionNone) blockIdx (s16 (zlen data))
                      ++ data) flush;
            mret Sent
        end.

Definition SendDone : I unit := Send (ResponseHeader (-1) 0 0 0 0) true.

(** *** Prefetching *)

(** [PrefetchState(f, start, count)]; the sum is an [int]. *)
Definition prefetch_range (i : nat) (f : File) (start count : Z) : outcome PrefetchState :=
  if start + count <? 2 ^ 31 then Ret (Prefetch i start (Z.min (start + count) (s32 (zlen (sentBlocks f)))) 0) else UB.
Definition prefetch_all (i : nat) (f : File) : outcome PrefetchState := prefetch_range i f 0 (s32 (zlen (sentBlocks f))).

Definition done (f : File) (p : PrefetchState) : bool :=
  let overallSent := overallEnd p <=? overallIndex p in
  match priority_blocks_ f with
  | [] => overallSent
  | bs => overallSent && (s32 (zlen bs) <=? priorityIndex p)
  end.

Definition one_less (r : SendResult) (blocksToSend : Z) : Z := match r with Sent => blocksToSend - 1 | _ => blocksToSend end.

(** The loop over the priority blocks that are left, the first of which has index [i]. *)
Fixpoint priority_loop (fileId : Z) (blocks : list Z) (i blocksToSend : Z) : I (Z * Z) :=
  match blocks with
  | [] => mret (i, blocksToSend)
  | b :: blocks =>
      if 0 <? blocksToSend then
        r ← SendDataBlock fileId b false; priority_loop fileId blocks (i + 1) (one_less r blocksToSend)
      else mret (i, blocksToSend)
  end.

(** The loop over all blocks, of which [n] are left. *)
Fixpoint overall_loop (fileId : Z) (n : nat) (i blocksToSend : Z) : I (Z * Z) :=
  match n with
  | O => mret (i, blocksToSend)
  | S n =>
      if 0 <? blocksToSend then
        r ← SendDataBlock fileId i false; overall_loop fileId n (i + 1) (one_less r blocksToSend)
      else mret (i, blocksToSend)
  end.

Fixpoint prefetch_loop (fuel : nat) (blocksToSend : Z) : I unit :=
  ps ← get prefetches_;
  match ps with
  | [] => mret tt
  | p :: ps =>
      if 0 <? blocksToSend then
        match fuel with
        | O => lift OutOfFuel
        | S fuel =>
            f ← file_at (Z.of_nat (file p));
            '(i, blocksToSend) ← priority_loop (id f) (zdrop (priorityIndex p) (priority_blocks_ f)) (priorityIndex p) blocksToSend;
            '(j, blocksToSend) ← overall_loop (id f) (Z.to_nat (overallEnd p - overallIndex p)) (overallIndex p) blocksToSend;
            let p := p <| priorityIndex := i |> <| overallIndex := j |> in
            _ ← modify (λ s, s <| prefetches_ := if done f p then ps else p :: ps |>);
            prefetch_loop fuel blocksToSend
        end
      else mret tt
  end.

(** Each turn ends a prefetch or uses up the blocks to send. *)
Definition RunPrefetching : I unit :=
  ps ← get prefetches_; prefetch_loop (length ps) kPrefetchBlocksPerIteration.

(** *** The loop *)

Definition ServingComplete : I unit := modify (λ s, s <| servingComplete_ := true |>).

(** A request other than [DESTROY]; the files for which prefetching was asked. *)
Definition handle_request (r : RequestCommand) (prefetchedFiles : gset Z) : I (gset Z) :=
  let fileId := req_file_id r in
  let blockIdx := block_idx r in
  l ← get files_;
  if request_type r =? SERVING_COMPLETE then _ ← ServingComplete; mret prefetchedFiles
  else if request_type r =? BLOCK_MISSING then
    if (fileId <? 0) || (s16 (zlen l) <=? fileId) then mret prefetchedFiles
    else
      f ← file_at fileId;
      if (blockIdx <? 0) || (s32 (zlen (sentBlocks f)) <=? blockIdx) then mret prefetchedFiles
      else
        res ← SendDataBlock fileId blockIdx true;
        match res with
        | Sent =>
            f ← file_at fileId;
            p ← lift (prefetch_range (Z.to_nat fileId) f (blockIdx + 1) 7);
            _ ← modify (λ s, s <| prefetches_ ::= cons p |>);
            mret prefetchedFiles
        | _ => mret prefetchedFiles
        end
  else if request_type r =? PREFETCH then
    if fileId <? 0 then mret prefetchedFiles
    else if bool_decide (fileId ∈ prefetchedFiles) then mret prefetchedFiles
    else
      f ← file_at fileId;
      p ← lift (prefetch_all (Z.to_nat fileId) f);
      _ ← modify (λ s, s <| prefetches_ ::= λ l, l ++ [p] |>);
      mret ({[fileId]} ∪ prefetchedFiles)
  else mret prefetchedFiles.

Definition all_sent (l : list File) : bool := forallb (λ f, sentBlocksCount f =? s32 (zlen (sentBlocks f))) l.
Definition is_nil {A} (l : list A) : bool := match l with [] => true | _ => false end.

Fixpoint serve_loop (fuel : nat) (prefetchedFiles : gset Z) (doneSent : bool) : I bool :=
  match fuel with
  | O => lift OutOfFuel
  | S fuel =>
      s ← get (λ s, s);
      let finished := negb doneSent && is_nil (prefetches_ s) && all_sent (files_ s) in
      _ ← (if finished then SendDone else mret tt);
      let doneSent := doneSent || finished in
      let blocking := is_nil (prefetches_ s) in
      _ ← (if blocking then Flush else mret tt);
      request ← ReadRequest blocking;
      match request with
      | None => _ ← RunPrefetching; serve_loop fuel prefetchedFiles doneSent
      | Some r =>
          if request_type r =? DESTROY then mret true
          else
            prefetchedFiles ← handle_request r prefetchedFiles;
            _ ← RunPrefetching;
            serve_loop fuel prefetchedFiles doneSent
      end
  end.

(** Every turn takes a request from the buffer or looks at the connection. *)
Definition Serve : I bool :=
  ok ← (λ s, '(ok, o) ← SendOkay (adb_out s); Ret (ok, s <| adb_out := o |>));
  if negb ok then mret false
  else s ← get (λ s, s); serve_loop (S (length (buffer_ s) + script_size (adb_in s))) ∅ false.

(** ** Starting a server *)

Definition new_server (adb_in : list input) (adb_out output_fd : outstream) (files : list File) : server :=
  Server adb_in adb_out output_fd files [] [] [] false.
End server.

(** The file system of the host. *)
Class HostFiles := { stat_size : bytes → option Z; adb_open : bytes → option handle }.

Section serve.
Context `{!LZ4, !ZipArchive, !HostFiles}.

Definition open_fd (path : bytes) : outcome (handle * Z) :=
  match stat_size path with
  | None => Abort
  | Some n => match adb_open path with None => Abort | Some h => Ret (h, n) end
  end.

Definition open_signature (file_size : Z) (path : bytes) : outcome (option handle * Z) :=
  match adb_open (path ++ IDSIG) with
  | None => Ret (None, 0)
  | Some h =>
      let '((tree_offset, tree_size), _) := skip_id_sig_headers (h, 0) in
      expected ← verity_tree_size_for_file file_size;
      _ ← check (tree_size =? expected);
      Ret (Some h, tree_offset)
  end.

Fixpoint open_files (turns : nat) (i : Z) (paths : list bytes) : outcome (list File) :=
  match paths with
  | [] => Ret []
  | path :: paths =>
      '(h, n) ← open_fd path;
      '(tree_fd, tree_offset) ← open_signature n path;
      f ← new_File turns path (s16 i) n h tree_offset tree_fd;
      fs ← open_files turns (i + 1) paths;
      Ret (f :: fs)
  end.

Definition serve (turns : nat) (adb_in : list input) (adb_out output_fd : outstream) (paths : list bytes) : outcome (bool * server) :=
  _ ← check (negb (is_nil paths));
  files ← open_files turns 0 paths;
  Serve (new_server adb_in adb_out output_fd files).
End serve.
End IS.
