(* ===== verification/IncrementalFacts.v ===== *)
(** * Facts about serving an incremental installation

    Block numbers and the tree of hashes; how requests are found in the stream; the
    invariant of the server: the log of what was sent, against the files. *)

From S2P Require Import Prelude State CString LibBase AdbIO AdbIOFacts IncrementalUtils IncrementalServer.
Import IU IS.
Local Open Scope Z_scope.
Local Open Scope record_scope.

(** ** Numbers of blocks *)

Lemma round_down_spec x : roundDownToBlockOffset x = x / 4096 * 4096.
Proof.
  unfold roundDownToBlockOffset, kBlockSize. rewrite <- Z.ldiff_land. change (4096 - 1) with (Z.ones 12).
  rewrite Z.ldiff_ones_r by lia. rewrite Z.shiftl_mul_pow2, Z.shiftr_div_pow2 by lia. done.
Qed.

(** Files that are not absurdly large: below four terabytes. *)
Definition MAX_FILE : Z := 2 ^ 42.

Lemma s32_id z : 0 ≤ z < 2 ^ 31 → s32 z = z.
Proof. intros H. unfold s32. rewrite u32_small by lia. zbool. done. Qed.

Lemma s16_id z : 0 ≤ z < 2 ^ 15 → s16 z = z.
Proof. intros H. unfold s16. rewrite Z.mod_small by lia. zbool. done. Qed.

Lemma num_blocks_spec n : 0 ≤ n < MAX_FILE → numBytesToNumBlocks n = (n + 4095) / 4096.
Proof.
  unfold MAX_FILE. intros H. unfold numBytesToNumBlocks, roundUpToBlockOffset. rewrite round_down_spec. unfold kBlockSize.
  replace (n + 4096 - 1) with (n + 4095) by lia. rewrite Z.quot_mul by lia. apply s32_id. Z.div_mod_to_equations. lia.
Qed.

Lemma num_blocks_bound n : 0 ≤ n < MAX_FILE → 0 ≤ numBytesToNumBlocks n ≤ 2 ^ 30.
Proof. intros H. rewrite num_blocks_spec by done. unfold MAX_FILE in H. Z.div_mod_to_equations. lia. Qed.

(** ** The tree of hashes *)

Lemma verity_loop_spec fuel : ∀ c t,
  1 ≤ c ≤ 128 ^ Z.of_nat fuel →
  ∃ r, verity_loop fuel c t = Ret r ∧ (c = 1 → r = t) ∧ (1 < c → t + (c + 127) / 128 ≤ r) ∧ r ≤ t + c.
Proof.
  induction fuel as [|fuel IH]; intros c t Hc; cbn [verity_loop].
  - assert (c = 1) as -> by lia. eexists. split; [reflexivity|]. lia.
  - destruct (Z.ltb_spec 1 c) as [H1|H1]; [|eexists; split; [reflexivity|lia]].
    change (kBlockSize / kDigestSize) with 128. replace (c + 128 - 1) with (c + 127) by lia. set (c' := (c + 127) / 128).
    assert (1 ≤ c' ≤ 128 ^ Z.of_nat fuel) as Hc'.
    { rewrite Nat2Z.inj_succ, Z.pow_succ_r in Hc by lia. subst c'. split; [Z.div_mod_to_equations; lia|].
      apply Z.lt_succ_r, Z.div_lt_upper_bound; lia. }
    destruct (IH c' (t + c') Hc') as (r & -> & R1 & R2 & R3). eexists. split; [reflexivity|].
    assert (2 * c' ≤ c) by (subst c'; Z.div_mod_to_equations; lia).
    assert (0 ≤ (c' + 127) / 128) by (apply Z.div_pos; lia).
    split_and!; [lia| |lia]. intros _. destruct (Z.eq_dec c' 1) as [E|E]; [rewrite (R1 E); lia|]. specialize (R2 ltac:(lia)). lia.
Qed.

Lemma verity_spec n :
  0 ≤ n < MAX_FILE →
  ∃ t, verity_tree_blocks_for_file n = Ret t ∧ 0 ≤ t ≤ numBytesToNumBlocks n ∧
    (1 < numBytesToNumBlocks n → (numBytesToNumBlocks n + 127) / 128 ≤ t) ∧ (0 < n ≤ kBlockSize → t = 0).
Proof.
  intros Hn. rewrite num_blocks_spec by done. unfold verity_tree_blocks_for_file, MAX_FILE in *. destruct (Z.eqb_spec n 0) as [->|H0].
  - exists 0. split; [reflexivity|]. change ((0 + 4095) / 4096) with 0. lia.
  - rewrite Z.quot_div_nonneg by (unfold kBlockSize; lia).
    assert (1 + (n - 1) / kBlockSize = (n + 4095) / 4096) as ->.
    { unfold kBlockSize. replace (n + 4095) with (n - 1 + 1 * 4096) by lia. rewrite Z.div_add by lia. lia. }
    destruct (verity_loop_spec VERITY_FUEL ((n + 4095) / 4096) 0) as (r & -> & R1 & R2 & R3).
    { change (128 ^ Z.of_nat VERITY_FUEL) with (2 ^ 70). Z.div_mod_to_equations. lia. }
    exists r. split; [reflexivity|]. assert (0 ≤ ((n + 4095) / 4096 + 127) / 128) by (apply Z.div_pos; [|lia]; Z.div_mod_to_equations; lia).
    split_and!; [| | |unfold kBlockSize; intros Hk; apply R1; Z.div_mod_to_equations; lia].
    + destruct (Z.eq_dec ((n + 4095) / 4096) 1) as [E|E]; [by rewrite (R1 E)|].
      assert (1 ≤ (n + 4095) / 4096) by (Z.div_mod_to_equations; lia). lia.
    + lia.
    + lia.
Qed.

(** ** Writing *)

(** When the descriptor works, [bs] was written. *)
Definition appended (o o' : outstream) (bs : bytes) : Prop :=
  accepts o → accepts o' ∧ o_written o' = o_written o ++ bs.

Lemma appended_nil o : appended o o [].
Proof. intros H. by rewrite app_nil_r. Qed.
Lemma appended_app o o' o'' a b : appended o o' a → appended o' o'' b → appended o o'' (a ++ b).
Proof. intros H1 H2 Ha. destruct (H1 Ha) as [A W]. destruct (H2 A) as [A' W']. by rewrite W', W, app_assoc. Qed.

Lemma write_appended o bs : ∃ ok o', WriteFdExactly o bs = Ret (ok, o') ∧ appended o o' bs.
Proof.
  destruct (write_exactly_spec o bs) as (ok & o' & sent & E & _). exists ok, o'. split; [done|].
  intros Ha. destruct (write_accepts o bs Ha) as (o1 & E1 & W & A). rewrite E1 in E. by injection E as <- <-.
Qed.

Lemma wp_write_output bs Q s :
  (∀ o, appended (output_fd_ s) o bs → Q tt (s <| output_fd_ := o |>)) → wp (write_output bs) Q s.
Proof. intros H. destruct (write_appended (output_fd_ s) bs) as (ok & o & E & Ha). unfold wp, write_output. rewrite E. mstep. by apply H. Qed.

Lemma wp_write_adb bs Q s :
  (∀ ok o, appended (adb_out s) o bs → Q ok (s <| adb_out := o |>)) → wp (write_adb bs) Q s.
Proof. intros H. destruct (write_appended (adb_out s) bs) as (ok & o & E & Ha). unfold wp, write_adb. rewrite E. mstep. by apply H. Qed.

(** ** Requests in the stream *)

Definition is_magic (b : bytes) : bool := be_val (take 4 b) =? INCR.

(** The requests in a stream, and the text around them; [skip] bytes belong to
    a request that was found. *)
Fixpoint requests_of (skip : nat) (b : bytes) : list bytes :=
  match b, skip with
  | [], _ => []
  | _ :: b', S skip => requests_of skip b'
  | _ :: b', O =>
      if (12 <=? length b)%nat && is_magic b then take 8 (drop 4 b) :: requests_of 11 b' else requests_of 0 b'
  end.
Fixpoint printed_of (skip : nat) (b : bytes) : bytes :=
  match b, skip with
  | [], _ => []
  | _ :: b', S skip => printed_of skip b'
  | x :: b', O => if (12 <=? length b)%nat && is_magic b then printed_of 11 b' else x :: printed_of 0 b'
  end.

Lemma requests_skip k : ∀ b, requests_of k b = requests_of 0 (drop k b).
Proof. induction k as [|k IH]; intros [|x b]; try done. apply IH. Qed.
Lemma printed_skip k : ∀ b, printed_of k b = printed_of 0 (drop k b).
Proof. induction k as [|k IH]; intros [|x b]; try done. apply IH. Qed.

Lemma is_magic_app b more : (4 ≤ length b)%nat → is_magic (b ++ more) = is_magic b.
Proof. intros H. unfold is_magic. by rewrite take_app_le by lia. Qed.

Lemma stream_request b more :
  (12 ≤ length b)%nat → is_magic b = true →
  requests_of 0 (b ++ more) = take 8 (drop 4 b) :: requests_of 0 (drop 12 b ++ more) ∧
  printed_of 0 (b ++ more) = printed_of 0 (drop 12 b ++ more).
Proof.
  intros Hl Hm. rewrite <- (is_magic_app b more) in Hm by lia.
  assert ((12 <=? length (b ++ more))%nat = true) as Hl' by (apply Nat.leb_le; rewrite length_app; lia).
  assert (take 8 (drop 4 (b ++ more)) = take 8 (drop 4 b)) as Et.
  { rewrite drop_app_le, take_app_le by (rewrite ?length_drop; lia). done. }
  assert (drop 12 (b ++ more) = drop 12 b ++ more) as Ed by (rewrite drop_app_le by lia; done).
  destruct b as [|x b]; [cbn in Hl; lia|]. cbn [app] in *. cbn [requests_of printed_of]. rewrite Hl', Hm. cbn [andb].
  rewrite Et, requests_skip, printed_skip. rewrite <- Ed. done.
Qed.

Lemma stream_text x b more :
  (4 < length (x :: b))%nat → is_magic (x :: b) = false →
  requests_of 0 ((x :: b) ++ more) = requests_of 0 (b ++ more) ∧ printed_of 0 ((x :: b) ++ more) = x :: printed_of 0 (b ++ more).
Proof.
  intros Hl Hm. rewrite <- (is_magic_app (x :: b) more) in Hm by lia. cbn [app requests_of printed_of] in *. rewrite Hm, andb_false_r. done.
Qed.

Lemma stream_short b : (length b < 12)%nat → requests_of 0 b = [] ∧ printed_of 0 b = b.
Proof.
  induction b as [|x b IH]; intros H; [done|]. cbn [requests_of printed_of].
  rewrite (proj2 (Nat.leb_gt 12 (length (x :: b)))) by lia. cbn [andb]. cbn in H. destruct IH as [-> ->]; [lia|done].
Qed.

Lemma find_magic_spec b more :
  let '(n, found) := find_magic b in
  (n ≤ length b)%nat ∧ requests_of 0 (b ++ more) = requests_of 0 (drop n b ++ more) ∧
  printed_of 0 (b ++ more) = take n b ++ printed_of 0 (drop n b ++ more) ∧
  if (found : bool) then (4 < length (drop n b))%nat ∧ is_magic (drop n b) = true else (length (drop n b) ≤ 4)%nat.
Proof.
  induction b as [|x b IH]; [cbn; split_and!; [lia|done..|lia]|]. cbn [find_magic].
  destruct (Nat.ltb_spec 4 (length (x :: b))) as [Hl|Hl]; [|split_and!; [lia|done..|rewrite drop_0; lia]].
  change (be_val (take 4 (x :: b)) =? INCR) with (is_magic (x :: b)). destruct (is_magic (x :: b)) eqn:Hm; [split_and!; [lia|done..]|].
  destruct (find_magic b) as [n found]. destruct IH as (A1 & A2 & A3 & A4). destruct (stream_text x b more Hl Hm) as [-> ->].
  cbn [drop take app length]. split_and!; [lia|done|by rewrite A3|done].
Qed.

(** The data that will be read before the connection ends. *)
Fixpoint arriving (l : list input) : bytes :=
  match l with
  | Readable (Data (b :: bs)) :: l => (b :: bs) ++ arriving l
  | NothingYet :: l => arriving l
  | _ => []
  end.

Definition rest (s : server) : bytes := buffer_ s ++ arriving (adb_in s).
Definition todo (s : server) : nat := (length (buffer_ s) + script_size (adb_in s))%nat.

#[local] Arguments script_size : simpl never.
#[local] Arguments todo : simpl never.
#[local] Arguments rest : simpl never.

(** Reading changes nothing else. *)
Record reads (s s' : server) : Prop := {
  rd_out : adb_out s' = adb_out s;
  rd_files : files_ s' = files_ s;
  rd_prefetches : prefetches_ s' = prefetches_ s;
  rd_pending : pending s' = pending s;
  rd_complete : servingComplete_ s' = servingComplete_ s
}.

Definition skip_post (blocking : bool) (s : server) (r : skipped) (s' : server) : Prop :=
  reads s s' ∧
  ∃ text,
    match r with
    | Request cmd =>
        requests_of 0 (rest s) = cmd :: requests_of 0 (rest s') ∧
        printed_of 0 (rest s) = text ++ printed_of 0 (rest s') ∧
        appended (output_fd_ s) (output_fd_ s') text ∧ (todo s' < todo s)%nat
    | NoRequest =>
        requests_of 0 (rest s) = requests_of 0 (rest s') ∧
        printed_of 0 (rest s) = text ++ printed_of 0 (rest s') ∧
        appended (output_fd_ s) (output_fd_ s') (text ++ buffer_ s') ∧ (todo s' < todo s)%nat ∧ (length (buffer_ s') < 12)%nat
    | Closed =>
        ∃ left pad, appended (output_fd_ s) (output_fd_ s') (text ++ left ++ pad) ∧ (length left < 12)%nat ∧
          (blocking && servingComplete_ s = true ∧ pad = [] ∨
           requests_of 0 (rest s) = [] ∧ printed_of 0 (rest s) = text ++ left ∧
           (pad = [] ∨ pad = replicate (Z.to_nat (kReadBufferSize - zlen left)) (Zbyte 0)))
    end.

(** Some text was passed on, or data was read. *)
Record progress (s s1 : server) (text : bytes) : Prop := {
  pg_reads : reads s s1;
  pg_requests : requests_of 0 (rest s) = requests_of 0 (rest s1);
  pg_printed : printed_of 0 (rest s) = text ++ printed_of 0 (rest s1);
  pg_output : appended (output_fd_ s) (output_fd_ s1) text;
  pg_todo : (todo s1 ≤ todo s)%nat
}.

Lemma input_trans s1 s2 s3 : reads s1 s2 → reads s2 s3 → reads s1 s3.
Proof. intros [] []. constructor; congruence. Qed.

Lemma skip_after blocking s s1 text r s' : progress s s1 text → skip_post blocking s1 r s' → skip_post blocking s r s'.
Proof.
  intros [P1 P2 P3 P4 P5] [Q0 [t Q]]. split; [by eapply input_trans|]. exists (text ++ t). rewrite P2, P3. destruct r.
  - destruct Q as (left & pad & Q1 & Q2 & Q3). exists left, pad. split_and!; [rewrite <- app_assoc; by eapply appended_app|done|].
    rewrite (rd_complete _ _ P1) in Q3. destruct Q3 as [Q3|(E1 & E2 & E3)]; [by left|right]. rewrite E2. by rewrite <- app_assoc.
  - destruct Q as (Q1 & Q2 & Q3 & Q4 & Q5). split_and!; [done|by rewrite Q2, app_assoc|rewrite <- app_assoc; by eapply appended_app|lia|done].
  - destruct Q as (Q1 & Q2 & Q3 & Q4). split_and!; [done|by rewrite Q2, app_assoc|by eapply appended_app|lia].
Qed.

Lemma script_size_app l l' : script_size (l ++ l') = (script_size l + script_size l')%nat.
Proof. unfold script_size. rewrite fmap_app, sum_list_with_app. done. Qed.

Definition arrivals (i : list input) : instream := match i with Readable a :: _ => [a] | _ => [] end.
Definition left_in (r : instream) (i : list input) : list input := (Readable <$> r) ++ tail i.

Lemma read_arrivals i room :
  0 < room → match i with PollFails :: _ | NothingYet :: _ => False | _ => True end →
  match adb_read (arrivals i) room with
  | (ReadBytes (x :: bs), r) =>
      arriving i = (x :: bs) ++ arriving (left_in r i) ∧ (script_size (left_in r i) + length (x :: bs) ≤ script_size i)%nat
  | _ => arriving i = []
  end.
Proof.
  intros Hr Hi. destruct i as [|[| |[[|b bs]|e]] i]; try done.
  { cbn [arrivals adb_read]. unfold ztake. by rewrite take_nil. }
  cbn [arrivals]. unfold adb_read. set (n := Z.min room MAX_RW_COUNT).
  assert (0 < n) as Hn by (subst n; unfold MAX_RW_COUNT; lia).
  pose proof (ztake_zdrop n (b :: bs)) as E. destruct (ztake n (b :: bs)) as [|x xs] eqn:Et.
  { unfold ztake in Et. destruct (Z.to_nat n) eqn:?; [lia|done]. }
  unfold left_in. cbn [tail]. destruct (Z.ltb_spec n (zlen (b :: bs))) as [Hlt|Hge].
  - assert (length (zdrop n (b :: bs)) ≠ 0%nat) as Hne by (unfold zdrop; rewrite length_drop; lia).
    change (script_size (Readable (Data (b :: bs)) :: i)) with (S (length (b :: bs)) + script_size i)%nat.
    change (arriving (Readable (Data (b :: bs)) :: i)) with ((b :: bs) ++ arriving i).
    destruct (zdrop n (b :: bs)) as [|y ys] eqn:Ez; [done|]. rewrite <- E.
    change (arriving ((Readable <$> [Data (y :: ys)]) ++ i)) with ((y :: ys) ++ arriving i).
    change (script_size ((Readable <$> [Data (y :: ys)]) ++ i)) with (S (length (y :: ys)) + script_size i)%nat.
    rewrite length_app. split; [by rewrite <- app_assoc|lia].
  - rewrite zdrop_all, app_nil_r in E by lia. rewrite E. split; [done|]. change (script_size (Readable (Data (b :: bs)) :: i)) with (S (length (b :: bs)) + script_size i)%nat. cbn [fmap list_fmap app]. lia.
Qed.

(** What [SkipToRequest] does when the buffer holds no request. *)
Definition poll_step (again : ST server skipped) (blocking : bool) (b : bytes) : ST server skipped :=
  i ← get adb_in;
  match i with
  | PollFails :: i => _ ← modify (λ s, s <| adb_in := i |>); _ ← write_output b; mret Closed
  | NothingYet :: i =>
      _ ← modify (λ s, s <| adb_in := i |>);
      _ ← write_output b;
      complete ← get servingComplete_;
      if blocking && complete then mret Closed else mret NoRequest
  | _ =>
      match adb_read (arrivals i) (kReadBufferSize - zlen b) with
      | (ReadBytes (x :: bs), r) =>
          _ ← modify (λ s, s <| buffer_ := b ++ x :: bs |> <| adb_in := left_in r i |>); again
      | (_, r) =>
          let b := b ++ replicate (Z.to_nat (kReadBufferSize - zlen b)) (Zbyte 0) in
          _ ← modify (λ s, s <| buffer_ := b |> <| adb_in := left_in r i |>);
          _ ← write_output b;
          mret Closed
      end
  end.

Lemma wp_poll_input again blocking s :
  (∀ s1, (script_size (adb_in s1) < script_size (adb_in s))%nat → wp again (skip_post blocking s1) s1) →
  (length (buffer_ s) < 12)%nat → wp (poll_step again blocking (buffer_ s)) (skip_post blocking s) s.
Proof.
  intros IH Hb. unfold poll_step. st_go. destruct (stream_short _ Hb) as [Hs1 Hs2].
  assert (∀ b o i', arriving (adb_in s) = [] → b = buffer_ s ++ replicate (Z.to_nat (kReadBufferSize - zlen (buffer_ s))) (Zbyte 0) →
    appended (output_fd_ s) o b →
    skip_post blocking s Closed (s <| buffer_ := b |> <| adb_in := i' |> <| output_fd_ := o |>)) as Hend.
  { intros b o i' Ha -> Ho. split; [by constructor|]. exists []. unfold rest. rewrite Ha, app_nil_r.
    eexists (buffer_ s), _. split_and!; [exact Ho|done|]. right. split_and!; [done|done|by right]. }
  destruct (adb_in s) as [|[| |a] i] eqn:Ei.
  - cbn. st_go. apply wp_write_output. intros o Ho. st_go. by apply Hend.
  - st_go. apply wp_write_output. intros o Ho. st_go. split; [by constructor|]. exists [], (buffer_ s), [].
    unfold rest. rewrite Ei. cbn [arriving]. rewrite !app_nil_r. split_and!; [exact Ho|done|]. right. by split_and!; [..|left].
  - st_go. apply wp_write_output. intros o Ho. st_go. change (servingComplete_ _) with (servingComplete_ s).
    destruct (blocking && servingComplete_ s) eqn:Ec; st_go; (split; [by constructor|]); exists [].
    + exists (buffer_ s), []. rewrite app_nil_r. split_and!; [exact Ho|done|]. by left.
    + unfold rest, todo. rewrite Ei. split_and!; [done..| |done]. cbn. unfold script_size. cbn. lia.
  - pose proof (read_arrivals (Readable a :: i) (kReadBufferSize - zlen (buffer_ s)) ltac:(unfold kReadBufferSize; lia) I) as Hr.
    destruct (adb_read (arrivals (Readable a :: i)) (kReadBufferSize - zlen (buffer_ s))) as [[[|x bs]|e] r] eqn:Er.
    + st_go. apply wp_write_output. intros o Ho. st_go. by apply Hend.
    + destruct Hr as [Hr1 Hr2]. cbn [length] in Hr2. st_go. set (s1 := s <| buffer_ := _ |> <| adb_in := _ |>).
      eapply wp_mono; [apply IH; cbn; lia|]. intros r' s'. apply (skip_after blocking s s1 []).
      assert (rest s = rest s1) as Erest.
      { unfold rest. rewrite Ei, Hr1. change (buffer_ s1) with (buffer_ s ++ x :: bs). rewrite <- app_assoc. done. }
      constructor; [by constructor|by rewrite Erest..|apply appended_nil|]. unfold todo. rewrite Ei. subst s1. cbn -[script_size left_in].
      rewrite length_app. cbn [length]. lia.
    + st_go. apply wp_write_output. intros o Ho. st_go. by apply Hend.
Qed.

Lemma wp_SkipToRequest fuel blocking : ∀ s,
  (script_size (adb_in s) < fuel)%nat → wp (SkipToRequest fuel blocking) (skip_post blocking s) s.
Proof.
  induction fuel as [|fuel IH]; intros s Hf; [lia|]. cbn [SkipToRequest]. st_go.
  pose proof (find_magic_spec (buffer_ s) (arriving (adb_in s))) as Hm. destruct (find_magic (buffer_ s)) as [n found].
  destruct Hm as (M1 & M2 & M3 & M4). st_go. set (Q := λ s1, progress s s1 (take n (buffer_ s)) ∧ buffer_ s1 = drop n (buffer_ s) ∧ adb_in s1 = adb_in s).
  apply wp_mono with (λ _ s1, Q s1).
  { assert (∀ o, appended (output_fd_ s) o (take n (buffer_ s)) → Q (s <| buffer_ := drop n (buffer_ s) |> <| output_fd_ := o |>)) as HQ.
    { intros o Ho. split; [|done]. constructor; cbn; try done. unfold todo. cbn. rewrite length_drop. lia. }
    destruct (Nat.ltb_spec 0 n); st_go.
    - apply wp_write_output. intros o Ho. st_go. exact (HQ o Ho).
    - assert (n = 0)%nat as -> by lia. pose proof (HQ _ (appended_nil (output_fd_ s))) as H0. rewrite drop_0 in H0. by destruct s. }
  intros _ s1 (P & Eb & Ei). st_go. rewrite Eb. set (b := drop n (buffer_ s)) in *.
  destruct (found && (8 + 4 <=? zlen b)) eqn:Efound.
  - apply andb_true_iff in Efound as [-> Hl%Z.leb_le]. destruct M4 as [_ M4]. st_go. eapply skip_after; [exact P|].
    destruct (stream_request b (arriving (adb_in s1)) ltac:(lia) M4) as [R1 R2]. rewrite <- Eb in R1, R2, Hl.
    split; [by constructor|]. exists []. rewrite <- Eb. split_and!; [exact R1|exact R2|apply appended_nil|].
    unfold todo. cbn. rewrite length_drop. lia.
  - assert (length b < 12)%nat as Hb.
    { destruct found; cbn in Efound; [apply Z.leb_gt in Efound; lia|lia]. }
    rewrite <- Eb in Hb |- *. rewrite <- Ei in Hf. revert P. generalize (take n (buffer_ s)). intros text P.
    eapply wp_mono; [|intros r s'; by apply (skip_after blocking s s1 text)]. apply (wp_poll_input (SkipToRequest fuel blocking) blocking s1); [|done]. intros s2 Hs2. apply IH. lia.
Qed.

Definition answer (r : skipped) : option RequestCommand :=
  match r with Closed => Some (Command DESTROY 0 0) | NoRequest => None | Request bs => Some (decode_command bs) end.

Lemma wp_ReadRequest blocking s :
  wp (ReadRequest blocking) (λ r s', ∃ sk, skip_post blocking s sk s' ∧ r = answer sk) s.
Proof.
  unfold ReadRequest. st_go. eapply wp_mono; [apply wp_SkipToRequest; lia|]. intros r s' H. st_go. by exists r.
Qed.
