(* ===== verification/IncrementalInv.v ===== *)
(** * What the server of an incremental installation sends

    The abstract specification is the set of logs [log]: sequences of blocks a
    device can be sent.  The invariant of the server says that what it has written,
    with what is still pending, is such a log, cut into chunks, and that the flags of
    the files record exactly what is in it. *)

From S2P Require Import Prelude State CString LibBase AdbIO AdbIOFacts IncrementalUtils IncrementalServer IncrementalFacts.
Import IU IS.
Local Open Scope Z_scope.
Local Open Scope record_scope.

(** ** Blocks on the wire *)

Inductive response := DataBlock (f i : nat) (lz4 : bool) (data : bytes) | HashBlock (f i : nat) (data : bytes) | Done.

Definition encode (r : response) : bytes :=
  match r with
  | DataBlock f i lz4 d =>
      ResponseHeader (Z.of_nat f) kTypeData (if lz4 then kCompressionLZ4 else kCompressionNone) (Z.of_nat i) (s16 (zlen d)) ++ d
  | HashBlock f i d => ResponseHeader (Z.of_nat f) kTypeHash kCompressionNone (Z.of_nat i) (s16 (zlen d)) ++ d
  | Done => ResponseHeader (-1) 0 0 0 0
  end.
Definition encode_all (rs : list response) : bytes := concat (encode <$> rs).
Definition chunk (rs : list response) : bytes := be32 (zlen (encode_all rs)) ++ encode_all rs.

Definition data_of (r : response) : bytes := match r with DataBlock _ _ _ d | HashBlock _ _ d => d | Done => [] end.

Lemma encode_all_app rs rs' : encode_all (rs ++ rs') = encode_all rs ++ encode_all rs'.
Proof. unfold encode_all. by rewrite fmap_app, concat_app. Qed.

Lemma encode_length r : zlen (encode r) = 10 + zlen (data_of r).
Proof. destruct r; cbn -[Z.of_nat]; lia. Qed.

(** ** Files and their trees *)

Definition leaf_count (f : File) : Z := (numBytesToNumBlocks (size f) + 127) / 128.
(** The number of nodes above the leaves, and the leaf of a block *)
Definition inner (f : File) : Z := zlen (sentTreeBlocks f) - leaf_count f.
Definition leaf (f : File) (i : Z) : Z := inner f + i / 128.

Record file_wf (fi : nat) (f : File) : Prop := {
  w_id : id f = Z.of_nat fi;
  w_index : Z.of_nat fi < 2 ^ 15;
  w_size : 0 ≤ size f < MAX_FILE;
  w_blocks : zlen (sentBlocks f) = numBytesToNumBlocks (size f);
  w_nodes : verity_tree_blocks_for_file (size f) = Ret (zlen (sentTreeBlocks f));
  w_tree : hasTree f = true → size f = 0 ∨ kBlockSize < size f;
  w_priority : Forall (λ b, 0 ≤ b) (priority_blocks_ f) ∧ zlen (priority_blocks_ f) < 2 ^ 31
}.

Lemma tree_index fi f i :
  file_wf fi f → hasTree f = true → 0 ≤ i < zlen (sentBlocks f) →
  0 ≤ inner f ∧ inner f ≤ leaf f i < zlen (sentTreeBlocks f) ∧ zlen (sentTreeBlocks f) < 2 ^ 31.
Proof.
  intros [_ _ Hs Hb Ht Hw _] Htree Hi. destruct (verity_spec (size f) Hs) as (t & Et & T1 & T2 & _). rewrite Et in Ht. injection Ht as ->.
  pose proof (num_blocks_bound (size f) Hs). rewrite Hb in Hi.
  assert (1 < numBytesToNumBlocks (size f)) as H1.
  { destruct (Hw Htree) as [E|E]; rewrite num_blocks_spec in * by done; [rewrite E in Hi; change ((0 + 4095) / 4096) with 0 in Hi; lia|].
    unfold kBlockSize in E. Z.div_mod_to_equations. lia. }
  specialize (T2 H1). unfold leaf, inner, leaf_count in *. split; [lia|].
  assert (0 ≤ i / 128 < (numBytesToNumBlocks (size f) + 127) / 128) by (Z.div_mod_to_equations; lia). lia.
Qed.

(** ** The log *)

Section log.
Context (LZ4_decompress : bytes → bytes) (files : list File).
Implicit Types (rs : list response) (fi i : nat).

Definition sent rs fi i : Prop := ∃ lz4 d, DataBlock fi i lz4 d ∈ rs.
Definition hashed rs fi i : Prop := ∃ d, HashBlock fi i d ∈ rs.

(** Every node of the tree can be read. *)
Definition tree_readable (f : File) : Prop :=
  ∀ j, 0 ≤ j < zlen (sentTreeBlocks f) → ∃ x d, ReadTreeBlock f j = Some (x :: d).

(** What may be sent: a data block at most once, with the contents of the file, after
    the leaf with its hash and, if the tree can be read, after all nodes above
    the leaves; a node of the tree at most once; and the end at most once, when every
    block of every file was sent. *)
Inductive log : list response → Prop :=
| log_nil : log []
| log_data rs fi f i lz4 d raw :
    log rs → files !! fi = Some f → Z.of_nat i < zlen (sentBlocks f) → ¬ sent rs fi i →
    ReadDataBlock f (Z.of_nat i) = Some raw → (if (lz4 : bool) then LZ4_decompress d else d) = raw → zlen d ≤ kBlockSize →
    (hasTree f = true → hashed rs fi (Z.to_nat (leaf f (Z.of_nat i))) ∧
      (tree_readable f → ∀ j, Z.of_nat j < inner f → hashed rs fi j)) →
    log (rs ++ [DataBlock fi i lz4 d])
| log_hash rs fi f i d :
    log rs → files !! fi = Some f → Z.of_nat i < zlen (sentTreeBlocks f) → ¬ hashed rs fi i →
    ReadTreeBlock f (Z.of_nat i) = Some d → d ≠ [] → zlen d ≤ kBlockSize → log (rs ++ [HashBlock fi i d])
| log_done rs :
    log rs → Done ∉ rs → (∀ fi f i, files !! fi = Some f → Z.of_nat i < zlen (sentBlocks f) → sent rs fi i) →
    log (rs ++ [Done]).

Lemma sent_app rs r fi i : sent (rs ++ [r]) fi i ↔ sent rs fi i ∨ ∃ lz4 d, r = DataBlock fi i lz4 d.
Proof.
  unfold sent. split.
  - intros (lz4 & d & [H|H%list_elem_of_singleton]%elem_of_app); [left; eauto|right; eauto].
  - intros [(lz4 & d & H)|(lz4 & d & ->)]; exists lz4, d; apply elem_of_app; [by left|right; by left].
Qed.
Lemma hashed_app rs r fi i : hashed (rs ++ [r]) fi i ↔ hashed rs fi i ∨ ∃ d, r = HashBlock fi i d.
Proof.
  unfold hashed. split.
  - intros (d & [H|H%list_elem_of_singleton]%elem_of_app); [left; eauto|right; eauto].
  - intros [(d & H)|(d & ->)]; exists d; apply elem_of_app; [by left|right; by left].
Qed.
End log.

(** ** Flags *)

Fixpoint trues (l : list bool) : nat := match l with [] => 0%nat | b :: l => (Nat.b2n b + trues l)%nat end.

Lemma trues_insert l i : l !! i = Some false → trues (<[i := true]> l) = S (trues l).
Proof. revert i. induction l as [|b l IH]; intros [|i]; cbn; [done..|by intros [= ->]|]. intros H. rewrite IH by done. lia. Qed.
Lemma trues_le l : (trues l ≤ length l)%nat.
Proof. induction l as [|[] l IH]; cbn; lia. Qed.
Lemma trues_all l i b : trues l = length l → l !! i = Some b → b = true.
Proof.
  revert i. induction l as [|c l IH]; intros i H; [done|]. cbn in H. pose proof (trues_le l). destruct c; cbn in H; [|lia].
  destruct i as [|i]; cbn; [by intros [= <-]|]. apply IH. lia.
Qed.

(** [l] has the flag of everything that satisfies [P], and no other. *)
Definition flags (l : list bool) (P : nat → Prop) : Prop := ∀ i b, l !! i = Some b → (b = true ↔ P i).

Lemma flags_insert l P P' i :
  flags l P → (∀ j, P' j ↔ P j ∨ j = i) → flags (<[i := true]> l) P'.
Proof.
  intros H HP j b. rewrite list_lookup_insert_Some. rewrite HP. intros [(-> & <- & _)|[Hne Hj]].
  - split; [by right|done].
  - rewrite (H _ _ Hj). split; [by left|]. intros [?|?]; [done|]. by destruct Hne.
Qed.
Lemma flags_iff l P P' : flags l P → (∀ j, P' j ↔ P j) → flags l P'.
Proof. intros H HP i b Hi. rewrite HP. by apply H. Qed.
Lemma replicate_flags n P : (∀ i, ¬ P i) → flags (replicate n false) P.
Proof. intros H i b [-> _]%lookup_replicate. split; [done|]. intros Hp. by destruct (H i). Qed.

(** A file during the service: the flags record what is in the log, and the nodes above
    the leaves are sent in order. *)
Record file_inv (rs : list response) (fi : nat) (f0 f : File) : Prop := {
  f_static : f = f0 <| sentBlocks := sentBlocks f |> <| sentBlocksCount := sentBlocksCount f |> <| sentTreeBlocks := sentTreeBlocks f |>;
  f_blocks : length (sentBlocks f) = length (sentBlocks f0);
  f_nodes : length (sentTreeBlocks f) = length (sentTreeBlocks f0);
  f_sent : flags (sentBlocks f) (sent rs fi);
  f_count : sentBlocksCount f = Z.of_nat (trues (sentBlocks f));
  f_hashed : flags (sentTreeBlocks f) (hashed rs fi);
  f_root : sentTreeBlocks f !! 0%nat = Some false → ∀ j, Z.of_nat j < inner f0 → sentTreeBlocks f !! j = Some false
}.

(** The nodes above the leaves are complete. *)
Definition tree_complete (f0 f : File) : Prop :=
  tree_readable f0 → 0 < inner f0 →
  sentTreeBlocks f !! 0%nat = Some true ∨ (∃ j, inner f0 ≤ Z.of_nat j ∧ sentTreeBlocks f !! j = Some true) →
  ∀ j, Z.of_nat j < inner f0 → sentTreeBlocks f !! j = Some true.

(** What is relied on of the compression library: it keeps within the bound it documents,
    and what it compresses can be decompressed. *)
Class LosslessLZ4 `{!LZ4} (LZ4_decompress : bytes → bytes) : Prop := {
  lz4_bound x : zlen x ≤ kBlockSize → zlen (LZ4_compress_default x) ≤ kCompressBound;
  lz4_lossless x : LZ4_compress_default x ≠ [] → LZ4_decompress (LZ4_compress_default x) = x
}.

Section inv.
Context `{HLZ : !LZ4} (LZ4_decompress : bytes → bytes) `{HLL : !LosslessLZ4 LZ4_decompress} (files : list File) (out0 : outstream).
Implicit Types (s : server) (rs : list response) (fi : nat).

(** The log, as far as it was written in chunks and as far as it is pending. *)
Definition emitted rs s : Prop :=
  ∃ cs ps, rs = concat cs ++ ps ∧ appended out0 (adb_out s) (concat (chunk <$> cs)) ∧
    pending s = encode_all ps ∧ 4 + zlen (pending s) ≤ kChunkFlushSize ∧ Forall (λ c, zlen (encode_all c) ≤ kPendingSize) cs.

Definition files_inv rs s : Prop :=
  length (files_ s) = length files ∧
  ∀ fi f0 f, files !! fi = Some f0 → files_ s !! fi = Some f → file_inv rs fi f0 f.

Record sends s s' : Prop := {
  se_in : adb_in s' = adb_in s;
  se_output : output_fd_ s' = output_fd_ s;
  se_buffer : buffer_ s' = buffer_ s;
  se_prefetches : prefetches_ s' = prefetches_ s;
  se_complete : servingComplete_ s' = servingComplete_ s
}.

Lemma wp_Flush rs s :
  emitted rs s → wp Flush (λ _ s', emitted rs s' ∧ pending s' = [] ∧ sends s s' ∧ files_ s' = files_ s) s.
Proof.
  intros (cs & ps & -> & Ho & Hp & Hl & Hcs). unfold Flush. st_go. destruct (Z.eqb_spec (zlen (pending s)) 0) as [E|E].
  - st_go. assert (pending s = []) as Ep by (destruct (pending s); [done|cbn in E; lia]). split_and!; [by exists cs, ps|done|by constructor|done].
  - st_go. apply wp_write_adb. intros ok o Ha. st_go. split_and!; [|done|by constructor|done].
    exists (cs ++ [ps]), []. rewrite concat_app, fmap_app, concat_app. cbn. rewrite !app_nil_r. split_and!; [done| |done|cbn; unfold kChunkFlushSize, kBlockSize; lia|].
    + rewrite Hp in Ha. eapply appended_app; [exact Ho|exact Ha].
    + apply Forall_app. split; [done|]. apply Forall_singleton. rewrite <- Hp. unfold kPendingSize, kChunkFlushSize, kBlockSize in *. lia.
Qed.

Lemma wp_Send rs s r flush :
  emitted rs s → zlen (data_of r) ≤ kBlockSize →
  wp (Send (encode r) flush) (λ _ s', emitted (rs ++ [r]) s' ∧ sends s s' ∧ files_ s' = files_ s) s.
Proof.
  intros (cs & ps & -> & Ho & Hp & Hl & Hcs) Hd. unfold Send. st_go. pose proof (encode_length r).
  unfold kPendingSize, kChunkFlushSize, kBlockSize in *. zbool. st_go.
  assert (pending s ++ encode r = encode_all (ps ++ [r])) as Ee.
  { rewrite encode_all_app, Hp. unfold encode_all. cbn. by rewrite app_nil_r. }
  set (s1 := s <| pending := pending s ++ encode r |>).
  assert (sends s s1) as Hs1 by by constructor.
  destruct (flush || _) eqn:Ef.
  - (* through a server that may have more pending *)
    unfold Flush. st_go. change (pending s1) with (pending s ++ encode r). rewrite Ee. rewrite (proj2 (Z.eqb_neq _ _)).
    2: { rewrite <- Ee, length_app. lia. }
    st_go. apply wp_write_adb. intros ok o Ha. st_go. split_and!; [|by constructor|done].
    exists (cs ++ [ps ++ [r]]), []. rewrite concat_app, fmap_app, concat_app. cbn. rewrite !app_nil_r.
    split_and!; [by rewrite app_assoc| |done|cbn; unfold kChunkFlushSize, kBlockSize; lia|].
    + eapply appended_app; [exact Ho|exact Ha].
    + apply Forall_app. split; [done|]. apply Forall_singleton. rewrite <- Ee, length_app. unfold kPendingSize, kChunkFlushSize, kBlockSize. lia.
  - st_go. split_and!; [|done|done]. exists cs, (ps ++ [r]). split_and!; [by rewrite app_assoc|done|done| |done].
    apply orb_false_iff in Ef as [_ Ef%Z.ltb_ge]. unfold kChunkFlushSize, kBlockSize. exact Ef.
Qed.

(** *** Files *)

Definition about (r : response) fi : Prop := match r with DataBlock f _ _ _ | HashBlock f _ _ => f = fi | Done => False end.

Lemma file_inv_other rs r fi f0 f : file_inv rs fi f0 f → ¬ about r fi → file_inv (rs ++ [r]) fi f0 f.
Proof.
  intros [H1 H2 H3 H4 H5 H6 H7] Ha. constructor; try done.
  - eapply flags_iff; [done|]. intros j. rewrite sent_app. split; [|by left]. intros [?|(lz & d & ->)]; [done|]. by destruct Ha.
  - eapply flags_iff; [done|]. intros j. rewrite hashed_app. split; [|by left]. intros [?|(d & ->)]; [done|]. by destruct Ha.
Qed.

Lemma files_inv_alter rs r fi f0 f g s :
  files_inv rs s → files !! fi = Some f0 → files_ s !! fi = Some f → (∀ fj, fj ≠ fi → ¬ about r fj) →
  file_inv (rs ++ [r]) fi f0 (g f) → files_inv (rs ++ [r]) (s <| files_ ::= alter g fi |>).
Proof.
  intros [Hl Hi] H0 Hf Ha Hg. split; cbn; [by rewrite length_alter|]. intros fj f0' f' H0'. destruct (decide (fj = fi)) as [->|Hne].
  - rewrite list_lookup_alter_eq, Hf. intros [= <-]. by simplify_eq.
  - rewrite list_lookup_alter_ne by done. intros Hf'. apply file_inv_other; [by eapply Hi|by apply Ha].
Qed.

Lemma files_lookup rs s fi f0 : files_inv rs s → files !! fi = Some f0 → ∃ f, files_ s !! fi = Some f ∧ file_inv rs fi f0 f.
Proof.
  intros [Hl Hi] H0. destruct (lookup_lt_is_Some_2 (files_ s) fi) as [f Hf].
  { rewrite Hl. by eapply lookup_lt_Some. }
  exists f. split; [done|by eapply Hi].
Qed.

Lemma wp_file_at Q s fi f : files_ s !! fi = Some f → Q f s → wp (file_at (Z.of_nat fi)) Q s.
Proof.
  intros Hf HQ. unfold file_at. st_go. eapply wp_lift; [|exact HQ]. unfold at_index. rewrite (proj2 (Z.ltb_ge _ _)) by lia. by rewrite Nat2Z.id, Hf.
Qed.

Section static.
Context rs fi f0 f (Hf : file_inv rs fi f0 f).
Lemma static_id : id f = id f0. Proof using Hf. by rewrite (f_static _ _ _ _ Hf). Qed.
Lemma static_size : size f = size f0. Proof using Hf. by rewrite (f_static _ _ _ _ Hf). Qed.
Lemma static_data i : ReadDataBlock f i = ReadDataBlock f0 i. Proof using Hf. by rewrite (f_static _ _ _ _ Hf). Qed.
Lemma static_node i : ReadTreeBlock f i = ReadTreeBlock f0 i. Proof using Hf. by rewrite (f_static _ _ _ _ Hf). Qed.
Lemma static_tree : hasTree f = hasTree f0. Proof using Hf. by rewrite (f_static _ _ _ _ Hf). Qed.
Lemma static_priority : priority_blocks_ f = priority_blocks_ f0. Proof using Hf. by rewrite (f_static _ _ _ _ Hf). Qed.
End static.

(** *** Nodes of the tree *)

Record sinv rs s : Prop := {
  i_emitted : emitted rs s;
  i_log : log LZ4_decompress files rs;
  i_files : files_inv rs s
}.

Lemma read_node_short f i d : ReadTreeBlock f i = Some d → zlen d ≤ kBlockSize.
Proof.
  unfold ReadTreeBlock, adb_pread. destruct (tree_fd_ f); [|done]. destruct (_ || _); [done|]. intros [= <-].
  unfold ztake. rewrite length_take. unfold kBlockSize. lia.
Qed.
Lemma read_data_short f i d : ReadDataBlock f i = Some d → zlen d ≤ kBlockSize.
Proof. unfold ReadDataBlock, adb_pread. destruct (_ || _); [done|]. intros [= <-]. unfold ztake. rewrite length_take. unfold kBlockSize. lia. Qed.

Lemma wp_SendTreeBlock rs s fi f0 f i :
  sinv rs s → files !! fi = Some f0 → files_ s !! fi = Some f → Z.of_nat i < zlen (sentTreeBlocks f0) → ¬ hashed rs fi i →
  wp (SendTreeBlock (Z.of_nat fi) (Z.of_nat i))
    (λ ok s', sends s s' ∧ files_ s' = files_ s ∧
      if (ok : bool) then ∃ d, emitted (rs ++ [HashBlock fi i d]) s' ∧ log LZ4_decompress files (rs ++ [HashBlock fi i d])
      else s' = s ∧ ¬ tree_readable f0) s.
Proof.
  intros [He Hl Hi] H0 Hf Hlt Hn. unfold SendTreeBlock. st_go. eapply wp_file_at; [done|].
  rewrite (static_node rs fi f0) by by apply Hi. destruct (ReadTreeBlock f0 (Z.of_nat i)) as [[|x d]|] eqn:Er.
  - st_go. split_and!; [by constructor|done|done|]. intros Ht. destruct (Ht (Z.of_nat i) ltac:(lia)) as (? & ? & E). congruence.
  - st_go. pose proof (read_node_short _ _ _ Er). eapply wp_mono; [apply (wp_Send rs s (HashBlock fi i (x :: d)) false He); done|].
    intros [] s' (E1 & E2 & E3). st_go. split_and!; [done..|]. exists (x :: d). split; [done|]. by eapply log_hash.
  - st_go. split_and!; [by constructor|done|done|]. intros Ht. destruct (Ht (Z.of_nat i) ltac:(lia)) as (? & ? & E). congruence.
Qed.

Definition mark (i : nat) (f : File) : File := f <| sentTreeBlocks ::= <[i := true]> |>.

Lemma mark_inv rs fi f0 f i d :
  file_inv rs fi f0 f → (inner f0 ≤ Z.of_nat i ∨ i = 0%nat ∨ sentTreeBlocks f !! 0%nat = Some true) →
  file_inv (rs ++ [HashBlock fi i d]) fi f0 (mark i f).
Proof.
  intros [H1 H2 H3 H4 H5 H6 H7] Hr. constructor; unfold mark; cbn; try done.
  - rewrite H1. by cbn.
  - by rewrite length_insert.
  - eapply flags_iff; [done|]. intros j. rewrite sent_app. split; [|by left]. intros [?|(lz & d' & ?)]; [done|by simplify_eq].
  - eapply flags_insert; [done|]. intros j. rewrite hashed_app. split; intros [?|?]; try by left.
    + destruct H as (d' & ?). simplify_eq. by right.
    + subst. right. by exists d.
  - intros H0 j Hj. rewrite list_lookup_insert_Some in H0. destruct H0 as [(_ & [=] & _)|[Hne H0]].
    destruct Hr as [Hr|[->|Hr]]; [|done|congruence]. rewrite list_lookup_insert_ne by lia. by apply H7.
Qed.

(** Only nodes of the tree of [fi] were sent. *)
Record hashes fi rs s rs' s' : Prop := {
  h_log : ∃ l, rs' = rs ++ l ∧ ∀ r, r ∈ l → ∃ i d, r = HashBlock fi i d;
  h_sends : sends s s';
  h_inv : sinv rs' s';
  h_other : ∀ fj, fj ≠ fi → files_ s' !! fj = files_ s !! fj
}.

Lemma sends_refl s : sends s s.
Proof. by constructor. Qed.
Lemma sends_trans s1 s2 s3 : sends s1 s2 → sends s2 s3 → sends s1 s3.
Proof. intros [] []. constructor; congruence. Qed.

Lemma hashes_refl fi rs s : sinv rs s → hashes fi rs s rs s.
Proof. intros H. constructor; [|apply sends_refl|done|done]. exists []. rewrite app_nil_r. split; [done|]. by intros r ?%elem_of_nil. Qed.
Lemma hashes_trans fi rs s rs1 s1 rs2 s2 : hashes fi rs s rs1 s1 → hashes fi rs1 s1 rs2 s2 → hashes fi rs s rs2 s2.
Proof.
  intros [(l & -> & Hl) H2 H3 H4] [(l' & -> & Hl') H2' H3' H4'].
  constructor; [|by eapply sends_trans|done|intros fj Hne; by rewrite H4', H4].
  exists (l ++ l'). rewrite app_assoc. split; [done|]. intros r [?|?]%elem_of_app; auto.
Qed.

Lemma hashes_sent fi rs s rs' s' fj i : hashes fi rs s rs' s' → sent rs' fj i → sent rs fj i.
Proof.
  intros [(l & -> & Hl) _ _ _] (lz & d & [?|H]%elem_of_app); [by exists lz, d|]. by destruct (Hl _ H) as (? & ? & [=]).
Qed.

(** Sending one node and marking it. *)
Lemma wp_node rs s fi f0 f i (k : ST server bool) Q :
  sinv rs s → files !! fi = Some f0 → files_ s !! fi = Some f → sentTreeBlocks f !! i = Some false →
  (inner f0 ≤ Z.of_nat i ∨ i = 0%nat ∨ sentTreeBlocks f !! 0%nat = Some true) →
  (∀ rs' s', hashes fi rs s rs' s' → files_ s' !! fi = Some (mark i f) → wp k Q s') →
  (¬ tree_readable f0 → Q false s) →
  wp (ok ← SendTreeBlock (Z.of_nat fi) (Z.of_nat i);
      if negb ok then mret false else _ ← mark_tree (Z.of_nat fi) (Z.of_nat i); k) Q s.
Proof.
  intros Hs H0 Hf Hi Hr Hk Hfail. pose proof Hs as [He Hl Hfs]. pose proof (proj2 Hfs _ _ _ H0 Hf) as Hff.
  st_go. eapply wp_mono; [eapply (wp_SendTreeBlock rs s fi f0 f i); try done|].
  - rewrite <- (f_nodes _ _ _ _ Hff). apply lookup_lt_Some in Hi. lia.
  - intros Hh. by apply (f_hashed _ _ _ _ Hff i false Hi) in Hh.
  - intros ok s' (S1 & S2 & S3). destruct ok; cbn [negb].
    2: { destruct S3 as [-> Ht]. st_go. by apply Hfail. }
    destruct S3 as (d & E1 & E2). unfold mark_tree, set_file. st_go. rewrite !Nat2Z.id. fold (mark i).
    apply (Hk (rs ++ [HashBlock fi i d])).
    + constructor.
      * exists [HashBlock fi i d]. split; [done|]. intros r ->%list_elem_of_singleton. eauto.
      * destruct S1. by constructor.
      * constructor; [done|done|]. apply (files_inv_alter rs (HashBlock fi i d) fi f0 f); [by split; rewrite S2; apply Hfs|done|by rewrite S2| |by apply mark_inv].
        intros fj Hne Ha. by destruct Hne.
      * intros fj Hne. cbn. rewrite list_lookup_alter_ne by done. by rewrite S2.
    + cbn. by rewrite list_lookup_alter_eq, S2, Hf.
Qed.

Lemma wp_send_inner fi f0 n : ∀ i rs s f,
  sinv rs s → files !! fi = Some f0 → files_ s !! fi = Some f →
  Z.of_nat (i + n) = inner f0 → (∀ j, (j < i)%nat → sentTreeBlocks f !! j = Some true) →
  (∀ j, (i ≤ j < i + n)%nat → sentTreeBlocks f !! j = Some false) →
  wp (send_inner n (Z.of_nat fi) (Z.of_nat i))
    (λ ok s', ∃ rs' f', hashes fi rs s rs' s' ∧ files_ s' !! fi = Some f' ∧
      (∀ j, sentTreeBlocks f !! j = Some true → sentTreeBlocks f' !! j = Some true) ∧
      if (ok : bool) then ∀ j, Z.of_nat j < inner f0 → sentTreeBlocks f' !! j = Some true else ¬ tree_readable f0) s.
Proof.
  induction n as [|n IH]; intros i rs s f Hs H0 Hf Hn Ht Hfalse; cbn [send_inner].
  - st_go. exists rs, f. split_and!; [by apply hashes_refl|done|done|]. intros j Hj. apply Ht. lia.
  - eapply wp_node; [done..|apply Hfalse; lia| | |].
    + right. destruct i as [|i]; [by left|right]. apply Ht. lia.
    + intros rs1 s1 Hh Hf1. replace (Z.of_nat i + 1) with (Z.of_nat (S i)) by lia.
      eapply wp_mono; [apply (IH (S i) rs1 s1 (mark i f)); [by destruct Hh|done|done|lia| |]|].
      * intros j Hj. unfold mark. cbn. destruct (decide (j = i)) as [->|]; [|rewrite list_lookup_insert_ne by done; apply Ht; lia].
        apply list_lookup_insert_eq. eapply lookup_lt_Some. apply Hfalse. lia.
      * intros j Hj. unfold mark. cbn. rewrite list_lookup_insert_ne by lia. apply Hfalse. lia.
      * intros ok s' (rs' & f' & A1 & A2 & A3 & A4). exists rs', f'. split_and!; [by eapply hashes_trans|done| |done].
        intros j Hj. apply A3. unfold mark. cbn. apply list_lookup_insert_Some. destruct (decide (j = i)) as [->|]; [left|by right].
        split_and!; [done..|]. by eapply lookup_lt_Some.
    + intros Hnt. exists rs, f. split_and!; [by apply hashes_refl|done..].
Qed.

(** What the nodes that were sent say of a data block. *)
Definition covered rs fi f0 (b : nat) : Prop :=
  hasTree f0 = true → hashed rs fi (Z.to_nat (leaf f0 (Z.of_nat b))) ∧
    (tree_readable f0 → ∀ j, Z.of_nat j < inner f0 → hashed rs fi j).

Lemma mark_lookup f i j : sentTreeBlocks f !! i = Some false → sentTreeBlocks (mark i f) !! j = (if decide (j = i) then Some true else sentTreeBlocks f !! j).
Proof.
  intros Hi. unfold mark. cbn. destruct (decide (j = i)) as [->|Hne]; [|by rewrite list_lookup_insert_ne].
  apply list_lookup_insert_eq. by eapply lookup_lt_Some.
Qed.

Lemma covered_flags rs fi f0 f b :
  file_inv rs fi f0 f → 0 ≤ leaf f0 (Z.of_nat b) → sentTreeBlocks f !! Z.to_nat (leaf f0 (Z.of_nat b)) = Some true →
  (tree_readable f0 → ∀ j, Z.of_nat j < inner f0 → sentTreeBlocks f !! j = Some true) → covered rs fi f0 b.
Proof.
  intros Hf Hl H1 H2 _. split; [by apply (f_hashed _ _ _ _ Hf _ true H1)|]. intros Ht j Hj. by apply (f_hashed _ _ _ _ Hf j true); [apply H2|].
Qed.

Lemma wp_SendTree rs s fi f0 f (b : nat) :
  sinv rs s → files !! fi = Some f0 → file_wf fi f0 → files_ s !! fi = Some f → tree_complete f0 f → Z.of_nat b < zlen (sentBlocks f0) →
  wp (SendTreeBlocksForDataBlock (Z.of_nat fi) (Z.of_nat b))
    (λ ok s', ∃ rs' f', hashes fi rs s rs' s' ∧ files_ s' !! fi = Some f' ∧ tree_complete f0 f' ∧
      if (ok : bool) then covered rs' fi f0 b else hasTree f0 = true ∧ ¬ tree_readable f0) s.
Proof.
  intros Hs H0 Hw Hf Hc Hb. pose proof (proj2 (i_files _ _ Hs) _ _ _ H0 Hf) as Hff. unfold SendTreeBlocksForDataBlock. st_go.
  eapply wp_file_at; [done|]. rewrite (static_tree _ _ _ _ Hff), (static_size _ _ _ _ Hff), (f_nodes _ _ _ _ Hff).
  destruct (hasTree f0) eqn:Eh; cbn [negb].
  2: { st_go. exists rs, f. split_and!; [by apply hashes_refl|done|done|]. intros Ht. congruence. }
  destruct (tree_index fi f0 (Z.of_nat b) Hw Eh ltac:(lia)) as (T1 & [T2 T3] & T4).
  rewrite s32_id by lia. pose proof (num_blocks_bound (size f0) (w_size _ _ Hw)). change kHashesPerBlock with 128. rewrite !Z.quot_div_nonneg by lia.
  replace (numBytesToNumBlocks (size f0) + 128 - 1) with (numBytesToNumBlocks (size f0) + 127) by lia.
  fold (leaf_count f0). fold (inner f0). fold (leaf f0 (Z.of_nat b)). set (lf := Z.to_nat (leaf f0 (Z.of_nat b))).
  assert (leaf f0 (Z.of_nat b) = Z.of_nat lf) as El by lia. rewrite El.
  destruct (lookup_lt_is_Some_2 (sentTreeBlocks f) lf) as [v Hv]; [rewrite (f_nodes _ _ _ _ Hff); lia|].
  eapply wp_bind, wp_lift; [unfold at_index; rewrite (proj2 (Z.ltb_ge _ _)) by lia; by rewrite Nat2Z.id, Hv|].
  destruct v.
  { st_go. exists rs, f. split_and!; [by apply hashes_refl|done|done|]. eapply covered_flags; [done|lia|done|].
    intros Ht j Hj. apply Hc; [done|lia| |done]. right. exists lf. split; [lia|done]. }
  eapply wp_node; [done..|left; lia| |].
  2: { intros Hnt. exists rs, f. split_and!; [by apply hashes_refl|done|by intros Ht|done|done]. }
  intros rs1 s1 Hh Hf1. pose proof (proj2 (i_files _ _ (h_inv _ _ _ _ _ Hh)) _ _ _ H0 Hf1) as Hff1.
  st_go. eapply wp_file_at; [done|].
  assert (sentTreeBlocks (mark lf f) !! lf = Some true) as Elf by by rewrite mark_lookup, decide_True.
  assert (∀ j, Z.of_nat j < inner f0 → sentTreeBlocks (mark lf f) !! j = sentTreeBlocks f !! j) as Einner.
  { intros j Hj. rewrite mark_lookup, decide_False by (done || lia). done. }
  destruct (Z.eqb_spec (inner f0) 0) as [E0|E0].
  { st_go. exists rs1, (mark lf f). split_and!; [done|done|intros ? ?; lia|]. eapply covered_flags; [done|lia|done|]. intros; lia. }
  destruct (lookup_lt_is_Some_2 (sentTreeBlocks f) 0) as [v Hv0]; [rewrite (f_nodes _ _ _ _ Hff); lia|].
  eapply wp_bind, wp_lift; [transitivity (deref (sentTreeBlocks (mark lf f) !! 0%nat)); [reflexivity|]; rewrite (Einner 0%nat) by lia; by rewrite Hv0|]. destruct v.
  - st_go. exists rs1, (mark lf f).
    assert (tree_readable f0 → ∀ j, Z.of_nat j < inner f0 → sentTreeBlocks (mark lf f) !! j = Some true) as Hall.
    { intros Ht j Hj. rewrite Einner by done. apply Hc; [done|lia|by left|done]. }
    split_and!; [done|done|by intros Ht _ _; apply Hall|]. by eapply covered_flags; [|lia|..].
  - eapply wp_mono; [apply (wp_send_inner fi f0 (Z.to_nat (inner f0)) 0 rs1 s1 (mark lf f)); [by destruct Hh|done|done|lia|intros; lia|]|].
    + intros j Hj. rewrite Einner by lia. apply (f_root _ _ _ _ Hff); [done|lia].
    + intros ok s' (rs' & f' & A1 & A2 & A3 & A4). pose proof (proj2 (i_files _ _ (h_inv _ _ _ _ _ A1)) _ _ _ H0 A2) as Hff'.
      exists rs', f'. destruct ok.
      * split_and!; [by eapply hashes_trans|done|by intros _ _ _|]. eapply covered_flags; [done|lia|by apply A3|by intros _].
      * split_and!; [by eapply hashes_trans|done|by intros Ht|done|done].
Qed.

(** *** Data blocks *)

Definition complete s : Prop := ∀ fi f0 f, files !! fi = Some f0 → files_ s !! fi = Some f → tree_complete f0 f.

Definition is_data (r : response) : bool := match r with DataBlock _ _ _ _ => true | _ => false end.
Definition data_count (l : list response) : nat := length (filter (λ r, is_data r = true) l).

(** The log has grown by [n] data blocks, and nodes. *)
Record grows (n : nat) rs s rs' s' : Prop := {
  g_log : ∃ l, rs' = rs ++ l ∧ (Done ∉ l) ∧ data_count l = n;
  g_sends : sends s s';
  g_inv : sinv rs' s';
  g_complete : complete s'
}.

Definition readable (f : File) : Prop :=
  (∀ i, 0 ≤ i < zlen (sentBlocks f) → is_Some (ReadDataBlock f i)) ∧ (hasTree f = true → tree_readable f).

Lemma grows_refl rs s : sinv rs s → complete s → grows 0 rs s rs s.
Proof. intros H H'. constructor; [|apply sends_refl|done|done]. exists []. rewrite app_nil_r. split_and!; [done|apply not_elem_of_nil|done]. Qed.
Lemma grows_trans n n' rs s rs1 s1 rs2 s2 : grows n rs s rs1 s1 → grows n' rs1 s1 rs2 s2 → grows (n + n') rs s rs2 s2.
Proof.
  intros [(l & -> & Hl & <-) H2 H3 H4] [(l' & -> & Hl' & <-) H2' H3' H4']. constructor; [|by eapply sends_trans|done|done].
  exists (l ++ l'). rewrite app_assoc. split_and!; [done|rewrite elem_of_app; tauto|]. unfold data_count. by rewrite filter_app, length_app.
Qed.
Lemma grows_hashes fi f0 f' rs s rs' s' :
  hashes fi rs s rs' s' → files !! fi = Some f0 → files_ s' !! fi = Some f' → tree_complete f0 f' → complete s → grows 0 rs s rs' s'.
Proof.
  intros [(l & -> & Hl) H2 H3 H4] H0 Hf Ht Hc. constructor; [|done|done|].
  - exists l. split_and!; [done|by intros H; destruct (Hl _ H) as (? & ? & [=])|]. unfold data_count. clear -Hl. induction l as [|r l IH]; [done|].
    destruct (Hl r ltac:(by left)) as (i & d & ->). rewrite filter_cons_False by done. apply IH. intros r' Hr'. apply Hl. by right.
  - intros fj f0' f'' H0' Hf'. destruct (decide (fj = fi)) as [->|Hne]; [by simplify_eq|]. rewrite H4 in Hf' by done. by eapply Hc.
Qed.
Lemma grows_sent n rs s rs' s' fj i : grows n rs s rs' s' → sent rs fj i → sent rs' fj i.
Proof. intros [(l & -> & _) _ _ _] (lz & d & H). exists lz, d. apply elem_of_app. by left. Qed.

Definition mark_data (b : nat) (f : File) : File := f <| sentBlocks ::= <[b := true]> |> <| sentBlocksCount ::= Z.succ |>.

Lemma mark_data_inv rs fi f0 f b lz d :
  file_inv rs fi f0 f → sentBlocks f !! b = Some false → file_inv (rs ++ [DataBlock fi b lz d]) fi f0 (mark_data b f).
Proof.
  intros [H1 H2 H3 H4 H5 H6 H7] Hb. constructor; unfold mark_data; cbn -[Z.of_nat]; try done.
  - rewrite H1. by cbn.
  - by rewrite length_insert.
  - eapply flags_insert; [done|]. intros j. rewrite sent_app. split; intros [?|?]; try by left.
    + destruct H as (? & ? & ?). simplify_eq. by right.
    + subst. right. by exists lz, d.
  - rewrite H5, trues_insert by done. lia.
  - eapply flags_iff; [done|]. intros j. rewrite hashed_app. split; [|by left]. intros [?|(d' & ?)]; [done|by simplify_eq].
Qed.

(** What is sent of a block. *)
Definition packed (raw : bytes) : bool * bytes :=
  let compressed := LZ4_compress_default raw in
  let use := (0 <? s16 (zlen compressed)) && (s16 (zlen compressed) <? kCompressedSizeMax) in
  (use, if use then compressed else raw).

Lemma packed_spec raw lz d :
  zlen raw ≤ kBlockSize → packed raw = (lz, d) → (if lz then LZ4_decompress d else d) = raw ∧ zlen d ≤ kBlockSize.
Proof using HLL.
  intros Hl. pose proof (lz4_bound raw Hl) as Hb. unfold packed. change kCompressBound with 4128 in Hb. rewrite s16_id by lia.
  destruct (_ && _) eqn:E; intros [= <- <-]; [|done]. apply andb_true_iff in E as [E1%Z.ltb_lt E2%Z.ltb_lt].
  split; [apply lz4_lossless; by intros H; rewrite H in E1|]. unfold kCompressedSizeMax, kBlockSize in *. change (4096 * 95 / 100) with 3891 in E2. lia.
Qed.

Lemma wp_SendDataBlock rs s fi f0 (b : nat) flush :
  sinv rs s → complete s → files !! fi = Some f0 → file_wf fi f0 →
  wp (SendDataBlock (Z.of_nat fi) (Z.of_nat b) flush)
    (λ r s', ∃ rs',
      match r with
      | Sent => grows 1 rs s rs' s' ∧ sent rs' fi b
      | Skipped => grows 0 rs s rs' s' ∧ (Z.of_nat b < zlen (sentBlocks f0) → sent rs fi b)
      | SendError => grows 0 rs s rs' s' ∧ ¬ readable f0
      end) s.
Proof using HLL.
  intros Hs Hc H0 Hw. destruct (files_lookup rs s fi f0 (i_files _ _ Hs) H0) as (f & Hf & Hff).
  unfold SendDataBlock. st_go. eapply wp_file_at; [done|]. rewrite (f_blocks _ _ _ _ Hff).
  destruct (Z.leb_spec (zlen (sentBlocks f0)) (Z.of_nat b)) as [Hge|Hlt].
  { st_go. exists rs. split; [by apply grows_refl|lia]. }
  destruct (lookup_lt_is_Some_2 (sentBlocks f) b) as [v Hv]; [rewrite (f_blocks _ _ _ _ Hff); lia|].
  eapply wp_bind, wp_lift; [unfold at_index; rewrite (proj2 (Z.ltb_ge _ _)) by lia; by rewrite Nat2Z.id, Hv|]. destruct v.
  { st_go. exists rs. split; [by apply grows_refl|]. intros _. by apply (f_sent _ _ _ _ Hff b true Hv). }
  st_go. eapply wp_mono; [apply (wp_SendTree rs s fi f0 f b); try done; by eapply Hc|].
  intros ok s1 (rs1 & f1 & A1 & A2 & A3 & A4). pose proof (grows_hashes _ _ _ _ _ _ _ A1 H0 A2 A3 Hc) as Hg1.
  destruct ok; cbn [negb].
  2: { st_go. exists rs1. split; [done|]. intros [_ Hr]. destruct A4 as [Ht Hn]. by apply Hn, Hr. }
  rewrite (static_data _ _ _ _ Hff). destruct (ReadDataBlock f0 (Z.of_nat b)) as [raw|] eqn:Er.
  2: { st_go. exists rs1. split; [done|]. intros [Hr _]. destruct (Hr (Z.of_nat b) ltac:(lia)) as [? ?]. congruence. }
  pose proof (read_data_short _ _ _ Er) as Hshort. destruct (packed raw) as [use d] eqn:Ep. destruct (packed_spec raw use d Hshort Ep) as [D1 D2].
  injection Ep as <- <-. unfold set_file. st_go. rewrite !Nat2Z.id. fold (mark_data b). pose proof (g_inv _ _ _ _ _ Hg1) as [E1 E2 E3].
  pose proof (proj2 E3 _ _ _ H0 A2) as Hff1. set (s2 := s1 <| files_ ::= alter (mark_data b) fi |>).
  assert (¬ sent rs1 fi b) as Hns.
  { intros Hsent. apply (hashes_sent _ _ _ _ _ _ _ A1) in Hsent. by apply (f_sent _ _ _ _ Hff b false Hv) in Hsent. }
  assert (sentBlocks f1 !! b = Some false) as Hv1.
  { destruct (lookup_lt_is_Some_2 (sentBlocks f1) b) as [v Hv1]; [rewrite (f_blocks _ _ _ _ Hff1); lia|]. rewrite Hv1. destruct v; [|done].
    destruct Hns. by apply (f_sent _ _ _ _ Hff1 b true Hv1). }
  match goal with |- context [Send (ResponseHeader _ _ _ _ _ ++ ?dd) _] => set (data := dd) in * end.
  match type of D1 with (if ?u then _ else _) = _ => set (use := u) in * end.
  eapply wp_mono; [apply (wp_Send rs1 s2 (DataBlock fi b use data) flush E1 D2)|].
  intros [] s3 (S1 & S2 & S3). st_go. exists (rs1 ++ [DataBlock fi b use data]).
  split; [|apply sent_app; right; eauto]. apply (grows_trans 0 1 rs s rs1 s1); [done|]. constructor.
  - exists [DataBlock fi b use data]. split_and!; [done|by intros [=]%list_elem_of_singleton|done].
  - destruct S2. by constructor.
  - constructor; [done|by eapply log_data|]. pose proof (files_inv_alter rs1 (DataBlock fi b use data) fi f0 f1 (mark_data b) s1 E3 H0 A2) as Hfi.
    destruct Hfi as [F1 F2]; [intros fj Hne Ha; by destruct Hne|by apply mark_data_inv|]. split; rewrite S3; [exact F1|exact F2].
  - intros fj f0' f' H0' Hf'. rewrite S3 in Hf'. cbn in Hf'. destruct (decide (fj = fi)) as [->|Hne].
    + rewrite list_lookup_alter_eq, A2 in Hf'. cbn in Hf'. simplify_eq. exact A3.
    + rewrite list_lookup_alter_ne in Hf' by done. by eapply (g_complete _ _ _ _ _ Hg1).
Qed.
End inv.
