(* ===== verification/IncrementalLoop.v ===== *)
(** * The loop of the server of an incremental installation

    Prefetching sends what it was asked for; every request is handled; the log stays
    one of the specification. *)

From S2P Require Import Prelude State CString LibBase AdbIO AdbIOFacts IncrementalUtils IncrementalServer IncrementalFacts IncrementalInv.
Import IU IS.
Local Open Scope Z_scope.
Local Open Scope record_scope.

Section loop.
Context `{HLZ : !LZ4} (LZ4_decompress : bytes → bytes) `{HLL : !LosslessLZ4 LZ4_decompress} (files : list File) (out0 : outstream).
Context (Hwf : ∀ fi f0, files !! fi = Some f0 → file_wf fi f0).
Implicit Types (s : server) (rs : list response) (fi : nat) (p : PrefetchState).

Local Abbreviation sinv := (sinv LZ4_decompress files out0).
Local Abbreviation complete := (complete files).
Local Abbreviation grows := (grows LZ4_decompress files out0).

(** ** Prefetching *)

(** The blocks of [bs] that are blocks of the file were sent, if they can be read. *)
Definition covers rs fi f0 (P : nat → Prop) : Prop :=
  readable f0 → ∀ j, P j → Z.of_nat j < zlen (sentBlocks f0) → sent rs fi j.

Lemma covers_grows n rs s rs' s' fi f0 P : grows n rs s rs' s' → covers rs fi f0 P → covers rs' fi f0 P.
Proof. intros Hg Hc Hr j Hj Hl. eapply grows_sent; [done|]. by apply Hc. Qed.

(** Sending one block of a loop. *)
Lemma wp_one rs s fi f0 (b : nat) left (k : Z → ST server (Z * Z)) Q :
  sinv rs s → complete s → files !! fi = Some f0 → 0 < left →
  (∀ n rs1 s1, grows n rs s rs1 s1 → (n ≤ 1)%nat → covers rs1 fi f0 (λ j, j = b) → wp (k (left - Z.of_nat n)) Q s1) →
  wp (r ← SendDataBlock (Z.of_nat fi) (Z.of_nat b) false; k (one_less r left)) Q s.
Proof using HLL Hwf.
  intros Hs Hc H0 Hl Hk. st_go. eapply wp_mono; [by apply (wp_SendDataBlock LZ4_decompress files out0 rs s fi f0 b false); auto|].
  intros r s1 (rs1 & H). destruct r; cbn [one_less].
  - destruct H as [H1 H2]. replace (left - 1) with (left - Z.of_nat 1) by lia. apply (Hk 1%nat rs1 s1); [done|lia|]. by intros _ j ->.
  - destruct H as [H1 H2]. replace left with (left - Z.of_nat 0) by lia. apply (Hk 0%nat rs1 s1); [done|lia|].
    intros _ j -> Hj. eapply grows_sent; [done|]. by apply H2.
  - destruct H as [H1 H2]. replace left with (left - Z.of_nat 0) by lia. apply (Hk 0%nat rs1 s1); [done|lia|]. by intros Hr.
Qed.

Lemma wp_priority_loop fi f0 blocks : ∀ i left rs s,
  sinv rs s → complete s → files !! fi = Some f0 → Forall (λ b, 0 ≤ b) blocks → 0 ≤ left →
  wp (priority_loop (Z.of_nat fi) blocks i left)
    (λ '(i', left') s', ∃ n rs', grows n rs s rs' s' ∧ left' = left - Z.of_nat n ∧ 0 ≤ left' ∧ i ≤ i' ∧
      (0 < left' → i' = i + zlen blocks)) s.
Proof using HLL Hwf.
  induction blocks as [|b blocks IH]; intros i left rs s Hs Hc H0 Hb Hl; cbn [priority_loop].
  - st_go. exists 0%nat, rs. split_and!; [by apply grows_refl|lia|lia|lia|cbn; lia].
  - destruct (Z.ltb_spec 0 left).
    2: { st_go. exists 0%nat, rs. split_and!; [by apply grows_refl|lia..]. }
    apply Forall_cons in Hb as [Hb0 Hb]. rewrite <- (Z2Nat.id b Hb0). eapply wp_one; [done..|]. intros n rs1 s1 Hg Hn _.
    eapply wp_mono; [apply (IH (i + 1) (left - Z.of_nat n) rs1 s1); [apply Hg|apply Hg|done|done|lia]|].
    intros [i' left'] s' (n' & rs' & G & -> & E2 & E3 & E4). exists (n + n')%nat, rs'.
    split_and!; [by eapply grows_trans|lia|lia|lia|]. intros Hlt. rewrite (E4 Hlt). cbn [length]. lia.
Qed.

Lemma wp_overall_loop fi f0 n : ∀ (i : nat) left rs s,
  sinv rs s → complete s → files !! fi = Some f0 → 0 ≤ left →
  wp (overall_loop (Z.of_nat fi) n (Z.of_nat i) left)
    (λ '(i', left') s', ∃ m rs', grows m rs s rs' s' ∧ left' = left - Z.of_nat m ∧ 0 ≤ left' ∧
      ∃ k, i' = Z.of_nat (i + k) ∧ (k ≤ n)%nat ∧ covers rs' fi f0 (λ j, i ≤ j < i + k)%nat ∧ (0 < left' → k = n)) s.
Proof using HLL Hwf.
  induction n as [|n IH]; intros i left rs s Hs Hc H0 Hl; cbn [overall_loop].
  - st_go. exists 0%nat, rs. split_and!; [by apply grows_refl|lia|lia|]. exists 0%nat. split_and!; [lia|lia| |lia]. intros _ j Hj. lia.
  - destruct (Z.ltb_spec 0 left).
    2: { st_go. exists 0%nat, rs. split_and!; [by apply grows_refl|lia|lia|]. exists 0%nat. split_and!; [lia|lia| |lia]. intros _ j Hj. lia. }
    replace (Z.of_nat i + 1) with (Z.of_nat (S i)) by lia. eapply wp_one; [done..|]. intros m rs1 s1 Hg Hm Hcov.
    eapply wp_mono; [apply (IH (S i) (left - Z.of_nat m) rs1 s1); [apply Hg|apply Hg|done|lia]|].
    intros [i' left'] s' (m' & rs' & G & -> & E2 & k & -> & E4 & E5 & E6). exists (m + m')%nat, rs'.
    split_and!; [by eapply grows_trans|lia|lia|]. exists (S k). split_and!; [lia|lia| |lia].
    intros Hr j Hj Hlen. destruct (decide (j = i)) as [->|]; [|apply E5; [done|lia|done]].
    eapply grows_sent; [exact G|]. by apply Hcov.
Qed.

(** As [grows], when prefetches may come and go. *)
Record runs (n : nat) rs s rs' s' : Prop := {
  r_log : ∃ l, rs' = rs ++ l ∧ (Done ∉ l) ∧ data_count l = n;
  r_in : adb_in s' = adb_in s;
  r_output : output_fd_ s' = output_fd_ s;
  r_buffer : buffer_ s' = buffer_ s;
  r_serving : servingComplete_ s' = servingComplete_ s;
  r_inv : sinv rs' s';
  r_complete : complete s'
}.

Lemma runs_refl rs s : sinv rs s → complete s → runs 0 rs s rs s.
Proof. intros H H'. constructor; try done. exists []. rewrite app_nil_r. split_and!; [done|apply not_elem_of_nil|done]. Qed.
Lemma grows_runs n rs s rs' s' ps : grows n rs s rs' s' → runs n rs s rs' (s' <| prefetches_ := ps |>).
Proof. intros [H1 [] [E1 E2 E3] H4]. constructor; try done. Qed.
Lemma runs_trans n n' rs s rs1 s1 rs2 s2 : runs n rs s rs1 s1 → runs n' rs1 s1 rs2 s2 → runs (n + n') rs s rs2 s2.
Proof.
  intros [(l & -> & Hl & <-) A1 A2 A3 A4 A5 A6] [(l' & -> & Hl' & <-) B1 B2 B3 B4 B5 B6].
  constructor; [|congruence..|done|done]. exists (l ++ l'). rewrite app_assoc. split_and!; [done|rewrite elem_of_app; tauto|].
  unfold data_count. by rewrite filter_app, length_app.
Qed.
Lemma runs_sent n rs s rs' s' fj i : runs n rs s rs' s' → sent rs fj i → sent rs' fj i.
Proof. intros [(l & -> & _) _ _ _ _ _ _] (lz & d & H). exists lz, d. apply elem_of_app. by left. Qed.

Definition prefetch_ok p : Prop := is_Some (files !! file p) ∧ 0 ≤ overallIndex p ∧ 0 ≤ priorityIndex p.

(** A prefetch is to send the block. *)
Definition owes (ps : list PrefetchState) fi (j : nat) : Prop :=
  ∃ p, p ∈ ps ∧ file p = fi ∧ overallIndex p ≤ Z.of_nat j < overallEnd p.

(** What was owed was sent, or is still owed. *)
Definition settles rs' ps ps' : Prop :=
  ∀ fi f0 j, files !! fi = Some f0 → readable f0 → Z.of_nat j < zlen (sentBlocks f0) → owes ps fi j → sent rs' fi j ∨ owes ps' fi j.

Lemma wp_turn_front rs s p ps left :
  sinv rs s → complete s → prefetch_ok p → Forall prefetch_ok ps → 0 < left →
  ∀ (k : Z → ST server unit) Q,
  (∀ n rs' s', runs n rs s rs' s' → Z.of_nat n ≤ left → Forall prefetch_ok (prefetches_ s') → settles rs' (p :: ps) (prefetches_ s') →
     (Z.of_nat n < left → prefetches_ s' = ps) → wp (k (left - Z.of_nat n)) Q s') →
  wp (f ← file_at (Z.of_nat (file p));
      '(i, left) ← priority_loop (id f) (zdrop (priorityIndex p) (priority_blocks_ f)) (priorityIndex p) left;
      '(j, left) ← overall_loop (id f) (Z.to_nat (overallEnd p - overallIndex p)) (overallIndex p) left;
      let p := p <| priorityIndex := i |> <| overallIndex := j |> in
      _ ← modify (λ s, s <| prefetches_ := if done f p then ps else p :: ps |>);
      k left) Q s.
Proof using HLL Hwf.
  intros Hs Hc [[f0 H0] [Ho Hp]] Hps Hl k Q Hk. destruct (files_lookup files rs s (file p) f0 (i_files _ _ _ _ _ Hs) H0) as (f & Hf & Hff).
  pose proof (Hwf _ _ H0) as Hw. destruct (w_priority _ _ Hw) as [Hpr Hprl].
  st_go. eapply wp_file_at; [done|]. rewrite (static_id _ _ _ _ Hff), (static_priority _ _ _ _ Hff), (w_id _ _ Hw).
  eapply wp_bind, wp_mono; [apply (wp_priority_loop (file p) f0); [done..| |lia]|].
  { apply Forall_drop. exact Hpr. }
  intros [i left1] s1 (n1 & rs1 & G1 & -> & L1 & I1 & D1). rewrite <- (Z2Nat.id (overallIndex p)) at 2 by done.
  eapply wp_bind, wp_mono; [apply (wp_overall_loop (file p) f0 _ (Z.to_nat (overallIndex p))); [apply G1|apply G1|done|lia]|].
  intros [j left2] s2 (n2 & rs2 & G2 & -> & L2 & m & -> & M1 & M2 & M3). st_go.
  set (p' := p <| priorityIndex := i |> <| overallIndex := _ |>). set (ps' := if done f p' then ps else p' :: ps).
  replace (left - Z.of_nat n1 - Z.of_nat n2) with (left - Z.of_nat (n1 + n2)) by lia.
  assert (done f p' = true ∨ left = Z.of_nat (n1 + n2)) as Hdone.
  { destruct (Z.eq_dec left (Z.of_nat (n1 + n2))) as [|Hne]; [by right|left]. specialize (D1 ltac:(lia)). specialize (M3 ltac:(lia)).
    unfold done. rewrite (static_priority _ _ _ _ Hff). subst p'. cbn -[Z.of_nat]. rewrite M3.
    assert (overallEnd p <= Z.of_nat (Z.to_nat (overallIndex p) + Z.to_nat (overallEnd p - overallIndex p))) by lia.
    rewrite (proj2 (Z.leb_le _ _)) by done. destruct (priority_blocks_ f0) as [|b bs] eqn:Eb; [done|]. rewrite <- Eb in *. cbn [andb].
    apply Z.leb_le. change (Z.of_nat (S (length bs))) with (zlen (b :: bs)). rewrite <- Eb, s32_id by lia. rewrite D1. unfold zdrop. rewrite length_drop. lia. }
  apply (Hk (n1 + n2)%nat rs2).
  - apply grows_runs. by eapply grows_trans.
  - lia.
  - cbn. subst ps'. destruct (done f p'); [done|]. constructor; [|done]. split_and!; cbn; [by exists f0|lia|lia].
  - intros fi f0' x H0' Hr Hx (q & Hq & Hqf & Hqr). cbn. apply elem_of_cons in Hq as [->|Hq].
    2: { right. exists q. split; [|done]. subst ps'. destruct (done f p'); [done|]. by right. }
    subst fi. simplify_eq. destruct (decide (x < Z.to_nat (overallIndex p) + m)%nat) as [Hlt|Hge]; [left; apply M2; [done|lia|done]|].
    right. subst ps'. destruct (done f p') eqn:Ed.
    + exfalso. unfold done in Ed. assert ((overallEnd p' <=? overallIndex p') = true) as Ee.
      { destruct (priority_blocks_ f); [done|]. by apply andb_true_iff in Ed as [? _]. }
      apply Z.leb_le in Ee. subst p'. cbn -[Z.of_nat] in Ee. lia.
    + exists p'. split; [by left|]. split; [done|]. subst p'. cbn -[Z.of_nat]. lia.
  - cbn. intros Hlt. subst ps'. destruct Hdone as [->|]; [done|lia].
Qed.

Lemma settles_refl rs ps : settles rs ps ps.
Proof. intros fi f0 j _ _ _ H. by right. Qed.
Lemma settles_trans n rs s rs1 s1 ps ps1 ps2 :
  runs n rs s rs1 s1 → settles rs ps ps1 → settles rs1 ps1 ps2 → settles rs1 ps ps2.
Proof.
  intros Hr H1 H2 fi f0 j H0 Hf Hj Ho. destruct (H1 fi f0 j H0 Hf Hj Ho) as [Hs|Hs]; [left; by eapply runs_sent|]. by eapply H2.
Qed.

Lemma wp_prefetch_loop fuel : ∀ left rs s,
  sinv rs s → complete s → Forall prefetch_ok (prefetches_ s) → 0 ≤ left → (length (prefetches_ s) ≤ fuel)%nat ∨ left = 0 →
  wp (prefetch_loop fuel left)
    (λ _ s', ∃ n rs', runs n rs s rs' s' ∧ Z.of_nat n ≤ left ∧ Forall prefetch_ok (prefetches_ s') ∧
      settles rs' (prefetches_ s) (prefetches_ s') ∧ (Z.of_nat n < left → prefetches_ s' = [])) s.
Proof using HLL Hwf.
  induction fuel as [|fuel IH]; intros left rs s Hs Hc Hp Hl Hfuel; cbn [prefetch_loop]; st_go.
  - assert (prefetches_ s = [] ∨ left = 0) as H by (destruct Hfuel as [Hf|]; [left; destruct (prefetches_ s); [done|cbn in Hf; lia]|by right]).
    assert (wp (mret tt) (λ _ s', ∃ n rs', runs n rs s rs' s' ∧ Z.of_nat n ≤ left ∧ Forall prefetch_ok (prefetches_ s') ∧
      settles rs' (prefetches_ s) (prefetches_ s') ∧ (Z.of_nat n < left → prefetches_ s' = [])) s) as Hret.
    { st_go. exists 0%nat, rs. split_and!; [by apply runs_refl|lia|done|apply settles_refl|]. destruct H as [|]; [done|lia]. }
    destruct (prefetches_ s) as [|p ps] eqn:Ep; [exact Hret|]. destruct H as [|E]; [done|]. rewrite E in *. exact Hret.
  - destruct (prefetches_ s) as [|p ps] eqn:Ep.
    { st_go. exists 0%nat, rs. rewrite Ep. split_and!; [by apply runs_refl|lia|done|apply settles_refl|done]. }
    destruct (Z.ltb_spec 0 left).
    2: { st_go. exists 0%nat, rs. rewrite Ep. split_and!; [by apply runs_refl|lia|done|apply settles_refl|lia]. }
    apply Forall_cons in Hp as [Hp Hps]. apply (wp_turn_front rs s p ps left Hs Hc Hp Hps); [done|].
    intros n rs1 s1 R1 N1 P1 S1 D1. eapply wp_mono; [apply (IH (left - Z.of_nat n) rs1 s1); [apply R1|apply R1|done|lia|]|].
    { destruct (Z.eq_dec left (Z.of_nat n)); [right; lia|left]. rewrite D1 by lia. destruct Hfuel as [Hfuel|]; [cbn in Hfuel|]; lia. }
    intros [] s2 (n' & rs2 & R2 & N2 & P2 & S2 & D2). exists (n + n')%nat, rs2.
    split_and!; [by eapply runs_trans|lia|done| |intros; apply D2; lia].
    intros fi f0 j H0 Hf Hj Ho. destruct (S1 fi f0 j H0 Hf Hj Ho) as [Hs1|Hs1]; [left; by eapply runs_sent|]. by eapply S2.
Qed.

Lemma wp_RunPrefetching rs s :
  sinv rs s → complete s → Forall prefetch_ok (prefetches_ s) →
  wp RunPrefetching
    (λ _ s', ∃ n rs', runs n rs s rs' s' ∧ Z.of_nat n ≤ kPrefetchBlocksPerIteration ∧ Forall prefetch_ok (prefetches_ s') ∧
      settles rs' (prefetches_ s) (prefetches_ s') ∧ (Z.of_nat n < kPrefetchBlocksPerIteration → prefetches_ s' = [])) s.
Proof using HLL Hwf.
  intros Hs Hc Hp. unfold RunPrefetching. st_go. apply wp_prefetch_loop; [done..|unfold kPrefetchBlocksPerIteration; lia|lia].
Qed.

(** ** Requests *)

Context (Hmany : zlen files < 2 ^ 15).

(** A file that can be prefetched: the server does not check that it exists. *)
Definition request_ok (r : RequestCommand) : Prop := request_type r = PREFETCH → req_file_id r < zlen files.

(** What a request that was handled leaves behind. *)
Definition answered (asked : gset Z) rs (r : RequestCommand) : Prop :=
  (request_type r = PREFETCH → 0 ≤ req_file_id r → req_file_id r ∈ asked) ∧
  (request_type r = BLOCK_MISSING → ∀ fi f0 j, req_file_id r = Z.of_nat fi → block_idx r = Z.of_nat j →
     files !! fi = Some f0 → readable f0 → Z.of_nat j < zlen (sentBlocks f0) → sent rs fi j).

Record linv (hs : list RequestCommand) (asked : gset Z) (doneSent : bool) rs s : Prop := {
  l_inv : sinv rs s;
  l_complete : complete s;
  l_done : doneSent = false → Done ∉ rs;
  l_prefetch : Forall prefetch_ok (prefetches_ s);
  l_asked : ∀ fi f0 j, Z.of_nat fi ∈ asked → files !! fi = Some f0 → readable f0 → Z.of_nat j < zlen (sentBlocks f0) →
              sent rs fi j ∨ owes (prefetches_ s) fi j;
  l_answered : ∀ r, r ∈ hs → answered asked rs r
}.

Lemma linv_same hs asked d rs s s' :
  linv hs asked d rs s → adb_out s' = adb_out s → pending s' = pending s → files_ s' = files_ s → prefetches_ s' = prefetches_ s →
  linv hs asked d rs s'.
Proof.
  intros [[(cs & ps & A1 & A2 & A3 & A4 & A5) B C] D E F G H] Eo Ep Ef Ew. constructor; [constructor|..]; rewrite ?Ew; try done.
  - exists cs, ps. by rewrite Eo, Ep.
  - destruct C as [C1 C2]. split; rewrite Ef; done.
  - intros fi f0 f. rewrite Ef. apply D.
Qed.

Lemma answered_mono asked asked' rs rs' r :
  answered asked rs r → asked ⊆ asked' → (∀ fi j, sent rs fi j → sent rs' fi j) → answered asked' rs' r.
Proof. intros [H1 H2] Ha Hs. split; [intros; apply Ha; by apply H1|]. intros E fi f0 j E1 E2 H0 Hr Hj. by eapply Hs, H2. Qed.

(** The log has grown, and the prefetches are others. *)
Lemma linv_runs hs asked d n rs s rs' s' :
  linv hs asked d rs s → runs n rs s rs' s' → Forall prefetch_ok (prefetches_ s') → settles rs' (prefetches_ s) (prefetches_ s') →
  linv hs asked d rs' s'.
Proof.
  intros [A B C D E G] Hr Hp Hset. pose proof (λ fi j, runs_sent n rs s rs' s' fi j Hr) as Hmono. pose proof Hr as [(l & -> & Hl & _) _ _ _ _ R1 R2].
  constructor; [done|done| |done| |].
  - intros Hd. rewrite elem_of_app. intros [?|?]; [by apply C in Hd|done].
  - intros fi f0 j Hask H0 Hrd Hj. destruct (E fi f0 j Hask H0 Hrd Hj) as [Hs|Ho]; [left; by apply Hmono|]. by eapply Hset.
  - intros r Hin. eapply answered_mono; [by apply G|done|done].
Qed.

Lemma linv_answer hs asked d rs s r : linv hs asked d rs s → answered asked rs r → linv (hs ++ [r]) asked d rs s.
Proof. intros [A B C D E G] Hr. constructor; try done. intros r' [?| ->%list_elem_of_singleton]%elem_of_app; [by apply G|done]. Qed.

Lemma owes_cons p ps fi j : owes ps fi j → owes (p :: ps) fi j.
Proof. intros (q & Hq & H). exists q. split; [by right|done]. Qed.
Lemma owes_snoc p ps fi j : owes ps fi j → owes (ps ++ [p]) fi j.
Proof. intros (q & Hq & H). exists q. split; [apply elem_of_app; by left|done]. Qed.

Lemma len_bound fi f0 : files !! fi = Some f0 → 0 ≤ zlen (sentBlocks f0) ≤ 2 ^ 30.
Proof using Hwf. intros H0. rewrite (w_blocks _ _ (Hwf _ _ H0)). apply num_blocks_bound, (w_size _ _ (Hwf _ _ H0)). Qed.

Definition keeps_input s s' : Prop := adb_in s' = adb_in s ∧ buffer_ s' = buffer_ s ∧ output_fd_ s' = output_fd_ s.

Lemma wp_missing hs asked d rs s fileId blockIdx :
  linv hs asked d rs s →
  wp (if (fileId <? 0) || (s16 (zlen (files_ s)) <=? fileId) then mret asked
      else
        f ← file_at fileId;
        if (blockIdx <? 0) || (s32 (zlen (sentBlocks f)) <=? blockIdx) then mret asked
        else
          res ← SendDataBlock fileId blockIdx true;
          match res with
          | Sent =>
              f ← file_at fileId;
              p ← lift (prefetch_range (Z.to_nat fileId) f (blockIdx + 1) 7);
              _ ← modify (λ s, s <| prefetches_ ::= cons p |>);
              mret asked
          | _ => mret asked
          end)
    (λ asked' s', ∃ rs', linv (hs ++ [Command BLOCK_MISSING fileId blockIdx]) asked' d rs' s' ∧ keeps_input s s') s.
Proof using HLL Hwf Hmany.
  intros Hl. pose proof Hl as [A B C D E G]. destruct (i_files _ _ _ _ _ A) as [Hlen _].
  assert (∀ asked' rs' s', linv hs asked' d rs' s' → keeps_input s s' →
    (∀ fi f0 j, fileId = Z.of_nat fi → blockIdx = Z.of_nat j → files !! fi = Some f0 → readable f0 → Z.of_nat j < zlen (sentBlocks f0) → sent rs' fi j) →
    ∃ rs', linv (hs ++ [Command BLOCK_MISSING fileId blockIdx]) asked' d rs' s' ∧ keeps_input s s') as Hend.
  { intros asked' rs' s' Hl' Hk Ha. exists rs'. split; [|done]. apply linv_answer; [done|]. split; [done|]. intros _. exact Ha. }
  rewrite Hlen, s16_id by lia. destruct (_ || _) eqn:Ebad.
  { st_go. eapply Hend; [done|done|]. intros fi f0 j -> _ H0. apply lookup_lt_Some in H0. apply orb_true_iff in Ebad as [?%Z.ltb_lt|?%Z.leb_le]; lia. }
  apply orb_false_iff in Ebad as [F1%Z.ltb_ge F2%Z.leb_gt]. destruct (Z_of_nat_complete fileId F1) as [fi ->].
  destruct (lookup_lt_is_Some_2 files fi) as [f0 H0]; [lia|]. destruct (files_lookup files rs s fi f0 (i_files _ _ _ _ _ A) H0) as (f & Hf & Hff).
  st_go. eapply wp_file_at; [done|]. pose proof (len_bound fi f0 H0) as Hb. rewrite (f_blocks _ _ _ _ Hff), s32_id by lia. destruct (_ || _) eqn:Ebad.
  { st_go. eapply Hend; [done|done|]. intros fi' f0' j ?%Nat2Z.inj -> H0' _. simplify_eq. apply orb_true_iff in Ebad as [?%Z.ltb_lt|?%Z.leb_le]; lia. }
  apply orb_false_iff in Ebad as [B1%Z.ltb_ge B2%Z.leb_gt]. destruct (Z_of_nat_complete blockIdx B1) as [b ->].
  st_go. eapply wp_mono; [by apply (wp_SendDataBlock LZ4_decompress files out0 rs s fi f0 b true); auto|]. intros r s1 (rs1 & Hr).
  assert (∀ n, grows n rs s rs1 s1 → runs n rs s rs1 s1) as Hruns by (intros n [? [] ? ?]; by constructor).
  assert (∀ n, grows n rs s rs1 s1 → linv hs asked d rs1 s1 ∧ keeps_input s s1) as Hgr.
  { intros n Hg. split; [|by destruct Hg as [_ [] _ _]]. eapply (linv_runs hs asked d n rs s); [done|by apply Hruns|..]; rewrite (se_prefetches _ _ (g_sends _ _ _ _ _ _ _ _ Hg)); [done|apply settles_refl]. }
  destruct r.
  - destruct Hr as [Hg Hs]. destruct (Hgr _ Hg) as [Hl1 Hk1]. destruct (files_lookup files rs1 s1 fi f0 (i_files _ _ _ _ _ (l_inv _ _ _ _ _ Hl1)) H0) as (f1 & Hf1 & Hff1).
    st_go. eapply wp_file_at; [done|]. st_go. eapply wp_lift; [unfold prefetch_range; rewrite (proj2 (Z.ltb_lt _ _)) by lia; reflexivity|]. st_go.
    eapply (Hend asked rs1); [|exact Hk1|].
    + destruct Hl1 as [A' B' C' D' E' G']. constructor; [by destruct A'|done|done| | |done].
      * cbn. constructor; [|done]. split_and!; cbn; [rewrite Nat2Z.id; by exists f0|lia|lia].
      * intros fi' f0' j Hask H0' Hrd Hj. destruct (E' fi' f0' j Hask H0' Hrd Hj) as [?|?]; [by left|right]. by apply owes_cons.
    + intros fi' f0' j ?%Nat2Z.inj ?%Nat2Z.inj _ _ _. by subst.
  - destruct Hr as [Hg Hs]. destruct (Hgr _ Hg) as [Hl1 Hk1]. st_go. eapply Hend; [done|done|].
    intros fi' f0' j ?%Nat2Z.inj ?%Nat2Z.inj H0' _ Hj. simplify_eq. eapply grows_sent; [exact Hg|]. by apply Hs.
  - destruct Hr as [Hg Hs]. destruct (Hgr _ Hg) as [Hl1 Hk1]. st_go. eapply Hend; [done|done|].
    intros fi' f0' j ?%Nat2Z.inj _ H0' Hrd _. by simplify_eq.
Qed.

Lemma wp_handle_request hs asked d rs s r :
  linv hs asked d rs s → request_ok r →
  wp (handle_request r asked) (λ asked' s', ∃ rs', linv (hs ++ [r]) asked' d rs' s' ∧ keeps_input s s') s.
Proof using HLL Hwf Hmany.
  intros Hl Hok. unfold handle_request. st_go. destruct r as [ty fileId blockIdx]. cbn [request_type req_file_id block_idx] in *.
  assert (∀ asked' rs' s', linv hs asked' d rs' s' → keeps_input s s' → ty ≠ BLOCK_MISSING →
    (ty = PREFETCH → 0 ≤ fileId → fileId ∈ asked') → ∃ rs', linv (hs ++ [Command ty fileId blockIdx]) asked' d rs' s' ∧ keeps_input s s') as Hend.
  { intros asked' rs' s' Hl' Hk Hne Ha. exists rs'. split; [|done]. apply linv_answer; [done|]. by split. }
  destruct (Z.eqb_spec ty SERVING_COMPLETE) as [->|N0].
  { unfold ServingComplete. st_go. eapply Hend; [by eapply linv_same|done|done|done]. }
  destruct (Z.eqb_spec ty BLOCK_MISSING) as [->|N1]; [by eapply wp_missing|].
  destruct (Z.eqb_spec ty PREFETCH) as [->|N2]; [|st_go; by eapply Hend].
  destruct (Z.ltb_spec fileId 0); [st_go; eapply Hend; [done|done|done|lia]|].
  case_bool_decide as Hin; [st_go; by eapply Hend|].
  destruct (Z_of_nat_complete fileId ltac:(lia)) as [fi ->]. specialize (Hok eq_refl). cbn in Hok.
  destruct (lookup_lt_is_Some_2 files fi) as [f0 H0]; [lia|].
  destruct (files_lookup files rs s fi f0 (i_files _ _ _ _ _ (l_inv _ _ _ _ _ Hl)) H0) as (f & Hf & Hff).
  st_go. eapply wp_file_at; [done|]. st_go. pose proof (len_bound fi f0 H0) as Hb.
  eapply wp_lift; [unfold prefetch_all, prefetch_range; rewrite (f_blocks _ _ _ _ Hff), s32_id by lia; rewrite (proj2 (Z.ltb_lt _ _)) by lia; reflexivity|].
  st_go. eapply (Hend _ rs); [|done|done|set_solver]. destruct Hl as [A B C D E G]. constructor; [by destruct A|done|done| | |].
  - cbn. apply Forall_app. split; [done|]. constructor; [|done]. split_and!; cbn; [rewrite Nat2Z.id; by exists f0|lia|lia].
  - intros fi' f0' j Hask H0' Hrd Hj. cbn. apply elem_of_union in Hask as [Hask%elem_of_singleton|Hask].
    + apply Nat2Z.inj in Hask as ->. simplify_eq. right. eexists. split; [apply elem_of_app; right; by left|]. cbn. rewrite Nat2Z.id. split; [done|lia].
    + destruct (E fi' f0' j Hask H0' Hrd Hj) as [?|?]; [by left|right]. by apply owes_snoc.
  - intros r Hr. eapply answered_mono; [by apply G|set_solver|done].
Qed.

(** ** The loop *)

Lemma wp_SendDone hs asked rs s :
  linv hs asked false rs s → all_sent (files_ s) = true →
  wp SendDone (λ _ s', linv hs asked true (rs ++ [Done]) s' ∧ keeps_input s s' ∧ servingComplete_ s' = servingComplete_ s ∧ prefetches_ s' = prefetches_ s) s.
Proof using Hwf.
  intros [[A1 A2 A3] B C D E G] Hall. unfold SendDone. change (ResponseHeader (-1) 0 0 0 0) with (encode Done).
  eapply wp_mono; [apply (wp_Send out0 rs s Done true A1); cbn; unfold kBlockSize; lia|]. intros [] s' (S1 & S2 & S3).
  split_and!; [|by destruct S2..]. assert (log LZ4_decompress files (rs ++ [Done])) as Hlog.
  { apply log_done; [done|by apply C|]. intros fi f0 j H0 Hj. destruct (files_lookup files rs s fi f0 A3 H0) as (f & Hf & Hff).
    unfold all_sent in Hall. rewrite forallb_forall in Hall. pose proof (Hall f (proj1 (list_elem_of_In _ _) (list_elem_of_lookup_2 _ _ _ Hf))) as Hc. apply Z.eqb_eq in Hc.
    pose proof (len_bound fi f0 H0). rewrite s32_id in Hc by (rewrite (f_blocks _ _ _ _ Hff); lia). rewrite (f_count _ _ _ _ Hff) in Hc. apply Nat2Z.inj in Hc.
    destruct (lookup_lt_is_Some_2 (sentBlocks f) j) as [v Hv]; [rewrite (f_blocks _ _ _ _ Hff); lia|].
    apply (f_sent _ _ _ _ Hff j v Hv). by eapply trues_all. }
  constructor; [constructor; [done|done|]|..].
  - destruct A3 as [L1 L2]. split; rewrite S3; [done|]. intros fi f0 f H0 Hf. apply file_inv_other; [by apply L2|by intros Ha].
  - intros fi f0 f. rewrite S3. apply B.
  - done.
  - by rewrite (se_prefetches _ _ S2).
  - intros fi f0 j Hask H0 Hr Hj. rewrite (se_prefetches _ _ S2). destruct (E fi f0 j Hask H0 Hr Hj) as [?|?]; [left; apply sent_app; by left|by right].
  - intros r Hr. eapply answered_mono; [by apply G|done|]. intros fi j Hs. apply sent_app. by left.
Qed.

Lemma wp_serve_loop all fuel : ∀ hs asked d rs s,
  linv hs asked d rs s → all = hs ++ (decode_command <$> requests_of 0 (rest s)) → Forall request_ok all → (todo s < fuel)%nat →
  wp (serve_loop fuel asked d) (λ ok s', ok = true ∧ ∃ hs' asked' d' rs', hs' `prefix_of` all ∧ linv hs' asked' d' rs' s') s.
Proof using HLL Hwf Hmany.
  induction fuel as [|fuel IH]; intros hs asked d rs s Hl Ha Hok Hf; [lia|]. cbn [serve_loop]. st_go.
  set (finished := negb d && is_nil (prefetches_ s) && all_sent (files_ s)).
  eapply wp_mono with (Q := λ _ s1, ∃ rs1, linv hs asked (d || finished) rs1 s1 ∧ keeps_input s s1 ∧ servingComplete_ s1 = servingComplete_ s ∧ prefetches_ s1 = prefetches_ s).
  { destruct finished eqn:Efin; st_go; [|exists rs; by rewrite orb_false_r].
    apply andb_true_iff in Efin as [[Hd _]%andb_true_iff Hall]. destruct d; [done|]. eapply wp_mono; [by eapply wp_SendDone|]. intros [] s1 H. by exists (rs ++ [Done]). }
  intros _ s1 (rs1 & Hl1 & (K1 & K2 & K3) & Kc & Kp). set (d1 := d || finished) in *. clearbody d1. st_go.
  apply wp_mono with (λ _ s2, linv hs asked d1 rs1 s2 ∧ keeps_input s1 s2).
  { destruct (is_nil (prefetches_ s)); st_go; [|by split]. destruct Hl1 as [[A1 A2 A3] B C D E G].
    eapply wp_mono; [apply (wp_Flush out0 rs1 s1 A1)|]. intros [] s2 (F1 & F2 & F3 & F4). split; [|by destruct F3].
    constructor; [constructor; [done|done|]|..]; rewrite ?(se_prefetches _ _ F3); try done.
    - destruct A3 as [L1 L2]. split; rewrite F4; done.
    - intros fi f0 f. rewrite F4. apply B. }
  intros _ s2 (Hl2 & K1' & K2' & K3'). eapply wp_bind, wp_mono; [apply wp_ReadRequest|]. intros r s3 (sk & [[R1 R2 R3 R4 R5] [text Hsk]] & ->).
  assert (linv hs asked d1 rs1 s3) as Hl3 by by eapply linv_same.
  assert (rest s2 = rest s) as Erest by (unfold rest; congruence). assert (todo s2 = todo s) as Etodo by (unfold todo; congruence).
  assert (∀ hs3 asked3 rs3 s4, linv hs3 asked3 d1 rs3 s4 → all = hs3 ++ (decode_command <$> requests_of 0 (rest s4)) → (todo s4 < fuel)%nat →
    wp (_ ← RunPrefetching; serve_loop fuel asked3 d1) (λ ok s', ok = true ∧ ∃ hs' asked' d' rs', hs' `prefix_of` all ∧ linv hs' asked' d' rs' s') s4) as Hnext.
  { intros hs3 asked3 rs3 s4 Hl4 Ha4 Hf4. st_go. eapply wp_mono; [apply (wp_RunPrefetching rs3 s4); apply Hl4|].
    intros [] s5 (n & rs5 & Hr & _ & Hp5 & Hset & _). eapply (IH hs3 asked3 d1 rs5); [by eapply linv_runs| |done|].
    - unfold rest. rewrite (r_in _ _ _ _ _ Hr), (r_buffer _ _ _ _ _ Hr). exact Ha4.
    - unfold todo. rewrite (r_in _ _ _ _ _ Hr), (r_buffer _ _ _ _ _ Hr). exact Hf4. }
  destruct sk as [| |cmd]; cbn [answer].
  - st_go. split; [done|]. exists hs, asked, d1, rs1. split; [by eexists|done].
  - destruct Hsk as (E1 & _ & _ & E4 & _). eapply Hnext; [done|rewrite Ha; by rewrite <- Erest, E1|lia].
  - destruct Hsk as (E1 & _ & _ & E4). rewrite Erest in E1. rewrite E1 in Ha. cbn [fmap list_fmap] in Ha.
    destruct (Z.eqb_spec (request_type (decode_command cmd)) DESTROY) as [Ed|Ed].
    { st_go. split; [done|]. exists hs, asked, d1, rs1. split; [by eexists|done]. }
    st_go. eapply wp_mono; [apply (wp_handle_request hs asked d1 rs1 s3 _ Hl3)|].
    { rewrite Ha in Hok. apply Forall_app in Hok as [_ Hok]. by apply Forall_cons in Hok as [? _]. }
    intros asked4 s4 (rs4 & Hl4 & K4 & K5 & _). eapply Hnext; [exact Hl4| |].
    + unfold rest. rewrite K4, K5. rewrite Ha, <- app_assoc. done.
    + unfold todo in *. rewrite K4, K5. lia.
Qed.
End loop.
