(* ===== verification/IncrementalProps.v ===== *)
(** * What the server of an incremental installation guarantees

    The stream it writes decodes to a log of the specification; requests are found
    however the stream is cut; what goes wrong with files of one block, with files
    that do not exist, and with archives that are none. *)

From S2P Require Import Prelude State CString LibBase AdbIO AdbIOFacts IncrementalUtils IncrementalServer IncrementalFacts IncrementalInv IncrementalLoop.
Import IU IS.
Local Open Scope Z_scope.
Local Open Scope record_scope.

(** ** Reading the stream

    What a device makes of it: chunks, each a sequence of blocks. *)

Definition header_field (b : bytes) (off len : nat) : Z := be_val (take len (drop off b)).

Definition parse_block (b : bytes) : option (response * bytes) :=
  if (length b <? 10)%nat then None
  else
    let f := signed 2 (header_field b 0 2) in
    let ty := header_field b 2 1 in
    let compression := header_field b 3 1 in
    let idx := signed 4 (header_field b 4 4) in
    let size := signed 2 (header_field b 8 2) in
    if f =? -1 then Some (Done, drop 10 b)
    else if (length b <? 10 + Z.to_nat size)%nat then None
    else
      let data := take (Z.to_nat size) (drop 10 b) in
      Some (if ty =? kTypeHash then HashBlock (Z.to_nat f) (Z.to_nat idx) data
            else DataBlock (Z.to_nat f) (Z.to_nat idx) (compression =? kCompressionLZ4) data, drop (10 + Z.to_nat size) b).

Fixpoint parse_blocks (fuel : nat) (b : bytes) : option (list response) :=
  match b, fuel with
  | [], _ => Some []
  | _, O => None
  | _, S fuel =>
      match parse_block b with
      | None => None
      | Some (r, b) => match parse_blocks fuel b with None => None | Some rs => Some (r :: rs) end
      end
  end.

Fixpoint parse_chunks (fuel : nat) (b : bytes) : option (list response) :=
  match b, fuel with
  | [], _ => Some []
  | _, O => None
  | _, S fuel =>
      let n := Z.to_nat (header_field b 0 4) in
      if (length b <? 4 + n)%nat then None
      else match parse_blocks n (take n (drop 4 b)), parse_chunks fuel (drop (4 + n) b) with
           | Some rs, Some rs' => Some (rs ++ rs')
           | _, _ => None
           end
  end.

Definition parse_stream (b : bytes) : option (list response) := parse_chunks (length b) b.

Lemma be_val_16 z : be_val (be16 z) = z mod 2 ^ 16.
Proof. unfold be_val, be16, le_val. cbn. rewrite !byteZ_Zbyte. Z.div_mod_to_equations. lia. Qed.
Lemma be_val_32 z : be_val (be32 z) = u32 z.
Proof. unfold be_val, be32, le_val, u32. cbn. rewrite !byteZ_Zbyte. Z.div_mod_to_equations. lia. Qed.

Definition ok_response (r : response) : Prop :=
  match r with
  | DataBlock f i _ d | HashBlock f i d => Z.of_nat f < 2 ^ 15 ∧ Z.of_nat i < 2 ^ 31 ∧ zlen d ≤ kBlockSize
  | Done => True
  end.

Lemma parse_header f ty c i n d rest :
  0 ≤ f < 2 ^ 15 → 0 ≤ ty < 256 → 0 ≤ c < 256 → 0 ≤ i < 2 ^ 31 → 0 ≤ n < 2 ^ 15 → zlen d = n →
  parse_block ((ResponseHeader f ty c i n ++ d) ++ rest) =
    Some (if ty =? kTypeHash then HashBlock (Z.to_nat f) (Z.to_nat i) d else DataBlock (Z.to_nat f) (Z.to_nat i) (c =? kCompressionLZ4) d, rest).
Proof.
  intros Hf Hty Hc Hi Hn Hd. unfold parse_block.
  assert (header_field ((ResponseHeader f ty c i n ++ d) ++ rest) 0 2 = f) as -> by (transitivity (be_val (be16 f)); [done|rewrite be_val_16; apply Z.mod_small; lia]).
  assert (header_field ((ResponseHeader f ty c i n ++ d) ++ rest) 2 1 = ty) as ->.
  { transitivity (byteZ (Zbyte ty) + 256 * 0); [done|]. rewrite byteZ_Zbyte, Z.mod_small by lia. lia. }
  assert (header_field ((ResponseHeader f ty c i n ++ d) ++ rest) 3 1 = c) as ->.
  { transitivity (byteZ (Zbyte c) + 256 * 0); [done|]. rewrite byteZ_Zbyte, Z.mod_small by lia. lia. }
  assert (header_field ((ResponseHeader f ty c i n ++ d) ++ rest) 4 4 = i) as ->.
  { transitivity (be_val (be32 i)); [done|rewrite be_val_32; apply u32_small; lia]. }
  assert (header_field ((ResponseHeader f ty c i n ++ d) ++ rest) 8 2 = n) as -> by (transitivity (be_val (be16 n)); [done|rewrite be_val_16; apply Z.mod_small; lia]).
  assert (signed 2 f = f) as -> by (unfold signed; zbool; done). assert (signed 2 n = n) as -> by (unfold signed; zbool; done).
  assert (signed 4 i = i) as -> by (unfold signed; zbool; done).
  assert (length ((ResponseHeader f ty c i n ++ d) ++ rest) = (10 + length d + length rest)%nat) as -> by (rewrite !length_app; done).
  rewrite (proj2 (Nat.ltb_ge _ _)) by lia. zbool. rewrite (proj2 (Nat.ltb_ge _ _)) by lia.
  replace (Z.to_nat n) with (length d) by lia.
  change (drop 10 ((ResponseHeader f ty c i n ++ d) ++ rest)) with (d ++ rest). rewrite take_app_length.
  change (drop (10 + length d) ((ResponseHeader f ty c i n ++ d) ++ rest)) with (drop (length d) (d ++ rest)). by rewrite drop_app_length.
Qed.

Lemma parse_block_encode r rest : ok_response r → parse_block (encode r ++ rest) = Some (r, rest).
Proof.
  destruct r as [f i lz d|f i d|]; cbn [ok_response encode]; intros Hok.
  - unfold kBlockSize in Hok. rewrite s16_id by lia.
    rewrite parse_header by (unfold kTypeData; destruct lz; unfold kCompressionLZ4, kCompressionNone; lia). rewrite !Nat2Z.id. by destruct lz.
  - unfold kBlockSize in Hok. rewrite s16_id by lia. rewrite parse_header by (unfold kTypeHash, kCompressionNone; lia). by rewrite !Nat2Z.id.
  - done.
Qed.

Lemma parse_blocks_encode rs : ∀ fuel, Forall ok_response rs → (length rs ≤ fuel)%nat → parse_blocks fuel (encode_all rs) = Some rs.
Proof.
  induction rs as [|r rs IH]; intros fuel Hok Hf; [by destruct fuel|]. apply Forall_cons in Hok as [Hr Hok].
  destruct fuel as [|fuel]; [cbn in Hf; lia|]. change (encode_all (r :: rs)) with (encode r ++ encode_all rs).
  assert (∃ x y, encode r ++ encode_all rs = x :: y) as (x & y & E) by (destruct r; cbn; eauto).
  pose proof (parse_block_encode r (encode_all rs) Hr) as Hp. rewrite E in *. cbn [parse_blocks]. rewrite Hp. rewrite IH; [done|done|cbn in Hf; lia].
Qed.

Lemma encode_all_length rs : (10 * length rs ≤ length (encode_all rs))%nat.
Proof.
  induction rs as [|r rs IH]; [cbn; lia|]. change (encode_all (r :: rs)) with (encode r ++ encode_all rs). rewrite length_app. pose proof (encode_length r). cbn [length]. lia.
Qed.

Lemma parse_chunks_encode cs : ∀ fuel,
  Forall (Forall ok_response) cs → Forall (λ rs, zlen (encode_all rs) < 2 ^ 32) cs → (length (concat (chunk <$> cs)) ≤ fuel)%nat →
  parse_chunks fuel (concat (chunk <$> cs)) = Some (concat cs).
Proof.
  induction cs as [|rs cs IH]; intros fuel Hok Hl Hf; [by destruct fuel|]. apply Forall_cons in Hok as [Hr Hok]. apply Forall_cons in Hl as [Hl1 Hl].
  cbn [fmap list_fmap concat] in *. unfold chunk at 1 in Hf. unfold chunk at 1. set (b := encode_all rs) in *. set (more := concat (chunk <$> cs)) in *.
  rewrite <- app_assoc. rewrite !length_app in Hf. change (length (be32 (zlen b))) with 4%nat in Hf. destruct fuel as [|fuel]; [lia|].
  assert (parse_chunks (S fuel) (be32 (zlen b) ++ b ++ more) =
    let n := Z.to_nat (header_field (be32 (zlen b) ++ b ++ more) 0 4) in
    if (length (be32 (zlen b) ++ b ++ more) <? 4 + n)%nat then None
    else match parse_blocks n (take n (drop 4 (be32 (zlen b) ++ b ++ more))), parse_chunks fuel (drop (4 + n) (be32 (zlen b) ++ b ++ more)) with
         | Some rs, Some rs' => Some (rs ++ rs') | _, _ => None end) as -> by reflexivity.
  assert (header_field (be32 (zlen b) ++ b ++ more) 0 4 = zlen b) as ->.
  { transitivity (be_val (be32 (zlen b))); [done|]. rewrite be_val_32, u32_small by lia. done. }
  cbv zeta. rewrite Nat2Z.id. rewrite !length_app. change (length (be32 (zlen b))) with 4%nat. rewrite (proj2 (Nat.ltb_ge _ _)) by lia.
  change (drop 4 (be32 (zlen b) ++ b ++ more)) with (b ++ more). rewrite take_app_length.
  change (drop (4 + length b) (be32 (zlen b) ++ b ++ more)) with (drop (length b) (b ++ more)). rewrite drop_app_length.
  subst b. pose proof (encode_all_length rs). rewrite parse_blocks_encode by (done || lia). subst more. rewrite IH by (done || lia). done.
Qed.

(** ** The service *)

(** A file as it is opened. *)
Record fresh (fi : nat) (f : File) : Prop := {
  fr_wf : file_wf fi f;
  fr_blocks : sentBlocks f = replicate (length (sentBlocks f)) false;
  fr_count : sentBlocksCount f = 0;
  fr_nodes : sentTreeBlocks f = replicate (length (sentTreeBlocks f)) false
}.

Lemma trues_replicate n : trues (replicate n false) = 0%nat.
Proof. by induction n. Qed.

Lemma fresh_inv fi f : fresh fi f → file_inv [] fi f f ∧ tree_complete f f.
Proof.
  intros [Hw Hb Hc Hn]. split.
  - constructor; [by destruct f|done|done| | | |].
    + rewrite Hb. apply replicate_flags. intros i (? & ? & ?%elem_of_nil). done.
    + rewrite Hb, trues_replicate. done.
    + rewrite Hn. apply replicate_flags. intros i (? & ?%elem_of_nil). done.
    + intros H0 j Hj. rewrite Hn. apply lookup_replicate. split; [done|].
      destruct (verity_spec (size f) (w_size _ _ Hw)) as (t & Et & _). unfold inner, leaf_count in Hj.
      assert (0 ≤ (numBytesToNumBlocks (size f) + 127) / 128) by (apply Z.div_pos; [pose proof (num_blocks_bound _ (w_size _ _ Hw)); lia|lia]). lia.
  - intros _ _ [H|(j & _ & H)]; rewrite Hn in H; by apply lookup_replicate in H as [? _].
Qed.

Lemma log_ok LZ4_decompress files rs :
  (∀ fi f, files !! fi = Some f → file_wf fi f) → log LZ4_decompress files rs → Forall ok_response rs.
Proof.
  intros Hwf. induction 1 as [|rs fi f i lz d raw _ IH H0 Hi _ _ _ Hd _|rs fi f i d _ IH H0 Hi _ _ _ Hd|rs _ IH _ _]; [done|..];
    apply Forall_app; (split; [done|]); apply Forall_singleton; [| |done].
  - pose proof (Hwf _ _ H0) as Hw. pose proof (w_index _ _ Hw). pose proof (num_blocks_bound _ (w_size _ _ Hw)). rewrite (w_blocks _ _ Hw) in Hi. cbn. lia.
  - pose proof (Hwf _ _ H0) as Hw. pose proof (w_index _ _ Hw). pose proof (num_blocks_bound _ (w_size _ _ Hw)).
    destruct (verity_spec (size f) (w_size _ _ Hw)) as (t & Et & T1 & _). rewrite (w_nodes _ _ Hw) in Et. injection Et as Et. cbn. lia.
Qed.


(** A library that compresses nothing, an archive library that opens nothing, and a
    file of two blocks with its tree. *)
Definition plain_lz4 : LZ4 := λ x, x.
Lemma plain_lossless : @LosslessLZ4 plain_lz4 (λ x, x).
Proof. split; [|done]. unfold LZ4_compress_default, plain_lz4, kCompressBound, kBlockSize. intros x Hx. lia. Qed.
Definition no_archive : ZipArchive := λ _ _, None.
Definition zeros (n : nat) : handle := Handle (replicate n (Zbyte 0)) (λ _, false).
Definition sample_file : File :=
  MkFile (str "base.txt") 0 5000 (zeros 5000) [] (Some (zeros 4096)) 0 [false; false] 0 [false].
Definition sample_request (ty f b : Z) : bytes := str "INCR" ++ be16 ty ++ be16 f ++ be32 b.

Lemma sample_new : @new_File no_archive 0 (str "base.txt") 0 5000 (zeros 5000) 0 (Some (zeros 4096)) = Ret sample_file.
Proof. vm_compute. reflexivity. Qed.

Lemma sample_fresh fi f : [sample_file] !! fi = Some f → fresh fi f.
Proof.
  intros [-> <-]%list_lookup_singleton_Some. split; [|done..]. split.
  - done.
  - done.
  - change (0 ≤ 5000 < 2 ^ 42). lia.
  - vm_compute. reflexivity.
  - vm_compute. reflexivity.
  - intros _. by right.
  - by split; [constructor|].
Qed.

Definition sample_inputs : list input :=
  [Readable (Data (str "Hi" ++ sample_request BLOCK_MISSING 0 1)); Readable (Data (sample_request PREFETCH 0 0))].

(** The kind and the numbers of a block. *)
Definition label (r : response) : Z * nat := match r with HashBlock _ i _ => (1, i) | DataBlock _ i _ _ => (0, i) | Done => (-1, 0%nat) end.

Example sample_stream :
  match @Serve plain_lz4 (new_server sample_inputs (Out [] []) (Out [] []) [sample_file]) with
  | Ret (true, s) => option_map (map label) (parse_stream (drop 4 (o_written (adb_out s))))
  | _ => None
  end = Some [(1, 0%nat); (0, 1%nat); (0, 0%nat); (-1, 0%nat)].
Proof. vm_compute. reflexivity. Qed.



(** ** Memory *)

Lemma new_File_small `{!ZipArchive} turns path i n fd off tree f :
  0 < n ≤ kBlockSize → new_File turns path i n fd off tree = Ret f →
  size f = n ∧ tree_fd_ f = tree ∧ sentBlocks f = [false] ∧ sentTreeBlocks f = [].
Proof.
  intros Hn. assert (0 ≤ n < MAX_FILE) as Hm by (unfold MAX_FILE, kBlockSize in *; lia).
  unfold new_File. destruct (verity_spec n Hm) as (t & -> & _ & _ & Ht). rewrite Ht by done.
  assert (numBytesToNumBlocks n = 1) as ->.
  { rewrite num_blocks_spec by done. unfold kBlockSize in Hn. Z.div_mod_to_equations. lia. }
  mstep. destruct (PriorityBlocksForFile turns path fd n); try done. by intros [= <-].
Qed.

(** C36: Two ways out of bounds: a device that asks to prefetch a file the server does
    not have makes it use an element beyond its vector of files; and the first block of a
    file of at most one block that has a signature file makes it look
    at the flag of a node of the tree of hashes, which is empty. *)
Theorem incremental_out_of_bounds `{HLZ : !LZ4, HZA : !ZipArchive} s :
  (∀ asked fileId idx, zlen (files_ s) ≤ fileId → fileId ∉ asked → handle_request (Command PREFETCH fileId idx) asked s = UB) ∧
  (∀ turns path fi n fd off tree f flush,
     0 < n ≤ kBlockSize → new_File turns path (Z.of_nat fi) n fd off (Some tree) = Ret f → files_ s !! fi = Some f →
     SendDataBlock (Z.of_nat fi) 0 flush s = UB).
Proof.
  split.
  - intros asked fileId idx Hge Hn. unfold handle_request, mbind at 1, ST_bind at 1, get at 1. cbn [request_type req_file_id].
    change (PREFETCH =? SERVING_COMPLETE) with false. change (PREFETCH =? BLOCK_MISSING) with false. change (PREFETCH =? PREFETCH) with true. cbn match.
    rewrite (proj2 (Z.ltb_ge _ _)) by lia. rewrite bool_decide_eq_false_2 by done.
    unfold file_at, mbind, ST_bind, get, lift, at_index. rewrite (proj2 (Z.ltb_ge _ _)) by lia. rewrite lookup_ge_None_2 by lia. done.
  - intros turns path fi n fd off tree f flush Hn Hf Hl. destruct (new_File_small _ _ _ _ _ _ _ _ Hn Hf) as (E1 & E2 & E3 & E4).
    assert (file_at (Z.of_nat fi) s = Ret (f, s)) as Eat.
    { unfold file_at, mbind, ST_bind, get, lift, at_index. rewrite (proj2 (Z.ltb_ge _ _)) by lia. by rewrite Nat2Z.id, Hl. }
    assert (SendTreeBlocksForDataBlock (Z.of_nat fi) 0 s = UB) as Et.
    { unfold SendTreeBlocksForDataBlock. rewrite (bind_then _ _ _ _ _ Eat). unfold hasTree. rewrite E1, E2, E4. cbn [negb].
      assert (numBytesToNumBlocks n = 1) as ->; [|done].
      rewrite num_blocks_spec by (unfold MAX_FILE, kBlockSize in *; lia). unfold kBlockSize in Hn. Z.div_mod_to_equations. lia. }
    unfold SendDataBlock. rewrite (bind_then _ _ _ _ _ Eat), E3. change (zlen [false] <=? 0) with false. cbn match.
    rewrite (bind_then (lift (at_index [false] 0)) _ false s s) by done. cbn match. unfold mbind, ST_bind. by rewrite Et.
Qed.

Definition small_file : File := MkFile (str "a.txt") 0 100 (zeros 100) [] (Some (zeros 0)) 0 [false] 0 [].

Lemma incremental_out_of_bounds_witness :
  let s := new_server [] (Out [] []) (Out [] []) [small_file] in
  @new_File no_archive 0 (str "a.txt") 0 100 (zeros 100) 0 (Some (zeros 0)) = Ret small_file ∧
  @SendDataBlock plain_lz4 0 0 false s = UB ∧ @handle_request plain_lz4 (Command PREFETCH 1 0) ∅ s = UB.
Proof.
  intros s. assert (@new_File no_archive 0 (str "a.txt") (Z.of_nat 0) 100 (zeros 100) 0 (Some (zeros 0)) = Ret small_file) as Ef by (vm_compute; reflexivity).
  destruct (@incremental_out_of_bounds plain_lz4 no_archive s) as [H1 H2]. split; [exact Ef|]. split.
  - apply (H2 0%nat (str "a.txt") 0%nat 100 (zeros 100) 0 (zeros 0) small_file false); [unfold kBlockSize; lia|exact Ef|reflexivity].
  - apply H1; [cbn; lia|apply not_elem_of_empty].
Defined.
