(* ===== verification/IncrementalUtilsFacts.v ===== *)
(** * Facts about the files of an incremental installation

    The search for the end of an archive that need not end, the blocks that come first,
    and the headers of a signature file. *)

From S2P Require Import Prelude CString LibBase IncrementalUtils IncrementalServer IncrementalFacts IncrementalInv IncrementalProps.
Import IU IS.
Local Open Scope Z_scope.

(** ** The end of an archive *)

Definition EOCD_SIG : Z := 0x06054b50.

Lemma eocd_forever turns h n : ∀ c,
  32768 ≤ n → -32768 ≤ c < 32768 → (∀ off, valueAt 4 h off ≠ EOCD_SIG) → eocd_loop turns h n c = OutOfFuel.
Proof.
  induction turns as [|turns IH]; intros c Hn Hc Hno; cbn [eocd_loop]; rewrite (proj2 (Z.ltb_lt _ _)) by lia; [done|].
  rewrite (proj2 (Z.eqb_neq _ _)) by apply Hno. cbn [andb]. apply IH; [done| |done]. unfold s16.
  pose proof (Z.mod_pos_bound (c + 1) (2 ^ 16) ltac:(lia)). zcase; lia.
Qed.

Lemma eocd_returns h n : n < 32768 → ∀ turns c, 0 ≤ c → n - c ≤ Z.of_nat turns → ∃ r, eocd_loop turns h n c = Ret r.
Proof.
  intros Hn. induction turns as [|turns IH]; intros c Hc Ht; cbn [eocd_loop].
  - rewrite (proj2 (Z.ltb_ge _ _)) by lia. eauto.
  - destruct (Z.ltb_spec c n); [|eauto]. destruct (_ && _); [eauto|]. rewrite s16_id by lia. apply IH; lia.
Qed.

(** A file that is named like an APK but is no archive: below 32 KiB the search for the
    end record ends; from there on, when the file has no such record, the
    16-bit counter of the search wraps around before it reaches the size of the file, and the
    server never starts to serve. *)
Theorem apk_search_termination `{HZA : !ZipArchive} turns path h n :
  (n < 32768 → ∃ r, CentralDirOffset (Z.to_nat n) h n = Ret r) ∧
  (32768 ≤ n → EndsWithIgnoreCase path (str ".apk") = true → (∀ off, valueAt 4 h off ≠ EOCD_SIG) →
   PriorityBlocksForFile turns path h n = OutOfFuel).
Proof.
  split.
  - intros Hn. unfold CentralDirOffset. destruct (eocd_returns h n Hn (Z.to_nat n) 0 ltac:(lia) ltac:(lia)) as [r ->]. mstep. destruct (r <? 0); eauto.
  - intros Hn Hp Hno. unfold PriorityBlocksForFile, SignerBlockOffset, CentralDirOffset. rewrite Hp. cbn [negb].
    rewrite eocd_forever by (done || lia). done.
Qed.

Lemma le_val_zeros k : le_val (replicate k (Zbyte 0)) = 0.
Proof. induction k as [|k IH]; [done|]. cbn. unfold le_val in IH. rewrite IH. done. Qed.

Lemma zeros_no_sig k off : valueAt 4 (zeros k) off ≠ EOCD_SIG.
Proof.
  unfold valueAt, adb_pread, zeros. cbn [contents faulty]. destruct (_ || _); [done|]. unfold ztake, zdrop. rewrite drop_replicate, take_replicate.
  destruct (_ =? 4); [|done]. by rewrite le_val_zeros.
Qed.

Lemma apk_search_termination_witness :
  @PriorityBlocksForFile no_archive 100 (str "a.apk") (zeros (Z.to_nat 40000)) 40000 = OutOfFuel ∧
  ∃ r, CentralDirOffset (Z.to_nat 100) (zeros 100) 100 = Ret r.
Proof.
  split.
  - apply (proj2 (@apk_search_termination no_archive 100%nat (str "a.apk") (zeros (Z.to_nat 40000)) 40000)); [lia|vm_compute; reflexivity|apply zeros_no_sig].
  - apply (proj1 (@apk_search_termination no_archive 0%nat [] (zeros 100) 100)). lia.
Defined.

(** ** The blocks that come first *)

Lemma iota_elem b n : ∀ x, x ∈ iota b n ↔ b ≤ x < b + Z.of_nat n.
Proof.
  revert b. induction n as [|n IH]; intros b x; cbn [iota]; [rewrite elem_of_nil; lia|]. rewrite elem_of_cons, IH. lia.
Qed.

Lemma append_blocks_spec start count blocks :
  0 ≤ count → ∃ r, appendBlocks start count blocks = Ret r ∧ ∀ x, x ∈ r ↔ x ∈ blocks ∨ start ≤ x < start + count.
Proof.
  intros Hc. unfold appendBlocks. destruct (Z.eqb_spec count 1) as [->|H1].
  - eexists. split; [reflexivity|]. intros x. rewrite elem_of_app, list_elem_of_singleton. split; intros [?|?]; try (by left); right; lia.
  - rewrite (proj2 (Z.ltb_ge _ _)) by lia. eexists. split; [reflexivity|]. intros x. rewrite elem_of_app, iota_elem, Z2Nat.id by lia. done.
Qed.

Lemma unduplicate_spec v : NoDup (unduplicate v) ∧ ∀ x, x ∈ unduplicate v ↔ x ∈ v.
Proof.
  unfold unduplicate. enough (∀ u, NoDup (unduplicate_loop u v) ∧ ∀ x, x ∈ unduplicate_loop u v ↔ x ∈ v ∧ x ∉ u) as H.
  { destruct (H ∅) as [H1 H2]. split; [done|]. intros x. rewrite H2. set_solver. }
  induction v as [|t v IH]; intros u; cbn [unduplicate_loop]; [split; [constructor|set_solver]|]. case_bool_decide as Ht.
  - destruct (IH u) as [H1 H2]. split; [done|]. intros x. rewrite H2. set_solver.
  - destruct (IH ({[t]} ∪ u)) as [H1 H2]. split; [constructor; [rewrite H2; set_solver|done]|]. intros x. rewrite elem_of_cons, H2.
    destruct (decide (x = t)); set_solver.
Qed.

Lemma block_index x : 0 ≤ x < MAX_FILE → offsetToBlockIndex x = x / 4096.
Proof.
  intros H. unfold MAX_FILE in H. unfold offsetToBlockIndex. change (Z.land x (Z.lnot (kBlockSize - 1))) with (roundDownToBlockOffset x).
  rewrite round_down_spec, Z.shiftr_div_pow2 by lia. change (2 ^ 12) with 4096. rewrite Z.div_mul by lia. apply s32_id. Z.div_mod_to_equations. lia.
Qed.

Lemma value_read k h off v : valueAt k h off = v → v ≠ -1 → 0 ≤ k → 0 ≤ off ∧ off + k ≤ Z.max off (zlen (contents h)).
Proof.
  unfold valueAt, adb_pread. intros <- Hv Hk. destruct (off <? 0) eqn:E; [done|]. apply Z.ltb_ge in E. destruct (faulty h off); [done|]. cbn [orb] in Hv.
  destruct (Z.eqb_spec (zlen (ztake k (zdrop off (contents h)))) k) as [El|]; [|done]. unfold ztake, zdrop in El. rewrite length_take, length_drop in El. lia.
Qed.

Lemma signer_offset turns h cd :
  CentralDirOffset turns h (zlen (contents h)) = Ret cd →
  ∃ so, SignerBlockOffset turns h (zlen (contents h)) = Ret so ∧ so ≤ zlen (contents h).
Proof.
  intros E. unfold SignerBlockOffset. rewrite E. mstep. assert (-1 ≤ zlen (contents h)) by lia.
  destruct (cd <? 0); [eauto|]. destruct (_ || _) eqn:Em; [eauto|]. apply orb_false_iff in Em as [[_ _]%orb_false_iff Ehi%negb_false_iff%Z.eqb_eq].
  apply value_read in Ehi; [|done|lia]. destruct (_ <? 0) eqn:Eneg; [eauto|]. destruct (negb _) eqn:Es; [eauto|]. apply negb_false_iff, Z.eqb_eq in Es.
  eexists. split; [reflexivity|]. destruct (Z.eq_dec (valueAt 4 h (cd - 24)) (-1)) as [E1|E1]; [rewrite E1; lia|].
  symmetry in Es. apply value_read in Es; [lia|done|lia].
Qed.

(** An entry lies in the file. *)
Definition entry_end (e : zip_entry) : Z :=
  entry_offset e + (if stored e then uncompressed_length e else compressed_length e) + (if has_data_descriptor e then 16 else 0).
Definition entry_ok (n : Z) (e : zip_entry) : Prop := 0 ≤ entry_offset e ≤ entry_end e ∧ entry_end e ≤ n.

Definition in_entry (e : zip_entry) (b : Z) : Prop :=
  if bool_decide (entry_name e = str "classes.dex") then entry_offset e / 4096 ≤ b < entry_offset e / 4096 + 2
  else entry_offset e / 4096 ≤ b ≤ entry_end e / 4096.

Lemma entries_spec n es : ∀ blocks,
  0 ≤ n < MAX_FILE → Forall (entry_ok n) es →
  ∃ r, entries_loop es blocks = Ret r ∧ ∀ x, x ∈ r ↔ x ∈ blocks ∨ ∃ e, e ∈ es ∧ in_entry e x.
Proof.
  induction es as [|e es IH]; intros blocks Hn Hok.
  - exists blocks. split; [done|]. intros x. split; [by left|]. intros [?|(e & ?%elem_of_nil & _)]; done.
  - apply Forall_cons in Hok as [He Hok]. cbn [entries_loop]. fold (entry_end e). destruct He as [He1 He2]. rewrite !block_index by lia.
    assert (∃ r, (if bool_decide (entry_name e = str "classes.dex") then appendBlocks (entry_offset e / 4096) 2 blocks
                  else appendBlocks (entry_offset e / 4096) (entry_end e / 4096 - entry_offset e / 4096 + 1) blocks) = Ret r ∧
      ∀ x, x ∈ r ↔ x ∈ blocks ∨ in_entry e x) as (r & -> & Hr).
    { unfold in_entry. case_bool_decide; [apply append_blocks_spec; lia|].
      assert (entry_offset e / 4096 ≤ entry_end e / 4096) by (apply Z.div_le_mono; lia).
      destruct (append_blocks_spec (entry_offset e / 4096) (entry_end e / 4096 - entry_offset e / 4096 + 1) blocks ltac:(lia)) as (r & -> & Hr).
      exists r. split; [done|]. intros x. rewrite Hr. split; intros [?|?]; try (by left); right; lia. }
    mstep. destruct (IH r Hn Hok) as (r' & -> & Hr'). exists r'. split; [done|]. intros x. rewrite Hr', Hr. setoid_rewrite elem_of_cons. naive_solver.
Qed.

Lemma zip_priority so n :
  0 ≤ so ≤ n → n < MAX_FILE → ∃ r, ZipPriorityBlocks so n = Ret r ∧ ∀ x, x ∈ r ↔ x = 0 ∨ so / 4096 ≤ x ≤ n / 4096.
Proof.
  intros Hs Hn. unfold ZipPriorityBlocks. rewrite !block_index by lia. assert (so / 4096 ≤ n / 4096) by (apply Z.div_le_mono; lia).
  change (64 * 1024 / kBlockSize + 1) with 17. set (a := so / 4096) in *. set (z := n / 4096) in *.
  assert (∃ r, (if 17 <? z - a + 1 then b ← appendBlocks (z - 17 + 1) 17 []; appendBlocks a (z - a + 1 - 17) b else appendBlocks a (z - a + 1) []) = Ret r ∧
    ∀ x, x ∈ r ↔ a ≤ x ≤ z) as (r & -> & Hr).
  { destruct (Z.ltb_spec 17 (z - a + 1)).
    - destruct (append_blocks_spec (z - 17 + 1) 17 [] ltac:(lia)) as (r1 & -> & H1). mstep. destruct (append_blocks_spec a (z - a + 1 - 17) r1 ltac:(lia)) as (r2 & -> & H2).
      exists r2. split; [done|]. intros x. rewrite H2, H1, elem_of_nil. lia.
    - destruct (append_blocks_spec a (z - a + 1) [] ltac:(lia)) as (r1 & -> & H1). exists r1. split; [done|]. intros x. rewrite H1, elem_of_nil. lia. }
  mstep. destruct (append_blocks_spec 0 1 r ltac:(lia)) as (r' & -> & Hr'). exists r'. split; [done|]. intros x. rewrite Hr', Hr. lia.
Qed.

Section priority.
Context `{HZA : !ZipArchive}.

(** The blocks an installation needs first. *)
Definition needed (h : handle) (so b : Z) : Prop :=
  b = 0 ∨ so / 4096 ≤ b ≤ zlen (contents h) / 4096 ∨
  ∃ es e, zip_entries h (zlen (contents h)) = Some es ∧ e ∈ es ∧ matcher (entry_name e) = true ∧ in_entry e b.

Lemma priority_spec turns path h cd :
  zlen (contents h) < MAX_FILE → (∀ es, zip_entries h (zlen (contents h)) = Some es → Forall (entry_ok (zlen (contents h))) es) →
  CentralDirOffset turns h (zlen (contents h)) = Ret cd →
  ∃ bs so, PriorityBlocksForFile turns path h (zlen (contents h)) = Ret bs ∧ SignerBlockOffset turns h (zlen (contents h)) = Ret so ∧
    NoDup bs ∧ Forall (λ b, 0 ≤ b ≤ zlen (contents h) / 4096 + 1) bs ∧
    (EndsWithIgnoreCase path (str ".apk") = true → 0 ≤ so → ∀ b, b ∈ bs ↔ needed h so b).
Proof.
  intros Hn Hes Hcd. set (n := zlen (contents h)) in *. destruct (signer_offset turns h cd Hcd) as (so & Eso & Hso). fold n in Eso, Hso.
  unfold PriorityBlocksForFile. destruct (EndsWithIgnoreCase path (str ".apk")) eqn:Ep; cbn [negb].
  2: { exists [], so. split_and!; [done|done|constructor|constructor|done]. }
  rewrite Eso. mstep. destruct (Z.ltb_spec so 0). { exists [], so. split_and!; [done|done|constructor|constructor|lia]. }
  destruct (zip_priority so n ltac:(lia) Hn) as (z & -> & Hz). mstep.
  assert (∃ r, InstallationPriorityBlocks h n = Ret r ∧ ∀ x, x ∈ r ↔ ∃ es e, zip_entries h n = Some es ∧ e ∈ es ∧ matcher (entry_name e) = true ∧ in_entry e x) as (r & -> & Hr).
  { unfold InstallationPriorityBlocks. destruct (zip_entries h n) as [es|] eqn:Ez.
    2: { exists []. split; [done|]. intros x. rewrite elem_of_nil. naive_solver. }
    destruct (entries_spec n (filter (λ e, matcher (entry_name e)) es) []) as (r & -> & Hr); [lia|apply Forall_forall; intros e [_ He]%list_elem_of_filter; by eapply (proj1 (Forall_forall _ _) (Hes es eq_refl))|].
    exists r. split; [done|]. intros x. rewrite Hr, elem_of_nil. setoid_rewrite list_elem_of_filter. setoid_rewrite Is_true_true. naive_solver. }
  mstep. destruct (unduplicate_spec (z ++ r)) as [U1 U2]. exists (unduplicate (z ++ r)), so.
  assert (∀ b, b ∈ unduplicate (z ++ r) ↔ needed h so b) as Hb.
  { intros b. rewrite U2, elem_of_app, Hz, Hr. unfold needed. fold n. tauto. }
  split_and!; [done|done|done| |by intros _ _]. apply Forall_forall. intros b. rewrite Hb. unfold needed. fold n.
  assert (0 ≤ n) by (subst n; lia). assert (0 ≤ so / 4096) by (apply Z.div_pos; lia). assert (0 ≤ n / 4096) by (apply Z.div_pos; lia).
  intros [->|[?|(es & e & He & Hin & _ & Hx)]]; [lia|lia|].
  pose proof (Hes es He) as Hall. rewrite Forall_forall in Hall. destruct (Hall e Hin) as [[E1 E2] E3].
  assert (0 ≤ entry_offset e / 4096) by (apply Z.div_pos; lia). assert (entry_offset e / 4096 ≤ n / 4096) by (apply Z.div_le_mono; lia).
  assert (entry_end e / 4096 ≤ n / 4096) by (apply Z.div_le_mono; lia). unfold in_entry in Hx. case_bool_decide; lia.
Qed.


Lemma range_length (bs : list Z) k : NoDup bs → Forall (λ b, 0 ≤ b ≤ k) bs → zlen bs ≤ Z.max 0 (k + 1).
Proof.
  intros Hn Hr. assert (bs ⊆+ iota 0 (Z.to_nat (k + 1))) as Hs.
  { apply NoDup_submseteq; [done|]. intros x Hx. rewrite Forall_forall in Hr. specialize (Hr x Hx). apply iota_elem. lia. }
  apply submseteq_length in Hs. assert (∀ m b, length (iota b m) = m) as El by (induction m as [|m IH]; intros b; cbn; auto). rewrite El in Hs. lia.
Qed.

End priority.

(** A minimal archive: an empty signature block, an empty directory, the end record. *)
Definition sample_apk : handle :=
  Handle (le64 24 ++ le64 24 ++ str "APK Sig Block 42" ++ le32 EOCD_SIG ++ replicate 18 (Zbyte 0)) (λ _, false).
Definition sample_archive : ZipArchive := λ _ _, Some [ZipEntry (str "classes.dex") 0 true 8 8 false; ZipEntry (str "x") 8 true 8 8 true].

Lemma sample_entries es : @zip_entries sample_archive sample_apk (zlen (contents sample_apk)) = Some es → Forall (entry_ok (zlen (contents sample_apk))) es.
Proof. intros [= <-]. change (zlen (contents sample_apk)) with 54.
  apply Forall_cons_2; [unfold entry_ok, entry_end; cbn; lia|]. apply Forall_cons_2; [unfold entry_ok, entry_end; cbn; lia|constructor].
Qed.



(** ** Signature files *)

Definition sig_file (version : Z) (hashing signing tree : bytes) : bytes :=
  le32 version ++ (le32 (zlen hashing) ++ hashing) ++ (le32 (zlen signing) ++ signing) ++ le32 (zlen tree) ++ tree.

Lemma le_val_32 z : le_val (le32 z) = u32 z.
Proof. unfold le_val, le32, u32. cbn. rewrite !byteZ_Zbyte. Z.div_mod_to_equations. lia. Qed.
Lemma le32_s32 z : le32 (s32 z) = le32 z.
Proof.
  assert (∃ k, s32 z = z + 2 ^ 32 * k) as [k ->].
  { unfold s32, u32. pose proof (Z.div_mod z (2 ^ 32) ltac:(lia)). destruct (_ <? _); [exists (- (z / 2 ^ 32))|exists (- (z / 2 ^ 32) - 1)]; lia. }
  assert (∀ a b, a mod 256 = b mod 256 → Zbyte a = Zbyte b) as Hb by (intros a b E; apply byteZ_inj; by rewrite !byteZ_Zbyte).
  unfold le32. repeat apply (f_equal2 cons); try done; apply Hb; Z.div_mod_to_equations; lia.
Qed.
Lemma signed_32 z : signed 4 (u32 z) = s32 z.
Proof. done. Qed.

(** Reading at the end of [pre]. *)
Lemma read_at pre bs more k :
  k = zlen bs → read_file k (Handle (pre ++ bs ++ more) (λ _, false), zlen pre) = (Some bs, (Handle (pre ++ bs ++ more) (λ _, false), zlen pre + k)).
Proof.
  intros ->. unfold read_file, adb_pread. cbn [contents faulty]. rewrite (proj2 (Z.ltb_ge _ _)) by lia. cbn [orb].
  rewrite zdrop_app_ge, Z.sub_diag, zdrop_0, ztake_app_le, ztake_all by lia. by rewrite Z.eqb_refl.
Qed.
Lemma read_int_at pre z more :
  read_int32 (Handle (pre ++ le32 z ++ more) (λ _, false), zlen pre) = (s32 z, (Handle (pre ++ le32 z ++ more) (λ _, false), zlen pre + 4)).
Proof. unfold read_int32. rewrite read_at by done. by rewrite le_val_32, signed_32. Qed.

(** A field with its size, skipped or appended. *)
Lemma skip_at pre bs more :
  zlen pre + 4 + zlen bs < 2 ^ 31 →
  skip_bytes_with_size (Handle (pre ++ (le32 (zlen bs) ++ bs) ++ more) (λ _, false), zlen pre) =
    (zlen (pre ++ le32 (zlen bs) ++ bs), (Handle (pre ++ (le32 (zlen bs) ++ bs) ++ more) (λ _, false), zlen (pre ++ le32 (zlen bs) ++ bs))).
Proof.
  intros Hl. unfold skip_bytes_with_size. rewrite <- app_assoc, read_int_at, s32_id by lia. rewrite (proj2 (Z.ltb_ge _ _)) by lia.
  unfold seek_cur. rewrite (proj2 (Z.ltb_ge _ _)) by lia. rewrite s32_id by lia. rewrite !length_app, length_le32.
  replace (zlen pre + 4 + zlen bs) with (Z.of_nat (length pre + (4 + length bs))) by lia. done.
Qed.
Lemma append_at pre bs more sig left :
  bs ≠ [] → zlen bs ≤ left → left < 2 ^ 31 →
  append_bytes_with_size (Handle (pre ++ (le32 (zlen bs) ++ bs) ++ more) (λ _, false), zlen pre) sig left =
    (Some (sig ++ le32 (zlen bs) ++ bs, left - zlen bs),
     (Handle (pre ++ (le32 (zlen bs) ++ bs) ++ more) (λ _, false), zlen (pre ++ le32 (zlen bs) ++ bs))).
Proof.
  intros Hne Hl Hm. assert (0 < zlen bs) by (destruct bs; [done|cbn; lia]). unfold append_bytes_with_size. rewrite <- app_assoc, read_int_at, s32_id by lia.
  zbool. cbn [fst snd]. pose proof (read_at (pre ++ le32 (zlen bs)) bs more (zlen bs) eq_refl) as Hr. rewrite length_app, length_le32 in Hr.
  rewrite <- app_assoc in Hr. replace (Z.of_nat (length pre + 4)) with (zlen pre + 4) in Hr by lia. rewrite Hr.
  unfold read_file in Hr. destruct (adb_pread _ _ _) as [b|]; [|done]. destruct (_ =? _) in Hr; [|done]. injection Hr as -> _.
  rewrite Z.sub_diag. cbn [Z.to_nat replicate]. rewrite app_nil_r, !length_app, length_le32.
  replace (zlen pre + 4 + zlen bs) with (Z.of_nat (length pre + (4 + length bs))) by lia. done.
Qed.

(** The headers of a signature file are understood: skipping them gives the
    offset of the tree of hashes, at which its blocks are then read, and its size;
    reading them gives the signature byte for byte, and leaves the file at the tree. *)
Theorem id_sig_headers_roundtrip version hashing signing tree :
  hashing ≠ [] → signing ≠ [] → zlen hashing + zlen signing ≤ kMaxSignatureSize - 4 → zlen tree < 2 ^ 31 →
  let h := Handle (sig_file version hashing signing tree) (λ _, false) in
  let signature := le32 version ++ (le32 (zlen hashing) ++ hashing) ++ le32 (zlen signing) ++ signing in
  let offset := zlen signature + 4 in
  skip_id_sig_headers (h, 0) = ((offset, zlen tree), (h, offset)) ∧
  read_id_sig_headers (h, 0) = ((signature, zlen tree), (h, offset)) ∧
  ∀ i, 0 ≤ i → adb_pread h kBlockSize (offset + i * kBlockSize) = Some (ztake kBlockSize (zdrop (i * kBlockSize) tree)).
Proof.
  intros Hh Hs Hmax Ht h signature offset. unfold kMaxSignatureSize in Hmax. set (p1 := le32 version).
  set (p2 := p1 ++ le32 (zlen hashing) ++ hashing). assert (signature = p2 ++ le32 (zlen signing) ++ signing) as Esig by (subst signature p2 p1; by rewrite <- !app_assoc).
  assert (sig_file version hashing signing tree = p1 ++ (le32 (zlen hashing) ++ hashing) ++ (le32 (zlen signing) ++ signing) ++ le32 (zlen tree) ++ tree) as E1 by done.
  assert (sig_file version hashing signing tree = p2 ++ (le32 (zlen signing) ++ signing) ++ le32 (zlen tree) ++ tree) as E2 by (subst p2; rewrite E1, <- !app_assoc; done).
  assert (sig_file version hashing signing tree = signature ++ le32 (zlen tree) ++ tree) as E3 by (rewrite E2, Esig, <- !app_assoc; done).
  assert (zlen p2 = 8 + zlen hashing ∧ zlen signature = 12 + zlen hashing + zlen signing) as [L2 L3].
  { rewrite Esig. subst p2 p1. rewrite !length_app, !length_le32. lia. }
  pose proof (read_int_at signature (zlen tree) tree) as R3. rewrite <- E3, s32_id in R3 by lia. fold h in R3. fold offset in R3.
  split_and!.
  - unfold skip_id_sig_headers, skip_int, seek_cur. change (0 + 4 <? 0) with false. cbn match. change (0 + 4) with 4.
    pose proof (skip_at p1 hashing ((le32 (zlen signing) ++ signing) ++ le32 (zlen tree) ++ tree) ltac:(change (zlen p1) with 4; lia)) as S1.
    rewrite <- E1 in S1. fold h in S1. change (zlen p1) with 4 in S1. rewrite S1. fold p2.
    pose proof (skip_at p2 signing (le32 (zlen tree) ++ tree) ltac:(lia)) as S2. rewrite <- E2 in S2. fold h in S2. rewrite S2, <- Esig, R3. done.
  - unfold read_id_sig_headers, append_int. pose proof (read_int_at [] version ((le32 (zlen hashing) ++ hashing) ++ (le32 (zlen signing) ++ signing) ++ le32 (zlen tree) ++ tree)) as R1.
    cbn [app] in R1. fold p1 in R1. rewrite <- E1 in R1. fold h in R1. change (zlen []) with 0 in R1. rewrite R1. cbn [app].
    rewrite le32_s32. fold p1.
    pose proof (append_at p1 hashing ((le32 (zlen signing) ++ signing) ++ le32 (zlen tree) ++ tree) p1 (kMaxSignatureSize - 4) Hh ltac:(unfold kMaxSignatureSize; lia) ltac:(unfold kMaxSignatureSize; lia)) as A1.
    rewrite <- E1 in A1. fold h in A1. change (zlen p1) with (0 + 4) in A1. rewrite A1. fold p2.
    pose proof (append_at p2 signing (le32 (zlen tree) ++ tree) p2 (kMaxSignatureSize - 4 - zlen hashing) Hs ltac:(unfold kMaxSignatureSize; lia) ltac:(unfold kMaxSignatureSize; lia)) as A2.
    rewrite <- E2 in A2. fold h in A2. rewrite A2, <- Esig, R3. done.
  - intros i Hi. unfold adb_pread. cbn [h contents faulty]. unfold kBlockSize. rewrite (proj2 (Z.ltb_ge _ _)) by (subst offset; lia). cbn [orb].
    rewrite E3, app_assoc, zdrop_app_ge by (rewrite length_app, length_le32; subst offset; lia). do 3 f_equal. rewrite length_app, length_le32. subst offset. lia.
Qed.

Lemma id_sig_headers_roundtrip_witness :
  skip_id_sig_headers (Handle (sig_file 2 (str "hash") (str "sign") (str "tree")) (λ _, false), 0) =
    ((24, 4), (Handle (sig_file 2 (str "hash") (str "sign") (str "tree")) (λ _, false), 24)).
Proof.
  apply (id_sig_headers_roundtrip 2 (str "hash") (str "sign") (str "tree")); [done|done|change (4 + 4 ≤ 8096 - 4); lia|change (4 < 2 ^ 31); lia].
Defined.
