(* ===== verification/ShellService.v ===== *)
(** * The shell service of the device: [adb/daemon/shell_service.cpp]

    A thread of the daemon connects a subprocess to a client: it reads the
    packets of the shell protocol ([AdbIO.ShellProtocol]) that the client sends and
    writes what is for the standard input to the subprocess; it reads the
    output of the subprocess and sends it to the client, and at the end the exit
    code.  Module [SVC] has the class [Subprocess] from the point where the
    subprocess runs, and the request that starts it ([daemon/services.cpp]).

    The descriptors have other ends: what can be read from them and how much
    they take is given by the scripts of [AdbIO]; the results of [poll],
    [shutdown] and [waitpid] are scripts too.  When the script of [poll] is used up
    all that was asked for is ready.  The output of the subprocess ends
    where its script ends; the client, whose script is used up, is silent but connected
    (that it has gone is an empty read in the script). *)

From S2P Require Import Prelude State CString LibBase AdbIO.
Local Open Scope Z_scope.
Local Open Scope record_scope.

(** What remains to be read from a descriptor that does not block, up to the end
    or an error. *)
Fixpoint drained (i : instream) : bytes :=
  match i with
  | Data (b :: bs) :: i => (b :: bs) ++ drained i
  | Fault EAGAIN :: i => drained i
  | _ => []
  end.

Definition has_data (i : instream) : bool := negb (bool_decide (drained i = [])).

Module SVC.
Import ShellProtocol.

Inductive SubprocessType := kPty | kRaw.
Inductive SubprocessProtocol := kNone | kShell.
#[global] Instance SubprocessType_eq_dec : EqDecision SubprocessType.
Proof. solve_decision. Defined.
#[global] Instance SubprocessProtocol_eq_dec : EqDecision SubprocessProtocol.
Proof. solve_decision. Defined.

(** The descriptors of a [Subprocess], for a [unique_fd*]. *)
Inductive sfd := stdinout_sfd | stderr_sfd | protocol_sfd.
#[global] Instance sfd_eq_dec : EqDecision sfd.
Proof. solve_decision. Defined.

(** Sets of [POLLIN], [POLLOUT], and one of [POLLHUP], [POLLRDHUP], [POLLERR],
    [POLLNVAL]. *)
Record flags := Flags { f_in : bool; f_out : bool; f_err : bool }.
Record pollfd := Pollfd { fd : Z; events : flags; revents : flags }.
Record SubprocessPollfds := Pfds { stdinout_pfd : pollfd; stderr_pfd : pollfd; protocol_pfd : pollfd }.

(** One return of [poll]: interrupted, failed, or what there is to report of
    each descriptor. *)
Inductive poll_result := PollIntr | PollError | Ready (stdinout stderr protocol : flags).

Inductive wait_result :=
| WaitError                 (* the call fails *)
| Signaled (sig : Z)
| Exited (status : Z)
| NotExited.                (* stopped or continued *)

Record winsize := Winsize { ws_row : Z; ws_col : Z; ws_xpixel : Z; ws_ypixel : Z }.

Record service := Service {
  type_ : SubprocessType;
  pid_ : Z;
  stdinout_sfd_ : Z;
  stderr_sfd_ : Z;
  protocol_sfd_ : Z;
  input_ : t;
  output_ : t;
  input_bytes_left_ : Z;
  pfds : SubprocessPollfds;          (* local to [PassDataStreams] *)
  child_in : outstream;              (* the subprocess *)
  child_out : instream;
  child_err : instream;
  stdin_shut : bool;
  window : option winsize;
  hangups : list Z;                  (* the processes sent [SIGHUP] *)
  client_in : instream;              (* the client *)
  client_out : outstream;
  polls : list poll_result;          (* the kernel *)
  shutdowns : list bool;
  waits : list wait_result
}.
#[global] Instance eta_pollfd : Eta pollfd := rd_pure Pollfd <%> fd <%> events <%> revents.
#[global] Instance upd_pollfd_fd : Update fd. Proof. mk_update. Defined.
#[global] Instance upd_pollfd_events : Update events. Proof. mk_update. Defined.
#[global] Instance upd_pollfd_revents : Update revents. Proof. mk_update. Defined.
#[global] Instance eta_flags : Eta flags := rd_pure Flags <%> f_in <%> f_out <%> f_err.
#[global] Instance upd_f_in : Update f_in. Proof. mk_update. Defined.
#[global] Instance upd_f_out : Update f_out. Proof. mk_update. Defined.
#[global] Instance eta_pfds : Eta SubprocessPollfds :=
  rd_pure Pfds <%> stdinout_pfd <%> stderr_pfd <%> protocol_pfd.
#[global] Instance upd_stdinout_pfd : Update stdinout_pfd. Proof. mk_update. Defined.
#[global] Instance upd_stderr_pfd : Update stderr_pfd. Proof. mk_update. Defined.
#[global] Instance upd_protocol_pfd : Update protocol_pfd. Proof. mk_update. Defined.
#[global] Instance eta_service : Eta service :=
  rd_pure Service <%> type_ <%> pid_ <%> stdinout_sfd_ <%> stderr_sfd_ <%> protocol_sfd_
    <%> input_ <%> output_ <%> input_bytes_left_ <%> pfds <%> child_in <%> child_out <%> child_err
    <%> stdin_shut <%> window <%> hangups <%> client_in <%> client_out <%> polls <%> shutdowns <%> waits.
#[global] Instance upd_stdinout_sfd : Update stdinout_sfd_. Proof. mk_update. Defined.
#[global] Instance upd_stderr_sfd : Update stderr_sfd_. Proof. mk_update. Defined.
#[global] Instance upd_protocol_sfd : Update protocol_sfd_. Proof. mk_update. Defined.
#[global] Instance upd_input : Update input_. Proof. mk_update. Defined.
#[global] Instance upd_output : Update output_. Proof. mk_update. Defined.
#[global] Instance upd_input_bytes_left : Update input_bytes_left_. Proof. mk_update. Defined.
#[global] Instance upd_pfds : Update pfds. Proof. mk_update. Defined.
#[global] Instance upd_child_in : Update child_in. Proof. mk_update. Defined.
#[global] Instance upd_child_out : Update child_out. Proof. mk_update. Defined.
#[global] Instance upd_child_err : Update child_err. Proof. mk_update. Defined.
#[global] Instance upd_stdin_shut : Update stdin_shut. Proof. mk_update. Defined.
#[global] Instance upd_window : Update window. Proof. mk_update. Defined.
#[global] Instance upd_hangups : Update hangups. Proof. mk_update. Defined.
#[global] Instance upd_client_in : Update client_in. Proof. mk_update. Defined.
#[global] Instance upd_client_out : Update client_out. Proof. mk_update. Defined.
#[global] Instance upd_polls : Update polls. Proof. mk_update. Defined.
#[global] Instance upd_shutdowns : Update shutdowns. Proof. mk_update. Defined.

Local Abbreviation S := (ST service).

Definition get_sfd (d : sfd) (s : service) : Z :=
  match d with
  | stdinout_sfd => stdinout_sfd_ s
  | stderr_sfd => stderr_sfd_ s
  | protocol_sfd => protocol_sfd_ s
  end.

(** [d->reset()] *)
Definition reset_sfd (d : sfd) (s : service) : service :=
  match d with
  | stdinout_sfd => s <| stdinout_sfd_ := -1 |>
  | stderr_sfd => s <| stderr_sfd_ := -1 |>
  | protocol_sfd => s <| protocol_sfd_ := -1 |>
  end.

(** ** System calls *)

(** [adb_read(fd, p, len)] from the subprocess *)
Definition read_child (d : sfd) (len : Z) : S read_result := λ s,
  if get_sfd d s =? -1 then Ret (ReadError EOther, s)
  else match d with
       | stdinout_sfd => let '(r, i) := adb_read (child_out s) len in Ret (r, s <| child_out := i |>)
       | stderr_sfd => let '(r, i) := adb_read (child_err s) len in Ret (r, s <| child_err := i |>)
       | protocol_sfd => UB
       end.

(** [adb_write(stdinout_sfd_, p, len)] *)
Definition write_child (p : bytes) : S write_result := λ s,
  if stdinout_sfd_ s =? -1 then Ret (WriteError EOther, s)
  else if stdin_shut s then Ret (WriteError EPIPE, s)
  else let '(r, o) := adb_write (child_in s) p in Ret (r, s <| child_in := o |>).

(** [adb_shutdown(stdinout_sfd_, SHUT_WR) == 0] *)
Definition shutdown_child : S bool :=
  l ← get shutdowns;
  _ ← modify (λ s, s <| shutdowns ::= tail |>);
  let ok := default true (head l) in
  _ ← (if (ok : bool) then modify (λ s, s <| stdin_shut := true |>) else mret tt);
  mret ok.

(** [ioctl(stdinout_sfd_, TIOCSWINSZ, &ws)]; it fails for a socket *)
Definition set_window (ws : winsize) : S unit :=
  modify (λ s, if bool_decide (type_ s = kPty) then s <| window := Some ws |> else s).

(** What [poll] reports of a descriptor: of the events only those asked for; that
    the other end is gone always, together with [POLLIN] while there are data.
    A negative descriptor is ignored. *)
Definition reported (p : pollfd) (k : flags) (readable unread : bool) : pollfd :=
  p <| revents := if fd p <? 0 then Flags false false false
                  else Flags (f_in (events p) && ((f_in k && readable) || (f_err k && unread)))
                             (f_out (events p) && f_out k) (f_err k) |>.

Inductive poll_return := PollOk | PollEintr | PollFailed.

(** [adb_poll(pfds, 3, -1)] *)
Definition adb_poll : S poll_return := λ s,
  let ready a b c :=
    s <| polls ::= tail |>
      <| pfds ::= λ p,
           Pfds (reported (stdinout_pfd p) a true (has_data (child_out s)))
                (reported (stderr_pfd p) b true (has_data (child_err s)))
                (reported (protocol_pfd p) c (negb (bool_decide (client_in s = []))) (has_data (client_in s))) |> in
  let all := Flags true true false in
  match polls s with
  | [] => Ret (PollOk, ready all all all)
  | PollIntr :: _ => Ret (PollEintr, s <| polls ::= tail |>)
  | PollError :: _ => Ret (PollFailed, s <| polls ::= tail |>)
  | Ready a b c :: _ => Ret (PollOk, ready a b c)
  end.

(** [input_->Read()] *)
Definition input_read : S bool := λ s,
  '(ok, p, i) ← Read (input_ s) (client_in s);
  Ret (ok, s <| input_ := p |> <| client_in := i |>).

(** [output_->Write(id, length)] *)
Definition output_write (i : Id) (length : Z) : S bool := λ s,
  '(ok, p, o) ← Write (output_ s) (client_out s) i length;
  Ret (ok, s <| output_ := p |> <| client_out := o |>).

Definition output_fill (bs : bytes) : S unit := λ s,
  p ← fill (output_ s) bs; Ret (tt, s <| output_ := p |>).

(** [sscanf(s, "%dx%d,%dx%d", ...) == 4] *)
Definition scan_d (s : bytes) : option (Z * bytes) :=
  let r := strtoll s 10 in if st_conv r then Some (s32 (st_val r), st_rest r) else None.
Definition scan_char (c : byte) (s : bytes) : option bytes :=
  match s with b :: s => if bool_decide (b = c) then Some s else None | [] => None end.
Definition sscanf_winsize (s : bytes) : option (Z * Z * Z * Z) :=
  '(rows, s) ← scan_d s;
  s ← scan_char (Zbyte 120) s;
  '(cols, s) ← scan_d s;
  s ← scan_char (Zbyte 44) s;
  '(x_pixels, s) ← scan_d s;
  s ← scan_char (Zbyte 120) s;
  '(y_pixels, _) ← scan_d s;
  Some (rows, cols, x_pixels, y_pixels).

Definition u16 (z : Z) : Z := z mod 2 ^ 16.

(** ** Passing data *)

(** The packet just read, other than data for the standard input: whether the
    function returns, and with what. *)
Definition handle_packet_id : S (option (option sfd)) :=
  i ← get (λ s, ShellProtocol.id (input_ s)); i ← lift i;
  if bool_decide (i = Id_byte kIdWindowSizeChange) then
    text ← get (λ s, c_str_of_buffer (zdrop kHeaderSize (buffer_ (input_ s)))); text ← lift text;
    _ ← match sscanf_winsize text with
        | Some (rows, cols, x_pixels, y_pixels) =>
            set_window (Winsize (u16 rows) (u16 cols) (u16 x_pixels) (u16 y_pixels))
        | None => mret tt
        end;
    mret None
  else if bool_decide (i = Id_byte kIdStdin) then
    _ ← modify (λ s, s <| input_bytes_left_ := data_length_ (input_ s) |>);
    mret None
  else if bool_decide (i = Id_byte kIdCloseStdin) then
    t ← get type_;
    if bool_decide (t = kRaw) then
      ok ← shutdown_child;
      mret (Some (if (ok : bool) then None else Some stdinout_sfd))
    else mret None
  else mret None.

(** Continues to write the current packet. *)
Definition write_input : S (option sfd) :=
  n ← get input_bytes_left_;
  if 0 <? n then
    p ← get (λ s, let index := data_length_ (input_ s) - n in
                  ztake n (zdrop (kHeaderSize + index) (buffer_ (input_ s))));
    r ← write_child p;
    match r with
    | WriteError EAGAIN => mret None
    | WriteError _ | Wrote 0 =>
        _ ← modify (λ s, s <| input_bytes_left_ := 0 |>);
        mret (Some stdinout_sfd)
    | Wrote bytes =>
        _ ← modify (λ s, s <| input_bytes_left_ := n - bytes |>);
        mret None
    end
  else mret None.

Definition PassInput : S (option sfd) :=
  n ← get input_bytes_left_;
  if n =? 0 then
    ok ← input_read;
    if negb ok then mret (Some protocol_sfd)
    else
      fd ← get stdinout_sfd_;
      r ← (if negb (fd =? -1) then handle_packet_id else mret None);
      match r with
      | Some returned => mret returned
      | None => write_input
      end
  else write_input.

Definition PassOutput (d : sfd) (i : Id) : S (option sfd) :=
  cap ← get (λ s, data_capacity (output_ s));
  r ← read_child d cap;
  match r with
  | ReadBytes [] => mret (Some d)
  | ReadError EAGAIN => mret None
  | ReadError _ => mret (Some d)
  | ReadBytes bs =>
      _ ← output_fill bs;
      ok ← output_write i (zlen bs);
      mret (if (ok : bool) then None else Some protocol_sfd)
  end.

(** ** The loop *)

Definition poll_finished (r : flags) : bool := negb (f_in r) && f_err r.

(** What follows a successful [poll] in the loop of [PollLoop]. *)
Definition poll_turn : S (option sfd) :=
  p ← get (λ s, stdinout_pfd (pfds s));
  dead ← (if negb (fd p =? -1) && f_in (revents p) then PassOutput stdinout_sfd kIdStdout else mret None);
  p ← get (λ s, stderr_pfd (pfds s));
  dead ← (if bool_decide (dead = None) && negb (fd p =? 1) && f_in (revents p)
          then PassOutput stderr_sfd kIdStderr else mret dead);
  p ← get (λ s, protocol_pfd (pfds s));
  dead ← (if bool_decide (dead = None) && negb (fd p =? -1) && f_in (revents p) then
            dead ← PassInput;
            n ← get input_bytes_left_;
            _ ← (if negb (n =? 0) then
                   modify (λ s, s <| pfds ::= λ p,
                     p <| protocol_pfd ::= λ q, q <| events ::= λ e, e <| f_in := false |> |> |>
                       <| stdinout_pfd ::= λ q, q <| events ::= λ e, e <| f_out := true |> |> |> |>)
                 else mret tt);
            mret dead
          else mret dead);
  p ← get (λ s, stdinout_pfd (pfds s));
  dead ← (if bool_decide (dead = None) && negb (fd p =? -1) && f_out (revents p) then
            dead ← PassInput;
            n ← get input_bytes_left_;
            _ ← (if n =? 0 then
                   modify (λ s, s <| pfds ::= λ p,
                     p <| protocol_pfd ::= λ q, q <| events ::= λ e, e <| f_in := true |> |> |>
                       <| stdinout_pfd ::= λ q, q <| events ::= λ e, e <| f_out := false |> |> |> |>)
                 else mret tt);
            mret dead
          else mret dead);
  p ← get pfds;
  mret (if poll_finished (revents (stdinout_pfd p)) then Some stdinout_sfd
        else if poll_finished (revents (stderr_pfd p)) then Some stderr_sfd
        else if poll_finished (revents (protocol_pfd p)) then Some protocol_sfd
        else dead).

Fixpoint PollLoop_ (fuel : nat) : S (option sfd) :=
  match fuel with
  | O => lift OutOfFuel
  | Datatypes.S fuel =>
      r ← adb_poll;
      match r with
      | PollEintr => PollLoop_ fuel
      | PollFailed =>
          _ ← modify (λ s, s <| stdinout_sfd_ := -1 |> <| stderr_sfd_ := -1 |>);
          mret None
      | PollOk =>
          dead ← poll_turn;
          match dead with
          | None => PollLoop_ fuel
          | Some _ => mret dead
          end
      end
  end.

(** The reads that a script can take. *)
Fixpoint stream_size (i : instream) : nat :=
  match i with
  | [] => 0
  | Data bs :: i => 1 + length bs + stream_size i
  | Fault _ :: i => 1 + stream_size i
  end.

(** Every turn uses up a scripted result of [poll] or reads from the
    subprocess. *)
Definition PollLoop : S (option sfd) :=
  fuel ← get (λ s, 1 + length (polls s) + stream_size (child_out s) + stream_size (child_err s))%nat;
  PollLoop_ fuel.

(** [std::find_if(pfds.begin(), pfds.end(), ...)], [it->fd = -1], [it->events = 0] *)
Definition clear_pfd (n : Z) : S unit :=
  let clear q := Pollfd (-1) (Flags false false false) (revents q) in
  p ← get pfds;
  if fd (stdinout_pfd p) =? n then modify (λ s, s <| pfds ::= λ p, p <| stdinout_pfd ::= clear |> |>)
  else if fd (stderr_pfd p) =? n then modify (λ s, s <| pfds ::= λ p, p <| stderr_pfd ::= clear |> |>)
  else if fd (protocol_pfd p) =? n then modify (λ s, s <| pfds ::= λ p, p <| protocol_pfd ::= clear |> |>)
  else lift Abort.

Definition close_dead (d : sfd) : S unit :=
  n ← get (get_sfd d);
  _ ← clear_pfd n;
  _ ← (if bool_decide (d = protocol_sfd) then
         modify (λ s, (if pid_ s =? -1 then s else s <| hangups ::= λ l, l ++ [pid_ s] |>)
                        <| stdinout_sfd_ := -1 |> <| stderr_sfd_ := -1 |>)
       else mret tt);
  modify (reset_sfd d).

Fixpoint pass_loop (fuel : nat) : S unit :=
  s ← get (λ s, s);
  if negb (protocol_sfd_ s =? -1) && (negb (stdinout_sfd_ s =? -1) || negb (stderr_sfd_ s =? -1)) then
    match fuel with
    | O => lift OutOfFuel
    | Datatypes.S fuel =>
        dead ← PollLoop;
        _ ← match dead with Some d => close_dead d | None => mret tt end;
        pass_loop fuel
    end
  else mret tt.

(** Every turn closes a descriptor. *)
Definition PassDataStreams : S unit :=
  n ← get protocol_sfd_;
  if n =? -1 then mret tt
  else
    let pollin n := Pollfd n (Flags true false false) (Flags false false false) in
    _ ← modify (λ s, s <| pfds := Pfds (pollin (stdinout_sfd_ s)) (pollin (stderr_sfd_ s)) (pollin (protocol_sfd_ s)) |>);
    pass_loop 3.

(** The loop of [WaitForExit]: the exit code. *)
Fixpoint wait_loop (ws : list wait_result) : outcome Z :=
  match ws with
  | [] => OutOfFuel
  | WaitError :: ws => wait_loop ws
  | Signaled sig :: _ => Ret (Z.lor 0x80 sig)
  | NotExited :: _ => Ret 1
  | Exited status :: _ => Ret status
  end.

Definition WaitForExit : S unit :=
  s ← get (λ s, s);
  exit_code ← lift (if pid_ s =? -1 then Ret 1 else wait_loop (waits s));
  n ← get protocol_sfd_;
  if negb (n =? -1) then
    _ ← output_fill [Zbyte exit_code];
    _ ← output_write kIdExit 1;
    modify (λ s, s <| protocol_sfd_ := -1 |>)
  else mret tt.

(** The thread, and the destructor at its end. *)
Definition ThreadHandler : S unit := _ ← PassDataStreams; WaitForExit.

(** ** Starting a subprocess *)

(** The descriptor that the client is connected to, and what the thread gets:
    [None] without the protocol, when it has nothing to do.  [pair] is
    what [socketpair] gives, [unblock] whether a descriptor can be made
    non-blocking. *)
Definition ConnectProtocolEndpoints (strerror : bytes) (protocol : SubprocessProtocol) (stdinout stderr : Z)
    (pair : option (Z * Z)) (unblock : Z → bool) (junk_in junk_out : bytes)
  : outcome (bytes + Z * option (Z * t * t)) :=
  match protocol with
  | kNone => Ret (inr (stdinout, None))
  | kShell =>
      match pair with
      | None => Ret (inl (str "failed to create socketpair to intercept data: " ++ strerror))
      | Some (fd1, fd2) =>
          input ← init junk_in;
          output ← init junk_out;
          let failed := filter (λ fd, 0 ≤ fd ∧ unblock fd = false) [stdinout; stderr] in
          Ret (match failed with
               | fd :: _ => inl (str "failed to set non-blocking mode for fd " ++ print_d fd)
               | [] => inr (fd2, Some (fd1, input, output))
               end)
      end
  end.

(** What [StartSubprocess] is asked to run. *)
Record launch := Launch {
  command : bytes; terminal_type : bytes; type : SubprocessType; protocol : SubprocessProtocol;
  make_pty_raw : bool
}.

Definition StartSubprocess (name : bytes) (terminal_type : bytes) (type : SubprocessType)
    (protocol : SubprocessProtocol) : launch :=
  if bool_decide (protocol = kNone) && bool_decide (type = kRaw)
  then Launch name terminal_type kPty protocol true
  else Launch name terminal_type type protocol false.

Definition shell_arg (l : SubprocessType * SubprocessProtocol * bytes) (arg : bytes)
  : SubprocessType * SubprocessProtocol * bytes :=
  let '(type, protocol, terminal_type) := l in
  if bool_decide (arg = str "raw") then (kRaw, protocol, terminal_type)
  else if bool_decide (arg = str "pty") then (kPty, protocol, terminal_type)
  else if bool_decide (arg = str "v2") then (type, kShell, terminal_type)
  else if starts_with arg (str "TERM=") then (type, protocol, drop 5 arg)
  else l.

(** [ShellService], after ["shell"] has been removed. *)
Definition ShellService (args : bytes) : outcome (option launch) :=
  match find_char args (Zbyte 58) 0 with
  | None => Ret None
  | Some delimiter_index =>
      let service_args := take delimiter_index args in
      let command := drop (delimiter_index + 1) args in
      args ← Split service_args (str ",");
      let '(type, protocol, terminal_type) :=
        fold_left shell_arg args (if bool_decide (command = []) then kPty else kRaw, kNone, str "dumb") in
      Ret (Some (StartSubprocess command (c_str terminal_type) type protocol))
  end.

(** The arguments of the program the child becomes. *)
Definition exec_argv (l : launch) : list bytes :=
  if bool_decide (command l = []) then [str "-/system/bin/sh"]
  else [str "/system/bin/sh"; str "-c"; c_str (command l)].

(** The contents of the pipe that reports an error. *)
Definition ReportError (protocol : SubprocessProtocol) (message : bytes) : bytes :=
  let buf := str "error: " ++ c_str message ++ [Zbyte 10] in
  match protocol with
  | kNone => buf
  | kShell => [Id_byte kIdStderr] ++ le32 (u32 (zlen buf)) ++ buf ++
              [Id_byte kIdExit] ++ le32 1 ++ [Zbyte 126]
  end.
End SVC.
