(* ===== verification/ShellClient.v ===== *)
(** * The shell on the client: [adb/client/commandline.cpp], [commandline.h]

    [adb shell] asks the device for a shell ([adb_shell], [RemoteShell]); then one
    thread passes what is typed to the connection ([stdin_read_thread_loop]) and
    another one prints what arrives and takes over the exit code
    ([read_and_dump]).  [adb sideload] serves the blocks of a package
    ([adb_sideload_install]).

    The terminal is a script: what can be read from the standard input, and the
    sizes of the window.  Where the script ends nothing more is typed; the end of
    the input is an empty [Typed]. *)

From S2P Require Import Prelude State CString LibBase AdbIO Transport Client ShellService.
Local Open Scope Z_scope.
Local Open Scope record_scope.

Module SCL.
Import ShellProtocol.

(** ** [DefaultStandardStreamsCallback] *)

(** A string, or a [FILE] with the numbers of bytes that [fwrite] writes when
    it does not write all. *)
Inductive sink := ToString (s : bytes) | ToFile (written : bytes) (results : list Z).
Record callback := Callback { stdout_ : sink; stderr_ : sink; returnErrors_ : bool }.

Definition OnStream (k : sink) (buffer : bytes) (returnErrors : bool) : bool * sink :=
  match k with
  | ToString s => (true, ToString (s ++ buffer))
  | ToFile w results =>
      let n := Z.max 0 (Z.min (default (zlen buffer) (head results)) (zlen buffer)) in
      (if returnErrors then n =? zlen buffer else true, ToFile (w ++ ztake n buffer) (tail results))
  end.
Definition OnStdout (cb : callback) (buffer : bytes) : bool * callback :=
  let '(ok, k) := OnStream (stdout_ cb) buffer (returnErrors_ cb) in (ok, Callback k (stderr_ cb) (returnErrors_ cb)).
Definition OnStderr (cb : callback) (buffer : bytes) : bool * callback :=
  let '(ok, k) := OnStream (stderr_ cb) buffer (returnErrors_ cb) in (ok, Callback (stdout_ cb) k (returnErrors_ cb)).
Definition Done (cb : callback) (status : Z) : Z := status.

Definition sink_text (k : sink) : bytes := match k with ToString s => s | ToFile w _ => w end.

(** ** Printing *)

Definition SIGPIPE : Z := 13.
Definition BUFSIZ : Z := 8192.

(** The loop of [read_and_dump_protocol]; the exit code. *)
Fixpoint dump_loop (fuel : nat) (protocol : t) (i : instream) (cb : callback) (exit_code : Z)
  : outcome (Z * callback * instream) :=
  match fuel with
  | O => OutOfFuel
  | S fuel =>
      '(ok, protocol, i) ← Read protocol i;
      if negb ok then Ret (exit_code, cb, i)
      else
        id ← ShellProtocol.id protocol;
        if bool_decide (id = Id_byte kIdStdout) then
          let '(ok, cb) := OnStdout cb (data protocol) in
          if (ok : bool) then dump_loop fuel protocol i cb exit_code else Ret (SIGPIPE + 128, cb, i)
        else if bool_decide (id = Id_byte kIdStderr) then
          let '(ok, cb) := OnStderr cb (data protocol) in
          if (ok : bool) then dump_loop fuel protocol i cb exit_code else Ret (SIGPIPE + 128, cb, i)
        else if bool_decide (id = Id_byte kIdExit) then
          c ← deref (buffer_ protocol !! Z.to_nat kHeaderSize);
          dump_loop fuel protocol i cb (byteZ c)
        else dump_loop fuel protocol i cb exit_code
  end.

(** Every [Read] takes something from the connection. *)
Definition read_and_dump_protocol (junk : bytes) (i : instream) (cb : callback) : outcome (Z * callback * instream) :=
  protocol ← init junk;
  dump_loop (S (SVC.stream_size i)) protocol i cb 255.

Fixpoint raw_loop (fuel : nat) (i : instream) (cb : callback) : outcome (callback * instream) :=
  match fuel with
  | O => OutOfFuel
  | S fuel =>
      match adb_read i BUFSIZ with
      | (ReadError _, i) | (ReadBytes [], i) => Ret (cb, i)
      | (ReadBytes bs, i) =>
          let '(ok, cb) := OnStdout cb bs in
          if (ok : bool) then raw_loop fuel i cb else Ret (cb, i)
      end
  end.

Definition read_and_dump (junk : bytes) (i : instream) (use_shell_protocol : bool) (cb : callback)
  : outcome (Z * callback * instream) :=
  '(exit_code, cb, i) ←
    (if use_shell_protocol then read_and_dump_protocol junk i cb
     else '(cb, i) ← raw_loop (S (SVC.stream_size i)) i cb; Ret (0, cb, i));
  Ret (Done cb exit_code, cb, i).

(** ** Typing *)

Inductive tty_event :=
| Typed (bs : bytes)
| Resized                (* the call is interrupted by [SIGWINCH] *)
| Unreadable.            (* it fails *)

Record StdinReadArgs := StdinArgs {
  stdin_fd : list tty_event;
  windows : list (option SVC.winsize);      (* the results of [ioctl] *)
  write_fd : outstream;
  raw_stdin : bool;
  protocol : option t;
  escape_char : byte
}.
#[global] Instance eta_stdin : Eta StdinReadArgs :=
  rd_pure StdinArgs <%> stdin_fd <%> windows <%> write_fd <%> raw_stdin <%> protocol <%> escape_char.
#[global] Instance upd_stdin_fd : Update stdin_fd. Proof. mk_update. Defined.
#[global] Instance upd_windows : Update windows. Proof. mk_update. Defined.
#[global] Instance upd_write_fd : Update write_fd. Proof. mk_update. Defined.
#[global] Instance upd_protocol : Update protocol. Proof. mk_update. Defined.

Local Abbreviation T := (ST StdinReadArgs).

Definition protocol_fill (bs : bytes) : T unit := λ a,
  match protocol a with
  | None => Ret (tt, a)
  | Some p => p ← fill p bs; Ret (tt, a <| protocol := Some p |>)
  end.

(** [args->protocol->Write(id, length)] *)
Definition protocol_write (i : Id) (length : Z) : T bool := λ a,
  p ← deref (protocol a);
  '(ok, p, o) ← Write p (write_fd a) i length;
  Ret (ok, a <| protocol := Some p |> <| write_fd := o |>).

(** ["%dx%d,%dx%d"] *)
Definition window_text (ws : SVC.winsize) : bytes :=
  print_d (SVC.ws_row ws) ++ str "x" ++ print_d (SVC.ws_col ws) ++ str "," ++
  print_d (SVC.ws_xpixel ws) ++ str "x" ++ print_d (SVC.ws_ypixel ws).

Definition send_window_size_change : T unit :=
  p ← get protocol;
  match p with
  | None => mret tt
  | Some p =>
      w ← get windows;
      _ ← modify (λ a, a <| windows ::= tail |>);
      match w with
      | Some ws :: _ =>
          let text := window_text ws in
          _ ← protocol_fill (ztake (data_capacity p - 1) text ++ [NUL]);
          _ ← protocol_write kIdWindowSizeChange (zlen text + 1);
          mret tt
      | _ => mret tt
      end
  end.

Inductive EscapeState := kMidFlow | kStartOfLine | kInEscape.
Inductive stdin_end :=
| Finished               (* the thread ends *)
| Disconnected           (* [exit(0)] *)
| Blocked.               (* it waits for input *)

Inductive tty_read := TtyBytes (bs : bytes) | TtyIntr | TtyError | TtyWait.

(** [unix_read_interruptible(args->stdin_fd, buffer_ptr, buffer_size)] *)
Definition unix_read (buffer_size : Z) : T tty_read :=
  l ← get stdin_fd;
  match l with
  | [] => mret TtyWait
  | Resized :: l => _ ← modify (λ a, a <| stdin_fd := l |>); mret TtyIntr
  | Unreadable :: l => _ ← modify (λ a, a <| stdin_fd := l |>); mret TtyError
  | Typed bs :: l =>
      _ ← modify (λ a, a <| stdin_fd := if buffer_size <? zlen bs then Typed (zdrop buffer_size bs) :: l else l |>);
      mret (TtyBytes (ztake buffer_size bs))
  end.

(** What the escape sequences make of a character: the state, and what to send;
    [None] ends the program. *)
Definition escape (escape_char : byte) (st : EscapeState) (ch : byte) : option (EscapeState * bytes) :=
  if bool_decide (ch = escape_char) then
    match st with
    | kStartOfLine => Some (kInEscape, [])
    | _ => Some (kMidFlow, [ch])
    end
  else
    let next := if bool_decide (ch = Zbyte 10) || bool_decide (ch = Zbyte 13) then kStartOfLine else kMidFlow in
    match st with
    | kInEscape => if bool_decide (ch = Zbyte 46) then None else Some (next, [escape_char; ch])
    | _ => Some (next, [ch])
    end.

Definition send_stdin (bs : bytes) : T bool :=
  p ← get protocol;
  match p with
  | Some _ => _ ← protocol_fill bs; protocol_write kIdStdin (zlen bs)
  | None => λ a, '(ok, o) ← WriteFdExactly (write_fd a) bs; Ret (ok, a <| write_fd := o |>)
  end.

Fixpoint stdin_loop (fuel : nat) (buffer_size : Z) (escapes : bool) (st : EscapeState) : T stdin_end :=
  match fuel with
  | O => lift OutOfFuel
  | S fuel =>
      r ← unix_read buffer_size;
      match r with
      | TtyWait => mret Blocked
      | TtyIntr => _ ← send_window_size_change; stdin_loop fuel buffer_size escapes st
      | TtyError | TtyBytes [] =>
          p ← get protocol;
          _ ← match p with Some _ => protocol_write kIdCloseStdin 0 | None => mret true end;
          mret Finished
      | TtyBytes (ch :: bs) =>
          _ ← protocol_fill (ch :: bs);
          e ← get escape_char;
          match (if escapes then escape e st ch else Some (st, ch :: bs)) with
          | None => mret Disconnected
          | Some (st, []) => stdin_loop fuel buffer_size escapes st
          | Some (st, bs) =>
              ok ← send_stdin bs;
              if (ok : bool) then stdin_loop fuel buffer_size escapes st else mret Finished
          end
      end
  end.

Fixpoint tty_size (l : list tty_event) : nat :=
  match l with
  | [] => 0
  | Typed bs :: l => 1 + length bs + tty_size l
  | _ :: l => 1 + tty_size l
  end.

(** Every turn reads from the terminal. *)
Definition stdin_read_thread_loop : T stdin_end :=
  _ ← send_window_size_change;
  a ← get (λ a, a);
  let escapes := raw_stdin a && negb (bool_decide (escape_char a = NUL)) in
  let buffer_size := match protocol a with Some p => data_capacity p | None => BUFSIZ end in
  let buffer_size := if escapes then 1 else buffer_size in
  stdin_loop (S (tty_size (stdin_fd a))) buffer_size escapes kStartOfLine.

(** ** The command *)

(** [TERM] is the environment variable. *)
Definition ShellServiceString (TERM : option bytes) (use_shell_protocol : bool) (type_arg command : bytes) : bytes :=
  let args := (if use_shell_protocol then
                 str "v2" :: match TERM with Some terminal_type => [str "TERM=" ++ terminal_type] | None => [] end
               else []) ++ (if bool_decide (type_arg = []) then [] else [type_arg]) in
  str "shell" ++ (if bool_decide (args = []) then [] else str ",") ++ c_str (Join args (Zbyte 44)) ++
  str ":" ++ c_str command.

(** [getopt(argc, argv, "+e:ntTx")]: the options and their arguments up to the first
    one that is wrong, and the arguments that are left. *)
Inductive option_ := OptE (optarg : bytes) | OptN | OptT | OptBigT | OptX | OptBad.

(** The options of one argument, the characters behind its [-]. *)
Fixpoint getopt_word (w : bytes) (argv : list bytes) : list option_ * list bytes :=
  match w with
  | [] => ([], argv)
  | c :: w =>
      let simple o := let '(os, argv) := getopt_word w argv in (o :: os, argv) in
      if bool_decide (c = Zbyte 101) then
        match w, argv with
        | [], [] => ([OptBad], [])
        | [], a :: argv => ([OptE a], argv)
        | _, _ => ([OptE w], argv)
        end
      else if bool_decide (c = Zbyte 110) then simple OptN
      else if bool_decide (c = Zbyte 116) then simple OptT
      else if bool_decide (c = Zbyte 84) then simple OptBigT
      else if bool_decide (c = Zbyte 120) then simple OptX
      else ([OptBad], argv)
  end.

Fixpoint getopt (fuel : nat) (argv : list bytes) : list option_ * list bytes :=
  match fuel, argv with
  | S fuel, (c :: w) :: rest =>
      if negb (bool_decide (c = Zbyte 45)) || bool_decide (w = []) then ([], argv)
      else if bool_decide (w = str "-") then ([], rest)
      else
        let '(os, rest) := getopt_word w rest in
        let '(os', rest) := getopt fuel rest in
        (os ++ os', rest)
  | _, _ => ([], argv)
  end.

Inductive PtyAllocationMode := kPtyAuto | kPtyNo | kPtyYes | kPtyDefinitely.
#[global] Instance PtyAllocationMode_eq_dec : EqDecision PtyAllocationMode.
Proof. solve_decision. Defined.

Record shell_options := Options {
  opt_escape : byte; opt_protocol : bool; opt_tty : PtyAllocationMode; opt_close : bool
}.

(** What ends the program or the command early. *)
Inductive option_error := ErrorExit | Return1.

Definition shell_option (o : shell_options) (opt : option_) : option_error + shell_options :=
  let '(Options e p tty n) := o in
  match opt with
  | OptE optarg =>
      if negb (bool_decide (length optarg = 1%nat) || bool_decide (optarg = str "none")) then inl ErrorExit
      else inr (Options (if bool_decide (optarg = str "none") then NUL else default NUL (head optarg)) p tty n)
  | OptN => inr (Options e p tty true)
  | OptX => inr (Options (Zbyte 126) false kPtyDefinitely n)
  | OptT => inr (Options e p match tty with kPtyYes | kPtyDefinitely => kPtyDefinitely | _ => kPtyYes end n)
  | OptBigT => inr (Options e p kPtyNo n)
  | OptBad => inl Return1
  end.

Fixpoint shell_opts (o : shell_options) (opts : list option_) : option_error + shell_options :=
  match opts with
  | [] => inr o
  | opt :: opts => match shell_option o opt with inl e => inl e | inr o => shell_opts o opts end
  end.

(** How [RemoteShell] is called. *)
Record remote_shell := Remote {
  rs_protocol : bool; rs_type_arg : bytes; rs_escape : byte; rs_empty : bool; rs_service : bytes
}.

(** [adb_shell] up to the call of [RemoteShell]; [argv] without its first element, [shell2]
    whether the device has the feature, [isatty] of the standard input (closing it
    makes it none). *)
Definition adb_shell (TERM : option bytes) (shell2 isatty : bool) (argv : list bytes) : option_error + remote_shell :=
  let '(opts, rest) := getopt (length argv) argv in
  match shell_opts (Options (Zbyte 126) shell2 (if shell2 then kPtyAuto else kPtyDefinitely) false) opts with
  | inl e => inl e
  | inr (Options escape use_shell_protocol tty closed) =>
      let is_interactive := bool_decide (rest = []) in
      let isatty := isatty && negb closed in
      let shell_type_arg :=
        match tty with
        | kPtyNo => str "raw"
        | kPtyAuto => if negb isatty || negb is_interactive then str "raw" else str "pty"
        | kPtyYes => if negb isatty then str "raw" else str "pty"
        | kPtyDefinitely => str "pty"
        end in
      if negb use_shell_protocol && negb (bool_decide (shell_type_arg = str "pty")) then inl Return1
      else
        let shell_type_arg := if use_shell_protocol then shell_type_arg else [] in
        let command := Join rest (Zbyte 32) in
        inr (Remote use_shell_protocol shell_type_arg escape (bool_decide (command = []))
               (ShellServiceString TERM use_shell_protocol shell_type_arg command))
  end.

(** [RemoteShell] up to the start of the threads: an error, or the connection and
    what the thread for the input gets; the other thread runs [read_and_dump]. *)
Definition RemoteShell `{!ClientEnv} (junk : bytes) (stdin : list tty_event) (sizes : list (option SVC.winsize))
    (r : remote_shell) : ST client (bytes + nat * StdinReadArgs) :=
  if (MAX_PAYLOAD_V1 <? zlen (rs_service r)) && negb (rs_protocol r) then
    mret (inl (str "error: shell command too long"))
  else
    let raw_stdin := bool_decide (rs_type_arg r = str "pty") || (bool_decide (rs_type_arg r = []) && rs_empty r) in
    c ← adb_connect (rs_service r) false;
    match c with
    | Refused error | NotRunning error => mret (inl (str "error: " ++ c_str error))
    | Connected fd _ =>
        l ← get sessions;
        '(_, o) ← lift (deref (l !! fd));
        p ← lift (if rs_protocol r then p ← init junk; Ret (Some p) else Ret None);
        mret (inr (fd, StdinArgs stdin sizes o raw_stdin p (rs_escape r)))
    end.
End SCL.
