(* ===== verification/ShellFacts.v ===== *)
(** * The loop of the shell service

    The shell protocol on any input ([SP]); that the loop of [ShellService]
    ends and keeps an invariant of the passing of data, which is an interface
    ([LO.Passing]) with the instances of [SSafe] and [ShellSession.SES]; and that the
    service is safe ([SSafe]): for whatever a client sends and however the
    subprocess, the connection and the system calls behave, the thread of the
    service ends, leaves no descriptor open and does nothing undefined, as long as
    the window sizes it is sent are terminated. *)

From S2P Require Import Prelude State CString CStringFacts AdbIO AdbIOFacts ShellService.
Local Open Scope Z_scope.
Local Open Scope record_scope.

Lemma drained_has_data i : has_data i = false → drained i = [].
Proof. unfold has_data. by intros H%negb_false_iff%bool_decide_eq_true. Qed.

Lemma wp_partial_and {S A} (m : ST S A) (P Q : A → S → Prop) s :
  wp m Q s → partial m P s → wp m (λ a s', P a s' ∧ Q a s') s.
Proof. unfold wp, partial. destruct (m s) as [[a s']| | |]; [|done..]. done. Qed.

(** ** Packets *)
Module SP.
Import ShellProtocol.

(** A buffer for [cap] bytes of data; the text of a window size fits. *)
Definition sane (cap : Z) (p : t) : Prop :=
  zlen (buffer_ p) = cap + 5 ∧ 24 ≤ cap < 2 ^ 31 ∧ 0 ≤ bytes_left_ p < 2 ^ 32 ∧ 0 ≤ data_length_ p ≤ cap.

Lemma sane_wf cap p : sane cap p → Shell.wf p.
Proof. unfold sane, Shell.wf, kHeaderSize. lia. Qed.

Lemma sane_capacity cap p : sane cap p → data_capacity p = cap.
Proof. intros H. rewrite Shell.data_capacity_wf by by eapply sane_wf. unfold sane in H. lia. Qed.

Lemma memcpy_ok b off src :
  0 ≤ off → off + zlen src ≤ zlen b → ∃ b', memcpy b off src = Ret b' ∧ zlen b' = zlen b.
Proof.
  intros H1 H2. rewrite memcpy_fit by done. eexists. split; [done|].
  rewrite !length_app, !Nat2Z.inj_add, zlen_ztake, zlen_zdrop by lia. lia.
Qed.

Lemma init_sane cap junk :
  zlen junk = cap + 5 → 24 ≤ cap < 2 ^ 31 → ∃ p, init junk = Ret p ∧ sane cap p ∧ bytes_left_ p = 0.
Proof.
  intros Hj Hc. unfold init. destruct (memcpy_ok junk 0 [Id_byte kIdInvalid]) as (b & -> & Hb); [lia|simpl; lia|].
  eexists. split; [done|]. unfold sane. cbn [buffer_ bytes_left_ data_length_]. lia.
Qed.

Lemma read_header_total cap p i :
  sane cap p → ∃ ok p' i', read_header p i = Ret (ok, p', i') ∧ sane cap p' ∧
    (bytes_left_ p = 0 → zlen (stream_data i) < 5 → ok = false).
Proof.
  intros Hs. unfold read_header. destruct (Z.eqb_spec (bytes_left_ p) 0) as [E|E]; cycle 1.
  { do 3 eexists. split_and!; [done..|]. intros. lia. }
  destruct (read_exactly_spec i kHeaderSize) as (i' & -> & _); [done|]. mstep. unfold sane in Hs.
  assert (zlen (ztake kHeaderSize (stream_data i)) ≤ 5).
  { unfold ztake, kHeaderSize. rewrite length_take. lia. }
  destruct (memcpy_ok (buffer_ p) 0 (ztake kHeaderSize (stream_data i))) as (b & -> & Hb); [lia..|]. mstep.
  destruct (Z.leb_spec kHeaderSize (zlen (stream_data i))) as [Hl|Hl]; mstep; cycle 1.
  { do 3 eexists. split_and!; [done| |done]. unfold sane. cbn [buffer_ bytes_left_ data_length_]. lia. }
  destruct b as [|? [|b0 [|b1 [|b2 [|b3 r]]]]]; try (simpl in Hb; lia).
  change (le32_dec (ztake 4 (zdrop 1 (_ :: b0 :: b1 :: b2 :: b3 :: r)))) with (Some (le32_val b0 b1 b2 b3)). mstep.
  do 3 eexists. split_and!; [done| |unfold kHeaderSize in *; lia].
  pose proof (le32_val_bound b0 b1 b2 b3). unfold sane. cbn [buffer_ bytes_left_ data_length_]. lia.
Qed.

Lemma read_data_total cap p i :
  sane cap p → ∃ ok p' i', read_data p i = Ret (ok, p', i') ∧ sane cap p' ∧
    (zlen (stream_data i) < Z.min (bytes_left_ p) cap → ok = false).
Proof.
  intros Hs. pose proof (sane_capacity _ _ Hs) as Hc. unfold read_data. rewrite Hc. unfold sane in Hs.
  set (n := Z.min (bytes_left_ p) cap). destruct (Z.eqb_spec n 0) as [E|E]; mstep.
  { do 3 eexists. split_and!; [done| |lia]. rewrite u64_small by lia. unfold sane. cbn [buffer_ bytes_left_ data_length_]. lia. }
  destruct (read_exactly_spec i n) as (i' & -> & _); [lia|]. mstep.
  assert (zlen (ztake n (stream_data i)) ≤ n) by (unfold ztake; rewrite length_take; lia).
  destruct (memcpy_ok (buffer_ p) kHeaderSize (ztake n (stream_data i))) as (b & -> & Hb); [done|unfold kHeaderSize; lia|]. mstep.
  destruct (Z.leb_spec n (zlen (stream_data i))); mstep; do 3 eexists; (split_and!; [done| |by try lia]);
    unfold sane; cbn [buffer_ bytes_left_ data_length_]; rewrite ?u64_small by lia; lia.
Qed.

Lemma Read_total cap p i :
  sane cap p → ∃ ok p' i', Read p i = Ret (ok, p', i') ∧ sane cap p'.
Proof.
  intros Hs. unfold Read. destruct (read_header_total cap p i Hs) as ([|] & p1 & i1 & -> & H1 & _); mstep; [|by eauto].
  destruct (read_data_total cap p1 i1 H1) as (ok & p2 & i2 & -> & H2 & _). eauto.
Qed.

Lemma fill_total cap p bs :
  sane cap p → zlen bs ≤ cap → ∃ p', fill p bs = Ret p' ∧ sane cap p' ∧ bytes_left_ p' = bytes_left_ p.
Proof.
  intros Hs Hl. unfold fill. unfold sane in Hs.
  destruct (memcpy_ok (buffer_ p) kHeaderSize bs) as (b & -> & Hb); [done|unfold kHeaderSize; lia|]. mstep.
  eexists. split_and!; [done| |done]. unfold sane. cbn [buffer_ bytes_left_ data_length_]. lia.
Qed.

Lemma Write_total cap p o id n :
  sane cap p → 0 ≤ n ≤ cap →
  ∃ ok p' o', Write p o id n = Ret (ok, p', o') ∧ sane cap p' ∧ (accepts o → ok = true ∧ accepts o').
Proof.
  intros Hs Hn. unfold Write. unfold sane in Hs.
  destruct (memcpy_ok (buffer_ p) 0 [Id_byte id]) as (b & -> & Hb); [done|simpl; lia|]. mstep.
  destruct (memcpy_ok b 1 (le32 (u32 n))) as (b' & -> & Hb'); [done|rewrite length_le32; lia|]. mstep.
  unfold kHeaderSize. zbool.
  destruct (write_exactly_spec o (ztake (5 + n) b')) as (ok & o' & sent & E & _). rewrite E. mstep.
  do 3 eexists. split_and!; [done| |].
  - unfold sane. cbn [buffer_ bytes_left_ data_length_]. lia.
  - intros Ho. destruct (write_accepts o (ztake (5 + n) b') Ho) as (o1 & E1 & _ & H1). rewrite E in E1. by injection E1 as -> ->.
Qed.

(** Sending [bs]. *)
Lemma send_frame cap p o id bs :
  sane cap p → zlen bs ≤ cap → accepts o →
  ∃ p0 p1 o', fill p bs = Ret p0 ∧ Write p0 o id (zlen bs) = Ret (true, p1, o') ∧
    sane cap p1 ∧ bytes_left_ p1 = bytes_left_ p0 ∧ accepts o' ∧ o_written o' = o_written o ++ Shell.frame (Id_byte id) bs.
Proof.
  intros Hs Hl Ho. destruct (Shell.Write_frame p id bs o) as (p0 & p1 & o' & Ef & Ew & Hw).
  { by eapply sane_wf. } { by rewrite (sane_capacity cap). } { unfold sane in Hs. lia. } { done. }
  destruct (fill_total cap p bs Hs Hl) as (p0' & Ef' & H0 & _). rewrite Ef in Ef'. injection Ef' as <-.
  destruct (Write_total cap p0 o id (zlen bs) H0) as (ok & p1' & o1 & Ew' & H1 & Ha); [lia|].
  rewrite Ew in Ew'. injection Ew' as <- <- <-. destruct (Ha Ho) as [_ Ha']. exists p0, p1, o'. split_and!; try done.
  unfold Write in Ew. apply bind_ret_inv in Ew as (b & _ & Ew). apply bind_ret_inv in Ew as (b' & _ & Ew).
  destruct (_ <? _); [done|]. apply bind_ret_inv in Ew as ([ok' o2] & _ & Ew). by injection Ew as _ <- _.
Qed.
End SP.

(** ** What passing data leaves alone *)
Module LP.
Import ShellProtocol SVC.

Definition keeps (s s' : service) : Prop :=
  type_ s' = type_ s ∧ pid_ s' = pid_ s ∧ (∀ d, get_sfd d s' = get_sfd d s) ∧ pfds s' = pfds s ∧
  polls s' = polls s ∧ waits s' = waits s ∧ hangups s' = hangups s.

(** The reads there can still be. *)
Definition work (s : service) : nat := (stream_size (child_out s) + stream_size (child_err s))%nat.

Lemma keeps_refl s : keeps s s.
Proof. done. Qed.
Lemma service_keeps_trans s1 s2 s3 : keeps s1 s2 → keeps s2 s3 → keeps s1 s3.
Proof.
  intros (? & ? & Hd & ? & ? & ? & ?) (? & ? & Hd' & ? & ? & ? & ?).
  split_and!; congruence.
Qed.

Ltac keeps_done := split_and!; try done; intros []; done.

Lemma adb_read_less i n r i' :
  0 < n → adb_read i n = (r, i') →
  (stream_size i' ≤ stream_size i)%nat ∧ (i ≠ [] → (stream_size i' < stream_size i)%nat) ∧
  (∀ b bs, r = ReadBytes (b :: bs) → i ≠ []).
Proof.
  intros Hn. destruct i as [|[bs|e] i]; simpl; intros [= <- <-]; [done| |split_and!; [lia|lia|done]].
  destruct (Z.ltb_spec (Z.min n MAX_RW_COUNT) (zlen bs)).
  - simpl. unfold zdrop. rewrite length_drop. unfold MAX_RW_COUNT in *. split_and!; [lia|lia|done].
  - split_and!; [lia|lia|done].
Qed.

(** What [PassOutput] does when it returns. *)
Definition output_effect (s : service) (d : sfd) (r : option sfd) (s' : service) : Prop :=
  keeps s s' ∧ input_bytes_left_ s' = input_bytes_left_ s ∧ client_in s' = client_in s ∧
  (work s' ≤ work s)%nat ∧ (r = None → (work s' < work s)%nat).

Lemma read_child_effect d n s :
  0 < n → partial (read_child d n) (λ r s',
    output_effect s d (Some d) s' ∧ output_ s' = output_ s ∧ (∀ b bs, r = ReadBytes (b :: bs) → (work s' < work s)%nat) ∧
    (∀ e, r = ReadError e → get_sfd d s ≠ -1 → (work s' < work s)%nat)) s.
Proof.
  intros Hn. unfold partial, read_child. destruct (Z.eqb_spec (get_sfd d s) (-1)) as [E|E].
  { split_and!; try done; keeps_done. }
  destruct d; [| |done].
  - destruct (adb_read (child_out s) n) as [r i] eqn:Er. destruct (adb_read_less _ _ _ _ Hn Er) as (Hle & Hlt & Hb).
    unfold output_effect, work. cbn. split_and!; try done; [lia| |].
    + intros b bs ->. specialize (Hlt (Hb _ _ eq_refl)). lia.
    + intros e -> _. destruct (child_out s) as [|[]]; [done|done|]. specialize (Hlt ltac:(done)). lia.
  - destruct (adb_read (child_err s) n) as [r i] eqn:Er. destruct (adb_read_less _ _ _ _ Hn Er) as (Hle & Hlt & Hb).
    unfold output_effect, work. cbn. split_and!; try done; [lia| |].
    + intros b bs ->. specialize (Hlt (Hb _ _ eq_refl)). lia.
    + intros e -> _. destruct (child_err s) as [|[]]; [done|done|]. specialize (Hlt ltac:(done)). lia.
Qed.

Lemma PassOutput_effect d i s :
  0 < data_capacity (output_ s) → get_sfd d s ≠ -1 → partial (PassOutput d i) (λ r s', output_effect s d r s') s.
Proof.
  intros Hc Hd. unfold PassOutput. pt_go. eapply partial_mono; [by apply read_child_effect|].
  intros r s1 ((K & L & C & W & _) & Ho & Hb & He).
  destruct r as [[|b bs]|[]].
  - pt_go. by split_and!.
  - pt_go. unfold partial at 1, output_fill. destruct (fill _ _) as [p| | |]; try done. mstep. cbv beta iota.
    pt_go. unfold partial at 1, output_write. destruct (Write _ _ _ _) as [[[ok p'] o']| | |]; try done. mstep.
    specialize (Hb _ _ eq_refl). unfold output_effect, work in *. cbn. split_and!; try done; try (destruct ok; intros; lia).
  - pt_go. specialize (He _ eq_refl Hd). split_and!; try done.
  - pt_go. by split_and!.
  - pt_go. by split_and!.
Qed.

Definition input_effect (s s' : service) : Prop :=
  keeps s s' ∧ child_out s' = child_out s ∧ child_err s' = child_err s ∧ output_ s' = output_ s ∧ client_out s' = client_out s.

Lemma input_effect_trans s1 s2 s3 : input_effect s1 s2 → input_effect s2 s3 → input_effect s1 s3.
Proof. intros (? & ? & ? & ? & ?) (? & ? & ? & ? & ?). split_and!; try congruence. by eapply service_keeps_trans. Qed.

Lemma write_input_effect s : partial write_input (λ _ s', input_effect s s') s.
Proof.
  unfold write_input. pt_go. destruct (0 <? _); [|pt_go; done]. pt_go.
  apply (partial_mono _ (λ _ s', input_effect s s')).
  - unfold partial, write_child. destruct (_ =? _); [done|]. destruct (stdin_shut s); [done|].
    destruct (adb_write _ _). split_and!; try done; keeps_done.
  - intros [[]|[]] s1 H; pt_go; try done; (eapply input_effect_trans; [exact H|]; split_and!; try done; keeps_done).
Qed.

Lemma handle_packet_effect s : partial handle_packet_id (λ _ s', input_effect s s') s.
Proof.
  unfold handle_packet_id. pt_go. apply partial_lift. intros i _.
  case_bool_decide; [|case_bool_decide; [|case_bool_decide]].
  - pt_go. apply partial_lift. intros text _. destruct (sscanf_winsize text) as [[[[]]]|]; pt_go; [|done].
    unfold set_window. pt_go. case_bool_decide; split_and!; try done; keeps_done.
  - pt_go. split_and!; try done; keeps_done.
  - pt_go. case_bool_decide; pt_go; [|done]. unfold shutdown_child. pt_go.
    destruct (default true (head (shutdowns s))); pt_go; split_and!; try done; keeps_done.
  - pt_go. done.
Qed.

Lemma PassInput_effect s : partial PassInput (λ _ s', input_effect s s') s.
Proof.
  unfold PassInput. pt_go. destruct (_ =? 0); [|apply write_input_effect]. pt_go.
  apply (partial_mono _ (λ _ s', input_effect s s')).
  { unfold partial, input_read. destruct (Read _ _) as [[[ok p] i]| | |]; done. }
  intros [|] s1 H1; cbn [negb]; pt_go; [|done].
  apply (partial_mono _ (λ _ s', input_effect s s')).
  - destruct (negb _); [|by pt_go]. eapply partial_mono; [apply handle_packet_effect|].
    intros a s2 H2. by eapply input_effect_trans.
  - intros [r|] s2 H2; [by pt_go|]. eapply partial_mono; [apply write_input_effect|].
    intros a s3 H3. by eapply input_effect_trans.
Qed.
End LP.

(** ** The loop, for any invariant that passing data keeps *)
Module LO.
Import ShellProtocol SVC LP.

Definition pfd_of (d : sfd) (p : SubprocessPollfds) : pollfd :=
  match d with stdinout_sfd => stdinout_pfd p | stderr_sfd => stderr_pfd p | protocol_sfd => protocol_pfd p end.

(** [pfds] agrees with the descriptors: it waits for output as long as there can be
    some, for a packet only when the last one has been written, and until it
    can write only when it has not.  The number 1 is the daemon's own standard output. *)
Record polling (s : service) : Prop := {
  po_fd : ∀ d, fd (pfd_of d (pfds s)) = get_sfd d s ∧ -1 ≤ get_sfd d s;
  po_distinct : ∀ d d', get_sfd d s ≠ -1 → get_sfd d s = get_sfd d' s → d = d';
  po_not_1 : get_sfd stderr_sfd s ≠ 1;
  po_in : ∀ d, d ≠ protocol_sfd → get_sfd d s ≠ -1 → f_in (events (pfd_of d (pfds s))) = true;
  po_packet : f_in (events (protocol_pfd (pfds s))) = true → input_bytes_left_ s = 0;
  po_write : f_out (events (stdinout_pfd (pfds s))) = true → input_bytes_left_ s ≠ 0
}.

(** What a [poll] has reported. *)
Record polled (s : service) : Prop := {
  pd_in : ∀ d, f_in (revents (pfd_of d (pfds s))) = true →
    get_sfd d s ≠ -1 ∧ f_in (events (pfd_of d (pfds s))) = true;
  pd_out : ∀ d, f_out (revents (pfd_of d (pfds s))) = true →
    get_sfd d s ≠ -1 ∧ f_out (events (pfd_of d (pfds s))) = true;
  pd_client : f_in (revents (protocol_pfd (pfds s))) = true → client_in s ≠ [];
  pd_err : ∀ d, f_err (revents (pfd_of d (pfds s))) = true → get_sfd d s ≠ -1
}.

Definition finished (s : service) (d : sfd) : Prop :=
  poll_finished (revents (pfd_of d (pfds s))) = true.

(** The state after [dead_sfd] has been closed, [pfds] apart. *)
Definition closed (d : sfd) (s : service) : service :=
  reset_sfd d (if bool_decide (d = protocol_sfd) then
                 (if pid_ s =? -1 then s else s <| hangups ::= λ l, l ++ [pid_ s] |>)
                   <| stdinout_sfd_ := -1 |> <| stderr_sfd_ := -1 |>
               else s).

(** [I] is kept, and a descriptor [d] is given up only in a state with [J s d]. *)
Class Passing (I : service → Prop) (J : service → sfd → Prop) : Prop := {
  pass_sane s : I s → 0 < data_capacity (output_ s);
  pass_open s d : J s d → get_sfd d s ≠ -1;
  pass_pfds s p : I s → I (s <| pfds := p |>);
  pass_J_pfds s p d : J s d → J (s <| pfds := p |>) d;
  pass_output s d i :
    I s → (d, i) = (stdinout_sfd, kIdStdout) ∨ (d, i) = (stderr_sfd, kIdStderr) → get_sfd d s ≠ -1 →
    get_sfd protocol_sfd s ≠ -1 →
    wp (PassOutput d i) (λ r s', I s' ∧ (∀ d', r = Some d' → J s' d') ∧ (∀ d', d' ≠ d → J s d' → J s' d')) s;
  pass_input s :
    I s → (input_bytes_left_ s = 0 ∧ client_in s ≠ []) ∨ (input_bytes_left_ s ≠ 0 ∧ get_sfd stdinout_sfd s ≠ -1) →
    get_sfd protocol_sfd s ≠ -1 →
    wp PassInput (λ r s', I s' ∧ (∀ d', r = Some d' → J s' d') ∧ (∀ d', J s d' → J s' d')) s;
  pass_poll s :
    I s → polling s →
    wp adb_poll (λ r s', I s' ∧ (r = PollFailed → I (s' <| stdinout_sfd_ := -1 |> <| stderr_sfd_ := -1 |>)) ∧
      (r = PollOk → ∀ d, get_sfd d s' ≠ -1 → finished s' d → J s' d)) s;
  pass_close s d : I s → J s d → I (closed d s)
}.

Lemma polling_keeps s s' :
  polling s → keeps s s' → input_bytes_left_ s' = input_bytes_left_ s → polling s'.
Proof.
  intros [] (? & ? & Hd & Hp & ? & ? & ?) Hl. constructor; rewrite ?Hp, ?Hl; try done; intros *; rewrite ?Hd; eauto.
Qed.

Lemma adb_poll_effect s r s' :
  polling s → adb_poll s = Ret (r, s') →
  polling s' ∧ polls s' = tail (polls s) ∧ work s' = work s ∧ (r = PollOk → polled s') ∧
  (r ≠ PollOk → polls s ≠ []) ∧ (r = PollFailed → PollError ∈ polls s) ∧ (∀ d, get_sfd d s' = get_sfd d s) ∧ waits s' = waits s ∧ pid_ s' = pid_ s ∧
  (r = PollOk → polls s = [] → ∀ d, d ≠ protocol_sfd → get_sfd d s' ≠ -1 → f_in (revents (pfd_of d (pfds s'))) = true).
Proof.
  intros [Hfd Hdist H1 Hin Hpk Hwr] E. unfold adb_poll in E.
  assert (∀ d, (fd (pfd_of d (pfds s)) <? 0) = false → get_sfd d s ≠ -1) as Hopen.
  { intros d. destruct (Hfd d) as [-> ?]. intros ?%Z.ltb_ge. lia. }
  assert (∀ a b c, ∃ s1, s1 = s <| polls ::= tail |>
      <| pfds ::= λ p,
           Pfds (reported (stdinout_pfd p) a true (has_data (child_out s)))
                (reported (stderr_pfd p) b true (has_data (child_err s)))
                (reported (protocol_pfd p) c (negb (bool_decide (client_in s = []))) (has_data (client_in s))) |> ∧
      polling s1 ∧ polled s1) as Hready.
  { intros a b c. eexists. split; [done|]. split.
    - constructor; try done; [intros []; [exact (Hfd stdinout_sfd)|exact (Hfd stderr_sfd)|exact (Hfd protocol_sfd)]|intros [] ?; first [done|by apply (Hin stdinout_sfd)|by apply (Hin stderr_sfd)]].
    - constructor.
      + intros d. pose proof (Hopen d) as Ho. destruct d; simpl in *; (destruct (_ <? 0); [done|]);
          simpl; intros [? _]%andb_true_iff; (split; [by apply Ho|done]).
      + intros d. pose proof (Hopen d) as Ho. destruct d; simpl in *; (destruct (_ <? 0); [done|]);
          simpl; intros [? _]%andb_true_iff; (split; [by apply Ho|done]).
      + simpl. destruct (_ <? 0); [done|]. simpl. intros [_ [H|H]%orb_true_iff]%andb_true_iff Hc.
        * apply andb_true_iff in H as [_ H]. by rewrite bool_decide_true in H.
        * apply andb_true_iff in H as [_ H]. by rewrite Hc in H.
      + intros d. pose proof (Hopen d) as Ho. destruct d; simpl in *; (destruct (_ <? 0); [done|]);
          intros _; by apply Ho. }
  destruct (polls s) as [|[| |a b c] l] eqn:Ep; injection E as <- <-.
  - destruct (Hready (Flags true true false) (Flags true true false) (Flags true true false)) as (s1 & -> & Hp & Hpd).
    split_and!; try done; [cbn; by rewrite Ep|]. intros _ _ d Hd Ho.
    assert ((fd (pfd_of d (pfds s)) <? 0) = false) as Hz.
    { apply Z.ltb_ge. destruct (Hfd d) as [-> ?]. change (get_sfd d s ≠ -1) in Ho. lia. }
    specialize (Hin d Hd Ho). destruct d; simpl in *; [| |done]; by rewrite Hz, Hin.
  - split_and!; try done. cbn. by rewrite Ep.
  - split_and!; try done; [cbn; by rewrite Ep|]. intros _. by left.
  - destruct (Hready a b c) as (s1 & -> & Hp & Hpd). split_and!; try done. cbn. by rewrite Ep.
Qed.

Lemma pfds_id s : s <| pfds ::= λ p, p |> = s.
Proof. by destruct s. Qed.

Section loop.
Context (I : service → Prop) (J : service → sfd → Prop) `{!Passing I J}.

(** Between the parts of a turn that started in [s0]. *)
Record stage (s0 : service) (dead : option sfd) (s : service) : Prop := {
  st_I : I s;
  st_polling : polling s;
  st_revents d : revents (pfd_of d (pfds s)) = revents (pfd_of d (pfds s0));
  st_sfd d : get_sfd d s = get_sfd d s0;
  st_rest : polls s = polls s0 ∧ waits s = waits s0 ∧ pid_ s = pid_ s0;
  st_work : (work s ≤ work s0)%nat;
  st_dead d : dead = Some d → J s d;
  st_finished d : finished s0 d → J s d
}.

Lemma stage_output s0 s d i :
  stage s0 None s → (d, i) = (stdinout_sfd, kIdStdout) ∨ (d, i) = (stderr_sfd, kIdStderr) →
  get_sfd d s ≠ -1 → get_sfd protocol_sfd s0 ≠ -1 → f_in (revents (pfd_of d (pfds s0))) = true →
  wp (PassOutput d i) (λ r s', stage s0 r s' ∧ input_bytes_left_ s' = input_bytes_left_ s ∧
    client_in s' = client_in s ∧ (work s' ≤ work s)%nat ∧ (r = None → (work s' < work s)%nat)) s.
Proof.
  intros [] Hdi Ho Hpr Hin. rewrite <- st_sfd0 in Hpr. destruct (wp_run (PassOutput d i) (λ r s', I s' ∧ (∀ d', r = Some d' → J s' d') ∧ (∀ d', d' ≠ d → J s d' → J s' d')) s) as [H _].
  destruct H as (r & s' & E & HI & HJ & Hk); [by apply pass_output|].
  assert (0 < data_capacity (output_ s)) as Hc by by apply pass_sane.
  pose proof (partial_run _ _ _ _ _ (PassOutput_effect d i s Hc Ho) E) as (K & L & C & W & W').
  unfold wp. rewrite E. split_and!; [|done..].
  pose proof K as (Kt & Kp & Kd & Kf & Kq & Kw & Kh). constructor; try done.
  - by eapply polling_keeps.
  - intros d'. by rewrite Kf.
  - intros d'. by rewrite Kd.
  - destruct st_rest0 as (? & ? & ?). split_and!; congruence.
  - lia.
  - intros d' Hf. apply Hk; [|by apply st_finished0]. intros ->. unfold finished, poll_finished in Hf. by rewrite Hin in Hf.
Qed.

Lemma stage_input s0 s f :
  stage s0 None s →
  (input_bytes_left_ s = 0 ∧ client_in s ≠ []) ∨ (input_bytes_left_ s ≠ 0 ∧ get_sfd stdinout_sfd s ≠ -1) →
  get_sfd protocol_sfd s0 ≠ -1 →
  (∀ s', polling s → keeps s s' → let p := f (input_bytes_left_ s') (pfds s') in
     (∀ d, revents (pfd_of d p) = revents (pfd_of d (pfds s)) ∧ fd (pfd_of d p) = fd (pfd_of d (pfds s))) ∧
     (∀ d, d ≠ protocol_sfd → f_in (events (pfd_of d p)) = f_in (events (pfd_of d (pfds s)))) ∧
     (f_in (events (protocol_pfd p)) = true → input_bytes_left_ s' = 0) ∧
     (f_out (events (stdinout_pfd p)) = true → input_bytes_left_ s' ≠ 0)) →
  wp PassInput (λ r s', stage s0 r (s' <| pfds ::= f (input_bytes_left_ s') |>) ∧ work s' = work s) s.
Proof.
  intros [] Hpre Hpr Hf. rewrite <- st_sfd0 in Hpr. destruct (wp_run PassInput (λ r s', I s' ∧ (∀ d', r = Some d' → J s' d') ∧ (∀ d', J s d' → J s' d')) s) as [H _].
  destruct H as (r & s' & E & HI & HJ & Hk); [by apply pass_input|].
  pose proof (partial_run _ _ _ _ _ (PassInput_effect s) E) as (K & Eo & Ee & _).
  unfold wp. rewrite E. split; [|unfold work; congruence].
  pose proof K as (Kt & Kp & Kd & Kf & Kq & Kw & Kh).
  assert (∀ d, get_sfd d (s' <| pfds ::= f (input_bytes_left_ s') |>) = get_sfd d s) as Ks.
  { intros d. rewrite <- Kd. by destruct d. }
  destruct (Hf s' st_polling0 K) as (Hr & Hi & Hp & Hw). destruct st_polling0. constructor.
  - by apply pass_pfds.
  - constructor.
    + intros d. rewrite Ks. cbn. destruct (Hr d) as [_ ->]. apply po_fd0.
    + intros d d'. rewrite !Ks. apply po_distinct0.
    + by rewrite Ks.
    + intros d Hd. rewrite Ks. intros Ho. cbn. rewrite Hi by done. by apply po_in0.
    + done.
    + done.
  - intros d. cbn. destruct (Hr d) as [-> _]. done.
  - intros d. by rewrite Ks.
  - destruct st_rest0 as (? & ? & ?). cbn. split_and!; congruence.
  - unfold work in *. cbn. rewrite Eo, Ee. done.
  - intros d Hd. apply pass_J_pfds. by apply HJ.
  - intros d Hd. apply pass_J_pfds, Hk. by apply st_finished0.
Qed.

(** Reading the output of the subprocess, as the turn does it. *)
Lemma turn_output s0 dead s d i (c : bool) :
  stage s0 dead s → polled s0 → get_sfd protocol_sfd s0 ≠ -1 → (d, i) = (stdinout_sfd, kIdStdout) ∨ (d, i) = (stderr_sfd, kIdStderr) →
  c = bool_decide (dead = None) && f_in (revents (pfd_of d (pfds s0))) →
  wp (if c then PassOutput d i else mret dead) (λ r s', stage s0 r s' ∧
    input_bytes_left_ s' = input_bytes_left_ s ∧ client_in s' = client_in s ∧ (work s' ≤ work s)%nat ∧
    (r = None → dead = None ∧ (f_in (revents (pfd_of d (pfds s0))) = true → (work s' < work s)%nat))) s.
Proof.
  intros Hs Hp Hpr Hdi ->. case_bool_decide as Hd; [subst dead|]; cbn [andb].
  - destruct (f_in _) eqn:Hin; [|by st_go].
    eapply wp_mono; [apply (stage_output s0 s d i); try done|].
    + rewrite (st_sfd _ _ _ Hs). by apply (pd_in _ Hp).
    + intros r s' (? & ? & ? & ? & ?). split_and!; auto.
  - st_go. split_and!; try done.
Qed.

Lemma turn_spec s :
  I s → polling s → polled s → get_sfd protocol_sfd s ≠ -1 → (∀ d, get_sfd d s ≠ -1 → finished s d → J s d) →
  wp poll_turn (λ r s', stage s r s' ∧
    (r = None → f_in (revents (stdinout_pfd (pfds s))) = true ∨ f_in (revents (stderr_pfd (pfds s))) = true →
     (work s' < work s)%nat)) s.
Proof.
  intros HI Hpo Hpd Hpr HJ.
  assert (stage s None s) as Hs.
  { constructor; try done. intros d Hd. apply HJ; [|done]. apply (pd_err _ Hpd).
    by apply andb_true_iff in Hd as [_ ?]. }
  unfold poll_turn. st_go.
  eapply wp_mono; [apply (turn_output s None s stdinout_sfd kIdStdout); [done..|by left|]|].
  { cbn. rewrite andb_comm. destruct (f_in _) eqn:Hi; [|done]. cbn. apply negb_true_iff, Z.eqb_neq.
    change (fd (pfd_of stdinout_sfd (pfds s)) ≠ -1). rewrite (proj1 (po_fd _ Hpo stdinout_sfd)). by apply (pd_in _ Hpd). }
  intros r1 s1 (H1 & L1 & C1 & W1 & W1'). st_go.
  eapply wp_mono; [apply (turn_output s r1 s1 stderr_sfd kIdStderr); [done..|by right|]|].
  { change (stderr_pfd (pfds s1)) with (pfd_of stderr_sfd (pfds s1)).
    rewrite (proj1 (po_fd _ (st_polling _ _ _ H1) stderr_sfd)), (st_revents _ _ _ H1).
    rewrite (proj2 (Z.eqb_neq _ _)) by apply (po_not_1 _ (st_polling _ _ _ H1)). by rewrite andb_true_r. }
  intros r2 s2 (H2 & L2 & C2 & W2 & W2'). st_go.
  apply (wp_mono _ (λ r s3, stage s r s3 ∧ (work s3 ≤ work s2)%nat ∧
    (r = None → r2 = None) ∧ (f_out (revents (stdinout_pfd (pfds s))) = true → s3 = s2))).
  { case_bool_decide as Hd2; cbn [andb]; [subst r2|by st_go].
    change (protocol_pfd (pfds s2)) with (pfd_of protocol_sfd (pfds s2)).
    rewrite (st_revents _ _ _ H2). destruct (f_in (revents (pfd_of protocol_sfd (pfds s)))) eqn:Hi; rewrite ?andb_false_r; [|by st_go].
    destruct (pd_in _ Hpd _ Hi) as [Ho He]. pose proof (po_packet _ Hpo He) as H0.
    rewrite (proj1 (po_fd _ (st_polling _ _ _ H2) protocol_sfd)), (st_sfd _ _ _ H2), (proj2 (Z.eqb_neq _ _)) by done. cbn [negb andb]. st_go.
    eapply wp_mono; [apply (stage_input s s2 (λ n p, if negb (n =? 0) then
        p <| protocol_pfd ::= λ q, q <| events ::= λ e, e <| f_in := false |> |> |>
          <| stdinout_pfd ::= λ q, q <| events ::= λ e, e <| f_out := true |> |> |> else p) H2)|].
    - left. split; [congruence|]. rewrite C2, C1. by apply (pd_client _ Hpd).
    - done.
    - intros s' Hq K. pose proof K as (_ & _ & _ & Kf & _). rewrite Kf.
      destruct (Z.eqb_spec (input_bytes_left_ s') 0) as [E|E]; cbn [negb].
      + split_and!; [done..| |]; [done|]. intros Hw. exfalso. apply (po_write _ Hq Hw). congruence.
      + split_and!; [intros []; done|intros []; done|done|done].
    - intros r3 s3 [H3 W3]. st_go. rewrite <- W3. destruct (Z.eqb_spec (input_bytes_left_ s3) 0) as [E|E]; cbn [negb] in *; st_go.
      + rewrite pfds_id in H3. split_and!; try done. intros Hw. exfalso. destruct (pd_out _ Hpd stdinout_sfd Hw) as [_ Hw'].
        by apply (po_write _ Hpo Hw').
      + split_and!; try done. intros Hw. exfalso. destruct (pd_out _ Hpd stdinout_sfd Hw) as [_ Hw'].
        by apply (po_write _ Hpo Hw'). }
  intros r3 s3 (H3 & W3 & D3 & F3). st_go.
  apply (wp_mono _ (λ r s4, stage s r s4 ∧ (work s4 ≤ work s3)%nat ∧ (r = None → r3 = None))).
  { case_bool_decide as Hd3; cbn [andb]; [subst r3|by st_go].
    change (stdinout_pfd (pfds s3)) with (pfd_of stdinout_sfd (pfds s3)).
    rewrite (st_revents _ _ _ H3). destruct (f_out (revents (pfd_of stdinout_sfd (pfds s)))) eqn:Hi; rewrite ?andb_false_r; [|by st_go].
    rewrite (F3 Hi) in *. destruct (pd_out _ Hpd _ Hi) as [Ho He]. pose proof (po_write _ Hpo He) as H0.
    rewrite (proj1 (po_fd _ (st_polling _ _ _ H2) stdinout_sfd)), (st_sfd _ _ _ H2), (proj2 (Z.eqb_neq _ _)) by done. cbn [negb andb]. st_go.
    eapply wp_mono; [apply (stage_input s s2 (λ n p, if n =? 0 then
        p <| protocol_pfd ::= λ q, q <| events ::= λ e, e <| f_in := true |> |> |>
          <| stdinout_pfd ::= λ q, q <| events ::= λ e, e <| f_out := false |> |> |> else p) H3)|].
    - right. split; [congruence|]. by rewrite (st_sfd _ _ _ H2).
    - done.
    - intros s' Hq K. pose proof K as (_ & _ & _ & Kf & _). rewrite Kf.
      destruct (Z.eqb_spec (input_bytes_left_ s') 0) as [E|E].
      + split_and!; [intros []; done|intros []; done|done|done].
      + split_and!; [done..| |]; [|done]. intros Hp. exfalso. pose proof (po_packet _ Hq Hp). congruence.
    - intros r4 s4 [H4 W4]. st_go. rewrite <- W4. destruct (Z.eqb_spec (input_bytes_left_ s4) 0) as [E|E]; st_go; [done|].
      by rewrite pfds_id in H4. }
  intros r4 s4 (H4 & W4 & D4). st_go.
  change (stdinout_pfd (pfds s4)) with (pfd_of stdinout_sfd (pfds s4)).
  change (stderr_pfd (pfds s4)) with (pfd_of stderr_sfd (pfds s4)).
  change (protocol_pfd (pfds s4)) with (pfd_of protocol_sfd (pfds s4)).
  rewrite !(st_revents _ _ _ H4).
  assert (∀ d, poll_finished (revents (pfd_of d (pfds s))) = true → stage s (Some d) s4) as Hf.
  { intros d Hd. pose proof (st_finished _ _ _ H4 d Hd). destruct H4. constructor; try done. by intros ? [= <-]. }
  destruct (poll_finished (revents (pfd_of stdinout_sfd _))) eqn:E1; [by split; [apply Hf|]|].
  destruct (poll_finished (revents (pfd_of stderr_sfd _))) eqn:E2; [by split; [apply Hf|]|].
  destruct (poll_finished (revents (pfd_of protocol_sfd _))) eqn:E3; [by split; [apply Hf|]|].
  split; [done|]. intros ->. specialize (D3 (D4 eq_refl)). destruct (W2' D3) as [D2 W2'']. destruct (W1' D2) as [_ W1''].
  intros [Hi|Hi]; [specialize (W1'' Hi); lia|]. specialize (W2'' Hi). lia.
Qed.

Definition same_process (s s' : service) : Prop := waits s' = waits s ∧ pid_ s' = pid_ s.

Lemma poll_loop_spec fuel : ∀ s,
  I s → polling s → (∃ d, d ≠ protocol_sfd ∧ get_sfd d s ≠ -1) → get_sfd protocol_sfd s ≠ -1 →
  (length (polls s) + work s < fuel)%nat →
  wp (PollLoop_ fuel) (λ r s', I s' ∧ same_process s s' ∧
    match r with
    | Some d => polling s' ∧ J s' d ∧ (∀ d, get_sfd d s' = get_sfd d s)
    | None => stdinout_sfd_ s' = -1 ∧ stderr_sfd_ s' = -1 ∧ protocol_sfd_ s' = protocol_sfd_ s ∧ PollError ∈ polls s
    end) s.
Proof.
  induction fuel as [|fuel IH]; intros s HI Hp Ho Hpr Hf; [lia|]. cbn [PollLoop_]. st_go.
  destruct (proj1 (wp_run _ _ _) (pass_poll s HI Hp)) as (r & s1 & E & HI1 & Hfail & Hfin).
  destruct (adb_poll_effect _ _ _ Hp E) as (Hp1 & Eq & Ew & Hpd & Hne & Herr & Hd & Hwt & Hpid & Hall).
  unfold wp at 1. rewrite E. cbv beta iota.
  assert (polls s ≠ [] → (length (polls s1) < length (polls s))%nat) as Hq.
  { intros Hn. rewrite Eq. destruct (polls s); [done|]. simpl. lia. }
  assert (∀ x, x ∈ polls s1 → x ∈ polls s) as Hsub.
  { intros x. rewrite Eq. destruct (polls s); [done|]. by right. }
  assert (∃ d, d ≠ protocol_sfd ∧ get_sfd d s1 ≠ -1) as Ho1.
  { destruct Ho as (d & ? & ?). exists d. by rewrite Hd. }
  destruct r.
  - st_go. eapply wp_mono; [apply (turn_spec s1); auto; by rewrite Hd|]. intros dead s2 [H2 W2]. destruct (st_rest _ _ _ H2) as (Q2 & T2 & P2).
    assert (∀ d, get_sfd d s2 = get_sfd d s) as Hd2.
    { intros d. by rewrite (st_sfd _ _ _ H2). }
    destruct dead as [d|].
    + st_go. split_and!; [by destruct H2|split; congruence|by destruct H2|by apply (st_dead _ _ _ H2)|done].
    + eapply wp_mono; [apply IH|].
      * by destruct H2.
      * by destruct H2.
      * destruct Ho as (d & ? & ?). exists d. by rewrite Hd2.
      * by rewrite Hd2.
      * rewrite Q2. pose proof (st_work _ _ _ H2). destruct (decide (polls s = [])) as [En|En]; [|specialize (Hq En); lia].
        assert (work s2 < work s1)%nat; [|rewrite Eq, En in *; simpl in *; lia].
        apply W2; [done|]. destruct Ho1 as (d & Hdp & Hdo).
        pose proof (Hall eq_refl En d Hdp Hdo) as Hi. destruct d; [by left|by right|done].
      * intros r s3 (HI3 & [HT HP] & Hr). split_and!; [done|split; congruence|]. destruct r; [|].
        -- destruct Hr as (? & ? & Hs3). split_and!; [done..|]. intros d'. by rewrite Hs3.
        -- destruct Hr as (? & ? & Hs3 & Hx). rewrite Q2 in Hx. split_and!; [done..| |by apply Hsub]. rewrite Hs3. apply (Hd2 protocol_sfd).
  - specialize (Hne ltac:(done)). specialize (Hq Hne). eapply wp_mono; [apply IH; [done..|by rewrite Hd|lia]|].
    intros r s2 (HI2 & [HT HP] & Hr). split_and!; [done|split; congruence|]. destruct r.
    + destruct Hr as (? & ? & Hs). split_and!; [done..|]. intros d'. by rewrite Hs.
    + destruct Hr as (? & ? & Hs & Hx). split_and!; [done..| |by apply Hsub]. rewrite Hs. apply (Hd protocol_sfd).
  - st_go. split_and!; [by apply Hfail|done..|apply (Hd protocol_sfd)|by apply Herr].
Qed.

Lemma close_dead_spec s d :
  I s → polling s → J s d →
  wp (close_dead d) (λ _ s', I s' ∧ same_process s s' ∧ (d ≠ protocol_sfd → polling s') ∧
    (∀ d', get_sfd d' s' = if decide (d = protocol_sfd ∨ d' = d) then -1 else get_sfd d' s)) s.
Proof.
  intros HI Hp HJ. pose proof (pass_open _ _ HJ) as Ho.
  pose proof Hp as [Hfd Hdist H1 Hin Hpk Hwr]. unfold close_dead. st_go.
  set (clear := λ q, Pollfd (-1) (Flags false false false) (revents q)).
  set (f := λ p, match d with
                 | stdinout_sfd => p <| stdinout_pfd ::= clear |>
                 | stderr_sfd => p <| stderr_pfd ::= clear |>
                 | protocol_sfd => p <| protocol_pfd ::= clear |>
                 end : SubprocessPollfds).
  assert (clear_pfd (get_sfd d s) s = Ret (tt, s <| pfds := f (pfds s) |>)) as E.
  { assert (∀ d', d' ≠ d → (fd (pfd_of d' (pfds s)) =? get_sfd d s) = false) as Hno.
    { intros d' Hd'. apply Z.eqb_neq. rewrite (proj1 (Hfd d')). intros Heq. destruct Hd'. symmetry. by apply Hdist. }
    assert ((fd (pfd_of d (pfds s)) =? get_sfd d s) = true) as Hyes by (apply Z.eqb_eq, Hfd).
    unfold clear_pfd, mbind, ST_bind, get. cbv beta iota. subst f.
    pose proof (Hno stdinout_sfd) as N1. pose proof (Hno stderr_sfd) as N2. cbn [pfd_of] in *.
    destruct d; cbn [pfd_of] in Hyes; rewrite ?N1, ?N2, ?Hyes by done; done. }
  unfold wp at 1. rewrite E. cbv beta iota. set (s1 := s <| pfds := f (pfds s) |>).
  assert (I (closed d s1)) as HI'.
  { apply pass_close; [by apply pass_pfds|by apply pass_J_pfds]. }
  assert (∀ d', get_sfd d' (closed d s1) = if decide (d = protocol_sfd ∨ d' = d) then -1 else get_sfd d' s) as Hg.
  { intros d'. unfold closed. destruct d, d'; cbn; try done; destruct (pid_ s =? -1); done. }
  assert (same_process s (closed d s1)) as Hsp.
  { unfold closed, same_process. destruct d; cbn; try done. destruct (pid_ s =? -1); done. }
  assert (∀ Q : unit → service → Prop, Q tt (closed d s1) →
    wp (_ ← (if bool_decide (d = protocol_sfd) then
         modify (λ s, (if pid_ s =? -1 then s else s <| hangups ::= λ l, l ++ [pid_ s] |>)
                        <| stdinout_sfd_ := -1 |> <| stderr_sfd_ := -1 |>)
       else mret tt); modify (reset_sfd d)) Q s1) as Hwp.
  { intros Q HQ. st_go. unfold closed in HQ. case_bool_decide; by st_go. }
  apply (Hwp _). split_and!; [done..| |done]. intros Hd.
  assert (pfds (closed d s1) = f (pfds s)) as Hpf by (by destruct d).
  assert (input_bytes_left_ (closed d s1) = input_bytes_left_ s) as Hl by (by destruct d).
  constructor; rewrite ?Hpf, ?Hl; subst f; cbv beta.
  - intros d'. rewrite Hg. pose proof (Hfd d'). destruct d, d'; simpl; naive_solver.
  - intros d1 d2. rewrite !Hg. destruct (decide _) as [|N1]; [done|]. destruct (decide _) as [|N2]; [|apply Hdist].
    intros Hn Heq. by destruct Hn.
  - rewrite Hg. destruct (decide _); [done|exact H1].
  - intros d' Hd'. rewrite Hg. destruct (decide _) as [|N]; [done|]. intros Hn. pose proof (Hin d' Hd' Hn).
    destruct d, d'; simpl in *; naive_solver.
  - destruct d; [exact Hpk|exact Hpk|done].
  - destruct d; [done|exact Hwr|done].
Qed.

Definition opened (s : service) : list sfd :=
  filter (λ d, get_sfd d s ≠ -1) [stdinout_sfd; stderr_sfd; protocol_sfd].

Lemma opened_less s s' d :
  get_sfd d s ≠ -1 → (∀ d', get_sfd d' s' ≠ -1 → d' ≠ d ∧ get_sfd d' s ≠ -1) →
  (length (opened s') < length (opened s))%nat.
Proof.
  intros Hd Hs. change (length (d :: opened s') ≤ length (opened s))%nat. apply submseteq_length.
  assert (NoDup [stdinout_sfd; stderr_sfd; protocol_sfd]) as Hnd by (apply (bool_decide_unpack _); done).
  assert (∀ d, d ∈ [stdinout_sfd; stderr_sfd; protocol_sfd]) as Hall by (intros []; set_solver).
  apply NoDup_submseteq.
  - apply NoDup_cons. split; [|by apply NoDup_filter]. intros [H _]%list_elem_of_filter. by apply Hs in H as [].
  - intros d' [->|[H _]%list_elem_of_filter]%elem_of_cons; apply list_elem_of_filter; (split; [|done]); [done|by apply Hs].
Qed.

Lemma pass_loop_spec fuel : ∀ s,
  I s → polling s → protocol_sfd_ s ≠ -1 →
  (length (opened s) ≤ fuel)%nat →
  wp (pass_loop fuel) (λ _ s', I s' ∧ same_process s s' ∧ stdinout_sfd_ s' = -1 ∧ stderr_sfd_ s' = -1) s.
Proof.
  assert (∀ fuel s, protocol_sfd_ s = -1 ∨ (stdinout_sfd_ s = -1 ∧ stderr_sfd_ s = -1) →
    pass_loop fuel s = Ret (tt, s)) as Hend.
  { intros n s He. assert (negb (protocol_sfd_ s =? -1) && (negb (stdinout_sfd_ s =? -1) || negb (stderr_sfd_ s =? -1)) = false) as E.
    { destruct He as [->|[-> ->]]; [done|]. apply andb_false_r. }
    destruct n; cbn [pass_loop]; unfold mbind, ST_bind, get; cbv beta iota; by rewrite E. }
  induction fuel as [|fuel IH]; intros s HI Hp Hpr Hf.
  { exfalso. unfold opened in Hf. rewrite !filter_cons, filter_nil in Hf. simpl in Hf. repeat case_decide; simpl in Hf; try lia; by auto. }
  destruct (decide (stdinout_sfd_ s = -1 ∧ stderr_sfd_ s = -1)) as [[E1 E2]|En].
  { unfold wp. rewrite Hend by auto. done. }
  cbn [pass_loop]. st_go.
  assert (negb (protocol_sfd_ s =? -1) && (negb (stdinout_sfd_ s =? -1) || negb (stderr_sfd_ s =? -1)) = true) as ->.
  { rewrite (proj2 (Z.eqb_neq _ _) Hpr). cbn. apply orb_true_iff. rewrite !negb_true_iff, !Z.eqb_neq. lia. }
  st_go. unfold PollLoop. st_go. eapply wp_mono; [apply poll_loop_spec; [done..| |done|unfold work; lia]|].
  { destruct (decide (stdinout_sfd_ s = -1)); [exists stderr_sfd|exists stdinout_sfd]; (split; [done|]); simpl; lia. }
  intros [d|] s1 (HI1 & Hsp & Hr); st_go.
  - destruct Hr as (Hp1 & HJ & Hd). eapply wp_mono; [by apply close_dead_spec|].
    intros _ s2 (HI2 & Hsp2 & Hp2 & Hg). assert (same_process s s2) as Hs2 by (destruct Hsp, Hsp2; split; congruence).
    destruct (decide (d = protocol_sfd)) as [->|Hn].
    + pose proof (Hg stdinout_sfd) as G1. pose proof (Hg stderr_sfd) as G2. pose proof (Hg protocol_sfd) as G3. simpl in *.
      unfold wp. rewrite Hend by auto. done.
    + eapply wp_mono; [apply IH; auto|].
      * pose proof (Hg protocol_sfd) as G. rewrite decide_False, Hd in G by (by intros [?|<-]). simpl in G. by rewrite G.
      * pose proof (pass_open _ _ HJ) as Hop. rewrite Hd in Hop. cut (length (opened s2) < length (opened s))%nat; [lia|].
        apply (opened_less s s2 d Hop). intros d'. rewrite Hg, Hd. destruct (decide (d = protocol_sfd ∨ d' = d)) as [|N]; [done|]. intros ?. split; [|done]. intros ->. apply N. by right.
      * intros [] s3 (? & [] & ? & ?). split_and!; [done| |done..]. destruct Hs2. split; congruence.
  - destruct Hr as (E1 & E2 & E3 & _). unfold wp. rewrite Hend by auto. done.
Qed.

(** The fields of [pfds] are set by [PassDataStreams]. *)
Lemma PassDataStreams_spec s :
  I s → (∀ d, -1 ≤ get_sfd d s) → (∀ d d', get_sfd d s ≠ -1 → get_sfd d s = get_sfd d' s → d = d') →
  stderr_sfd_ s ≠ 1 → protocol_sfd_ s ≠ -1 → input_bytes_left_ s = 0 →
  wp PassDataStreams (λ _ s', I s' ∧ same_process s s' ∧ stdinout_sfd_ s' = -1 ∧ stderr_sfd_ s' = -1) s.
Proof.
  intros HI H1 Hd Hn Hp Hl. unfold PassDataStreams. st_go. rewrite (proj2 (Z.eqb_neq _ _) Hp). st_go.
  eapply wp_mono; [apply pass_loop_spec; [by apply pass_pfds| |done|]|done].
  - constructor; try done.
    + intros []; (split; [done|]); [apply (H1 stdinout_sfd)|apply (H1 stderr_sfd)|apply (H1 protocol_sfd)].
    + intros []; done.
  - unfold opened. rewrite !filter_cons, filter_nil. repeat case_decide; simpl; lia.
Qed.
End loop.
End LO.

(** ** Safety *)

Module SSafe.
Import ShellProtocol SVC SP LP LO.

(** Whatever [Read] delivers of a window size, now and later, contains a
    terminator. *)
Inductive calm : t → instream → Prop :=
| calm_end p : calm p []
| calm_read p i ok p' i' :
    Read p i = Ret (ok, p', i') →
    (ok = true → ShellProtocol.id p' = Ret (Id_byte kIdWindowSizeChange) → NUL ∈ data p') →
    calm p' i' → calm p i.

(** A [Subprocess] as [ConnectProtocolEndpoints] leaves it; the numbers up to 2 are
    the standard descriptors of the daemon. *)
Record started (s : service) : Prop := {
  sd_buffers : ∃ cap, sane cap (input_ s) ∧ sane cap (output_ s);
  sd_left : input_bytes_left_ s = 0;
  sd_fds : 2 < stdinout_sfd_ s ∧ 2 < protocol_sfd_ s ∧ (stderr_sfd_ s = -1 ∨ 2 < stderr_sfd_ s);
  sd_distinct : stdinout_sfd_ s ≠ stderr_sfd_ s ∧ stdinout_sfd_ s ≠ protocol_sfd_ s ∧ stderr_sfd_ s ≠ protocol_sfd_ s
}.

(** The buffers it creates are such; it fails when a descriptor stays blocking. *)
Lemma ConnectProtocolEndpoints_sane cap strerror out err fd1 fd2 unblock junk_in junk_out :
  zlen junk_in = cap + 5 → zlen junk_out = cap + 5 → 24 ≤ cap < 2 ^ 31 → 0 ≤ out → err = -1 ∨ 0 ≤ err →
  (unblock out = true ∧ (0 ≤ err → unblock err = true) ∧
   ∃ input output, ConnectProtocolEndpoints strerror kShell out err (Some (fd1, fd2)) unblock junk_in junk_out =
     Ret (inr (fd2, Some (fd1, input, output))) ∧ sane cap input ∧ sane cap output) ∨
  (∃ fd, (fd = out ∨ fd = err) ∧ unblock fd = false ∧
   ConnectProtocolEndpoints strerror kShell out err (Some (fd1, fd2)) unblock junk_in junk_out =
     Ret (inl (str "failed to set non-blocking mode for fd " ++ print_d fd))).
Proof.
  intros Hi Hu Hc Ho He. unfold ConnectProtocolEndpoints.
  destruct (init_sane cap junk_in Hi Hc) as (pi & -> & Si & _), (init_sane cap junk_out Hu Hc) as (po & -> & So & _). mstep.
  rewrite !filter_cons, filter_nil.
  destruct (decide (0 ≤ out ∧ unblock out = false)) as [[_ H1]|H1]; [right; eauto 10|].
  destruct (decide (0 ≤ err ∧ unblock err = false)) as [[_ H2]|H2]; [right; eauto 10|].
  left. split_and!; [destruct (unblock out); naive_solver|intros; destruct (unblock err); naive_solver|eauto 10].
Qed.

Lemma started_fds s :
  started s → (∀ d, -1 ≤ get_sfd d s) ∧ (∀ d d', get_sfd d s ≠ -1 → get_sfd d s = get_sfd d' s → d = d') ∧
  stderr_sfd_ s ≠ 1 ∧ protocol_sfd_ s ≠ -1.
Proof.
  intros [_ _ H1 H2]. split_and!; [intros []; simpl; lia| |lia..].
  intros [] []; simpl; intros; first [done|lia].
Qed.

Definition safe_inv (s : service) : Prop :=
  (∃ cap, sane cap (input_ s) ∧ sane cap (output_ s)) ∧
  0 ≤ input_bytes_left_ s ≤ data_length_ (input_ s) ∧ calm (input_ s) (client_in s).

Definition is_open (s : service) (d : sfd) : Prop := get_sfd d s ≠ -1.

Lemma adb_read_le i n b bs i' : 0 < n → adb_read i n = (ReadBytes (b :: bs), i') → zlen (b :: bs) ≤ n.
Proof.
  intros Hn. destruct i as [|[l|e] i]; cbn -[Z.of_nat]; try done.
  intros [= H _]. change (zlen (b :: bs) ≤ n). rewrite <- H. unfold ztake. rewrite length_take. unfold MAX_RW_COUNT. lia.
Qed.

(** [read_child] returns at most what was asked for, and touches only its stream. *)
Lemma read_child_wp d n s (Q : read_result → service → Prop) :
  d ≠ protocol_sfd → get_sfd d s ≠ -1 →
  (∀ r i, d = stdinout_sfd → adb_read (child_out s) n = (r, i) → Q r (s <| child_out := i |>)) →
  (∀ r i, d = stderr_sfd → adb_read (child_err s) n = (r, i) → Q r (s <| child_err := i |>)) →
  wp (read_child d n) Q s.
Proof.
  intros Hd Ho H1 H2. unfold wp, read_child. rewrite (proj2 (Z.eqb_neq _ _) Ho).
  destruct d; [destruct (adb_read (child_out s) n) eqn:E|destruct (adb_read (child_err s) n) eqn:E|done]; auto.
Qed.

Lemma output_fill_wp cap bs s (Q : unit → service → Prop) :
  sane cap (output_ s) → zlen bs ≤ cap → (∀ p, sane cap p → Q tt (s <| output_ := p |>)) → wp (output_fill bs) Q s.
Proof.
  intros Hs Hl H. unfold wp, output_fill. destruct (fill_total cap (output_ s) bs Hs Hl) as (p & -> & Hp & _). by apply H.
Qed.

Lemma output_write_wp cap i n s (Q : bool → service → Prop) :
  sane cap (output_ s) → 0 ≤ n ≤ cap →
  (∀ ok p o, sane cap p → Q ok (s <| output_ := p |> <| client_out := o |>)) → wp (output_write i n) Q s.
Proof.
  intros Hs Hl H. unfold wp, output_write.
  destruct (Write_total cap (output_ s) (client_out s) i n Hs Hl) as (ok & p & o & -> & Hp & _). by apply H.
Qed.

Lemma safe_output s d i :
  safe_inv s → (d, i) = (stdinout_sfd, kIdStdout) ∨ (d, i) = (stderr_sfd, kIdStderr) → get_sfd d s ≠ -1 →
  get_sfd protocol_sfd s ≠ -1 →
  wp (PassOutput d i) (λ r s', safe_inv s' ∧ (∀ d', r = Some d' → is_open s' d') ∧ ∀ d', d' ≠ d → is_open s d' → is_open s' d') s.
Proof.
  intros ((cap & Si & So) & Hl & Hc) Hdi Ho Hp.
  assert (0 < data_capacity (output_ s)) as Hcap by (rewrite (sane_capacity cap) by done; unfold sane in So; lia).
  apply (wp_mono _ (λ r s', output_effect s d r s' ∧ safe_inv s' ∧ (r = None ∨ r = Some d ∨ r = Some protocol_sfd))); cycle 1.
  { intros r s' (((_ & _ & Kd & _) & _) & H & Hr). split_and!; [done| |].
    - intros d' ->. unfold is_open. rewrite Kd. destruct Hr as [|[|]]; naive_solver.
    - intros d' _. unfold is_open. by rewrite Kd. }
  apply wp_partial_and; [|by apply PassOutput_effect].
  assert (∀ s1, input_ s1 = input_ s → output_ s1 = output_ s → input_bytes_left_ s1 = input_bytes_left_ s →
    client_in s1 = client_in s → safe_inv s1) as Hinv.
  { intros s1 E1 E2 E3 E4. unfold safe_inv. rewrite E1, E2, E3, E4. eauto. }
  assert (∀ r s1, input_ s1 = input_ s → output_ s1 = output_ s → input_bytes_left_ s1 = input_bytes_left_ s →
    client_in s1 = client_in s → (∀ b bs, r = ReadBytes (b :: bs) → zlen (b :: bs) ≤ cap) →
    wp match r with
       | ReadBytes [] => mret (Some d)
       | ReadError EAGAIN => mret None
       | ReadError _ => mret (Some d)
       | ReadBytes bs => _ ← output_fill bs; ok ← output_write i (zlen bs); mret (if (ok : bool) then None else Some protocol_sfd)
       end (λ r s', safe_inv s' ∧ (r = None ∨ r = Some d ∨ r = Some protocol_sfd)) s1) as Hk.
  { intros r s1 E1 E2 E3 E4 Hb. destruct r as [[|b bs]|[]]; st_go; eauto.
    specialize (Hb _ _ eq_refl). apply (output_fill_wp cap); [by rewrite E2|done|]. intros p Hs. st_go.
    apply (output_write_wp cap); [done|lia|]. intros ok p' o Hs'. st_go. split; [|destruct ok; auto].
    unfold safe_inv. cbn. rewrite E1, E3, E4. eauto. }
  unfold PassOutput. st_go. rewrite (sane_capacity cap) by done.
  apply read_child_wp; [destruct Hdi as [[= -> _]|[= -> _]]; done|done| |]; intros r j _ Er; apply Hk; try done;
    intros b bs ->; eapply adb_read_le; [unfold sane in So; lia|done|unfold sane in So; lia|done].
Qed.

Lemma safe_write_input s :
  safe_inv s → (input_bytes_left_ s ≠ 0 → get_sfd stdinout_sfd s ≠ -1) →
  wp write_input (λ r s', safe_inv s' ∧ (r = None ∨ (r = Some stdinout_sfd ∧ get_sfd stdinout_sfd s ≠ -1))) s.
Proof.
  intros (Hs & Hl & Hc) Ho. unfold write_input. st_go. destruct (Z.ltb_spec 0 (input_bytes_left_ s)) as [Hn|Hn]; st_go; [|split; [exact (conj Hs (conj Hl Hc))|by left]].
  assert (∀ s1 n, input_ s1 = input_ s → output_ s1 = output_ s → client_in s1 = client_in s →
    0 ≤ n ≤ input_bytes_left_ s → safe_inv (s1 <| input_bytes_left_ := n |>)) as Hinv.
  { intros s1 n E1 E2 E4 Hn'. unfold safe_inv. cbn. rewrite E1, E2, E4. split_and!; [done|lia|lia|done]. }
  assert (∀ s1, input_ s1 = input_ s → output_ s1 = output_ s → client_in s1 = client_in s →
    input_bytes_left_ s1 = input_bytes_left_ s → safe_inv s1) as Hinv'.
  { intros s1 E1 E2 E4 E3. unfold safe_inv. rewrite E1, E2, E3, E4. done. }
  specialize (Ho ltac:(lia)). unfold wp at 1, write_child. rewrite (proj2 (Z.eqb_neq (stdinout_sfd_ s) (-1)) Ho).
  destruct (stdin_shut s); [st_go; split; [apply Hinv; done || lia|auto]|].
  set (q := ztake _ _). destruct (adb_write (child_in s) q) as [r o] eqn:E.
  assert (∀ n, r = Wrote n → 0 ≤ n ≤ input_bytes_left_ s) as Hr.
  { intros n ->. assert (zlen q ≤ input_bytes_left_ s) by (subst q; unfold ztake; rewrite length_take; lia).
    unfold adb_write in E. destruct (o_script (child_in s)) as [|[]]; try discriminate; injection E as E _; subst n; lia. }
  destruct r as [[|n|n]|[]]; st_go; try (split; [apply Hinv; done || lia|by auto]); try (split; [by apply Hinv'|by auto]).
  - specialize (Hr _ eq_refl). split; [apply Hinv; try done; lia|auto].
  - specialize (Hr _ eq_refl). lia.
Qed.

Lemma sane_id cap p : sane cap p → ∃ i, ShellProtocol.id p = Ret i.
Proof.
  unfold sane, ShellProtocol.id. destruct (buffer_ p) as [|b l]; simpl; [lia|]. eauto.
Qed.

Lemma data_in_buffer p b : b ∈ data p → b ∈ zdrop kHeaderSize (buffer_ p).
Proof. unfold data, ztake. intros (i & H & _)%elem_of_take. by eapply list_elem_of_lookup_2. Qed.

Lemma safe_packet_id s :
  safe_inv s → input_bytes_left_ s = 0 → get_sfd stdinout_sfd s ≠ -1 →
  (ShellProtocol.id (input_ s) = Ret (Id_byte kIdWindowSizeChange) → NUL ∈ data (input_ s)) →
  wp handle_packet_id (λ r s', safe_inv s' ∧ stdinout_sfd_ s' = stdinout_sfd_ s ∧ (∀ d, r = Some (Some d) → d = stdinout_sfd)) s.
Proof.
  intros Hinv H0 Ho Hw. pose proof Hinv as ((cap & Si & So) & Hl & Hc). unfold handle_packet_id. st_go.
  destruct (sane_id cap (input_ s) Si) as [i Ei]. rewrite Ei in *. eapply wp_lift; [done|].
  assert (0 ≤ data_length_ (input_ s)) by (unfold sane in Si; lia).
  case_bool_decide; [|case_bool_decide; [|case_bool_decide]].
  - subst i. st_go. eapply wp_lift.
    { apply c_str_of_buffer_ok. by apply data_in_buffer, Hw. }
    destruct (sscanf_winsize _) as [[[[]]]|]; st_go; [|done].
    unfold set_window. st_go. by case_bool_decide.
  - st_go. split_and!; try done. split_and!; [by exists cap|done|simpl; lia|done].
  - st_go. case_bool_decide; st_go; [|done].
    unfold shutdown_child. st_go. destruct (default true (head (shutdowns s))); st_go; split_and!; try done. by intros d [= <-].
  - by st_go.
Qed.

Lemma safe_input s :
  safe_inv s → (input_bytes_left_ s = 0 ∧ client_in s ≠ []) ∨ (input_bytes_left_ s ≠ 0 ∧ get_sfd stdinout_sfd s ≠ -1) →
  get_sfd protocol_sfd s ≠ -1 →
  wp PassInput (λ r s', safe_inv s' ∧ (∀ d', r = Some d' → is_open s' d') ∧ ∀ d', is_open s d' → is_open s' d') s.
Proof.
  intros Hinv Hpre Hp.
  apply (wp_mono _ (λ r s', input_effect s s' ∧ safe_inv s' ∧ (∀ d, r = Some d → get_sfd d s ≠ -1))); cycle 1.
  { intros r s' (((_ & _ & Kd & _) & _) & H & Hr). unfold is_open. split_and!; [done| |]; intros d'; rewrite Kd; auto. }
  apply wp_partial_and; [|apply PassInput_effect].
  unfold PassInput. st_go. destruct (Z.eqb_spec (input_bytes_left_ s) 0) as [H0|H0]; cycle 1.
  { eapply wp_mono; [apply safe_write_input; [done|]|].
    - intros _. by destruct Hpre as [[]|[]].
    - intros r s' [? Hr]. split; [done|]. intros d ->. by destruct Hr as [|[[= ->] ?]]. }
  st_go. pose proof Hinv as ((cap & Si & So) & Hl & Hc). destruct Hpre as [[_ Hne]|[]]; [|done].
  assert (∃ ok p' i', Read (input_ s) (client_in s) = Ret (ok, p', i') ∧ sane cap p' ∧
    (ok = true → ShellProtocol.id p' = Ret (Id_byte kIdWindowSizeChange) → NUL ∈ data p') ∧ calm p' i') as (ok & p' & i' & E & Hs & Hw & Hc').
  { destruct (Read_total cap (input_ s) (client_in s) Si) as (ok & p' & i' & E & Hs).
    inversion Hc as [|? ? ok1 p1 i1 E1 Hw1 Hc1]; [congruence|subst]. rewrite E in E1. injection E1 as <- <- <-. eauto 10. }
  unfold wp at 1, input_read. rewrite E. mstep. cbv beta iota.
  set (s1 := s <| input_ := p' |> <| client_in := i' |>).
  assert (safe_inv s1) as H1.
  { split_and!; [by exists cap|simpl; lia|simpl; unfold sane in Hs; lia|done]. }
  destruct ok; cbn [negb]; st_go; [|split; [done|by intros d [= <-]]].
  change (stdinout_sfd_ s1) with (stdinout_sfd_ s).
  destruct (Z.eqb_spec (stdinout_sfd_ s) (-1)) as [Hx|Hx]; cbn [negb]; st_go.
  - eapply wp_mono; [apply safe_write_input; [done|by intros []]|].
    intros r s' [? Hr]. split; [done|]. intros d ->. destruct Hr as [|[_ Hr]]; [done|]. by destruct Hr.
  - eapply wp_mono; [apply (safe_packet_id s1); auto|]. intros r s2 (H2 & E2 & Hr).
    destruct r as [r|]; st_go; [split; [done|]; intros d ->; by rewrite (Hr d eq_refl)|].
    eapply wp_mono; [apply safe_write_input; [done|intros _; simpl; by rewrite E2]|].
    intros r s3 [? Hr']. split; [done|]. intros d ->. by destruct Hr' as [|[[= ->] _]].
Qed.

#[global] Instance safe_passing : Passing safe_inv is_open.
Proof.
  split.
  - intros s ((cap & _ & So) & _). rewrite (sane_capacity cap) by done. unfold sane in So. lia.
  - done.
  - done.
  - intros s p d H. unfold is_open in *. by destruct d.
  - apply safe_output.
  - apply safe_input.
  - intros s HI Hp. unfold wp, adb_poll. destruct (polls s) as [|[]]; done.
  - intros s d HI _. unfold closed. destruct d; try done. cbn. by destruct (pid_ s =? -1).
Qed.

Lemma wait_for_exit_safe s :
  (∃ cap, sane cap (output_ s)) → (pid_ s ≠ -1 → ∃ code, wait_loop (waits s) = Ret code) →
  wp WaitForExit (λ _ s', protocol_sfd_ s' = -1 ∧ stdinout_sfd_ s' = stdinout_sfd_ s ∧ stderr_sfd_ s' = stderr_sfd_ s) s.
Proof.
  intros [cap So] Hw. unfold WaitForExit. st_go.
  assert (∃ code, (if pid_ s =? -1 then Ret 1 else wait_loop (waits s)) = Ret code) as [code E].
  { destruct (Z.eqb_spec (pid_ s) (-1)); eauto. }
  eapply wp_lift; [exact E|]. st_go. destruct (Z.eqb_spec (protocol_sfd_ s) (-1)) as [Hx|Hx]; cbn [negb]; st_go; [done|].
  apply (output_fill_wp cap); [done|simpl; unfold sane in So; lia|]. intros p Hp. st_go.
  apply (output_write_wp cap); [done|unfold sane in So; lia|]. intros ok p' o Hp'. by st_go.
Qed.

(** C22: The thread that serves a shell is safe whatever the client sends, however
    the subprocess behaves and whatever [poll], [read], [write] and [shutdown] return:
    it never fails a [CHECK], touches no memory outside of its buffers, ends as soon as
    the subprocess can be waited for, and leaves none of its descriptors open.  The one
    condition is that every piece of a window-size packet that is read has a terminator. *)
Theorem shell_service_safe s :
  started s → calm (input_ s) (client_in s) →
  (pid_ s ≠ -1 → ∃ code, wait_loop (waits s) = Ret code) →
  ∃ s', ThreadHandler s = Ret (tt, s') ∧
    stdinout_sfd_ s' = -1 ∧ stderr_sfd_ s' = -1 ∧ protocol_sfd_ s' = -1.
Proof.
  intros Hs Hc Hw. destruct (started_fds s Hs) as (H1 & H2 & H3 & H4).
  assert (safe_inv s) as HI.
  { destruct Hs as [(cap & Si & So) Hl _ _]. split_and!; [by exists cap|lia|rewrite Hl; unfold sane in Si; lia|done]. }
  assert (wp ThreadHandler (λ _ s', stdinout_sfd_ s' = -1 ∧ stderr_sfd_ s' = -1 ∧ protocol_sfd_ s' = -1) s) as H.
  { unfold ThreadHandler. st_go. eapply wp_mono; [by apply (PassDataStreams_spec safe_inv is_open); [| | | | |apply Hs]|].
    intros _ s1 (((cap & _ & So) & _) & [HT HP] & E1 & E2). eapply wp_mono; [apply wait_for_exit_safe; [eauto|by rewrite HT, HP]|].
    intros _ s2 (? & ? & ?). split_and!; congruence. }
  apply wp_run in H as ([] & s' & E & H). eauto.
Qed.

(** ** An execution *)

Definition sample_protocol : t := mk (replicate 29 (Zbyte 0)) 0 0.
Definition sample_service (ty : SubprocessType) (to_child : outstream) (out err client : instream) (ps : list poll_result)
  (ws : list wait_result) : service :=
  Service ty 100 7 (match ty with kPty => -1 | kRaw => 8 end) 9 sample_protocol sample_protocol 0
    (Pfds (Pollfd 7 (Flags true false false) (Flags false false false))
          (Pollfd (match ty with kPty => -1 | kRaw => 8 end) (Flags true false false) (Flags false false false))
          (Pollfd 9 (Flags true false false) (Flags false false false)))
    to_child out err false None [] client (Out [] []) ps [] ws.

Lemma sample_sane : sane 24 sample_protocol.
Proof. unfold sane. cbn. lia. Qed.

(** A client that sends a window size, garbage and goes away while its input is blocked. *)
Definition sample_chaos : service :=
  sample_service kPty (Out [] [Accept 1; Reject EAGAIN; Reject EPIPE])
    [Data (str "x"); Fault EOther; Data (str "y")] []
    [Data (Shell.frame (Id_byte kIdWindowSizeChange) (str "24x80,0x0" ++ [NUL]) ++ Shell.frame (Id_byte kIdStdin) (str "rm"));
     Data (str "garb"); Data []; Fault EOther]
    [Ready (Flags false false false) (Flags true true true) (Flags true false true); PollIntr] [Signaled 9].

Lemma sample_calm : calm (input_ sample_chaos) (client_in sample_chaos).
Proof.
  do 4 (eapply calm_read; [vm_compute; reflexivity|intros Hok Hid; vm_compute in Hid; first [discriminate Hok|discriminate Hid|by_decide]|]).
  apply calm_end.
Qed.

Lemma shell_service_safe_witness :
  ∃ s', ThreadHandler sample_chaos = Ret (tt, s') ∧ stdinout_sfd_ s' = -1 ∧ stderr_sfd_ s' = -1 ∧ protocol_sfd_ s' = -1.
Proof.
  apply shell_service_safe.
  - constructor; [exists 24; split; apply sample_sane|done|cbn; lia|cbn; lia].
  - apply sample_calm.
  - intros _. by eexists.
Defined.
End SSafe.
