(* ===== verification/ShellSession.v ===== *)
(** * A session of the shell

    The device ([SES]): with a client that sends whole packets and stays connected,
    and a subprocess that takes its input, the loop of the service passes on
    everything; the invariant [sess] is an instance of [ShellFacts.LO.Passing].
    The client ([TYP]): what the thread that reads the standard input sends is what
    was typed, with escape sequences interpreted as [unescape] says, and the sizes
    of the window. *)

From S2P Require Import Prelude State CString CStringFacts AdbIO AdbIOFacts.
From S2P Require Import ShellService ShellClient ShellFacts.
Local Open Scope Z_scope.
Local Open Scope record_scope.

Module SES.
Import ShellProtocol SVC SP LP LO SSafe.

(** ** Packets in a stream *)

Abbreviation packet := (byte * bytes)%type.

Fixpoint wire (l : list packet) : bytes :=
  match l with [] => [] | (i, p) :: l => Shell.frame i p ++ wire l end.

(** What the packets of one kind carry. *)
Fixpoint payloads (i : byte) (l : list packet) : bytes :=
  match l with
  | [] => []
  | (j, p) :: l => (if bool_decide (j = i) then p else []) ++ payloads i l
  end.

Lemma wire_app l1 l2 : wire (l1 ++ l2) = wire l1 ++ wire l2.
Proof. induction l1 as [|[i p] l1 IH]; [done|]. simpl. by rewrite IH, <- app_assoc. Qed.
Lemma payloads_app i l1 l2 : payloads i (l1 ++ l2) = payloads i l1 ++ payloads i l2.
Proof. induction l1 as [|[j p] l1 IH]; [done|]. simpl. by rewrite IH, <- app_assoc. Qed.
Lemma wire_nil l : wire l = [] → l = [].
Proof. by destruct l as [|[i p] l]. Qed.

(** A stream of bytes, without an end or an error in it. *)
Definition solid (i : instream) : Prop := Forall (λ a, ∃ b bs, a = Data (b :: bs)) i.

Lemma solid_nil i : solid i → stream_data i = [] → i = [].
Proof. intros H. destruct H as [|a i (b & bs & ->) _]; done. Qed.

Lemma adb_read_solid i n r i' : 0 < n → solid i → adb_read i n = (r, i') → solid i'.
Proof.
  intros Hn H. destruct H as [|a i (b & bs & ->) H]; cbn -[Z.of_nat]; intros [= <- <-]; [constructor|].
  destruct (Z.ltb_spec (Z.min n MAX_RW_COUNT) (Z.of_nat (S (length bs)))) as [Hl|Hl]; [|done].
  constructor; [|done]. destruct (zdrop (Z.min n MAX_RW_COUNT) (b :: bs)) as [|c cs] eqn:E; [|by eauto].
  apply (f_equal length) in E. unfold zdrop in E. rewrite length_drop in E. simpl in E. lia.
Qed.

Lemma read_loop_solid fuel : ∀ i got n ok b i', solid i → read_loop fuel i got n = Ret (ok, b, i') → solid i'.
Proof.
  induction fuel as [|fuel IH]; intros i got n ok b i' Hs H; cbn [read_loop] in H.
  { destruct (0 <? n); [done|]. by injection H as _ _ <-. }
  destruct (Z.ltb_spec 0 n) as [Hn|]; [|by injection H as _ _ <-].
  destruct (adb_read i n) as [r i1] eqn:E. pose proof (adb_read_solid _ _ _ _ Hn Hs E).
  destruct r; [destruct (0 <? _); [by eapply IH|]|]; by injection H as _ _ <-.
Qed.

Lemma Read_solid p i ok p' i' : solid i → Read p i = Ret (ok, p', i') → solid i'.
Proof.
  intros Hs H. unfold Read in H. apply bind_ret_inv in H as ([[ok1 p1] i1] & E1 & H). cbv beta iota in H.
  assert (solid i1) as H1.
  { unfold read_header in E1. destruct (_ =? _); [|by injection E1 as _ _ <-].
    apply bind_ret_inv in E1 as ([[ok2 b2] i2] & E2 & E1). cbv beta iota in E1. assert (solid i2) by by eapply read_loop_solid.
    apply bind_ret_inv in E1 as (b3 & _ & E1). destruct (negb ok2); [by injection E1 as _ _ <-|].
    apply bind_ret_inv in E1 as (n & _ & E1). by injection E1 as _ _ <-. }
  destruct (negb ok1); [by injection H as _ _ <-|]. unfold read_data in H.
  apply bind_ret_inv in H as ([[ok2 b2] i2] & E2 & H). cbv beta iota in H.
  assert (solid i2).
  { destruct (negb _); [|by injection E2 as _ _ <-]. apply bind_ret_inv in E2 as ([[ok3 b3] i3] & E3 & E2). cbv beta iota in E2.
    apply bind_ret_inv in E2 as (b4 & _ & E2). injection E2 as _ _ <-. by eapply read_loop_solid. }
  destruct (negb ok2); by injection H as _ _ <-.
Qed.

(** ** Reading from the subprocess *)

(** Nothing follows the end or an error. *)
Fixpoint proper (i : instream) : Prop :=
  match i with
  | [] => True
  | Data (_ :: _) :: i => proper i
  | Fault EAGAIN :: i => proper i
  | _ :: i => i = []
  end.

Lemma adb_read_proper i n r i' :
  0 < n → proper i → adb_read i n = (r, i') →
  proper i' ∧
  match r with
  | ReadBytes [] => drained i = [] ∧ drained i' = []
  | ReadBytes bs => drained i = bs ++ drained i'
  | ReadError EAGAIN => drained i' = drained i
  | ReadError _ => drained i = [] ∧ drained i' = []
  end.
Proof.
  intros Hn Hp. destruct i as [|[[|b bs]|e] i]; cbn -[Z.of_nat].
  - by intros [= <- <-].
  - simpl in Hp. subst i. rewrite (proj2 (Z.ltb_ge _ _)) by (unfold MAX_RW_COUNT; simpl; lia). intros [= <- <-].
    assert (ztake (Z.min n MAX_RW_COUNT) (@nil byte) = []) as -> by apply take_nil. done.
  - set (m := Z.min n MAX_RW_COUNT). assert (0 < m) by (unfold m, MAX_RW_COUNT; lia). intros [= <- <-].
    pose proof (ztake_zdrop m (b :: bs)) as E.
    destruct (ztake m (b :: bs)) as [|c cs] eqn:Et.
    { unfold ztake in Et. destruct (Z.to_nat m) eqn:?; [lia|done]. }
    replace (b :: bs ++ drained i) with (((c :: cs) ++ zdrop m (b :: bs)) ++ drained i) by (by rewrite E).
    destruct (Z.ltb_spec m (Z.of_nat (S (length bs)))) as [Hl|Hl].
    + destruct (zdrop m (b :: bs)) as [|d ds] eqn:Ed.
      { apply (f_equal length) in Ed. unfold zdrop in Ed. rewrite length_drop in Ed. simpl in Ed. lia. }
      split; [exact Hp|]. by rewrite <- app_assoc.
    + rewrite zdrop_all in * by (simpl; lia). split; [exact Hp|]. by rewrite app_nil_r.
  - destruct e; simpl in Hp; [|subst i..]; by intros [= <- <-].
Qed.

(** ** Reading the packets of the client *)

Abbreviation STDIN := (Id_byte kIdStdin).
Abbreviation STDOUT := (Id_byte kIdStdout).
Abbreviation STDERR := (Id_byte kIdStderr).
Abbreviation EXIT := (Id_byte kIdExit).
Abbreviation CLOSE := (Id_byte kIdCloseStdin).
Abbreviation WINDOW := (Id_byte kIdWindowSizeChange).

(** Packets as the two ends send them: a window size fits the buffer and is
    terminated, an exit code is one byte, and nothing follows the end of the input. *)
Definition packet_ok (cap : Z) (x : packet) : Prop :=
  zlen x.2 < 2 ^ 32 ∧ (x.1 = WINDOW → zlen x.2 ≤ cap ∧ NUL ∈ x.2) ∧ (x.1 = CLOSE → x.2 = []) ∧
  (x.1 = EXIT → zlen x.2 = 1).
Fixpoint close_last (l : list packet) : Prop :=
  match l with [] => True | (i, _) :: l => (i = CLOSE → l = []) ∧ close_last l end.

(** The size of the window after the packets. *)
Definition window_step (w : option winsize) (x : packet) : option winsize :=
  if bool_decide (x.1 = WINDOW) then
    match sscanf_winsize (c_str x.2) with
    | Some (rows, cols, x_pixels, y_pixels) => Some (Winsize (u16 rows) (u16 cols) (u16 x_pixels) (u16 y_pixels))
    | None => w
    end
  else w.
Definition window_after (w : option winsize) (l : list packet) : option winsize := fold_left window_step l w.

(** The exit code after the packets. *)
Definition exit_step (code : Z) (x : packet) : Z :=
  if bool_decide (x.1 = EXIT) then match x.2 with b :: _ => byteZ b | [] => code end else code.
Definition exit_after (code : Z) (l : list packet) : Z := fold_left exit_step l code.

(** [body] is left of a packet [cur], and [l] follows. *)
Record incoming (cap : Z) (p : t) (i : instream) (cur : byte) (body : bytes) (l : list packet) : Prop := {
  ic_sane : sane cap p;
  ic_solid : solid i;
  ic_data : stream_data i = body ++ wire l;
  ic_left : bytes_left_ p = zlen body;
  ic_cur : body ≠ [] → ShellProtocol.id p = Ret cur ∧ cur ≠ WINDOW ∧ cur ≠ CLOSE ∧ cur ≠ EXIT;
  ic_packets : Forall (packet_ok cap) l;
  ic_close : close_last l
}.

Lemma zlen_data cap p : sane cap p → zlen (data p) = data_length_ p.
Proof.
  unfold sane, data, kHeaderSize. intros H. apply zlen_ztake. rewrite zlen_zdrop by lia. lia.
Qed.

(** One [Read]: a piece of the packet, and what is left. *)
Definition piece (p' : t) (cur : byte) (body : bytes) (l : list packet) (cur' : byte) (body' : bytes) (l' : list packet) : Prop :=
  ShellProtocol.id p' = Ret cur' ∧
  (∀ j, payloads j ((cur, body) :: l) = (if bool_decide (cur' = j) then data p' else []) ++ payloads j ((cur', body') :: l')) ∧
  (∀ w, window_after w l = window_after (window_step w (cur', data p')) l') ∧
  (∀ c, exit_after c l = exit_after (exit_step c (cur', data p')) l') ∧
  (cur' = WINDOW → NUL ∈ data p') ∧ (cur' = CLOSE → body' = [] ∧ l' = []) ∧ (cur' = EXIT → zlen (data p') = 1).

Lemma incoming_more cap p i cur body l :
  incoming cap p i cur body l → body ≠ [] →
  ∃ p' i' body', Read p i = Ret (true, p', i') ∧ incoming cap p' i' cur body' l ∧ piece p' cur body l cur body' l ∧
    (length (stream_data i') < length (stream_data i))%nat.
Proof.
  intros [Hs Hsol Hd Hl Hc Hp Hcl] Hb. destruct (Hc Hb) as (Hid & Hnw & Hnc & Hne). pose proof (sane_capacity _ _ Hs) as Hcap.
  assert (0 < zlen body) by (destruct body; [done|simpl; lia]).
  destruct (Shell.Read_more p i) as (p' & i' & E & Hw' & Hc' & Hh & Hdat & Hst & Hleft); [by eapply sane_wf|lia|rewrite Hd, length_app; lia|].
  rewrite Hcap, Hl in *. set (m := Z.min (zlen body) cap) in *. assert (0 ≤ m ≤ zlen body) by (unfold sane in Hs; lia).
  destruct (Read_total cap p i Hs) as (ok & p1 & i1 & E1 & Hs1). rewrite E in E1. injection E1 as <- <- <-.
  rewrite Hd, ztake_app_le in Hdat by lia. rewrite Hd, zdrop_app_le in Hst by lia.
  assert (ShellProtocol.id p' = Ret cur) as Hid'.
  { unfold ShellProtocol.id in *. destruct (buffer_ p), (buffer_ p'); try done. simpl in *. congruence. }
  exists p', i', (zdrop m body). split; [done|]. split.
  - constructor; try done; [by eapply Read_solid|]. rewrite zlen_zdrop by lia. lia.
  - unfold piece. split_and!; try done.
    + intros j. rewrite Hdat. simpl. case_bool_decide; [|done]. by rewrite app_assoc, ztake_zdrop.
    + intros w. unfold window_step. by rewrite bool_decide_false.
    + intros w. unfold exit_step. by rewrite bool_decide_false.
    + rewrite Hst, Hd, !length_app. unfold zdrop. rewrite length_drop. unfold sane in Hs. lia.
Qed.

Lemma incoming_start cap p i cur j q l :
  incoming cap p i cur [] ((j, q) :: l) →
  ∃ p' i' body', Read p i = Ret (true, p', i') ∧ incoming cap p' i' j body' l ∧ piece p' cur [] ((j, q) :: l) j body' l ∧
    (length (stream_data i') < length (stream_data i))%nat.
Proof.
  intros [Hs Hsol Hd Hl Hc Hp Hcl]. apply Forall_cons in Hp as [(Hq & Hwin & Hclo & Hex) Hp]. simpl in Hq, Hwin, Hclo, Hex, Hcl.
  destruct Hcl as [Hcl1 Hcl]. pose proof (sane_capacity _ _ Hs) as Hcap.
  destruct (Shell.Read_start p j (zlen q) (q ++ wire l) i) as (p' & i' & E & Hw' & Hc' & Hh & Hdat & Hst & Hleft).
  { by eapply sane_wf. } { by rewrite Hl. } { lia. } { by rewrite Hd. }
  { rewrite length_app. lia. }
  rewrite Hcap in *. set (m := Z.min (zlen q) cap) in *. assert (0 ≤ m ≤ zlen q) by (unfold sane in Hs; lia).
  destruct (Read_total cap p i Hs) as (ok & p1 & i1 & E1 & Hs1). rewrite E in E1. injection E1 as <- <- <-.
  rewrite ztake_app_le in Hdat by lia. rewrite zdrop_app_le in Hst by lia.
  assert (ShellProtocol.id p' = Ret j) as Hid' by by eapply Shell.id_of_header.
  assert (j = WINDOW → data p' = q ∧ zdrop m q = []) as Hwhole.
  { intros Hj. destruct (Hwin Hj) as [? _]. rewrite Hdat. split; [apply ztake_all|apply zdrop_all]; lia. }
  assert (j = CLOSE → zdrop m q = []) as Hempty.
  { intros Hj. rewrite (Hclo Hj). apply drop_nil. }
  assert (j = EXIT → data p' = q ∧ zdrop m q = []) as Hexit.
  { intros Hj. specialize (Hex Hj). rewrite Hdat. unfold sane in Hs. split; [apply ztake_all|apply zdrop_all]; lia. }
  exists p', i', (zdrop m q). split; [done|]. split.
  - constructor; try done; [by eapply Read_solid|rewrite zlen_zdrop by lia; lia|].
    intros Hb. split_and!; [done|intros Hj; by destruct (Hwhole Hj)|intros Hj; by rewrite (Hempty Hj) in Hb|intros Hj; by destruct (Hexit Hj)].
  - unfold piece. split_and!; try done.
    + intros k. rewrite Hdat. simpl.
      assert ((if bool_decide (cur = k) then [] else []) = @nil byte) as -> by (by case_bool_decide).
      case_bool_decide; [|done]. by rewrite (app_assoc (ztake m q)), ztake_zdrop.
    + intros w. simpl. f_equal. unfold window_step. simpl. case_bool_decide as Hj; [|done]. by destruct (Hwhole Hj) as [-> _].
    + intros w. simpl. f_equal. unfold exit_step. simpl. case_bool_decide as Hj; [|done]. by destruct (Hexit Hj) as [-> _].
    + intros Hj. destruct (Hwhole Hj) as [-> _]. by apply Hwin.
    + intros Hj. auto.
    + intros Hj. destruct (Hexit Hj) as [-> _]. auto.
    + rewrite Hst, Hd. simpl. rewrite !length_app. unfold zdrop. rewrite length_drop. lia.
Qed.

Lemma incoming_read cap p i cur body l :
  incoming cap p i cur body l → i ≠ [] →
  ∃ p' i' cur' body' l', Read p i = Ret (true, p', i') ∧ incoming cap p' i' cur' body' l' ∧ piece p' cur body l cur' body' l' ∧
    (length (stream_data i') < length (stream_data i))%nat.
Proof.
  intros H Hi. destruct (decide (body = [])) as [->|Hb].
  - destruct l as [|[j q] l]; [|destruct (incoming_start _ _ _ _ _ _ _ H) as (? & ? & ? & ?); eauto 10].
    destruct Hi. apply solid_nil; [by destruct H|]. by rewrite (ic_data _ _ _ _ _ _ H).
  - destruct (incoming_more _ _ _ _ _ _ H Hb) as (? & ? & ? & ?). eauto 10.
Qed.

(** ** The invariant *)

(** The subprocess takes its input, in pieces of any size. *)
Definition takes (o : outstream) : Prop :=
  Forall (λ a, match a with Accept n => 0 < n | Reject e => e = EAGAIN end) (o_script o).

Lemma adb_write_takes o p r o' :
  takes o → p ≠ [] → adb_write o p = (r, o') →
  takes o' ∧
  match r with
  | Wrote n => 0 < n ≤ zlen p ∧ o_written o' = o_written o ++ ztake n p
  | WriteError e => e = EAGAIN ∧ o_written o' = o_written o
  end.
Proof.
  intros Ht Hp. assert (0 < zlen p) by (destruct p; [done|simpl; lia]). unfold takes, adb_write in *.
  destruct (o_script o) as [|[n|e] l]; cbn [o_script o_written]; intros E; simplify_eq/=; try apply Forall_cons in Ht as [Hh Ht].
  - split; [done|]. split; [unfold MAX_RW_COUNT; lia|done].
  - split; [done|]. split; [unfold MAX_RW_COUNT; lia|done].
  - done.
Qed.

(** The part of the current packet that has not been written. *)
Definition pending (s : service) : bytes :=
  ztake (input_bytes_left_ s)
    (zdrop (kHeaderSize + (data_length_ (input_ s) - input_bytes_left_ s)) (buffer_ (input_ s))).

Lemma zlen_pending cap s :
  sane cap (input_ s) → 0 ≤ input_bytes_left_ s ≤ data_length_ (input_ s) → zlen (pending s) = input_bytes_left_ s.
Proof.
  unfold sane, pending, kHeaderSize. intros Hs Hl. apply zlen_ztake. rewrite zlen_zdrop by lia. lia.
Qed.

Lemma pending_drop n s :
  0 ≤ n ≤ input_bytes_left_ s → input_bytes_left_ s ≤ data_length_ (input_ s) →
  pending (s <| input_bytes_left_ := input_bytes_left_ s - n |>) = zdrop n (pending s).
Proof.
  intros Hn Hl. unfold pending. cbn. unfold kHeaderSize. set (L := input_bytes_left_ s) in *. set (D := data_length_ _) in *.
  replace (5 + (D - (L - n))) with (5 + (D - L) + n) by lia.
  rewrite <- zdrop_zdrop by lia. rewrite ztake_zdrop_swap by lia. do 3 f_equal. lia.
Qed.

(** What the subprocess has yet to say. *)
Definition to_come (d : sfd) (s : service) : bytes :=
  if get_sfd d s =? -1 then []
  else match d with stdinout_sfd => drained (child_out s) | stderr_sfd => drained (child_err s) | protocol_sfd => [] end.

(** The connection lasts, and [poll] works. *)
Definition poll_fine (r : poll_result) : Prop :=
  match r with PollError => False | Ready _ _ c => f_err c = false | PollIntr => True end.

Section session.
Context (cap : Z) (OUT ERR IN C0 : bytes) (W : option winsize).

(** [l] are the packets of the client that have not been read. *)
Definition fed (s : service) (cur : byte) (body : bytes) (l : list packet) : Prop :=
  incoming cap (input_ s) (client_in s) cur body l ∧
  o_written (child_in s) `prefix_of` IN ∧
  (stdin_shut s = true → input_bytes_left_ s = 0 ∧ payloads STDIN ((cur, body) :: l) = []) ∧
  (is_open s stdinout_sfd →
     o_written (child_in s) ++ pending s ++ payloads STDIN ((cur, body) :: l) = IN ∧
     (type_ s = kPty → window_after (window s) l = W)).

Record sess (s : service) : Prop := {
  ss_conn : is_open s protocol_sfd;
  ss_output : sane cap (output_ s);
  ss_left : 0 ≤ input_bytes_left_ s ≤ data_length_ (input_ s);
  ss_client : accepts (client_out s);
  ss_child : takes (child_in s);
  ss_proper : proper (child_out s) ∧ proper (child_err s);
  ss_polls : Forall poll_fine (polls s);
  ss_shutdowns : Forall (λ b, b = true) (shutdowns s);
  ss_log : ∃ log, o_written (client_out s) = C0 ++ wire log ∧
    Forall (λ x, (x.1 = STDOUT ∨ x.1 = STDERR) ∧ zlen x.2 ≤ cap) log ∧
    payloads STDOUT log ++ to_come stdinout_sfd s = OUT ∧ payloads STDERR log ++ to_come stderr_sfd s = ERR;
  ss_fed : ∃ cur body l, fed s cur body l
}.

(** A pipe is closed only when all has been read, and the connection never. *)
Definition spent (s : service) (d : sfd) : Prop :=
  is_open s d ∧ d ≠ protocol_sfd ∧ to_come d s = [].

Lemma sess_write s :
  sess s → (input_bytes_left_ s ≠ 0 → is_open s stdinout_sfd) →
  wp write_input (λ r s', sess s' ∧ r = None) s.
Proof.
  intros Hs Ho. pose proof Hs as [Hcn So Hl Hc Ht Hp Hq Hsh Hlog (cur & body & l & Hin & Hpre & Hshut & Hfed)].
  unfold write_input. st_go. destruct (Z.ltb_spec 0 (input_bytes_left_ s)) as [Hn|Hn]; st_go; [|done].
  change (ztake _ _) with (pending s). specialize (Ho ltac:(lia)).
  pose proof (zlen_pending cap s (ic_sane _ _ _ _ _ _ Hin) Hl) as Hzl.
  unfold wp at 1, write_child. rewrite (proj2 (Z.eqb_neq (stdinout_sfd_ s) (-1)) Ho).
  destruct (stdin_shut s) eqn:Hx; [destruct (Hshut eq_refl); lia|].
  destruct (adb_write (child_in s) (pending s)) as [r o] eqn:E.
  destruct (adb_write_takes _ _ _ _ Ht ltac:(intros Hz; rewrite Hz in Hzl; simpl in Hzl; lia) E) as [Ht' Hr].
  destruct (Hfed Ho) as [Heq Hwin].
  destruct r as [n|e].
  - destruct Hr as [Hn' Hw]. destruct n as [|n|]; [lia| |lia]. st_go. split; [|done].
    constructor; try done; [cbn; lia|]. exists cur, body, l. split_and!; try done; cbn.
    + rewrite Hw. rewrite <- Heq. apply prefix_app, prefix_app_r. rewrite <- (ztake_zdrop (Z.pos n) (pending s)) at 2. by apply prefix_app_r.
    + by rewrite Hx.
    + intros _. split; [|done]. rewrite Hw, <- Heq, <- !app_assoc. f_equal. rewrite app_assoc. f_equal.
      rewrite <- (ztake_zdrop (Z.pos n) (pending s)) at 2. f_equal. apply (pending_drop (Z.pos n) s); lia.
  - destruct Hr as [-> Hw]. st_go. split; [|done]. constructor; try done. exists cur, body, l. unfold fed. cbn. rewrite Hw, Hx. by split_and!.
Qed.
(** What reading a piece leaves to do. *)
Lemma fed_step s p' i' cur body l cur' body' l' :
  fed s cur body l → input_bytes_left_ s = 0 → incoming cap p' i' cur' body' l' → piece p' cur body l cur' body' l' →
  let s1 := s <| input_ := p' |> <| client_in := i' |> in
  (stdin_shut s = true → payloads STDIN ((cur', body') :: l') = [] ∧ (cur' = STDIN → data p' = [])) ∧
  (is_open s stdinout_sfd →
     (cur' = STDIN → o_written (child_in s) ++ data p' ++ payloads STDIN ((cur', body') :: l') = IN) ∧
     (cur' ≠ STDIN → o_written (child_in s) ++ payloads STDIN ((cur', body') :: l') = IN) ∧
     (type_ s = kPty → window_after (window_step (window s) (cur', data p')) l' = W)).
Proof.
  intros (Hin & Hpre & Hshut & Hopen) H0 Hin' (Hid & Hpay & Hwin & _ & Hnul & Hclose & _) s1. rewrite Hpay in Hshut, Hopen. split.
  - intros Hs. destruct (Hshut Hs) as [_ [Hd Hr]%app_eq_nil]. split; [done|]. intros Hc. by rewrite bool_decide_true in Hd.
  - intros Ho. destruct (Hopen Ho) as [He Hw]. assert (pending s = []) as Hp by (unfold pending; by rewrite H0, ztake_0).
    rewrite Hp in He. split_and!.
    + intros Hc. by rewrite bool_decide_true in He.
    + intros Hc. by rewrite bool_decide_false in He.
    + intros Ht. rewrite <- Hwin. by apply Hw.
Qed.

Lemma c_str_terminated q r : NUL ∈ q → c_str (q ++ r) = c_str q.
Proof.
  induction q as [|b q IH]; [by intros ?%elem_of_nil|]. intros [<-|H]%elem_of_cons; [done|]. simpl. by rewrite IH.
Qed.

(** The state after reading a packet: [J] says what it means for the input. *)
Lemma sess_packet s p' i' cur body l cur' body' l' :
  sess s → fed s cur body l → input_bytes_left_ s = 0 → is_open s stdinout_sfd →
  incoming cap p' i' cur' body' l' → piece p' cur body l cur' body' l' →
  wp handle_packet_id (λ r s', sess s' ∧ (r = None ∨ r = Some None) ∧ is_open s' stdinout_sfd) (s <| input_ := p' |> <| client_in := i' |>).
Proof.
  intros Hs Hf H0 Ho Hin' Hpc. pose proof Hs as [Hcn So Hl Hc Ht Hp Hq Hsh Hlog _].
  pose proof (fed_step _ _ _ _ _ _ _ _ _ Hf H0 Hin' Hpc) as [Hshut Hfed]. destruct (Hfed Ho) as (He1 & He2 & Hw).
  pose proof Hf as (_ & Hpre & _). destruct Hpc as (Hid & _ & _ & _ & Hnul & Hclose & _).
  pose proof (ic_sane _ _ _ _ _ _ Hin') as Hsane. assert (0 ≤ data_length_ p') by (unfold sane in Hsane; lia).
  set (s1 := s <| input_ := p' |> <| client_in := i' |>).
  assert (pending s1 = []) as Hpen by (unfold pending, s1; cbn; by rewrite H0, ztake_0).
  assert (cur' ≠ STDIN → ∀ w, (type_ s = kPty → w = window_step (window s) (cur', data p')) → sess (s1 <| window := w |>)) as Hother.
  { intros Hn w Ew. constructor; try done; [cbn; lia|]. exists cur', body', l'. split_and!; try done; cbn.
    - intros Hx. split; [done|]. by apply Hshut.
    - intros _. split; [change (pending _) with (pending s1); rewrite Hpen; by apply He2|].
      intros Hty. rewrite Ew by done. by apply Hw. }
  unfold handle_packet_id. st_go. change (input_ s1) with p'. eapply wp_lift; [exact Hid|].
  case_bool_decide as C1; [|case_bool_decide as C2; [|case_bool_decide as C3]].
  - st_go. change (input_ s1) with p'. specialize (Hnul C1). eapply wp_lift; [by apply c_str_of_buffer_ok, data_in_buffer|].
    assert (c_str (zdrop kHeaderSize (buffer_ p')) = c_str (data p')) as ->.
    { unfold data. rewrite <- (ztake_zdrop (data_length_ p') (zdrop kHeaderSize (buffer_ p'))) at 1. by apply c_str_terminated. }
    specialize (Hother ltac:(by rewrite C1)). unfold window_step in Hother. cbn in Hother. rewrite bool_decide_true in Hother by done.
    destruct (sscanf_winsize (c_str (data p'))) as [[[[a b] c] d]|]; st_go.
    + unfold set_window. st_go. split_and!; [|by left|by case_bool_decide]. change (type_ s1) with (type_ s).
      case_bool_decide as Hty; [by apply Hother|]. apply (Hother (window s)). by intros ?.
    + split_and!; [|by left|done]. by apply (Hother (window s)).
  - st_go. split_and!; [|by left|done]. constructor; try done. exists cur', body', l'. split_and!; try done; cbn.
    + intros Hx. destruct (Hshut Hx) as [? Hd]. split; [|done]. rewrite <- (zlen_data cap) by done. by rewrite Hd.
    + intros _. split.
      * rewrite <- He1 by done. do 2 f_equal. unfold pending. cbn. by rewrite Z.sub_diag.
      * intros Hty. specialize (Hw Hty). unfold window_step in Hw. cbn in Hw. by rewrite bool_decide_false in Hw.
  - specialize (Hother ltac:(by rewrite C3) (window s)).
    assert (sess s1) as H1. { apply Hother. intros _. unfold window_step. cbn. by rewrite bool_decide_false. }
    st_go. case_bool_decide; st_go; [|by split_and!; [|left|]].
    destruct (Hclose C3) as [-> ->]. unfold shutdown_child. st_go.
    assert (default true (head (shutdowns s)) = true ∧ Forall (λ b, b = true) (tail (shutdowns s))) as [Hdef Htl].
    { destruct Hsh; [done|]. done. }
    change (shutdowns s1) with (shutdowns s). rewrite Hdef. st_go. split_and!; [|by right|done].
    destruct H1 as [? ? ? ? ? ? ? ? ? _]. constructor; try done. exists cur', [], []. split_and!; try done; cbn.
    + intros _. by case_bool_decide.
    + intros _. split; [change (pending _) with (pending s1); rewrite Hpen; apply He2; by rewrite C3|].
      intros Hty. specialize (Hw Hty). unfold window_step in Hw. cbn in Hw. by rewrite bool_decide_false in Hw.
  - st_go. split_and!; [|by left|done]. apply (Hother C2 (window s)). intros _. unfold window_step. cbn. by rewrite bool_decide_false.
Qed.
Lemma sess_input s :
  sess s → (input_bytes_left_ s = 0 ∧ client_in s ≠ []) ∨ (input_bytes_left_ s ≠ 0 ∧ get_sfd stdinout_sfd s ≠ -1) →
  get_sfd protocol_sfd s ≠ -1 →
  wp PassInput (λ r s', sess s' ∧ (∀ d', r = Some d' → spent s' d') ∧ ∀ d', spent s d' → spent s' d') s.
Proof.
  intros Hs Hpre _.
  apply (wp_mono _ (λ r s', input_effect s s' ∧ sess s' ∧ r = None)); cycle 1.
  { intros r s' (((_ & _ & Kd & _) & Eo & Ee & _) & H & ->). split_and!; [done..|].
    intros d'. unfold spent, is_open, to_come. by rewrite Kd, Eo, Ee. }
  apply wp_partial_and; [|apply PassInput_effect].
  unfold PassInput. st_go. destruct (Z.eqb_spec (input_bytes_left_ s) 0) as [H0|H0]; cycle 1.
  { apply sess_write; [done|]. intros _. by destruct Hpre as [[]|[]]. }
  destruct Hpre as [[_ Hne]|[]]; [|done]. st_go.
  pose proof Hs as [Hcn So Hl Hc Ht Hp Hq Hsh Hlog (cur & body & l & Hf)]. pose proof Hf as (Hin & Hpre & _).
  destruct (incoming_read _ _ _ _ _ _ Hin Hne) as (p' & i' & cur' & body' & l' & E & Hin' & Hpc & _).
  unfold wp at 1, input_read. rewrite E. mstep. cbv beta iota. cbn [negb]. st_go.
  set (s1 := s <| input_ := p' |> <| client_in := i' |>). change (stdinout_sfd_ s1) with (stdinout_sfd_ s).
  destruct (Z.eqb_spec (stdinout_sfd_ s) (-1)) as [Hx|Hx]; cbn [negb]; st_go.
  - apply sess_write; [|by intros []]. pose proof (ic_sane _ _ _ _ _ _ Hin') as Hsane. constructor; try done.
    + cbn. unfold sane in Hsane. lia.
    + exists cur', body', l'. split_and!; try done; cbn.
      intros Hy. split; [done|]. by apply (fed_step _ _ _ _ _ _ _ _ _ Hf H0 Hin' Hpc).
  - eapply wp_mono; [by eapply sess_packet|]. intros r s2 (H2 & [->| ->] & Ho2); [|by st_go]. by apply sess_write.
Qed.

Lemma sess_log s s' d i bs :
  sess s → (d, i) = (stdinout_sfd, kIdStdout) ∨ (d, i) = (stderr_sfd, kIdStderr) →
  o_written (client_out s') = o_written (client_out s) ++ wire (if bool_decide (bs = []) then [] else [(Id_byte i, bs)]) →
  zlen bs ≤ cap → to_come d s = bs ++ to_come d s' → (∀ d', d' ≠ d → to_come d' s' = to_come d' s) →
  ∃ log, o_written (client_out s') = C0 ++ wire log ∧
    Forall (λ x, (x.1 = STDOUT ∨ x.1 = STDERR) ∧ zlen x.2 ≤ cap) log ∧
    payloads STDOUT log ++ to_come stdinout_sfd s' = OUT ∧ payloads STDERR log ++ to_come stderr_sfd s' = ERR.
Proof.
  intros Hs Hdi Hw Hl Hd Hd'. destruct Hs as [_ _ _ _ _ _ _ _ (log & E & Hf & H1 & H2) _].
  exists (log ++ if bool_decide (bs = []) then [] else [(Id_byte i, bs)]). rewrite !payloads_app, <- !app_assoc.
  split_and!.
  - by rewrite Hw, E, wire_app, <- app_assoc.
  - apply Forall_app; split; [done|]. case_bool_decide; [done|].
    apply Forall_singleton. split; [|done]. simpl. destruct Hdi as [[= _ ->]|[= _ ->]]; auto.
  - destruct Hdi as [[= -> ->]|[= -> ->]].
    + rewrite <- H1, Hd. f_equal. case_bool_decide as Hb; [by rewrite Hb|]. simpl. by rewrite app_nil_r.
    + rewrite <- H1, Hd' by done. case_bool_decide; simpl; by rewrite ?app_nil_l.
  - destruct Hdi as [[= -> ->]|[= -> ->]].
    + rewrite <- H2, Hd' by done. case_bool_decide; simpl; by rewrite ?app_nil_l.
    + rewrite <- H2, Hd. f_equal. case_bool_decide as Hb; [by rewrite Hb|]. simpl. by rewrite app_nil_r.
Qed.
(** A state that differs in the output only. *)
Definition same_input (s s' : service) : Prop :=
  input_ s' = input_ s ∧ client_in s' = client_in s ∧ child_in s' = child_in s ∧ stdin_shut s' = stdin_shut s ∧
  input_bytes_left_ s' = input_bytes_left_ s ∧ window s' = window s ∧ type_ s' = type_ s ∧
  (∀ d, get_sfd d s' = get_sfd d s) ∧ polls s' = polls s ∧ shutdowns s' = shutdowns s.

Lemma sess_change s s' d i bs :
  sess s → same_input s s' → (d, i) = (stdinout_sfd, kIdStdout) ∨ (d, i) = (stderr_sfd, kIdStderr) →
  sane cap (output_ s') → accepts (client_out s') → proper (child_out s') ∧ proper (child_err s') →
  o_written (client_out s') = o_written (client_out s) ++ wire (if bool_decide (bs = []) then [] else [(Id_byte i, bs)]) →
  zlen bs ≤ cap → to_come d s = bs ++ to_come d s' → (∀ d', d' ≠ d → to_come d' s' = to_come d' s) → sess s'.
Proof.
  intros Hs (E1 & E2 & E3 & E4 & E5 & E6 & E7 & E8 & E9 & E10) Hdi So Ha Hp Hw Hl Hd Hd'.
  pose proof (sess_log s s' d i bs Hs Hdi Hw Hl Hd Hd') as Hlog. destruct Hs as [? _ ? _ ? _ ? ? _ (cur & body & l & Hf)].
  constructor; rewrite ?E1, ?E2, ?E3, ?E5, ?E9, ?E10; try done; [by unfold is_open; rewrite E8|].
  exists cur, body, l. unfold fed, pending, is_open in *. by rewrite E1, E2, E3, E4, E5, E6, E7, E8.
Qed.

(** What a read of the subprocess's output gives. *)
Definition read_gives (s : service) (d : sfd) (r : read_result) (s1 : service) : Prop :=
  same_input s s1 ∧ output_ s1 = output_ s ∧ client_out s1 = client_out s ∧ proper (child_out s1) ∧ proper (child_err s1) ∧
  (∀ d', d' ≠ d → to_come d' s1 = to_come d' s) ∧
  match r with
  | ReadBytes [] => to_come d s = [] ∧ to_come d s1 = []
  | ReadBytes bs => to_come d s = bs ++ to_come d s1 ∧ zlen bs ≤ cap
  | ReadError EAGAIN => to_come d s1 = to_come d s
  | ReadError _ => to_come d s = [] ∧ to_come d s1 = []
  end.

Lemma sess_read s d :
  sess s → d ≠ protocol_sfd → is_open s d → wp (read_child d cap) (read_gives s d) s.
Proof.
  intros Hs Hd Ho. destruct (ss_proper _ Hs) as [P1 P2]. assert (0 < cap) as Hc by (pose proof (ss_output _ Hs) as H; unfold sane in H; lia).
  apply read_child_wp; [done..| |]; intros r i -> E.
  - destruct (adb_read_proper _ _ _ _ Hc P1 E) as [Hp Hr].
    split_and!; try done; [intros []; done|]. unfold to_come. cbn. rewrite (proj2 (Z.eqb_neq (stdinout_sfd_ s) (-1)) Ho).
    destruct r as [[|b bs]|[]]; try done. split; [done|]. by eapply adb_read_le.
  - destruct (adb_read_proper _ _ _ _ Hc P2 E) as [Hp Hr].
    split_and!; try done; [intros []; done|]. unfold to_come. cbn. rewrite (proj2 (Z.eqb_neq (stderr_sfd_ s) (-1)) Ho).
    destruct r as [[|b bs]|[]]; try done. split; [done|]. by eapply adb_read_le.
Qed.

Lemma sess_output s d i :
  sess s → (d, i) = (stdinout_sfd, kIdStdout) ∨ (d, i) = (stderr_sfd, kIdStderr) → get_sfd d s ≠ -1 →
  get_sfd protocol_sfd s ≠ -1 →
  wp (PassOutput d i) (λ r s', sess s' ∧ (∀ d', r = Some d' → spent s' d') ∧ ∀ d', d' ≠ d → spent s d' → spent s' d') s.
Proof.
  intros Hs Hdi Ho _. pose proof (ss_output _ Hs) as So. assert (d ≠ protocol_sfd) as Hd by (destruct Hdi as [[= -> _]|[= -> _]]; done).
  assert (∀ s1, same_input s s1 → output_ s1 = output_ s → client_out s1 = client_out s → proper (child_out s1) ∧ proper (child_err s1) →
    (∀ d', d' ≠ d → to_come d' s1 = to_come d' s) → to_come d s1 = to_come d s → sess s1) as Hsame.
  { intros s1 H1 E1 E2 Hp Hn Hdd. eapply (sess_change s s1 d i []); try done; rewrite ?E1, ?E2; try done.
    - by apply Hs.
    - by rewrite bool_decide_true, app_nil_r.
    - simpl. unfold sane in So. lia. }
  apply (wp_mono _ (λ r s', sess s' ∧ (∀ d', get_sfd d' s' = get_sfd d' s) ∧ (∀ d', d' ≠ d → to_come d' s' = to_come d' s) ∧
    (r = None ∨ (r = Some d ∧ to_come d s' = [])))); cycle 1.
  { intros r s' (H & Hg & Hn & Hr). unfold spent, is_open. split_and!; [done| |].
    - intros d' ->. rewrite Hg. by destruct Hr as [|[[= ->] ?]].
    - intros d' Hd'. rewrite Hg, Hn by done. done. }
  unfold PassOutput. st_go. rewrite (sane_capacity cap) by done.
  eapply wp_mono; [by apply sess_read|]. intros r s1 (Hsi & E1 & E2 & P1 & P2 & Hn & Hr). pose proof Hsi as (_ & _ & _ & _ & _ & _ & _ & Hg & _ & _).
  destruct r as [[|b bs]|[]].
  - st_go. destruct Hr as [Hr1 Hr2]. split_and!; auto. apply Hsame; auto. congruence.
  - destruct Hr as [Hr Hl].
    destruct (send_frame cap (output_ s1) (client_out s1) i (b :: bs)) as (p0 & p1 & o' & Ef & Ew & Hp1 & _ & Ha & Hw).
    { by rewrite E1. } { done. } { rewrite E2. by apply Hs. }
    st_go. unfold wp at 1, output_fill. rewrite Ef. mstep. cbv beta iota. st_go. unfold wp at 1, output_write.
    change (output_ (s1 <| output_ := p0 |>)) with p0. change (client_out (s1 <| output_ := p0 |>)) with (client_out s1). rewrite Ew. mstep. st_go. split_and!; auto.
    eapply (sess_change s _ d i (b :: bs)); try done.
    cbn. rewrite Hw, E2. simpl. by rewrite app_nil_r.
  - st_go. split_and!; auto.
  - st_go. destruct Hr as [Hr1 Hr2]. split_and!; auto. apply Hsame; auto. congruence.
  - st_go. destruct Hr as [Hr1 Hr2]. split_and!; auto. apply Hsame; auto. congruence.
Qed.
Lemma sess_poll s :
  sess s → polling s →
  wp adb_poll (λ r s', sess s' ∧ (r = PollFailed → sess (s' <| stdinout_sfd_ := -1 |> <| stderr_sfd_ := -1 |>)) ∧
    (r = PollOk → ∀ d, get_sfd d s' ≠ -1 → finished s' d → spent s' d)) s.
Proof.
  intros Hs Hp. pose proof (ss_polls _ Hs) as Hq.
  assert (∀ p, sess (s <| polls ::= tail |> <| pfds := p |>)) as Htail.
  { intros p. destruct Hs. constructor; try done. cbn. by destruct Hq. }
  assert (∀ a b c, f_err c = false → let s' := s <| polls ::= tail |>
      <| pfds ::= λ p,
           Pfds (reported (stdinout_pfd p) a true (has_data (child_out s)))
                (reported (stderr_pfd p) b true (has_data (child_err s)))
                (reported (protocol_pfd p) c (negb (bool_decide (client_in s = []))) (has_data (client_in s))) |> in
      ∀ d, get_sfd d s' ≠ -1 → finished s' d → spent s' d) as Hfin.
  { intros a b c Hc s' d Ho Hf. pose proof (po_fd _ Hp d) as [Hfd Hge].
    assert (get_sfd d s ≠ -1) as Ho' by (by destruct d). pose proof (po_in _ Hp d) as Hi.
    assert ((fd (pfd_of d (pfds s)) <? 0) = false) as Hz by (rewrite Hfd; apply Z.ltb_ge; lia).
    unfold finished, poll_finished in Hf. apply andb_true_iff in Hf as [Hf1 Hf2].
    unfold spent, is_open, to_come. split; [done|]. rewrite (proj2 (Z.eqb_neq _ _) Ho).
    destruct d; simpl in Hf1, Hf2, Hz; rewrite Hz in Hf1, Hf2; simpl in Hf1, Hf2; [| |congruence].
    - specialize (Hi ltac:(done) Ho'). simpl in Hi. rewrite Hi, Hf2 in Hf1. simpl in Hf1.
      split; [done|]. apply (drained_has_data (child_out s)). by destruct (has_data (child_out s)); [rewrite orb_true_r in Hf1|].
    - specialize (Hi ltac:(done) Ho'). simpl in Hi. rewrite Hi, Hf2 in Hf1. simpl in Hf1.
      split; [done|]. apply (drained_has_data (child_err s)). by destruct (has_data (child_err s)); [rewrite orb_true_r in Hf1|]. }
  unfold wp, adb_poll. destruct (polls s) as [|[| |a b c] l] eqn:E.
  - split_and!; [apply Htail|done|]. intros _. by apply Hfin.
  - split_and!; [exact (Htail (pfds s))|done..].
  - apply Forall_cons in Hq as [[] _].
  - apply Forall_cons in Hq as [Hc _]. split_and!; [apply Htail|done|]. intros _. by apply Hfin.
Qed.

Lemma sess_close s d : sess s → spent s d → sess (closed d s).
Proof.
  intros Hs (Ho & Hd & Hc). destruct Hs as [? ? ? ? ? ? ? ? (log & E & Hf & H1 & H2) (cur & body & l & Hin & Hpre & Hsh & Hfed)].
  unfold closed. rewrite bool_decide_false by done.
  assert (∀ d', to_come d' (reset_sfd d s) = to_come d' s) as Hto.
  { intros d'. destruct (decide (d' = d)) as [->|Hn]; [rewrite Hc; by destruct d|]. by destruct d, d'. }
  constructor; try (by destruct d).
  - exists log. rewrite !Hto. by destruct d.
  - exists cur, body, l. destruct d; (split_and!; [done..|]); done.
Qed.

#[global] Instance sess_passing : Passing sess spent.
Proof.
  split.
  - intros s Hs. pose proof (ss_output _ Hs) as So. rewrite (sane_capacity cap) by done. unfold sane in So. lia.
  - by intros s d [].
  - intros s p []. by constructor.
  - intros s p d (? & ? & ?). unfold spent, is_open, to_come in *. by destruct d.
  - apply sess_output.
  - apply sess_input.
  - apply sess_poll.
  - apply sess_close.
Qed.
End session.

(** ** A whole session *)

(** A [Subprocess] with a client that will send the packets [l] and stays connected;
    [poll] works and the subprocess takes its input. *)
Record connected (cap : Z) (s : service) (l : list packet) : Prop := {
  cn_input : sane cap (input_ s) ∧ bytes_left_ (input_ s) = 0 ∧ input_bytes_left_ s = 0;
  cn_output : sane cap (output_ s);
  cn_fds : 2 < stdinout_sfd_ s ∧ 2 < protocol_sfd_ s ∧ (stderr_sfd_ s = -1 ∨ 2 < stderr_sfd_ s);
  cn_distinct : stdinout_sfd_ s ≠ stderr_sfd_ s ∧ stdinout_sfd_ s ≠ protocol_sfd_ s ∧ stderr_sfd_ s ≠ protocol_sfd_ s;
  cn_client_in : solid (client_in s) ∧ stream_data (client_in s) = wire l;
  cn_packets : Forall (packet_ok cap) l ∧ close_last l;
  cn_client_out : accepts (client_out s);
  cn_child_in : takes (child_in s) ∧ stdin_shut s = false;
  cn_child_out : proper (child_out s) ∧ proper (child_err s);
  cn_kernel : Forall poll_fine (polls s) ∧ Forall (λ b, b = true) (shutdowns s)
}.

Lemma connected_started cap s l : connected cap s l → started s.
Proof. intros []. constructor; [by exists cap; split; [apply cn_input0|]|by apply cn_input0|done..]. Qed.

Lemma connected_sess cap s l :
  connected cap s l →
  sess cap (to_come stdinout_sfd s) (to_come stderr_sfd s) (o_written (child_in s) ++ payloads STDIN l)
    (o_written (client_out s)) (window_after (window s) l) s.
Proof.
  intros [[Hi [Hb Hl]] Ho Hf Hd [Hs Hst] [Hp Hc] Hco [Ht Hsh] Hpr [Hq Hsd]]. constructor; try done.
  - unfold is_open. simpl. lia.
  - rewrite Hl. unfold sane in Hi. lia.
  - exists []. simpl. by rewrite app_nil_r.
  - assert (pending s = []) as Hpen by (unfold pending; by rewrite Hl, ztake_0).
    exists STDIN, [], l. split_and!; [by constructor|by apply prefix_app_r|by rewrite Hsh|]. intros _. by rewrite Hpen.
Qed.

(** What the service sends: the output of the subprocess, in pieces, and the exit
    code. *)
Lemma device_session cap s l code :
  connected cap s l → (if pid_ s =? -1 then Ret 1 else wait_loop (waits s)) = Ret code →
  ∃ s' log, ThreadHandler s = Ret (tt, s') ∧
    o_written (client_out s') = o_written (client_out s) ++ wire (log ++ [(EXIT, [Zbyte code])]) ∧
    Forall (λ x, (x.1 = STDOUT ∨ x.1 = STDERR) ∧ zlen x.2 ≤ cap) log ∧
    payloads STDOUT log = to_come stdinout_sfd s ∧ payloads STDERR log = to_come stderr_sfd s ∧
    o_written (child_in s') `prefix_of` o_written (child_in s) ++ payloads STDIN l.
Proof.
  intros Hc Hw. pose proof (connected_sess _ _ _ Hc) as HI. destruct (started_fds s (connected_started _ _ _ Hc)) as (H1 & H2 & H3 & H4).
  set (OUT := to_come stdinout_sfd s) in *. set (ERR := to_come stderr_sfd s) in *.
  assert (wp ThreadHandler (λ _ s', ∃ log,
    o_written (client_out s') = o_written (client_out s) ++ wire (log ++ [(EXIT, [Zbyte code])]) ∧
    Forall (λ x, (x.1 = STDOUT ∨ x.1 = STDERR) ∧ zlen x.2 ≤ cap) log ∧
    payloads STDOUT log = OUT ∧ payloads STDERR log = ERR ∧
    o_written (child_in s') `prefix_of` o_written (child_in s) ++ payloads STDIN l) s) as H; cycle 1.
  { apply wp_run in H as ([] & s' & E & log & H). eauto 10. }
  unfold ThreadHandler. st_go.
  eapply wp_mono; [apply (PassDataStreams_spec _ spent s HI H1 H2 H3 H4); by apply Hc|].
  intros _ s1 (HI1 & [HT HP] & E1 & E2). destruct HI1 as [Hcn So _ Ha _ _ _ _ (log & El & Hf & HO & HE) (cur & body & l' & _ & Hpre & _)].
  unfold to_come in HO, HE. cbn [get_sfd] in HO, HE. rewrite E1 in HO. rewrite E2 in HE. cbn in HO, HE. rewrite app_nil_r in HO, HE.
  unfold WaitForExit. st_go. rewrite HT, HP. eapply wp_lift; [exact Hw|]. st_go.
  rewrite (proj2 (Z.eqb_neq (protocol_sfd_ s1) (-1)) Hcn). cbn [negb]. st_go.
  destruct (send_frame cap (output_ s1) (client_out s1) kIdExit [Zbyte code]) as (p0 & p1 & o' & Ef & Ew & _ & _ & _ & Hw').
  { done. } { unfold sane in So. simpl. lia. } { done. }
  unfold wp at 1, output_fill. rewrite Ef. mstep. cbv beta iota. st_go. unfold wp at 1, output_write.
  change (output_ (s1 <| output_ := p0 |>)) with p0. change (client_out (s1 <| output_ := p0 |>)) with (client_out s1).
  change (zlen [Zbyte code]) with 1 in Ew. rewrite Ew. mstep. st_go.
  exists log. split_and!; try done. cbn. rewrite Hw', El, wire_app, <- app_assoc. simpl. by rewrite ?app_nil_r.
Qed.
End SES.

(** ** What is typed *)

Module TYP.
Import ShellProtocol SVC SCL SP SSafe SES.

(** ** Window sizes *)

Definition size_ok (ws : winsize) : Prop :=
  0 ≤ ws_row ws < 2 ^ 16 ∧ 0 ≤ ws_col ws < 2 ^ 16 ∧ 0 ≤ ws_xpixel ws < 2 ^ 16 ∧ 0 ≤ ws_ypixel ws < 2 ^ 16.

Lemma scan_print n rest :
  0 ≤ n < 2 ^ 16 → (∀ b r, rest = b :: r → is_base_digit 10 b = false) → scan_d (print_d n ++ rest) = Some (n, rest).
Proof.
  intros Hn Hr. unfold scan_d, print_d. rewrite (proj2 (Z.ltb_ge n 0)) by lia.
  rewrite strtoll_print_u by (done || lia). cbn. by rewrite s32_small by lia.
Qed.

Lemma sscanf_window_text ws :
  size_ok ws → sscanf_winsize (window_text ws) = Some (ws_row ws, ws_col ws, ws_xpixel ws, ws_ypixel ws).
Proof.
  intros (H1 & H2 & H3 & H4). unfold sscanf_winsize, window_text.
  rewrite scan_print by (done || by intros b r [= <- _]). cbn [mbind option_bind].
  change (scan_char (Zbyte 120) (str "x" ++ ?r)) with (Some r). cbn [mbind option_bind].
  rewrite scan_print by (done || by intros b r [= <- _]). cbn [mbind option_bind].
  change (scan_char (Zbyte 44) (str "," ++ ?r)) with (Some r). cbn [mbind option_bind].
  rewrite scan_print by (done || by intros b r [= <- _]). cbn [mbind option_bind].
  change (scan_char (Zbyte 120) (str "x" ++ ?r)) with (Some r). cbn [mbind option_bind].
  rewrite <- (app_nil_r (print_d (ws_ypixel ws))). by rewrite scan_print.
Qed.

Lemma print_d_short n : 0 ≤ n < 2 ^ 16 → zlen (print_d n) ≤ 5 ∧ NUL ∉ print_d n.
Proof.
  intros Hn. unfold print_d. rewrite (proj2 (Z.ltb_ge n 0)) by lia. split.
  - pose proof (length_print_base_le 10 n 5 ltac:(lia) ltac:(simpl; lia) ltac:(lia)). unfold print_u. lia.
  - destruct (print_base_spec 10 n) as (_ & Hf & _); [lia..|]. intros H. rewrite Forall_forall in Hf. by specialize (Hf _ H).
Qed.

Lemma window_text_short ws : size_ok ws → zlen (window_text ws) ≤ 23 ∧ NUL ∉ window_text ws.
Proof.
  intros (H1 & H2 & H3 & H4). unfold window_text.
  destruct (print_d_short _ H1) as [? N1], (print_d_short _ H2) as [? N2], (print_d_short _ H3) as [? N3], (print_d_short _ H4) as [? N4].
  split.
  - rewrite !length_app. simpl. lia.
  - rewrite !elem_of_app. intros [|[Hx|[|[Hx|[|[Hx|]]]]]]; try done; by apply list_elem_of_singleton in Hx.
Qed.

Lemma window_step_text w ws : size_ok ws → window_step w (WINDOW, window_text ws ++ [NUL]) = Some ws.
Proof.
  intros H. unfold window_step. cbn [fst snd]. rewrite bool_decide_true by done.
  rewrite c_str_app_nul, c_str_id, sscanf_window_text by (done || by apply window_text_short).
  destruct H as (H1 & H2 & H3 & H4). unfold u16. rewrite !Z.mod_small by done. by destruct ws.
Qed.

(** The last size that the terminal reported. *)
Definition last_size (w : option winsize) (l : list (option winsize)) : option winsize :=
  fold_left (λ w x, match x with Some ws => Some ws | None => w end) l w.

(** ** What has been sent *)

(** From [a] to [a'] the thread has sent the packets [l]. *)
Record sent (cap : Z) (a : StdinReadArgs) (l : list packet) (a' : StdinReadArgs) : Prop := {
  sn_protocol : ∃ p, protocol a' = Some p ∧ sane cap p;
  sn_accepts : accepts (write_fd a');
  sn_written : o_written (write_fd a') = o_written (write_fd a) ++ wire l;
  sn_packets : Forall (packet_ok cap) l ∧ Forall (λ x, x.1 ≠ CLOSE) l;
  sn_sizes : Forall (λ x, match x with Some ws => size_ok ws | None => True end) (windows a');
  sn_window : ∃ k, windows a' = drop k (windows a) ∧ ∀ w, window_after w l = last_size w (take k (windows a));
  sn_args : raw_stdin a' = raw_stdin a ∧ escape_char a' = escape_char a
}.

Lemma sent_trans cap a l1 a1 l2 a2 : sent cap a l1 a1 → sent cap a1 l2 a2 → sent cap a (l1 ++ l2) a2.
Proof.
  intros [_ _ W1 [P1 Q1] _ (k1 & E1 & F1) [R1 S1]] [Hp Ha W2 [P2 Q2] Hz (k2 & E2 & F2) [R2 S2]]. constructor; try done.
  - by rewrite W2, W1, wire_app, <- app_assoc.
  - by split; apply Forall_app.
  - exists (k1 + k2)%nat. split; [by rewrite E2, E1, drop_drop|]. intros w.
    unfold window_after. rewrite fold_left_app. fold (window_after w l1). fold (window_after (window_after w l1) l2).
    rewrite F2, F1, E1. unfold last_size. by rewrite <- fold_left_app, take_take_drop.
  - split; congruence.
Qed.

(** A step that sends nothing, and one that sends a packet. *)
Lemma sent_quiet cap a l a' a'' :
  sent cap a l a' → (∃ p, protocol a'' = Some p ∧ sane cap p) → write_fd a'' = write_fd a' → windows a'' = windows a' →
  raw_stdin a'' = raw_stdin a' → escape_char a'' = escape_char a' → sent cap a l a''.
Proof. intros [] Hp E1 E2 E3 E4. constructor; rewrite ?E1, ?E2, ?E3, ?E4; done. Qed.

Lemma send_packet_wp cap a i bs (Q : bool → StdinReadArgs → Prop) :
  sent cap a [] a → zlen bs ≤ cap →
  (∀ a', (∃ p, protocol a' = Some p ∧ sane cap p) → accepts (write_fd a') →
    o_written (write_fd a') = o_written (write_fd a) ++ wire [(Id_byte i, bs)] → stdin_fd a' = stdin_fd a →
    windows a' = windows a → raw_stdin a' = raw_stdin a ∧ escape_char a' = escape_char a → Q true a') →
  wp (protocol_fill bs) (λ _, wp (protocol_write i (zlen bs)) Q) a.
Proof.
  intros Hs Hl HQ. destruct Hs as [(p & Ep & Hp) Ha _ _ Hz _ _].
  destruct (send_frame cap p (write_fd a) i bs Hp Hl Ha) as (p0 & p1 & o' & Ef & Ew & Hp1 & _ & Ha' & Hw).
  unfold wp at 1, protocol_fill. rewrite Ep, Ef. mstep. cbv beta iota. unfold wp, protocol_write.
  change (protocol (a <| protocol := Some p0 |>)) with (Some p0). change (write_fd (a <| protocol := Some p0 |>)) with (write_fd a). mstep. rewrite Ew. mstep.
  apply HQ; try done; [by exists p1|]. cbn. by rewrite app_nil_r.
Qed.

Lemma send_window_wp cap a :
  sent cap a [] a → wp send_window_size_change (λ _ a', stdin_fd a' = stdin_fd a ∧ ∃ l, sent cap a l a' ∧ payloads STDIN l = []) a.
Proof.
  intros Hs. pose proof Hs as [(p & Ep & Hp) Ha Hw _ Hz _ _]. unfold send_window_size_change. st_go. rewrite Ep. st_go.
  assert (windows a = [] ∨ head (windows a) = Some None → sent cap a [] (a <| windows ::= tail |>)) as Hnone.
  { intros Hn. constructor; try done; [by exists p|cbn; by destruct Hz|]. cbn.
    destruct (windows a) as [|x l]; [exists 0%nat; done|]. exists 1%nat. destruct Hn as [|[= ->]]; done. }
  destruct (windows a) as [|[ws|] l] eqn:El; [st_go; split; [done|]; exists []; auto| |st_go; split; [done|]; exists []; auto].
  apply Forall_cons in Hz as [Hws Hz]. destruct (window_text_short ws Hws) as [Hlen Hnul].
  rewrite (sane_capacity cap) by done. rewrite ztake_all by (unfold sane in Hp; lia).
  replace (zlen (window_text ws) + 1) with (zlen (window_text ws ++ [NUL])) by (rewrite length_app; simpl; lia).
  set (a1 := a <| windows ::= tail |>).
  assert (sent cap a1 [] a1) as H1.
  { constructor; try done; [by exists p|cbn; by rewrite El|]. by exists 0%nat. }
  assert (zlen (window_text ws ++ [NUL]) ≤ cap) as Hfit by (unfold sane in Hp; rewrite length_app; simpl; lia).
  st_go. eapply wp_mono; [apply (send_packet_wp cap a1 kIdWindowSizeChange (window_text ws ++ [NUL])
    (λ _ a', stdin_fd a' = stdin_fd a ∧ ∃ l, sent cap a l a' ∧ payloads STDIN l = []) H1 Hfit)|].
  - intros a' P1 P2 P3 P4 P5 P6. split; [done|]. exists [(WINDOW, window_text ws ++ [NUL])]. split; [|done].
    constructor; try done.
    + split; [|by apply Forall_singleton]. apply Forall_singleton. split_and!; simpl; try done; [unfold sane in Hp; lia|].
      intros _. split; [done|]. apply elem_of_app. right. by left.
    + rewrite P5. cbn. by rewrite El.
    + exists 1%nat. rewrite P5. cbn. rewrite El. split; [done|]. intros w. unfold window_after. cbn [fold_left take].
      by rewrite window_step_text.
  - intros u a2 H2. st_go. eapply wp_mono; [exact H2|]. intros ok a3 H3. by st_go.
Qed.

Lemma send_stdin_wp cap a bs :
  sent cap a [] a → zlen bs ≤ cap →
  wp (send_stdin bs) (λ ok a', ok = true ∧ stdin_fd a' = stdin_fd a ∧ sent cap a [(STDIN, bs)] a') a.
Proof.
  intros Hs Hl. pose proof Hs as [(p & Ep & Hp) _ _ _ Hz _ _]. unfold send_stdin. st_go. rewrite Ep. st_go.
  apply (send_packet_wp cap a kIdStdin bs); [done..|]. intros a' P1 P2 P3 P4 P5 P6. split_and!; try done. constructor; try done.
  - split; apply Forall_singleton; [|done]. split_and!; simpl; try done. unfold sane in Hp. lia.
  - by rewrite P5.
  - by exists 0%nat.
Qed.

(** ** The reference *)

(** The characters up to the end of the input, and whether it has ended. *)
Fixpoint typed (l : list tty_event) : bytes :=
  match l with
  | Typed (b :: bs) :: l => (b :: bs) ++ typed l
  | Resized :: l => typed l
  | _ => []
  end.
Fixpoint ended (l : list tty_event) : bool :=
  match l with
  | [] => false
  | Typed (_ :: _) :: l => ended l
  | Resized :: l => ended l
  | _ => true
  end.

Definition newline (c : byte) : bool := bool_decide (c = Zbyte 10) || bool_decide (c = Zbyte 13).

(** The escape sequences of a terminal: at the start of a line, the escape
    character and a dot end the session, the escape character twice stands for itself,
    and at the end of the input it is held back.  The result is what to send, and whether to end. *)
Fixpoint unescape (e : byte) (start : bool) (s : bytes) : bytes * bool :=
  match s with
  | [] => ([], false)
  | c :: s =>
      if start && bool_decide (c = e) then
        match s with
        | [] => ([], false)
        | d :: s =>
            if bool_decide (d = e) then let '(r, q) := unescape e false s in (e :: r, q)
            else if bool_decide (d = Zbyte 46) then ([], true)
            else let '(r, q) := unescape e (newline d) s in (e :: d :: r, q)
        end
      else let '(r, q) := unescape e (newline c && negb (bool_decide (c = e))) s in (c :: r, q)
  end.

Definition said (escapes : bool) (e : byte) (st : EscapeState) (s : bytes) : bytes * bool :=
  if escapes then
    match st with
    | kStartOfLine => unescape e true s
    | kMidFlow => unescape e false s
    | kInEscape => unescape e true (e :: s)
    end
  else (s, false).

Lemma said_step e st c s :
  said true e st (c :: s) =
    match escape e st c with
    | None => ([], true)
    | Some (st', bs) => let '(r, q) := said true e st' s in (bs ++ r, q)
    end.
Proof.
  unfold said, escape. destruct (decide (c = e)) as [->|Hn].
  - rewrite !(bool_decide_true (e = e)) by done. destruct st.
    + cbn [unescape andb]. rewrite (bool_decide_true (e = e)) by done. by rewrite andb_false_r.
    + by destruct (unescape e true (e :: s)).
    + cbn [unescape]. by rewrite !(bool_decide_true (e = e)).
  - rewrite (bool_decide_false (c = e)) by done. change (bool_decide _ || bool_decide _) with (newline c).
    destruct st; cbn [unescape]; rewrite ?(bool_decide_true (e = e)), ?(bool_decide_false (c = e)) by done; cbn [andb negb]; rewrite ?andb_true_r.
    + by destruct (newline c).
    + by destruct (newline c).
    + case_bool_decide; [done|]. by destruct (newline c).
Qed.

(** ** The loop *)

Lemma unix_read_wp n a b bs l (Q : tty_read → StdinReadArgs → Prop) :
  stdin_fd a = Typed (b :: bs) :: l → 0 < n →
  (∀ ch cs rest, typed (stdin_fd a) = (ch :: cs) ++ typed rest → ended rest = ended (stdin_fd a) →
     (tty_size rest < tty_size (stdin_fd a))%nat → zlen (ch :: cs) ≤ n → Q (TtyBytes (ch :: cs)) (a <| stdin_fd := rest |>)) →
  wp (unix_read n) Q a.
Proof.
  intros E Hn H. unfold unix_read. st_go. rewrite E. st_go.
  destruct (ztake n (b :: bs)) as [|ch cs] eqn:Et.
  { unfold ztake in Et. destruct (Z.to_nat n) eqn:?; [lia|done]. }
  pose proof (ztake_zdrop n (b :: bs)) as Ez. rewrite Et in Ez.
  assert (zlen (ch :: cs) ≤ n) as Hle by (rewrite <- Et; unfold ztake; rewrite length_take; lia).
  apply H; [| | |done]; rewrite E; destruct (Z.ltb_spec n (zlen (b :: bs))) as [Hl|Hl].
  - destruct (zdrop n (b :: bs)) as [|d ds] eqn:Ed; [apply (f_equal length) in Ed; unfold zdrop in Ed; rewrite length_drop in Ed; simpl in *; lia|].
    change (typed (Typed (d :: ds) :: l)) with ((d :: ds) ++ typed l). rewrite app_assoc, Ez. done.
  - rewrite zdrop_all, app_nil_r in Ez by done. by rewrite Ez.
  - destruct (zdrop n (b :: bs)) as [|d ds] eqn:Ed; [apply (f_equal length) in Ed; unfold zdrop in Ed; rewrite length_drop in Ed; simpl in *; lia|done].
  - done.
  - simpl. unfold zdrop. rewrite length_drop. simpl. lia.
  - simpl. lia.
Qed.

Definition end_of (disconnected ended : bool) : stdin_end :=
  if disconnected then Disconnected else if ended then Finished else Blocked.

(** All that the thread sends from [a] on. *)
Definition session_of (cap : Z) (a : StdinReadArgs) (spec : bytes * bool) (e : stdin_end) (a' : StdinReadArgs) : Prop :=
  ∃ l c k, o_written (write_fd a') = o_written (write_fd a) ++ wire (l ++ c) ∧
    (c = [] ∨ c = [(CLOSE, [])]) ∧ Forall (packet_ok cap) l ∧ Forall (λ x, x.1 ≠ CLOSE) l ∧
    payloads STDIN l = fst spec ∧ (∀ w, window_after w l = last_size w (take k (windows a))) ∧
    e = end_of (snd spec) (ended (stdin_fd a)).

Lemma session_after cap a l1 a1 spec1 spec e a' :
  sent cap a l1 a1 → ended (stdin_fd a1) = ended (stdin_fd a) →
  fst spec = payloads STDIN l1 ++ fst spec1 → snd spec = snd spec1 →
  session_of cap a1 spec1 e a' → session_of cap a spec e a'.
Proof.
  intros [_ _ W1 [P1 Q1] _ (k1 & E1 & F1) _] He Hf Hs (l & c & k & W & Hc & P & Q & Hp & Hw & ->).
  exists (l1 ++ l), c, (k1 + k)%nat. split_and!; try done.
  - by rewrite W, W1, <- (app_assoc l1), (wire_app l1), app_assoc.
  - by apply Forall_app.
  - by apply Forall_app.
  - by rewrite payloads_app, Hp, Hf.
  - intros w. unfold window_after. rewrite fold_left_app. fold (window_after w l1). fold (window_after (window_after w l1) l).
    rewrite Hw, F1, E1. unfold last_size. by rewrite <- fold_left_app, take_take_drop.
  - by rewrite Hs, He.
Qed.

Lemma write_close cap p o :
  sane cap p → accepts o →
  ∃ p' o', Write p o kIdCloseStdin 0 = Ret (true, p', o') ∧ o_written o' = o_written o ++ wire [(CLOSE, [])].
Proof.
  intros Hs Ha. destruct (send_frame cap p o kIdCloseStdin []) as (p0 & p1 & o' & Ef & Ew & _ & _ & _ & Hw); [done|unfold sane in Hs; simpl; lia|done|].
  assert (p0 = p) as ->.
  { unfold fill in Ef. unfold sane in Hs. rewrite memcpy_fit in Ef by (unfold kHeaderSize; simpl; lia).
    cbn [mbind outcome_bind length Z.of_nat app] in Ef. rewrite Z.add_0_r, ztake_zdrop in Ef. injection Ef as <-. by destruct p. }
  exists p1, o'. by rewrite Hw.
Qed.

Lemma said_nil escapes e st : said escapes e st [] = ([], false).
Proof. unfold said. destruct escapes; [|done]. destruct st; [done..|]. simpl. by rewrite bool_decide_true. Qed.

(** Storing what has been read. *)
Lemma protocol_fill_wp cap a a1 bs (Q : unit → StdinReadArgs → Prop) :
  sent cap a [] a1 → zlen bs ≤ cap → (∀ a2, sent cap a [] a2 → stdin_fd a2 = stdin_fd a1 → Q tt a2) → wp (protocol_fill bs) Q a1.
Proof.
  intros Hs Hl H. destruct (sn_protocol _ _ _ _ Hs) as (p & Ep & Hp). unfold wp, protocol_fill. rewrite Ep.
  destruct (fill_total cap p bs Hp Hl) as (p' & -> & Hp' & _). apply H; [|done]. eapply sent_quiet; try done. by exists p'.
Qed.

Lemma sent_self cap a l a1 : sent cap a l a1 → sent cap a1 [] a1.
Proof. intros []. constructor; try done; [by rewrite app_nil_r|by exists 0%nat]. Qed.

Lemma stdin_loop_spec cap n escapes fuel : ∀ st a,
  sent cap a [] a → 0 < n ≤ cap → (escapes = true → n = 1) → (tty_size (stdin_fd a) < fuel)%nat →
  wp (stdin_loop fuel n escapes st) (session_of cap a (said escapes (escape_char a) st (typed (stdin_fd a)))) a.
Proof.
  induction fuel as [|fuel IH]; intros st a Hs Hn He Hf; [lia|]. cbn [stdin_loop]. st_go.
  assert (∀ a1 l1 st1 spec1 spec, sent cap a l1 a1 → ended (stdin_fd a1) = ended (stdin_fd a) → (tty_size (stdin_fd a1) < tty_size (stdin_fd a))%nat →
    spec1 = said escapes (escape_char a) st1 (typed (stdin_fd a1)) → fst spec = payloads STDIN l1 ++ fst spec1 → snd spec = snd spec1 →
    wp (stdin_loop fuel n escapes st1) (session_of cap a spec) a1) as Hgo.
  { intros a1 l1 st1 spec1 spec H1 H2 H3 -> H5 H6.
    eapply wp_mono; [apply IH; [by eapply sent_self|done..|lia]|]. intros e a' H. destruct (sn_args _ _ _ _ H1) as [_ Ee]. rewrite Ee in H. by eapply session_after. }
  assert (∀ a1, sent cap a [] a1 → typed (stdin_fd a) = [] → ended (stdin_fd a) = true →
    wp (p ← get protocol; _ ← match p with Some _ => protocol_write kIdCloseStdin 0 | None => mret true end; mret Finished)
      (session_of cap a (said escapes (escape_char a) st (typed (stdin_fd a)))) a1) as Hend.
  { intros a1 H1 Ht Hed. destruct (sn_protocol _ _ _ _ H1) as (p & Ep & Hp). st_go. rewrite Ep. st_go.
    destruct (write_close cap p (write_fd a1) Hp (sn_accepts _ _ _ _ H1)) as (p' & o' & Ew & Hw).
    unfold wp at 1, protocol_write. rewrite Ep. mstep. rewrite Ew. mstep. st_go.
    exists [], [(CLOSE, [])], 0%nat. rewrite Ht, said_nil, Hed. split_and!; try done; [|by right].
    cbn -[wire]. rewrite Hw, (sn_written _ _ _ _ H1). simpl. by rewrite app_nil_r. }
  destruct (stdin_fd a) as [|[[|b bs]| |] l] eqn:El.
  - unfold unix_read. st_go. rewrite El. st_go. exists [], [], 0%nat. rewrite El, said_nil.
    split_and!; try done; [by rewrite app_nil_r|by left].
  - unfold unix_read. st_go. rewrite El. st_go. assert (ztake n (@nil byte) = []) as -> by apply take_nil.
    apply Hend; [|done..]. eapply sent_quiet; try done. apply Hs.
  - rewrite <- El in *. apply (unix_read_wp n a b bs l); [done|lia|]. intros ch cs rest Ht Hed Hsz Hlen. st_go.
    apply (protocol_fill_wp cap a); [eapply sent_quiet; try done; apply Hs|lia|]. intros a2 H2 E2.
    change (stdin_fd (a <| stdin_fd := rest |>)) with rest in E2. st_go. destruct (sn_args _ _ _ _ H2) as [_ ->].
    assert (∀ st1 bs1, zlen bs1 ≤ cap → said escapes (escape_char a) st (typed (stdin_fd a)) =
        (let '(r, q) := said escapes (escape_char a) st1 (typed rest) in (bs1 ++ r, q)) →
      wp match bs1 with
         | [] => stdin_loop fuel n escapes st1
         | _ => ok ← send_stdin bs1; if (ok : bool) then stdin_loop fuel n escapes st1 else mret Finished
         end (session_of cap a (said escapes (escape_char a) st (typed (stdin_fd a)))) a2) as Hsend.
    { intros st1 bs1 Hb Hsaid. rewrite Hsaid. destruct (said escapes (escape_char a) st1 (typed rest)) as [r q] eqn:Er.
      destruct bs1 as [|b1 bs1].
      - apply (Hgo a2 [] st1 (r, q)); try done; by rewrite E2.
      - st_go. eapply wp_mono; [apply (send_stdin_wp cap); [by eapply sent_self|done]|]. intros ok a3 (-> & E3 & H3).
        apply (Hgo a3 ([] ++ [(STDIN, b1 :: bs1)]) st1 (r, q)); try (by rewrite E3, E2); [by eapply sent_trans|by cbn; rewrite app_nil_r|done]. }
    destruct escapes.
    + assert (cs = []) as -> by (destruct cs; [done|simpl in Hlen; specialize (He eq_refl); lia]).
      specialize (Hsend). rewrite Ht in *. cbn [app] in *. rewrite said_step in Hsend |- *.
      unfold sane in *. destruct (escape (escape_char a) st ch) as [[st1 bs1]|] eqn:Ex.
      * assert (zlen bs1 ≤ 2) as Hb2.
        { unfold escape in Ex. destruct (bool_decide _), st; try (destruct (bool_decide (ch = Zbyte 46))); simplify_eq/=; lia. }
        specialize (Hsend st1 bs1). assert (24 ≤ cap) by (destruct (sn_protocol _ _ _ _ Hs) as (p & _ & Hp); unfold sane in Hp; lia).
        destruct bs1; apply Hsend; try done; lia.
      * st_go. exists [], [], 0%nat. split_and!; try done; [|by left]. by rewrite (sn_written _ _ _ _ H2).
    + apply (Hsend st (ch :: cs)); [lia|]. by rewrite Ht.
  - unfold unix_read. st_go. rewrite El. st_go. set (a1 := a <| stdin_fd := l |>).
    assert (sent cap a [] a1) as H1 by (eapply sent_quiet; try done; apply Hs).
    eapply wp_mono; [apply (send_window_wp cap); by eapply sent_self|]. intros u a2 (E2 & l1 & H2 & Hp).
    change (stdin_fd a1) with l in E2.
    apply (Hgo a2 ([] ++ l1) st (said escapes (escape_char a) st (typed l))); rewrite ?E2; try done; [by eapply sent_trans|simpl; lia|by cbn; rewrite Hp].
  - unfold unix_read. st_go. rewrite El. do 3 st_step. apply Hend; [|done..]. eapply sent_quiet; try done. apply Hs.
Qed.
End TYP.
