(* ===== verification/ShellProps.v ===== *)
(** * What a shell session does

    The two ends together: what the subprocess prints is printed by the client, what is
    typed reaches the subprocess, and the command asked for is the one that runs. *)

From S2P Require Import Prelude State CString CStringFacts LibBase LibBaseFacts AdbIO AdbIOFacts Transport TransportFacts Client.
From S2P Require Import ShellService ShellClient ShellFacts ShellSession.
Local Open Scope Z_scope.
Local Open Scope record_scope.

Module SPR.
Import ShellProtocol SVC SCL SP LP LO SSafe SES TYP.

(** ** Output *)

Definition writes_all (k : sink) : Prop := match k with ToString _ => True | ToFile _ r => r = [] end.

Lemma OnStream_all k bs b :
  writes_all k → ∃ k', OnStream k bs b = (true, k') ∧ sink_text k' = sink_text k ++ bs ∧ writes_all k'.
Proof.
  destruct k as [s|w r]; simpl; [intros _; by eexists|]. intros ->. simpl.
  rewrite Z.min_id, Z.max_r by lia. rewrite Z.eqb_refl, ztake_all by done. eexists. split; [by destruct b|done].
Qed.

(** The output of a callback, and that it can be written. *)
Definition printed (cb cb' : callback) (out err : bytes) : Prop :=
  sink_text (stdout_ cb') = sink_text (stdout_ cb) ++ out ∧ sink_text (stderr_ cb') = sink_text (stderr_ cb) ++ err ∧
  writes_all (stdout_ cb') ∧ writes_all (stderr_ cb').

Lemma dump_packets cap fuel : ∀ p i cb c cur body l,
  incoming cap p i cur body l → writes_all (stdout_ cb) → writes_all (stderr_ cb) → (length (stream_data i) < fuel)%nat →
  ∃ cb' i', dump_loop fuel p i cb c = Ret (exit_after c l, cb', i') ∧
    printed cb cb' (payloads STDOUT ((cur, body) :: l)) (payloads STDERR ((cur, body) :: l)).
Proof.
  induction fuel as [|fuel IH]; intros p i cb c cur body l Hin Ho He Hf; [lia|]. cbn [dump_loop].
  destruct (decide (i = [])) as [->|Hi].
  { destruct Hin as [Hs _ Hd Hl _ _ _]. simpl in Hd. symmetry in Hd. apply app_eq_nil in Hd as [-> ->%wire_nil].
    destruct (read_header_total cap p [] Hs) as (ok & p' & i' & E & _ & Hok). rewrite Hok in E by done.
    unfold Read. rewrite E. mstep. do 2 eexists. split; [done|]. unfold printed. simpl. case_bool_decide; case_bool_decide; by rewrite !app_nil_r. }
  destruct (incoming_read _ _ _ _ _ _ Hin Hi) as (p' & i' & cur' & body' & l' & E & Hin' & (Hid & Hpay & _ & Hex & _ & _ & H1) & Hlt).
  rewrite E. mstep. rewrite Hid. mstep. rewrite !Hpay, Hex.
  assert (∀ cb1 c1, c1 = exit_step c (cur', data p') → writes_all (stdout_ cb1) → writes_all (stderr_ cb1) →
    ∀ out err, printed cb cb1 out err →
    ∃ cb' i'0, dump_loop fuel p' i' cb1 c1 = Ret (exit_after (exit_step c (cur', data p')) l', cb', i'0) ∧
      printed cb cb' (out ++ payloads STDOUT ((cur', body') :: l')) (err ++ payloads STDERR ((cur', body') :: l'))) as Hgo.
  { intros cb1 c1 -> Ho1 He1 out err (P1 & P2 & _ & _).
    destruct (IH p' i' cb1 (exit_step c (cur', data p')) cur' body' l' Hin' Ho1 He1 ltac:(lia)) as (cb' & i2 & -> & Q1 & Q2 & Q3 & Q4).
    do 2 eexists. split; [done|]. split_and!; [|by rewrite Q2, P2, <- app_assoc|done..]. by rewrite Q1, P1, <- app_assoc. }
  unfold exit_step at 1 in Hgo. cbn in Hgo.
  destruct (decide (cur' = STDOUT)) as [->|N1].
  { rewrite (bool_decide_true (STDOUT = STDOUT)), (bool_decide_false (STDOUT = STDERR)) by done.
    unfold OnStdout. destruct (OnStream_all (stdout_ cb) (data p') (returnErrors_ cb) Ho) as (k & -> & Hk & Hk'). mstep.
    apply Hgo; try done. split_and!; try done. cbn. by rewrite app_nil_r. }
  destruct (decide (cur' = STDERR)) as [->|N2].
  { rewrite (bool_decide_false (STDERR = STDOUT)), (bool_decide_true (STDERR = STDERR)) by done.
    unfold OnStderr. destruct (OnStream_all (stderr_ cb) (data p') (returnErrors_ cb) He) as (k & -> & Hk & Hk'). mstep.
    apply Hgo; try done. split_and!; try done. cbn. by rewrite app_nil_r. }
  rewrite (bool_decide_false (cur' = STDOUT)), (bool_decide_false (cur' = STDERR)) by done.
  destruct (decide (cur' = EXIT)) as [->|N3]; cycle 1.
  { rewrite (bool_decide_false (cur' = EXIT)) in Hgo |- * by done. apply Hgo; try done. split_and!; try done; by rewrite app_nil_r. }
  rewrite (bool_decide_true (EXIT = EXIT)) in Hgo |- * by done. specialize (H1 eq_refl).
  destruct (data p') as [|b [|]] eqn:Ed; [simpl in H1; lia| |simpl in H1; lia].
  assert (buffer_ p' !! Z.to_nat kHeaderSize = Some b) as Hb.
  { unfold data, ztake, zdrop in Ed. pose proof (f_equal (λ x : bytes, x !! 0%nat) Ed) as E0. cbv beta in E0.
    rewrite lookup_take_lt in E0; [by rewrite lookup_drop in E0|].
    apply (f_equal length) in Ed. rewrite length_take in Ed. simpl in Ed. lia. }
  rewrite Hb. mstep. apply Hgo; try done. split_and!; try done; by rewrite app_nil_r.
Qed.

Lemma stream_data_le_size i : (length (stream_data i) ≤ stream_size i)%nat.
Proof. induction i as [|[[|b bs]|e] i IH]; simpl; rewrite ?length_app; lia. Qed.

Lemma printed_packets cap junk l i cb :
  zlen junk = cap + 5 → 24 ≤ cap < 2 ^ 31 → Forall (packet_ok cap) l → close_last l →
  solid i → stream_data i = wire l → writes_all (stdout_ cb) → writes_all (stderr_ cb) →
  ∃ cb' i', read_and_dump junk i true cb = Ret (exit_after 255 l, cb', i') ∧ printed cb cb' (payloads STDOUT l) (payloads STDERR l).
Proof.
  intros Hj Hc Hp Hcl Hs Hd Ho He. unfold read_and_dump, read_and_dump_protocol.
  destruct (init_sane cap junk Hj Hc) as (p & -> & Hsane & Hl). mstep.
  destruct (dump_packets cap (S (stream_size i)) p i cb 255 STDIN [] l) as (cb' & i' & -> & H); try done.
  { pose proof (stream_data_le_size i). lia. }
  by exists cb', i'.
Qed.

Lemma log_packets cap capc log b :
  cap < 2 ^ 31 → Forall (λ x, (x.1 = STDOUT ∨ x.1 = STDERR) ∧ zlen x.2 ≤ cap) log →
  Forall (packet_ok capc) (log ++ [(EXIT, [b])]) ∧ close_last (log ++ [(EXIT, [b])]).
Proof.
  intros Hc H. split.
  - apply Forall_app; split; [|by apply Forall_singleton].
    eapply Forall_impl; [exact H|]. intros [i q] [Hi Hl]. simpl in *. split; [simpl; lia|]. simpl.
    split_and!; intros ->; by destruct Hi.
  - induction H as [|[i q] log [Hi _] _ IH]; [done|]. split; [|done]. simpl in Hi. intros ->. by destruct Hi.
Qed.


(** Without the shell protocol everything is printed as it comes. *)
Lemma raw_loop_prints fuel : ∀ i cb,
  (length (stream_data i) < fuel)%nat → solid i → writes_all (stdout_ cb) → writes_all (stderr_ cb) →
  ∃ cb' i', raw_loop fuel i cb = Ret (cb', i') ∧ printed cb cb' (stream_data i) [].
Proof.
  induction fuel as [|fuel IH]; intros i cb Hf Hs Ho He; [lia|]. cbn [raw_loop].
  pose proof (adb_read_stream i BUFSIZ ltac:(done)) as H.
  destruct (adb_read i BUFSIZ) as [r i'] eqn:E. pose proof (adb_read_solid i BUFSIZ r i' ltac:(done) Hs E) as Hs'.
  destruct r as [[|b bs]|e]; [rewrite H; exists cb, i'; split; [done|]; by split_and!; rewrite ?app_nil_r| |
    rewrite H; exists cb, i'; split; [done|]; by split_and!; rewrite ?app_nil_r].
  destruct H as [D _]. unfold OnStdout.
  destruct (OnStream_all (stdout_ cb) (b :: bs) (returnErrors_ cb) Ho) as (k & -> & Hk & Hk').
  rewrite D in Hf |- *. rewrite length_app in Hf. cbn [length] in Hf.
  edestruct IH as (cb' & i2 & -> & P1 & P2 & P3 & P4); [|exact Hs'|exact Hk'|exact He|]; [lia|].
  exists cb', i2. split; [done|]. split_and!; [|exact P2|done..]. rewrite P1. cbn. by rewrite Hk, <- app_assoc.
Qed.

(** A failure to start the subprocess is told to the user: on standard error with exit code
    126 in the shell protocol, as output without it. *)
Theorem report_error_printed proto message i cb capc junk :
  zlen (c_str message) < 2 ^ 31 → zlen junk = capc + 5 → 24 ≤ capc < 2 ^ 31 → writes_all (stdout_ cb) → writes_all (stderr_ cb) →
  solid i → stream_data i = ReportError proto message →
  let text := str "error: " ++ c_str message ++ [Zbyte 10] in
  ∃ cb' i', read_and_dump junk i (bool_decide (proto = kShell)) cb = Ret (if bool_decide (proto = kShell) then 126 else 0, cb', i') ∧
    printed cb cb' (if bool_decide (proto = kShell) then [] else text) (if bool_decide (proto = kShell) then text else []).
Proof.
  intros Hm Hj Hc Ho He Hs Hd text. assert (zlen text < 2 ^ 32) as Ht.
  { unfold text. rewrite !length_app. cbn [length]. change (length (str "error: ")) with 7%nat. lia. }
  destruct proto; [rewrite bool_decide_false by done|rewrite bool_decide_true by done].
  - unfold read_and_dump. destruct (raw_loop_prints (S (stream_size i)) i cb) as (cb' & i' & -> & P); try done.
    { pose proof (stream_data_le_size i). lia. }
    mstep. exists cb', i'. split; [done|]. by rewrite Hd in P.
  - destruct (printed_packets capc junk [(STDERR, text); (EXIT, [Zbyte 126])] i cb) as (cb' & i' & -> & P); try done.
    + repeat constructor; cbn; try done; lia.
    + rewrite Hd. unfold ReportError. fold text. rewrite u32_small by lia. cbn [wire]. unfold Shell.frame. cbn [app]. rewrite <- ?app_assoc. reflexivity.
    + exists cb', i'. split; [done|]. cbn [payloads] in P. rewrite (bool_decide_false (STDERR = STDOUT)), (bool_decide_false (EXIT = STDOUT)),
        (bool_decide_true (STDERR = STDERR)), (bool_decide_false (EXIT = STDERR)), !app_nil_r in P by done. exact P.
Qed.

(** ** Input *)

(** What the thread for the input does, as [session_of] says. *)
Lemma stdin_thread_spec cap a p :
  protocol a = Some p → sane cap p → accepts (write_fd a) →
  Forall (λ x, match x with Some ws => size_ok ws | None => True end) (windows a) →
  wp stdin_read_thread_loop (session_of cap a
    (said (raw_stdin a && negb (bool_decide (escape_char a = NUL))) (escape_char a) kStartOfLine (typed (stdin_fd a)))) a.
Proof.
  intros Ep Hp Ha Hz.
  assert (sent cap a [] a) as H0.
  { constructor; try done; [by exists p|by rewrite app_nil_r|by exists 0%nat]. }
  unfold stdin_read_thread_loop. st_go. eapply wp_mono; [by apply (send_window_wp cap)|]. intros u a1 (E1 & l1 & H1 & Hpay). st_go.
  destruct (sn_protocol _ _ _ _ H1) as (p1 & Ep1 & Hp1). destruct (sn_args _ _ _ _ H1) as [Er Ee]. rewrite Ep1, Er, Ee, (sane_capacity cap) by done.
  set (esc := raw_stdin a && negb (bool_decide (escape_char a = NUL))).
  assert (24 ≤ cap) as H24 by (unfold sane in Hp; lia).
  eapply wp_mono; [apply (stdin_loop_spec cap); [by eapply sent_self|destruct esc; lia|by intros ->|lia]|].
  intros e a' H. rewrite E1, Ee in H. eapply session_after; try done; by rewrite ?E1, ?Hpay.
Qed.

Lemma session_packets cap a spec e a' :
  session_of cap a spec e a' →
  ∃ l k, o_written (write_fd a') = o_written (write_fd a) ++ wire l ∧ payloads STDIN l = fst spec ∧
    Forall (packet_ok cap) l ∧ close_last l ∧
    (∀ w, window_after w l = last_size w (take k (windows a))) ∧ e = end_of (snd spec) (ended (stdin_fd a)).
Proof.
  intros (l & c & k & W & Hc & P & Q & Hp & Hw & He). exists (l ++ c), k. split_and!; try done.
  - rewrite payloads_app, Hp. destruct Hc as [->| ->]; simpl; by rewrite ?app_nil_r.
  - apply Forall_app. split; [done|]. by destruct Hc as [->| ->]; [|apply Forall_singleton].
  - clear -Q Hc. induction Q as [|[i q] l Hi _ IH]; [by destruct Hc as [->| ->]|]. by split.
  - intros w. unfold window_after. rewrite fold_left_app. fold (window_after w l). rewrite Hw. by destruct Hc as [->| ->].
Qed.

(** As long as no descriptor has died, all that the client has sent is on its way. *)
Lemma poll_loop_input cap s l :
  connected cap s l → polling s →
  ∃ d s', PollLoop s = Ret (Some d, s') ∧
    o_written (child_in s') `prefix_of` o_written (child_in s) ++ payloads STDIN l ∧
    (client_in s' = [] → input_bytes_left_ s' = 0 →
     o_written (child_in s') = o_written (child_in s) ++ payloads STDIN l ∧
     (type_ s' = kPty → window s' = window_after (window s) l)).
Proof.
  intros Hc Hp. pose proof (connected_sess _ _ _ Hc) as HI. pose proof (cn_fds _ _ _ Hc) as Hfd.
  assert (wp PollLoop (λ r s', ∃ d, r = Some d ∧
    o_written (child_in s') `prefix_of` o_written (child_in s) ++ payloads STDIN l ∧
    (client_in s' = [] → input_bytes_left_ s' = 0 →
     o_written (child_in s') = o_written (child_in s) ++ payloads STDIN l ∧
     (type_ s' = kPty → window s' = window_after (window s) l))) s) as H.
  { unfold PollLoop. st_go. eapply wp_mono; [eapply (poll_loop_spec _ spent); [done..| | |unfold work; lia]|].
    - exists stdinout_sfd. split; [done|]. simpl. lia.
    - simpl. lia.
    - intros [d|] s' (HI' & _ & Hr).
      + exists d. destruct Hr as (_ & _ & Hd). destruct (ss_fed _ _ _ _ _ _ _ HI') as (cur & body & l' & Hin & Hpre & _ & Hopen).
        split_and!; [done..|]. intros Hci Hl. assert (is_open s' stdinout_sfd) as Ho by (unfold is_open; rewrite Hd; simpl; lia).
        destruct (Hopen Ho) as [He Hw]. pose proof (ic_data _ _ _ _ _ _ Hin) as Hdat. rewrite Hci in Hdat. simpl in Hdat.
        symmetry in Hdat. apply app_eq_nil in Hdat as [-> ->%wire_nil]. simpl in He.
        assert (pending s' = []) as Hpen by (unfold pending; by rewrite Hl, ztake_0). rewrite Hpen in He.
        split; [|done]. rewrite <- He. simpl. case_bool_decide; by rewrite app_nil_r.
      + destruct Hr as (_ & _ & _ & Hx). destruct (cn_kernel _ _ _ Hc) as [Hq _]. rewrite Forall_forall in Hq. by specialize (Hq _ Hx). }
  apply wp_run in H as (r & s' & E & d & -> & H1 & H2). eauto.
Qed.


(** ** The request *)

Lemma shell_arg_term type proto term t :
  shell_arg (type, proto, term) (str "TERM=" ++ t) = (type, proto, t).
Proof. unfold shell_arg. rewrite !bool_decide_false by done. by rewrite starts_with_app. Qed.

(** What the service understands of the arguments in front of the colon. *)
Definition understood (args : list bytes) (command : bytes) : SubprocessType * SubprocessProtocol * bytes :=
  fold_left shell_arg args (if bool_decide (command = []) then kPty else kRaw, kNone, str "dumb").

Lemma ShellService_args args command :
  Forall (λ a, (Zbyte 44 ∉ a) ∧ (Zbyte 58 ∉ a)) args →
  ShellService ((if bool_decide (args = []) then [] else str ",") ++ Join args (Zbyte 44) ++ str ":" ++ command) =
    (let '(type, proto, term) := understood args command in Ret (Some (StartSubprocess command (c_str term) type proto))).
Proof.
  intros Ha. set (pre := (if bool_decide (args = []) then [] else str ",") ++ Join args (Zbyte 44)).
  assert (pre = Join ([] :: args) (Zbyte 44)) as Hpre.
  { unfold pre. rewrite !Join_ref. destruct args; done. }
  assert (Zbyte 58 ∉ pre) as Hcolon.
  { rewrite Hpre, Join_ref. clear -Ha. assert (∀ x, Zbyte 58 ∉ x → Zbyte 58 ∉ join_ref (Zbyte 44) (x :: args)) as H; [|by apply (H []), not_elem_of_nil].
    induction Ha as [|a args [_ Hc] _ IH]; [done|]. intros x Hx. change (join_ref _ _) with (x ++ Zbyte 44 :: join_ref (Zbyte 44) (a :: args)).
    rewrite elem_of_app, elem_of_cons. intros [|[|H]]; [done|done|by apply (IH a Hc)]. }
  assert (Split pre (str ",") = Ret ([] :: args)) as Hsplit.
  { rewrite Split_ref by done. rewrite Hpre, Join_ref. f_equal. apply (split_join_ref (Zbyte 44)); [done|]. constructor; [done|].
    eapply Forall_impl; [exact Ha|]. intros a [Hc _]. apply Forall_forall. by intros b Hb ->. }
  rewrite app_assoc. fold pre. change (str ":" ++ command) with (Zbyte 58 :: command).
  unfold ShellService. rewrite (find_char_app pre (Zbyte 58) command Hcolon).
  rewrite take_app_length. replace (drop (length pre + 1) (pre ++ Zbyte 58 :: command)) with command by (by rewrite drop_app_add).
  rewrite Hsplit. mstep. done.
Qed.

Lemma getopt_word_suffix w : ∀ argv, snd (getopt_word w argv) `suffix_of` argv.
Proof.
  induction w as [|c w IH]; intros argv; [done|]. cbn [getopt_word].
  assert (∀ o : option_, snd (let '(os, argv') := getopt_word w argv in (o :: os, argv')) `suffix_of` argv) as Hs.
  { intros o. pose proof (IH argv). by destruct (getopt_word w argv). }
  repeat case_bool_decide; try apply Hs; [|done].
  destruct w as [|d w]; [|done]. destruct argv as [|a argv]; [done|]. by apply suffix_cons_r.
Qed.

Lemma getopt_suffix fuel : ∀ argv, snd (getopt fuel argv) `suffix_of` argv.
Proof.
  induction fuel as [|fuel IH]; intros argv; [done|]. cbn [getopt]. destruct argv as [|[|c w] rest]; [done..|].
  destruct (_ || _); [done|]. case_bool_decide; [by apply suffix_cons_r|].
  pose proof (getopt_word_suffix w rest) as H1. destruct (getopt_word w rest) as [os rest1]. simpl in H1.
  pose proof (IH rest1) as H2. destruct (getopt fuel rest1) as [os' rest2]. simpl in *.
  apply suffix_cons_r. by etrans.
Qed.

Lemma start_fields name term ty proto :
  command (StartSubprocess name term ty proto) = name ∧ SVC.protocol (StartSubprocess name term ty proto) = proto ∧
  terminal_type (StartSubprocess name term ty proto) = term.
Proof. unfold StartSubprocess. by destruct (_ && _). Qed.

(** The terminal of the client is put into raw mode ([raw_stdin] of [RemoteShell]). *)
Definition client_raw (r : remote_shell) : bool :=
  bool_decide (rs_type_arg r = str "pty") || (bool_decide (rs_type_arg r = []) && rs_empty r).

(** What a connection is started with: a raw terminal where [client_raw] says so, and
    the buffer of the shell protocol when that is used; without it, a
    request that an old device cannot take is refused before connecting. *)
Theorem RemoteShell_starts `{!ClientEnv} cap junk stdin sizes r c :
  zlen junk = cap + 5 → 24 ≤ cap < 2 ^ 31 →
  (MAX_PAYLOAD_V1 < zlen (rs_service r) → rs_protocol r = false →
   RemoteShell junk stdin sizes r c = Ret (inl (str "error: shell command too long"), c)) ∧
  (∀ fd a c', RemoteShell junk stdin sizes r c = Ret (inr (fd, a), c') →
   raw_stdin a = client_raw r ∧ escape_char a = rs_escape r ∧ stdin_fd a = stdin ∧ windows a = sizes ∧
   snd <$> sessions c' !! fd = Some (write_fd a) ∧
   (if rs_protocol r then ∃ p, protocol a = Some p ∧ sane cap p else protocol a = None)).
Proof.
  intros Hj Hc. unfold RemoteShell. split.
  { intros Hl ->. zbool. done. }
  destruct (init_sane cap junk Hj Hc) as (p & Ep & Hp & _). intros fd a c'.
  destruct (_ && _); [done|]. unfold mbind, ST_bind.
  destruct (adb_connect _ _ c) as [[[fd1 t|e|e] c1]| | |]; try done. unfold get, lift. cbn.
  destruct (sessions c1 !! fd1) as [[i o]|] eqn:Es; cbn; [|done].
  destruct (rs_protocol r); rewrite ?Ep; cbn; intros [= <- <- <-]; cbn; rewrite Es; by eauto 10.
Qed.


(** ** Executions *)

Definition sample_run : service :=
  sample_service kRaw (Out [] [Accept 2; Reject EAGAIN])
    [Data (str "hello "); Fault EAGAIN; Data (str "world")] [Data (str "oops")]
    [Data (take 4 (wire [(STDIN, str "abc"); (CLOSE, [])])); Data (drop 4 (wire [(STDIN, str "abc"); (CLOSE, [])]))]
    [PollIntr; Ready (Flags true false false) (Flags false false false) (Flags true false false)]
    [WaitError; Exited 3].

Lemma sample_connected : connected 24 sample_run [(STDIN, str "abc"); (CLOSE, [])].
Proof.
  constructor; cbn [sample_run sample_service type_ stdinout_sfd_ stderr_sfd_ protocol_sfd_ input_ output_ input_bytes_left_
    child_in child_out child_err stdin_shut client_in client_out polls shutdowns]; try (done || lia).
  - split; [|by vm_compute]. repeat constructor; by do 2 eexists.
  - repeat constructor; simpl; try done; lia.
  - intros e. by intros ?%elem_of_nil.
  - split; [|done]. repeat constructor.
  - repeat constructor.
Qed.



(** Typing [~~a], a line end and the sequence that disconnects, with a window of 24 by 80. *)
Definition sample_typing : StdinReadArgs :=
  StdinArgs [Typed (str "~~"); Resized; Typed (str "a" ++ [Zbyte 10] ++ str "~"); Typed (str ".x")]
    [Some (Winsize 24 80 0 0); None] (Out [] [Accept 3]) true (Some sample_protocol) (Zbyte 126).

Lemma sample_polling ty o out err client ps ws : polling (sample_service ty o out err client ps ws).
Proof.
  constructor; [..|done|done].
  - destruct ty; intros []; cbn; lia.
  - destruct ty; intros [] []; cbn; intros; first [done|lia].
  - by destruct ty.
  - intros []; done.
Qed.



(** ** Where the code goes wrong *)

End SPR.
