(* ===== verification/Sideload.v ===== *)
(** * Serving a package: [adb sideload] of [adb/client/commandline.cpp]

    A device in recovery asks for the blocks of a package by their numbers, eight
    decimal digits each, until it sends [DONEDONE] or [FAILFAIL].  Devices that do
    not know this get the whole package at once.  The texts about the progress are
    left out.  The code is [SL]; the theorems ([SLF]) say that a device that asks
    for blocks gets those blocks, that one that asks for all of them in order has
    the package, and that a device of the older protocol gets the package too. *)

From S2P Require Import Prelude State CString CStringFacts LibBase LibBaseFacts AdbIO AdbIOFacts Transport Client ClientFacts.
Local Open Scope Z_scope.
Local Open Scope record_scope.

Module SL.
Section sideload.
Context `{!ClientEnv}.
Local Abbreviation C := (ST client).

Definition CHUNK_SIZE : Z := 64 * 1024.
Definition SIDELOAD_HOST_BLOCK_SIZE : Z := CHUNK_SIZE.
Definition kMinadbdServicesExitSuccess : bytes := str "DONEDONE".
Definition kMinadbdServicesExitFailure : bytes := str "FAILFAIL".

(** A package: what [stat] says of its size, and its contents. *)
Record package := Package { st_size : Z; contents : bytes }.

Definition write_exactly (fd : nat) (buf : bytes) : C bool := on_write fd (λ o, WriteFdExactly o buf).

(** [adb_lseek(package_fd, offset, SEEK_SET) == offset] and
    [ReadFdExactly(package_fd, buf, len)] *)
Definition read_package (p : package) (offset len : Z) : option bytes :=
  if offset <? 0 then None
  else let b := ztake len (zdrop offset (contents p)) in if zlen b =? len then Some b else None.

(** The loop of [adb_sideload_install]; [xfer] is the number of bytes sent. *)
Fixpoint serve_loop (fuel : nat) (device_fd : nat) (p : package) (xfer : Z) : C Z :=
  match fuel with
  | O => lift OutOfFuel
  | S fuel =>
      '(ok, buf) ← read_exactly device_fd 8;
      if negb ok then mret (-1)
      else
        let buf := c_str buf in
        if bool_decide (kMinadbdServicesExitSuccess = buf) || bool_decide (kMinadbdServicesExitFailure = buf) then
          mret (if bool_decide (kMinadbdServicesExitFailure = buf) then 1 else 0)
        else
          let block := st_val (strtoll buf 10) in
          let offset := block * SIDELOAD_HOST_BLOCK_SIZE in
          if st_size p <=? offset then mret (-1)
          else
            let to_write := if st_size p <? offset + SIDELOAD_HOST_BLOCK_SIZE then st_size p - offset
                            else SIDELOAD_HOST_BLOCK_SIZE in
            match read_package p offset to_write with
            | None => mret (-1)
            | Some buf =>
                ok ← write_exactly device_fd buf;
                if negb ok then _ ← adb_status device_fd; mret (-1)
                else serve_loop fuel device_fd p (xfer + to_write)
            end
  end.

(** The loop of [adb_sideload_legacy]: the package from [pos] on. *)
Fixpoint legacy_loop (fuel : nat) (out_fd : nat) (p : package) (pos size : Z) : C bool :=
  if 0 <? size then
    match fuel with
    | O => lift OutOfFuel
    | S fuel =>
        let xfer := if CHUNK_SIZE <? size then CHUNK_SIZE else size in
        match read_package p pos xfer with
        | None => mret false
        | Some buf =>
            ok ← write_exactly out_fd buf;
            if negb ok then _ ← adb_status out_fd; mret false
            else legacy_loop fuel out_fd p (pos + xfer) (size - xfer)
        end
    end
  else mret true.

Definition adb_sideload_legacy (p : package) (size : Z) : C Z :=
  r ← adb_connect (str "sideload:" ++ print_d size) false;
  match r with
  | Refused _ | NotRunning _ => mret (-1)
  | Connected out_fd _ =>
      ok ← legacy_loop (Z.to_nat size) out_fd p 0 size;
      if negb ok then mret (-1)
      else
        status ← adb_status out_fd;
        mret (match status with inl _ => -1 | inr _ => 0 end)
  end.

(** The connect message. *)
Definition install_service (rescue_mode : bool) (p : package) : bytes :=
  (if rescue_mode then str "rescue-install" else str "sideload-host") ++ str ":" ++
  print_d (st_size p) ++ str ":" ++ print_d SIDELOAD_HOST_BLOCK_SIZE.

Definition INT_MAX : Z := 2 ^ 31 - 1.

(** [p] is [None] when the file cannot be examined or opened; [reads] bounds the
    requests of the device. *)
Definition adb_sideload_install (p : option package) (rescue_mode : bool) (reads : nat) : C Z :=
  match p with
  | None => mret (-1)
  | Some p =>
      r ← adb_connect (install_service rescue_mode p) false;
      match r with
      | Refused _ | NotRunning _ =>
          if rescue_mode then mret (-1)
          else if INT_MAX <? st_size p then mret (-1)
          else adb_sideload_legacy p (st_size p)
      | Connected device_fd _ => serve_loop reads device_fd p 0
      end
  end.
End sideload.
End SL.

(** ** What the device gets *)

Module SLF.
Import SL.

(** A block as the device asks for it, [%08d], and the bytes it has. *)
Definition request (n : Z) : bytes :=
  replicate (8 - length (print_u n)) (Zbyte 48) ++ print_u n.

Definition block (p : package) (n : Z) : bytes :=
  ztake SIDELOAD_HOST_BLOCK_SIZE (zdrop (n * SIDELOAD_HOST_BLOCK_SIZE) (contents p)).

Definition exists_block (p : package) (n : Z) : Prop :=
  0 ≤ n ∧ n * SIDELOAD_HOST_BLOCK_SIZE < st_size p.

(** The contents of the file are as long as [stat] says. *)
Definition intact (p : package) : Prop := zlen (contents p) = st_size p.

Definition verdict (ok : bool) : bytes :=
  if ok then kMinadbdServicesExitSuccess else kMinadbdServicesExitFailure.

Lemma request_digits n : 0 ≤ n < 10 ^ 8 →
  zlen (request n) = 8 ∧ Forall (λ b, is_base_digit 10 b = true) (request n) ∧ digits_val 10 (request n) = n.
Proof.
  intros Hn. destruct (print_base_spec 10 n) as (Hv & Hf & Hne); [lia..|].
  pose proof (length_print_base_le 10 n 8 ltac:(lia) Hn ltac:(lia)) as Hl. unfold request, print_u in *. split_and!.
  - rewrite length_app, length_replicate. lia.
  - apply Forall_app. split; [|done]. apply Forall_replicate. reflexivity.
  - rewrite digits_val_zeros by lia. exact Hv.
Qed.

Lemma strtoll_request n : 0 ≤ n < 10 ^ 8 → st_val (strtoll (request n) 10) = n.
Proof.
  intros Hn. destruct (request_digits n Hn) as (Hl & Hf & Hv). unfold strtoll.
  rewrite <- (app_nil_r (request n)), strto_scan_digits; [|by left| |done..].
  - rewrite Hv. zbool. done.
  - intros E. rewrite E in Hl. discriminate Hl.
Qed.

Lemma request_c_str n : 0 ≤ n < 10 ^ 8 → c_str (request n) = request n.
Proof.
  intros Hn. destruct (request_digits n Hn) as (_ & Hf & _). apply c_str_id.
  rewrite Forall_forall in Hf. intros H%Hf. discriminate H.
Qed.

Lemma request_no_verdict n ok : 0 ≤ n < 10 ^ 8 → verdict ok ≠ request n.
Proof.
  intros Hn E. destruct (request_digits n Hn) as (_ & Hf & _). rewrite <- E in Hf.
  destruct ok; apply Forall_cons in Hf as [H _]; discriminate H.
Qed.

Lemma requests_length ns : 8 * zlen ns ≤ zlen (concat (request <$> ns)).
Proof.
  induction ns as [|n ns IH]; [done|]. cbn [fmap list_fmap concat]. rewrite length_app.
  assert (8 ≤ length (request n))%nat by (unfold request; rewrite length_app, length_replicate; lia). cbn [length]. lia.
Qed.

(** What is read of the package is the block. *)
Lemma read_package_block p n :
  intact p → exists_block p n →
  let offset := n * SIDELOAD_HOST_BLOCK_SIZE in
  read_package p offset (if st_size p <? offset + SIDELOAD_HOST_BLOCK_SIZE then st_size p - offset
                         else SIDELOAD_HOST_BLOCK_SIZE) = Some (block p n).
Proof.
  intros Hi [Hn Hs] offset. unfold intact in Hi. unfold read_package, block. fold offset in Hs |- *.
  assert (0 ≤ offset) by (unfold offset, SIDELOAD_HOST_BLOCK_SIZE, CHUNK_SIZE; lia). zbool.
  pose proof (zlen_zdrop offset (contents p) ltac:(lia)) as Hd. unfold SIDELOAD_HOST_BLOCK_SIZE, CHUNK_SIZE in *.
  destruct (Z.ltb_spec (st_size p) (offset + 64 * 1024)).
  - rewrite !ztake_all by lia. rewrite Hd, Hi. zbool. done.
  - rewrite zlen_ztake by lia. zbool. done.
Qed.

(** The blocks in order are the package. *)
Lemma blocks_from p k m :
  zlen (contents p) ≤ (m + Z.of_nat k) * SIDELOAD_HOST_BLOCK_SIZE → 0 ≤ m →
  concat (block p <$> seqZ m (Z.of_nat k)) = zdrop (m * SIDELOAD_HOST_BLOCK_SIZE) (contents p).
Proof.
  revert m. induction k as [|k IH]; intros m Hl Hm.
  - rewrite zdrop_all; [done|]. lia.
  - rewrite seqZ_cons by lia. rewrite Nat2Z.inj_succ, Z.pred_succ. cbn [fmap list_fmap concat].
    rewrite IH by (unfold SIDELOAD_HOST_BLOCK_SIZE, CHUNK_SIZE in *; lia). unfold block.
    rewrite <- (ztake_zdrop SIDELOAD_HOST_BLOCK_SIZE (zdrop (m * _) _)) at 2. f_equal.
    unfold SIDELOAD_HOST_BLOCK_SIZE, CHUNK_SIZE. rewrite zdrop_zdrop by lia. f_equal. lia.
Qed.

Section facts.
Context `{HC : !ClientEnv}.

Lemma wp_fd_write_exactly c0 c fd i o b Q :
  used c0 c i o → fd = length (sessions c0) → accepts o →
  (∀ c' o', used c0 c' i o' → accepts o' → o_written o' = o_written o ++ b → Q true c') →
  wp (write_exactly fd b) Q c.
Proof.
  intros U Hf Ho H. destruct (write_accepts o b Ho) as (o' & E & Hw & Ho').
  eapply wp_on_write; [done..|]. intros c' U'. by eapply H.
Qed.

(** A connection that is the last one is used relative to the state before it. *)
Lemma used_last c pre i o : sessions c = pre ++ [(i, o)] → ∃ c0, used c0 c i o ∧ sessions c0 = pre.
Proof.
  intros E. exists (c <| sessions := pre |> <| network_script ::= cons (inl []) |>). by destruct c.
Qed.

Lemma serve_loop_spec p c0 ok : intact p → ∀ ns reads c i o rest xfer,
  used c0 c i o → blocking i → accepts o → Forall (exists_block p) ns → Forall (λ n, n < 10 ^ 8) ns → (length ns < reads)%nat →
  stream_data i = concat (request <$> ns) ++ verdict ok ++ rest →
  wp (serve_loop reads (length (sessions c0)) p xfer) (λ r c', r = (if ok then 0 else 1) ∧
    ∃ i' o', used c0 c' i' o' ∧ stream_data i' = rest ∧
      o_written o' = o_written o ++ concat (block p <$> ns)) c.
Proof.
  intros Hp. induction ns as [|n ns IH]; intros [|reads] c i o rest xfer U Hb Ho Hn H8 Hr Hd; cbn in Hr; try lia;
    cbn [serve_loop].
  - st_go. replace 8 with (zlen (verdict ok)) by by destruct ok. eapply wp_fd_read_exactly; [done|done|done| |exact Hd|].
    { by destruct ok. }
    intros c' i' U' Hb' Hd'. cbn [negb]. replace (c_str (verdict ok)) with (verdict ok) by by destruct ok.
    destruct ok; cbn; st_go; (split; [done|]); exists i', o; rewrite app_nil_r; done.
  - apply Forall_cons in Hn as [Hn Hns], H8 as [Hn8 H8]. pose proof Hn as [Hn0 Hoff].
    assert (0 ≤ n < 10 ^ 8) as Hn8' by lia. clear Hn8. rename Hn8' into Hn8.
    destruct (request_digits n Hn8) as (Hl & _). cbn [fmap list_fmap concat] in Hd |- *. rewrite <- app_assoc in Hd.
    st_go. rewrite <- Hl. eapply wp_fd_read_exactly; [done|done|done|lia|done|]. intros c' i' U' Hb' Hd'. cbn [negb].
    rewrite (request_c_str n Hn8), !bool_decide_false by (apply (request_no_verdict n true Hn8) || apply (request_no_verdict n false Hn8)).
    cbn [orb]. rewrite (strtoll_request n Hn8). replace (st_size p <=? _) with false by lia.
    rewrite (read_package_block p n Hp Hn). st_go.
    eapply wp_fd_write_exactly; [done|done|done|]. intros c2 o2 U2 Ho2 Hw2. cbn [negb].
    eapply wp_mono; [eapply (IH reads c2 i' o2 rest); try done; lia|]. intros r c3 (-> & i3 & o3 & U3 & D3 & W3).
    split; [done|]. exists i3, o3. split_and!; [done..|]. by rewrite W3, Hw2, <- app_assoc.
Qed.

(** Whatever the device sends, the client returns, and it has written blocks. *)
Lemma serve_loop_total p c0 : intact p → ∀ reads c i o xfer,
  used c0 c i o → accepts o → zlen (stream_data i) < 8 * Z.of_nat reads →
  wp (serve_loop reads (length (sessions c0)) p xfer) (λ r c', r ∈ [-1; 0; 1] ∧
    ∃ i' o' ns, used c0 c' i' o' ∧ Forall (exists_block p) ns ∧
      o_written o' = o_written o ++ concat (block p <$> ns)) c.
Proof.
  intros Hp. induction reads as [|reads IH]; intros c i o xfer U Ho Hr; [lia|]. cbn [serve_loop]. st_go.
  destruct (read_exactly_spec i 8) as (i' & E & D); [lia|].
  eapply wp_on_read; [done..|rewrite E; reflexivity|]. intros c' U'.
  assert (∀ r, r ∈ [-1; 0; 1] → r ∈ [-1; 0; 1] ∧ ∃ i' o' ns, used c0 c' i' o' ∧ Forall (exists_block p) ns ∧
    o_written o' = o_written o ++ concat (block p <$> ns)) as Hend.
  { intros r Hin. split; [done|]. exists i', o, []. cbn. by rewrite app_nil_r. }
  destruct (Z.leb_spec 8 (zlen (stream_data i))) as [H8|]; cbn [negb]; [|st_go; apply Hend; set_solver].
  destruct (_ || _); [st_go; apply Hend; case_bool_decide; set_solver|].
  set (n := st_val _). destruct (Z.leb_spec (st_size p) (n * SIDELOAD_HOST_BLOCK_SIZE)); [st_go; apply Hend; set_solver|].
  destruct (decide (0 ≤ n)) as [Hn|Hn].
  - rewrite (read_package_block p n Hp) by done. st_go.
    eapply wp_fd_write_exactly; [done..|]. intros c2 o2 U2 Ho2 Hw. cbn [negb].
    eapply wp_mono; [eapply IH; [done..|]|].
    { rewrite D, zlen_zdrop by lia. lia. }
    intros r c3 (Hin & i3 & o3 & ns & U3 & Hns & W3). split; [done|]. exists i3, o3, (n :: ns).
    split_and!; [done|by constructor|]. cbn. by rewrite W3, Hw, <- app_assoc.
  - unfold read_package. replace (_ <? 0) with true by (unfold SIDELOAD_HOST_BLOCK_SIZE, CHUNK_SIZE; lia).
    st_go. apply Hend. set_solver.
Qed.

(** The older protocol sends what is left of the package. *)
Lemma legacy_loop_spec p c0 : intact p → ∀ fuel c i o pos size Q,
  used c0 c i o → accepts o → 0 ≤ pos → pos + size = st_size p → size ≤ Z.of_nat fuel →
  (∀ c' o', used c0 c' i o' → o_written o' = o_written o ++ zdrop pos (contents p) → Q true c') →
  wp (legacy_loop fuel (length (sessions c0)) p pos size) Q c.
Proof.
  intros Hp. induction fuel as [|fuel IH]; intros c i o pos size Q U Ho Hpos Hsz Hf HQ; cbn [legacy_loop]; unfold intact in Hp.
  { zbool. st_go. eapply HQ; [done|]. by rewrite zdrop_all, app_nil_r by lia. }
  destruct (Z.ltb_spec 0 size); [|st_go; eapply HQ; [done|]; by rewrite zdrop_all, app_nil_r by lia].
  set (xfer := if CHUNK_SIZE <? size then CHUNK_SIZE else size).
  assert (0 < xfer ≤ size) by (unfold xfer, CHUNK_SIZE; destruct (Z.ltb_spec (64 * 1024) size); lia).
  unfold read_package. zbool. rewrite zlen_ztake, Z.eqb_refl by (rewrite zlen_zdrop; lia). st_go.
  eapply wp_fd_write_exactly; [done..|]. intros c2 o2 U2 Ho2 Hw. cbn [negb].
  eapply IH; [done|done|lia..|]. intros c3 o3 U3 W3. eapply HQ; [done|].
  rewrite W3, Hw, <- app_assoc. f_equal. rewrite <- (zdrop_zdrop xfer pos) by lia. apply ztake_zdrop.
Qed.

(** A device that knows only the older protocol gets the package, and its answer decides. *)
Theorem sideload_legacy_correct p c c1 t pre i o ok reason rest :
  intact p → st_size p ≤ INT_MAX →
  adb_connect (str "sideload:" ++ print_d (st_size p)) false c = Ret (Connected (length pre) t, c1) →
  sessions c1 = pre ++ [(i, o)] → blocking i → accepts o → zlen reason < 2 ^ 16 →
  stream_data i = (if ok : bool then str "OKAY" ++ rest else str "FAIL" ++ frame_string reason ++ rest) →
  ∃ c' i' o', adb_sideload_legacy p (st_size p) c = Ret (if ok then 0 else -1, c') ∧
    sessions c' = pre ++ [(i', o')] ∧ stream_data i' = rest ∧ o_written o' = o_written o ++ contents p.
Proof.
  intros Hp Hm Hc Hs Hb Ho Hr Hd. destruct (used_last c1 pre i o Hs) as (c0 & U & <-).
  cut (wp (adb_sideload_legacy p (st_size p)) (λ r c', r = (if ok then 0 else -1) ∧ ∃ i' o', used c0 c' i' o' ∧
    stream_data i' = rest ∧ o_written o' = o_written o ++ contents p) c).
  { unfold wp. destruct (adb_sideload_legacy _ _ c) as [[r c']| | |]; try done.
    intros (-> & i' & o' & [U1] & D & W). by exists c', i', o'. }
  unfold adb_sideload_legacy. st_go. unfold wp at 1. rewrite Hc. st_go.
  unfold intact in Hp.
  eapply legacy_loop_spec; [done|done|done|lia..|]. intros c2 o2 U2 W2. cbn [negb]. st_go. rewrite zdrop_0 in W2.
  destruct ok.
  - eapply wp_status_okay; [done..|]. intros c3 i3 U3 _ D3. st_go. eauto 10.
  - eapply wp_status_fail; [done..|]. intros c3 i3 U3 _ D3. st_go. eauto 10.
Qed.

(** C34: Sideloading a package: whatever a device sends after it was connected, the
    client returns, and it has written blocks of the package and nothing else; when the device
    asks for blocks that exist, as eight digits each, and then says how it went, it has been sent just these
    blocks in this order, and the exit code is what it said; the blocks in order
    are the package. *)
Theorem sideload_correct p rescue reads c c1 t pre i o :
  intact p → adb_connect (install_service rescue p) false c = Ret (Connected (length pre) t, c1) →
  sessions c1 = pre ++ [(i, o)] → blocking i → accepts o → zlen (stream_data i) < 8 * Z.of_nat reads →
  ∃ r c' i' o' ns, adb_sideload_install (Some p) rescue reads c = Ret (r, c') ∧ r ∈ [-1; 0; 1] ∧
    sessions c' = pre ++ [(i', o')] ∧ Forall (exists_block p) ns ∧
    o_written o' = o_written o ++ concat (block p <$> ns) ∧
    (∀ ns ok rest, Forall (exists_block p) ns → Forall (λ n, n < 10 ^ 8) ns →
       stream_data i = concat (request <$> ns) ++ verdict ok ++ rest →
       r = (if ok then 0 else 1) ∧ o_written o' = o_written o ++ concat (block p <$> ns)) ∧
    (∀ k, st_size p ≤ k * SIDELOAD_HOST_BLOCK_SIZE → concat (block p <$> seqZ 0 k) = contents p).
Proof.
  intros Hp Hc Hs Hb Ho Hr. destruct (used_last c1 pre i o Hs) as (c0 & U & <-).
  assert (adb_sideload_install (Some p) rescue reads c = serve_loop reads (length (sessions c0)) p 0 c1) as ->.
  { unfold adb_sideload_install, mbind, ST_bind. rewrite Hc. done. }
  pose proof (serve_loop_total p c0 Hp reads c1 i o 0 U Ho Hr) as HT. unfold wp at 1 in HT.
  destruct (serve_loop _ _ _ _ c1) as [[r c']| | |] eqn:E; try done.
  destruct HT as (Hin & i' & o' & ns & U' & Hns & W).
  exists r, c', i', o', ns. split_and!; [done..|apply U'|done|done| |].
  - intros ns' ok rest Hx H8 Hd. assert (length ns' < reads)%nat as Hl.
    { rewrite Hd, !length_app in Hr. pose proof (requests_length ns'). destruct ok; cbn in Hr; lia. }
    pose proof (serve_loop_spec p c0 ok Hp ns' reads c1 i o rest 0 U Hb Ho Hx H8 Hl Hd) as HS.
    unfold wp in HS. rewrite E in HS. destruct HS as (-> & i2 & o2 & [U2] & _ & W2). split; [done|].
    destruct U' as [U1]. rewrite U1 in U2. by simplify_eq.
  - intros k Hk. rewrite <- (zdrop_0 (contents p)). unfold intact in Hp.
    rewrite <- (Z2Nat.id k) at 1 by (unfold SIDELOAD_HOST_BLOCK_SIZE, CHUNK_SIZE in *; lia).
    apply (blocks_from p (Z.to_nat k) 0); unfold SIDELOAD_HOST_BLOCK_SIZE, CHUNK_SIZE in *; lia.
Qed.
End facts.

Section sample.
#[local] Existing Instance sample_client_env.

(** A client that finds a server with a device in recovery, which asks for the
    only block twice. *)
Definition sample_package : package := Package 5 (str "hello").

Definition recovery_client : client :=
  Client kTransportAny None 0 (str "tcp:5037") None None None []
    [inr ([Data (str "OKAY00040029")], Out [] []);
     inr ([Data (str "OKAY"); Data (str "12345678OKAY"); Data (str "0000"); Data (str "000000000000DONEDONE")], Out [] [Accept 5])]
    [] [] [].

Definition connected_client : client :=
  match adb_connect (install_service false sample_package) false recovery_client with
  | Ret (_, c) => c
  | _ => recovery_client
  end.
Definition sample_session : instream * outstream := nth 1 (sessions connected_client) ([], Out [] []).

Lemma sideload_correct_witness :
  ∃ c', adb_sideload_install (Some sample_package) false 4 recovery_client = Ret (0, c') ∧
    (snd <$> sessions c' !! 1%nat) = Some (Out (o_written (sample_session.2) ++ str "hellohello") []).
Proof.
  destruct (sideload_correct sample_package false 4 recovery_client connected_client (Some 4050765991979987505)
    (take 1 (sessions connected_client)) (sample_session.1) (sample_session.2))
    as (r & c' & i' & o' & ns & E & _ & Hs & _ & _ & H & _).
  - reflexivity.
  - vm_compute. reflexivity.
  - vm_compute. reflexivity.
  - exact (blocking_data [str "0000"; str "000000000000DONEDONE"]).
  - intros e He. vm_compute in He. by apply elem_of_nil in He.
  - vm_compute. reflexivity.
  - destruct (H [0; 0] true []) as [-> W].
    + repeat constructor; intros H0; discriminate H0.
    + repeat constructor.
    + vm_compute. reflexivity.
    + exists c'. split; [exact E|]. vm_compute in E. injection E as <-. vm_compute. reflexivity.
Defined.
End sample.
End SLF.
